(* ===== verification/_CoqProject ===== *)
-Q . S2P
Prelude.v
SList.v
Packet.v
Wire.v
SQueue.v
SArray.v
SString.v
SHash.v
SHashSpec.v
Config.v
Net.v
NetSend.v
NetLink.v
NetConn.v
NetFd.v
Cluster.v
GLock.v
CorePkt.v
DLock.v
Create.v
ServGroup.v
ServGroupRpc.v
ServGroupSpec.v
ServGroupUser.v
Paxos.v
PaxosSpec.v
PaxosRun.v
Core.v
CoreRun.v
AccessId.v
LockClient.v
LockNet.v
LockProgress.v
LockNetRun.v
MsQueue.v
MsQueueSpec.v
MsQueueRun.v
Queue1r1w.v
LockQueue.v
QueueTest.v
Sys.v
Zoo.v
ZooLock.v
ZooWake.v
ZooProgress.v
ZooRun.v
ZooSync.v
ZooVec.v
ZooVecSpec.v
ZooVecRun.v
ZooClient.v
ZooClientSpec.v
ZooClientRun.v
