(* ===== verification/Prelude.v ===== *)
(** * simple_distribute_filesystem: a verification development

    The program is a small distributed file system in C: a library of
    containers and texts ([src/common]), packets and non-blocking connections
    ([src/net]), a group of servers that identify each other and call each
    other ([src/serv_group]), and on top of it ([src/core]) the meta servers,
    the data servers and the clients: creating files, a global lock, chains of
    lock requests over data servers, and a Paxos with members that come and
    go.  A process is single threaded: [s_core_poll] calls [s_servg_poll],
    which calls [s_net_poll], which calls [s_servg_do_event] for each packet,
    which calls the handler registered for the type of the server and the
    function of the packet.  A remote call is a packet with a request number
    and a callback that runs with the answer, or with a null packet.

    ** Files

    - [Prelude]: machine integers ([uint], [sint] ...), [struct s_id], the
      tactics and the generic lemmas.
    - [SList] ([s_list.h]): links in a heap.  [SQueue] ([s_queue.c]): a
      circular buffer.  [SArray] ([s_array.c]): a growing array.
    - [SString] ([s_string.c], [s_num_str.c], [s_misc.c]): texts.
    - [SHash] ([s_hash.c]): the scatter table, node by node.  [SHashSpec]
      proves that it is a finite map and states that as the interface [Table]
      with its laws [TableLaws]; the components below are written and proved
      against the interface, and run on its two instances, the table itself
      and [gmap].
    - [Config] ([s_config.c]): the parser and the typed reads.
    - [Packet] ([s_packet.c]): one block with its header, every read and
      write, over an interface of accesses to the block ([Memory]); [Wire] ([s_packet.h]): lists of fields written and read.
    - [Net], [NetSend], [NetLink], [NetConn], [NetFd] ([s_net.c]): chunks to
      packets, packets to bytes, two ends with a kernel between them, the pool
      of connections, the descriptors and the walk of a poll with the callbacks
      in the middle of it.  What the system calls
      return are arguments.
    - [Cluster] ([s_ipc.h]): the packet types and the readers the handlers share.
    - [ServGroup], [ServGroupRpc], [ServGroupSpec] ([src/serv_group]): the
      servers, the lists they wait on, the remote calls, the dispatch.  What
      the group calls is a parameter ([react]); [ServGroupUser] keeps an
      invariant of the user through every operation of the group.
    - [GLock] ([s_core_glock_mserv.c]), [DLock] ([s_core_dserv.c]), [CorePkt]
      ([s_core_pkt.c], [s_core_param.c], [s_core_util.c]), [Create]
      ([s_core_create_*.c]): the handlers of the core.
    - [Paxos], [PaxosSpec], [PaxosRun] ([s_core_paxos.c]).
    - [Core], [CoreRun] ([s_core.c]): the server object, which puts the parts
      above behind the table of handlers of a group.
    - [AccessId] ([test2/gen_random_id.c], [test3/s_access_id.c]) and
      [LockClient] ([test3/s_ud_client.c]): the client of the lock chains.
      [LockNet], [LockProgress], [LockNetRun]: data servers ([DLock] behind the
      table of [Core]) and clients with messages between them.
    - [Zoo], [ZooSync] ([zookeeper/s_zookeeper.c]): locks, vectors of locks and
      barriers on a ZooKeeper service that is a parameter ([ZkService], with
      the laws [ZkLaws]).  [ZooLock], [ZooWake], [ZooProgress] prove the locks;
      [ZooRun] has a service that meets the laws, runs, and the races.
      [ZooVec], [ZooVecSpec], [ZooVecRun]: what vectors promise in the runs
      without these races ([vstep]).
    - [ZooClient], [ZooClientSpec], [ZooClientRun] ([test2/s_ud_client.c]): the
      client that locks its data servers by a vector; the steps of all the
      clients, of which [ureach] makes a run of [ZooVec].
    - [Sys] ([s_mem.c], [s_thread.c], [s_file_reader.c], [server/s_main.c]).
    - [MsQueue], [MsQueueSpec], [MsQueueRun] ([s_ms_queue.c]): the lock-free
      queue as an interleaving of the steps its threads do on shared memory.
      [Queue1r1w] ([s_1r1w_queue.c]): one reader, one writer.  [LockQueue]
      ([s_lock_queue.c], [s_spinlock_queue.c]).  [QueueTest] ([test/s_main.c],
      [test_cas/s_main.c]): the programs that try them, against an interface
      ([RwQueue]) of which the queues are instances.

    ** How the model reads

    The state of a component is a [Record] with the fields of its struct; a
    handler is one [Definition] that takes the state, the server a packet is
    from and the packet, and returns the state with the effects in order
    (packets sent, answers, remote calls); the callback of a remote call is a
    value that the component interprets ([run_cb], [run_paxos_cb]).  [None]
    ends the model where the C code reads or writes outside an object,
    follows a null or freed pointer, or shifts out of range; a theorem that
    gives [Some] therefore says that none of this happens.  Two kinds of access
    are total instead: those to the block of a packet, which are inside it
    ([created_packet_safe]), and the read behind the last element of a request
    in [ilock_is_conflict], which does happen ([conflict_reads_behind]) and
    gives any value here.  An [int] is a [Z]
    that is wrapped where the code computes at its width.  Who is active, the
    time, what memory holds that was not set, and what the kernel answers are
    arguments.  What a handler sends is done when it has returned; in the
    C code a write that fails closes the connection, with its callbacks, in the
    middle of the handler.  In [LockNet] the packets between servers are
    messages in a bag: TCP keeps an order between two servers, so that the
    network of the model can do more than the real one.

    ** What is shown

    - Containers refine their mathematical counterparts for every sequence of
      operations ([list_ops_refine], [q_ops_refine], [arr_ops_refine],
      [hash_ops_refine]); [s_hash_set] ends on every sound table.
    - Texts and numbers, configuration files, packets and meta data come back
      from what was written or printed.
    - A packet is never left by a read or a write; any chunking of a stream is
      received as the packets that were sent; what is written to a socket is
      what was handed to [s_net_send]; so that what one process sends is what
      the other gets ([link_delivers]).  Whatever connections come and go, also
      while they are polled, the listening socket stays, every pointer that
      [epoll] keeps is that of a connection object, and the counts are right
      ([net_descriptors]); an object that is closed is handed out twice, by
      which a descriptor is lost for ever ([descriptor_lost]).
    - Server group: the callback of a remote call has run once when the call is
      freed, up to the first use of freed memory ([rpc_callback_once]); a
      connection that does not know the password changes nothing; a configured
      server that does is let in; the walk over active servers.
    - Global lock and lock chains: exclusion, nobody waits in vain, what is
      passed on; a creation is answered once, when all answers are there.
    - Lock chains on the network: with the requests that the clients really
      make every handler runs to its end ([network_no_failure]), the locks exclude
      ([network_exclusion]), the messages come to an end ([network_settles]),
      and when they have, every request has been answered
      ([network_no_deadlock]).
    - The server: every run of [s_core_poll] takes each part through a history
      of its component ([server_refines_parts]), so that what is proved of the
      components holds of servers ([running_server_sound]); a handler finds the
      struct it was written for ([handlers_find_part]).
    - Paxos: promises are kept along every history, and records are accepted in
      accordance with them unless a refresh rewrites them ([promise_kept],
      [refresh_breaks_promise]); a version changes only if a majority of
      distinct servers told it.
    - Queues shared by threads: every interleaving is a trace of an atomic
      queue ([trace_refines]); the one reader, one writer queue is wait free,
      the locked queue has always a thread that can go on.  The programs of
      the repository find them correct in every interleaving
      ([queue_tests_pass]).
    - ZooKeeper: the locks exclude ([zoo_exclusion]) in every interleaving of
      the threads of any number of processes; nobody who is first in line is
      forgotten ([zoo_no_lost_wakeup]), so that in a state at rest somebody has
      the lock that is waited for ([zoo_progress]); the barrier holds until
      enough have come, as long as no caller has left it on an error
      ([zoo_sync_barrier]).  The callback of a vector has all
      its locks ([lockv_has_locks]), and vectors in one order do not block each
      other for ever ([vectors_progress]), if the watcher does not come into the
      test of another thread; it may, and then neither holds
      ([vector_complete_without_lock]).
    - Clients on ZooKeeper: a data server is one request's at a time
      ([ud_exclusion]), and in a state at rest nothing is left to do
      ([ud_no_deadlock]); a data server that is missing stops them
      ([missing_dserv_keeps_locks]).
    - What is said of ZooKeeper is of runs in which sessions and watches last
      ([ZkLaws]); that somebody holds, or is woken, is of runs in which no process
      was told of an error of the service and deletes work ([at_rest],
      [deletes]).  When a session ends its lock is granted a second time
      ([session_end_two_holders]).
    - Where the code fails, a theorem runs it to the failure.

    ** Fuel

    A loop that is not structural takes fuel: the length of the input for
    parsers and packets (each round reads at least one byte), the size of the
    table for the hash (the recursion into a grown table is bounded by the
    doubling), the number of connections for the nested closes of
    [iwhen_conn_closed] (each removes one).  Where the bound matters there is
    a theorem that it is enough ([hash_set_returns],
    [s_config_parser_terminates], [dlock_no_lost_wakeup]).

    ** Not modelled

    The kernel is what its calls return, and for [NetFd] which descriptors are
    open and watched; the files the data servers and clients write are I/O.
    The ZooKeeper library is a parameter; the steps are those of sessions that
    last, and its connection events, which the program does not ask for, are
    left out.  The
    client of the lock chains only takes a time from it.
    [src/test3/s_main.c], [src/test_paxos] and [src/test_zookeeper] start the
    library with fixed numbers, of [src/test] the configuration that is not
    compiled is left out. *)

From Stdlib Require Export ZArith Lia.
From stdpp Require Export prelude gmap numbers.
From stdpp Require Export list.

#[export] Set Default Proof Using "Type".

Create HintDb sdfs discriminated.

Declare Scope c_scope.
Delimit Scope c_scope with C.

(** ** Tactics of the development *)

(** Split every boolean test and [decide] of the goal, then close what is
    arithmetic or trivial. *)
Ltac csimp := repeat (case_decide || case_match || simplify_eq/=).
Ltac zbool :=
  repeat match goal with
  | H : (_ <? _)%Z = true |- _ => apply Z.ltb_lt in H
  | H : (_ <? _)%Z = false |- _ => apply Z.ltb_ge in H
  | H : (_ <=? _)%Z = true |- _ => apply Z.leb_le in H
  | H : (_ <=? _)%Z = false |- _ => apply Z.leb_gt in H
  | H : (_ =? _)%Z = true |- _ => apply Z.eqb_eq in H
  | H : (_ =? _)%Z = false |- _ => apply Z.eqb_neq in H
  | H : (_ >? _)%Z = _ |- _ => rewrite Z.gtb_ltb in H
  | H : (_ >=? _)%Z = _ |- _ => rewrite Z.geb_leb in H
  | H : _ && _ = true |- _ => apply andb_prop in H as [? ?]
  | H : _ || _ = false |- _ => apply orb_false_iff in H as [? ?]
  | H : negb _ = true |- _ => apply negb_true_iff in H
  | H : negb _ = false |- _ => apply negb_false_iff in H
  end.
Ltac zsolve := zbool; try lia; try done.

(** ** Machine integers
    A C integer is a [Z]; its width is imposed by one of these conversions. *)
Section machine.
Local Open Scope Z_scope.

(** conversion to an unsigned type of [w] bits *)
Definition wrapu (w z : Z) : Z := z mod 2 ^ w.
(** conversion to a signed type of [w] bits (two's complement) *)
Definition wraps (w z : Z) : Z := (z + 2 ^ (w - 1)) mod 2 ^ w - 2 ^ (w - 1).

Definition uchar : Z → Z := wrapu 8.
Definition schar : Z → Z := wraps 8.
Definition ushort : Z → Z := wrapu 16.
Definition sshort : Z → Z := wraps 16.
Definition uint : Z → Z := wrapu 32.
Definition sint : Z → Z := wraps 32.

Definition INT_MAX : Z := 2147483647.
Definition INT_MIN : Z := -2147483648.

Definition is_byte (b : Z) : Prop := 0 <= b < 256.
Definition is_uint (z : Z) : Prop := 0 <= z < 4294967296.
Definition is_int (z : Z) : Prop := -2147483648 <= z <= 2147483647.
Definition is_ushort (z : Z) : Prop := 0 <= z < 65536.
Definition is_short (z : Z) : Prop := -32768 <= z <= 32767.

Lemma wrapu_range w z : 0 <= w → 0 <= wrapu w z < 2 ^ w.
Proof. intros. apply Z.mod_pos_bound, Z.pow_pos_nonneg; lia. Qed.

Lemma wrapu_small w z : 0 <= z < 2 ^ w → wrapu w z = z.
Proof. intros. by apply Z.mod_small. Qed.

Lemma wraps_small w z : - 2 ^ (w - 1) <= z < 2 ^ (w - 1) → 1 <= w → wraps w z = z.
Proof.
  intros Hz Hw. unfold wraps. assert (2 ^ w = 2 * 2 ^ (w - 1)) as Hp.
  { rewrite <-Z.pow_succ_r by lia. f_equal; lia. }
  rewrite Z.mod_small; lia.
Qed.

(** A signed conversion only depends on the value modulo [2^w]. *)
Lemma wraps_wrapu w z : wraps w (wrapu w z) = wraps w z.
Proof. unfold wraps, wrapu. by rewrite Zplus_mod_idemp_l. Qed.

Lemma uint_range z : is_uint (uint z).
Proof. apply (wrapu_range 32); lia. Qed.
Lemma ushort_range z : is_ushort (ushort z).
Proof. apply (wrapu_range 16); lia. Qed.
Lemma sint_range z : is_int (sint z).
Proof.
  unfold is_int, sint, wraps. change (2 ^ (32 - 1)) with 2147483648.
  change (2 ^ 32) with 4294967296.
  pose proof (Z.mod_pos_bound (z + 2147483648) 4294967296). lia.
Qed.
Lemma uint_small z : is_uint z → uint z = z.
Proof. intros. by apply wrapu_small. Qed.
Lemma ushort_small z : is_ushort z → ushort z = z.
Proof. intros. by apply wrapu_small. Qed.
Lemma sint_small z : is_int z → sint z = z.
Proof. intros [? ?]. apply wraps_small; [|lia]. change (2 ^ (32 - 1)) with 2147483648. lia. Qed.
Lemma sshort_small z : is_short z → sshort z = z.
Proof. intros [? ?]. apply wraps_small; [|lia]. change (2 ^ (16 - 1)) with 32768. lia. Qed.
Lemma sint_uint z : sint (uint z) = sint z.
Proof. apply wraps_wrapu. Qed.
Lemma sshort_ushort z : sshort (ushort z) = sshort z.
Proof. apply wraps_wrapu. Qed.
End machine.

#[export] Hint Resolve uint_range ushort_range sint_range : sdfs.
#[export] Hint Rewrite uint_small sint_small ushort_small using (unfold is_uint, is_int, is_ushort; lia) : sdfs.

(** ** Bytes of an integer *)
Section bytes.
Local Open Scope Z_scope.

(** the four (two) expressions of the packet writers: [i & 0xFF],
    [(i >> 8) & 0xFF], ... *)
Definition byte_of (i k : Z) : Z := Z.land (Z.shiftr i (8 * k)) 255.

(** The readers see each byte as a (signed) [char], promoted to [int],
    shifted and masked; on x86 [char] is signed. *)
Definition char_field (b k : Z) : Z :=
  Z.land (Z.shiftl (schar b) (8 * k)) (Z.shiftl 255 (8 * k)).

Definition le2 (b0 b1 : Z) : Z := Z.lor (char_field b0 0) (char_field b1 1).
Definition le4 (b0 b1 b2 b3 : Z) : Z :=
  Z.lor (Z.lor (Z.lor (char_field b0 0) (char_field b1 1)) (char_field b2 2)) (char_field b3 3).

Lemma byte_of_spec i k : 0 <= k → byte_of i k = (i / 2 ^ (8 * k)) mod 256.
Proof.
  intros. unfold byte_of. rewrite Z.shiftr_div_pow2 by lia.
  change 255 with (Z.ones 8). by rewrite Z.land_ones.
Qed.

Lemma byte_of_range i k : 0 <= k → is_byte (byte_of i k).
Proof. intros. rewrite byte_of_spec by done. apply Z.mod_pos_bound. lia. Qed.

Lemma schar_land b : is_byte b → Z.land (schar b) 255 = b.
Proof.
  intros [? ?]. change 255 with (Z.ones 8). rewrite Z.land_ones by lia.
  unfold schar, wraps. change (2 ^ (8 - 1)) with 128. change (2 ^ 8) with 256.
  destruct (decide (b < 128)).
  - rewrite (Z.mod_small (b + 128)) by lia. rewrite Z.mod_small; lia.
  - replace ((b + 128) mod 256) with (b - 128).
    2: { replace (b + 128) with ((b - 128) + 1 * 256) by lia.
         rewrite Z.mod_add by lia. rewrite Z.mod_small; lia. }
    replace (b - 128 - 128) with (b + (-1) * 256) by lia.
    rewrite Z.mod_add by lia. rewrite Z.mod_small; lia.
Qed.

Lemma char_field_spec b k : is_byte b → 0 <= k → char_field b k = b * 2 ^ (8 * k).
Proof.
  intros Hb Hk. unfold char_field. rewrite <-Z.shiftl_land, schar_land by done.
  apply Z.shiftl_mul_pow2. lia.
Qed.

(** [or] of values with no common bit is their sum. *)
Lemma lor_disjoint_add a b n :
  0 <= n → 0 <= a < 2 ^ n → Z.lor a (b * 2 ^ n) = a + b * 2 ^ n.
Proof.
  intros Hn Ha.
  assert (Z.land a (b * 2 ^ n) = 0) as Hz.
  { apply Z.bits_inj'. intros i Hi. rewrite Z.land_spec, Z.bits_0.
    destruct (decide (i < n)).
    - rewrite Z.mul_pow2_bits_low by lia. by rewrite andb_false_r.
    - destruct (decide (a = 0)) as [->|]; [by rewrite Z.bits_0|].
      rewrite (Z.bits_above_log2 a); [done|lia|].
      apply Z.lt_le_trans with n; [|lia]. apply Z.log2_lt_pow2; lia. }
  symmetry. rewrite Z.add_nocarry_lxor by done. by rewrite Z.lxor_lor.
Qed.

Lemma le2_spec b0 b1 : is_byte b0 → is_byte b1 → le2 b0 b1 = b0 + b1 * 256.
Proof.
  intros H0 H1. unfold le2. rewrite !char_field_spec by (done || lia).
  change (2 ^ (8 * 0)) with 1. rewrite Z.mul_1_r.
  rewrite (lor_disjoint_add _ _ (8 * 1)); unfold is_byte in *; lia.
Qed.

Lemma le4_spec b0 b1 b2 b3 :
  is_byte b0 → is_byte b1 → is_byte b2 → is_byte b3 →
  le4 b0 b1 b2 b3 = b0 + b1 * 256 + b2 * 65536 + b3 * 16777216.
Proof.
  intros H0 H1 H2 H3. unfold le4. rewrite !char_field_spec by (done || lia).
  unfold is_byte in *.
  change (2 ^ (8 * 0)) with 1. rewrite Z.mul_1_r.
  rewrite (lor_disjoint_add _ _ (8 * 1)) by lia.
  rewrite (lor_disjoint_add _ _ (8 * 2)) by lia.
  rewrite (lor_disjoint_add _ _ (8 * 3)) by lia. lia.
Qed.

(** What is written and read back is the value modulo [2^16], [2^32]. *)
Lemma le2_byte_of i : le2 (byte_of i 0) (byte_of i 1) = ushort i.
Proof.
  rewrite le2_spec by (apply byte_of_range; lia). rewrite !byte_of_spec by lia.
  unfold ushort, wrapu. change (2 ^ (8 * 0)) with 1. change (2 ^ (8 * 1)) with 256.
  change (2 ^ 16) with (256 * 256). rewrite Z.div_1_r, Z.rem_mul_r by lia. lia.
Qed.

Lemma le4_byte_of i :
  le4 (byte_of i 0) (byte_of i 1) (byte_of i 2) (byte_of i 3) = uint i.
Proof.
  rewrite le4_spec by (apply byte_of_range; lia). rewrite !byte_of_spec by lia.
  unfold uint, wrapu. change (2 ^ (8 * 0)) with 1. change (2 ^ (8 * 1)) with 256.
  change (2 ^ (8 * 2)) with (256 * 256). change (2 ^ (8 * 3)) with (256 * (256 * 256)).
  change (2 ^ 32) with (256 * (256 * (256 * 256))).
  rewrite Z.div_1_r, <-!Z.div_div, !(Z.rem_mul_r i), !(Z.rem_mul_r (i / 256)),
    !(Z.rem_mul_r (i / 256 / 256)) by lia. lia.
Qed.
End bytes.

(** ** Lists as C memory *)
Section lists.
Context {A : Type}.
Implicit Types l : list A.
Local Open Scope Z_scope.

(** [memcpy(&l[pos], src, length src)] *)
Definition splice (pos : Z) (src l : list A) : list A :=
  take (Z.to_nat pos) l ++ src ++ drop (Z.to_nat pos + length src) l.

(** bytes [pos .. pos+n-1] *)
Definition slice (pos n : Z) l : list A := take (Z.to_nat n) (drop (Z.to_nat pos) l).

Lemma length_splice pos src l :
  0 <= pos → pos + Z.of_nat (length src) <= Z.of_nat (length l) →
  length (splice pos src l) = length l.
Proof.
  intros. unfold splice. rewrite !length_app, length_take, length_drop. lia.
Qed.

Lemma slice_splice_eq pos src l :
  0 <= pos → pos <= Z.of_nat (length l) →
  slice pos (Z.of_nat (length src)) (splice pos src l) = src.
Proof.
  intros. unfold slice, splice. rewrite drop_app_ge; rewrite length_take; [|lia].
  replace (Z.to_nat pos - _)%nat with 0%nat by lia. rewrite drop_0.
  rewrite take_app_le by lia. rewrite take_ge by lia. done.
Qed.

Lemma slice_app_l pos n l l' :
  0 <= pos → 0 <= n → pos + n <= Z.of_nat (length l) →
  slice pos n (l ++ l') = slice pos n l.
Proof.
  intros. unfold slice. rewrite drop_app_le by lia. rewrite take_app_le; [done|].
  rewrite length_drop. lia.
Qed.

Lemma slice_app_r n l1 l2 l3 :
  n = Z.of_nat (length l2) → slice (Z.of_nat (length l1)) n (l1 ++ l2 ++ l3) = l2.
Proof.
  intros ->. unfold slice. rewrite !Nat2Z.id, drop_app_length, take_app_length. done.
Qed.

Lemma splice_app_r l1 l2 l3 src :
  length src = length l2 →
  splice (Z.of_nat (length l1)) src (l1 ++ l2 ++ l3) = l1 ++ src ++ l3.
Proof.
  intros Hl. unfold splice. rewrite Nat2Z.id, take_app_length. f_equal. f_equal.
  rewrite drop_app_ge by lia. replace (length l1 + length src - length l1)%nat with (length l2) by lia.
  by rewrite drop_app_length.
Qed.

Lemma length_slice pos n l :
  0 <= pos → 0 <= n → pos + n <= Z.of_nat (length l) → length (slice pos n l) = Z.to_nat n.
Proof. intros. unfold slice. rewrite length_take, length_drop. lia. Qed.

Lemma slice_cons pos l x :
  0 <= pos → l !! Z.to_nat pos = Some x → slice pos 1 l = [x].
Proof. intros Hp Hx. unfold slice. erewrite drop_S by done. done. Qed.
End lists.

Lemma exists_last' {A} (l : list A) : l = [] ∨ ∃ l' x, l = l' ++ [x].
Proof.
  destruct l as [|a l]; [by left|right].
  destruct (exists_last (l := a :: l)) as (l' & x & ->); [done|]. eauto.
Qed.

(** byte [i] of a buffer (every access of the model is shown in range) *)
Definition byte_at (l : list Z) (i : Z) : Z := default 0%Z (l !! Z.to_nat i).

Lemma byte_at_app_r l1 l2 l3 i :
  (0 ≤ i < Z.of_nat (length l2))%Z →
  byte_at (l1 ++ l2 ++ l3) (Z.of_nat (length l1) + i) = byte_at l2 i.
Proof.
  intros. unfold byte_at. rewrite lookup_app_r by lia.
  replace (Z.to_nat (Z.of_nat (length l1) + i) - length l1) with (Z.to_nat i) by lia.
  rewrite lookup_app_l by lia. done.
Qed.

Lemma byte_at_app_l l1 l2 i :
  (0 ≤ i < Z.of_nat (length l1))%Z → byte_at (l1 ++ l2) i = byte_at l1 i.
Proof. intros. unfold byte_at. rewrite lookup_app_l by lia. done. Qed.

Lemma byte_at_is_byte l i : Forall is_byte l → is_byte (byte_at l i).
Proof.
  intros Hl. unfold byte_at. destruct (l !! Z.to_nat i) as [x|] eqn:E; simpl.
  - by eapply Forall_lookup_1 in Hl.
  - unfold is_byte. lia.
Qed.
#[export] Hint Resolve byte_at_is_byte byte_of_range : sdfs.

(** ** [s_common.h] *)

(** [s_roundup(n, align)]: [align] a power of two *)
Definition s_roundup (n align : Z) : Z := Z.land (n + align - 1) (Z.lnot (align - 1)).
Definition s_max (x y : Z) : Z := if decide (x > y)%Z then x else y.
Definition s_min (x y : Z) : Z := if decide (x < y)%Z then x else y.

Lemma s_max_spec x y : s_max x y = Z.max x y.
Proof. unfold s_max. case_decide; lia. Qed.
Lemma s_min_spec x y : s_min x y = Z.min x y.
Proof. unfold s_min. case_decide; lia. Qed.
Lemma s_roundup_ge_pow2 n k : (0 <= k → n <= s_roundup n (2 ^ k))%Z.
Proof.
  intros Hk. assert (0 < 2 ^ k)%Z by (by apply Z.pow_pos_nonneg). unfold s_roundup.
  replace (2 ^ k - 1)%Z with (Z.ones k) by (rewrite Z.ones_equiv; lia).
  rewrite <-Z.ldiff_land, Z.ldiff_ones_r, Z.shiftl_mul_pow2, Z.shiftr_div_pow2 by lia.
  pose proof (Z.mod_pos_bound (n + 2 ^ k - 1) (2 ^ k)). pose proof (Z.div_mod (n + 2 ^ k - 1) (2 ^ k)). lia.
Qed.

(** [struct s_id] and the order [s_id_gt] of ballots and lock ids *)
Record s_id := SId { id_x : Z; id_y : Z }.
#[export] Instance s_id_eq_dec : EqDecision s_id.
Proof. solve_decision. Defined.
#[export] Instance s_id_countable : Countable s_id.
Proof.
  by refine (inj_countable' (λ i, (id_x i, id_y i)) (λ p, SId p.1 p.2) _); intros [].
Qed.

Definition s_id_gt (a b : s_id) : Prop :=
  (id_y a > id_y b ∨ (id_y a = id_y b ∧ id_x a > id_x b))%Z.
#[export] Instance s_id_gt_dec a b : Decision (s_id_gt a b).
Proof. unfold s_id_gt. apply _. Defined.

Lemma s_id_gt_irrefl a : ¬ s_id_gt a a.
Proof. unfold s_id_gt. lia. Qed.
Lemma s_id_gt_trans a b c : s_id_gt a b → s_id_gt b c → s_id_gt a c.
Proof. unfold s_id_gt. lia. Qed.
Lemma s_id_gt_total a b : s_id_gt a b ∨ a = b ∨ s_id_gt b a.
Proof.
  unfold s_id_gt. destruct a as [x y], b as [x' y']; simpl.
  destruct (decide (y = y')) as [->|]; [|lia].
  destruct (decide (x = x')) as [->|]; [by right; left|lia].
Qed.
#[export] Hint Resolve s_id_gt_irrefl s_id_gt_trans : sdfs.

(** ** Traces: the runs of a step relation, by the labels an observer sees *)
Section traces.
Context {S T L : Type}.

Inductive trace (step : S → option L → S → Prop) : S → list L → S → Prop :=
| trace_nil s : trace step s [] s
| trace_tau s s' tr s'' : step s None s' → trace step s' tr s'' → trace step s tr s''
| trace_label s l s' tr s'' : step s (Some l) s' → trace step s' tr s'' → trace step s (l :: tr) s''.
End traces.

(** a simulation that may stutter on what is not seen *)
Lemma trace_refines {S T L} (step1 : S → option L → S → Prop) (step2 : T → option L → T → Prop) (R : S → T → Prop) :
  (∀ s o s' t, R s t → step1 s o s' → ∃ t', R s' t' ∧ (step2 t o t' ∨ o = None ∧ t' = t)) →
  ∀ s tr s' t, R s t → trace step1 s tr s' → ∃ t', R s' t' ∧ trace step2 t tr t'.
Proof.
  intros Hsim s tr s' t HR Htr. revert t HR. induction Htr as [s|s s1 tr s' Hs _ IH|s o s1 tr s' Hs _ IH]; intros t HR.
  - exists t. split; [done|constructor].
  - destruct (Hsim _ _ _ _ HR Hs) as (t1 & HR1 & Ht). destruct (IH _ HR1) as (t' & HR' & Htr'). exists t'. split; [done|].
    destruct Ht as [Ht|[_ ->]]; [by eapply trace_tau|done].
  - destruct (Hsim _ _ _ _ HR Hs) as (t1 & HR1 & Ht). destruct (IH _ HR1) as (t' & HR' & Htr'). exists t'. split; [done|].
    destruct Ht as [Ht|[[=] _]]. by eapply trace_label.
Qed.
