(* ===== verification/SList.v ===== *)
(** * [include/s_list.h]: the intrusive circular doubly-linked list

    The memory the list functions touch is a heap of links, indexed by the
    address of the [struct s_list]; an address never written reads as the
    null link.  [is_list h head l] says that the cells of [l], in that order,
    are on the list of head [head]. *)

From S2P Require Import Prelude.
Local Open Scope Z_scope.

Record s_list := SList { prev : Z; next : Z }.

Abbreviation links := (gmap Z s_list).

Definition link_at (h : links) (p : Z) : s_list := default (SList 0 0) (h !! p).
Definition set_prev (h : links) (p v : Z) : links := <[p := SList v (next (link_at h p))]> h.
Definition set_next (h : links) (p v : Z) : links := <[p := SList (prev (link_at h p)) v]> h.

Definition s_list_init (h : links) (s : Z) : links :=
  let h := set_next h s s in set_prev h s s.

Definition list_insert_between (h : links) (s pv nx : Z) : links :=
  let h := set_prev h s pv in
  let h := set_next h s nx in
  let h := set_next h pv s in
  set_prev h nx s.

Definition s_list_insert (h : links) (head elem : Z) : links :=
  list_insert_between h elem head (next (link_at h head)).

Definition s_list_insert_tail (h : links) (head elem : Z) : links :=
  list_insert_between h elem (prev (link_at h head)) head.

Definition s_list_del (h : links) (s : Z) : links :=
  let h := set_next h (prev (link_at h s)) (next (link_at h s)) in
  let h := set_prev h (next (link_at h s)) (prev (link_at h s)) in
  s_list_init h s.

Definition s_list_first (h : links) (head : Z) : Z := next (link_at h head).

Definition s_list_empty (h : links) (head : Z) : bool :=
  bool_decide (next (link_at h head) = head).

(** [s_list_foreach]: the cells the macro visits, in order *)
Fixpoint s_list_foreach (fuel : nat) (h : links) (head p : Z) : option (list Z) :=
  match fuel with
  | O => None
  | S fuel =>
      if decide (p = head) then Some []
      else cons p <$> s_list_foreach fuel h head (next (link_at h p))
  end.

(** ** Representation *)

Definition linked (h : links) (a b : Z) : Prop :=
  next (link_at h a) = b ∧ prev (link_at h b) = a.

Fixpoint path (h : links) (p : list Z) : Prop :=
  match p with
  | a :: (b :: _) as q => linked h a b ∧ path h q
  | _ => True
  end.

Definition is_list (h : links) (head : Z) (l : list Z) : Prop :=
  NoDup (head :: l) ∧ path h (head :: l ++ [head]).

Lemma next_set_next h p v q :
  next (link_at (set_next h p v) q) = if decide (p = q) then v else next (link_at h q).
Proof. unfold set_next, link_at at 1. rewrite lookup_insert. by case_decide. Qed.
Lemma prev_set_next h p v q : prev (link_at (set_next h p v) q) = prev (link_at h q).
Proof. unfold set_next, link_at at 1. rewrite lookup_insert. case_decide; by subst. Qed.
Lemma next_set_prev h p v q : next (link_at (set_prev h p v) q) = next (link_at h q).
Proof. unfold set_prev, link_at at 1. rewrite lookup_insert. case_decide; by subst. Qed.
Lemma prev_set_prev h p v q :
  prev (link_at (set_prev h p v) q) = if decide (p = q) then v else prev (link_at h q).
Proof. unfold set_prev, link_at at 1. rewrite lookup_insert. by case_decide. Qed.

Ltac links_simpl :=
  unfold linked in *;
  repeat (rewrite ?next_set_next, ?prev_set_next, ?next_set_prev, ?prev_set_prev; try case_decide);
  simplify_eq/=; try (split; congruence).

Lemma path_app h p a q : path h (p ++ a :: q) ↔ path h (p ++ [a]) ∧ path h (a :: q).
Proof.
  induction p as [|x p IH]; [simpl; naive_solver|].
  destruct p as [|y p]; simpl in *; naive_solver.
Qed.

Lemma path_app_2 h p a b q :
  path h (p ++ a :: b :: q) ↔ path h (p ++ [a]) ∧ linked h a b ∧ path h (b :: q).
Proof. by rewrite path_app. Qed.

(** A path survives an update of the [next] of its last cell, of the [prev]
    of its first cell, and of cells that are not on it. *)
Lemma path_set_next h p a x v : x ∉ p → path h (p ++ [a]) → path (set_next h x v) (p ++ [a]).
Proof.
  induction p as [|y p IH]; [done|].
  intros [Hy Hx]%not_elem_of_cons.
  destruct p as [|z p]; intros [Hl Ht]; (split; [by links_simpl|]); [done|].
  by apply IH.
Qed.

Lemma path_set_prev h b q x v : x ∉ q → path h (b :: q) → path (set_prev h x v) (b :: q).
Proof.
  revert b. induction q as [|y q IH]; intros b; [done|].
  intros [Hy Hx]%not_elem_of_cons [Hl Ht].
  split; [by links_simpl|by apply IH].
Qed.

Lemma path_set_next_not h p x v : x ∉ p → path h p → path (set_next h x v) p.
Proof.
  intros Hx Hp. destruct (exists_last' p) as [->|(p' & a & ->)]; [done|].
  apply path_set_next; [set_solver|done].
Qed.
Lemma path_set_prev_not h p x v : x ∉ p → path h p → path (set_prev h x v) p.
Proof. destruct p as [|b q]; [done|]. intros Hx. apply path_set_prev. set_solver. Qed.

(** ** The operations on the represented list *)

Section spec.
Implicit Types (h : links) (head e x : Z) (l : list Z).

(** the cells before and after a position of the circular list *)
Definition last_or head l : Z := default head (last l).
Definition first_or head l : Z := default head (hd_error l).

Lemma last_or_spec head l : ∃ p, head :: l = p ++ [last_or head l].
Proof.
  unfold last_or. destruct (exists_last' l) as [->|(p & a & ->)]; [by exists []|].
  exists (head :: p). by rewrite last_snoc.
Qed.
Lemma first_or_spec head l : ∃ q, l ++ [head] = first_or head l :: q.
Proof. destruct l as [|b l]; simpl; eauto. Qed.

Lemma last_or_elem head l x : x = last_or head l → x = head ∨ x ∈ l.
Proof.
  unfold last_or. destruct (exists_last' l) as [->|(p & a & ->)]; [by left|].
  rewrite last_snoc. set_solver.
Qed.
Lemma first_or_elem head l x : x = first_or head l → x = head ∨ x ∈ l.
Proof. destruct l as [|b l]; simpl; set_solver. Qed.

(** the two halves of a circular list, and the link between them *)
Lemma is_list_app h head l1 l2 :
  is_list h head (l1 ++ l2) ↔
  NoDup (head :: l1 ++ l2) ∧ path h (head :: l1) ∧
  linked h (last_or head l1) (first_or head l2) ∧ path h (l2 ++ [head]).
Proof.
  unfold is_list. destruct (last_or_spec head l1) as [p Hp], (first_or_spec head l2) as [q Hq].
  rewrite <-app_assoc, Hq.
  assert (head :: l1 ++ first_or head l2 :: q = p ++ last_or head l1 :: first_or head l2 :: q) as ->.
  { by rewrite (app_comm_cons l1), Hp, <-app_assoc. }
  by rewrite Hp, path_app_2.
Qed.

Lemma NoDup_halves head l1 l2 x :
  NoDup (head :: l1 ++ l2) →
  (x = last_or head l1 → x ∉ l2) ∧ (x = first_or head l2 → x ∉ l1).
Proof.
  rewrite NoDup_cons, NoDup_app. intros (Hh & _ & Hd & _). split.
  - intros [->| ?]%last_or_elem; set_solver.
  - intros [->| ?]%first_or_elem; set_solver.
Qed.

Lemma path_set_next_last h head l v :
  NoDup (head :: l) → path h (head :: l) → path (set_next h (last_or head l) v) (head :: l).
Proof.
  destruct (last_or_spec head l) as [p ->]. intros Hnd. apply path_set_next.
  apply NoDup_app in Hnd. set_solver.
Qed.

Lemma path_set_prev_first h head l v :
  NoDup (head :: l) → path h (l ++ [head]) → path (set_prev h (first_or head l) v) (l ++ [head]).
Proof.
  intros Hnd. assert (NoDup (l ++ [head])) as Hnd'.
  { by rewrite <-Permutation_cons_append. }
  destruct (first_or_spec head l) as [q Hq]. rewrite Hq in *. apply path_set_prev.
  by apply NoDup_cons in Hnd' as [? _].
Qed.

(** One insertion, between the two halves of the list. *)
Lemma insert_between_list h head l1 l2 e :
  is_list h head (l1 ++ l2) → e ∉ head :: l1 ++ l2 →
  is_list (list_insert_between h e (last_or head l1) (first_or head l2)) head (l1 ++ e :: l2).
Proof.
  intros (Hnd & Hp1 & Hl & Hp2)%is_list_app He.
  pose proof (λ x, NoDup_halves head l1 l2 x Hnd) as Hh.
  assert (NoDup (head :: l1) ∧ NoDup (head :: l2)) as [Hn1 Hn2].
  { rewrite !NoDup_cons in *. rewrite NoDup_app in Hnd. set_solver. }
  assert (e ≠ last_or head l1) as Hea by (intros [->|?]%last_or_elem; set_solver).
  assert (e ≠ first_or head l2) as Heb by (intros [->|?]%first_or_elem; set_solver).
  change (l1 ++ e :: l2) with (l1 ++ ([e] ++ l2)).
  unfold list_insert_between. set (a := last_or head l1) in *. set (b := first_or head l2) in *.
  apply is_list_app. split_and!.
  - rewrite NoDup_cons in *. rewrite NoDup_app in *. simpl. rewrite NoDup_cons. set_solver.
  - destruct (Hh b) as [_ Hb]. destruct (decide (b = head)) as [Hbh|Hbh].
    + rewrite Hbh. apply path_set_prev; [set_solver|]. apply path_set_next_last; [done|].
      apply path_set_next_not; [set_solver|]. apply path_set_prev_not; [set_solver|done].
    + apply path_set_prev_not; [set_solver|]. apply path_set_next_last; [done|].
      apply path_set_next_not; [set_solver|]. apply path_set_prev_not; [set_solver|done].
  - simpl. fold a. links_simpl.
  - destruct (first_or_spec head l2) as [q Hq]. fold b in Hq. destruct (Hh a) as [Ha _].
    simpl app. rewrite Hq. split; [links_simpl|]. rewrite <-Hq.
    apply path_set_prev_first; [done|]. apply path_set_next; [by apply Ha|].
    apply path_set_next_not; [set_solver|]. apply path_set_prev_not; [set_solver|done].
Qed.

Lemma is_list_next_head h head l : is_list h head l → next (link_at h head) = first_or head l.
Proof. rewrite <-(app_nil_l l) at 1. intros (_ & _ & [? _] & _)%is_list_app. done. Qed.
Lemma is_list_prev_head h head l : is_list h head l → prev (link_at h head) = last_or head l.
Proof. rewrite <-(app_nil_r l) at 1. intros (_ & _ & [_ ?] & _)%is_list_app. done. Qed.
Lemma is_list_prev_mid h head l1 x l2 :
  is_list h head (l1 ++ x :: l2) → prev (link_at h x) = last_or head l1.
Proof. intros (_ & _ & [_ ?] & _)%is_list_app. done. Qed.
Lemma is_list_next_mid h head l1 x l2 :
  is_list h head (l1 ++ x :: l2) → next (link_at h x) = first_or head l2.
Proof.
  change (x :: l2) with ([x] ++ l2). rewrite app_assoc.
  intros (_ & _ & [Hn _] & _)%is_list_app. unfold last_or in Hn. by rewrite last_snoc in Hn.
Qed.

Lemma s_list_init_spec h x : is_list (s_list_init h x) x [].
Proof.
  split; [apply NoDup_singleton|]. unfold s_list_init. simpl. split; [|done]. links_simpl.
Qed.

Lemma s_list_insert_spec h head l e :
  is_list h head l → e ∉ head :: l → is_list (s_list_insert h head e) head (e :: l).
Proof.
  intros Hl He. unfold s_list_insert. rewrite (is_list_next_head h head l) by done.
  by apply (insert_between_list h head [] l).
Qed.

Lemma s_list_insert_tail_spec h head l e :
  is_list h head l → e ∉ head :: l → is_list (s_list_insert_tail h head e) head (l ++ [e]).
Proof.
  intros Hl He. unfold s_list_insert_tail. rewrite (is_list_prev_head h head l) by done.
  apply (insert_between_list h head l []); by rewrite app_nil_r.
Qed.

(** [s_list_insert_tail] at an inner cell inserts just before it. *)
Lemma s_list_insert_before_spec h head l1 x l2 e :
  is_list h head (l1 ++ x :: l2) → e ∉ head :: l1 ++ x :: l2 →
  is_list (s_list_insert_tail h x e) head (l1 ++ e :: x :: l2).
Proof.
  intros Hl He. unfold s_list_insert_tail. rewrite (is_list_prev_mid h head l1 x l2) by done.
  by apply (insert_between_list h head l1 (x :: l2)).
Qed.

Lemma s_list_del_spec h head l1 x l2 :
  is_list h head (l1 ++ x :: l2) →
  is_list (s_list_del h x) head (l1 ++ l2) ∧ is_list (s_list_del h x) x [].
Proof.
  intros Hl. pose proof (is_list_prev_mid _ _ _ _ _ Hl) as Hp.
  pose proof (is_list_next_mid _ _ _ _ _ Hl) as Hn.
  apply is_list_app in Hl as (Hnd & H1 & _ & H2).
  assert (NoDup (head :: l1 ++ l2) ∧ x ∉ head :: l1 ++ l2) as [Hnd' Hx].
  { rewrite !NoDup_cons, !NoDup_app, NoDup_cons in *. set_solver. }
  assert (path h (l2 ++ [head])) as H3. { destruct l2; [done|]. by destruct H2. }
  pose proof (λ y, NoDup_halves head l1 l2 y Hnd') as Hh.
  unfold s_list_del. rewrite next_set_next, Hp, Hn.
  rewrite prev_set_next, Hp.
  assert (x ≠ last_or head l1) as Hxa by (intros [->|?]%last_or_elem; set_solver).
  assert (x ≠ first_or head l2) as Hxb by (intros [->|?]%first_or_elem; set_solver).
  rewrite decide_False by done.
  split; [|apply s_list_init_spec].
  assert (NoDup (head :: l1) ∧ NoDup (head :: l2)) as [Hn1 Hn2].
  { rewrite !NoDup_cons in *. rewrite NoDup_app in Hnd'. set_solver. }
  unfold s_list_init. set (a := last_or head l1) in *. set (b := first_or head l2) in *.
  apply is_list_app. split; [done|]. split_and!.
  - apply path_set_prev_not; [set_solver|]. apply path_set_next_not; [set_solver|].
    destruct (Hh b) as [_ Hb]. destruct (decide (b = head)) as [Hbh|Hbh].
    + rewrite Hbh. apply path_set_prev; [set_solver|]. by apply path_set_next_last.
    + destruct (first_or_elem head l2 b eq_refl) as [?|Hb2]; [done|].
      apply path_set_prev_not; [set_solver|]. by apply path_set_next_last.
  - fold a b. links_simpl.
  - apply path_set_prev_not; [set_solver|]. apply path_set_next_not; [set_solver|].
    apply path_set_prev_first; [done|]. apply path_set_next; [|done]. by apply Hh.
Qed.

Lemma s_list_empty_spec h head l : is_list h head l → s_list_empty h head = bool_decide (l = []).
Proof.
  intros Hl. unfold s_list_empty. rewrite (is_list_next_head h head l) by done.
  destruct Hl as [Hnd _]. destruct l as [|x l]; simpl; [by rewrite !bool_decide_eq_true_2|].
  apply NoDup_cons in Hnd as [Hnd _].
  rewrite (bool_decide_eq_false_2 (x = head)) by (intros ->; set_solver).
  done.
Qed.

Lemma s_list_foreach_spec h head l fuel :
  is_list h head l → (length l < fuel)%nat →
  s_list_foreach fuel h head (s_list_first h head) = Some l.
Proof.
  intros Hl Hf. unfold s_list_first. rewrite (is_list_next_head h head l) by done.
  assert (∀ l1 l2, l = l1 ++ l2 → (length l2 < fuel)%nat →
    s_list_foreach fuel h head (first_or head l2) = Some l2) as Hgen; [|by apply (Hgen [] l)].
  clear Hf. induction fuel as [|fuel IH]; intros l1 l2 Hl12 Hf; [lia|].
  destruct l2 as [|x l2]; simpl; [by rewrite decide_True|].
  change (first_or head (x :: l2)) with x.
  rewrite decide_False. 2: { intros ->. destruct Hl as [[Hnd _]%NoDup_cons _]. set_solver. }
  subst l. rewrite (is_list_next_mid _ _ _ _ _ Hl).
  rewrite (IH (l1 ++ [x]) l2); [done| |simpl in *; lia]. by rewrite <-app_assoc.
Qed.

(** A list is untouched by updates of cells that are not on it. *)
Lemma is_list_frame h h' head l :
  (∀ x, x ∈ head :: l → link_at h' x = link_at h x) → is_list h head l → is_list h' head l.
Proof.
  intros Hx [Hnd Hp]. split; [done|].
  assert (∀ x, x ∈ head :: l ++ [head] → link_at h' x = link_at h x) as Hx' by set_solver.
  clear Hx Hnd. revert Hx' Hp. generalize (head :: l ++ [head]). clear.
  intros p. induction p as [|a [|b p] IH]; [done..|]. intros Hx [[Hn Hp] Ht].
  split; [|apply IH; set_solver]. unfold linked. rewrite !Hx; set_solver.
Qed.

(** cells an insertion or a deletion leaves alone *)
Lemma insert_between_frame h s pv nx y :
  y ≠ s → y ≠ pv → y ≠ nx → link_at (list_insert_between h s pv nx) y = link_at h y.
Proof.
  intros. unfold list_insert_between, link_at, set_prev, set_next.
  by rewrite !lookup_insert_ne.
Qed.
Lemma s_list_del_frame h s y :
  y ≠ s → y ≠ prev (link_at h s) → y ≠ next (link_at h s) →
  link_at (s_list_del h s) y = link_at h y.
Proof.
  intros Hs Hp Hn. unfold s_list_del, s_list_init.
  set (h1 := set_next h _ _). assert (next (link_at h1 s) = next (link_at h s)) as ->.
  { unfold h1. rewrite next_set_next. by case_decide. }
  unfold link_at at 1, h1, set_prev, set_next. by rewrite !lookup_insert_ne.
Qed.
End spec.

(** ** Sequences of operations *)
Section operations.

Inductive list_op := LInsert (e : Z) | LInsertTail (e : Z) | LDel (e : Z).

Definition run_list_op (head : Z) (h : links) (o : list_op) : links :=
  match o with
  | LInsert e => s_list_insert h head e
  | LInsertTail e => s_list_insert_tail h head e
  | LDel e => s_list_del h e
  end.

(** the same on the list that the links stand for; [None]: the caller
    inserts an element that is on the list, or deletes one that is not *)
Definition spec_list_op (head : Z) (l : list Z) (o : list_op) : option (list Z) :=
  match o with
  | LInsert e => if decide (e ∈ head :: l) then None else Some (e :: l)
  | LInsertTail e => if decide (e ∈ head :: l) then None else Some (l ++ [e])
  | LDel e => if decide (e ∈ l) then Some (filter (λ x, x ≠ e) l) else None
  end.

Lemma filter_ne_middle (l1 l2 : list Z) x :
  NoDup (l1 ++ x :: l2) → filter (λ y, y ≠ x) (l1 ++ x :: l2) = l1 ++ l2.
Proof.
  intros Hnd. rewrite filter_app, filter_cons_False by naive_solver.
  assert (∀ l : list Z, x ∉ l → filter (λ y, y ≠ x) l = l) as Hf.
  { clear. intros l Hl. induction l as [|y l IH]; [done|].
    rewrite filter_cons_True by set_solver. f_equal. apply IH. set_solver. }
  apply NoDup_app in Hnd as (_ & Hd & Hnd). apply NoDup_cons in Hnd as [Hx _].
  rewrite !Hf; [done|done|]. intros Hin. apply (Hd x Hin). left.
Qed.

Lemma run_list_op_refines head h l l' o :
  is_list h head l → spec_list_op head l o = Some l' → is_list (run_list_op head h o) head l'.
Proof.
  intros Hl Ho. destruct o as [e|e|e]; simpl in *; case_decide; simplify_eq.
  - by apply s_list_insert_spec.
  - by apply s_list_insert_tail_spec.
  - match goal with H : e ∈ l |- _ => apply list_elem_of_split in H as (l1 & l2 & ->) end.
    rewrite filter_ne_middle; [by apply s_list_del_spec|]. destruct Hl as [Hnd _].
    by apply NoDup_cons in Hnd as [_ Hnd].
Qed.

(** The intrusive lists are lists: any sequence of insertions at either
    end and deletions, each legal, keeps the links of the cells consistent in
    both directions, and [s_list_foreach] then visits exactly the elements
    that the same operations leave on an ordinary list, in its order. *)
Theorem list_ops_refine head h l ops l' :
  is_list h head l → foldl (λ ol o, l ← ol; spec_list_op head l o) (Some l) ops = Some l' →
  let h' := foldl (run_list_op head) h ops in
  is_list h' head l' ∧
  s_list_foreach (S (length l')) h' head (s_list_first h' head) = Some l' ∧
  s_list_empty h' head = bool_decide (l' = []).
Proof.
  intros Hl Hops. assert (is_list (foldl (run_list_op head) h ops) head l') as H.
  { revert h l Hl Hops. induction ops as [|o ops IH]; intros h l Hl; cbn [foldl].
    - by intros [= <-].
    - cbn [mbind option_bind]. destruct (spec_list_op head l o) as [l1|] eqn:E.
      + apply IH. by eapply run_list_op_refines.
      + intros Hn. exfalso. clear -Hn. by induction ops. }
  split; [done|]. split; [apply s_list_foreach_spec; [done|lia]|by apply s_list_empty_spec].
Qed.

Lemma list_ops_refine_witness :
  let h' := foldl (run_list_op 1) (s_list_init ∅ 1) [LInsert 2; LInsertTail 3; LInsert 4; LDel 2] in
  is_list h' 1 [4; 3] ∧ s_list_foreach 3 h' 1 (s_list_first h' 1) = Some [4; 3] ∧
  s_list_empty h' 1 = bool_decide ([4; 3] = []).
Proof.
  apply (list_ops_refine 1 (s_list_init ∅ 1) []); [apply s_list_init_spec|vm_compute; reflexivity].
Defined.
End operations.
