(* ===== verification/Packet.v ===== *)
(** * [net/s_packet.c], [include/s_packet.h]: packets and their pool

    A packet is a C block: the fields of [struct s_packet] and, behind them,
    the bytes [s_packet_data_p] points to ([pk_data], as long as the block
    that was allocated).  Bytes are kept as values in [0, 256).
    Every function of the file is a definition here; [s_log] calls are left
    out.  A reader returns [None] for the C result -1 and keeps the packet it
    leaves behind; a writer returns the C result and the packet.  The readers
    and writers are written over the accesses they make to the block
    ([Memory]), so that an access outside it shows ([block_memory]); the
    functions with the names of the source are their total instances. *)

From S2P Require Import Prelude.
Local Open Scope Z_scope.

Definition S_PKT_STRING_MAX_LEN : Z := Z.shiftl 1 15.
Definition S_PKT_MAX_SZ_BITS : Z := 22.
Definition S_PKT_MAX_SZ : Z := Z.shiftl 1 S_PKT_MAX_SZ_BITS.
Definition S_PKT_SZ_POS : Z := 0.
Definition S_PKT_FUN_POS : Z := 4.
Definition S_PKT_REQ_POS : Z := 8.
Definition S_PKT_HEAD_SIZE : Z := 12.
Definition S_PKT_DATA_POS : Z := S_PKT_HEAD_SIZE.

Record s_packet := Packet {
  pk_size : Z;
  pk_pos : Z;
  pk_ref_count : Z;
  pk_exp : Z;
  pk_data : list Z
}.

Definition with_pos (p : s_packet) (v : Z) : s_packet :=
  Packet (pk_size p) v (pk_ref_count p) (pk_exp p) (pk_data p).
Definition with_size (p : s_packet) (v : Z) : s_packet :=
  Packet v (pk_pos p) (pk_ref_count p) (pk_exp p) (pk_data p).
Definition with_ref (p : s_packet) (v : Z) : s_packet :=
  Packet (pk_size p) (pk_pos p) v (pk_exp p) (pk_data p).
Definition with_data (p : s_packet) (d : list Z) : s_packet :=
  Packet (pk_size p) (pk_pos p) (pk_ref_count p) (pk_exp p) d.

(** [g_free]: one free list per size class, most recently dropped first *)
Abbreviation pool := (list (list s_packet)).
Definition g_free_init : pool := replicate 32 [].

(** [while((1 << i) < size) i++]: 32 steps are more than a size of at most
    [S_PKT_MAX_SZ] needs (see [size_class_spec]). *)
Fixpoint size_class (fuel : nat) (i size : Z) : Z :=
  match fuel with
  | O => i
  | S fuel => if Z.shiftl 1 i <? size then size_class fuel (i + 1) size else i
  end.

Section alloc.
(** what a byte of a block holds when [malloc] returns it *)
Context (junk : Z).

Definition iget_free_packet (g_free : pool) (size : Z) : option s_packet * pool :=
  if S_PKT_MAX_SZ <? size then (None, g_free)
  else
    let i := size_class 32 4 size in
    match g_free !!! Z.to_nat i with
    | p :: rest =>
        (Some (Packet (pk_size p) (pk_pos p) (pk_ref_count p) i (pk_data p)),
         <[Z.to_nat i := rest]> g_free)
    | [] =>
        let real := Z.to_nat (S_PKT_HEAD_SIZE + Z.shiftl 1 i) in
        (Some (Packet junk junk junk i (replicate real (uchar junk))), g_free)
    end.

Definition idrop_free_packet (g_free : pool) (pkt : s_packet) : pool :=
  let i := Z.to_nat (pk_exp pkt) in
  <[i := pkt :: (g_free !!! i)]> g_free.

Definition s_packet_create (g_free : pool) (size : Z) : option s_packet * pool :=
  match iget_free_packet g_free size with
  | (None, g_free) => (None, g_free)
  | (Some pkt, g_free) =>
      let size := size + S_PKT_HEAD_SIZE in
      let hdr := [byte_of size 0; byte_of size 1; byte_of size 2; byte_of size 3] in
      (Some (Packet size S_PKT_DATA_POS 1 (pk_exp pkt) (splice 0 hdr (pk_data pkt))), g_free)
  end.

(** [s_packet_create_from(p, len)]: [buf] is the memory from [p] on.  The
    call returns [NULL], returns a packet, or does not return: the
    [assert(sz > 0)] fails, or the packet is too big for the pool and the
    [NULL] of [s_packet_create] is dereferenced. *)
Inductive create_from_result :=
| CF_null
| CF_assert
| CF_null_deref
| CF_packet (pkt : s_packet) (g_free : pool).

Definition s_packet_create_from (g_free : pool) (buf : list Z) (len : Z) : create_from_result :=
  if len <? 4 then CF_null
  else
    let sz := sint (le4 (byte_at buf 0) (byte_at buf 1) (byte_at buf 2) (byte_at buf 3)) in
    if sz <=? 0 then CF_assert
    else if len <? sz then CF_null
    else
      match s_packet_create g_free (sz - S_PKT_HEAD_SIZE) with
      | (None, _) => CF_null_deref
      | (Some pkt, g_free) =>
          CF_packet (with_size (with_data pkt (splice 0 (slice 0 sz buf) (pk_data pkt))) sz) g_free
      end.

Definition s_packet_drop (g_free : pool) (pkt : s_packet) : s_packet * pool :=
  let pkt := with_ref pkt (pk_ref_count pkt - 1) in
  if pk_ref_count pkt =? 0 then (pkt, idrop_free_packet g_free pkt) else (pkt, g_free).
End alloc.

Definition s_packet_grab (pkt : s_packet) : s_packet := with_ref pkt (pk_ref_count pkt + 1).

Definition s_packet_seek (pkt : s_packet) (offset : Z) : Z * s_packet :=
  let sz_can_rw := pk_size pkt - S_PKT_HEAD_SIZE in
  if (offset <? 0) || (sz_can_rw <? offset) then (-1, pkt)
  else (0, with_pos pkt (offset + S_PKT_DATA_POS)).

Definition s_packet_eof (pkt : s_packet) : bool := pk_size pkt <=? pk_pos pkt.

(** ** Access to the bytes of a block
    The functions that read and write a packet are written once, over the
    accesses they make to its block: [peek] is the [i]-th [char] at the
    current position, [copy_out] and [copy_in] are [memcpy] from and to it. *)
Class Memory (F : Type → Type) := {
  m_ret : ∀ A, A → F A;
  m_bind : ∀ A B, F A → (A → F B) → F B;
  peek : s_packet → Z → F Z;
  copy_out : s_packet → Z → F (list Z);
  copy_in : s_packet → list Z → F s_packet
}.
Arguments m_ret {F _ A} _.
Arguments m_bind {F _ A B} _ _.
#[local] Notation "'let*' x := a 'in' k" := (m_bind a (λ x, k)) (at level 200, x pattern, right associativity).

Definition cur_byte (pkt : s_packet) (i : Z) : Z := byte_at (pk_data pkt) (pk_pos pkt + i).
Definition write_bytes (pkt : s_packet) (bs : list Z) : s_packet :=
  with_pos (with_data pkt (splice (pk_pos pkt) bs (pk_data pkt)))
    (pk_pos pkt + Z.of_nat (length bs)).

(** the [n] bytes [i] bytes behind the position are bytes of the block *)
Definition in_block (pkt : s_packet) (i n : Z) : bool :=
  (0 <=? pk_pos pkt + i) && (0 <=? n) && (pk_pos pkt + i + n <=? Z.of_nat (length (pk_data pkt))).

(** an access outside the block is undefined: [None] *)
Definition block_memory : Memory option := {|
  m_ret := @Some;
  m_bind A B a f := match a with Some x => f x | None => None end;
  peek pkt i := if in_block pkt i 1 then Some (cur_byte pkt i) else None;
  copy_out pkt n := if in_block pkt 0 n then Some (slice (pk_pos pkt) n (pk_data pkt)) else None;
  copy_in pkt bs := if in_block pkt 0 (Z.of_nat (length bs)) then Some (write_bytes pkt bs) else None
|}.

(** the same accesses as total functions, for the rest of the development:
    where no access is outside they are the same ([run_op_in_block]) *)
Definition total_memory : Memory (λ A, A) := {|
  m_ret A a := a;
  m_bind A B a f := f a;
  peek := cur_byte;
  copy_out pkt n := slice (pk_pos pkt) n (pk_data pkt);
  copy_in := write_bytes
|}.

Section operations.
Context {F : Type → Type} {HF : Memory F}.

(** *** Readers *)

(** [out] is false when the caller passes [NULL]: the position then stays *)
Definition read_char_in (pkt : s_packet) (out : bool) : F (option Z * s_packet) :=
  if pk_size pkt <? pk_pos pkt + 1 then m_ret (None, pkt)
  else if out then let* c := peek pkt 0 in m_ret (Some (schar c), with_pos pkt (pk_pos pkt + 1))
  else m_ret (Some 0, pkt).

Definition read_short_in (pkt : s_packet) : F (option Z * s_packet) :=
  if pk_size pkt <? pk_pos pkt + 2 then m_ret (None, pkt)
  else
    let* p0 := peek pkt 0 in let* p1 := peek pkt 1 in
    m_ret (Some (sshort (le2 p0 p1)), with_pos pkt (pk_pos pkt + 2)).

Definition read_ushort_in (pkt : s_packet) : F (option Z * s_packet) :=
  if pk_size pkt <? pk_pos pkt + 2 then m_ret (None, pkt)
  else
    let* p0 := peek pkt 0 in let* p1 := peek pkt 1 in
    m_ret (Some (ushort (le2 p0 p1)), with_pos pkt (pk_pos pkt + 2)).

Definition read_int_in (pkt : s_packet) : F (option Z * s_packet) :=
  if pk_size pkt <? pk_pos pkt + 4 then m_ret (None, pkt)
  else
    let* p0 := peek pkt 0 in let* p1 := peek pkt 1 in let* p2 := peek pkt 2 in let* p3 := peek pkt 3 in
    m_ret (Some (sint (le4 p0 p1 p2 p3)), with_pos pkt (pk_pos pkt + 4)).

Definition read_uint_in (pkt : s_packet) : F (option Z * s_packet) :=
  if pk_size pkt <? pk_pos pkt + 4 then m_ret (None, pkt)
  else
    let* p0 := peek pkt 0 in let* p1 := peek pkt 1 in let* p2 := peek pkt 2 in let* p3 := peek pkt 3 in
    m_ret (Some (uint (le4 p0 p1 p2 p3)), with_pos pkt (pk_pos pkt + 4)).

(** a string object is represented by its bytes; a failed read may already
    have consumed the length *)
Definition read_string_in (pkt : s_packet) : F (option (list Z) * s_packet) :=
  let* r := read_short_in pkt in
  match r with
  | (None, pkt) => m_ret (None, pkt)
  | (Some len, pkt) =>
      if len <? 0 then m_ret (None, pkt)
      else if pk_size pkt <? pk_pos pkt + len then m_ret (None, pkt)
      else let* s := copy_out pkt len in m_ret (Some s, with_pos pkt (pk_pos pkt + len))
  end.

(** [s_packet_read_to_end(pkt, buf, size)]: [buf] tells whether [buf] is not
    [NULL], [size] is [None] for [NULL]; the result is the C result, the
    value of [*size] and the bytes copied to [buf] *)
Definition read_to_end_in (pkt : s_packet) (buf : bool) (size : option Z) : F (Z * option Z * list Z) :=
  let sz := pk_size pkt - pk_pos pkt in
  match size with
  | None => m_ret (sz, None, [])
  | Some n =>
      if negb buf then m_ret (sz, Some sz, [])
      else if n <? sz then m_ret (-1, Some n, [])
      else let* bs := copy_out pkt sz in m_ret (sz, Some n, bs)
  end.

(** *** Writers *)

Definition write_char_in (pkt : s_packet) (c : Z) : F (Z * s_packet) :=
  if pk_size pkt <? pk_pos pkt + 1 then m_ret (-1, pkt)
  else let* pkt := copy_in pkt [uchar c] in m_ret (0, pkt).

Definition write_short_in (pkt : s_packet) (s : Z) : F (Z * s_packet) :=
  if pk_size pkt <? pk_pos pkt + 2 then m_ret (-1, pkt)
  else let* pkt := copy_in pkt [byte_of s 0; byte_of s 1] in m_ret (0, pkt).

Definition write_ushort_in (pkt : s_packet) (s : Z) : F (Z * s_packet) :=
  if pk_size pkt <? pk_pos pkt + 2 then m_ret (-1, pkt)
  else let* pkt := copy_in pkt [byte_of s 0; byte_of s 1] in m_ret (0, pkt).

Definition write_int_in (pkt : s_packet) (i : Z) : F (Z * s_packet) :=
  if pk_size pkt <? pk_pos pkt + 4 then m_ret (-1, pkt)
  else let* pkt := copy_in pkt [byte_of i 0; byte_of i 1; byte_of i 2; byte_of i 3] in m_ret (0, pkt).

Definition write_uint_in (pkt : s_packet) (i : Z) : F (Z * s_packet) :=
  if pk_size pkt <? pk_pos pkt + 4 then m_ret (-1, pkt)
  else let* pkt := copy_in pkt [byte_of i 0; byte_of i 1; byte_of i 2; byte_of i 3] in m_ret (0, pkt).

(** [pstr] is the memory of the string, [len] its length (the length of a
    string object, never negative) *)
Definition write_s_in (pkt : s_packet) (pstr : list Z) (len : Z) : F (Z * s_packet) :=
  if S_PKT_STRING_MAX_LEN <=? len then m_ret (-1, pkt)
  else if pk_size pkt <? pk_pos pkt + 2 + len then m_ret (-1, pkt)
  else
    let* w := write_short_in pkt len in
    match w with
    | (r, pkt) =>
        if r <? 0 then m_ret (-1, pkt)
        else let* pkt := copy_in pkt (take (Z.to_nat len) pstr) in m_ret (0, pkt)
    end.

Definition write_string_in (pkt : s_packet) (s : list Z) : F (Z * s_packet) :=
  write_s_in pkt s (Z.of_nat (length s)).

(** *** Header fields *)

Definition get_fun_in (pkt : s_packet) : F Z :=
  if pk_size pkt <? S_PKT_HEAD_SIZE then m_ret 0
  else let* r := read_uint_in (with_pos pkt S_PKT_FUN_POS) in m_ret (default 0 r.1).

Definition set_fun_in (pkt : s_packet) (fn : Z) : F (Z * s_packet) :=
  if pk_size pkt <? S_PKT_HEAD_SIZE then m_ret (-1, pkt)
  else let* w := write_uint_in (with_pos pkt S_PKT_FUN_POS) fn in m_ret (0, with_pos w.2 (pk_pos pkt)).

Definition get_req_in (pkt : s_packet) : F Z :=
  if pk_size pkt <? S_PKT_HEAD_SIZE then m_ret 0
  else let* r := read_uint_in (with_pos pkt S_PKT_REQ_POS) in m_ret (default 0 r.1).

Definition set_req_in (pkt : s_packet) (req : Z) : F (Z * s_packet) :=
  if pk_size pkt <? S_PKT_HEAD_SIZE then m_ret (-1, pkt)
  else let* w := write_uint_in (with_pos pkt S_PKT_REQ_POS) req in m_ret (0, with_pos w.2 (pk_pos pkt)).
End operations.

(** ** The functions of the file, with total accesses *)
Ltac plain t := eval cbv beta iota delta [total_memory m_ret m_bind peek copy_out copy_in] in t.
(** the calls of the generic [f] in [t] become calls of the total [g] *)
Ltac call f g t :=
  let t := eval pattern f in t in
  match t with ?k _ => eval cbv beta in (k g) end.

Definition s_packet_read_char : s_packet → bool → option Z * s_packet :=
  Eval cbv beta iota delta [read_char_in total_memory m_ret m_bind peek copy_out copy_in] in @read_char_in (λ A, A) total_memory.
Definition s_packet_read_short : s_packet → option Z * s_packet :=
  Eval cbv beta iota delta [read_short_in total_memory m_ret m_bind peek copy_out copy_in] in @read_short_in (λ A, A) total_memory.
Definition s_packet_read_ushort : s_packet → option Z * s_packet :=
  Eval cbv beta iota delta [read_ushort_in total_memory m_ret m_bind peek copy_out copy_in] in @read_ushort_in (λ A, A) total_memory.
Definition s_packet_read_int : s_packet → option Z * s_packet :=
  Eval cbv beta iota delta [read_int_in total_memory m_ret m_bind peek copy_out copy_in] in @read_int_in (λ A, A) total_memory.
Definition s_packet_read_uint : s_packet → option Z * s_packet :=
  Eval cbv beta iota delta [read_uint_in total_memory m_ret m_bind peek copy_out copy_in] in @read_uint_in (λ A, A) total_memory.
Definition s_packet_read_string : s_packet → option (list Z) * s_packet :=
  ltac:(let t := eval cbv beta delta [read_string_in] in (@read_string_in (λ A, A) total_memory) in
        let t := call constr:(@read_short_in (λ A, A) total_memory) s_packet_read_short t in let t := plain t in exact t).
Definition s_packet_read_to_end : s_packet → bool → option Z → Z * option Z * list Z :=
  Eval cbv beta iota delta [read_to_end_in total_memory m_ret m_bind peek copy_out copy_in] in @read_to_end_in (λ A, A) total_memory.
Definition s_packet_write_char : s_packet → Z → Z * s_packet :=
  Eval cbv beta iota delta [write_char_in total_memory m_ret m_bind peek copy_out copy_in] in @write_char_in (λ A, A) total_memory.
Definition s_packet_write_short : s_packet → Z → Z * s_packet :=
  Eval cbv beta iota delta [write_short_in total_memory m_ret m_bind peek copy_out copy_in] in @write_short_in (λ A, A) total_memory.
Definition s_packet_write_ushort : s_packet → Z → Z * s_packet :=
  Eval cbv beta iota delta [write_ushort_in total_memory m_ret m_bind peek copy_out copy_in] in @write_ushort_in (λ A, A) total_memory.
Definition s_packet_write_int : s_packet → Z → Z * s_packet :=
  Eval cbv beta iota delta [write_int_in total_memory m_ret m_bind peek copy_out copy_in] in @write_int_in (λ A, A) total_memory.
Definition s_packet_write_uint : s_packet → Z → Z * s_packet :=
  Eval cbv beta iota delta [write_uint_in total_memory m_ret m_bind peek copy_out copy_in] in @write_uint_in (λ A, A) total_memory.
Definition s_packet_write_s : s_packet → list Z → Z → Z * s_packet :=
  ltac:(let t := eval cbv beta delta [write_s_in] in (@write_s_in (λ A, A) total_memory) in
        let t := call constr:(@write_short_in (λ A, A) total_memory) s_packet_write_short t in let t := plain t in exact t).
Definition s_packet_write_string : s_packet → list Z → Z * s_packet :=
  ltac:(let t := eval cbv beta delta [write_string_in] in (@write_string_in (λ A, A) total_memory) in
        let t := call constr:(@write_s_in (λ A, A) total_memory) s_packet_write_s t in let t := plain t in exact t).
Definition s_packet_get_fun : s_packet → Z :=
  ltac:(let t := eval cbv beta delta [get_fun_in] in (@get_fun_in (λ A, A) total_memory) in
        let t := call constr:(@read_uint_in (λ A, A) total_memory) s_packet_read_uint t in let t := plain t in exact t).
Definition s_packet_set_fun : s_packet → Z → Z * s_packet :=
  ltac:(let t := eval cbv beta delta [set_fun_in] in (@set_fun_in (λ A, A) total_memory) in
        let t := call constr:(@write_uint_in (λ A, A) total_memory) s_packet_write_uint t in let t := plain t in exact t).
Definition s_packet_get_req : s_packet → Z :=
  ltac:(let t := eval cbv beta delta [get_req_in] in (@get_req_in (λ A, A) total_memory) in
        let t := call constr:(@read_uint_in (λ A, A) total_memory) s_packet_read_uint t in let t := plain t in exact t).
Definition s_packet_set_req : s_packet → Z → Z * s_packet :=
  ltac:(let t := eval cbv beta delta [set_req_in] in (@set_req_in (λ A, A) total_memory) in
        let t := call constr:(@write_uint_in (λ A, A) total_memory) s_packet_write_uint t in let t := plain t in exact t).

(** [s_packet_easy(fun, sz)] *)
Definition s_packet_easy (junk : Z) (g_free : pool) (fn sz : Z) : option s_packet * pool :=
  match s_packet_create junk g_free sz with
  | (None, g_free) => (None, g_free)
  | (Some pkt, g_free) => (Some (s_packet_set_fun pkt fn).2, g_free)
  end.

(** ** Well-formed packets
    The position is past the head, the size fits the block, and every cell
    holds a byte. *)
Definition pk_wf (p : s_packet) : Prop :=
  S_PKT_HEAD_SIZE <= pk_pos p ∧ pk_size p <= Z.of_nat (length (pk_data p)) ∧
  S_PKT_HEAD_SIZE <= Z.of_nat (length (pk_data p)) ∧
  Forall is_byte (pk_data p).

(** the bytes still to be read, and the bytes before the position *)
Definition pk_rest (p : s_packet) : list Z :=
  drop (Z.to_nat (pk_pos p)) (take (Z.to_nat (pk_size p)) (pk_data p)).
Definition pk_done (p : s_packet) : list Z := take (Z.to_nat (pk_pos p)) (pk_data p).
(** everything behind the head *)
Definition pk_payload (p : s_packet) : list Z :=
  drop (Z.to_nat S_PKT_HEAD_SIZE) (take (Z.to_nat (pk_size p)) (pk_data p)).

(** The operations a holder of a packet may apply, as data: any interleaving
    of them is a list.  What an operation hands back is kept as well. *)
Inductive pkt_op :=
| OpSeek (offset : Z)
| OpReadChar (out : bool) | OpReadShort | OpReadUshort | OpReadInt | OpReadUint | OpReadString
| OpReadToEnd (buf : bool) (size : option Z)
| OpWriteChar (c : Z) | OpWriteShort (s : Z) | OpWriteUshort (s : Z)
| OpWriteInt (i : Z) | OpWriteUint (i : Z) | OpWriteString (s : list Z)
| OpGetFun | OpSetFun (f : Z) | OpGetReq | OpSetReq (r : Z) | OpGrab.

Inductive op_result :=
| RNum (r : option Z) | RString (r : option (list Z)) | REnd (r : Z * option Z * list Z) | RCode (r : Z) | RNone.

Definition run_op {F} {HF : Memory F} (o : pkt_op) (p : s_packet) : F (op_result * s_packet)%type :=
  match o with
  | OpSeek off => let (r, p) := s_packet_seek p off in m_ret (RCode r, p)
  | OpReadChar out => let* r := read_char_in p out in m_ret (RNum r.1, r.2)
  | OpReadShort => let* r := read_short_in p in m_ret (RNum r.1, r.2)
  | OpReadUshort => let* r := read_ushort_in p in m_ret (RNum r.1, r.2)
  | OpReadInt => let* r := read_int_in p in m_ret (RNum r.1, r.2)
  | OpReadUint => let* r := read_uint_in p in m_ret (RNum r.1, r.2)
  | OpReadString => let* r := read_string_in p in m_ret (RString r.1, r.2)
  | OpReadToEnd buf size => let* r := read_to_end_in p buf size in m_ret (REnd r, p)
  | OpWriteChar c => let* r := write_char_in p c in m_ret (RCode r.1, r.2)
  | OpWriteShort s => let* r := write_short_in p s in m_ret (RCode r.1, r.2)
  | OpWriteUshort s => let* r := write_ushort_in p s in m_ret (RCode r.1, r.2)
  | OpWriteInt i => let* r := write_int_in p i in m_ret (RCode r.1, r.2)
  | OpWriteUint i => let* r := write_uint_in p i in m_ret (RCode r.1, r.2)
  | OpWriteString s => let* r := write_string_in p s in m_ret (RCode r.1, r.2)
  | OpGetFun => let* r := get_fun_in p in m_ret (RNum (Some r), p)
  | OpSetFun f => let* r := set_fun_in p f in m_ret (RCode r.1, r.2)
  | OpGetReq => let* r := get_req_in p in m_ret (RNum (Some r), p)
  | OpSetReq r => let* r := set_req_in p r in m_ret (RCode r.1, r.2)
  | OpGrab => m_ret (RNone, s_packet_grab p)
  end.

Fixpoint run_ops {F} {HF : Memory F} (ops : list pkt_op) (p : s_packet) : F (list op_result * s_packet)%type :=
  match ops with
  | [] => m_ret ([], p)
  | o :: ops => let* r := run_op o p in let* rs := run_ops ops r.2 in m_ret (r.1 :: rs.1, rs.2)
  end.

Definition op_bytes_ok (o : pkt_op) : Prop :=
  match o with OpWriteString s => Forall is_byte s | _ => True end.

Ltac pkc :=
  cbn [pk_size pk_pos pk_ref_count pk_exp pk_data with_pos with_size with_ref with_data
       write_bytes fst snd] in *.
Ltac pk_unfold :=
  unfold pk_wf, S_PKT_HEAD_SIZE, S_PKT_DATA_POS, S_PKT_FUN_POS, S_PKT_REQ_POS in *; pkc.

Section facts.
Implicit Types p : s_packet.

Lemma Forall_splice pos (src l : list Z) :
  Forall is_byte src → Forall is_byte l → Forall is_byte (splice pos src l).
Proof.
  intros. unfold splice. rewrite !Forall_app.
  split_and!; [by apply Forall_take|done|by apply Forall_drop].
Qed.

Lemma Forall_uchar_byte c : is_byte (uchar c).
Proof. apply (wrapu_range 8). lia. Qed.

Lemma bytes2 i : Forall is_byte [byte_of i 0; byte_of i 1].
Proof. repeat constructor; apply byte_of_range; lia. Qed.
Lemma bytes4 i : Forall is_byte [byte_of i 0; byte_of i 1; byte_of i 2; byte_of i 3].
Proof. repeat constructor; apply byte_of_range; lia. Qed.

(** A write within the block. *)
Lemma write_bytes_wf p bs :
  pk_wf p → Forall is_byte bs → pk_pos p + Z.of_nat (length bs) <= pk_size p →
  pk_wf (write_bytes p bs) ∧ length (pk_data (write_bytes p bs)) = length (pk_data p).
Proof.
  intros Hw Hb Hs. pk_unfold. destruct Hw as (? & ? & ? & ?).
  rewrite length_splice by lia. split; [|done]. split_and!; try lia. by apply Forall_splice.
Qed.

Lemma write_bytes_done p bs :
  pk_wf p → pk_pos p + Z.of_nat (length bs) <= pk_size p →
  pk_done (write_bytes p bs) = pk_done p ++ bs.
Proof.
  intros Hw Hs. unfold pk_done. pk_unfold. destruct Hw as (? & ? & _). unfold splice.
  rewrite app_assoc, take_app_le.
  2: { rewrite length_app, length_take. lia. }
  rewrite take_ge; [done|]. rewrite length_app, length_take. lia.
Qed.

(** bytes before the position are kept *)
Lemma write_bytes_prefix p bs k :
  0 <= k <= pk_pos p → pk_pos p + Z.of_nat (length bs) <= Z.of_nat (length (pk_data p)) →
  take (Z.to_nat k) (pk_data (write_bytes p bs)) = take (Z.to_nat k) (pk_data p).
Proof.
  intros Hk Hl. pkc. unfold splice.
  rewrite take_app_le by (rewrite length_take; lia). rewrite take_take. f_equal. lia.
Qed.

Lemma write_bytes_rest p bs :
  pk_wf p → pk_pos p + Z.of_nat (length bs) <= pk_size p →
  pk_rest (write_bytes p bs) = drop (length bs) (pk_rest p).
Proof.
  intros Hw Hs. unfold pk_rest. pk_unfold. destruct Hw as (? & ? & _). unfold splice.
  rewrite drop_drop, !skipn_firstn_comm. f_equal; [lia|].
  rewrite app_assoc, drop_app_ge by (rewrite length_app, length_take; lia).
  rewrite drop_drop. f_equal. rewrite length_app, length_take. lia.
Qed.

(** what was written is what is read from the same position *)
Lemma write_bytes_reread p bs :
  pk_wf p → pk_pos p + Z.of_nat (length bs) <= pk_size p →
  pk_rest (with_pos (write_bytes p bs) (pk_pos p)) = bs ++ drop (length bs) (pk_rest p).
Proof.
  intros Hw Hs. unfold pk_rest. pk_unfold. destruct Hw as (? & ? & _). unfold splice.
  rewrite !skipn_firstn_comm, drop_app_ge by (rewrite length_take; lia). rewrite length_take.
  replace (Z.to_nat (pk_pos p) - _)%nat with 0%nat by lia. rewrite drop_0, take_app_ge by lia.
  rewrite drop_drop. repeat f_equal; lia.
Qed.

Lemma write_bytes_slice p bs k n :
  pk_wf p → 0 <= k → 0 <= n → k + n <= pk_pos p → pk_pos p + Z.of_nat (length bs) <= pk_size p →
  slice k n (pk_data (write_bytes p bs)) = slice k n (pk_data p).
Proof.
  intros Hw Hk Hn Hp Hs. pk_unfold. destruct Hw as (? & ? & _). unfold slice, splice.
  rewrite drop_app_le by (rewrite length_take; lia).
  rewrite take_app_le by (rewrite length_drop, length_take; lia).
  rewrite skipn_firstn_comm, take_take. f_equal. lia.
Qed.

(** ** Safety: no operation leaves the block *)

(** the packet, its size, the length and the first four bytes of its block *)
Definition op_pre (h : list Z) (n : nat) (sz : Z) p : Prop :=
  pk_wf p ∧ pk_pos p <= pk_size p ∧ pk_size p = sz ∧ length (pk_data p) = n ∧ take 4 (pk_data p) = h.

Lemma op_pre_pos h n sz p v :
  S_PKT_HEAD_SIZE <= v → v <= pk_size p → op_pre h n sz p → op_pre h n sz (with_pos p v).
Proof. intros ? ? ((? & ? & ? & ?) & ? & ? & ? & ?). repeat (split; try done). Qed.

Lemma op_pre_write h n sz p bs :
  op_pre h n sz p → Forall is_byte bs → pk_pos p + Z.of_nat (length bs) <= pk_size p →
  op_pre h n sz (write_bytes p bs).
Proof.
  intros (Hw & Hps & Hsz & Hn & Hh) Hb Hp. destruct (write_bytes_wf p bs) as [Hw' Hl]; [done..|].
  split; [done|]. split; [pkc; lia|]. split; [done|]. split; [congruence|]. rewrite <-Hh.
  pk_unfold. destruct Hw as (? & ? & ? & _).
  apply (write_bytes_prefix p bs 4); lia.
Qed.

(** a write into the head, as [s_packet_set_fun] and [s_packet_set_req] do *)
Lemma op_pre_head h n sz p pos bs :
  op_pre h n sz p → Forall is_byte bs → 4 <= pos → pos + Z.of_nat (length bs) <= 12 →
  op_pre h n sz (with_pos (write_bytes (with_pos p pos) bs) (pk_pos p)).
Proof.
  intros ((Hp & Hs & Hd & Hb) & Hps & Hsz & Hn & Hh) Hbs Hpos Hle. pk_unfold.
  unfold op_pre, pk_wf. pkc. rewrite length_splice by lia.
  split_and!; try done; [by apply Forall_splice|].
  rewrite <-Hh. apply (write_bytes_prefix (with_pos p pos) bs 4); pkc; lia.
Qed.

(** accesses before the end of the packet are accesses to the block *)
Lemma in_block_size p i k :
  pk_size p <= Z.of_nat (length (pk_data p)) → 0 <= pk_pos p + i → 0 <= k → pk_pos p + i + k <= pk_size p →
  in_block p i k = true.
Proof. intros. unfold in_block. rewrite !andb_true_iff, !Z.leb_le. lia. Qed.
Lemma peek_ok p i :
  pk_size p <= Z.of_nat (length (pk_data p)) → 0 <= pk_pos p + i → pk_pos p + i + 1 <= pk_size p →
  peek (Memory := block_memory) p i = Some (cur_byte p i).
Proof. intros. cbn. rewrite in_block_size by lia. done. Qed.
Lemma copy_out_ok p k :
  pk_size p <= Z.of_nat (length (pk_data p)) → 0 <= pk_pos p → 0 <= k → pk_pos p + k <= pk_size p →
  copy_out (Memory := block_memory) p k = Some (slice (pk_pos p) k (pk_data p)).
Proof. intros. cbn. rewrite in_block_size by lia. done. Qed.
Lemma copy_in_ok p bs :
  pk_size p <= Z.of_nat (length (pk_data p)) → 0 <= pk_pos p → pk_pos p + Z.of_nat (length bs) <= pk_size p →
  copy_in (Memory := block_memory) p bs = Some (write_bytes p bs).
Proof. intros. cbn. rewrite in_block_size by lia. done. Qed.

Lemma write_uint_ok p w :
  pk_size p <= Z.of_nat (length (pk_data p)) → 0 <= pk_pos p → pk_pos p + 4 <= pk_size p →
  write_uint_in (HF := block_memory) p w = Some (s_packet_write_uint p w).
Proof.
  intros. unfold write_uint_in, s_packet_write_uint. rewrite (proj2 (Z.ltb_ge _ _)) by lia.
  rewrite copy_in_ok by (cbn; lia). done.
Qed.
Lemma read_uint_ok p :
  pk_size p <= Z.of_nat (length (pk_data p)) → 0 <= pk_pos p →
  read_uint_in (HF := block_memory) p = Some (s_packet_read_uint p).
Proof.
  intros. unfold read_uint_in, s_packet_read_uint. case_match; zbool; [done|].
  rewrite !peek_ok by lia. done.
Qed.

(** a head field is written with the position in the head *)
Lemma op_pre_head_write h n sz p pos w :
  4 <= pos <= 8 → op_pre h n sz p → op_pre h n sz (with_pos (s_packet_write_uint (with_pos p pos) w).2 (pk_pos p)).
Proof.
  intros Hpos Hp. unfold s_packet_write_uint. pkc.
  case_match; pkc; [by destruct p|apply op_pre_head; try done; [apply bytes4|lia|cbn; lia]].
Qed.

(** what an operation does on the block is what the total accesses do *)
Definition op_defined (h : list Z) (n : nat) (sz : Z) (o : pkt_op) (p : s_packet) : Prop :=
  ∃ r p', run_op (HF := block_memory) o p = Some (r, p') ∧
    run_op (HF := total_memory) o p = (r, p') ∧ op_pre h n sz p'.

Ltac op_facts Hp :=
  pose proof Hp as ((?H12 & ?Hle & _ & _) & ?Hps & _); unfold S_PKT_HEAD_SIZE in * |-.
Ltac mem := cbn [m_ret m_bind block_memory total_memory]; pkc.
Ltac op_done := mem; do 2 eexists; split; [reflexivity|]; split; [reflexivity|].

Lemma seek_defined h n sz off p : op_pre h n sz p → op_defined h n sz (OpSeek off) p.
Proof.
  intros Hp. unfold op_defined, run_op, s_packet_seek. destruct ((off <? 0) || _) eqn:E; op_done; [done|].
  zbool. unfold S_PKT_HEAD_SIZE, S_PKT_DATA_POS in *. apply op_pre_pos; unfold S_PKT_HEAD_SIZE; [lia..|done].
Qed.
Lemma read_defined h n sz o p :
  match o with OpReadChar _ | OpReadShort | OpReadUshort | OpReadInt | OpReadUint => True | _ => False end →
  op_pre h n sz p → op_defined h n sz o p.
Proof.
  intros Ho Hp. op_facts Hp.
  destruct o; try done;
    unfold op_defined, run_op, read_char_in, read_short_in, read_ushort_in, read_int_in, read_uint_in;
    destruct (_ <? _) eqn:E; zbool; try (op_done; done); try (destruct out; [|op_done; done]);
    rewrite !peek_ok by lia; op_done; (apply op_pre_pos; unfold S_PKT_HEAD_SIZE; [lia..|done]).
Qed.
Lemma read_string_defined h n sz p : op_pre h n sz p → op_defined h n sz OpReadString p.
Proof.
  intros Hp. op_facts Hp.
  unfold op_defined, run_op, read_string_in, read_short_in.
  destruct (_ <? pk_pos p + 2) eqn:E; zbool; [op_done; done|]. rewrite !peek_ok by lia. mem.
  change (peek (Memory := total_memory)) with cur_byte.
  set (len := sshort _). assert (op_pre h n sz (with_pos p (pk_pos p + 2))).
  { apply op_pre_pos; unfold S_PKT_HEAD_SIZE; [lia..|done]. }
  destruct (len <? 0) eqn:El; zbool; [op_done; done|].
  destruct (_ <? pk_pos p + 2 + len) eqn:E2; zbool; [op_done; done|].
  rewrite copy_out_ok by (pkc; lia). op_done. apply op_pre_pos; unfold S_PKT_HEAD_SIZE; pkc; [lia..|done].
Qed.
Lemma read_to_end_defined h n sz buf size p : op_pre h n sz p → op_defined h n sz (OpReadToEnd buf size) p.
Proof.
  intros Hp. op_facts Hp.
  unfold op_defined, run_op, read_to_end_in. cbv zeta. destruct size as [k|]; [|op_done; done].
  destruct buf; [|op_done; done]. cbn [negb]. destruct (_ <? _); [op_done; done|].
  rewrite copy_out_ok by lia. op_done. done.
Qed.
Lemma write_defined h n sz o p :
  match o with OpWriteChar _ | OpWriteShort _ | OpWriteUshort _ | OpWriteInt _ | OpWriteUint _ => True | _ => False end →
  op_pre h n sz p → op_defined h n sz o p.
Proof.
  intros Ho Hp. op_facts Hp.
  destruct o; try done;
    unfold op_defined, run_op, write_char_in, write_short_in, write_ushort_in, write_int_in, write_uint_in;
    destruct (_ <? _) eqn:E; zbool; try (op_done; done); rewrite copy_in_ok by (cbn; lia); op_done;
    (apply op_pre_write; [done|first [apply bytes2|apply bytes4|repeat constructor; apply Forall_uchar_byte]|cbn; lia]).
Qed.
Lemma write_string_defined h n sz s p :
  Forall is_byte s → op_pre h n sz p → op_defined h n sz (OpWriteString s) p.
Proof.
  intros Hs Hp. op_facts Hp.
  unfold op_defined, run_op, write_string_in, write_s_in, write_short_in.
  destruct (S_PKT_STRING_MAX_LEN <=? _); [op_done; done|].
  destruct (_ <? pk_pos p + 2 + _) eqn:E; zbool; [op_done; done|]. rewrite (proj2 (Z.ltb_ge _ (pk_pos p + 2))) by lia.
  rewrite copy_in_ok by (cbn; lia). mem. change (copy_in (Memory := total_memory)) with write_bytes. mem.
  assert (op_pre h n sz (write_bytes p [byte_of (Z.of_nat (length s)) 0; byte_of (Z.of_nat (length s)) 1])) as Hp2.
  { apply op_pre_write; [done|apply bytes2|cbn; lia]. }
  rewrite Nat2Z.id, take_ge by done. change (0 <? 0) with false. cbv iota. pose proof Hp2 as ((H12' & Hle' & _ & _) & _).
  pkc. rewrite copy_in_ok by (cbn; lia). op_done. apply op_pre_write; [done|done|cbn; lia].
Qed.
Lemma head_defined h n sz o p :
  match o with OpGetFun | OpSetFun _ | OpGetReq | OpSetReq _ => True | _ => False end →
  op_pre h n sz p → op_defined h n sz o p.
Proof.
  intros Ho Hp. op_facts Hp.
  destruct o; try done;
    unfold op_defined, run_op, get_fun_in, set_fun_in, get_req_in, set_req_in;
    destruct (_ <? S_PKT_HEAD_SIZE) eqn:E; zbool; try (op_done; done);
    unfold S_PKT_HEAD_SIZE, S_PKT_FUN_POS, S_PKT_REQ_POS in *;
    first [rewrite read_uint_ok by (pkc; lia)|rewrite write_uint_ok by (pkc; lia)]; op_done;
    first [done|by apply op_pre_head_write].
Qed.

Lemma run_op_defined h n sz o p : op_bytes_ok o → op_pre h n sz p → op_defined h n sz o p.
Proof.
  intros Hok Hp. destruct o; try (by apply read_defined); try (by apply write_defined); try (by apply head_defined);
    try (by apply write_string_defined).
  - by apply seek_defined.
  - by apply read_string_defined.
  - by apply read_to_end_defined.
  - unfold op_defined, run_op. op_done. by destruct Hp as (? & ? & ? & ? & ?).
Qed.

Lemma run_ops_defined h n sz ops p :
  Forall op_bytes_ok ops → op_pre h n sz p →
  ∃ rs p', run_ops (HF := block_memory) ops p = Some (rs, p') ∧
    run_ops (HF := total_memory) ops p = (rs, p') ∧ op_pre h n sz p'.
Proof.
  intros Hops. revert p. induction Hops as [|o ops Ho _ IH]; intros p Hp; [by exists [], p|].
  destruct (run_op_defined h n sz o p Ho Hp) as (r & p1 & E1 & E2 & Hp1).
  destruct (IH p1 Hp1) as (rs & p2 & E3 & E4 & Hp2). exists (r :: rs), p2. cbn [run_ops].
  rewrite E1, E2. mem. rewrite E3, E4. done.
Qed.
End facts.

(** ** The pool *)

(** A packet of size class [i] owns [12 + 2^i] bytes. *)
Definition block_ok (p : s_packet) : Prop :=
  4 <= pk_exp p <= S_PKT_MAX_SZ_BITS ∧
  Z.of_nat (length (pk_data p)) = S_PKT_HEAD_SIZE + 2 ^ pk_exp p ∧ Forall is_byte (pk_data p).

Definition pool_wf (g : pool) : Prop :=
  length g = 32%nat ∧
  ∀ (i : nat) l p, g !! i = Some l → p ∈ l → block_ok p ∧ pk_exp p = Z.of_nat i.

Lemma size_class_spec fuel i size :
  0 <= i → size <= 2 ^ (i + Z.of_nat fuel) →
  let e := size_class fuel i size in
  i <= e <= i + Z.of_nat fuel ∧ size <= 2 ^ e ∧ (e = i ∨ 2 ^ (e - 1) < size).
Proof.
  revert i. induction fuel as [|fuel IH]; intros i Hi Hs; cbn [size_class].
  - rewrite Z.add_0_r in *. split_and!; try lia; by left.
  - rewrite Z.shiftl_1_l. destruct (2 ^ i <? size) eqn:E; zbool; [|split_and!; try lia; by left].
    destruct (IH (i + 1)) as (? & ? & Hc); [lia| |].
    { replace (i + 1 + Z.of_nat fuel) with (i + Z.of_nat (S fuel)) by lia. done. }
    split_and!; try lia. right. destruct Hc as [->|]; [|done].
    by replace (i + 1 - 1) with i by lia.
Qed.

Lemma size_class_max size :
  size <= S_PKT_MAX_SZ → 4 <= size_class 32 4 size <= 22 ∧ size <= 2 ^ size_class 32 4 size.
Proof.
  intros Hs. change S_PKT_MAX_SZ with (2 ^ 22) in Hs.
  destruct (size_class_spec 32 4 size) as (H1 & H2 & H3); [lia| |].
  { etrans; [apply Hs|]. apply Z.pow_le_mono_r; lia. }
  split_and!; try lia. destruct H3 as [->|H3]; [lia|].
  destruct (decide (size_class 32 4 size <= 22)); [done|].
  assert (2 ^ 22 <= 2 ^ (size_class 32 4 size - 1)) by (apply Z.pow_le_mono_r; lia). lia.
Qed.

Lemma g_free_init_wf : pool_wf g_free_init.
Proof.
  split; [done|]. intros i l p Hl Hp. unfold g_free_init in Hl.
  apply lookup_replicate in Hl as [-> _]. set_solver.
Qed.

Section pool_facts.
Context (junk : Z).

Lemma iget_free_packet_spec g size :
  pool_wf g → size <= S_PKT_MAX_SZ →
  ∃ p g', iget_free_packet junk g size = (Some p, g') ∧ pool_wf g' ∧ block_ok p ∧
    S_PKT_HEAD_SIZE + size <= Z.of_nat (length (pk_data p)).
Proof.
  intros [Hl Hg] Hs. unfold iget_free_packet.
  rewrite (proj2 (Z.ltb_ge _ _)) by done.
  destruct (size_class_max size Hs) as [Hi Hc]. set (i := size_class 32 4 size) in *.
  destruct (lookup_lt_is_Some_2 g (Z.to_nat i)) as [l Hl']; [lia|].
  rewrite (list_lookup_total_correct _ _ _ Hl').
  destruct l as [|p l].
  - eexists _, _. split; [done|]. split; [by split|].
    assert (2 ^ i > 0) by (apply Z.lt_gt, Z.pow_pos_nonneg; lia).
    unfold block_ok. pkc. rewrite length_replicate, Z.shiftl_1_l.
    unfold S_PKT_HEAD_SIZE, S_PKT_MAX_SZ_BITS. split_and!; try lia.
    apply Forall_replicate, Forall_uchar_byte.
  - destruct (Hg _ _ p Hl') as [Hb He]; [set_solver|].
    eexists _, _. split; [done|]. split; [split|].
    + by rewrite length_insert.
    + intros k l' q Hk Hq. destruct (decide (k = Z.to_nat i)) as [->|].
      * rewrite list_lookup_insert_eq in Hk by lia. simplify_eq.
        apply (Hg _ _ q Hl'). set_solver.
      * rewrite list_lookup_insert_ne in Hk by done. by apply (Hg _ _ q Hk).
    + rewrite Z2Nat.id in He by lia.
      destruct Hb as (H1 & H2 & H3). unfold block_ok. pkc. rewrite H2, He.
      split_and!; try done; lia.
Qed.

Lemma s_packet_create_spec g size :
  pool_wf g → -12 <= size <= S_PKT_MAX_SZ →
  ∃ p g', s_packet_create junk g size = (Some p, g') ∧ pool_wf g' ∧ block_ok p ∧ pk_wf p ∧
    pk_size p = S_PKT_HEAD_SIZE + size ∧ pk_pos p = S_PKT_DATA_POS ∧ pk_ref_count p = 1 ∧
    take 4 (pk_data p) =
      [byte_of (pk_size p) 0; byte_of (pk_size p) 1; byte_of (pk_size p) 2; byte_of (pk_size p) 3].
Proof.
  intros Hg Hs. unfold s_packet_create.
  destruct (iget_free_packet_spec g size) as (p & g' & -> & Hg' & (Hb1 & Hb2 & Hb3) & Hlen);
    [done|lia|].
  eexists _, _. split; [done|]. split; [done|]. unfold block_ok, pk_wf. pkc.
  assert (12 <= Z.of_nat (length (pk_data p))).
  { rewrite Hb2. unfold S_PKT_HEAD_SIZE. assert (2 ^ pk_exp p > 0); [|lia].
    apply Z.lt_gt, Z.pow_pos_nonneg; lia. }
  rewrite length_splice by (simpl; lia). unfold S_PKT_DATA_POS.
  split_and!; try lia; try (unfold S_PKT_HEAD_SIZE in *; lia).
  - apply Forall_splice; [apply bytes4|done].
  - apply Forall_splice; [apply bytes4|done].
  - done.
Qed.

Lemma s_packet_drop_pool g p :
  pool_wf g → block_ok p → pool_wf (s_packet_drop g p).2.
Proof.
  intros [Hl Hg] Hb. unfold s_packet_drop. case_match; [|done]. pkc. unfold idrop_free_packet.
  pkc. destruct Hb as (He & Hb). unfold S_PKT_MAX_SZ_BITS in He. split; [by rewrite length_insert|].
  intros i l q Hi Hq. destruct (decide (i = Z.to_nat (pk_exp p))) as [->|].
  - rewrite list_lookup_insert_eq in Hi by lia. simplify_eq.
    destruct (lookup_lt_is_Some_2 g (Z.to_nat (pk_exp p))) as [l Hl']; [lia|].
    rewrite (list_lookup_total_correct _ _ _ Hl') in Hq.
    apply elem_of_cons in Hq as [->|Hq]; [|by apply (Hg _ _ q Hl')].
    unfold block_ok, S_PKT_MAX_SZ_BITS. pkc. split_and!; try lia; naive_solver.
  - rewrite list_lookup_insert_ne in Hi by done. by apply (Hg _ _ q Hi).
Qed.
End pool_facts.

(** ** The properties *)

(** C36. Memory safety of packets: for every sound pool, whatever fresh memory
    holds, [s_packet_create] succeeds for a size of at most 4M, and every
    sequence of seeks, reads, writes and header accesses on the packet, in any
    order and with any arguments, stays inside its block: no byte outside it is
    read or written, the position stays between the head and the size, the size
    and the size field are never overwritten, and the block keeps its length.
    The results are those of the total functions the other files use. *)
Theorem created_packet_safe junk g size ops :
  pool_wf g → 0 <= size <= S_PKT_MAX_SZ → Forall op_bytes_ok ops →
  ∃ p g', s_packet_create junk g size = (Some p, g') ∧ pool_wf g' ∧
    ∃ rs p', run_ops (HF := block_memory) ops p = Some (rs, p') ∧
    run_ops (HF := total_memory) ops p = (rs, p') ∧
    pk_wf p' ∧ pk_pos p' <= pk_size p' ∧ pk_size p' = S_PKT_HEAD_SIZE + size ∧
    length (pk_data p') = length (pk_data p) ∧
    take 4 (pk_data p') = [byte_of (pk_size p') 0; byte_of (pk_size p') 1;
                           byte_of (pk_size p') 2; byte_of (pk_size p') 3].
Proof.
  intros Hg Hs Hops.
  destruct (s_packet_create_spec junk g size) as (p & g' & E & Hg' & _ & Hw & Hsz & Hpos & _ & Hh); [done|lia|].
  exists p, g'. split; [done|]. split; [done|].
  destruct (run_ops_defined (take 4 (pk_data p)) (length (pk_data p)) (pk_size p) ops p Hops)
    as (rs & p' & E1 & E2 & Hw' & Hp' & Hs' & Hl' & Hh').
  { repeat split; try apply Hw. rewrite Hpos, Hsz. unfold S_PKT_DATA_POS. lia. }
  exists rs, p'. rewrite Hs'. split_and!; try done; congruence.
Qed.

Lemma created_packet_safe_witness :
  ∃ p g', s_packet_create 170 g_free_init 8 = (Some p, g') ∧ pool_wf g' ∧
    ∃ rs p', run_ops (HF := block_memory) [OpWriteInt 5; OpWriteString [1; 2]; OpSeek 0; OpReadInt; OpReadString; OpReadInt] p
      = Some (rs, p') ∧
    run_ops (HF := total_memory) [OpWriteInt 5; OpWriteString [1; 2]; OpSeek 0; OpReadInt; OpReadString; OpReadInt] p
      = (rs, p') ∧
    pk_wf p' ∧ pk_pos p' <= pk_size p' ∧ pk_size p' = S_PKT_HEAD_SIZE + 8 ∧
    length (pk_data p') = length (pk_data p) ∧
    take 4 (pk_data p') = [byte_of (pk_size p') 0; byte_of (pk_size p') 1;
                           byte_of (pk_size p') 2; byte_of (pk_size p') 3].
Proof.
  apply created_packet_safe; [apply g_free_init_wf|split; discriminate|].
  repeat constructor; discriminate.
Defined.

(** a read at the end of the packet fails, and the bytes behind the block would be no access of it *)
Example created_packet_safe_results :
  match s_packet_create 170 g_free_init 8 with
  | (Some p, _) => fst <$> run_ops (HF := block_memory)
      [OpWriteInt 5; OpWriteString [1; 2]; OpSeek 0; OpReadInt; OpReadString; OpReadInt] p
  | _ => None
  end = Some [RCode 0; RCode 0; RCode 0; RNum (Some 5); RString (Some [1; 2]); RNum None].
Proof. vm_compute. reflexivity. Qed.

(** The pool hands a block out again: a packet whose last reference is
    dropped is the block of the next packet of its size class, with room for
    it, and until then a larger or smaller class is not touched. *)
Theorem dropped_block_reused junk g p size :
  pool_wf g → block_ok p → pk_ref_count p = 1 → size <= S_PKT_MAX_SZ →
  let g' := (s_packet_drop g p).2 in
  pool_wf g' ∧
  if decide (size_class 32 4 size = pk_exp p)
  then ∃ q, s_packet_create junk g' size = (Some q, g) ∧ drop 4 (pk_data q) = drop 4 (pk_data p) ∧
    pk_size q <= Z.of_nat (length (pk_data p))
  else (s_packet_create junk g' size).1 = (s_packet_create junk g size).1.
Proof.
  intros Hg Hb Hr Hs g'. split; [by apply s_packet_drop_pool|].
  pose proof Hb as ((He1 & He2) & Hd & _). destruct Hg as [Hl Hg]. unfold S_PKT_MAX_SZ_BITS in He2.
  destruct (size_class_max size Hs) as [Hi Hc].
  assert (g' = <[Z.to_nat (pk_exp p) := with_ref p 0 :: g !!! Z.to_nat (pk_exp p)]> g) as ->.
  { unfold g', s_packet_drop. rewrite Hr. done. }
  unfold s_packet_create, iget_free_packet. rewrite (proj2 (Z.ltb_ge _ _)) by done.
  case_decide as E.
  - rewrite E. rewrite list_lookup_total_insert_eq by lia. eexists. split.
    { rewrite list_insert_insert_eq. rewrite list_insert_id; [done|].
      apply list_lookup_lookup_total_lt. lia. }
    pkc. split; [|rewrite Hd; unfold S_PKT_HEAD_SIZE; rewrite E in Hc; lia].
    reflexivity.
  - rewrite list_lookup_total_insert_ne by lia. by destruct (g !!! _).
Qed.

Lemma dropped_block_reused_witness :
  let p := Packet 20 12 1 4 (replicate 28 7) in
  let g' := (s_packet_drop g_free_init p).2 in
  pool_wf g' ∧
  if decide (size_class 32 4 16 = pk_exp p)
  then ∃ q, s_packet_create 0 g' 16 = (Some q, g_free_init) ∧ drop 4 (pk_data q) = drop 4 (pk_data p) ∧
    pk_size q <= Z.of_nat (length (pk_data p))
  else (s_packet_create 0 g' 16).1 = (s_packet_create 0 g_free_init 16).1.
Proof.
  apply dropped_block_reused; [apply g_free_init_wf| |reflexivity|discriminate].
  split; [split; discriminate|]. split; [reflexivity|]. apply Forall_replicate. unfold is_byte. lia.
Defined.
