(* ===== verification/Wire.v ===== *)
(** * Packets as sequences of fields: the writing macros and the readers

    [include/s_packet.h] builds a packet with [s_packet_start_write] ...
    [s_packet_end_write]: the body runs once to add up the sizes and once to
    write.  A body is here the list of fields it writes.  The second half of
    the file describes every reader by the bytes not yet read ([pk_rest]), so
    that a decoder is proved by rewriting. *)

From S2P Require Import Prelude Packet.
Local Open Scope Z_scope.

Inductive field :=
| Fint (i : Z)        (* s_packet_wint, s_packet_write_int *)
| Fuint (u : Z)       (* s_packet_wuint *)
| Fushort (s : Z)
| Fstring (s : list Z).

(** [s_packet_size_for_*] *)
Definition s_packet_size_for_string (s : list Z) : Z := 2 + Z.of_nat (length s).
Definition s_packet_size_for_int : Z := 4.
Definition s_packet_size_for_uint : Z := 4.
Definition s_packet_size_for_short : Z := 2.
Definition s_packet_size_for_ushort : Z := 2.
Definition s_packet_size_for_id : Z := 8.

Definition field_size (f : field) : Z :=
  match f with
  | Fint _ => s_packet_size_for_int
  | Fuint _ => s_packet_size_for_uint
  | Fushort _ => s_packet_size_for_ushort
  | Fstring s => s_packet_size_for_string s
  end.

Definition write_field (p : s_packet) (f : field) : Z * s_packet :=
  match f with
  | Fint i => s_packet_write_int p i
  | Fuint u => s_packet_write_uint p u
  | Fushort s => s_packet_write_ushort p s
  | Fstring s => s_packet_write_string p s
  end.

(** the results of the writes are ignored by the macros *)
Definition write_fields (p : s_packet) (fs : list field) : s_packet :=
  foldl (λ p f, (write_field p f).2) p fs.

(** pass 0 adds up the sizes, pass 1 creates the packet and writes *)
Definition s_packet_start_write (junk : Z) (g : pool) (fn : Z) (fs : list field)
    : option s_packet * pool :=
  let sz := foldl (λ sz f, sz + field_size f) 0 fs in
  match s_packet_easy junk g fn sz with
  | (Some p, g) => (Some (write_fields p fs), g)
  | (None, g) => (None, g)
  end.

(** ** Encodings *)
Definition enc_field (f : field) : list Z :=
  match f with
  | Fint i | Fuint i => [byte_of i 0; byte_of i 1; byte_of i 2; byte_of i 3]
  | Fushort s => [byte_of s 0; byte_of s 1]
  | Fstring s => [byte_of (Z.of_nat (length s)) 0; byte_of (Z.of_nat (length s)) 1] ++ s
  end.

Definition enc_fields (fs : list field) : list Z := concat (map enc_field fs).

Definition field_ok (f : field) : Prop :=
  match f with
  | Fint i => is_int i
  | Fuint u => is_uint u
  | Fushort s => is_ushort s
  | Fstring s => Forall is_byte s ∧ Z.of_nat (length s) < S_PKT_STRING_MAX_LEN
  end.

(** ** Readers on the remaining bytes *)

(** a reader's kind, as the macro [s_packet_read(pkt, out, type, error)] *)
Inductive kind := Kint | Kuint | Kushort | Kstring.
Definition field_kind (f : field) : kind :=
  match f with Fint _ => Kint | Fuint _ => Kuint | Fushort _ => Kushort | Fstring _ => Kstring end.

Definition read_field (k : kind) (p : s_packet) : option field * s_packet :=
  match k with
  | Kint => let '(r, p) := s_packet_read_int p in (Fint <$> r, p)
  | Kuint => let '(r, p) := s_packet_read_uint p in (Fuint <$> r, p)
  | Kushort => let '(r, p) := s_packet_read_ushort p in (Fushort <$> r, p)
  | Kstring => let '(r, p) := s_packet_read_string p in (Fstring <$> r, p)
  end.

(** reads in order; the first failure jumps to the error label *)
Fixpoint read_fields (ks : list kind) (p : s_packet) : option (list field) * s_packet :=
  match ks with
  | [] => (Some [], p)
  | k :: ks =>
      match read_field k p with
      | (None, p) => (None, p)
      | (Some f, p) =>
          let '(fs, p) := read_fields ks p in (cons f <$> fs, p)
      end
  end.

Section facts.
Implicit Types p : s_packet.

Lemma length_enc_field f : Z.of_nat (length (enc_field f)) = field_size f.
Proof.
  destruct f; simpl; unfold s_packet_size_for_int, s_packet_size_for_uint,
    s_packet_size_for_ushort, s_packet_size_for_string; lia.
Qed.

Lemma enc_field_bytes f : field_ok f → Forall is_byte (enc_field f).
Proof.
  destruct f; simpl; intros Hf; [apply bytes4|apply bytes4|apply bytes2|].
  apply (Forall_app_2 is_byte [_; _]); [apply bytes2|naive_solver].
Qed.

Lemma length_pk_rest p : pk_wf p → Z.of_nat (length (pk_rest p)) = Z.max 0 (pk_size p - pk_pos p).
Proof.
  intros (? & ? & ? & _). unfold pk_rest, S_PKT_HEAD_SIZE in *.
  rewrite length_drop, length_take. lia.
Qed.

Lemma pk_rest_advance p k :
  pk_wf p → 0 <= k → pk_rest (with_pos p (pk_pos p + k)) = drop (Z.to_nat k) (pk_rest p).
Proof.
  intros (? & _) ?. unfold pk_rest, S_PKT_HEAD_SIZE in *. pkc. rewrite drop_drop. f_equal. lia.
Qed.

Lemma pk_wf_advance p k : pk_wf p → 0 <= k → pk_wf (with_pos p (pk_pos p + k)).
Proof. intros (? & ? & ? & ?) ?. unfold pk_wf. pkc. split_and!; try done. lia. Qed.

Lemma cur_byte_rest p i b :
  pk_wf p → 0 <= i → pk_rest p !! Z.to_nat i = Some b → cur_byte p i = b.
Proof.
  intros (? & _) ? Hb. unfold pk_rest in Hb. unfold cur_byte, byte_at, S_PKT_HEAD_SIZE in *.
  rewrite lookup_drop, lookup_take_Some in Hb. destruct Hb as [Hb _].
  replace (Z.to_nat (pk_pos p + i)) with (Z.to_nat (pk_pos p) + Z.to_nat i)%nat by lia.
  by rewrite Hb.
Qed.

(** [k] fixed bytes: present exactly when the guard of the reader passes *)
Lemma guard_rest p bs l k :
  pk_wf p → pk_rest p = bs ++ l → Z.of_nat (length bs) = k → 0 < k ∨ pk_pos p <= pk_size p →
  pk_size p <? pk_pos p + k = false.
Proof.
  intros Hw Hr Hk Hk0. apply Z.ltb_ge. pose proof (length_pk_rest p Hw) as Hl.
  rewrite Hr, length_app in Hl. lia.
Qed.

Lemma read_int_bytes p b0 b1 b2 b3 l :
  pk_wf p → pk_rest p = b0 :: b1 :: b2 :: b3 :: l →
  s_packet_read_int p = (Some (sint (le4 b0 b1 b2 b3)), with_pos p (pk_pos p + 4)).
Proof.
  intros Hw Hr. unfold s_packet_read_int. rewrite (guard_rest p [b0; b1; b2; b3] l) by (done || by left).
  rewrite (cur_byte_rest p 0 b0), (cur_byte_rest p 1 b1), (cur_byte_rest p 2 b2),
    (cur_byte_rest p 3 b3); by rewrite ?Hr.
Qed.
Lemma read_uint_bytes p b0 b1 b2 b3 l :
  pk_wf p → pk_rest p = b0 :: b1 :: b2 :: b3 :: l →
  s_packet_read_uint p = (Some (uint (le4 b0 b1 b2 b3)), with_pos p (pk_pos p + 4)).
Proof.
  intros Hw Hr. unfold s_packet_read_uint. rewrite (guard_rest p [b0; b1; b2; b3] l) by (done || by left).
  rewrite (cur_byte_rest p 0 b0), (cur_byte_rest p 1 b1), (cur_byte_rest p 2 b2),
    (cur_byte_rest p 3 b3); by rewrite ?Hr.
Qed.
Lemma read_short_bytes p b0 b1 l :
  pk_wf p → pk_rest p = b0 :: b1 :: l →
  s_packet_read_short p = (Some (sshort (le2 b0 b1)), with_pos p (pk_pos p + 2)).
Proof.
  intros Hw Hr. unfold s_packet_read_short. rewrite (guard_rest p [b0; b1] l) by (done || by left).
  rewrite (cur_byte_rest p 0 b0), (cur_byte_rest p 1 b1); by rewrite ?Hr.
Qed.
Lemma read_ushort_bytes p b0 b1 l :
  pk_wf p → pk_rest p = b0 :: b1 :: l →
  s_packet_read_ushort p = (Some (ushort (le2 b0 b1)), with_pos p (pk_pos p + 2)).
Proof.
  intros Hw Hr. unfold s_packet_read_ushort. rewrite (guard_rest p [b0; b1] l) by (done || by left).
  rewrite (cur_byte_rest p 0 b0), (cur_byte_rest p 1 b1); by rewrite ?Hr.
Qed.

Lemma advance_over p bs l k :
  pk_wf p → pk_rest p = bs ++ l → k = Z.of_nat (length bs) →
  pk_wf (with_pos p (pk_pos p + k)) ∧ pk_rest (with_pos p (pk_pos p + k)) = l.
Proof.
  intros Hw Hr ->. split; [apply pk_wf_advance; [done|lia]|].
  rewrite pk_rest_advance, Hr, Nat2Z.id by (done || lia). by rewrite drop_app_length.
Qed.

(** Each reader inverts its writer, and leaves what follows. *)
Lemma read_field_enc p f l :
  pk_wf p → field_ok f → pk_rest p = enc_field f ++ l →
  ∃ p', read_field (field_kind f) p = (Some f, p') ∧ pk_wf p' ∧ pk_rest p' = l.
Proof.
  intros Hw Hok Hr. destruct f as [i|u|s|s]; simpl in *.
  - erewrite read_int_bytes by done. rewrite le4_byte_of, sint_uint, sint_small by done.
    eexists. split; [done|]. by apply (advance_over p (enc_field (Fint i))).
  - erewrite read_uint_bytes by done. rewrite le4_byte_of, (uint_small u), (uint_small u) by done.
    eexists. split; [done|]. by apply (advance_over p (enc_field (Fuint u))).
  - erewrite read_ushort_bytes by done. rewrite le2_byte_of, (ushort_small s), (ushort_small s) by done.
    eexists. split; [done|]. by apply (advance_over p (enc_field (Fushort s))).
  - destruct Hok as [Hb Hl]. change S_PKT_STRING_MAX_LEN with 32768 in Hl.
    unfold s_packet_read_string. erewrite read_short_bytes by done.
    rewrite le2_byte_of, sshort_ushort, sshort_small by (unfold is_short; lia).
    destruct (advance_over p [byte_of (Z.of_nat (length s)) 0; byte_of (Z.of_nat (length s)) 1]
      (s ++ l) 2) as [Hw' Hr']; [done..|].
    set (p' := with_pos p (pk_pos p + 2)) in *.
    rewrite (proj2 (Z.ltb_ge _ _)) by lia.
    assert (pk_pos p' <= pk_size p').
    { pose proof (length_pk_rest p Hw) as Hl'. rewrite Hr in Hl'. cbn [length] in Hl'.
      unfold p'. pkc. lia. }
    rewrite (guard_rest p' s l) by (done || by right).
    eexists. split; [|by apply (advance_over p' s)].
    pose proof (length_pk_rest p' Hw') as Hl'. rewrite Hr', length_app in Hl'.
    do 3 f_equal. unfold slice. apply (f_equal (take (length s))) in Hr'.
    rewrite take_app_length in Hr'. rewrite <-Hr' at 2. unfold pk_rest.
    rewrite skipn_firstn_comm, take_take, Nat2Z.id. f_equal.
    destruct Hw' as (? & _). unfold S_PKT_HEAD_SIZE in *. rewrite Nat.min_l; [done|lia].
Qed.

Lemma read_fields_enc fs p l :
  pk_wf p → Forall field_ok fs → pk_rest p = enc_fields fs ++ l →
  ∃ p', read_fields (map field_kind fs) p = (Some fs, p') ∧ pk_wf p' ∧ pk_rest p' = l.
Proof.
  intros Hw Hok. revert p Hw. induction Hok as [|f fs Hf Hok IH]; intros p Hw Hr.
  - by exists p.
  - unfold enc_fields in Hr. cbn [map concat] in Hr. rewrite <-app_assoc in Hr.
    destruct (read_field_enc p f _ Hw Hf Hr) as (p1 & Hr1 & Hw1 & Hrest1).
    destruct (IH p1 Hw1 Hrest1) as (p2 & Hr2 & Hw2 & Hrest2).
    exists p2. cbn [map read_fields]. by rewrite Hr1, Hr2.
Qed.

(** A writer that fits appends the encoding to what is before the position. *)
Definition appended (p p' : s_packet) (bs : list Z) : Prop :=
  pk_wf p' ∧ pk_size p' = pk_size p ∧ pk_ref_count p' = pk_ref_count p ∧
  pk_pos p' = pk_pos p + Z.of_nat (length bs) ∧ pk_done p' = pk_done p ++ bs.

Lemma appended_write p bs :
  pk_wf p → Forall is_byte bs → pk_pos p + Z.of_nat (length bs) <= pk_size p →
  appended p (write_bytes p bs) bs.
Proof.
  intros Hw Hb Hs. destruct (write_bytes_wf p bs) as [Hw' _]; [done..|].
  split_and!; try done. by apply write_bytes_done.
Qed.

Lemma appended_trans p p1 p2 bs bs' :
  appended p p1 bs → appended p1 p2 bs' → appended p p2 (bs ++ bs').
Proof.
  intros (? & ? & ? & ? & E1) (? & ? & ? & ? & E2). unfold appended.
  rewrite E2, E1, length_app, <-app_assoc. split_and!; try done; try congruence; lia.
Qed.

Lemma write_field_spec p f :
  pk_wf p → field_ok f → pk_pos p + field_size f <= pk_size p →
  ∃ p', write_field p f = (0, p') ∧ appended p p' (enc_field f).
Proof.
  intros Hw Hok Hs. pose proof (enc_field_bytes f Hok) as Hb. pose proof (length_enc_field f) as Hl.
  rewrite <-Hl in Hs. pose proof (appended_write p (enc_field f) Hw Hb Hs) as Ha.
  destruct f as [i|u|s|s]; simpl in *;
    unfold s_packet_write_int, s_packet_write_uint, s_packet_write_ushort;
    try (rewrite (proj2 (Z.ltb_ge _ _)) by lia; eauto).
  clear Ha. destruct Hok as [Hbs Hls]. unfold s_packet_size_for_string in Hl.
  unfold s_packet_write_string, s_packet_write_s, s_packet_write_short.
  rewrite (proj2 (Z.leb_gt _ _)) by lia. rewrite !(proj2 (Z.ltb_ge _ _)) by lia.
  rewrite Nat2Z.id, take_ge by done. simpl (0 <? 0). eexists. split; [done|].
  set (n := Z.of_nat (length s)) in *.
  assert (appended p (write_bytes p [byte_of n 0; byte_of n 1]) [byte_of n 0; byte_of n 1]) as H1.
  { apply appended_write; [done|apply bytes2|simpl; lia]. }
  apply (appended_trans _ _ _ [_; _] s H1). apply appended_write; [apply H1|done|].
  pkc. simpl. lia.
Qed.

Lemma write_fields_spec fs p :
  pk_wf p → Forall field_ok fs → pk_pos p + Z.of_nat (length (enc_fields fs)) <= pk_size p →
  appended p (write_fields p fs) (enc_fields fs).
Proof.
  intros Hw Hok. revert p Hw. induction Hok as [|f fs Hf Hok IH]; intros p Hw Hs.
  - unfold appended, enc_fields. simpl. rewrite app_nil_r. split_and!; try done. lia.
  - unfold enc_fields in Hs. cbn [map concat] in Hs. rewrite length_app in Hs.
    pose proof (length_enc_field f).
    destruct (write_field_spec p f) as (p1 & Hr & Ha); [done..|lia|].
    unfold write_fields. cbn [foldl]. rewrite Hr. cbn [snd].
    apply (appended_trans _ p1); [done|]. destruct Ha as (? & ? & ? & ? & ?).
    apply IH; [done|]. fold enc_fields in Hs. change (concat (map enc_field fs)) with (enc_fields fs) in Hs. lia.
Qed.

Lemma fields_size fs : foldl (λ sz f, sz + field_size f) 0 fs = Z.of_nat (length (enc_fields fs)).
Proof.
  assert (∀ z, foldl (λ sz f, sz + field_size f) z fs = z + Z.of_nat (length (enc_fields fs))) as H;
    [|by rewrite H].
  induction fs as [|f fs IH]; intros z; simpl; [by rewrite Z.add_0_r|].
  rewrite IH. change (enc_fields (f :: fs)) with (enc_field f ++ enc_fields fs).
  rewrite length_app, <-length_enc_field. lia.
Qed.

(** ** Header fields *)
Lemma set_fun_spec p fn :
  pk_wf p → S_PKT_HEAD_SIZE <= pk_size p →
  let p' := (s_packet_set_fun p fn).2 in
  pk_wf p' ∧ pk_size p' = pk_size p ∧ pk_pos p' = pk_pos p ∧ pk_ref_count p' = pk_ref_count p ∧
  drop 8 (pk_data p') = drop 8 (pk_data p) ∧ take 4 (pk_data p') = take 4 (pk_data p) ∧
  slice 4 4 (pk_data p') = [byte_of fn 0; byte_of fn 1; byte_of fn 2; byte_of fn 3].
Proof.
  intros (Hp & Hs & Hd & Hb) Hsz. unfold s_packet_set_fun, s_packet_write_uint. pk_unfold.
  rewrite !(proj2 (Z.ltb_ge _ _)) by lia. pkc. unfold pk_wf. pkc.
  rewrite length_splice by (simpl; lia). split_and!; try done; try (unfold S_PKT_HEAD_SIZE; lia).
  - apply Forall_splice; [apply bytes4|done].
  - unfold splice. rewrite app_assoc, drop_app_ge; rewrite length_app, length_take; simpl length; [|lia].
    rewrite drop_drop. f_equal. lia.
  - unfold splice. rewrite take_app_le by (rewrite length_take; lia). by rewrite take_take.
  - apply (slice_splice_eq 4 [_; _; _; _]); lia.
Qed.

Lemma byte_at_slice (l : list Z) pos n (i : nat) b :
  0 <= pos → slice pos n l !! i = Some b → byte_at l (pos + Z.of_nat i) = b.
Proof.
  intros Hp Hb. unfold slice in Hb. apply lookup_take_Some in Hb as [Hb _].
  rewrite lookup_drop in Hb. unfold byte_at.
  replace (Z.to_nat (pos + Z.of_nat i)) with (Z.to_nat pos + i)%nat by lia. by rewrite Hb.
Qed.

Lemma slice_field (l : list Z) pos b0 b1 b2 b3 :
  0 <= pos → slice pos 4 l = [b0; b1; b2; b3] →
  byte_at l (pos + 0) = b0 ∧ byte_at l (pos + 1) = b1 ∧ byte_at l (pos + 2) = b2 ∧
  byte_at l (pos + 3) = b3.
Proof.
  intros Hp Hs. split_and!.
  - apply (byte_at_slice l pos 4 0 b0); [done|by rewrite Hs].
  - apply (byte_at_slice l pos 4 1 b1); [done|by rewrite Hs].
  - apply (byte_at_slice l pos 4 2 b2); [done|by rewrite Hs].
  - apply (byte_at_slice l pos 4 3 b3); [done|by rewrite Hs].
Qed.

Lemma get_fun_slice p fn :
  S_PKT_HEAD_SIZE <= pk_size p →
  slice 4 4 (pk_data p) = [byte_of fn 0; byte_of fn 1; byte_of fn 2; byte_of fn 3] →
  s_packet_get_fun p = uint fn.
Proof.
  intros Hs Hf. unfold s_packet_get_fun, s_packet_read_uint, cur_byte. pk_unfold.
  rewrite !(proj2 (Z.ltb_ge _ _)) by lia. cbn [fst default].
  destruct (slice_field _ 4 _ _ _ _ ltac:(lia) Hf) as (-> & -> & -> & ->).
  rewrite le4_byte_of. apply uint_small, uint_range.
Qed.

Lemma get_req_slice p r :
  S_PKT_HEAD_SIZE <= pk_size p →
  slice 8 4 (pk_data p) = [byte_of r 0; byte_of r 1; byte_of r 2; byte_of r 3] →
  s_packet_get_req p = uint r.
Proof.
  intros Hs Hf. unfold s_packet_get_req, s_packet_read_uint, cur_byte. pk_unfold.
  rewrite !(proj2 (Z.ltb_ge _ _)) by lia. cbn [fst default].
  destruct (slice_field _ 8 _ _ _ _ ltac:(lia) Hf) as (-> & -> & -> & ->).
  rewrite le4_byte_of. apply uint_small, uint_range.
Qed.

(** What a finished packet holds. *)
Definition carries (p : s_packet) (fn : Z) (fs : list field) : Prop :=
  pk_wf p ∧ pk_size p = S_PKT_HEAD_SIZE + Z.of_nat (length (enc_fields fs)) ∧
  take 4 (pk_data p) = [byte_of (pk_size p) 0; byte_of (pk_size p) 1; byte_of (pk_size p) 2; byte_of (pk_size p) 3] ∧
  slice 4 4 (pk_data p) = [byte_of fn 0; byte_of fn 1; byte_of fn 2; byte_of fn 3] ∧
  pk_payload p = enc_fields fs.

(** What a finished packet with room for [sz] bytes holds. *)
Definition carries_ext (p : s_packet) (fn sz : Z) (fs : list field) (tl : list Z) : Prop :=
  pk_wf p ∧ pk_size p = S_PKT_HEAD_SIZE + sz ∧
  take 4 (pk_data p) = [byte_of (pk_size p) 0; byte_of (pk_size p) 1; byte_of (pk_size p) 2; byte_of (pk_size p) 3] ∧
  slice 4 4 (pk_data p) = [byte_of fn 0; byte_of fn 1; byte_of fn 2; byte_of fn 3] ∧
  pk_payload p = enc_fields fs ++ tl.

Lemma payload_done p :
  pk_wf p → pk_pos p <= pk_size p →
  pk_payload p = drop (Z.to_nat S_PKT_HEAD_SIZE) (pk_done p) ++ pk_rest p.
Proof.
  intros (Hp & Hs & _) Hle. unfold pk_payload, pk_done, pk_rest, S_PKT_HEAD_SIZE in *.
  rewrite <-(take_drop (Z.to_nat (pk_pos p)) (take (Z.to_nat (pk_size p)) (pk_data p))) at 1.
  rewrite take_take, Nat.min_l by lia. apply drop_app_le. rewrite length_take. lia.
Qed.

(** writes behind the head leave the head *)
Lemma appended_head p p' bs k n :
  pk_wf p → appended p p' bs → 0 <= k → 0 <= n → k + n <= pk_pos p → pk_pos p <= pk_size p →
  slice k n (pk_data p') = slice k n (pk_data p).
Proof.
  intros (Hp & Hs & _) ((Hp' & Hs' & _) & _ & _ & Hpos & Hd) Hk Hn Hkn Hle.
  unfold pk_done, S_PKT_HEAD_SIZE in *. apply (f_equal (take (Z.to_nat (k + n)))) in Hd.
  rewrite take_app_le in Hd by (rewrite length_take; lia).
  rewrite !take_take, !Nat.min_l in Hd by lia. unfold slice.
  replace (Z.to_nat n) with (Z.to_nat (k + n) - Z.to_nat k)%nat by lia.
  by rewrite <-!skipn_firstn_comm, Hd.
Qed.

Lemma easy_write_spec junk g fn sz fs :
  pool_wf g → Forall field_ok fs → Z.of_nat (length (enc_fields fs)) <= sz <= S_PKT_MAX_SZ →
  ∃ p g' tl, s_packet_easy junk g fn sz = (Some p, g') ∧ pool_wf g' ∧
    carries_ext (write_fields p fs) fn sz fs tl ∧ pk_wf p ∧ pk_pos p = S_PKT_DATA_POS ∧ pk_size p = S_PKT_HEAD_SIZE + sz ∧
    pk_pos (write_fields p fs) = S_PKT_DATA_POS + Z.of_nat (length (enc_fields fs)) ∧
    pk_ref_count (write_fields p fs) = 1.
Proof.
  intros Hg Hok Hsz. unfold s_packet_easy.
  destruct (s_packet_create_spec junk g sz) as (p & g' & -> & Hg' & Hb & Hw & Hs & Hpos & Href & Hhd); [done|lia|].
  set (p1 := (s_packet_set_fun p fn).2).
  destruct (set_fun_spec p fn) as (Hw1 & Hs1 & Hp1 & Hr1 & _ & Ht1 & Hf1); [done|lia|].
  fold p1 in Hw1, Hs1, Hp1, Hr1, Ht1, Hf1. unfold S_PKT_DATA_POS, S_PKT_HEAD_SIZE in *.
  pose proof (write_fields_spec fs p1 Hw1 Hok ltac:(lia)) as Ha. pose proof Ha as (Hw2 & Hs2 & Hr2 & Hp2 & Hd2).
  exists p1, g', (pk_rest (write_fields p1 fs)). split; [done|]. split; [done|].
  split; [|split_and!; done || lia || congruence].
  split_and!; [done|unfold S_PKT_HEAD_SIZE; lia| | |].
  - change (slice 0 4 (pk_data (write_fields p1 fs)) = [byte_of (pk_size (write_fields p1 fs)) 0;
      byte_of (pk_size (write_fields p1 fs)) 1; byte_of (pk_size (write_fields p1 fs)) 2; byte_of (pk_size (write_fields p1 fs)) 3]).
    rewrite (appended_head p1 _ _ 0 4 Hw1 Ha) by lia. rewrite Hs2, Hs1.
    change (slice 0 4 (pk_data p1)) with (take 4 (pk_data p1)). by rewrite Ht1, Hhd.
  - by rewrite (appended_head p1 _ _ 4 4 Hw1 Ha) by lia.
  - rewrite payload_done by (done || lia). f_equal. rewrite Hd2.
    assert (length (pk_done p1) = Z.to_nat 12) as E12; [|change (Z.to_nat S_PKT_HEAD_SIZE) with (Z.to_nat 12); by rewrite <-E12, drop_app_length].
    unfold pk_done. rewrite length_take. destruct Hw1 as (? & ? & ? & _). unfold S_PKT_HEAD_SIZE in *. lia.
Qed.

(** Two pools, two contents of fresh memory: same bytes. *)
Lemma start_write_spec junk g fn fs :
  pool_wf g → Forall field_ok fs → Z.of_nat (length (enc_fields fs)) <= S_PKT_MAX_SZ →
  ∃ p g', s_packet_start_write junk g fn fs = (Some p, g') ∧ pool_wf g' ∧ carries p fn fs ∧
    pk_pos p = pk_size p ∧ pk_ref_count p = 1.
Proof.
  intros Hg Hok Hsz. unfold s_packet_start_write. rewrite fields_size.
  destruct (easy_write_spec junk g fn (Z.of_nat (length (enc_fields fs))) fs)
    as (p & g' & tl & -> & Hg' & (Hw & Hs & Hh & Hf & Hpl) & _ & _ & _ & Hpos & Hr); [done..|lia|].
  eexists _, g'. split; [done|]. split; [done|]. split; [|split; [unfold S_PKT_DATA_POS in *; lia|done]].
  split_and!; try done. rewrite Hpl. apply (f_equal length) in Hpl. revert Hpl. unfold pk_payload.
  rewrite length_drop, length_take, Hs, length_app. destruct Hw as (? & ? & ? & _). unfold S_PKT_HEAD_SIZE in *.
  intros Hpl. destruct tl as [|x tl]; [by rewrite app_nil_r|]. cbn [length] in Hpl. lia.
Qed.

(** ** The receiver's copy *)
Lemma create_from_spec junk g p fn tl :
  pool_wf g → pk_wf p → S_PKT_HEAD_SIZE <= pk_size p <= S_PKT_HEAD_SIZE + S_PKT_MAX_SZ →
  take 4 (pk_data p) = [byte_of (pk_size p) 0; byte_of (pk_size p) 1; byte_of (pk_size p) 2; byte_of (pk_size p) 3] →
  slice 4 4 (pk_data p) = [byte_of fn 0; byte_of fn 1; byte_of fn 2; byte_of fn 3] →
  let bytes := take (Z.to_nat (pk_size p)) (pk_data p) in
  ∃ q g', s_packet_create_from junk g (bytes ++ tl) (Z.of_nat (length (bytes ++ tl))) = CF_packet q g' ∧
    pool_wf g' ∧ pk_wf q ∧ pk_pos q = S_PKT_DATA_POS ∧ pk_size q = pk_size p ∧
    pk_rest q = pk_payload p ∧ s_packet_get_fun q = uint fn.
Proof.
  intros Hg (Hw1 & Hw2 & Hw3 & Hw4) Hsz Hh Hf bytes. unfold S_PKT_HEAD_SIZE in *.
  assert (Z.of_nat (length bytes) = pk_size p) as Hlb by (unfold bytes; rewrite length_take; lia).
  assert (take 4 bytes = take 4 (pk_data p)) as Ht4 by (unfold bytes; rewrite take_take; f_equal; lia).
  assert (bytes = take 4 bytes ++ drop 4 bytes) as Hsplit by by rewrite take_drop.
  rewrite Ht4, Hh in Hsplit.
  destruct (s_packet_create_spec junk g (pk_size p - 12))
    as (q & g' & E2 & Hg' & (Hb1 & Hb2 & Hb3) & (Hv1 & Hv2 & Hv3 & _) & Hqs & Hqp & _ & _);
    [done|unfold S_PKT_MAX_SZ in *; lia|].
  unfold S_PKT_HEAD_SIZE in *. replace (12 + (pk_size p - 12)) with (pk_size p) in Hqs by lia.
  set (q1 := with_size (with_data q (splice 0 (slice 0 (pk_size p) (bytes ++ tl)) (pk_data q))) (pk_size p)).
  assert (slice 0 (pk_size p) (bytes ++ tl) = bytes) as Hsl.
  { unfold slice. change (Z.to_nat 0) with 0%nat. rewrite drop_0, <-Hlb, Nat2Z.id. apply take_app_length. }
  assert (take (length bytes) (pk_data q1) = bytes) as Hq1.
  { unfold q1. pkc. rewrite Hsl. unfold splice. change (Z.to_nat 0) with 0%nat. rewrite take_0.
    cbn [app]. apply take_app_length. }
  exists q1, g'. split_and!; try done.
  - unfold s_packet_create_from. rewrite length_app, Nat2Z.inj_add.
    rewrite (proj2 (Z.ltb_ge _ _)) by lia.
    assert (le4 (byte_at (bytes ++ tl) 0) (byte_at (bytes ++ tl) 1) (byte_at (bytes ++ tl) 2)
      (byte_at (bytes ++ tl) 3) = le4 (byte_of (pk_size p) 0) (byte_of (pk_size p) 1)
      (byte_of (pk_size p) 2) (byte_of (pk_size p) 3)) as -> by (rewrite Hsplit; reflexivity).
    rewrite le4_byte_of, sint_uint, sint_small
      by (unfold is_int, S_PKT_MAX_SZ, S_PKT_MAX_SZ_BITS in *; change (Z.shiftl 1 22) with 4194304 in *; lia).
    rewrite (proj2 (Z.leb_gt _ _)), (proj2 (Z.ltb_ge _ _)) by lia. change S_PKT_HEAD_SIZE with 12. by rewrite E2.
  - unfold pk_wf, q1. pkc. rewrite Hsl, length_splice by lia. unfold S_PKT_HEAD_SIZE, S_PKT_DATA_POS in *.
    split_and!; try lia; try done. apply Forall_splice; [by apply Forall_take|done].
  - unfold pk_rest, pk_payload. fold bytes. change (pk_size q1) with (pk_size p). change (pk_pos q1) with (pk_pos q).
    rewrite <-Hlb, Nat2Z.id, Hq1, Hqp. done.
  - apply get_fun_slice; [change (pk_size q1) with (pk_size p); unfold S_PKT_HEAD_SIZE; lia|].
    rewrite <-Hf. change (take (8 - 4) (drop 4 (pk_data q1)) = take (8 - 4) (drop 4 (pk_data p))).
    rewrite <-!skipn_firstn_comm. f_equal.
    transitivity (take 8 (take (length bytes) (pk_data q1))); [rewrite take_take; f_equal; lia|].
    rewrite Hq1. unfold bytes. rewrite take_take. f_equal. lia.
Qed.
End facts.

(** ** From the writer to the reader *)

(** C35. The wire format round-trips: what [s_packet_start_write] builds from a
    list of fields, copied out of a receive buffer that goes on with other
    bytes, is a packet with the same function number from which the readers
    give the same fields, in order, and then the end of the packet.  This
    holds for any two pools and any contents of fresh memory. *)
Theorem wire_roundtrip junk1 junk2 g1 g2 fn fs tl :
  pool_wf g1 → pool_wf g2 → is_uint fn → Forall field_ok fs →
  Z.of_nat (length (enc_fields fs)) <= S_PKT_MAX_SZ →
  ∃ p g1' q g2' q', s_packet_start_write junk1 g1 fn fs = (Some p, g1') ∧
    let bytes := take (Z.to_nat (pk_size p)) (pk_data p) in
    s_packet_create_from junk2 g2 (bytes ++ tl) (Z.of_nat (length (bytes ++ tl))) = CF_packet q g2' ∧
    pool_wf g1' ∧ pool_wf g2' ∧ s_packet_get_fun q = fn ∧
    read_fields (map field_kind fs) q = (Some fs, q') ∧ s_packet_eof q' = true.
Proof.
  intros Hg1 Hg2 Hfn Hfs Hsz.
  destruct (start_write_spec junk1 g1 fn fs Hg1 Hfs Hsz) as (p & g1' & E1 & Hg1' & (Hw & Hps & Hh & Hf & Hpl) & _ & _).
  destruct (create_from_spec junk2 g2 p fn tl Hg2 Hw) as (q & g2' & E2 & Hg2' & Hwq & _ & Hqs & Hr & Hfq); [lia|done..|].
  destruct (read_fields_enc fs q [] Hwq Hfs) as (q2 & E3 & Hwq2 & Hr2); [by rewrite Hr, Hpl, app_nil_r|].
  exists p, g1', q, g2', q2. split; [done|]. cbn zeta. split_and!; try done; [by rewrite Hfq, uint_small|].
  pose proof (length_pk_rest q2 Hwq2) as Hl2. rewrite Hr2 in Hl2. unfold s_packet_eof.
  apply Z.leb_le. simpl in Hl2. lia.
Qed.

Lemma wire_roundtrip_witness :
  ∃ p g1' q g2' q', s_packet_start_write 255 g_free_init 7 [Fint (-3); Fstring [104; 105]; Fushort 9] = (Some p, g1') ∧
    let bytes := take (Z.to_nat (pk_size p)) (pk_data p) in
    s_packet_create_from 1 g_free_init (bytes ++ [0; 1]) (Z.of_nat (length (bytes ++ [0; 1]))) = CF_packet q g2' ∧
    pool_wf g1' ∧ pool_wf g2' ∧ s_packet_get_fun q = 7 ∧
    read_fields (map field_kind [Fint (-3); Fstring [104; 105]; Fushort 9]) q =
      (Some [Fint (-3); Fstring [104; 105]; Fushort 9], q') ∧ s_packet_eof q' = true.
Proof.
  apply wire_roundtrip; [apply g_free_init_wf|apply g_free_init_wf|unfold is_uint; lia| |discriminate].
  apply Forall_cons. split; [unfold field_ok, is_int; lia|].
  apply Forall_cons. split; [|apply Forall_cons; split; [unfold field_ok, is_ushort; lia|by apply Forall_nil]].
  split; [|reflexivity]. apply Forall_cons. split; [unfold is_byte; lia|].
  apply Forall_cons. split; [unfold is_byte; lia|]. by apply Forall_nil.
Defined.
