(* ===== verification/SQueue.v ===== *)
(** * [common/s_queue.c]: the growing circular queue

    [q_mem] is the array of [q_total] cells behind [p]; an element is one cell
    ([elem_size] bytes in C).  [s_queue_push] returns the cell that the caller
    then fills ([q_write]).  The class [Fifo] at the end is what a client of
    the queue relies on; [s_queue] is proved to implement it. *)

From S2P Require Import Prelude.
Local Open Scope Z_scope.

Record s_queue (A : Type) := Queue {
  q_total : Z;
  q_first : Z;
  q_last : Z;
  q_mem : list A
}.
Arguments Queue {A}. Arguments q_total {A}. Arguments q_first {A}.
Arguments q_last {A}. Arguments q_mem {A}.

Section ops.
(** the inhabitant stands for the contents of fresh memory *)
Context {A : Type} `{!Inhabited A}.
Implicit Types q : s_queue A.

Definition fresh_cells (n : Z) : list A := replicate (Z.to_nat n) inhabitant.
Definition cell (mem : list A) (i : Z) : A := mem !!! Z.to_nat i.

Definition s_queue_create (elem_num : Z) : s_queue A :=
  let elem_num := s_max elem_num 16 in
  Queue elem_num 0 0 (fresh_cells elem_num).

Definition s_queue_empty q : bool := q_last q =? q_first q.

(** [while(q->first != q->last) { memcpy(dst, src, ..); ... }]: as many steps
    as the queue has cells are enough *)
Fixpoint q_copy (fuel : nat) (total first last : Z) (mem dst : list A) (i : Z) : list A * Z :=
  match fuel with
  | O => (dst, i)
  | S fuel =>
      if first =? last then (dst, i)
      else q_copy fuel total (Z.rem (first + 1) total) last mem
             (<[Z.to_nat i := cell mem first]> dst) (i + 1)
  end.

Definition q_grow q : s_queue A :=
  let sz := q_total q * 2 in
  let '(p, i) := q_copy (Z.to_nat (q_total q)) (q_total q) (q_first q) (q_last q) (q_mem q)
                   (fresh_cells sz) 0 in
  Queue sz 0 i p.

(** the index of the cell returned, and the queue *)
Definition s_queue_push q : Z * s_queue A :=
  let q := if Z.rem (q_last q + 1) (q_total q) =? q_first q then q_grow q else q in
  (q_last q, Queue (q_total q) (q_first q) (Z.rem (q_last q + 1) (q_total q)) (q_mem q)).

(** the caller's assignment through the pointer [s_queue_push] (or
    [s_queue_peek]) gave it *)
Definition q_write q (i : Z) (a : A) : s_queue A :=
  Queue (q_total q) (q_first q) (q_last q) (<[Z.to_nat i := a]> (q_mem q)).

Definition s_queue_peek q : option Z := if s_queue_empty q then None else Some (q_first q).

Definition s_queue_pop q : option Z * s_queue A :=
  if s_queue_empty q then (None, q)
  else (s_queue_peek q,
        Queue (q_total q) (Z.rem (q_first q + 1) (q_total q)) (q_last q) (q_mem q)).

Definition s_queue_clear q : s_queue A := Queue (q_total q) 0 0 (q_mem q).

(** ** Invariant and contents *)
Definition q_wf q : Prop :=
  0 <= q_first q < q_total q ∧ 0 <= q_last q < q_total q ∧ 16 <= q_total q ∧
  Z.of_nat (length (q_mem q)) = q_total q.

Definition q_len q : Z :=
  if q_first q <=? q_last q then q_last q - q_first q else q_last q - q_first q + q_total q.
Definition q_idx q (k : Z) : Z :=
  if q_first q + k <? q_total q then q_first q + k else q_first q + k - q_total q.
Definition q_contents q : list A :=
  map (λ k, cell (q_mem q) (q_idx q (Z.of_nat k))) (seq 0 (Z.to_nat (q_len q))).

Lemma rem_succ i n : 0 <= i < n → Z.rem (i + 1) n = if i + 1 <? n then i + 1 else 0.
Proof.
  intros Hi. rewrite Z.rem_mod_nonneg by lia. destruct (i + 1 <? n) eqn:E; zbool.
  - apply Z.mod_small. lia.
  - replace (i + 1) with n by lia. apply Z.mod_same. lia.
Qed.

Ltac q_simpl :=
  unfold q_wf, q_len, q_idx in *; cbn [q_total q_first q_last q_mem] in *;
  rewrite ?rem_succ in * by lia.
Ltac q_cases := repeat (case_match; zbool); try lia.

Lemma s_queue_create_spec n : q_wf (s_queue_create n) ∧ q_contents (s_queue_create n) = [].
Proof.
  unfold s_queue_create. rewrite s_max_spec. split; [|done]. q_simpl.
  unfold fresh_cells. rewrite length_replicate. lia.
Qed.

Lemma q_len_range q : q_wf q → 0 <= q_len q < q_total q.
Proof. intros. q_simpl. q_cases. Qed.

Lemma length_q_contents q : length (q_contents q) = Z.to_nat (q_len q).
Proof. unfold q_contents. by rewrite length_map, length_seq. Qed.

Lemma q_contents_lookup q (k : nat) :
  (Z.of_nat k < q_len q) → q_contents q !! k = Some (cell (q_mem q) (q_idx q (Z.of_nat k))).
Proof.
  intros Hk. unfold q_contents. rewrite (list_lookup_fmap _ (seq 0 _)), lookup_seq_lt by lia. done.
Qed.

(** two queues with the same length and the same cells in order *)
Lemma q_contents_ext q (l : list A) :
  length l = Z.to_nat (q_len q) → 
  (∀ k : nat, Z.of_nat k < q_len q → l !! k = Some (cell (q_mem q) (q_idx q (Z.of_nat k)))) →
  q_contents q = l.
Proof.
  intros Hl Hk. apply list_eq_same_length with (n := length l); [done| |].
  { by rewrite length_q_contents. }
  intros k x y Hlt Hx Hy. rewrite q_contents_lookup in Hx by lia. rewrite Hk in Hy by lia. congruence.
Qed.

Lemma cell_insert_eq (mem : list A) i a :
  0 <= i < Z.of_nat (length mem) → cell (<[Z.to_nat i := a]> mem) i = a.
Proof. intros. unfold cell. apply list_lookup_total_insert_eq. lia. Qed.
Lemma cell_insert_ne (mem : list A) i j a :
  0 <= i → 0 <= j → i ≠ j → cell (<[Z.to_nat i := a]> mem) j = cell mem j.
Proof. intros. unfold cell. apply list_lookup_total_insert_ne. lia. Qed.

(** ** Growing: the loop moves the [q_len] elements to the front *)
Lemma q_copy_spec fuel total first last mem dst i :
  let q := Queue total first last mem in
  q_wf q → Z.of_nat fuel >= q_len q + 1 → 0 <= i →
  i + q_len q <= Z.of_nat (length dst) →
  let r := q_copy fuel total first last mem dst i in
  r.2 = i + q_len q ∧ length r.1 = length dst ∧
  (∀ j, 0 <= j < i → cell r.1 j = cell dst j) ∧
  (∀ k, 0 <= k < q_len q → cell r.1 (i + k) = cell mem (q_idx q k)).
Proof.
  revert first dst i. induction fuel as [|fuel IH]; intros first dst i q Hw Hf Hi Hd.
  { pose proof (q_len_range q Hw). lia. }
  cbn [q_copy]. destruct (first =? last) eqn:E; zbool.
  { assert (q_len q = 0) as Hz by (unfold q in *; q_simpl; q_cases). rewrite Hz. cbn [fst snd].
    split_and!; try done; lia. }
  assert (cell mem first = cell mem (q_idx q 0)) as Hc0
    by (f_equal; unfold q in *; q_simpl; q_cases).
  destruct (IH (Z.rem (first + 1) total) (<[Z.to_nat i:=cell mem first]> dst) (i + 1))
    as (H1 & H2 & H3 & H4).
  { unfold q in *; q_simpl; q_cases. }
  { unfold q in *; q_simpl; q_cases. }
  { lia. }
  { rewrite length_insert. unfold q in *; q_simpl; q_cases. }
  set (q' := Queue total (Z.rem (first + 1) total) last mem) in *.
  assert (q_len q' = q_len q - 1) as Hl by (unfold q, q' in *; q_simpl; q_cases).
  rewrite length_insert in H2. rewrite Hl in *.
  split_and!; [lia|done| |].
  - intros j Hj. rewrite H3 by lia. apply cell_insert_ne; lia.
  - intros k Hk. destruct (decide (k = 0)) as [->|].
    + rewrite Z.add_0_r, H3 by lia. rewrite cell_insert_eq; [done|lia].
    + replace (i + k) with (i + 1 + (k - 1)) by lia. rewrite H4 by lia. f_equal.
      unfold q, q' in *; q_simpl; q_cases.
Qed.

Lemma q_grow_spec q :
  q_wf q → q_wf (q_grow q) ∧ q_contents (q_grow q) = q_contents q ∧
  q_len (q_grow q) = q_len q ∧ q_total (q_grow q) = q_total q * 2.
Proof.
  intros Hw. pose proof (q_len_range q Hw) as Hlen.
  destruct (q_copy_spec (Z.to_nat (q_total q)) (q_total q) (q_first q) (q_last q) (q_mem q)
    (fresh_cells (q_total q * 2)) 0) as (H1 & H2 & _ & H4).
  { by destruct q. } { destruct q; q_simpl; lia. } { lia. }
  { unfold fresh_cells. rewrite length_replicate. destruct q; q_simpl; lia. }
  replace (Queue (q_total q) (q_first q) (q_last q) (q_mem q)) with q in * by (by destruct q).
  unfold q_grow. destruct (q_copy _ _ _ _ _ _ _) as [p i]. cbn [fst snd] in *.
  unfold fresh_cells in H2. rewrite length_replicate in H2. rewrite Z.add_0_l in H1. subst i.
  set (q' := Queue (q_total q * 2) 0 (q_len q) p).
  assert (q_len q' = q_len q) as Hl.
  { unfold q_len at 1. cbn. rewrite (proj2 (Z.leb_le _ _)); lia. }
  split_and!; try done.
  - unfold q_wf. cbn. destruct Hw as (? & ? & ? & ?). split_and!; lia.
  - apply q_contents_ext; [by rewrite length_q_contents, Hl|]. intros k Hk. rewrite Hl in Hk.
    rewrite q_contents_lookup by done. f_equal. rewrite <-H4 by lia. f_equal.
    unfold q_idx. cbn. rewrite (proj2 (Z.ltb_lt _ _)); destruct Hw as (? & ? & ? & ?); lia.
Qed.

Lemma push_room q a :
  q_wf q → q_len q + 1 < q_total q →
  let q' := Queue (q_total q) (q_first q) (Z.rem (q_last q + 1) (q_total q))
              (<[Z.to_nat (q_last q) := a]> (q_mem q)) in
  q_wf q' ∧ q_contents q' = q_contents q ++ [a].
Proof.
  intros Hw Hroom q'. assert (q_len q' = q_len q + 1) as Hl by (unfold q'; q_simpl; q_cases).
  assert (q_wf q') as Hw'. { unfold q'; q_simpl. rewrite length_insert. q_cases. }
  split; [done|]. pose proof (q_len_range q Hw). apply q_contents_ext.
  { rewrite length_app, length_q_contents, Hl. simpl. lia. }
  intros k Hk. rewrite Hl in Hk. destruct (decide (Z.of_nat k = q_len q)) as [Hk'|Hk'].
  - rewrite lookup_app_r by (rewrite length_q_contents; lia).
    rewrite length_q_contents. replace (k - Z.to_nat (q_len q))%nat with 0%nat by lia. cbn.
    f_equal. replace (q_idx q' (Z.of_nat k)) with (q_last q).
    + rewrite cell_insert_eq; [done|]. q_simpl. lia.
    + unfold q'; q_simpl; q_cases.
  - rewrite lookup_app_l by (rewrite length_q_contents; lia).
    rewrite q_contents_lookup by lia. f_equal. unfold q' at 1. cbn.
    rewrite cell_insert_ne; [done|q_simpl; lia|unfold q'; q_simpl; q_cases|].
    unfold q'; q_simpl; q_cases.
Qed.

Lemma s_queue_push_spec q a :
  q_wf q →
  let '(i, q') := s_queue_push q in
  q_wf (q_write q' i a) ∧ q_contents (q_write q' i a) = q_contents q ++ [a].
Proof.
  intros Hw. unfold s_queue_push, q_write. cbn. pose proof (q_len_range q Hw) as Hlen.
  destruct (_ =? _) eqn:E.
  - destruct (q_grow_spec q Hw) as (Hw' & <- & Hl & Ht).
    apply push_room; [done|]. lia.
  - apply push_room; [done|]. zbool. q_simpl. q_cases.
Qed.

Lemma s_queue_empty_spec q : q_wf q → s_queue_empty q = bool_decide (q_contents q = []).
Proof.
  intros Hw. unfold s_queue_empty. pose proof (q_len_range q Hw).
  assert (q_contents q = [] ↔ q_len q = 0) as Hi.
  { rewrite <-length_zero_iff_nil, length_q_contents. lia. }
  destruct (_ =? _) eqn:E; zbool; symmetry.
  - apply bool_decide_eq_true_2, Hi. q_simpl; q_cases.
  - apply bool_decide_eq_false_2. rewrite Hi. q_simpl; q_cases.
Qed.

Lemma s_queue_peek_spec q :
  q_wf q →
  match q_contents q with
  | [] => s_queue_peek q = None
  | a :: _ => s_queue_peek q = Some (q_first q) ∧ cell (q_mem q) (q_first q) = a
  end.
Proof.
  intros Hw. pose proof (s_queue_empty_spec q Hw) as He. unfold s_queue_peek.
  destruct (q_contents q) as [|a l] eqn:Hc.
  - rewrite He. by rewrite bool_decide_eq_true_2.
  - rewrite He, bool_decide_eq_false_2 by done. split; [done|].
    pose proof (length_q_contents q) as Hl. rewrite Hc in Hl. cbn in Hl.
    pose proof (q_contents_lookup q 0) as H0. rewrite Hc in H0.
    specialize (H0 ltac:(lia)). cbn in H0. injection H0 as ->. f_equal. q_simpl; q_cases.
Qed.

Lemma s_queue_pop_spec q :
  q_wf q →
  let '(r, q') := s_queue_pop q in
  q_wf q' ∧ r = s_queue_peek q ∧ q_contents q' = tail (q_contents q).
Proof.
  intros Hw. unfold s_queue_pop. pose proof (s_queue_empty_spec q Hw) as He.
  destruct (s_queue_empty q) eqn:E.
  - symmetry in He. apply bool_decide_eq_true_1 in He. rewrite He.
    split_and!; try done. unfold s_queue_peek. by rewrite E.
  - set (q' := Queue _ _ _ _). unfold s_queue_empty in E.
    assert (q_len q' = q_len q - 1) as Hl by (unfold q'; zbool; q_simpl; q_cases).
    pose proof (q_len_range q Hw) as Hr.
    split_and!; [unfold q'; q_simpl; q_cases|done|]. apply q_contents_ext.
    + rewrite length_tl, length_q_contents, Hl. lia.
    + intros k Hk. rewrite lookup_tail, q_contents_lookup by lia. f_equal. f_equal.
      unfold q'; zbool; q_simpl; q_cases.
Qed.

Lemma s_queue_clear_spec q : q_wf q → q_wf (s_queue_clear q) ∧ q_contents (s_queue_clear q) = [].
Proof. intros (? & ? & ? & ?). split; [|done]. unfold q_wf, s_queue_clear. cbn. lia. Qed.

(** writing the front cell through the pointer of [s_queue_peek] *)
Lemma q_write_first q a l b :
  q_wf q → q_contents q = a :: l →
  q_wf (q_write q (q_first q) b) ∧ q_contents (q_write q (q_first q) b) = b :: l.
Proof.
  intros Hw Hc. assert (q_len (q_write q (q_first q) b) = q_len q) as Hl by done.
  split; [unfold q_write; q_simpl; rewrite length_insert; lia|].
  pose proof (length_q_contents q) as Hn. rewrite Hc in Hn. cbn in Hn.
  apply q_contents_ext; [cbn; lia|]. rewrite Hl. intros [|k] Hk; cbn.
  - f_equal. replace (q_idx _ 0) with (q_first q) by (unfold q_write; q_simpl; q_cases).
    rewrite cell_insert_eq; [done|]. q_simpl; lia.
  - pose proof (q_contents_lookup q (S k) ltac:(lia)) as Hs. rewrite Hc in Hs. cbn [lookup list_lookup] in Hs.
    rewrite Hs. f_equal. cbn [q_write q_mem]. rewrite cell_insert_ne; [done|q_simpl; lia| |].
    + unfold q_write; q_simpl; q_cases.
    + unfold q_write; q_simpl; q_cases.
Qed.
End ops.

(** ** The interface a client uses
    Push fills the new cell, peek reads the front cell, [fifo_set_front]
    writes it in place (the client keeps a pointer into the queue). *)
Class Fifo (A Q : Type) := {
  fifo_wf : Q → Prop;
  fifo_list : Q → list A;
  fifo_new : Z → Q;
  fifo_push : Q → A → Q;
  fifo_peek : Q → option A;
  fifo_pop : Q → Q;
  fifo_set_front : Q → A → Q;
  fifo_clear : Q → Q
}.

Class FifoLaws (A Q : Type) `{!Fifo A Q} := {
  fifo_new_ok n : fifo_wf (fifo_new n) ∧ fifo_list (fifo_new n) = [];
  fifo_push_ok (q : Q) a :
    fifo_wf q → fifo_wf (fifo_push q a) ∧ fifo_list (fifo_push q a) = fifo_list q ++ [a];
  fifo_peek_ok (q : Q) : fifo_wf q → fifo_peek q = head (fifo_list q);
  fifo_pop_ok (q : Q) :
    fifo_wf q → fifo_wf (fifo_pop q) ∧ fifo_list (fifo_pop q) = tail (fifo_list q);
  fifo_set_front_ok (q : Q) a b l :
    fifo_wf q → fifo_list q = a :: l →
    fifo_wf (fifo_set_front q b) ∧ fifo_list (fifo_set_front q b) = b :: l;
  fifo_clear_ok (q : Q) : fifo_wf q → fifo_wf (fifo_clear q) ∧ fifo_list (fifo_clear q) = []
}.

#[export] Instance s_queue_fifo {A} `{!Inhabited A} : Fifo A (s_queue A) := {
  fifo_wf := q_wf;
  fifo_list := q_contents;
  fifo_new := s_queue_create;
  fifo_push q a := let '(i, q') := s_queue_push q in q_write q' i a;
  fifo_peek q := (λ i, cell (q_mem q) i) <$> s_queue_peek q;
  fifo_pop q := (s_queue_pop q).2;
  fifo_set_front q a := match s_queue_peek q with Some i => q_write q i a | None => q end;
  fifo_clear := s_queue_clear
}.

#[export] Instance s_queue_fifo_laws {A} `{!Inhabited A} : FifoLaws A (s_queue A).
Proof.
  split; cbn.
  - apply s_queue_create_spec.
  - intros q a Hw. by apply s_queue_push_spec.
  - intros q Hw. pose proof (s_queue_peek_spec q Hw) as H.
    destruct (q_contents q); [by rewrite H|]. destruct H as [-> <-]. done.
  - intros q Hw. pose proof (s_queue_pop_spec q Hw) as H.
    destruct (s_queue_pop q). destruct H as (? & _ & ?). by split.
  - intros q a b l Hw Hc. pose proof (s_queue_peek_spec q Hw) as H. rewrite Hc in H.
    destruct H as [-> _]. by apply (q_write_first q a l b).
  - apply s_queue_clear_spec.
Qed.

(** ** Sequences of operations *)
Section operations.
Context {A : Type} `{!Inhabited A}.

Inductive q_op := QPush (a : A) | QPop | QClear.

(** a pop hands out the element that was in front *)
Definition run_q_op (q : s_queue A) (o : q_op) : option A * s_queue A :=
  match o with
  | QPush a => (None, fifo_push q a)
  | QPop => (fifo_peek q, fifo_pop q)
  | QClear => (None, fifo_clear q)
  end.

Definition spec_q_op (l : list A) (o : q_op) : option A * list A :=
  match o with
  | QPush a => (None, l ++ [a])
  | QPop => (head l, tail l)
  | QClear => (None, [])
  end.

Fixpoint run_ops {S} (step : S → q_op → option A * S) (s : S) (ops : list q_op) : list A * S :=
  match ops with
  | [] => ([], s)
  | o :: ops =>
      let '(r, s) := step s o in
      let '(rs, s) := run_ops step s ops in
      (match r with Some a => a :: rs | None => rs end, s)
  end.

(** The circular queue is first-in first-out: over any sequence of pushes,
    pops and clears, through any number of wrap-arounds and growths, what the
    pops hand out is what they hand out on a list with an end and a front. *)
Theorem q_ops_refine n (ops : list q_op) :
  (run_ops run_q_op (s_queue_create n) ops).1 = (run_ops spec_q_op [] ops).1 ∧
  q_wf (run_ops run_q_op (s_queue_create n) ops).2 ∧
  q_contents (run_ops run_q_op (s_queue_create n) ops).2 = (run_ops spec_q_op [] ops).2.
Proof.
  destruct (s_queue_create_spec (A := A) n) as [Hw El].
  revert Hw El. generalize (s_queue_create (A := A) n) as q, (@nil A) as l.
  induction ops as [|o ops IH]; intros q l Hw El; cbn [run_ops]; [by split|].
  assert ((run_q_op q o).1 = (spec_q_op l o).1 ∧ q_wf (run_q_op q o).2 ∧
    q_contents (run_q_op q o).2 = (spec_q_op l o).2) as (E1 & Hw' & El').
  { subst l. destruct o as [a| |]; cbn [run_q_op spec_q_op fst snd].
    - split; [done|]. exact (fifo_push_ok (Q := s_queue A) q a Hw).
    - split; [exact (fifo_peek_ok (Q := s_queue A) q Hw)|]. exact (fifo_pop_ok (Q := s_queue A) q Hw).
    - split; [done|]. exact (fifo_clear_ok (Q := s_queue A) q Hw). }
  destruct (run_q_op q o) as [r q'], (spec_q_op l o) as [r' l']. cbn [fst snd] in *. subst r'.
  destruct (IH q' l' Hw' El') as (E2 & Hw2 & El2).
  destruct (run_ops run_q_op q' ops) as [rs q2], (run_ops spec_q_op l' ops) as [rs' l2].
  cbn [fst snd] in *. subst rs'. done.
Qed.
End operations.
