(* ===== verification/SArray.v ===== *)
(** * [common/s_array.c]: the growing, reference-counted array

    [ar_mem] is the block behind [p], [ar_total] cells of [elem_size] bytes.
    A function that returns a pointer into the block returns the index of the
    cell; [arr_set] is the caller's assignment through it. *)

From S2P Require Import Prelude.
Local Open Scope Z_scope.

Record s_array (A : Type) := Array {
  ar_ref_count : Z;
  ar_nelem : Z;
  ar_total : Z;
  ar_mem : list A
}.
Arguments Array {A}. Arguments ar_ref_count {A}. Arguments ar_nelem {A}.
Arguments ar_total {A}. Arguments ar_mem {A}.

Section ops.
Context {A : Type} `{!Inhabited A}.
Implicit Types a : s_array A.

Definition s_array_create (elem_num : Z) : s_array A :=
  let elem_num := s_max elem_num 16 in
  Array 1 0 elem_num (replicate (Z.to_nat elem_num) inhabitant).

Definition s_array_len a : Z := ar_nelem a.

(** a new block, the first [nelem] cells copied *)
Definition expand a (sz : Z) : s_array A :=
  if sz <=? ar_total a then a
  else
    let p := replicate (Z.to_nat sz) inhabitant in
    let p := splice 0 (take (Z.to_nat (ar_nelem a)) (ar_mem a)) p in
    Array (ar_ref_count a) (ar_nelem a) sz p.

Definition s_array_push a : Z * s_array A :=
  let a := if ar_total a <=? ar_nelem a then expand a (ar_total a * 2) else a in
  let a := Array (ar_ref_count a) (ar_nelem a + 1) (ar_total a) (ar_mem a) in
  (ar_nelem a - 1, a).

Definition s_array_at a (index : Z) : option Z :=
  if (index <? 0) || (ar_nelem a <=? index) then None else Some index.

Definition arr_set a (i : Z) (x : A) : s_array A :=
  Array (ar_ref_count a) (ar_nelem a) (ar_total a) (<[Z.to_nat i := x]> (ar_mem a)).
Definition arr_get a (i : Z) : A := ar_mem a !!! Z.to_nat i.

(** [for(i = index; i < nelem - 1; ++i) memcpy(&p[i], &p[i+1], elem_size)] *)
Fixpoint rm_loop (n : nat) (i : nat) (mem : list A) : list A :=
  match n with
  | O => mem
  | S n => rm_loop n (S i) (<[i := mem !!! S i]> mem)
  end.

Definition s_array_rm a (index : Z) : s_array A :=
  if (index <? 0) || (ar_nelem a <=? index) then a
  else
    Array (ar_ref_count a) (ar_nelem a - 1) (ar_total a)
      (rm_loop (Z.to_nat (ar_nelem a - 1 - index)) (Z.to_nat index) (ar_mem a)).

Definition s_array_grab a : s_array A :=
  Array (ar_ref_count a + 1) (ar_nelem a) (ar_total a) (ar_mem a).

(** [s_array_drop] frees the array, keeps it, or fails its assertion *)
Inductive drop_result := DropFreed | DropKept (a : s_array A) | DropAssert.

Definition s_array_drop a : drop_result :=
  let a := Array (ar_ref_count a - 1) (ar_nelem a) (ar_total a) (ar_mem a) in
  if ar_ref_count a =? 0 then DropFreed
  else if 0 <? ar_ref_count a then DropKept a
  else DropAssert.

(** ** Invariant and contents *)
Definition arr_wf a : Prop :=
  0 <= ar_nelem a <= ar_total a ∧ 16 <= ar_total a ∧ Z.of_nat (length (ar_mem a)) = ar_total a.

Definition arr_list a : list A := take (Z.to_nat (ar_nelem a)) (ar_mem a).

Ltac arr_simpl :=
  unfold arr_wf, arr_list in *; cbn [ar_ref_count ar_nelem ar_total ar_mem] in *.

Lemma length_arr_list a : arr_wf a → Z.of_nat (length (arr_list a)) = s_array_len a.
Proof. intros (? & ? & ?). unfold arr_list, s_array_len. rewrite length_take. lia. Qed.

Lemma s_array_create_spec n : arr_wf (s_array_create n) ∧ arr_list (s_array_create n) = [].
Proof.
  unfold s_array_create. rewrite s_max_spec. arr_simpl. rewrite length_replicate.
  split; [lia|done].
Qed.

Lemma expand_spec a sz :
  arr_wf a → arr_wf (expand a sz) ∧ arr_list (expand a sz) = arr_list a ∧
  ar_nelem (expand a sz) = ar_nelem a ∧ sz <= ar_total (expand a sz).
Proof.
  intros (H1 & H2 & H3). unfold expand. destruct (_ <=? _) eqn:E; zbool; [done|].
  arr_simpl. rewrite length_splice; rewrite ?length_replicate, ?length_take; [|lia|lia].
  split_and!; try lia. unfold splice. simpl. rewrite take_app_le by (rewrite length_take; lia).
  rewrite take_take. f_equal. lia.
Qed.

Lemma s_array_push_spec a x :
  arr_wf a →
  let '(i, a') := s_array_push a in
  i = s_array_len a ∧ s_array_at a' i = Some i ∧
  arr_wf (arr_set a' i x) ∧ arr_list (arr_set a' i x) = arr_list a ++ [x].
Proof.
  intros Hw. unfold s_array_push.
  set (b := if ar_total a <=? ar_nelem a then _ else a).
  assert (arr_wf b ∧ arr_list b = arr_list a ∧ ar_nelem b = ar_nelem a ∧ ar_nelem b < ar_total b)
    as (Hb & Hl & Hn & Ht).
  { unfold b. destruct (_ <=? _) eqn:E; zbool; [|done].
    destruct (expand_spec a (ar_total a * 2) Hw) as (? & ? & ? & ?).
    destruct Hw as (? & ? & ?). split_and!; try done; lia. }
  unfold s_array_len, arr_set, s_array_at. cbn [ar_ref_count ar_nelem ar_total ar_mem].
  rewrite <-Hn, <-Hl. destruct Hb as (H1 & H2 & H3).
  replace (ar_nelem b + 1 - 1) with (ar_nelem b) by lia.
  split; [done|]. split; [destruct (_ || _) eqn:E; [|done]; apply orb_true_iff in E as [?|?]; zsolve|].
  arr_simpl. rewrite length_insert. split; [lia|].
  replace (Z.to_nat (ar_nelem b + 1)) with (S (Z.to_nat (ar_nelem b))) by lia.
  erewrite take_S_r; [|apply list_lookup_insert_eq; lia].
  f_equal. by rewrite take_insert_ge by lia.
Qed.

Lemma s_array_at_spec a i :
  arr_wf a → s_array_at a i = (if decide (0 <= i < s_array_len a) then Some i else None).
Proof.
  intros _. unfold s_array_at, s_array_len. case_decide; destruct (_ || _) eqn:E; try done.
  - apply orb_true_iff in E as [?|?]; zsolve.
  - zbool. lia.
Qed.

Lemma arr_get_spec a i : arr_wf a → 0 <= i < s_array_len a → arr_list a !! Z.to_nat i = Some (arr_get a i).
Proof.
  intros (? & ? & ?) Hi. unfold arr_list, arr_get, s_array_len in *.
  rewrite lookup_take_lt by lia. apply list_lookup_lookup_total_lt. lia.
Qed.

Lemma arr_set_spec a i x :
  arr_wf a → 0 <= i < s_array_len a →
  arr_wf (arr_set a i x) ∧ arr_list (arr_set a i x) = <[Z.to_nat i := x]> (arr_list a).
Proof.
  intros (? & ? & ?) Hi. unfold arr_set, s_array_len in *. arr_simpl. rewrite length_insert.
  split; [lia|]. by rewrite take_insert_lt by lia.
Qed.

(** The shifting loop removes one element. *)
Lemma rm_loop_spec n i mem :
  (i + n < length mem)%nat →
  length (rm_loop n i mem) = length mem ∧
  take (i + n) (rm_loop n i mem) = take i mem ++ take n (drop (S i) mem).
Proof.
  revert i mem. induction n as [|n IH]; intros i mem Hl; simpl.
  - by rewrite Nat.add_0_r, take_0, app_nil_r.
  - destruct (IH (S i) (<[i:=mem !!! S i]> mem)) as [H1 H2]; [rewrite length_insert; lia|].
    rewrite length_insert in H1. split; [done|].
    replace (i + S n)%nat with (S i + n)%nat by lia. rewrite H2.
    rewrite drop_insert_lt by lia.
    erewrite take_S_r; [|apply list_lookup_insert_eq; lia].
    rewrite take_insert_ge by lia. rewrite <-app_assoc. f_equal.
    destruct (lookup_lt_is_Some_2 mem (S i)) as [y Hy]; [lia|].
    rewrite (list_lookup_total_correct _ _ _ Hy). rewrite (drop_S _ _ _ Hy). done.
Qed.

Lemma s_array_rm_spec a i :
  arr_wf a →
  arr_wf (s_array_rm a i) ∧
  arr_list (s_array_rm a i) =
    (if decide (0 <= i < s_array_len a) then delete (Z.to_nat i) (arr_list a) else arr_list a).
Proof.
  intros Hw. unfold s_array_rm. destruct (_ || _) eqn:E.
  { rewrite decide_False; [done|]. unfold s_array_len.
    apply orb_true_iff in E as [?|?]; zbool; lia. }
  zbool. rewrite decide_True by (unfold s_array_len; lia).
  destruct Hw as (H1 & H2 & H3).
  destruct (rm_loop_spec (Z.to_nat (ar_nelem a - 1 - i)) (Z.to_nat i) (ar_mem a)) as [Hl Ht]; [lia|].
  arr_simpl. rewrite Hl. split; [lia|].
  replace (Z.to_nat (ar_nelem a - 1)) with (Z.to_nat i + Z.to_nat (ar_nelem a - 1 - i))%nat by lia.
  rewrite Ht, delete_take_drop, take_take, Nat.min_l by lia. f_equal.
  rewrite skipn_firstn_comm. f_equal. lia.
Qed.
End ops.

(** ** Sequences of operations *)
Section operations.
Context {A : Type} `{!Inhabited A}.

Inductive arr_op := APush (x : A) | ASet (i : Z) (x : A) | ARm (i : Z).

(** [ASet]: what a caller does with the pointer [s_array_at] returns *)
Definition run_arr_op (a : s_array A) (o : arr_op) : s_array A :=
  match o with
  | APush x => let '(i, a) := s_array_push a in arr_set a i x
  | ASet i x => match s_array_at a i with Some i => arr_set a i x | None => a end
  | ARm i => s_array_rm a i
  end.

Definition spec_arr_op (l : list A) (o : arr_op) : list A :=
  match o with
  | APush x => l ++ [x]
  | ASet i x => if decide (0 <= i) then <[Z.to_nat i := x]> l else l
  | ARm i => if decide (0 <= i) then delete (Z.to_nat i) l else l
  end.

Lemma run_arr_op_refines a o :
  arr_wf a → arr_wf (run_arr_op a o) ∧ arr_list (run_arr_op a o) = spec_arr_op (arr_list a) o.
Proof.
  intros Hw. pose proof (length_arr_list a Hw) as Hl. destruct o as [x|i x|i]; cbn [run_arr_op spec_arr_op].
  - pose proof (s_array_push_spec a x Hw) as H. destruct (s_array_push a) as [i a'].
    by destruct H as (_ & _ & ? & ?).
  - rewrite s_array_at_spec by done. case_decide as Hi.
    + rewrite decide_True by lia. by apply arr_set_spec.
    + case_decide; [|done]. by rewrite list_insert_ge by lia.
  - destruct (s_array_rm_spec a i Hw) as [Hw' ->]. split; [done|].
    destruct (decide (0 <= i)) as [Hi|Hi]; [|rewrite decide_False by lia; done].
    case_decide; [done|]. rewrite delete_take_drop, take_ge, drop_ge by lia.
    by rewrite app_nil_r.
Qed.

(** Any sequence of pushes, assignments and removals on a new array,
    with indices in range or not, across all growths of its block, leaves the
    elements the same operations leave in a list; [s_array_len] is its length
    and [s_array_at] accepts exactly its indices. *)
Theorem arr_ops_refine n (ops : list arr_op) i :
  let a := foldl run_arr_op (s_array_create n) ops in
  let l := foldl spec_arr_op [] ops in
  arr_wf a ∧ arr_list a = l ∧ s_array_len a = Z.of_nat (length l) ∧
  (arr_get a <$> s_array_at a i) = if decide (0 <= i) then l !! Z.to_nat i else None.
Proof.
  cbn zeta. assert (∀ a l, arr_wf a → arr_list a = l →
    arr_wf (foldl run_arr_op a ops) ∧ arr_list (foldl run_arr_op a ops) = foldl spec_arr_op l ops) as H.
  { induction ops as [|o ops IH]; intros a l Hw <-; cbn [foldl]; [done|].
    destruct (run_arr_op_refines a o Hw). by apply IH. }
  destruct (s_array_create_spec (A := A) n) as [Hw0 El0].
  destruct (H _ _ Hw0 El0) as [Hw El]. pose proof (length_arr_list _ Hw) as Hl.
  rewrite <-El. split_and!; [done|done|done|]. rewrite s_array_at_spec by done.
  case_decide as Hi; [rewrite decide_True by lia; symmetry; by apply arr_get_spec|].
  case_decide; [|done]. symmetry. apply lookup_ge_None_2. lia.
Qed.
End operations.
