(* ===== verification/SString.v ===== *)
(** * [common/s_string.c], [common/s_num_str.c]: counted strings

    A C string is the list of its bytes up to (not including) the
    terminating 0.  The string object [s_string] keeps the bytes with the 0
    that [s_string_create_len] appends.  [c_isspace] and [c_atoi] are the
    standard library's functions in the C locale. *)

From S2P Require Import Prelude.
Local Open Scope Z_scope.

(** ** The standard library functions the program calls *)

Definition c_isspace (c : Z) : bool := (c =? 32) || ((9 <=? c) && (c <=? 13)).
Definition c_isdigit (c : Z) : bool := (48 <=? c) && (c <=? 57).

Fixpoint c_digits (l : list Z) (acc : Z) : Z :=
  match l with
  | c :: l => if c_isdigit c then c_digits l (acc * 10 + (c - 48)) else acc
  | [] => acc
  end.

Fixpoint c_skip_space (l : list Z) : list Z :=
  match l with
  | c :: l' => if c_isspace c then c_skip_space l' else l
  | [] => []
  end.

(** [atoi]; the value of an out-of-range number is undefined in C and wraps
    here *)
Definition c_atoi (l : list Z) : Z :=
  match c_skip_space l with
  | 45 :: l => sint (- c_digits l 0)
  | 43 :: l => sint (c_digits l 0)
  | l => sint (c_digits l 0)
  end.

(** [strncmp(a, b, n) == 0]; past its end a string reads as its 0 *)
Fixpoint c_strncmp_eq (n : nat) (a b : list Z) : bool :=
  match n with
  | O => true
  | S n =>
      let x := default 0 (a !! 0%nat) in
      let y := default 0 (b !! 0%nat) in
      if negb (x =? y) then false
      else if x =? 0 then true
      else c_strncmp_eq n (tail a) (tail b)
  end.

(** ** [s_int_to_string] *)

Definition S_NUM_BUF_SZ : Z := 64.

(** [while(i > 0 && pos >= 0)]: fills the static buffer from its end; [acc]
    is what the buffer holds from [pos + 1] on *)
Fixpoint num_loop (fuel : nat) (i pos : Z) (acc : list Z) : Z * Z * list Z :=
  match fuel with
  | O => (i, pos, acc)
  | S fuel =>
      if (0 <? i) && (0 <=? pos) then
        num_loop fuel (Z.quot i 10) (pos - 1) ((Z.rem i 10 + 48) :: acc)
      else (i, pos, acc)
  end.

(** [None]: the C function returns [NULL] *)
Definition s_int_to_string (i : Z) : option (list Z) :=
  let pos := S_NUM_BUF_SZ - 2 in
  if i =? 0 then Some [48]
  else
    let sign := i <? 0 in
    let i := if sign then sint (i * -1) else i in
    let '(i, pos, acc) := num_loop (Z.to_nat S_NUM_BUF_SZ) i pos [] in
    if 0 <? i then None
    else if sign && (0 <=? pos) then Some (45 :: acc)
    else Some acc.

(** ** [struct s_string] *)

Record s_string := String {
  str_hash : Z;
  str_len : Z;
  str_ref_count : Z;
  str_data : list Z
}.

#[export] Instance s_string_eq_dec : EqDecision s_string.
Proof. solve_decision. Defined.

Fixpoint ihash_loop (fuel : nat) (i step : Z) (p : list Z) (h : Z) : Z :=
  match fuel with
  | O => h
  | S fuel =>
      if uint i <? step then h
      else
        let h' := Z.lxor h (uint (uint (Z.shiftl h 5) + Z.shiftr h 2 + uchar (byte_at p (i - 1)))) in
        ihash_loop fuel (i - step) step p h'
  end.

Definition ihash (p : list Z) (len : Z) : Z :=
  let h := len in
  let step := Z.shiftr h 5 + 1 in
  ihash_loop (Z.to_nat len) h step p h.

Definition s_string_create_len (p : list Z) (len : Z) : s_string :=
  let data := take (Z.to_nat len) p in
  String (ihash p len) len 1 (data ++ [0]).

(** [strlen]: [p] holds no 0 *)
Definition s_string_create (p : list Z) : s_string :=
  s_string_create_len p (Z.of_nat (length p)).

Definition s_string_data_p (s : s_string) : list Z := str_data s.
Definition s_string_len (s : s_string) : Z := str_len s.
Definition s_string_get_hash (s : s_string) : Z := str_hash s.

(** two distinct objects; the same object is always equal to itself *)
Definition s_string_equal (a b : s_string) : bool :=
  (str_len a =? str_len b) && (str_hash a =? str_hash b) &&
  c_strncmp_eq (Z.to_nat (str_len a)) (str_data a) (str_data b).

Definition s_string_grab (s : s_string) : s_string :=
  String (str_hash s) (str_len s) (str_ref_count s + 1) (str_data s).

Inductive str_drop_result := StrFreed | StrKept (s : s_string) | StrAssert.

Definition s_string_drop (s : s_string) : str_drop_result :=
  let s := String (str_hash s) (str_len s) (str_ref_count s - 1) (str_data s) in
  if str_ref_count s =? 0 then StrFreed
  else if 0 <? str_ref_count s then StrKept s
  else StrAssert.

(** ** [s_string_create_format] *)

Definition S_STR_FORMAT_LIMIT : Z := 1024.

Inductive fmt_arg := Aint (i : Z) | Astr (s : list Z).

Inductive fmt_result :=
| FmtOk (s : s_string)
| FmtNull
| FmtUndef.    (* an argument missing or of another type than the directive *)

Definition blen (l : list Z) : Z := Z.of_nat (length l).

(** [buf] is the part of the static buffer already written, [pos] its length *)
Fixpoint format_loop (format : list Z) (args : list fmt_arg) (buf : list Z) : fmt_result :=
  (* the test at the end of the loop body, and what follows the loop *)
  let next format args buf :=
    if S_STR_FORMAT_LIMIT <=? blen buf then
      match format with
      | [] => FmtNull
      | _ :: _ => FmtOk (s_string_create_len buf (blen buf))
      end
    else format_loop format args buf in
  match format with
  | [] => FmtOk (s_string_create_len buf (blen buf))
  | 37 :: [] => FmtNull
  | 37 :: 37 :: format => next format args (buf ++ [37])
  | 37 :: 100 :: format =>
      match args with
      | Aint i :: args =>
          match s_int_to_string i with
          | None => FmtUndef
          | Some p =>
              if S_STR_FORMAT_LIMIT <=? blen buf + blen p then FmtNull
              else next format args (buf ++ p)
          end
      | _ => FmtUndef
      end
  | 37 :: 115 :: format =>
      match args with
      | Astr p :: args =>
          if S_STR_FORMAT_LIMIT <=? blen buf + blen p then FmtNull
          else next format args (buf ++ p)
      | _ => FmtUndef
      end
  | 37 :: _ :: _ => FmtNull
  | c :: format => next format args (buf ++ [c])
  end.

Definition s_string_create_format (format : list Z) (args : list fmt_arg) : fmt_result :=
  format_loop format args [].

(** [misc/s_misc.c]: the id behind the last [sep] of a program name *)
Fixpoint c_strrchr (p : list Z) (sep : Z) : option (list Z) :=
  match p with
  | [] => None
  | c :: p' =>
      match c_strrchr p' sep with
      | Some r => Some r
      | None => if c =? sep then Some p else None
      end
  end.

Definition s_util_get_serv_id (p : list Z) (sep : Z) : Z :=
  match c_strrchr p sep with
  | None => -1
  | Some p_ => c_atoi (tail p_)
  end.

(** ** Decimal conversion *)
Section numbers.

Definition is_digit_char (c : Z) : Prop := 48 <= c <= 57.

Lemma c_digits_app ds l a :
  Forall is_digit_char ds → c_digits (ds ++ l) a = c_digits l (c_digits ds a).
Proof.
  intros Hd. revert a. induction Hd as [|c ds Hc Hd IH]; intros a; simpl; [done|].
  unfold c_isdigit. unfold is_digit_char in Hc.
  rewrite !(proj2 (Z.leb_le _ _)) by lia. simpl. apply IH.
Qed.

(** the loop writes the decimal digits of [i] in front of [acc] *)
Lemma num_loop_spec fuel (n : nat) i pos acc :
  0 <= i < 10 ^ Z.of_nat n → (n <= fuel)%nat → Z.of_nat n <= pos + 1 →
  ∃ ds, num_loop fuel i pos acc = (0, pos - Z.of_nat (length ds), ds ++ acc) ∧
    Forall is_digit_char ds ∧ c_digits ds 0 = i ∧ (length ds <= n)%nat ∧ (0 < i → ds ≠ []).
Proof.
  revert fuel i pos acc. induction n as [|n IH]; intros fuel i pos acc Hi Hf Hp.
  - assert (i = 0) as -> by (simpl in Hi; lia). exists [].
    split_and!; try done. destruct fuel; simpl; by rewrite Z.sub_0_r.
  - destruct fuel as [|fuel]; [lia|]. cbn [num_loop].
    destruct (0 <? i) eqn:E; zbool.
    2: { assert (i = 0) as -> by lia. exists []. simpl. rewrite Z.sub_0_r. split_and!; (done || lia). }
    rewrite (proj2 (Z.leb_le _ _)) by lia. cbn [andb].
    rewrite Z.quot_div_nonneg, Z.rem_mod_nonneg by lia.
    rewrite Nat2Z.inj_succ, Z.pow_succ_r in Hi by lia.
    pose proof (Z.mod_pos_bound i 10). pose proof (Z.div_mod i 10).
    destruct (IH fuel (i / 10) (pos - 1) ((i mod 10 + 48) :: acc)) as (ds & -> & Hd & Hv & Hl & _);
      [|lia|lia|].
    { split; [apply Z.div_pos; lia|]. apply Z.div_lt_upper_bound; lia. }
    assert (is_digit_char (i mod 10 + 48)) as Hc by (unfold is_digit_char; lia).
    exists (ds ++ [i mod 10 + 48]). rewrite <-app_assoc, length_app. cbn [length app].
    split_and!; [by replace (pos - 1 - Z.of_nat (length ds))
      with (pos - Z.of_nat (length ds + 1)) by lia| | |lia|by destruct ds].
    + apply Forall_app_2; [done|by constructor].
    + rewrite c_digits_app by done. cbn [c_digits]. unfold c_isdigit.
      unfold is_digit_char in Hc. rewrite !(proj2 (Z.leb_le _ _)) by lia. cbn [andb]. lia.
Qed.

Lemma c_atoi_digits ds : Forall is_digit_char ds → c_atoi ds = sint (c_digits ds 0).
Proof.
  intros Hd. destruct Hd as [|c ds Hc Hd]; [done|]. unfold c_atoi, is_digit_char in *.
  cbn [c_skip_space]. assert (c_isspace c = false) as ->.
  { unfold c_isspace. rewrite (proj2 (Z.eqb_neq _ _)), (proj2 (Z.leb_gt c 13)) by lia.
    by rewrite andb_false_r. }
  repeat case_match; try reflexivity; lia.
Qed.

(** a negative number other than [INT_MIN] gets a sign in front *)
Lemma s_int_to_string_spec i :
  is_int i → i ≠ INT_MIN →
  ∃ p, s_int_to_string i = Some p ∧ c_atoi p = i ∧ p ≠ [] ∧ 0 ∉ p ∧ (length p <= 11)%nat.
Proof.
  intros Hi Hm. unfold is_int, INT_MIN in *. unfold s_int_to_string.
  destruct (i =? 0) eqn:E0; zbool; [subst i; exists [48]; split_and!; set_solver by lia|].
  set (j := if i <? 0 then sint (i * -1) else i).
  assert (j = Z.abs i) as Hj.
  { unfold j. destruct (i <? 0) eqn:E; zbool; [|lia]. rewrite sint_small; unfold is_int; lia. }
  destruct (num_loop_spec (Z.to_nat S_NUM_BUF_SZ) 10 j (S_NUM_BUF_SZ - 2) [])
    as (ds & -> & Hd & Hv & Hl & Hne); [rewrite Hj; change (10 ^ Z.of_nat 10) with 10000000000; lia|unfold S_NUM_BUF_SZ; lia..|].
  rewrite app_nil_r. change (0 <? 0) with false. cbn [andb].
  assert (0 ∉ ds) as Hz.
  { intros H. rewrite Forall_forall in Hd. apply Hd in H. unfold is_digit_char in H. lia. }
  specialize (Hne ltac:(lia)).
  assert (S_NUM_BUF_SZ - 2 - Z.of_nat (length ds) >= 0) by (change S_NUM_BUF_SZ with 64; lia).
  destruct (i <? 0) eqn:E; zbool.
  - rewrite (proj2 (Z.leb_le _ _)) by lia. cbn [andb]. exists (45 :: ds). split; [done|].
    split_and!; [|done|set_solver by lia|simpl; lia].
    unfold c_atoi. cbn [c_skip_space]. change (c_isspace 45) with false. cbv iota.
    rewrite Hv. rewrite sint_small; unfold is_int; lia.
  - cbn [andb]. exists ds. split_and!; try done; [|lia].
    rewrite c_atoi_digits, Hv by done. rewrite sint_small; unfold is_int; lia.
Qed.
End numbers.

(** ** Equality *)
Section equality.

Lemma strncmp_eq_spec n a b :
  0 ∉ a → 0 ∉ b → length a = n → length b = n →
  c_strncmp_eq n (a ++ [0]) (b ++ [0]) = bool_decide (a = b).
Proof.
  revert a b. induction n as [|n IH]; intros a b Ha Hb Hla Hlb.
  { destruct a, b; try done. }
  destruct a as [|x a], b as [|y b]; try done. cbn.
  apply not_elem_of_cons in Ha as [Hx Ha]. apply not_elem_of_cons in Hb as [Hy Hb].
  destruct (x =? y) eqn:E; zbool; cbn [negb].
  - subst y. rewrite (proj2 (Z.eqb_neq _ _)) by lia. rewrite IH by (done || (simpl in *; lia)).
    apply bool_decide_ext. naive_solver.
  - symmetry. apply bool_decide_eq_false_2. naive_solver.
Qed.

Lemma s_string_create_equal a b :
  0 ∉ a → 0 ∉ b →
  s_string_equal (s_string_create a) (s_string_create b) = bool_decide (a = b).
Proof.
  intros Ha Hb. unfold s_string_equal, s_string_create, s_string_create_len.
  cbn [str_len str_hash str_data]. rewrite !Nat2Z.id, !take_ge by done.
  destruct (_ =? _) eqn:E; zbool.
  2: { symmetry. apply bool_decide_eq_false_2. naive_solver. }
  cbn [andb]. apply Nat2Z.inj in E. rewrite strncmp_eq_spec by done.
  destruct (decide (a = b)) as [->|Hne]; [by rewrite Z.eqb_refl|].
  rewrite bool_decide_eq_false_2 by done. by rewrite andb_false_r.
Qed.

Lemma strncmp_eq_refl n a : c_strncmp_eq n a a = true.
Proof.
  revert a. induction n as [|n IH]; intros a; simpl; [done|].
  rewrite Z.eqb_refl. simpl. by destruct (_ =? 0).
Qed.
Lemma strncmp_eq_sym n a b : c_strncmp_eq n a b = true → c_strncmp_eq n b a = true.
Proof.
  revert a b. induction n as [|n IH]; intros a b; simpl; [done|].
  rewrite Z.eqb_sym. destruct (_ =? _) eqn:E; simpl; [|done]. zbool. rewrite E.
  destruct (_ =? 0); auto.
Qed.
Lemma strncmp_eq_trans n a b c :
  c_strncmp_eq n a b = true → c_strncmp_eq n b c = true → c_strncmp_eq n a c = true.
Proof.
  revert a b c. induction n as [|n IH]; intros a b c; simpl; [done|].
  destruct (_ =? _) eqn:E1; simpl; [|done]. zbool. rewrite E1.
  destruct (_ =? default 0 (c !! _)) eqn:E2; simpl; [|done].
  destruct (_ =? 0); eauto.
Qed.

Lemma s_string_equal_refl s : s_string_equal s s = true.
Proof. unfold s_string_equal. by rewrite !Z.eqb_refl, strncmp_eq_refl. Qed.
Lemma s_string_equal_sym a b : s_string_equal a b = true → s_string_equal b a = true.
Proof.
  unfold s_string_equal. intros [[H1 H2]%andb_prop H3]%andb_prop. zbool. rewrite <-H1, <-H2.
  rewrite !Z.eqb_refl. by apply strncmp_eq_sym.
Qed.
Lemma s_string_equal_trans a b c :
  s_string_equal a b = true → s_string_equal b c = true → s_string_equal a c = true.
Proof.
  unfold s_string_equal. intros [[H1 H2]%andb_prop H3]%andb_prop [[H4 H5]%andb_prop H6]%andb_prop.
  zbool. rewrite <-H1 in H6. rewrite <-H4, <-H5, <-H1, <-H2, !Z.eqb_refl. simpl.
  by eapply strncmp_eq_trans.
Qed.
End equality.

(** ** The formatted string *)
Section format.

(** what a format and its arguments stand for, with no bound on the length;
    [None]: an unknown directive, or an argument missing or of another type *)
Fixpoint fmt_expand (format : list Z) (args : list fmt_arg) : option (list Z) :=
  match format with
  | [] => Some []
  | 37 :: [] => None
  | 37 :: 37 :: format => cons 37 <$> fmt_expand format args
  | 37 :: 100 :: format =>
      match args with
      | Aint i :: args => p ← s_int_to_string i; app p <$> fmt_expand format args
      | _ => None
      end
  | 37 :: 115 :: format =>
      match args with
      | Astr p :: args => app p <$> fmt_expand format args
      | _ => None
      end
  | 37 :: _ :: _ => None
  | c :: format => cons c <$> fmt_expand format args
  end.

Lemma format_loop_expand format args buf out :
  fmt_expand format args = Some out → blen buf + blen out < S_STR_FORMAT_LIMIT →
  format_loop format args buf = FmtOk (s_string_create_len (buf ++ out) (blen (buf ++ out))).
Proof.
  unfold blen. remember (length format) as n eqn:Hn.
  assert (length format <= n)%nat as Hl by lia. clear Hn. revert format args buf out Hl.
  induction n as [|n IH]; intros format args buf out Hl He Hlen.
  { destruct format; [|simpl in Hl; lia]. simpl in He. simplify_eq. simpl. by rewrite app_nil_r. }
  destruct format as [|c format]; [simpl in He; simplify_eq; simpl; by rewrite app_nil_r|].
  assert (∀ format args p o, (length format <= n)%nat → app p <$> fmt_expand format args = Some o →
    Z.of_nat (length buf) + Z.of_nat (length o) < S_STR_FORMAT_LIMIT →
    (if S_STR_FORMAT_LIMIT <=? blen (buf ++ p) then
      match format with [] => FmtNull | _ :: _ => FmtOk (s_string_create_len (buf ++ p) (blen (buf ++ p))) end
     else format_loop format args (buf ++ p)) =
    FmtOk (s_string_create_len (buf ++ o) (Z.of_nat (length (buf ++ o)))) ∧
    (S_STR_FORMAT_LIMIT <=? blen buf + blen p) = false) as Hnext.
  { intros f a p o Hf Ho Hb. apply fmap_Some in Ho as (o' & Ho & ->).
    rewrite length_app in Hb. unfold blen. rewrite length_app.
    rewrite !(proj2 (Z.leb_gt _ _)) by lia. split; [|done].
    rewrite (IH f a (buf ++ p) o') by (done || rewrite ?length_app; lia).
    by rewrite <-app_assoc. }
  simpl in Hl.
  destruct (decide (c = 37)) as [->|Hc].
  - destruct format as [|d format]; [done|]. simpl in Hl. cbn [fmt_expand] in He.
    destruct (decide (d = 37)) as [->|Hd].
    { cbn [format_loop]. apply (Hnext format args [37] out); (done || lia). }
    destruct (decide (d = 100)) as [->|Hd'].
    { destruct args as [|[i|s] args]; [done| |done].
      destruct (s_int_to_string i) as [p|] eqn:Ep; [|done]. cbn in He.
      cbn [format_loop]. rewrite Ep. destruct (Hnext format args p out) as [E1 E2]; [lia|done|done|].
      rewrite E2. exact E1. }
    destruct (decide (d = 115)) as [->|Hd''].
    { destruct args as [|[i|p] args]; [done|done|].
      cbn [format_loop]. destruct (Hnext format args p out) as [E1 E2]; [lia|done|done|].
      rewrite E2. exact E1. }
    exfalso. revert He. clear -Hd Hd' Hd''. repeat case_match; congruence.
  - destruct (Hnext format args [c] out) as [E1 _]; [lia| |done|].
    + rewrite <-He. clear -Hc. cbn [fmt_expand]. change (app [c]) with (cons c). repeat case_match; (reflexivity || congruence).
    + rewrite <-E1. clear -Hc. cbn [format_loop]. repeat case_match; congruence.
Qed.
End format.

(** ** The properties *)

(** Decimal conversion round-trips: for every [int] but [INT_MIN],
    [s_int_to_string] gives a non-empty text of at most 11 characters, none of
    them the terminating 0, that [atoi] reads as the same number. *)
Theorem int_to_string_roundtrip i :
  is_int i → i ≠ INT_MIN →
  ∃ p, s_int_to_string i = Some p ∧ c_atoi p = i ∧ p ≠ [] ∧ 0 ∉ p ∧ (length p <= 11)%nat.
Proof. apply s_int_to_string_spec. Qed.

Lemma int_to_string_roundtrip_witness :
  ∃ p, s_int_to_string (-2147483647) = Some p ∧ c_atoi p = -2147483647 ∧ p ≠ [] ∧ 0 ∉ p ∧ (length p <= 11)%nat.
Proof. apply int_to_string_roundtrip; [unfold is_int; lia|discriminate]. Defined.

(** [INT_MIN] has no positive counterpart: [i *= -1] wraps back to it, the
    digit loop does not run, and the text is the sign alone. *)
Theorem int_min_to_string : s_int_to_string INT_MIN = Some [45] ∧ c_atoi [45] ≠ INT_MIN.
Proof. split; [vm_compute; reflexivity|discriminate]. Qed.

(** [s_string_equal] on strings made of texts without a 0 decides whether
    the texts are the same; hash and length never disagree with the text. *)
Theorem string_equal_correct a b :
  0 ∉ a → 0 ∉ b →
  s_string_equal (s_string_create a) (s_string_create b) = bool_decide (a = b).
Proof. apply s_string_create_equal. Qed.

Lemma string_equal_correct_witness :
  s_string_equal (s_string_create [97; 98]) (s_string_create [97; 99]) = bool_decide ([97; 98] = [97; 99]).
Proof. apply string_equal_correct; set_solver by lia. Defined.

(** [s_string_create_format] expands its directives: when the whole
    expansion is shorter than the buffer of 1024 bytes, the result is the
    string of exactly that text. *)
Theorem format_expands format args out :
  fmt_expand format args = Some out → blen out < S_STR_FORMAT_LIMIT →
  s_string_create_format format args = FmtOk (s_string_create out).
Proof. intros He Hl. exact (format_loop_expand format args [] out He Hl). Qed.

Lemma format_expands_witness :
  s_string_create_format [105; 100; 58; 37; 100; 37; 37; 37; 115] [Aint (-5); Astr [120]] =
  FmtOk (s_string_create [105; 100; 58; 45; 53; 37; 120]).
Proof. apply format_expands; [vm_compute; reflexivity|reflexivity]. Defined.

(** A text that overruns the buffer while the format still has characters
    is not refused but cut at 1024 bytes: the test after the loop has its
    condition on the rest of the format the wrong way round. *)
Theorem format_overrun_truncated :
  s_string_create_format (replicate 1100 65) [] = FmtOk (s_string_create (replicate 1024 65)) ∧
  s_string_create_format (replicate 1024 65) [] = FmtNull.
Proof. split; vm_compute; reflexivity. Qed.
