(* ===== verification/SHash.v ===== *)
(** * [common/s_hash.c]: the hash table

    A table is one array of nodes; colliding keys are chained through the
    [next] field of the nodes, and a node that is not at its own main
    position is moved out of the way of a key that hashes there (Brent's
    variation, as in Lua's tables).  The free nodes form an [s_list] through
    the same link field; [SList] shows that [s_list_insert] puts an element in
    front of the list it models and that [s_list_del] removes it, so that the
    free list is a list of node indices here, and the [next] field of a free
    node holds nothing.  The reference counts of the string keys are the map
    [h_refs], from the address of a string to its count; a string's bytes and
    hash never change, and are part of the key.

    [elem]s are the bytes of a value slot; [s_hash_set] and [s_hash_get]
    return the index of a node, whose slot the caller reads or writes. *)

From S2P Require Import Prelude SString.
Local Open Scope nat_scope.

(** ** Keys *)

(** A [double] key holds an integer of at most 53 bits: the callers convert
    integers. *)
Inductive s_hash_key :=
| KStr (p : Z) (str : s_string)
| KNum (num : Z)
| KId (id : s_id)
| KVoidp (p : Z).

#[export] Instance s_hash_key_eq_dec : EqDecision s_hash_key.
Proof. solve_decision. Defined.

(** the eight bytes of the [double] that holds [n], added up *)
Definition double_bits (n : Z) : Z :=
  (if n =? 0 then 0
   else
     let e := Z.log2 (Z.abs n) in
     Z.shiftl (if n <? 0 then 1 else 0) 63 + Z.shiftl (e + 1023) 52 +
     (Z.shiftl (Z.abs n) (52 - e)) mod 2 ^ 52)%Z.

Definition byte_sum (z : Z) : Z :=
  foldr (λ k acc, (byte_of z k + acc)%Z) 0%Z [0; 1; 2; 3; 4; 5; 6; 7]%Z.

Definition iget_hash (key : s_hash_key) : Z :=
  match key with
  | KStr _ str => s_string_get_hash str
  | KNum d => if (uint d =? d)%Z then uint d else byte_sum (double_bits d)
  | KId id => uint (id_x id + id_y id)
  | KVoidp p => uint p
  end.

Definition iequal (a b : s_hash_key) : bool :=
  match a, b with
  | KNum x, KNum y => (x =? y)%Z
  | KVoidp x, KVoidp y => (x =? y)%Z
  | KId x, KId y => (id_x x =? id_x y)%Z && (id_y x =? id_y y)%Z
  | KStr p x, KStr q y => s_string_equal x y
  | _, _ => false
  end.

Lemma iequal_refl k : iequal k k = true.
Proof. destruct k; simpl; rewrite ?Z.eqb_refl; [apply s_string_equal_refl|done..]. Qed.

Lemma iequal_sym k1 k2 : iequal k1 k2 = true → iequal k2 k1 = true.
Proof.
  destruct k1, k2; simpl; try done.
  - apply s_string_equal_sym.
  - by rewrite Z.eqb_sym.
  - rewrite (Z.eqb_sym (id_x id)), (Z.eqb_sym (id_y id)). done.
  - by rewrite Z.eqb_sym.
Qed.

Lemma iequal_trans k1 k2 k3 : iequal k1 k2 = true → iequal k2 k3 = true → iequal k1 k3 = true.
Proof.
  destruct k1, k2, k3; simpl; try done.
  - apply s_string_equal_trans.
  - intros; zbool. by subst; rewrite Z.eqb_refl.
  - intros; zbool. rewrite !(proj2 (Z.eqb_eq _ _)) by congruence. done.
  - intros; zbool. by subst; rewrite Z.eqb_refl.
Qed.

Lemma iequal_hash k1 k2 : iequal k1 k2 = true → iget_hash k1 = iget_hash k2.
Proof.
  destruct k1, k2; simpl; try done.
  - unfold s_string_equal, s_string_get_hash. intros; zbool. done.
  - intros; zbool. by subst.
  - intros; zbool. congruence.
  - intros; zbool. by subst.
Qed.

(** ** Nodes and tables *)

Record s_hash_node (V : Type) := HNode {
  hn_key : option s_hash_key;     (* [None]: [tt] is [S_HASH_KEY_NULL] *)
  hn_next : option nat;           (* [link.next] of a used node *)
  hn_val : V
}.
Arguments HNode {V}.
Arguments hn_key {V}.
Arguments hn_next {V}.
Arguments hn_val {V}.

Record s_hash (V : Type) := Hash {
  h_nodes : list (s_hash_node V);
  h_free : list nat;
  h_refs : gmap Z Z
}.
Arguments Hash {V}.
Arguments h_nodes {V}.
Arguments h_free {V}.
Arguments h_refs {V}.

Definition S_HASH_MIN_NELEM_ALLOC : nat := 16.

Definition refs_grab (key : s_hash_key) (refs : gmap Z Z) : gmap Z Z :=
  match key with
  | KStr p _ => <[p := (default 0 (refs !! p) + 1)%Z]> refs
  | _ => refs
  end.

(** the last drop frees the string *)
Definition refs_drop (key : s_hash_key) (refs : gmap Z Z) : gmap Z Z :=
  match key with
  | KStr p _ =>
      let n := (default 0 (refs !! p) - 1)%Z in
      if (n =? 0)%Z then delete p refs else <[p := n]> refs
  | _ => refs
  end.

Section operations.
Context {V : Type} `{!Inhabited V}.
Local Abbreviation node := (s_hash_node V).
Local Abbreviation hash := (s_hash V).

(** a node of freshly allocated memory, its slot uninitialised *)
Definition fresh_node : node := HNode None None inhabitant.

Definition nelem_alloc (H : hash) : nat := length (h_nodes H).

Definition ihash_at (H : hash) (n : nat) : node := default fresh_node (h_nodes H !! n).

Definition set_node (H : hash) (n : nat) (nd : node) : hash :=
  Hash (<[n := nd]> (h_nodes H)) (h_free H) (h_refs H).
Definition set_free (H : hash) (free : list nat) : hash :=
  Hash (h_nodes H) free (h_refs H).
Definition set_refs (H : hash) (refs : gmap Z Z) : hash :=
  Hash (h_nodes H) (h_free H) refs.

(** [s_list_insert(&H->free_node, &node->link)], [s_list_del(&node->link)] *)
Definition free_insert (n : nat) (H : hash) : hash := set_free H (n :: h_free H).
Definition free_del (n : nat) (H : hash) : hash := set_free H (filter (λ i, i ≠ n) (h_free H)).

Definition set_next (n : nat) (o : option nat) (H : hash) : hash :=
  set_node H n (HNode (hn_key (ihash_at H n)) o (hn_val (ihash_at H n))).
Definition set_key (n : nat) (k : option s_hash_key) (H : hash) : hash :=
  set_node H n (HNode k (hn_next (ihash_at H n)) (hn_val (ihash_at H n))).
(** the caller's write through the returned pointer *)
Definition set_val (n : nat) (v : V) (H : hash) : hash :=
  set_node H n (HNode (hn_key (ihash_at H n)) (hn_next (ihash_at H n)) v).

Definition main_pos (key : s_hash_key) (alloc : nat) : nat :=
  Z.to_nat (iget_hash key mod Z.of_nat alloc).

(** every node of a new array, inserted in the free list one after the other *)
Definition fresh_table (alloc : nat) (refs : gmap Z Z) : hash :=
  Hash (replicate alloc fresh_node) (reverse (seq 0 alloc)) refs.

Definition s_hash_create (alloc : nat) : hash :=
  fresh_table (Z.to_nat (s_max (Z.of_nat alloc) (Z.of_nat S_HASH_MIN_NELEM_ALLOC))) ∅.

(** [while(node && node->key.tt != S_HASH_KEY_NULL)] *)
Fixpoint get_loop (fuel : nat) (H : hash) (key : s_hash_key) (o : option nat) : option nat :=
  match fuel, o with
  | S fuel, Some n =>
      match hn_key (ihash_at H n) with
      | None => None
      | Some k =>
          if iequal k key then Some n else get_loop fuel H key (hn_next (ihash_at H n))
      end
  | _, _ => None
  end.

Definition s_hash_get (H : hash) (key : s_hash_key) : option nat :=
  get_loop (nelem_alloc H) H key (Some (main_pos key (nelem_alloc H))).

(** [while(the_node->link.next && the_node->link.next != node)]: the node
    before [n] on the chain of [i] *)
Fixpoint prev_loop (fuel : nat) (H : hash) (n i : nat) : nat :=
  match fuel, hn_next (ihash_at H i) with
  | S fuel, Some j => if decide (j = n) then i else prev_loop fuel H n j
  | _, _ => i
  end.

(** what [s_hash_set] does with the free node [f]; the result is the node
    whose slot is returned *)
Definition set_with (key : s_hash_key) (f : nat) (H : hash) : nat * hash :=
  let main := main_pos key (nelem_alloc H) in
  let node := ihash_at H main in
  let H := set_refs H (refs_grab key (h_refs H)) in
  match hn_key node with
  | None =>
      let H := free_insert f H in
      let H := free_del main H in
      (main, set_next main None (set_key main (Some key) H))
  | Some k =>
      let the_mp := main_pos k (nelem_alloc H) in
      if decide (main = the_mp) then
        let H := set_key f (Some key) H in
        let H := set_next f (hn_next node) H in
        (f, set_next main (Some f) H)
      else
        let the_node := prev_loop (nelem_alloc H) H main the_mp in
        let H := set_node H f node in
        let H := set_next the_node (Some f) H in
        (main, set_key main (Some key) (set_next main None H))
  end.

(** one round of the loop that fills the new array: [s_hash_set] of an old
    node's key, whose free node comes from [get_free], and the copy of its
    value *)
Definition reinsert (get_free : hash → option (nat * hash)) (oH : option hash) (old : node)
  : option hash :=
  H ← oH;
  match hn_key old with
  | None => Some H
  | Some key =>
      match s_hash_get H key with
      | Some n => Some (set_val n (hn_val old) H)
      | None =>
          '(f, H) ← get_free H;
          let '(n, H) := set_with key f H in
          Some (set_val n (hn_val old) H)
      end
  end.

(** [s_hash_set] and [i_get_free_node] call each other when the table is
    full; [i_get_free_node_spec] shows that the nested calls do not expand
    again.  [None]: out of fuel *)
Fixpoint i_get_free_node (fuel : nat) (H : hash) : option (nat * hash) :=
  match fuel with
  | O => None
  | S fuel =>
      match h_free H with
      | f :: free => Some (f, set_free H free)
      | [] =>
          let H' := fresh_table (2 * nelem_alloc H) (h_refs H) in
          H ← foldl (reinsert (i_get_free_node fuel)) (Some H') (h_nodes H);
          i_get_free_node fuel H
      end
  end.

Definition s_hash_set_fuel (fuel : nat) (H : hash) (key : s_hash_key) : option (nat * hash) :=
  match s_hash_get H key with
  | Some n => Some (n, H)
  | None => '(f, H) ← i_get_free_node fuel H; Some (set_with key f H)
  end.

Definition s_hash_set (H : hash) (key : s_hash_key) : option (nat * hash) :=
  s_hash_set_fuel 2 H key.

(** [s_hash_del], once the key is found at [n], whose predecessor on the chain
    of [main] is [prev] *)
Definition del_node (H : hash) (main : nat) (prev : option nat) (n : nat) : hash :=
  let H := match hn_key (ihash_at H n) with
           | Some k => set_refs H (refs_drop k (h_refs H))
           | None => H
           end in
  let next := hn_next (ihash_at H n) in
  let '(to_be_free, H) :=
    match prev with
    | Some p => (n, set_next p next H)
    | None =>
        match next with
        | Some m => (m, set_node H main (ihash_at H m))
        | None => (main, H)
        end
    end in
  free_insert to_be_free (set_key to_be_free None H).

(** its loop, at the node [o] with the node [prev] before it *)
Fixpoint del_loop (fuel : nat) (H : hash) (key : s_hash_key) (main : nat)
    (prev : option nat) (o : option nat) : hash :=
  match fuel, o with
  | S fuel, Some n =>
      match hn_key (ihash_at H n) with
      | None => H
      | Some k =>
          if iequal k key then del_node H main prev n
          else del_loop fuel H key main (Some n) (hn_next (ihash_at H n))
      end
  | _, _ => H
  end.

Definition s_hash_del (H : hash) (key : s_hash_key) : hash :=
  let main := main_pos key (nelem_alloc H) in
  del_loop (nelem_alloc H) H key main None (Some main).

(** the references [s_hash_destroy] gives back *)
Definition s_hash_destroy (H : hash) : gmap Z Z :=
  foldl (λ refs nd, match hn_key nd with Some k => refs_drop k refs | None => refs end)
    (h_refs H) (h_nodes H).

(** from index [i]: the next used node, and the value [*id] becomes *)
Fixpoint next_loop (nodes : list node) (i : nat) : option (nat * s_hash_key) :=
  match nodes with
  | [] => None
  | nd :: nodes =>
      match hn_key nd with
      | Some k => Some (i, k)
      | None => next_loop nodes (S i)
      end
  end.

Definition s_hash_next (H : hash) (id : Z) : option (Z * nat * s_hash_key) :=
  let i := Z.to_nat (s_max 0 id) in
  match next_loop (drop i (h_nodes H)) i with
  | Some (n, k) => Some (Z.of_nat n + 1, n, k)%Z
  | None => None
  end.

(** [id = 0; while((p = s_hash_next(hash, &id, &key)))] *)
Fixpoint s_hash_iter (fuel : nat) (H : hash) (id : Z) : list (s_hash_key * V) :=
  match fuel with
  | O => []
  | S fuel =>
      match s_hash_next H id with
      | Some (id, n, k) => (k, hn_val (ihash_at H n)) :: s_hash_iter fuel H id
      | None => []
      end
  end.

Definition s_hash_elems (H : hash) : list (s_hash_key * V) :=
  s_hash_iter (S (nelem_alloc H)) H 0.

(** what a caller does: set, then write the slot *)
Definition s_hash_put (H : hash) (key : s_hash_key) (v : V) : option hash :=
  '(n, H) ← s_hash_set H key; Some (set_val n v H).

Definition s_hash_find (H : hash) (key : s_hash_key) : option V :=
  n ← s_hash_get H key; Some (hn_val (ihash_at H n)).
End operations.

(** ** Chains *)
Section chains.
Context {V : Type} `{!Inhabited V}.
Local Abbreviation hash := (s_hash V).
Implicit Types (H : hash) (i j m n : nat) (l : list nat).

Definition key_at H i : option s_hash_key := hn_key (ihash_at H i).
Definition next_at H i : option nat := hn_next (ihash_at H i).
Definition val_at H i : V := hn_val (ihash_at H i).

Lemma ihash_at_set_node H n nd i :
  n < nelem_alloc H → ihash_at (set_node H n nd) i = if decide (i = n) then nd else ihash_at H i.
Proof.
  intros Hn. unfold ihash_at, set_node, nelem_alloc in *. simpl. case_decide.
  - subst. by rewrite list_lookup_insert_eq.
  - by rewrite list_lookup_insert_ne.
Qed.
Lemma alloc_set_node H n nd : nelem_alloc (set_node H n nd) = nelem_alloc H.
Proof. apply length_insert. Qed.
Lemma alloc_set_key H n k : nelem_alloc (set_key n k H) = nelem_alloc H.
Proof. apply length_insert. Qed.
Lemma alloc_set_next H n k : nelem_alloc (set_next n k H) = nelem_alloc H.
Proof. apply length_insert. Qed.
Lemma alloc_set_val H n k : nelem_alloc (set_val n k H) = nelem_alloc H.
Proof. apply length_insert. Qed.
Lemma ihash_at_free H free i : ihash_at (set_free H free) i = ihash_at H i.
Proof. done. Qed.
Lemma ihash_at_refs H refs i : ihash_at (set_refs H refs) i = ihash_at H i.
Proof. done. Qed.

Lemma key_at_lt H i k : key_at H i = Some k → i < nelem_alloc H.
Proof.
  unfold key_at, ihash_at, nelem_alloc. destruct (h_nodes H !! i) eqn:E; [|done].
  intros _. by eapply lookup_lt_Some.
Qed.

Lemma main_pos_lt key alloc : 0 < alloc → main_pos key alloc < alloc.
Proof. intros. unfold main_pos. pose proof (Z.mod_pos_bound (iget_hash key) (Z.of_nat alloc)). lia. Qed.

Lemma iequal_main_pos k1 k2 a : iequal k1 k2 = true → main_pos k1 a = main_pos k2 a.
Proof. intros Hk. unfold main_pos. by rewrite (iequal_hash k1 k2). Qed.

(** the used nodes [l], linked from [o] and up to [o'] *)
Fixpoint seg H (o : option nat) l (o' : option nat) : Prop :=
  match l with
  | [] => o = o'
  | i :: l => o = Some i ∧ is_Some (key_at H i) ∧ seg H (next_at H i) l o'
  end.

Lemma seg_app H o l1 l2 o' :
  seg H o (l1 ++ l2) o' ↔ ∃ x, seg H o l1 x ∧ seg H x l2 o'.
Proof.
  revert o. induction l1 as [|i l1 IH]; intros o; simpl.
  { split; [by eauto|]. by intros (x & -> & ?). }
  rewrite IH. naive_solver.
Qed.

Lemma seg_ext H H' o l o' :
  (∀ i, i ∈ l → key_at H' i = key_at H i ∧ next_at H' i = next_at H i) →
  seg H o l o' → seg H' o l o'.
Proof.
  revert o. induction l as [|i l IH]; intros o He; simpl; [done|].
  intros (-> & Hk & Hs). destruct (He i) as [Ek En]; [left|]. rewrite Ek, En.
  split_and!; try done. apply IH; [|done]. intros j Hj. apply He. by right.
Qed.

Lemma get_loop_some H o l1 i l2 o' key k fuel :
  seg H o (l1 ++ i :: l2) o' → (∀ j k', j ∈ l1 → key_at H j = Some k' → iequal k' key = false) →
  key_at H i = Some k → iequal k key = true → length l1 < fuel →
  get_loop fuel H key o = Some i.
Proof.
  revert o fuel. induction l1 as [|j l1 IH]; intros o fuel; cbn [seg app length].
  { intros (-> & _ & _) _ Hk Hi Hf. destruct fuel; [lia|]. simpl. fold (key_at H i).
    by rewrite Hk, Hi. }
  intros (-> & [k' Hk'] & Hs) Hn Hk Hi Hf. destruct fuel as [|fuel]; [lia|]. simpl.
  fold (key_at H j). rewrite Hk', (Hn j k') by (left || done).
  apply IH; try done; [|lia]. intros. eapply Hn; [right|]; done.
Qed.

Lemma prev_loop_spec H l p n l2 o o' fuel :
  seg H o (l ++ p :: n :: l2) o' → NoDup (l ++ p :: n :: l2) → length l < fuel →
  ∀ i, o = Some i → prev_loop fuel H n i = p.
Proof.
  revert o fuel. induction l as [|j l IH]; intros o fuel; cbn [seg app length].
  { intros (-> & _ & Hn & _) _ Hf i [= <-]. destruct fuel; [lia|]. simpl.
    fold (next_at H p). rewrite Hn. by rewrite decide_True. }
  intros (-> & _ & Hs) Hnd Hf i [= <-]. destruct fuel as [|fuel]; [lia|]. simpl.
  fold (next_at H j). apply NoDup_cons in Hnd as [_ Hnd].
  assert (∃ m, next_at H j = Some m ∧ m ≠ n) as (m & Hm & Hne).
  { apply NoDup_app in Hnd as (_ & Hdisj & Hnd2). destruct l as [|m l]; cbn [app seg] in Hs.
    - destruct Hs as (-> & _). exists p. split; [done|]. apply NoDup_cons in Hnd2.
      intros ->. destruct Hnd2 as [Hp _]. apply Hp. left.
    - destruct Hs as (-> & _). exists m. split; [done|]. intros ->. apply (Hdisj n); [left|].
      right. left. }
  rewrite Hm. rewrite decide_False by done. apply (IH (next_at H j)); (done || lia).
Qed.

Lemma del_loop_none H key main prev o fuel :
  (∀ i k, key_at H i = Some k → iequal k key = false) → del_loop fuel H key main prev o = H.
Proof.
  intros Hn. revert prev o. induction fuel as [|fuel IH]; intros prev o; simpl; [done|].
  destruct o as [i|]; [|done]. fold (key_at H i). destruct (key_at H i) as [k|] eqn:Hk; [|done].
  rewrite (Hn _ _ Hk). apply IH.
Qed.

Lemma del_loop_some H o l1 i l2 o' key k main prev fuel :
  seg H o (l1 ++ i :: l2) o' → (∀ j k', j ∈ l1 → key_at H j = Some k' → iequal k' key = false) →
  key_at H i = Some k → iequal k key = true → length l1 < fuel →
  del_loop fuel H key main prev o = del_node H main (from_option Some prev (last l1)) i.
Proof.
  revert o prev fuel. induction l1 as [|j l1 IH]; intros o prev fuel; cbn [seg app length].
  { intros (-> & _ & _) _ Hk Hi Hf. destruct fuel; [lia|]. simpl. fold (key_at H i).
    by rewrite Hk, Hi. }
  intros (-> & [k' Hk'] & Hs) Hn Hk Hi Hf. destruct fuel as [|fuel]; [lia|]. simpl.
  fold (key_at H j). rewrite Hk', (Hn j k') by (left || done).
  rewrite IH; [|done|intros ?? Hj; apply Hn; by right|done|done|lia].
  f_equal. destruct l1 as [|n l1]; [done|]. rewrite last_cons_cons.
  destruct (last (n :: l1)) eqn:E; [done|]. by apply last_None in E.
Qed.
End chains.

(** ** The invariant of a table *)
Section invariant.
Context {V : Type} `{!Inhabited V}.
Local Abbreviation hash := (s_hash V).
Implicit Types (H : hash) (i j m n : nat) (l : list nat) (C : nat → list nat).

(** [C m] is the chain of the main position [m]: it starts at [m], if any key
    hashes there, and holds exactly the nodes whose key does *)
Record hash_chains H C : Prop := {
  hc_pos : 0 < nelem_alloc H;
  hc_free : NoDup (h_free H);
  hc_free_iff i : i ∈ h_free H ↔ i < nelem_alloc H ∧ key_at H i = None;
  hc_seg m : seg H (head (C m)) (C m) None;
  hc_head m : C m = [] ∨ ∃ l, C m = m :: l;
  hc_nodup m : NoDup (C m);
  hc_main m i : i ∈ C m → ∃ k, key_at H i = Some k ∧ main_pos k (nelem_alloc H) = m;
  hc_in i k : key_at H i = Some k → i ∈ C (main_pos k (nelem_alloc H));
  hc_uniq i j k1 k2 :
    key_at H i = Some k1 → key_at H j = Some k2 → iequal k1 k2 = true → i = j
}.
Definition hash_wf H : Prop := ∃ C, hash_chains H C.

(** the table holds [v] under the key [k] *)
Definition stored H (k : s_hash_key) (v : V) : Prop :=
  ∃ i, key_at H i = Some k ∧ val_at H i = v.

Lemma hc_lt H C m i : hash_chains H C → i ∈ C m → i < nelem_alloc H.
Proof. intros HC Hi. destruct (hc_main _ _ HC m i Hi) as (k & Hk & _). by eapply key_at_lt. Qed.

Lemma hc_length H C m : hash_chains H C → length (C m) <= nelem_alloc H.
Proof.
  intros HC. rewrite <-(length_seq (nelem_alloc H) 0). apply submseteq_length.
  apply NoDup_submseteq; [by apply (hc_nodup _ _ HC)|].
  intros i Hi. apply elem_of_seq. split; [lia|]. by eapply hc_lt.
Qed.

(** the nodes a lookup walks *)
Lemma hc_walk H C key :
  hash_chains H C →
  let mp := main_pos key (nelem_alloc H) in
  (∃ l, C mp = mp :: l) ∨
  (C mp = [] ∧ key_at H mp = None) ∨
  (C mp = [] ∧ ∃ k l1 l2, key_at H mp = Some k ∧ main_pos k (nelem_alloc H) ≠ mp ∧
    C (main_pos k (nelem_alloc H)) = l1 ++ mp :: l2 ∧ l1 ≠ []).
Proof.
  intros HC mp. destruct (hc_head _ _ HC mp) as [Hn|?]; [|by left]. right.
  destruct (key_at H mp) as [k|] eqn:Hk; [right|by left]. split; [done|].
  pose proof (hc_in _ _ HC _ _ Hk) as Hin.
  assert (main_pos k (nelem_alloc H) ≠ mp) as Hne by (intros E; rewrite E, Hn in Hin; set_solver).
  apply list_elem_of_split in Hin as (l1 & l2 & E). exists k, l1, l2. split_and!; try done.
  intros ->. destruct (hc_head _ _ HC (main_pos k (nelem_alloc H))) as [E'|[l E']];
    rewrite E in E'; simplify_eq/=.
Qed.

(** a lookup finds the node of the key, if there is one *)
Lemma s_hash_get_spec H key i :
  hash_wf H →
  s_hash_get H key = Some i ↔ ∃ k, key_at H i = Some k ∧ iequal k key = true.
Proof.
  intros [C HC]. unfold s_hash_get. split.
  - generalize (nelem_alloc H) at 1, (Some (main_pos key (nelem_alloc H))).
    intros fuel. induction fuel as [|fuel IH]; intros o; simpl; [done|].
    destruct o as [j|]; [|done]. fold (key_at H j). destruct (key_at H j) as [k|] eqn:Hk; [|done].
    destruct (iequal k key) eqn:E; [|apply IH]. intros [= <-]. by exists k.
  - intros (k & Hk & Hi). pose proof (hc_in _ _ HC _ _ Hk) as Hin.
    rewrite (iequal_main_pos _ _ _ Hi) in Hin.
    pose proof (hc_seg _ _ HC (main_pos key (nelem_alloc H))) as Hs.
    pose proof (hc_length _ _ (main_pos key (nelem_alloc H)) HC) as Hlen.
    pose proof (hc_nodup _ _ HC (main_pos key (nelem_alloc H))) as Hnd.
    assert (head (C (main_pos key (nelem_alloc H))) = Some (main_pos key (nelem_alloc H))) as Eh.
    { destruct (hc_head _ _ HC (main_pos key (nelem_alloc H))) as [E|[l E]];
        rewrite E in *; [set_solver|done]. }
    rewrite Eh in Hs. apply list_elem_of_split in Hin as (l1 & l2 & E). rewrite E in *.
    eapply get_loop_some; [done| |done|done|].
    + intros j k' Hj Hk'. destruct (iequal k' key) eqn:E'; [|done]. exfalso.
      assert (j = i) as ->.
      { eapply (hc_uniq _ _ HC); [done..|]. eapply iequal_trans; [done|]. by apply iequal_sym. }
      apply NoDup_app in Hnd as (_ & Hd & _). apply (Hd i Hj). left.
    + rewrite length_app in Hlen. simpl in Hlen. lia.
Qed.

Lemma s_hash_get_None H key :
  hash_wf H →
  s_hash_get H key = None ↔ ∀ i k, key_at H i = Some k → iequal k key = false.
Proof.
  intros Hwf. split.
  - intros Hn i k Hk. destruct (iequal k key) eqn:E; [|done].
    assert (s_hash_get H key = Some i) by (apply s_hash_get_spec; eauto). congruence.
  - intros Hn. destruct (s_hash_get H key) as [i|] eqn:E; [|done].
    apply s_hash_get_spec in E as (k & Hk & Hi); [|done]. rewrite (Hn _ _ Hk) in Hi. done.
Qed.

Lemma s_hash_find_spec H key v :
  hash_wf H → s_hash_find H key = Some v ↔ ∃ k, stored H k v ∧ iequal k key = true.
Proof.
  intros Hwf. unfold s_hash_find, stored. destruct (s_hash_get H key) as [i|] eqn:E; cbn.
  - apply s_hash_get_spec in E as (k & Hk & Hi); [|done]. split.
    + intros [= <-]. exists k. eauto.
    + intros (k' & (j & Hj & <-) & Hi'). destruct Hwf as [C HC].
      assert (i = j) as ->; [|done]. eapply (hc_uniq _ _ HC); [done..|].
      eapply iequal_trans; [done|]. by apply iequal_sym.
  - rewrite s_hash_get_None in E by done. split; [done|].
    intros (k' & (j & Hj & <-) & Hi'). rewrite (E _ _ Hj) in Hi'. done.
Qed.
End invariant.

(** ** The fields of an updated table *)
Section fields.
Context {V : Type} `{!Inhabited V}.
Local Abbreviation hash := (s_hash V).
Implicit Types (H : hash) (i n : nat).

Lemma key_at_set_node H n nd i :
  n < nelem_alloc H → key_at (set_node H n nd) i = if decide (i = n) then hn_key nd else key_at H i.
Proof. intros. unfold key_at. rewrite ihash_at_set_node by done. by case_decide. Qed.
Lemma next_at_set_node H n nd i :
  n < nelem_alloc H → next_at (set_node H n nd) i = if decide (i = n) then hn_next nd else next_at H i.
Proof. intros. unfold next_at. rewrite ihash_at_set_node by done. by case_decide. Qed.
Lemma val_at_set_node H n nd i :
  n < nelem_alloc H → val_at (set_node H n nd) i = if decide (i = n) then hn_val nd else val_at H i.
Proof. intros. unfold val_at. rewrite ihash_at_set_node by done. by case_decide. Qed.

Lemma set_node_out H n nd : nelem_alloc H <= n → set_node H n nd = H.
Proof. intros. unfold set_node. rewrite list_insert_ge by done. by destruct H. Qed.

Lemma key_at_set_key H n k i :
  n < nelem_alloc H → key_at (set_key n k H) i = if decide (i = n) then k else key_at H i.
Proof. apply key_at_set_node. Qed.
Lemma next_at_set_key H n k i : next_at (set_key n k H) i = next_at H i.
Proof.
  unfold set_key. destruct (decide (n < nelem_alloc H)); [|by rewrite set_node_out by lia].
  rewrite next_at_set_node by done. case_decide; by subst.
Qed.
Lemma val_at_set_key H n k i : val_at (set_key n k H) i = val_at H i.
Proof.
  unfold set_key. destruct (decide (n < nelem_alloc H)); [|by rewrite set_node_out by lia].
  rewrite val_at_set_node by done. case_decide; by subst.
Qed.
Lemma next_at_set_next H n o i :
  n < nelem_alloc H → next_at (set_next n o H) i = if decide (i = n) then o else next_at H i.
Proof. apply next_at_set_node. Qed.
Lemma key_at_set_next H n o i : key_at (set_next n o H) i = key_at H i.
Proof.
  unfold set_next. destruct (decide (n < nelem_alloc H)); [|by rewrite set_node_out by lia].
  rewrite key_at_set_node by done. case_decide; by subst.
Qed.
Lemma val_at_set_next H n o i : val_at (set_next n o H) i = val_at H i.
Proof.
  unfold set_next. destruct (decide (n < nelem_alloc H)); [|by rewrite set_node_out by lia].
  rewrite val_at_set_node by done. case_decide; by subst.
Qed.
Lemma key_at_set_val H n v i : key_at (set_val n v H) i = key_at H i.
Proof.
  unfold set_val. destruct (decide (n < nelem_alloc H)); [|by rewrite set_node_out by lia].
  rewrite key_at_set_node by done. case_decide; by subst.
Qed.
Lemma next_at_set_val H n v i : next_at (set_val n v H) i = next_at H i.
Proof.
  unfold set_val. destruct (decide (n < nelem_alloc H)); [|by rewrite set_node_out by lia].
  rewrite next_at_set_node by done. case_decide; by subst.
Qed.
Lemma val_at_set_val H n v i :
  n < nelem_alloc H → val_at (set_val n v H) i = if decide (i = n) then v else val_at H i.
Proof. apply val_at_set_node. Qed.

Lemma fields_free H free i :
  key_at (set_free H free) i = key_at H i ∧ next_at (set_free H free) i = next_at H i ∧
  val_at (set_free H free) i = val_at H i ∧ nelem_alloc (set_free H free) = nelem_alloc H.
Proof. done. Qed.
Lemma fields_refs H refs i :
  key_at (set_refs H refs) i = key_at H i ∧ next_at (set_refs H refs) i = next_at H i ∧
  val_at (set_refs H refs) i = val_at H i ∧ nelem_alloc (set_refs H refs) = nelem_alloc H.
Proof. done. Qed.
End fields.

(** compute the fields of an updated table *)
Ltac hsimp :=
  unfold free_insert, free_del in *;
  rewrite ?alloc_set_next, ?alloc_set_key, ?alloc_set_node, ?alloc_set_val in *;
  change (nelem_alloc (set_free ?a ?b)) with (nelem_alloc a) in *;
  change (nelem_alloc (set_refs ?a ?b)) with (nelem_alloc a) in *.

(** ** [s_hash_set] *)
Section set.
Context {V : Type} `{!Inhabited V}.
Local Abbreviation hash := (s_hash V).
Implicit Types (H : hash) (i j m n f : nat) (l : list nat) (C : nat → list nat).

Lemma length_filter_ne l x :
  NoDup l → x ∈ l → S (length (filter (λ i, i ≠ x) l)) = length l.
Proof.
  induction 1 as [|y l Hy Hnd IH]; [set_solver|]. intros Hx.
  destruct (decide (y = x)) as [->|Hne].
  - rewrite filter_cons_False by naive_solver. simpl. f_equal. f_equal.
    clear -Hy. induction l as [|z l IH]; [done|]. apply not_elem_of_cons in Hy as [? ?].
    rewrite filter_cons_True by done. f_equal. by apply IH.
  - rewrite filter_cons_True by done. simpl. rewrite IH; [done|]. set_solver.
Qed.

(** the node of a key that is added *)
Record added H H' (key : s_hash_key) (n : nat) : Prop := {
  ad_alloc : nelem_alloc H' = nelem_alloc H;
  ad_key : key_at H' n = Some key;
  ad_free : S (length (h_free H')) = length (h_free H);
  ad_refs : h_refs H' = refs_grab key (h_refs H);
  ad_wf : hash_wf H';
  ad_stored k v : stored H' k v ↔ stored H k v ∨ (k = key ∧ v = val_at H' n)
}.

(** [r] says where the nodes of [H] went, [n] is the node of the new key *)
Definition moved H H' (key : s_hash_key) (n : nat) (r : nat → nat) : Prop :=
  ∀ i k, key_at H' i = Some k ↔
    (i = n ∧ k = key) ∨ (i ≠ n ∧ ∃ j, key_at H j = Some k ∧ r j = i).

Lemma moved_uniq H C H' key n r :
  hash_chains H C → (∀ i k, key_at H i = Some k → iequal k key = false) →
  moved H H' key n r →
  ∀ i j k1 k2, key_at H' i = Some k1 → key_at H' j = Some k2 → iequal k1 k2 = true → i = j.
Proof.
  intros HC Hg Hm i j k1 k2 [[-> ->]|(_ & i' & Hi & <-)]%Hm [[-> ->]|(_ & j' & Hj & <-)]%Hm E; try done.
  - apply iequal_sym in E. by rewrite (Hg _ _ Hj) in E.
  - by rewrite (Hg _ _ Hi) in E.
  - f_equal. by eapply (hc_uniq _ _ HC).
Qed.

Lemma moved_stored H H' key n r :
  moved H H' key n r →
  (∀ j k, key_at H j = Some k → r j ≠ n ∧ val_at H' (r j) = val_at H j) →
  ∀ k v, stored H' k v ↔ stored H k v ∨ (k = key ∧ v = val_at H' n).
Proof.
  intros Hm Hr k v. unfold stored. split.
  - intros (i & Hi & <-). apply Hm in Hi as [[-> ->]|(_ & j & Hj & <-)]; [by right|].
    left. exists j. split; [done|]. symmetry. by eapply Hr.
  - intros [(i & Hi & <-)|[-> ->]].
    + destruct (Hr i k Hi) as [Hn Hv]. exists (r i). split; [|done]. apply Hm. right. eauto.
    + exists n. split; [|done]. apply Hm. by left.
Qed.

(** case 1: the main position of the key is free *)
Lemma set_with_empty H C key f free :
  hash_chains H C → h_free H = f :: free → s_hash_get H key = None →
  key_at H (main_pos key (nelem_alloc H)) = None →
  let '(n, H') := set_with key f (set_free H free) in added H H' key n.
Proof.
  intros HC Hf Hg Hk. rewrite s_hash_get_None in Hg by by exists C.
  pose proof (hc_pos _ _ HC) as Hpos.
  unfold set_with. cbn zeta. change (nelem_alloc (set_free H free)) with (nelem_alloc H).
  change (hn_key (ihash_at (set_free H free) ?n)) with (key_at H n). rewrite Hk.
  set (mp := main_pos key (nelem_alloc H)) in *.
  assert (mp < nelem_alloc H) as Hmp by by apply main_pos_lt.
  set (H0 := free_del _ _). set (H' := set_next _ _ _).
  assert (∀ i, key_at H' i = if decide (i = mp) then Some key else key_at H i) as Ek.
  { intros i. unfold H'. rewrite key_at_set_next, key_at_set_key by done. done. }
  assert (∀ i, next_at H' i = if decide (i = mp) then None else next_at H i) as En.
  { intros i. unfold H'. rewrite next_at_set_next, next_at_set_key by by hsimp. done. }
  assert (∀ i, val_at H' i = val_at H i) as Ev.
  { intros i. unfold H'. by rewrite val_at_set_next, val_at_set_key. }
  assert (nelem_alloc H' = nelem_alloc H) as Ea by (unfold H'; by hsimp).
  assert (h_free H' = filter (λ i, i ≠ mp) (h_free H)) as Ef by (by rewrite Hf).
  assert (∀ i, i ∈ C mp → False) as Hcm.
  { intros i Hi. destruct (hc_head _ _ HC mp) as [E|[l E]]; [rewrite E in Hi; set_solver|].
    destruct (hc_main _ _ HC mp mp) as (k & ? & _); [rewrite E; left|]. congruence. }
  assert (∀ m, mp ∈ C m → False) as Hmp'.
  { intros m Hm. destruct (hc_main _ _ HC m mp Hm) as (k & ? & _). congruence. }
  assert (moved H H' key mp id) as Hmv.
  { intros i k. rewrite Ek. case_decide; naive_solver. }
  split; try done.
  - rewrite Ek, decide_True; done.
  - rewrite Ef. apply length_filter_ne; [apply (hc_free _ _ HC)|]. by apply (hc_free_iff _ _ HC).
  - exists (λ m, if decide (m = mp) then [mp] else C m). split; rewrite ?Ea; try done.
    + rewrite Ef. by apply NoDup_filter, (hc_free _ _ HC).
    + intros i. rewrite Ef, list_elem_of_filter, (hc_free_iff _ _ HC), Ek.
      case_decide; naive_solver.
    + intros m. case_decide as Hm; cbn.
      * rewrite Ek, En, !decide_True by done. eauto.
      * apply (seg_ext H); [|apply (hc_seg _ _ HC)]. intros i Hi. rewrite Ek, En.
        rewrite !decide_False; [done|..]; intros ->; by eapply Hmp'.
    + intros m. case_decide as Hm; [right; subst; by exists []|apply (hc_head _ _ HC)].
    + intros m. case_decide as Hm; [apply NoDup_singleton|apply (hc_nodup _ _ HC)].
    + intros m i. case_decide as Hm.
      * intros ->%list_elem_of_singleton. rewrite Ek, decide_True by done. by eauto.
      * intros Hi. destruct (hc_main _ _ HC m i Hi) as (k & Hk' & Hm').
        rewrite Ek, decide_False by (intros ->; by eapply Hmp'). by eauto.
    + intros i k. rewrite Ek. case_decide as Hi.
      * intros [= <-]. subst. rewrite decide_True by done. left.
      * intros Hk'. pose proof (hc_in _ _ HC _ _ Hk') as Hin.
        rewrite decide_False; [done|]. intros E. rewrite E in Hin. by eapply Hcm.
    + by eapply moved_uniq.
  - apply (moved_stored _ _ _ _ id Hmv). intros j k Hj. split; [|by apply Ev].
    intros E. simpl in E. congruence.
Qed.

(** the free node that [i_get_free_node] hands out *)
Lemma free_head H C f free :
  hash_chains H C → h_free H = f :: free →
  f < nelem_alloc H ∧ key_at H f = None ∧ f ∉ free ∧ NoDup free ∧ ∀ m, f ∉ C m.
Proof.
  intros HC Hf. pose proof (hc_free _ _ HC) as Hnd. rewrite Hf in Hnd.
  apply NoDup_cons in Hnd as [Hnf Hnd].
  assert (f ∈ h_free H) as Hin by (rewrite Hf; left). apply (hc_free_iff _ _ HC) in Hin as [Hl Hn].
  split_and!; try done. intros m Hm. destruct (hc_main _ _ HC m f Hm) as (k & ? & _). congruence.
Qed.

(** the free list of a table that took node [f] *)
Lemma free_iff_taken H C f free H' :
  hash_chains H C → h_free H = f :: free → nelem_alloc H' = nelem_alloc H →
  (∀ i, key_at H' i = None ↔ i ≠ f ∧ key_at H i = None) →
  ∀ i, i ∈ free ↔ i < nelem_alloc H' ∧ key_at H' i = None.
Proof.
  intros HC Hf Ha Hk i. destruct (free_head _ _ _ _ HC Hf) as (_ & _ & Hnf & _ & _).
  rewrite Ha, Hk. pose proof (hc_free_iff _ _ HC i) as Hi. rewrite Hf, elem_of_cons in Hi.
  split; [|tauto]. intros Hin. split; [tauto|]. split; [|tauto]. by intros ->.
Qed.

(** case 2: the node at the main position is the head of the key's chain *)
Lemma set_with_chain H C key f free k0 :
  hash_chains H C → h_free H = f :: free → s_hash_get H key = None →
  key_at H (main_pos key (nelem_alloc H)) = Some k0 →
  main_pos key (nelem_alloc H) = main_pos k0 (nelem_alloc H) →
  let '(n, H') := set_with key f (set_free H free) in added H H' key n.
Proof.
  intros HC Hf Hg Hk Hm. rewrite s_hash_get_None in Hg by by exists C.
  destruct (free_head _ _ _ _ HC Hf) as (Hfl & Hfn & Hff & Hnf & HfC).
  unfold set_with. cbn zeta. change (nelem_alloc (set_free H free)) with (nelem_alloc H).
  change (hn_key (ihash_at (set_free H free) ?n)) with (key_at H n). rewrite Hk.
  change (hn_next (ihash_at (set_free H free) ?n)) with (next_at H n).
  change (nelem_alloc (set_refs _ _)) with (nelem_alloc H). rewrite decide_True by done.
  set (mp := main_pos key (nelem_alloc H)) in *.
  assert (mp < nelem_alloc H) as Hmp by by eapply key_at_lt.
  assert (f ≠ mp) as Hfm by congruence.
  set (H' := set_next mp _ _).
  assert (∀ i, key_at H' i = if decide (i = f) then Some key else key_at H i) as Ek.
  { intros i. unfold H'. rewrite !key_at_set_next, key_at_set_key by done. done. }
  assert (∀ i, next_at H' i = if decide (i = mp) then Some f
      else if decide (i = f) then next_at H mp else next_at H i) as En.
  { intros i. unfold H'. rewrite !next_at_set_next, next_at_set_key by by hsimp. done. }
  assert (∀ i, val_at H' i = val_at H i) as Ev.
  { intros i. unfold H'. by rewrite !val_at_set_next, val_at_set_key. }
  assert (nelem_alloc H' = nelem_alloc H) as Ea by (unfold H'; by hsimp).
  assert (moved H H' key f id) as Hmv.
  { intros i k. rewrite Ek. case_decide; naive_solver. }
  assert (∃ l, C mp = mp :: l) as [l El].
  { destruct (hc_head _ _ HC mp) as [E|?]; [|done].
    pose proof (hc_in _ _ HC _ _ Hk) as Hin. rewrite <-Hm, E in Hin. set_solver. }
  pose proof (hc_seg _ _ HC mp) as Hs. rewrite El in Hs. destruct Hs as (_ & _ & Hs).
  pose proof (hc_nodup _ _ HC mp) as Hnd. rewrite El in Hnd.
  assert (∀ m, m ≠ mp → mp ∉ C m) as Hother.
  { intros m Hne Hin. destruct (hc_main _ _ HC m mp Hin) as (k & ? & ?). congruence. }
  pose proof (HfC mp) as Hfl'. rewrite El in Hfl'.
  split; try done.
  - rewrite Ek, decide_True; done.
  - by rewrite Hf.
  - exists (λ m, if decide (m = mp) then mp :: f :: l else C m). split; rewrite ?Ea; try done.
    + by apply (hc_pos _ _ HC).
    + intros i. rewrite <-Ea. apply (free_iff_taken H C f); try done.
      intros j. rewrite Ek. case_decide; naive_solver.
    + intros m. case_decide as Hne.
      * cbn. rewrite !Ek, !En, decide_False, decide_True, decide_True by done.
        rewrite decide_False, decide_True by done. split_and!; try done; [by eexists..|].
        apply (seg_ext H); [|done]. apply NoDup_cons in Hnd as [Hnl _].
        intros i Hi. rewrite Ek, En. rewrite !decide_False by set_solver. done.
      * apply (seg_ext H); [|apply (hc_seg _ _ HC)]. intros i Hi. rewrite Ek, En.
        specialize (Hother _ Hne). specialize (HfC m). rewrite !decide_False by set_solver. done.
    + intros m. case_decide as Hne; [right; subst; by eexists|apply (hc_head _ _ HC)].
    + intros m. case_decide as Hne; [|apply (hc_nodup _ _ HC)].
      apply NoDup_cons in Hnd as [Hnl Hnd]. constructor; [set_solver|]. constructor; [set_solver|done].
    + intros m i. case_decide as Hne.
      * rewrite Ek. case_decide as Hi; [subst; by eauto|]. intros Hin.
        subst m. apply (hc_main _ _ HC). rewrite El. set_solver.
      * intros Hi. rewrite Ek. rewrite decide_False; [by apply (hc_main _ _ HC)|].
        intros ->. by eapply HfC.
    + intros i k. rewrite Ek. case_decide as Hi.
      * intros [= <-]. subst. rewrite decide_True by done. right. left.
      * intros Hk'. pose proof (hc_in _ _ HC _ _ Hk') as Hin. case_decide as E; [|done].
        rewrite E, El in Hin. set_solver.
    + by eapply moved_uniq.
  - apply (moved_stored _ _ _ _ id Hmv). intros j k Hj. split; [|by apply Ev].
    intros E. simpl in E. congruence.
Qed.

(** case 3: the node at the main position belongs to another chain, and moves *)

(** where that node is: behind some [p] of its own chain; the key's is empty *)
Lemma foreign_place H C key k0 :
  hash_chains H C → key_at H (main_pos key (nelem_alloc H)) = Some k0 →
  main_pos key (nelem_alloc H) ≠ main_pos k0 (nelem_alloc H) →
  C (main_pos key (nelem_alloc H)) = [] ∧
  ∃ l1 p l2, C (main_pos k0 (nelem_alloc H)) = l1 ++ p :: main_pos key (nelem_alloc H) :: l2.
Proof.
  set (mp := main_pos key (nelem_alloc H)). set (mp0 := main_pos k0 (nelem_alloc H)). intros HC Hk Hm.
  destruct (hc_walk H C key HC) as [[l El]|[[El Hn]|(El & k & l1 & l2 & Hk' & Hm' & El' & Hl1)]];
    fold mp in El; try fold mp in Hn, El; try fold mp in Hk', Hm', El'.
  - destruct (hc_main _ _ HC mp mp) as (k & ? & ?); [rewrite El; left|]. subst mp0. congruence.
  - congruence.
  - split; [done|]. assert (k = k0) as -> by congruence. fold mp0 in El'.
    destruct (exists_last' l1) as [->|(l0 & p & ->)]; [done|]. rewrite <-app_assoc in El'. by exists l0, p, l2.
Qed.

Section foreign.
Context (H H' : hash) (C : nat → list nat) (key k0 : s_hash_key) (f p : nat) (free l1 l2 : list nat) (mp mp0 : nat).
Hypothesis (HC : hash_chains H C) (Hf : h_free H = f :: free) (Hk : key_at H mp = Some k0)
  (Emp : mp = main_pos key (nelem_alloc H)) (Emp0 : mp0 = main_pos k0 (nelem_alloc H)) (Hm : mp ≠ mp0)
  (El0 : C mp = []) (El : C mp0 = l1 ++ p :: mp :: l2).

Lemma foreign_f : f ≠ mp ∧ f ∉ C mp0 ∧ p ≠ f ∧ p ≠ mp ∧ p ∈ C mp0.
Proof using HC Hf Hk Emp Emp0 Hm El0 El.
  destruct (free_head _ _ _ _ HC Hf) as (_ & Hfn & _ & _ & HfC). pose proof (hc_nodup _ _ HC mp0) as Hnd.
  assert (p ∈ C mp0) as Hp by (rewrite El; set_solver). split_and!; try done; [congruence|intros ->; by apply (HfC mp0)|].
  rewrite El in Hnd. apply NoDup_app in Hnd as (_ & _ & Hnd). apply NoDup_cons in Hnd as [Hn _]. set_solver.
Qed.

Lemma foreign_dis : p ∉ l1 ∧ mp ∉ l1 ∧ p ∉ l2 ∧ mp ∉ l2 ∧ f ∉ l1 ∧ f ∉ l2 ∧ NoDup l1 ∧ NoDup l2 ∧ ∀ i, i ∈ l1 → i ∉ l2.
Proof using HC Hf Hk Emp Emp0 Hm El0 El.
  destruct foreign_f as (_ & Hf0 & _). pose proof (hc_nodup _ _ HC mp0) as Hnd. rewrite El in Hf0, Hnd.
  apply NoDup_app in Hnd as (H1 & Hd & Hnd). apply NoDup_cons in Hnd as [? Hnd].
  apply NoDup_cons in Hnd as [? Hnd]. split_and!; try done; set_solver.
Qed.

Lemma foreign_other m : m ≠ mp0 → p ∉ C m ∧ mp ∉ C m ∧ f ∉ C m.
Proof using HC Hf Hk Emp Emp0 Hm El0 El.
  intros Hne. destruct foreign_f as (_ & _ & _ & _ & Hp). destruct (free_head _ _ _ _ HC Hf) as (_ & _ & _ & _ & HfC).
  split_and!; [intros Hin..|done].
  - destruct (hc_main _ _ HC m p Hin) as (k & ? & ?), (hc_main _ _ HC mp0 p Hp) as (k' & ? & ?). congruence.
  - destruct (hc_main _ _ HC m mp Hin) as (k & ? & ?). congruence.
Qed.

Definition foreign_chain (m : nat) : list nat :=
  if decide (m = mp) then [mp] else if decide (m = mp0) then l1 ++ p :: f :: l2 else C m.

Lemma foreign_nodup m : NoDup (foreign_chain m).
Proof using HC Hf Hk Emp Emp0 Hm El0 El.
  destruct foreign_f as (Hfm & _ & Hpf & Hpm & _), foreign_dis as (? & ? & ? & ? & ? & ? & ? & ? & Hd).
  unfold foreign_chain. case_decide; [apply NoDup_singleton|]. case_decide; [|apply (hc_nodup _ _ HC)].
  apply NoDup_app. split_and!; [done|intros i Hi; specialize (Hd i Hi); set_solver|].
  constructor; [set_solver|]. by constructor.
Qed.

(** the fields of the new table *)
Hypothesis (Ek : ∀ i, key_at H' i = if decide (i = mp) then Some key else if decide (i = f) then Some k0 else key_at H i)
  (En : ∀ i, next_at H' i = if decide (i = mp) then None else if decide (i = p) then Some f
      else if decide (i = f) then next_at H mp else next_at H i)
  (Ea : nelem_alloc H' = nelem_alloc H) (Ef : h_free H' = free).

Lemma foreign_ext o l o' : p ∉ l → mp ∉ l → f ∉ l → seg H o l o' → seg H' o l o'.
Proof using HC Hf Hk Emp Emp0 Hm El0 El Ek En Ea Ef.
  intros Hp Hmp Hfl. apply seg_ext. intros i Hi. rewrite Ek, En. rewrite !decide_False by set_solver. done.
Qed.

Lemma foreign_seg m : seg H' (head (foreign_chain m)) (foreign_chain m) None.
Proof using HC Hf Hk Emp Emp0 Hm El0 El Ek En Ea Ef.
  destruct foreign_f as (Hfm & _ & Hpf & Hpm & _), foreign_dis as (? & ? & ? & ? & ? & ? & _).
  unfold foreign_chain. case_decide as Hne; [|case_decide as Hne0].
  - cbn. rewrite Ek, En, !decide_True by done. split_and!; [done|by eexists|done].
  - pose proof (hc_seg _ _ HC mp0) as Hs. replace (head (l1 ++ p :: f :: l2)) with (head (C mp0)) by (rewrite El; by destruct l1).
    rewrite El in Hs |- *. apply seg_app in Hs as (x & Hs1 & -> & Hu & Hs2). cbn [seg] in Hs2. destruct Hs2 as (Hpn & _ & Hs2).
    apply seg_app. exists (Some p). split; [by apply foreign_ext|].
    cbn. rewrite !Ek, !En. rewrite !(decide_False (P := p = mp)), !(decide_False (P := p = f)),
      !(decide_True (P := p = p)), !(decide_True (P := f = f)), !(decide_False (P := f = mp)),
      !(decide_False (P := f = p)) by done.
    split_and!; try done. by apply foreign_ext.
  - destruct (foreign_other m Hne0) as (? & ? & ?). apply foreign_ext; [done..|apply (hc_seg _ _ HC)].
Qed.

Lemma foreign_main m i : i ∈ foreign_chain m → ∃ k, key_at H' i = Some k ∧ main_pos k (nelem_alloc H) = m.
Proof using HC Hf Hk Emp Emp0 Hm El0 El Ek En Ea Ef.
  unfold foreign_chain. case_decide as Hne; [|case_decide as Hne0].
  - intros ->%list_elem_of_singleton. rewrite Ek, decide_True by done. exists key. by subst.
  - rewrite Ek. intros Hi. case_decide as Him; [destruct foreign_f as (? & _ & _ & ? & _), foreign_dis as (? & ? & ? & ? & _); set_solver|].
    case_decide as Hif; [exists k0; by subst|].
    rewrite Hne0. apply (hc_main _ _ HC). rewrite El. set_solver.
  - intros Hi. rewrite Ek. destruct (foreign_other m Hne0) as (? & ? & ?).
    rewrite !decide_False by set_solver. by apply (hc_main _ _ HC).
Qed.

Lemma foreign_in i k : key_at H' i = Some k → i ∈ foreign_chain (main_pos k (nelem_alloc H)).
Proof using HC Hf Hk Emp Emp0 Hm El0 El Ek En Ea Ef.
  rewrite Ek. unfold foreign_chain. case_decide as Hi; [|case_decide as Hif].
  - intros [= <-]. rewrite <-Emp, decide_True by done. rewrite Hi. left.
  - intros [= <-]. rewrite <-Emp0, decide_False, decide_True by done. set_solver.
  - intros Hk'. pose proof (hc_in _ _ HC _ _ Hk') as Hin. case_decide as E.
    { rewrite E, El0 in Hin. set_solver. }
    case_decide as E'; [|done]. rewrite E', El in Hin. set_solver.
Qed.

Lemma foreign_moved : moved H H' key mp (λ j, if decide (j = mp) then f else j).
Proof using HC Hf Hk Emp Emp0 Hm El0 El Ek En Ea Ef.
  destruct foreign_f as (Hfm & _). destruct (free_head _ _ _ _ HC Hf) as (_ & Hfn & _).
  intros i k. rewrite Ek. case_decide as Hi; [naive_solver|]. case_decide as Hif.
  - rewrite Hif. split.
    + intros [= <-]. right. split; [done|]. exists mp. by rewrite decide_True.
    + intros [[? ?]|(_ & j & Hj & Hr)]; [done|]. case_decide; congruence.
  - split.
    + intros Hk'. right. split; [done|]. exists i. by rewrite decide_False.
    + intros [[? ?]|(_ & j & Hj & Hr)]; [done|]. case_decide; congruence.
Qed.

Lemma foreign_chains :
  (∀ i k, key_at H i = Some k → iequal k key = false) → hash_chains H' foreign_chain.
Proof using HC Hf Hk Emp Emp0 Hm El0 El Ek En Ea Ef.
  intros Hg. destruct foreign_f as (Hfm & _). destruct (free_head _ _ _ _ HC Hf) as (_ & _ & _ & Hnf & _).
  split; rewrite ?Ea, ?Ef.
  - by apply (hc_pos _ _ HC).
  - done.
  - intros i. rewrite <-Ea. apply (free_iff_taken H C f); try done.
    intros j. rewrite Ek. repeat case_decide; naive_solver.
  - apply foreign_seg.
  - intros m. unfold foreign_chain. case_decide as Hne; [right; rewrite Hne; by exists []|].
    case_decide as Hne0; [|apply (hc_head _ _ HC)]. right. rewrite Hne0.
    destruct (hc_head _ _ HC mp0) as [E|[l E]]; rewrite El in E; [by destruct l1|].
    destruct l1 as [|y l1']; simplify_eq/=; by eexists.
  - apply foreign_nodup.
  - apply foreign_main.
  - apply foreign_in.
  - eapply moved_uniq; [done..|apply foreign_moved].
Qed.
End foreign.

Lemma set_with_foreign H C key f free k0 :
  hash_chains H C → h_free H = f :: free → s_hash_get H key = None →
  key_at H (main_pos key (nelem_alloc H)) = Some k0 →
  main_pos key (nelem_alloc H) ≠ main_pos k0 (nelem_alloc H) →
  let '(n, H') := set_with key f (set_free H free) in added H H' key n.
Proof.
  intros HC Hf Hg Hk Hm. rewrite s_hash_get_None in Hg by by exists C.
  destruct (free_head _ _ _ _ HC Hf) as (Hfl & Hfn & Hff & Hnf & HfC).
  destruct (foreign_place H C key k0 HC Hk Hm) as (El0 & l1 & p & l2 & El).
  set (mp := main_pos key (nelem_alloc H)) in *. set (mp0 := main_pos k0 (nelem_alloc H)) in *.
  assert (mp < nelem_alloc H) as Hmp by by eapply key_at_lt.
  destruct (foreign_f H C key k0 f p free l1 l2 mp mp0 HC Hf Hk eq_refl eq_refl Hm El0 El) as (Hfm & _ & Hpf & Hpm & Hp).
  assert (p < nelem_alloc H) as Hpl by by eapply hc_lt.
  unfold set_with. cbn zeta. change (nelem_alloc (set_free H free)) with (nelem_alloc H).
  fold mp. change (hn_key (ihash_at (set_free H free) ?n)) with (key_at H n). rewrite Hk.
  change (ihash_at (set_free H free) mp) with (ihash_at H mp).
  change (nelem_alloc (set_refs _ _)) with (nelem_alloc H). fold mp0. rewrite decide_False by done.
  set (H0 := set_refs _ _).
  assert (prev_loop (nelem_alloc H) H0 mp mp0 = p) as ->.
  { pose proof (hc_seg _ _ HC mp0) as Hs.
    assert (head (C mp0) = Some mp0) as Eh by (destruct (hc_head _ _ HC mp0) as [E|[l E]]; rewrite E in *; [by destruct l1|done]).
    rewrite El, Eh in *. apply (prev_loop_spec H0 l1 p mp l2 (Some mp0) None); try done.
    - by apply (seg_ext H).
    - rewrite <-El. apply (hc_nodup _ _ HC).
    - pose proof (hc_length _ _ mp0 HC) as Hlen. rewrite El, length_app in Hlen. simpl in Hlen. lia. }
  set (H' := set_key mp _ _).
  assert (∀ i, key_at H' i = if decide (i = mp) then Some key
      else if decide (i = f) then Some k0 else key_at H i) as Ek.
  { intros i. unfold H'. rewrite key_at_set_key by by hsimp.
    rewrite !key_at_set_next, key_at_set_node by by hsimp. fold (key_at H mp). by rewrite Hk. }
  assert (∀ i, next_at H' i = if decide (i = mp) then None else if decide (i = p) then Some f
      else if decide (i = f) then next_at H mp else next_at H i) as En.
  { intros i. unfold H'. rewrite next_at_set_key, !next_at_set_next by by hsimp.
    by rewrite next_at_set_node by by hsimp. }
  assert (nelem_alloc H' = nelem_alloc H) as Ea by (unfold H'; by rewrite alloc_set_key, !alloc_set_next, alloc_set_node).
  pose proof (foreign_moved H H' C key k0 f p free l1 l2 mp mp0 HC Hf Hk eq_refl eq_refl Hm El0 El Ek En Ea eq_refl) as Hmv.
  split; try done.
  - rewrite Ek, decide_True; done.
  - by rewrite Hf.
  - exists (foreign_chain C f p l1 l2 mp mp0). by apply (foreign_chains H H' C key k0 f p free l1 l2 mp mp0).
  - apply (moved_stored _ _ _ _ _ Hmv). intros j k Hj. unfold H'.
    rewrite val_at_set_key, !val_at_set_next, val_at_set_node by by hsimp.
    destruct (decide (j = mp)) as [->|Hne]; [by rewrite decide_True|].
    split; [done|]. rewrite decide_False; [done|]. congruence.
Qed.

Lemma set_with_spec H key f free :
  hash_wf H → h_free H = f :: free → s_hash_get H key = None →
  let '(n, H') := set_with key f (set_free H free) in added H H' key n.
Proof.
  intros [C HC] Hf Hg. destruct (key_at H (main_pos key (nelem_alloc H))) as [k0|] eqn:Hk.
  - destruct (decide (main_pos key (nelem_alloc H) = main_pos k0 (nelem_alloc H))).
    + by eapply set_with_chain.
    + by eapply set_with_foreign.
  - by eapply set_with_empty.
Qed.
End set.
