(* ===== verification/SHashSpec.v ===== *)
(** * [common/s_hash.c]: what the table promises

    [s_hash_set] with its expansion, [s_hash_del], the iteration of
    [s_hash_next], and the interface [Table] that the clients of the table
    use. *)

From S2P Require Import Prelude SString SHash.
Local Open Scope nat_scope.

(** ** Expanding the table *)
Section expand.
Context {V : Type} `{!Inhabited V}.
Local Abbreviation hash := (s_hash V).
Implicit Types (H : hash) (i j m n f : nat) (nds : list (s_hash_node V)).

Lemma set_val_wf n v H : hash_wf H → hash_wf (set_val n v H).
Proof.
  intros [C HC]. exists C. destruct HC.
  split; rewrite ?alloc_set_val; try setoid_rewrite key_at_set_val; try done.
  intros m. apply (seg_ext H); [|done]. intros i _. by rewrite key_at_set_val, next_at_set_val.
Qed.

Lemma set_val_stored n key v H :
  hash_wf H → key_at H n = Some key →
  ∀ k w, stored (set_val n v H) k w ↔ if decide (k = key) then w = v else stored H k w.
Proof.
  intros [C HC] Hk k w. pose proof (key_at_lt _ _ _ Hk) as Hlt. unfold stored. split.
  - intros (i & Hi & <-). rewrite key_at_set_val in Hi. rewrite val_at_set_val by done.
    case_decide as E; case_decide as E'; subst; try congruence.
    + exfalso. apply E'. eapply (hc_uniq _ _ HC); [done..|apply iequal_refl].
    + exists i. by rewrite Hi.
  - case_decide as E.
    + intros ->. exists n. subst. rewrite key_at_set_val, val_at_set_val, decide_True by done. done.
    + intros (i & Hi & <-). exists i. rewrite key_at_set_val, val_at_set_val by done.
      rewrite decide_False; [done|]. intros ->. congruence.
Qed.

Lemma key_at_fresh n refs i : key_at (fresh_table n refs : hash) i = None.
Proof.
  unfold key_at, ihash_at, fresh_table. simpl.
  destruct (replicate n fresh_node !! i) eqn:E; [|done].
  by apply lookup_replicate in E as [-> _].
Qed.

Lemma fresh_table_wf n refs :
  0 < n → hash_wf (fresh_table n refs : hash) ∧ nelem_alloc (fresh_table n refs : hash) = n ∧
    length (h_free (fresh_table n refs : hash)) = n ∧
    ∀ k v, ¬ stored (fresh_table n refs : hash) k v.
Proof.
  intros Hn. assert (nelem_alloc (fresh_table n refs : hash) = n) as Ha by apply length_replicate.
  split_and!; [|done| |].
  - exists (λ _, []). split; rewrite ?Ha; try done.
    + simpl. rewrite reverse_Permutation. apply NoDup_seq.
    + intros i. rewrite key_at_fresh. simpl. rewrite reverse_Permutation, elem_of_seq. naive_solver lia.
    + by left.
    + constructor.
    + set_solver.
    + intros i k. by rewrite key_at_fresh.
    + intros i j k1 k2. by rewrite key_at_fresh.
  - simpl. by rewrite length_reverse, length_seq.
  - intros k v (i & Hi & _). by rewrite key_at_fresh in Hi.
Qed.

(** the keys of [nds] are pairwise different, and none is in [H] *)
Definition new_keys H nds : Prop :=
  (∀ i j a b k1 k2, nds !! i = Some a → nds !! j = Some b → hn_key a = Some k1 →
    hn_key b = Some k2 → iequal k1 k2 = true → i = j) ∧
  (∀ i k1 nd k2, key_at H i = Some k1 → nd ∈ nds → hn_key nd = Some k2 → iequal k1 k2 = false).

Lemma reinsert_spec gf nds H :
  (∀ H f free, h_free H = f :: free → gf H = Some (f, set_free H free)) →
  hash_wf H → new_keys H nds → length nds <= length (h_free H) →
  ∃ H', foldl (reinsert gf) (Some H) nds = Some H' ∧ hash_wf H' ∧
    nelem_alloc H' = nelem_alloc H ∧ length (h_free H) <= length (h_free H') + length nds ∧
    ∀ k v, stored H' k v ↔ stored H k v ∨ ∃ nd, nd ∈ nds ∧ hn_key nd = Some k ∧ hn_val nd = v.
Proof.
  intros Hgf. revert H. induction nds as [|nd nds IH]; intros H Hwf [Hk1 Hk2] Hlen.
  { exists H. split_and!; try done; [simpl; lia|]. set_solver. }
  simpl in Hlen. cbn [foldl]. unfold reinsert at 2. cbn [mbind option_bind].
  assert (∀ H1, (∀ k, (∃ i, key_at H1 i = Some k) → (∃ i, key_at H i = Some k) ∨ hn_key nd = Some k) →
    new_keys H1 nds) as Hnew.
  { intros H1 HH. split.
    - intros i j a b k1 k2 Ha Hb Hka Hkb E. specialize (Hk1 (S i) (S j) a b k1 k2 Ha Hb Hka Hkb E). lia.
    - intros i k1 nd' k2 Hi Hin Hk'. destruct (HH k1) as [(i' & Hi')|Hnd]; [by eauto| |].
      + eapply Hk2; [done| |done]. by right.
      + destruct (iequal k1 k2) eqn:E; [|done]. apply list_elem_of_lookup in Hin as (j & Hj).
        specialize (Hk1 0 (S j) nd nd' k1 k2 eq_refl Hj Hnd Hk' E). lia. }
  destruct (hn_key nd) as [key|] eqn:Hnd.
  2: { destruct (IH H) as (H' & -> & Hwf' & Ha & Hl & Hs); [done|apply Hnew; naive_solver|lia|].
       exists H'. split_and!; try done; [simpl; lia|]. intros k v. rewrite Hs. set_solver. }
  assert (s_hash_get H key = None) as Hg.
  { apply s_hash_get_None; [done|]. intros i k Hi. eapply Hk2; [done|left|done]. }
  rewrite Hg. destruct (h_free H) as [|f free] eqn:Hf; [simpl in Hlen; lia|].
  rewrite (Hgf H f free) by done. cbn [mbind option_bind].
  pose proof (set_with_spec H key f free Hwf Hf Hg) as Had.
  destruct (set_with key f (set_free H free)) as [n H1]. destruct Had as [Ha1 Hkn Hfr _ Hwf1 Hst].
  set (H2 := set_val n (hn_val nd) H1).
  assert (∀ k v, stored H2 k v ↔ stored H k v ∨ (k = key ∧ v = hn_val nd)) as Hs2.
  { intros k v. unfold H2. rewrite (set_val_stored n key) by done. case_decide as E.
    - subst k. split; [intros ->; by right|]. intros [(i & Hi & _)|[_ ->]]; [|done].
      exfalso. pose proof (Hk2 i key nd key Hi ltac:(left) Hnd) as E. by rewrite iequal_refl in E.
    - rewrite Hst. naive_solver. }
  destruct (IH H2) as (H' & -> & Hwf' & Ha & Hl & Hs).
  - by apply set_val_wf.
  - apply Hnew. intros k (i & Hi). destruct (proj1 (Hs2 k (val_at H2 i))) as [(j & Hj & _)|[-> _]].
    + by exists i.
    + left. by exists j.
    + by right.
  - change (h_free H2) with (h_free H1). rewrite Hf in Hfr. simpl in *. lia.
  - exists H'. split_and!; [done|done| | |].
    + unfold H2 in Ha. rewrite alloc_set_val in Ha. congruence.
    + change (h_free H2) with (h_free H1) in Hl. rewrite Hf in Hfr. simpl in *. lia.
    + intros k v. rewrite Hs, Hs2. set_solver.
Qed.

(** a free node, of a table that is as large as needed *)
Lemma i_get_free_node_spec H fuel :
  hash_wf H →
  ∃ H1 f free, i_get_free_node (S (S fuel)) H = Some (f, set_free H1 free) ∧
    h_free H1 = f :: free ∧ hash_wf H1 ∧ (∀ k v, stored H1 k v ↔ stored H k v).
Proof.
  intros Hwf. destruct (h_free H) as [|f free] eqn:Hf.
  2: { exists H, f, free. split_and!; try done. simpl. by rewrite Hf. }
  assert (0 < nelem_alloc H) as Hpos by (destruct Hwf as [C HC]; apply (hc_pos _ _ HC)).
  destruct (fresh_table_wf (2 * nelem_alloc H) (h_refs H)) as (Hwf0 & Ha0 & Hl0 & Hs0); [lia|].
  destruct (reinsert_spec (i_get_free_node (S fuel)) (h_nodes H)
    (fresh_table (2 * nelem_alloc H) (h_refs H))) as (H1 & E1 & Hwf1 & Ha1 & Hl1 & Hs1).
  - intros H' f free Hf'. simpl. by rewrite Hf'.
  - done.
  - split.
    + intros i j a b k1 k2 Ha Hb Hka Hkb E. destruct Hwf as [C HC].
      apply (hc_uniq _ _ HC i j k1 k2); [| |done]; unfold key_at, ihash_at; by rewrite ?Ha, ?Hb.
    + intros i k1. by rewrite key_at_fresh.
  - rewrite Hl0. unfold nelem_alloc. lia.
  - change (i_get_free_node (S (S fuel)) H) with
      (match h_free H with
       | f :: free => Some (f, set_free H free)
       | [] => H ← foldl (reinsert (i_get_free_node (S fuel)))
                 (Some (fresh_table (2 * nelem_alloc H) (h_refs H))) (h_nodes H);
               i_get_free_node (S fuel) H
       end).
    rewrite Hf, E1. cbn [mbind option_bind]. rewrite Hl0 in Hl1.
    destruct (h_free H1) as [|f free] eqn:Hf1; [unfold nelem_alloc in *; simpl in *; lia|].
    exists H1, f, free. split_and!; try done; [simpl; by rewrite Hf1|].
    intros k v. rewrite Hs1. split.
    + intros [?|(nd & Hin & Hk & Hv)]; [by apply Hs0 in H0|].
      apply list_elem_of_lookup in Hin as (i & Hi). exists i.
      unfold key_at, val_at, ihash_at. by rewrite Hi.
    + intros (i & Hk & Hv). right. unfold key_at, val_at, ihash_at in *.
      destruct (h_nodes H !! i) as [nd|] eqn:E; [|done]. exists nd. split_and!; try done.
      by eapply list_elem_of_lookup_2.
Qed.

Lemma s_hash_set_spec H key :
  hash_wf H →
  ∃ n H', s_hash_set H key = Some (n, H') ∧ hash_wf H' ∧
    ((s_hash_get H key = Some n ∧ H' = H) ∨
     (s_hash_get H key = None ∧ key_at H' n = Some key ∧
      ∀ k v, stored H' k v ↔ stored H k v ∨ (k = key ∧ v = val_at H' n))).
Proof.
  intros Hwf. unfold s_hash_set, s_hash_set_fuel. destruct (s_hash_get H key) as [n|] eqn:Hg.
  { exists n, H. eauto. }
  destruct (i_get_free_node_spec H 0 Hwf) as (H1 & f & free & -> & Hf & Hwf1 & Hs1).
  cbn [mbind option_bind].
  assert (s_hash_get H1 key = None) as Hg1.
  { apply s_hash_get_None; [done|]. intros i k Hk. destruct (proj1 (Hs1 k (val_at H1 i))) as (j & Hj & _).
    { by exists i. }
    eapply (proj1 (s_hash_get_None H key Hwf)); done. }
  pose proof (set_with_spec H1 key f free Hwf1 Hf Hg1) as Had.
  destruct (set_with key f (set_free H1 free)) as [n H']. destruct Had as [Ha Hk _ _ Hwf' Hst].
  exists n, H'. split_and!; [done|done|right]. split_and!; [done|done|].
  intros k v. by rewrite Hst, Hs1.
Qed.
Lemma s_hash_put_spec H key v :
  hash_wf H →
  ∃ H', s_hash_put H key v = Some H' ∧ hash_wf H' ∧
    ∀ k, s_hash_find H' k = if iequal key k then Some v else s_hash_find H k.
Proof.
  intros Hwf. unfold s_hash_put.
  destruct (s_hash_set_spec H key Hwf) as (n & H1 & -> & Hwf1 & Hcase). cbn [mbind option_bind].
  assert (∃ key', key_at H1 n = Some key' ∧ iequal key' key = true ∧
    ∀ k w, stored H1 k w → k = key' ∨ stored H k w) as (key' & Hk & Ek & Hold).
  { destruct Hcase as [[Hg ->]|(Hg & Hk & Hs)].
    - apply s_hash_get_spec in Hg as (k & ? & ?); [|done]. eauto.
    - exists key. split_and!; [done|apply iequal_refl|]. intros k w. rewrite Hs. naive_solver. }
  assert (∀ k w, k ≠ key' → stored H k w → stored H1 k w) as Hnew.
  { intros k w Hne Hs. destruct Hcase as [[_ ->]|(_ & _ & Hs1)]; [done|]. apply Hs1. by left. }
  eexists. split; [done|]. split; [by apply set_val_wf|]. intros k. apply option_eq. intros w.
  rewrite s_hash_find_spec by by apply set_val_wf.
  setoid_rewrite (set_val_stored n key' v H1 Hwf1 Hk). split.
  - intros (k' & Hs & E). case_decide as Hd; subst.
    + rewrite (iequal_trans key key' k); [done|by apply iequal_sym|done].
    + destruct (Hold _ _ Hs) as [?|Hs']; [done|]. destruct (iequal key k) eqn:Ekk.
      * exfalso. destruct Hs as (i & Hi & _), Hwf1 as [C HC]. destruct Hd.
        assert (i = n) as ->; [|congruence]. eapply (hc_uniq _ _ HC); [done..|].
        eapply iequal_trans; [done|]. apply iequal_sym. by eapply iequal_trans.
      * apply s_hash_find_spec; [done|]. eauto.
  - destruct (iequal key k) eqn:Ekk.
    + intros [= <-]. exists key'. rewrite decide_True by done. split; [done|]. by eapply iequal_trans.
    + intros (k' & Hs & E)%s_hash_find_spec; [|done]. exists k'. split; [|done].
      rewrite decide_False; [apply Hnew; [|done]|]; intros ->;
        rewrite (iequal_trans key key' k) in Ekk; try done; by apply iequal_sym.
Qed.
End expand.

(** ** [s_hash_del] *)
Section delete.
Context {V : Type} `{!Inhabited V}.
Local Abbreviation hash := (s_hash V).
Implicit Types (H : hash) (i j m n : nat) (l : list nat) (C : nat → list nat).

(** [H'] lost the key [k0], the node [fr] became free, and the chain of the
    main position [mp] became [l']; node [j] took over from node [r j] *)
Lemma removed_wf H C H' k0 mp fr l' (r : nat → nat) :
  hash_chains H C → nelem_alloc H' = nelem_alloc H →
  mp = main_pos k0 (nelem_alloc H) → h_free H' = fr :: h_free H →
  fr ∈ C mp → fr ∉ l' → NoDup l' → (∀ i, i ∈ l' ↔ i ∈ C mp ∧ i ≠ fr) →
  (l' = [] ∨ ∃ l, l' = mp :: l) →
  seg H' (head l') l' None →
  (∀ i, i ∉ C mp → key_at H' i = key_at H i ∧ next_at H' i = next_at H i) →
  key_at H' fr = None →
  (∀ i, i ∈ l' → r i ∈ C mp ∧ key_at H' i = key_at H (r i)) →
  (∀ i j, i ∈ l' → j ∈ l' → r i = r j → i = j) →
  hash_wf H'.
Proof.
  intros HC Ha Hmp Hfree Hfr Hfr' Hnd Hl' Hhd Hseg Hout Hkfr Hr Hinj.
  destruct (hc_main _ _ HC mp fr Hfr) as (kf & Hkf & _).
  assert (∀ m i, m ≠ mp → i ∈ C m → i ∉ C mp) as Hdis.
  { intros m i Hm Hi Hi'. destruct (hc_main _ _ HC m i Hi) as (k & ? & ?),
      (hc_main _ _ HC mp i Hi') as (k' & ? & ?). congruence. }
  assert (∀ i k, key_at H' i = Some k → (i ∈ l' ∧ key_at H (r i) = Some k) ∨
    (i ∉ C mp ∧ key_at H i = Some k)) as Hkey.
  { intros i k Hi. destruct (decide (i ∈ C mp)) as [Hin|Hin].
    - left. assert (i ∈ l') as Hil by (apply Hl'; split; [done|congruence]).
      split; [done|]. destruct (Hr i Hil). congruence.
    - right. destruct (Hout i Hin). split; [done|congruence]. }
  exists (λ m, if decide (m = mp) then l' else C m). split; rewrite ?Ha.
  - apply (hc_pos _ _ HC).
  - rewrite Hfree. constructor; [|apply (hc_free _ _ HC)]. intros [_ ?]%(hc_free_iff _ _ HC). congruence.
  - intros i. rewrite Hfree, elem_of_cons, (hc_free_iff _ _ HC). split.
    + intros [->|[Hlt Hn]]; [split; [by eapply key_at_lt|done]|]. split; [done|].
      destruct (decide (i ∈ C mp)) as [Hin|Hin]; [|by destruct (Hout i Hin) as [-> _]].
      destruct (hc_main _ _ HC mp i Hin) as (k & ? & _). congruence.
    + intros [Hlt Hn]. destruct (decide (i = fr)) as [->|Hne]; [by left|right]. split; [done|].
      destruct (decide (i ∈ C mp)) as [Hin|Hin]; [|by destruct (Hout i Hin) as [<- _]].
      assert (i ∈ l') as Hil by by apply Hl'. destruct (Hr i Hil) as [Hri E].
      destruct (hc_main _ _ HC mp (r i) Hri) as (k & ? & _). congruence.
  - intros m. case_decide as Hm; [done|]. apply (seg_ext H); [|apply (hc_seg _ _ HC)].
    intros i Hi. apply Hout. by eapply Hdis.
  - intros m. case_decide as Hm; [by subst|apply (hc_head _ _ HC)].
  - intros m. case_decide as Hm; [done|apply (hc_nodup _ _ HC)].
  - intros m i. case_decide as Hm; intros Hi.
    + destruct (Hr i Hi) as [Hri ->]. subst m. by apply (hc_main _ _ HC).
    + destruct (Hout i) as [-> _]; [by eapply Hdis|]. by apply (hc_main _ _ HC).
  - intros i k Hi. destruct (Hkey i k Hi) as [[Hil Hk]|[Hin Hk]].
    + destruct (Hr i Hil) as [Hri _]. destruct (hc_main _ _ HC mp (r i) Hri) as (k' & ? & Hm).
      assert (k' = k) as -> by congruence. by rewrite decide_True.
    + pose proof (hc_in _ _ HC i k Hk) as Hc. case_decide as E; [by rewrite E in Hc|done].
  - intros i j k1 k2 Hi Hj E.
    destruct (Hkey i k1 Hi) as [[Hil Hk]|[Hin Hk]], (Hkey j k2 Hj) as [[Hjl Hk']|[Hjn Hk']];
      pose proof (hc_uniq _ _ HC _ _ _ _ Hk Hk' E) as Eij; subst; try done.
    + by apply Hinj.
    + exfalso. apply Hjn. by apply Hr.
    + exfalso. apply Hin. by apply Hr.
Qed.

(** node [j] of [H], other than the node [n] of the key, went to [r j] *)
Lemma removed_stored H C H' key n k0 (r : nat → nat) :
  hash_chains H C → key_at H n = Some k0 → iequal k0 key = true →
  (∀ i k, key_at H' i = Some k ↔ ∃ j, key_at H j = Some k ∧ j ≠ n ∧ r j = i) →
  (∀ j k, key_at H j = Some k → j ≠ n → val_at H' (r j) = val_at H j) →
  ∀ k v, stored H' k v ↔ stored H k v ∧ iequal k key = false.
Proof.
  intros HC Hn Ek Hkey Hval k v. unfold stored. split.
  - intros (i & (j & Hj & Hne & <-)%Hkey & Hv). rewrite (Hval j k) in Hv by done.
    split; [by exists j|]. destruct (iequal k key) eqn:E; [|done]. destruct Hne.
    eapply (hc_uniq _ _ HC); [done..|]. eapply iequal_trans; [done|]. by apply iequal_sym.
  - intros [(j & Hj & Hv) E]. assert (j ≠ n) as Hne by (intros ->; congruence).
    exists (r j). split; [apply Hkey; by exists j|]. by rewrite (Hval j k).
Qed.

Definition removed H H' (key : s_hash_key) : Prop :=
  hash_wf H' ∧ nelem_alloc H' = nelem_alloc H ∧
  ∀ k v, stored H' k v ↔ stored H k v ∧ iequal k key = false.

(** the node has a predecessor on its chain *)
Lemma del_node_prev H C key k0 l0 p n l2 :
  hash_chains H C → key_at H n = Some k0 → iequal k0 key = true →
  let mp := main_pos k0 (nelem_alloc H) in
  C mp = l0 ++ p :: n :: l2 → removed H (del_node H mp (Some p) n) key.
Proof.
  intros HC Hk Ek mp El. pose proof (key_at_lt _ _ _ Hk) as Hnl.
  assert (p < nelem_alloc H) as Hpl by (eapply (hc_lt _ _ mp); [done|rewrite El; set_solver]).
  unfold del_node. fold (key_at H n). rewrite Hk. cbn zeta.
  change (hn_next (ihash_at (set_refs H _) n)) with (next_at H n).
  match goal with |- removed _ ?X _ => set (H' := X) end.
  pose proof (hc_nodup _ _ HC mp) as Hnd. pose proof (hc_seg _ _ HC mp) as Hs. rewrite El in Hnd, Hs.
  apply seg_app in Hs as (x & Hs1 & -> & Hup & Hs2). cbn [seg] in Hs2. destruct Hs2 as (_ & _ & Hs2).
  assert (p ≠ n ∧ n ∉ l0 ∧ n ∉ l2 ∧ p ∉ l0 ∧ p ∉ l2 ∧ NoDup (l0 ++ p :: l2)) as (Hpn & Hd1 & Hd2 & Hd3 & Hd4 & Hnd').
  { apply NoDup_app in Hnd as (H1 & H2 & H3). apply NoDup_cons in H3 as [H3 H4].
    apply NoDup_cons in H4 as [H4 H5]. split_and!; try set_solver. apply NoDup_app.
    split_and!; [done|set_solver|]. constructor; set_solver. }
  assert (∀ i, key_at H' i = if decide (i = n) then None else key_at H i) as Eky.
  { intros i. unfold H'. change (key_at (free_insert ?a ?b) i) with (key_at b i).
    rewrite key_at_set_key by (by rewrite alloc_set_next). by rewrite key_at_set_next. }
  assert (∀ i, next_at H' i = if decide (i = p) then next_at H n else next_at H i) as Enx.
  { intros i. unfold H'. change (next_at (free_insert ?a ?b) i) with (next_at b i).
    rewrite next_at_set_key. by rewrite next_at_set_next by done. }
  assert (∀ i, val_at H' i = val_at H i) as Evl.
  { intros i. unfold H'. change (val_at (free_insert ?a ?b) i) with (val_at b i).
    by rewrite val_at_set_key, val_at_set_next. }
  assert (nelem_alloc H' = nelem_alloc H) as Ea.
  { unfold H'. change (nelem_alloc (free_insert ?a ?b)) with (nelem_alloc b).
    by rewrite alloc_set_key, alloc_set_next. }
  split; [|split; [done|]].
  2: { apply (removed_stored H C H' key n k0 id); try done. intros i k. rewrite Eky. case_decide; naive_solver. }
  apply (removed_wf H C H' k0 mp n (l0 ++ p :: l2) id); try done.
  - rewrite El. set_solver.
  - set_solver.
  - intros i. rewrite El. set_solver.
  - destruct (hc_head _ _ HC mp) as [E|[l E]]; rewrite El in E; [by destruct l0|].
    right. destruct l0; simplify_eq/=; eauto.
  - replace (head (l0 ++ p :: l2)) with (head (C mp)) by (rewrite El; by destruct l0).
    rewrite El. apply seg_app. exists (Some p). split.
    + apply (seg_ext H); [|done]. intros i Hi. rewrite Eky, Enx, !decide_False by set_solver. done.
    + cbn [seg]. rewrite Eky, Enx, decide_False, decide_True by done. split_and!; [done..|].
      apply (seg_ext H); [|done]. intros i Hi. rewrite Eky, Enx, !decide_False by set_solver. done.
  - intros i Hi. rewrite El in Hi. rewrite Eky, Enx, !decide_False by set_solver. done.
  - by rewrite Eky, decide_True.
  - intros i Hi. rewrite El, Eky, decide_False by set_solver. set_solver.
Qed.

(** the node heads its chain, and the next one is copied over it *)
Lemma del_node_copy H C key k0 n m l2 :
  hash_chains H C → key_at H n = Some k0 → iequal k0 key = true →
  n = main_pos k0 (nelem_alloc H) →
  C n = n :: m :: l2 → removed H (del_node H n None n) key.
Proof.
  intros HC Hk Ek Emp El. pose proof (key_at_lt _ _ _ Hk) as Hnl.
  pose proof (hc_nodup _ _ HC n) as Hnd. pose proof (hc_seg _ _ HC n) as Hs. rewrite El in Hnd, Hs.
  cbn [seg head] in Hs. destruct Hs as (_ & _ & Hnm & [km Hkm] & Hs2).
  assert (m < nelem_alloc H) as Hml by by eapply key_at_lt.
  apply NoDup_cons in Hnd as [Hn1 Hnd]. pose proof Hnd as Hnd2. apply NoDup_cons in Hnd2 as [Hn2 Hnd2].
  unfold del_node. fold (key_at H n). rewrite Hk. cbn zeta.
  change (hn_next (ihash_at (set_refs H _) n)) with (next_at H n). rewrite Hnm.
  change (ihash_at (set_refs H ?x) m) with (ihash_at H m).
  match goal with |- removed _ ?X _ => set (H' := X) end.
  assert (∀ i, key_at H' i = if decide (i = m) then None else if decide (i = n) then key_at H m else key_at H i) as Eky.
  { intros i. unfold H'. change (key_at (free_insert ?a ?b) i) with (key_at b i).
    rewrite key_at_set_key by (by rewrite alloc_set_node). by rewrite key_at_set_node by done. }
  assert (∀ i, next_at H' i = if decide (i = n) then next_at H m else next_at H i) as Enx.
  { intros i. unfold H'. change (next_at (free_insert ?a ?b) i) with (next_at b i).
    rewrite next_at_set_key. by rewrite next_at_set_node by done. }
  assert (∀ i, val_at H' i = if decide (i = n) then val_at H m else val_at H i) as Evl.
  { intros i. unfold H'. change (val_at (free_insert ?a ?b) i) with (val_at b i).
    rewrite val_at_set_key. by rewrite val_at_set_node by done. }
  assert (nelem_alloc H' = nelem_alloc H) as Ea.
  { unfold H'. change (nelem_alloc (free_insert ?a ?b)) with (nelem_alloc b).
    by rewrite alloc_set_key, alloc_set_node. }
  assert (n ≠ m) as Hne by set_solver.
  split; [|split; [done|]].
  2: { apply (removed_stored H C H' key n k0 (λ j, if decide (j = m) then n else j)); try done.
       - intros i k. rewrite Eky. split.
         + case_decide as E1; [done|]. case_decide as E2.
           * intros ?. exists m. rewrite decide_True by done. naive_solver.
           * intros ?. exists i. by rewrite decide_False.
         + intros (j & Hj & Hjn & <-). repeat case_decide; congruence.
       - intros j k Hj Hjn. rewrite Evl. repeat case_decide; congruence. }
  apply (removed_wf H C H' k0 n m (n :: l2) (λ j, if decide (j = n) then m else j)); try done.
  - rewrite El. set_solver.
  - set_solver.
  - constructor; [set_solver|done].
  - intros i. rewrite El. set_solver.
  - eauto.
  - cbn [seg head]. rewrite Eky, Enx, decide_False, !decide_True by done. split_and!; [done|by eexists|].
    apply (seg_ext H); [|done]. intros i Hi. rewrite Eky, Enx, !decide_False by set_solver. done.
  - intros i Hi. rewrite El in Hi. rewrite Eky, Enx, !decide_False by set_solver. done.
  - by rewrite Eky, decide_True.
  - intros i Hi. rewrite El, Eky. rewrite (decide_False (P := i = m)) by set_solver.
    case_decide; [set_solver|]. set_solver.
  - intros i j Hi Hj. repeat case_decide; set_solver.
Qed.

(** the node is alone on its chain *)
Lemma del_node_last H C key k0 n :
  hash_chains H C → key_at H n = Some k0 → iequal k0 key = true →
  n = main_pos k0 (nelem_alloc H) →
  C n = [n] → removed H (del_node H n None n) key.
Proof.
  intros HC Hk Ek Emp El. pose proof (key_at_lt _ _ _ Hk) as Hnl.
  pose proof (hc_seg _ _ HC n) as Hs. rewrite El in Hs.
  cbn [seg head] in Hs. destruct Hs as (_ & _ & Hnm).
  unfold del_node. fold (key_at H n). rewrite Hk. cbn zeta.
  change (hn_next (ihash_at (set_refs H _) n)) with (next_at H n). rewrite Hnm.
  match goal with |- removed _ ?X _ => set (H' := X) end.
  assert (∀ i, key_at H' i = if decide (i = n) then None else key_at H i) as Eky.
  { intros i. unfold H'. change (key_at (free_insert ?a ?b) i) with (key_at b i).
    by rewrite key_at_set_key. }
  assert (∀ i, next_at H' i = next_at H i ∧ val_at H' i = val_at H i) as Enx.
  { intros i. unfold H'. change (next_at (free_insert ?a ?b) i) with (next_at b i).
    change (val_at (free_insert ?a ?b) i) with (val_at b i).
    by rewrite next_at_set_key, val_at_set_key. }
  assert (nelem_alloc H' = nelem_alloc H) as Ea.
  { unfold H'. change (nelem_alloc (free_insert ?a ?b)) with (nelem_alloc b). by rewrite alloc_set_key. }
  split; [|split; [done|]].
  2: { apply (removed_stored H C H' key n k0 id); try done.
       - intros i k. rewrite Eky. case_decide; naive_solver.
       - intros. by apply Enx. }
  apply (removed_wf H C H' k0 n n [] id); try done.
  - rewrite El. set_solver.
  - set_solver.
  - constructor.
  - intros i. rewrite El. set_solver.
  - by left.
  - intros i Hi. rewrite El in Hi. destruct (Enx i) as [-> _].
    rewrite Eky, decide_False by set_solver. done.
  - by rewrite Eky, decide_True.
  - set_solver.
Qed.

Lemma s_hash_del_removed H key : hash_wf H → removed H (s_hash_del H key) key.
Proof.
  intros Hwf. destruct (s_hash_get H key) as [n|] eqn:Hg.
  2: { assert (∀ i k, key_at H i = Some k → iequal k key = false) as Hn by by apply s_hash_get_None.
       assert (s_hash_del H key = H) as -> by by apply del_loop_none.
       split; [done|]. split; [done|]. intros k v. split; [|tauto]. intros (i & Hi & Hv).
       split; [by exists i|]. by eapply Hn. }
  apply s_hash_get_spec in Hg as (k0 & Hk0 & Ek0); [|done]. destruct Hwf as [C HC].
  pose proof (hc_in _ _ HC n k0 Hk0) as Hin. apply list_elem_of_split in Hin as (l1 & l2 & El).
  unfold s_hash_del. rewrite <-(iequal_main_pos k0 key) by done.
  set (mp := main_pos k0 (nelem_alloc H)) in *.
  pose proof (hc_seg _ _ HC mp) as Hs. pose proof (hc_head _ _ HC mp) as Hh.
  pose proof (hc_length _ _ mp HC) as Hlen. pose proof (hc_nodup _ _ HC mp) as Hnd.
  assert (head (C mp) = Some mp) as Eh.
  { destruct Hh as [E|[l E]]; rewrite E in *; [by destruct l1|done]. }
  rewrite Eh in Hs. rewrite El in Hs, Hlen, Hnd. rewrite length_app in Hlen. simpl in Hlen.
  rewrite (del_loop_some H _ l1 n l2 None key k0); [|done| |done|done|lia].
  2: { intros j k' Hj Hk'. destruct (iequal k' key) eqn:E'; [|done]. exfalso.
      assert (j = n) as ->.
      { eapply (hc_uniq _ _ HC); [done..|]. eapply iequal_trans; [done|]. by apply iequal_sym. }
      apply NoDup_app in Hnd as (_ & Hd & _). apply (Hd n Hj). left. }
  destruct (exists_last' l1) as [->|(l0 & p & ->)].
  - assert (n = mp) as E by (rewrite El in Eh; simpl in Eh; congruence). simpl.
    rewrite E in *. destruct l2 as [|m l2]; [by eapply del_node_last|by eapply del_node_copy].
  - rewrite last_snoc. rewrite <-app_assoc in El. by apply (del_node_prev H C key k0 l0 p n l2).
Qed.

Lemma s_hash_del_find H key k :
  hash_wf H →
  s_hash_find (s_hash_del H key) k = if iequal key k then None else s_hash_find H k.
Proof.
  intros Hwf. destruct (s_hash_del_removed H key Hwf) as (Hwf' & _ & Hs).
  apply option_eq. intros v. rewrite s_hash_find_spec by done. setoid_rewrite Hs. split.
  - intros (k' & [Hst E] & Ek). destruct (iequal key k) eqn:E'.
    + exfalso. rewrite (iequal_trans k' k key) in E; try done. by apply iequal_sym.
    + apply s_hash_find_spec; eauto.
  - destruct (iequal key k) eqn:E'; [done|]. intros (k' & Hst & Ek)%s_hash_find_spec; [|done].
    exists k'. split_and!; try done. destruct (iequal k' key) eqn:E; [|done].
    rewrite (iequal_trans key k' k) in E'; try done. by apply iequal_sym.
Qed.
End delete.

(** ** [s_hash_next] *)
Section iteration.
Context {V : Type} `{!Inhabited V}.
Local Abbreviation hash := (s_hash V).
Implicit Types (H : hash) (i n : nat).

(** the keys and values of an array of nodes, in its order *)
Definition pairs (nds : list (s_hash_node V)) : list (s_hash_key * V) :=
  omap (λ nd, k ← hn_key nd; Some (k, hn_val nd)) nds.

Lemma next_loop_spec nds i :
  match next_loop nds i with
  | None => pairs nds = []
  | Some (n, k) => i <= n ∧ ∃ nd nds', drop (n - i) nds = nd :: nds' ∧ hn_key nd = Some k ∧
      pairs nds = (k, hn_val nd) :: pairs nds'
  end.
Proof.
  revert i. induction nds as [|nd nds IH]; intros i; [done|]. cbn [next_loop].
  destruct (hn_key nd) as [k|] eqn:Hk.
  - split; [done|]. exists nd, nds. rewrite Nat.sub_diag. split_and!; try done.
    unfold pairs. cbn. by rewrite Hk.
  - assert (pairs (nd :: nds) = pairs nds) as -> by (unfold pairs; cbn; by rewrite Hk).
    specialize (IH (S i)). destruct (next_loop nds (S i)) as [[n k]|]; [|done].
    destruct IH as (Hn & nd' & nds' & Hd & ? & ?). split; [lia|]. exists nd', nds'.
    split_and!; try done. by replace (n - i) with (S (n - S i)) by lia.
Qed.

Lemma s_hash_iter_spec H fuel i :
  nelem_alloc H - i < fuel → s_hash_iter fuel H (Z.of_nat i) = pairs (drop i (h_nodes H)).
Proof.
  revert i. induction fuel as [|fuel IH]; intros i Hf; [lia|].
  cbn [s_hash_iter]. unfold s_hash_next. rewrite s_max_spec, Z.max_r, Nat2Z.id by lia.
  pose proof (next_loop_spec (drop i (h_nodes H)) i) as Hn.
  destruct (next_loop (drop i (h_nodes H)) i) as [[n k]|]; [|done].
  destruct Hn as (Hin & nd & nds' & Hd & Hk & ->). rewrite drop_drop in Hd.
  replace (i + (n - i)) with n in Hd by lia.
  assert (h_nodes H !! n = Some nd) as Hnd.
  { rewrite <-(Nat.add_0_r n), <-lookup_drop, Hd. done. }
  assert (drop (S n) (h_nodes H) = nds') as <-.
  { erewrite drop_S in Hd by done. congruence. }
  unfold ihash_at. rewrite Hnd. cbn [default]. f_equal.
  replace (Z.of_nat n + 1)%Z with (Z.of_nat (S n)) by lia. apply IH.
  apply lookup_lt_Some in Hnd. unfold nelem_alloc in *. lia.
Qed.

Lemma s_hash_elems_pairs H : s_hash_elems H = pairs (h_nodes H).
Proof. apply (s_hash_iter_spec H _ 0). lia. Qed.

Lemma pairs_stored H k v : (k, v) ∈ pairs (h_nodes H) ↔ stored H k v.
Proof.
  unfold pairs, stored. rewrite list_elem_of_omap. split.
  - intros (nd & Hin & E). apply list_elem_of_lookup in Hin as (i & Hi). exists i.
    unfold key_at, val_at, ihash_at. rewrite Hi. simpl. destruct (hn_key nd); naive_solver.
  - intros (i & Hk & Hv). unfold key_at, val_at, ihash_at in *.
    destruct (h_nodes H !! i) as [nd|] eqn:E; [|done]. simpl in *. exists nd.
    split; [by eapply list_elem_of_lookup_2|]. rewrite Hk. simpl. by rewrite Hv.
Qed.

(** a walk over the table meets every element, and no key twice *)
Lemma pairs_NoDup H : hash_wf H → NoDup (fst <$> pairs (h_nodes H)).
Proof.
  intros [C HC]. assert (∀ i j a b k1 k2, h_nodes H !! i = Some a → h_nodes H !! j = Some b →
    hn_key a = Some k1 → hn_key b = Some k2 → iequal k1 k2 = true → i = j) as Hu.
  { intros i j a b k1 k2 Ha Hb Hka Hkb E.
    apply (hc_uniq _ _ HC i j k1 k2); [| |done]; unfold key_at, ihash_at; by rewrite ?Ha, ?Hb. }
  clear HC. revert Hu. generalize (h_nodes H). intros nds Hu.
  induction nds as [|nd nds IH]; [constructor|].
  assert (NoDup (fst <$> pairs nds)) as Hnd.
  { apply IH. intros i j a b k1 k2 Ha Hb ???. cut (S i = S j); [lia|]. by eapply Hu. }
  unfold pairs. cbn [omap list_omap]. destruct (hn_key nd) as [k|] eqn:Hk; [|done]. cbn.
  constructor; [|done]. intros ((k' & v) & -> & Hin)%list_elem_of_fmap.
  apply list_elem_of_omap in Hin as (nd' & Hin & E). destruct (hn_key nd') eqn:Hk'; simplify_eq/=.
  apply list_elem_of_lookup in Hin as (j & Hj).
  specialize (Hu 0 (S j) nd nd' k' k' eq_refl Hj Hk Hk' (iequal_refl _)). lia.
Qed.
End iteration.

(** ** The table as a finite map
    A client uses keys of one kind: numbers, ids or addresses. *)
Class KeyKind (K : Type) `{Countable K} := {
  mk_key : K → s_hash_key;
  get_key : s_hash_key → option K;
  get_mk_key a : get_key (mk_key a) = Some a;
  mk_get_key k a : get_key k = Some a → k = mk_key a;
  mk_key_equal k a : iequal k (mk_key a) = true → k = mk_key a
}.

Definition numKey : KeyKind Z.
Proof.
  refine {| mk_key := KNum; get_key k := match k with KNum n => Some n | _ => None end |};
    [done|intros [] ?; naive_solver|].
  intros [] a; simpl; try done. intros; zbool. by subst.
Defined.

Definition voidpKey : KeyKind Z.
Proof.
  refine {| mk_key := KVoidp; get_key k := match k with KVoidp n => Some n | _ => None end |};
    [done|intros [] ?; naive_solver|].
  intros [] a; simpl; try done. intros; zbool. by subst.
Defined.

#[export] Instance idKey : KeyKind s_id.
Proof.
  refine {| mk_key := KId; get_key k := match k with KId n => Some n | _ => None end |};
    [done|intros [] ?; naive_solver|].
  intros [| |[x y]|] [x' y']; simpl; try done. intros; zbool. simpl in *. by subst.
Defined.

Section table_map.
Context {K V : Type} `{HK : KeyKind K} `{!Inhabited V}.
Local Abbreviation hash := (s_hash V).
Implicit Types (T : hash) (a : K).

(** the elements of the kind [K] that a walk over the table meets *)
Definition table_elems T : list (K * V) :=
  omap (λ kv : s_hash_key * V, a ← get_key kv.1; Some (a, kv.2)) (s_hash_elems T).
Definition table_map T : gmap K V := list_to_map (table_elems T).

Definition table_put T a (v : V) : hash := default T (s_hash_put T (mk_key a) v).
Definition table_del T a : hash := s_hash_del T (mk_key a).
Definition table_find T a : option V := s_hash_find T (mk_key a).

Lemma table_elems_stored T a v : (a, v) ∈ table_elems T ↔ stored T (mk_key a) v.
Proof.
  unfold table_elems. rewrite <-pairs_stored, <-s_hash_elems_pairs, list_elem_of_omap. split.
  - intros ([k w] & Hin & E). simpl in E. destruct (get_key k) eqn:Ek; simplify_eq/=.
    by apply mk_get_key in Ek as ->.
  - intros Hin. eexists. split; [done|]. simpl. by rewrite get_mk_key.
Qed.

Lemma table_elems_NoDup T : hash_wf T → NoDup (fst <$> table_elems T).
Proof.
  intros Hwf. apply pairs_NoDup in Hwf. rewrite <-s_hash_elems_pairs in Hwf.
  unfold table_elems. induction (s_hash_elems T) as [|[k v] l IH]; [constructor|].
  cbn in Hwf. apply NoDup_cons in Hwf as [Hk Hnd]. cbn.
  destruct (get_key k) as [a|] eqn:Ek; [|by apply IH]. cbn. constructor; [|by apply IH].
  intros ([b w] & -> & Hin)%list_elem_of_fmap. apply list_elem_of_omap in Hin as ([k' w'] & Hin & E).
  simpl in E. destruct (get_key k') eqn:Ek'; simplify_eq/=. apply Hk, list_elem_of_fmap.
  exists (k', w). split; [|done]. apply mk_get_key in Ek, Ek'. simpl. congruence.
Qed.

Lemma table_map_lookup T a : hash_wf T → table_map T !! a = table_find T a.
Proof.
  intros Hwf. apply option_eq. intros v. unfold table_map.
  rewrite <-elem_of_list_to_map by by apply table_elems_NoDup.
  rewrite table_elems_stored. unfold table_find. rewrite s_hash_find_spec by done. split.
  - intros ?. exists (mk_key a). split; [done|]. apply iequal_refl.
  - intros (k & Hs & ->%mk_key_equal). done.
Qed.

Lemma mk_key_iequal a b : iequal (mk_key a) (mk_key b) = bool_decide (a = b).
Proof.
  case_bool_decide as E; [subst; apply iequal_refl|]. apply not_true_iff_false.
  intros Hk%mk_key_equal. apply E.
  pose proof (get_mk_key a) as E1. rewrite Hk, get_mk_key in E1. congruence.
Qed.

Lemma table_put_spec T a v :
  hash_wf T → hash_wf (table_put T a v) ∧ table_map (table_put T a v) = <[a := v]> (table_map T).
Proof.
  intros Hwf. unfold table_put.
  destruct (s_hash_put_spec T (mk_key a) v Hwf) as (T' & -> & Hwf' & Hf). split; [done|].
  apply map_eq. intros b. simpl. rewrite table_map_lookup, lookup_insert by done.
  unfold table_find. rewrite Hf, mk_key_iequal. rewrite table_map_lookup by done.
  case_decide; case_bool_decide; done.
Qed.

Lemma table_del_spec T a :
  hash_wf T → hash_wf (table_del T a) ∧ table_map (table_del T a) = delete a (table_map T).
Proof.
  intros Hwf. pose proof (s_hash_del_removed T (mk_key a) Hwf) as (Hwf' & _).
  split; [done|]. apply map_eq. intros b. rewrite table_map_lookup, lookup_delete by done.
  unfold table_find, table_del. rewrite s_hash_del_find, mk_key_iequal by done.
  rewrite table_map_lookup by done. case_decide; case_bool_decide; done.
Qed.

Lemma table_elems_map T : hash_wf T → table_elems T ≡ₚ map_to_list (table_map T).
Proof.
  intros Hwf. unfold table_map. rewrite map_to_list_to_map; [done|]. by apply table_elems_NoDup.
Qed.

Lemma table_create_spec n : hash_wf (s_hash_create n : hash) ∧ table_map (s_hash_create n : hash) = ∅.
Proof.
  destruct (fresh_table_wf (V := V) (Z.to_nat (s_max (Z.of_nat n) (Z.of_nat S_HASH_MIN_NELEM_ALLOC))) ∅)
    as (Hwf & _ & _ & Hs); [rewrite s_max_spec; unfold S_HASH_MIN_NELEM_ALLOC; lia|].
  split; [done|]. apply map_eq. intros a. rewrite lookup_empty, table_map_lookup by done.
  destruct (table_find _ a) eqn:E; [|done].
  apply s_hash_find_spec in E as (k & Hk & _); [|done]. by apply Hs in Hk.
Qed.
End table_map.

(** ** The interface of a table
    What the clients use: a table is a finite map, walked in some order. *)
Class Table (K V T : Type) `{Countable K} := {
  tbl_wf : T → Prop;
  tbl_map : T → gmap K V;
  tbl_new : nat → T;
  tbl_get : T → K → option V;
  tbl_put : T → K → V → T;
  tbl_del : T → K → T;
  tbl_elems : T → list (K * V)
}.

Class TableLaws (K V T : Type) `{Table K V T} := {
  tbl_new_ok n : tbl_wf (tbl_new n) ∧ tbl_map (tbl_new n) = ∅;
  tbl_get_ok t k : tbl_wf t → tbl_get t k = tbl_map t !! k;
  tbl_put_ok t k v : tbl_wf t → tbl_wf (tbl_put t k v) ∧ tbl_map (tbl_put t k v) = <[k := v]> (tbl_map t);
  tbl_del_ok t k : tbl_wf t → tbl_wf (tbl_del t k) ∧ tbl_map (tbl_del t k) = delete k (tbl_map t);
  tbl_elems_ok t : tbl_wf t → tbl_elems t ≡ₚ map_to_list (tbl_map t)
}.

#[export] Instance s_hash_table {K V} `{KeyKind K} `{!Inhabited V} : Table K V (s_hash V) := {
  tbl_wf := hash_wf;
  tbl_map := table_map;
  tbl_new := s_hash_create;
  tbl_get := table_find;
  tbl_put := table_put;
  tbl_del := table_del;
  tbl_elems := table_elems
}.

#[export] Instance s_hash_table_laws {K V} `{KeyKind K} `{!Inhabited V} :
  TableLaws K V (s_hash V).
Proof.
  split; cbn.
  - apply table_create_spec.
  - intros t k Hw. symmetry. by apply table_map_lookup.
  - apply table_put_spec.
  - apply table_del_spec.
  - apply table_elems_map.
Qed.

(** the map itself, for computing with keys that [s_hash] has no instance for *)
#[export] Instance gmap_table {K V} `{Countable K} : Table K V (gmap K V) := {
  tbl_wf _ := True;
  tbl_map m := m;
  tbl_new _ := ∅;
  tbl_get m k := m !! k;
  tbl_put m k v := <[k := v]> m;
  tbl_del m k := delete k m;
  tbl_elems m := map_to_list m
}.
#[export] Instance gmap_table_laws {K V} `{Countable K} : TableLaws K V (gmap K V).
Proof. by split. Qed.

(** ** Sequences of operations *)
Section operations.
Context {K V T : Type} `{HT : TableLaws K V T}.

Inductive tbl_op := TPut (k : K) (v : V) | TDel (k : K).

Definition run_tbl_op (t : T) (o : tbl_op) : T :=
  match o with TPut k v => tbl_put t k v | TDel k => tbl_del t k end.
Definition spec_tbl_op (m : gmap K V) (o : tbl_op) : gmap K V :=
  match o with TPut k v => <[k := v]> m | TDel k => delete k m end.

Lemma run_tbl_ops n ops :
  let t := foldl run_tbl_op (tbl_new n) ops in
  let m := foldl spec_tbl_op ∅ ops in
  tbl_wf t ∧ (∀ k, tbl_get t k = m !! k) ∧ tbl_elems t ≡ₚ map_to_list m.
Proof using HT.
  cbn zeta. destruct (tbl_new_ok (T := T) n) as [Hw Hm].
  assert (tbl_wf (foldl run_tbl_op (tbl_new n : T) ops) ∧
    tbl_map (foldl run_tbl_op (tbl_new n : T) ops) = foldl spec_tbl_op ∅ ops) as [Hw' Hm'].
  { revert Hw Hm. generalize (tbl_new n : T) as t, (∅ : gmap K V) as m.
    induction ops as [|o ops IH]; intros t m Hw Hm; [done|]. cbn [foldl]. apply IH.
    - destruct o; [by apply tbl_put_ok|by apply tbl_del_ok].
    - subst m. destruct o; [by apply tbl_put_ok|by apply tbl_del_ok]. }
  split_and!; [done| |].
  - intros k. by rewrite tbl_get_ok, Hm'.
  - rewrite <-Hm'. by apply tbl_elems_ok.
Qed.
End operations.

(** C9. The hash table is a finite map: after any sequence of [s_hash_set]
    (with the write of its slot) and [s_hash_del] on a new table of any size,
    through collisions, moved nodes and expansions, [s_hash_get] finds for
    every key what a finite map holds after the same operations, and the walk
    of [s_hash_next] meets exactly its elements, each once.  Keys are ids; the
    instances [numKey] and [voidpKey] give the same for numbers and
    addresses. *)
Theorem hash_ops_refine {V} `{!Inhabited V} n (ops : list (tbl_op (K := s_id) (V := V))) :
  let t := foldl run_tbl_op (s_hash_create n : s_hash V) ops in
  let m := foldl spec_tbl_op ∅ ops in
  hash_wf t ∧ (∀ k, table_find t k = m !! k) ∧ table_elems t ≡ₚ map_to_list m.
Proof. exact (run_tbl_ops (T := s_hash V) n ops). Qed.

(** C39. [s_hash_set] always returns a slot: from every sound table, full or
    not, it ends (the insertions it makes while it expands never expand again)
    with a node that holds a key equal to the one asked for, and every other
    element is where a lookup finds it. *)
Theorem hash_set_returns {V} `{!Inhabited V} (H : s_hash V) key v :
  hash_wf H →
  ∃ n H', s_hash_set H key = Some (n, H') ∧ hash_wf H' ∧ s_hash_get H' key = Some n ∧
    ∀ k w, iequal key k = false → s_hash_find (set_val n v H') k = Some w ↔ s_hash_find H k = Some w.
Proof.
  intros Hwf. destruct (s_hash_put_spec H key v Hwf) as (H2 & E & Hwf2 & Hf).
  destruct (s_hash_set_spec H key Hwf) as (n & H' & Es & Hwf' & Hc). exists n, H'.
  unfold s_hash_put in E. rewrite Es in E. cbn in E. simplify_eq.
  split_and!; [done|done| |].
  - destruct Hc as [[? ->]|(_ & Hk & _)]; [done|]. apply s_hash_get_spec; [done|].
    exists key. split; [done|apply iequal_refl].
  - intros k w Hne. by rewrite Hf, Hne.
Qed.

Lemma hash_set_returns_witness :
  ∃ n H', s_hash_set (s_hash_create 4 : s_hash nat) (KNum 33) = Some (n, H') ∧ hash_wf H' ∧
    s_hash_get H' (KNum 33) = Some n ∧
    ∀ k w, iequal (KNum 33) k = false →
      s_hash_find (set_val n 5 H') k = Some w ↔ s_hash_find (s_hash_create 4 : s_hash nat) k = Some w.
Proof. apply hash_set_returns. apply fresh_table_wf. vm_compute. lia. Defined.
