(* ===== verification/Config.v ===== *)
(** * [common/s_config.c]: the configuration file

    The parser walks the mapped file with an index [cur]; its state is here
    the bytes from [cur] to the end of the file, so that a test [cur >= len]
    is a test for the empty list.  The arrays of regions and elements are the
    lists that [SArray] shows an [s_array] to hold; [config_region]
    pointers are indices.  [s_file_reader] maps the file; what it holds is the
    argument of [s_config_create]. *)

From S2P Require Import Prelude SString.
Local Open Scope Z_scope.

Inductive val_flags := DONTKNOWN | INT_VALUE | STR_VALUE.
#[export] Instance val_flags_eq_dec : EqDecision val_flags.
Proof. solve_decision. Defined.

(** the union of [struct config_elem] *)
Inductive config_val := Ival (i : Z) | Sval (s : s_string).

Record config_elem := CElem { ce_key : s_string; ce_val : config_val; ce_flags : val_flags }.
Record config_region := CRegion { cr_key : s_string; cr_elems : list config_elem }.
Record s_config := SConfig {
  cf_regions : list config_region;
  cf_curr_region : option nat;
  cf_iter_curr : Z
}.

(** ** The parser *)

Definition is_sep (c : Z) : bool := c_isspace c || (c =? 58) || (c =? 61).

(** [check_key_val]: the characters up to the next separator, and the rest *)
Fixpoint check_key_val (l : list Z) : list Z * list Z :=
  match l with
  | [] => ([], [])
  | c :: l' => if is_sep c then ([], l) else let '(k, r) := check_key_val l' in (c :: k, r)
  end.

Fixpoint skip_comment (l : list Z) : list Z :=
  match l with
  | [] => []
  | c :: l' => if negb (c =? 13) && negb (c =? 10) then skip_comment l' else l
  end.

Definition str_of (l : list Z) : s_string := s_string_create_len l (Z.of_nat (length l)).

(** [s_array_push] of an element in the region at index [r] *)
Definition push_elem (regions : list config_region) (r : nat) (e : config_elem) : list config_region :=
  alter (λ reg, CRegion (cr_key reg) (cr_elems reg ++ [e])) r regions.

(** [None]: a syntax error (the C function destroys the config and returns
    [NULL]); reaching the end of the file anywhere is no error *)
Inductive parse_result := PDone (regions : list config_region) | PError | PFuel.

(** from [label_next_line], with [region] at index [r] *)
Fixpoint parse_line (fuel : nat) (regions : list config_region) (r : nat) (l : list Z) : parse_result :=
  match fuel with
  | O => PFuel
  | S fuel =>
      match c_skip_space l with
      | [] => PDone regions
      | c :: l' =>
          if c =? 35 then parse_line fuel regions r (skip_comment (c :: l'))
          else
            let '(key, l) := check_key_val (c :: l') in
            let key := str_of key in
            match c_skip_space l with
            | [] => PDone regions
            | tmp :: l =>
                if tmp =? 58 then
                  parse_line fuel (regions ++ [CRegion key []]) (length regions) l
                else if negb (tmp =? 61) then PError
                else
                  match c_skip_space l with
                  | [] => PDone regions
                  | c :: l' =>
                      let '(val, l) := check_key_val (c :: l') in
                      let regions := push_elem regions r (CElem key (Sval (str_of val)) DONTKNOWN) in
                      parse_line fuel regions r l
                  end
            end
      end
  end.

Definition default_name : list Z := [100; 101; 102; 97; 117; 108; 116].
Definition default_region : config_region := CRegion (s_string_create default_name) [].

(** every line consumes a character, so that the length of the file bounds
    their number; [None]: [NULL] *)
Definition s_config_create (file : list Z) : option s_config :=
  match parse_line (S (length file)) [default_region] 0 file with
  | PDone regions => Some (SConfig regions None 0)
  | _ => None
  end.

(** ** Queries *)

Fixpoint find_region (regions : list config_region) (name : s_string) (i : nat) : option nat :=
  match regions with
  | [] => None
  | r :: regions => if s_string_equal (cr_key r) name then Some i else find_region regions name (S i)
  end.

Definition s_config_select_region (c : s_config) (name : s_string) : Z * s_config :=
  match find_region (cf_regions c) name 0 with
  | Some i => (1, SConfig (cf_regions c) (Some i) (cf_iter_curr c))
  | None => (0, c)
  end.

Fixpoint find_elem (elems : list config_elem) (key : s_string) : option nat :=
  match elems with
  | [] => None
  | e :: elems => if s_string_equal (ce_key e) key then Some 0%nat else S <$> find_elem elems key
  end.

Definition set_elem (c : s_config) (r i : nat) (e : config_elem) : s_config :=
  SConfig (alter (λ reg, CRegion (cr_key reg) (<[i := e]> (cr_elems reg))) r (cf_regions c))
    (cf_curr_region c) (cf_iter_curr c).

Definition curr_region (c : s_config) : option (nat * config_region) :=
  r ← cf_curr_region c; reg ← cf_regions c !! r; Some (r, reg).

Definition s_config_read_int (c : s_config) (key : s_string) : Z * s_config :=
  match curr_region c with
  | None => (-1, c)
  | Some (r, reg) =>
      match (i ← find_elem (cr_elems reg) key; e ← cr_elems reg !! i; Some (i, e)) with
      | None => (-1, c)
      | Some (i, CElem k v f) =>
          match f, v with
          | INT_VALUE, Ival n => (n, c)
          | DONTKNOWN, Sval s =>
              let n := c_atoi (s_string_data_p s) in
              (n, set_elem c r i (CElem k (Ival n) INT_VALUE))
          | _, _ => (-1, c)
          end
      end
  end.

(** [None]: [NULL] *)
Definition s_config_read_string (c : s_config) (key : s_string) : option s_string * s_config :=
  match curr_region c with
  | None => (None, c)
  | Some (r, reg) =>
      match (i ← find_elem (cr_elems reg) key; e ← cr_elems reg !! i; Some (i, e)) with
      | None => (None, c)
      | Some (i, CElem k v f) =>
          match f, v with
          | STR_VALUE, Sval s => (Some s, c)
          | DONTKNOWN, Sval s => (Some s, set_elem c r i (CElem k v STR_VALUE))
          | _, _ => (None, c)
          end
      end
  end.

Definition s_config_iter_begin (c : s_config) : s_config :=
  SConfig (cf_regions c) (cf_curr_region c) 0.

Definition s_config_iter_next (c : s_config) : option s_string * s_config :=
  if (cf_iter_curr c <? 0) || (Z.of_nat (length (cf_regions c)) <=? cf_iter_curr c) then (None, c)
  else
    (cr_key <$> cf_regions c !! Z.to_nat (cf_iter_curr c),
     SConfig (cf_regions c) (cf_curr_region c) (cf_iter_curr c + 1)).

(** the strings that [s_config_destroy] drops *)
Definition s_config_destroy (c : s_config) : list s_string :=
  concat ((λ reg, cr_key reg ::
    concat ((λ e, ce_key e ::
      match ce_val e with
      | Sval s => if decide (ce_flags e = INT_VALUE) then [] else [s]
      | Ival _ => []
      end) <$> cr_elems reg)) <$> cf_regions c).

(** ** Termination *)
Section termination.

Lemma c_skip_space_length l : (length (c_skip_space l) <= length l)%nat.
Proof. induction l as [|c l IH]; simpl; [done|]. destruct (c_isspace c); simpl; lia. Qed.

Lemma skip_comment_length l : (length (skip_comment l) <= length l)%nat.
Proof. induction l as [|c l IH]; simpl; [done|]. destruct (_ && _); simpl; lia. Qed.

Lemma check_key_val_length l : (length (check_key_val l).2 <= length l)%nat.
Proof.
  induction l as [|c l IH]; simpl; [done|]. destruct (is_sep c); simpl; [lia|].
  destruct (check_key_val l). simpl in *. lia.
Qed.

Lemma parse_line_fuel fuel regions r l :
  (length l < fuel)%nat → parse_line fuel regions r l ≠ PFuel.
Proof.
  revert regions r l. induction fuel as [|fuel IH]; intros regions r l Hl; [lia|]. cbn [parse_line].
  pose proof (c_skip_space_length l) as H1. destruct (c_skip_space l) as [|c l1]; [done|].
  simpl in H1. destruct (c =? 35) eqn:Ec; zbool.
  { subst c. apply IH. pose proof (skip_comment_length l1). simpl. lia. }
  pose proof (check_key_val_length (c :: l1)) as H2.
  destruct (check_key_val (c :: l1)) as [k l2]. simpl in H2.
  pose proof (c_skip_space_length l2) as H3. destruct (c_skip_space l2) as [|d l3]; [done|].
  simpl in H3. destruct (d =? 58); [apply IH; lia|]. destruct (negb (d =? 61)); [done|].
  pose proof (c_skip_space_length l3) as H4. destruct (c_skip_space l3) as [|e l4]; [done|].
  pose proof (check_key_val_length (e :: l4)) as H5.
  destruct (check_key_val (e :: l4)) as [v l5]. apply IH. simpl in *. lia.
Qed.
End termination.

(** ** Printing a configuration, as the files of the repository lay it out

    Before each line there may be lines of comment and empty lines, a line is
    indented as one likes, and there may be white space around the '=' and
    before the ':'.  A name is one word: of what the comment at the top of
    the C file shows, [mserver 1:] is refused ([documented_layout_refused]). *)
Section printing.

(** a comment with the white space before its '#'; the space of a line: the
    comments before it, its indentation, and what is before and after its sign *)
Definition comment : Type := list Z * list Z.
Record decor := Decor { d_comments : list comment; d_indent : list Z; d_before : list Z; d_after : list Z }.
(** a key and its value; a region with its name, keys and values *)
Abbreviation entry := (decor * (list Z * list Z))%type.
Abbreviation region := (decor * list Z * list entry)%type.

Definition print_comments (cs : list comment) : list Z := concat ((λ c, c.1 ++ 35 :: c.2 ++ [10]) <$> cs).
Definition print_decor (d : decor) : list Z := print_comments (d_comments d) ++ d_indent d.
Definition print_entry (e : entry) : list Z :=
  print_decor e.1 ++ e.2.1 ++ d_before e.1 ++ 61 :: d_after e.1 ++ e.2.2 ++ [10].
Definition print_region (r : region) : list Z :=
  print_decor r.1.1 ++ r.1.2 ++ d_before r.1.1 ++ 58 :: concat (print_entry <$> r.2).
(** the entries of the default region come first *)
Definition print_config (es : list entry) (c : list region) (tail : list comment) : list Z :=
  concat (print_entry <$> es) ++ concat (print_region <$> c) ++ print_comments tail.

Definition blank (l : list Z) : Prop := Forall (λ c, c_isspace c = true) l.
Definition comment_ok (c : comment) : Prop := blank c.1 ∧ Forall (λ x, x ≠ 13 ∧ x ≠ 10) c.2.
Definition decor_ok (d : decor) : Prop :=
  Forall comment_ok (d_comments d) ∧ blank (d_indent d) ∧ blank (d_before d) ∧ blank (d_after d).
Definition word (l : list Z) : Prop := l ≠ [] ∧ Forall (λ c, is_sep c = false) l.
Definition name_ok (l : list Z) : Prop := word l ∧ head l ≠ Some 35.
Definition entry_ok (e : entry) : Prop := decor_ok e.1 ∧ name_ok e.2.1 ∧ word e.2.2.
Definition region_ok (r : region) : Prop := decor_ok r.1.1 ∧ name_ok r.1.2 ∧ Forall entry_ok r.2.

Definition elem_of_entry (e : entry) : config_elem :=
  CElem (str_of e.2.1) (Sval (str_of e.2.2)) DONTKNOWN.
Definition region_of (r : region) : config_region :=
  CRegion (str_of r.1.2) (elem_of_entry <$> r.2).

Lemma sep_space c : is_sep c = false → c_isspace c = false.
Proof. unfold is_sep. intros. by zbool. Qed.
Lemma space_sep c : c_isspace c = true → is_sep c = true.
Proof. unfold is_sep. by intros ->. Qed.

Lemma skip_space_word w l : word w → c_skip_space (w ++ l) = w ++ l.
Proof.
  intros [Hne Hw]. destruct w as [|c w]; [done|]. apply Forall_cons in Hw as [Hc _].
  simpl. by rewrite sep_space.
Qed.
Lemma skip_space_blank b l : blank b → c_skip_space (b ++ l) = c_skip_space l.
Proof. induction 1 as [|c b Hc Hb IH]; cbn; [done|]. by rewrite Hc. Qed.

Lemma check_key_val_word w c l :
  Forall (λ c, is_sep c = false) w → is_sep c = true → check_key_val (w ++ c :: l) = (w, c :: l).
Proof.
  intros Hw Hc. induction Hw as [|d w Hd Hw IH]; simpl; [by rewrite Hc|]. by rewrite Hd, IH.
Qed.
(** a word, white space, and the sign [c] *)
Lemma check_key_val_sign w b c l :
  Forall (λ c, is_sep c = false) w → blank b → is_sep c = true → check_key_val (w ++ b ++ c :: l) = (w, b ++ c :: l).
Proof.
  intros Hw Hb Hc. destruct Hb as [|d b Hd Hb]; [by apply check_key_val_word|].
  apply (check_key_val_word w d (b ++ c :: l)); [done|by apply space_sep].
Qed.

Lemma skip_comment_line t l : Forall (λ x, x ≠ 13 ∧ x ≠ 10) t → skip_comment (t ++ 10 :: l) = 10 :: l.
Proof.
  induction 1 as [|c t [H1 H2] Ht IH]; cbn; [done|]. by rewrite (proj2 (Z.eqb_neq c 13)), (proj2 (Z.eqb_neq c 10)).
Qed.

(** white space in front of a line means nothing *)
Lemma parse_line_blank fuel regions r b l : blank b → parse_line fuel regions r (b ++ l) = parse_line fuel regions r l.
Proof. intros Hb. destruct fuel; [done|]. cbn [parse_line]. by rewrite skip_space_blank. Qed.
Lemma parse_line_nl fuel regions r l : parse_line fuel regions r (10 :: l) = parse_line fuel regions r l.
Proof. by destruct fuel. Qed.

Lemma parse_comments cs fuel regions r l :
  Forall comment_ok cs → parse_line (length cs + fuel) regions r (print_comments cs ++ l) = parse_line fuel regions r l.
Proof.
  unfold print_comments. induction 1 as [|[b t] cs [Hb Ht] Hcs IH]; [done|]. cbn [fmap list_fmap concat fst snd length Nat.add] in *.
  rewrite <-!app_assoc, parse_line_blank by done. cbn [parse_line app c_skip_space].
  change (c_isspace 35) with false. cbn [Z.eqb Pos.eqb]. cbv iota. cbn [skip_comment]. change (negb (35 =? 13) && negb (35 =? 10)) with true.
  cbv iota. rewrite <-app_assoc. cbn [app]. rewrite skip_comment_line by done. by rewrite parse_line_nl.
Qed.
Lemma parse_decor d fuel regions r l :
  decor_ok d → parse_line (length (d_comments d) + fuel) regions r (print_decor d ++ l) = parse_line fuel regions r l.
Proof.
  intros (Hc & Hi & _). unfold print_decor. rewrite <-app_assoc, parse_comments by done. by rewrite parse_line_blank.
Qed.

Definition entry_cost (e : entry) : nat := length (d_comments e.1) + 1.

(** the parser at an entry, and at the name of a region *)
Lemma parse_entry fuel regions r l e :
  entry_ok e →
  parse_line (entry_cost e + fuel) regions r (print_entry e ++ l) =
  parse_line fuel (push_elem regions r (elem_of_entry e)) r l.
Proof.
  destruct e as [d [k v]]. intros (Hd & [[Hkne Hk] Hh] & Hvw). cbn [fst snd] in *.
  unfold print_entry, entry_cost. cbn [fst snd]. rewrite <-!app_assoc, <-Nat.add_assoc, parse_decor by done.
  destruct Hd as (_ & _ & Hb & Ha). cbn [Nat.add parse_line]. rewrite skip_space_word by done.
  pose proof (check_key_val_sign k (d_before d) 61 ((d_after d ++ v ++ [10]) ++ l) Hk Hb eq_refl) as E.
  destruct k as [|c k]; [done|]. cbn [app] in *. rewrite E.
  rewrite (proj2 (Z.eqb_neq c 35)) by naive_solver. rewrite skip_space_blank by done. cbn [c_skip_space].
  change (c_isspace 61) with false. cbn [Z.eqb Pos.eqb negb].
  rewrite <-!app_assoc, skip_space_blank, skip_space_word by done. destruct Hvw as [Hvne Hv].
  pose proof (check_key_val_word v 10 l Hv eq_refl) as Ev.
  destruct v as [|x v]; [done|]. cbn [app] in *. rewrite Ev. by rewrite parse_line_nl.
Qed.

Lemma parse_region_name d fuel regions r l n :
  decor_ok d → name_ok n →
  parse_line (length (d_comments d) + S fuel) regions r (print_decor d ++ n ++ d_before d ++ 58 :: l) =
  parse_line fuel (regions ++ [CRegion (str_of n) []]) (length regions) l.
Proof.
  intros Hd [[Hkne Hk] Hh]. rewrite parse_decor by done. destruct Hd as (_ & _ & Hb & _). cbn [parse_line].
  rewrite skip_space_word by done. pose proof (check_key_val_sign n (d_before d) 58 l Hk Hb eq_refl) as E.
  destruct n as [|c n]; [done|]. cbn [app] in *. rewrite E.
  rewrite (proj2 (Z.eqb_neq c 35)) by naive_solver. by rewrite skip_space_blank.
Qed.

Definition entries_cost (es : list entry) : nat := sum_list_with entry_cost es.

Lemma parse_entries es fuel regions name pre l :
  Forall entry_ok es →
  parse_line (entries_cost es + fuel) (regions ++ [CRegion name pre]) (length regions)
    (concat (print_entry <$> es) ++ l) =
  parse_line fuel (regions ++ [CRegion name (pre ++ (elem_of_entry <$> es))]) (length regions) l.
Proof.
  intros He. revert pre. unfold entries_cost. induction He as [|e es He Hes IH]; intros pre; cbn [fmap list_fmap concat].
  { by rewrite app_nil_r. }
  cbn [sum_list_with]. rewrite <-app_assoc, <-Nat.add_assoc, parse_entry by done.
  assert (push_elem (regions ++ [CRegion name pre]) (length regions) (elem_of_entry e) =
    regions ++ [CRegion name (pre ++ [elem_of_entry e])]) as ->.
  { unfold push_elem. rewrite alter_app_r_alt, Nat.sub_diag by done. done. }
  rewrite IH. do 3 f_equal. by rewrite <-app_assoc.
Qed.

Definition regions_cost (c : list region) : nat :=
  sum_list_with (λ r, length (d_comments r.1.1) + S (entries_cost r.2))%nat c.

Lemma parse_regions c fuel regions r l :
  Forall region_ok c →
  ∃ r', parse_line (regions_cost c + fuel) regions r (concat (print_region <$> c) ++ l) =
    parse_line fuel (regions ++ (region_of <$> c)) r' l.
Proof.
  intros Hc. revert regions r. unfold regions_cost. induction Hc as [|[[d n] es] c (Hd & Hn & He) Hc IH]; intros regions r.
  { exists r. by rewrite app_nil_r. }
  cbn [fmap list_fmap concat sum_list_with fst snd] in *. unfold print_region at 1. cbn [fst snd].
  rewrite <-!app_assoc. cbn [app].
  destruct (IH (regions ++ [CRegion (str_of n) (elem_of_entry <$> es)]) (length regions)) as [r' E]. exists r'.
  replace (length (d_comments d) + S (entries_cost es) + _ + fuel)%nat
    with (length (d_comments d) + S (entries_cost es +
      (sum_list_with (λ r, length (d_comments r.1.1) + S (entries_cost r.2))%nat c + fuel)))%nat by lia.
  rewrite parse_region_name by done. rewrite parse_entries by done. cbn [app]. rewrite E. f_equal. by rewrite <-app_assoc.
Qed.

(** enough fuel is as good as more *)
Lemma parse_line_mono fuel fuel' regions r l :
  (fuel <= fuel')%nat → parse_line fuel regions r l ≠ PFuel →
  parse_line fuel' regions r l = parse_line fuel regions r l.
Proof.
  revert fuel' regions r l. induction fuel as [|fuel IH]; intros fuel' regions r l Hf; [done|].
  destruct fuel' as [|fuel']; [lia|]. cbn [parse_line]. intros H.
  destruct (c_skip_space l) as [|c l1]; [done|].
  destruct (c =? 35); [apply IH; [lia|done]|]. destruct (check_key_val (c :: l1)) as [k l2].
  destruct (c_skip_space l2) as [|d l3]; [done|].
  destruct (d =? 58); [apply IH; [lia|done]|]. destruct (negb _); [done|].
  destruct (c_skip_space l3) as [|e l4]; [done|]. destruct (check_key_val (e :: l4)).
  apply IH; [lia|done].
Qed.
End printing.

(** ** Queries of a parsed file *)
Section queries.

Lemma find_elem_spec elems key i :
  find_elem elems key = Some i →
  ∃ e, elems !! i = Some e ∧ s_string_equal (ce_key e) key = true.
Proof.
  revert i. induction elems as [|e elems IH]; intros i; simpl; [done|].
  destruct (s_string_equal (ce_key e) key) eqn:E.
  - intros [= <-]. by exists e.
  - intros (j & Hj & ->)%fmap_Some. by apply IH.
Qed.

Lemma find_elem_insert elems key i e e' :
  elems !! i = Some e → ce_key e' = ce_key e → find_elem (<[i := e']> elems) key = find_elem elems key.
Proof.
  intros Hi Hk. revert i Hi. induction elems as [|a elems IH]; intros [|i] Hi; simplify_eq/=.
  - by rewrite Hk.
  - by rewrite (IH i).
Qed.

(** the elements carry their string until an integer is read from them *)
Definition elem_wf (e : config_elem) : Prop :=
  match ce_flags e, ce_val e with
  | INT_VALUE, Ival _ | DONTKNOWN, Sval _ | STR_VALUE, Sval _ => True
  | _, _ => False
  end.
Definition config_wf (c : s_config) : Prop :=
  Forall (λ reg, Forall elem_wf (cr_elems reg)) (cf_regions c).

Lemma set_elem_wf c r i e : config_wf c → elem_wf e → config_wf (set_elem c r i e).
Proof.
  intros Hc He. unfold config_wf, set_elem in *. simpl. apply Forall_lookup_2. intros j reg Hj.
  destruct (decide (j = r)) as [->|Hne].
  - rewrite list_lookup_alter, decide_True in Hj by done. destruct (cf_regions c !! r) as [reg'|] eqn:E; simplify_eq/=.
    eapply Forall_lookup_1 in E; [|done]. by apply Forall_insert.
  - rewrite list_lookup_alter, decide_False in Hj by congruence. exact (Forall_lookup_1 _ _ _ _ Hc Hj).
Qed.

Lemma config_read_int_wf c key : config_wf c → config_wf (s_config_read_int c key).2.
Proof.
  intros Hc. unfold s_config_read_int. repeat case_match; simplify_eq/=; try done.
  by apply set_elem_wf.
Qed.
Lemma read_string_wf c key : config_wf c → config_wf (s_config_read_string c key).2.
Proof.
  intros Hc. unfold s_config_read_string. repeat case_match; simplify_eq/=; try done.
  by apply set_elem_wf.
Qed.
End queries.

(** ** The properties *)

(** C38. A file in the layout of the configuration files of the repository is
    read as what it says: parsing what [print_config] prints - entries of the
    default region, regions with entries, comments, empty lines, any
    indentation and any white space around the signs - gives the default
    region and the printed regions, each with its keys and values in order, all
    still untyped.  The layout that the comment of the C file shows, with a
    name of two words, is another one and is refused. *)
Theorem s_config_roundtrip es c tail :
  Forall entry_ok es → Forall region_ok c → Forall comment_ok tail →
  s_config_create (print_config es c tail) =
    Some (SConfig (CRegion (s_string_create default_name) (elem_of_entry <$> es) :: (region_of <$> c)) None 0).
Proof.
  intros He Hc Ht. unfold s_config_create. set (file := print_config es c tail).
  pose proof (parse_entries es (regions_cost c + (length tail + 1)) [] (s_string_create default_name) []
    (concat (print_region <$> c) ++ print_comments tail) He) as E. cbn [app length] in E.
  destruct (parse_regions c (length tail + 1) [CRegion (s_string_create default_name) (elem_of_entry <$> es)] 0
    (print_comments tail) Hc) as [r' Er]. rewrite Er in E. clear Er.
  pose proof (parse_comments tail 1 ([CRegion (s_string_create default_name) (elem_of_entry <$> es)] ++ (region_of <$> c)) r' [] Ht) as Et.
  rewrite app_nil_r in Et. rewrite Et in E. clear Et.
  set (n := (entries_cost es + _)%nat) in E.
  change (parse_line n [default_region] 0 file =
    PDone ([CRegion (s_string_create default_name) (elem_of_entry <$> es)] ++ (region_of <$> c))) in E.
  assert (parse_line (S (length file) + n) [default_region] 0 file =
    PDone ([CRegion (s_string_create default_name) (elem_of_entry <$> es)] ++ (region_of <$> c))) as En.
  { rewrite (parse_line_mono n) by (lia || by rewrite E). exact E. }
  rewrite (parse_line_mono (S (length file))) in En; [by rewrite En|lia|]. apply parse_line_fuel. lia.
Qed.

(** "# c", " port = 1", "m-1:", "\tip=2", "#" *)
Definition sample_decor : decor := Decor [([], [32; 99])] [32] [32] [32].
Definition plain_decor : decor := Decor [] [10; 9] [] [].
Definition sample_entries : list (decor * (list Z * list Z)) := [(sample_decor, ([112; 111; 114; 116], [49]))].
Definition sample_regions : list (decor * list Z * list (decor * (list Z * list Z))) :=
  [(plain_decor, [109; 45; 49], [(plain_decor, ([105; 112], [50]))])].

Lemma s_config_roundtrip_witness :
  s_config_create (print_config sample_entries sample_regions [([], [])]) =
  Some (SConfig (CRegion (s_string_create default_name) (elem_of_entry <$> sample_entries) ::
    (region_of <$> sample_regions)) None 0).
Proof.
  apply s_config_roundtrip; repeat constructor; discriminate.
Defined.

(** finding: the layout that the comment at the top of the C file shows,
    "mserver 1:", is a syntax error, whatever follows *)
Lemma documented_layout_refused n x rest :
  name_ok n → is_sep x = false → s_config_create (n ++ 32 :: x :: rest) = None.
Proof.
  intros [Hw Hh] Hx. unfold s_config_create. cbn [parse_line]. rewrite skip_space_word by done. destruct Hw as [Hne Hw].
  pose proof (check_key_val_word n 32 (x :: rest) Hw eq_refl) as E. destruct n as [|c n]; [done|]. cbn [app] in *. rewrite E.
  rewrite (proj2 (Z.eqb_neq c 35)) by naive_solver.
  change (c_skip_space (32 :: x :: rest)) with (c_skip_space (x :: rest)). cbn [c_skip_space].
  rewrite (sep_space x Hx). unfold is_sep in Hx. apply orb_false_iff in Hx as [Hx H61]. apply orb_false_iff in Hx as [_ H58].
  by rewrite H58, H61.
Qed.
Example documented_mserver : s_config_create [109; 115; 101; 114; 118; 101; 114; 32; 49; 58; 10] = None.
Proof. apply (documented_layout_refused [109; 115; 101; 114; 118; 101; 114] 49 [58; 10]); [|done]. repeat constructor; discriminate. Qed.

(** The parser stops on every file: its loop, which goes back to the next
    line with a [goto], never runs more often than the file has characters. *)
Theorem s_config_parser_terminates file :
  parse_line (S (length file)) [default_region] 0 file ≠ PFuel.
Proof. apply parse_line_fuel. lia. Qed.

(** Reading a key as an integer fixes its type: reading it again gives
    the same number and changes nothing, and reading it as a string then
    fails. *)
Theorem s_config_read_int_again c key :
  config_wf c →
  let '(n, c') := s_config_read_int c key in
  s_config_read_int c' key = (n, c') ∧
  (c' ≠ c → s_config_read_string c' key = (None, c')).
Proof.
  intros Hwf. unfold s_config_read_int at 1. destruct (curr_region c) as [[r reg]|] eqn:Ec.
  2: { unfold s_config_read_int. by rewrite Ec. }
  destruct (find_elem (cr_elems reg) key) as [i|] eqn:Ei; cbn [mbind option_bind].
  2: { unfold s_config_read_int. rewrite Ec, Ei. done. }
  pose proof (find_elem_spec _ _ _ Ei) as ([k v f] & He & Hk). rewrite He.
  destruct f, v as [n|s]; cbn [mbind option_bind];
    try (unfold s_config_read_int; rewrite Ec, Ei; cbn; by rewrite He).
  set (e' := CElem k (Ival _) INT_VALUE). set (c' := set_elem c r i e').
  assert (curr_region c' = Some (r, CRegion (cr_key reg) (<[i := e']> (cr_elems reg)))) as Ec'.
  { unfold curr_region in *. unfold c', set_elem. cbn. destruct (cf_curr_region c) as [r'|]; [|done].
    cbn in *. destruct (cf_regions c !! r') as [reg'|] eqn:Er; [|done]. cbn in Ec. simplify_eq.
    rewrite list_lookup_alter, decide_True, Er by done. done. }
  assert (find_elem (<[i := e']> (cr_elems reg)) key = Some i) as Ei' by by erewrite find_elem_insert.
  assert (<[i := e']> (cr_elems reg) !! i = Some e') as He'.
  { apply list_lookup_insert_eq. by eapply lookup_lt_Some. }
  split; [unfold s_config_read_int|intros _; unfold s_config_read_string];
    rewrite Ec'; cbn [cr_elems]; rewrite Ei'; cbn; by rewrite He'.
Qed.

Definition sample_config : s_config :=
  SConfig [CRegion (str_of [109]) [CElem (str_of [112]) (Sval (str_of [56; 56])) DONTKNOWN]] (Some 0%nat) 0.

Lemma s_config_read_int_again_witness :
  (s_config_read_int sample_config (str_of [112])).1 = 88 ∧
  let '(n, c') := s_config_read_int sample_config (str_of [112]) in
  s_config_read_int c' (str_of [112]) = (n, c') ∧
  (c' ≠ sample_config → s_config_read_string c' (str_of [112]) = (None, c')).
Proof.
  split; [vm_compute; reflexivity|]. apply s_config_read_int_again.
  repeat constructor.
Defined.
