(* ===== verification/Net.v ===== *)
(** * [net/s_net.c]: connections

    The kernel is an argument of the model: the bytes that have arrived on
    the socket, and for every [read] and [write] what the call does, bounded
    by what the documentation of the calls promises (a [read] returns at most
    the bytes asked for, in order; a [write] takes a prefix).  The callback
    of [s_net_create] is an argument too.
    The write queue is any [Fifo] (see [SQueue]); the bytes of a queued
    packet are shared memory, [pkts], since one packet may sit in several
    queues. *)

From S2P Require Import Prelude SList Packet SQueue.
Local Open Scope Z_scope.

Definition DEFAULT_READ_BUFFER_SZ : Z := 1024.
Definition DEFAULT_PACKET_PENDING : Z := 32.

(** ** Receiving *)

Record read_buf := RBuf {
  rb_mem : list Z;     (* [read_buf], [read_buf_sz] bytes *)
  rb_p : Z;            (* [read_buf_p]: end of the data *)
  rb_curr : Z          (* [read_buf_curr]: start of the data *)
}.
Definition rb_sz (b : read_buf) : Z := Z.of_nat (length (rb_mem b)).

(** what happens at the next system call of the loop *)
Inductive read_event :=
| RRead (k : Z)              (* [read] returns at most [k] (at least one) bytes *)
| RIntr                      (* EINTR *)
| RErr                       (* another error *)
| RArrive (bs : list Z).     (* bytes come in *)

Definition arrivals (evs : list read_event) : list Z :=
  concat ((λ e, match e with RArrive bs => bs | _ => [] end) <$> evs).

Section receive.
Context (junk : Z).

(** [while(1) read(...)]; [sock] holds the bytes that have arrived.  The list
    of events is what happens until the next [epoll_wait]; when the loop ends
    the bytes that arrive later stay in the socket, and when the list ends,
    [read] has nothing to return (EAGAIN) *)
Fixpoint read_loop (b : read_buf) (sock : list Z) (evs : list read_event) : Z * read_buf * list Z :=
  match evs with
  | [] => (0, b, sock)
  | RArrive bs :: evs => read_loop b (sock ++ bs) evs
  | RIntr :: evs => read_loop b sock evs
  | RErr :: evs => (-1, b, sock ++ arrivals evs)
  | RRead k :: evs =>
      let room := rb_sz b - rb_p b in
      if room =? 0 then (0, b, sock ++ arrivals evs)     (* nread == 0 *)
      else
        match sock with
        | [] => (0, b, arrivals evs)                   (* EAGAIN *)
        | _ :: _ =>
            let n := Z.to_nat (s_min room (s_max 1 k)) in
            let bs := take n sock in
            read_loop (RBuf (splice (rb_p b) bs (rb_mem b)) (rb_p b + Z.of_nat (length bs)) (rb_curr b))
              (drop n sock) evs
        end
  end.

(** [ndata] is what [ioctl(FIONREAD)] reports, [None] when it fails *)
Definition iread_conn (b : read_buf) (sock : list Z) (ioctl_ok : bool) (evs : list read_event)
    : Z * read_buf * list Z :=
  let ndata := Z.of_nat (length sock) in
  if negb ioctl_ok then (-1, b, sock ++ arrivals evs)
  else if ndata <=? 0 then (-1, b, sock ++ arrivals evs)
  else
    let b :=
      if rb_sz b - rb_p b <? ndata then
        let sz := rb_p b + ndata in
        let buf_sz := s_roundup (sz * 2 + 1) 1024 in
        RBuf (splice 0 (take (Z.to_nat (rb_p b)) (rb_mem b)) (replicate (Z.to_nat buf_sz) (uchar junk)))
          (rb_p b) (rb_curr b)
      else b in
    read_loop b sock evs.

(** [memmove] of the incomplete packet to the start of the buffer *)
Definition compact (b : read_buf) : read_buf :=
  if 0 <? rb_curr b then
    let sz := rb_p b - rb_curr b in
    RBuf (splice 0 (slice (rb_curr b) sz (rb_mem b)) (rb_mem b)) sz 0
  else b.

Inductive next_result :=
| NextNone (b : read_buf)
| NextCrash                  (* the assertion, or the [NULL] dereference *)
| NextPkt (pkt : s_packet) (b : read_buf) (g : pool).

Definition inext_packet (b : read_buf) (g : pool) : next_result :=
  match s_packet_create_from junk g (drop (Z.to_nat (rb_curr b)) (rb_mem b)) (rb_p b - rb_curr b) with
  | CF_null => NextNone (compact b)
  | CF_assert | CF_null_deref => NextCrash
  | CF_packet pkt g => NextPkt pkt (RBuf (rb_mem b) (rb_p b) (rb_curr b + pk_size pkt)) g
  end.

(** the callback may keep the packet and use the pool *)
Context (callback : s_packet → pool → s_packet * pool).

(** [while(pkt)]: the packets handed to the callback; [None]: the process
    crashed *)
Fixpoint next_loop (fuel : nat) (b : read_buf) (g : pool) : option (list s_packet * read_buf * pool) :=
  match fuel with
  | O => None
  | S fuel =>
      match inext_packet b g with
      | NextNone b => Some ([], b, g)
      | NextCrash => None
      | NextPkt pkt b g =>
          let '(pkt', g) := callback pkt g in
          let '(_, g) := s_packet_drop g pkt' in
          '(pkts, b, g) ← next_loop fuel b g;
          Some (pkt :: pkts, b, g)
      end
  end.

(** the [EPOLLIN] branch of [s_net_poll]; a negative result closes the
    connection *)
Definition poll_in (b : read_buf) (sock : list Z) (g : pool) (evs : list read_event)
    : option (Z * list s_packet * read_buf * list Z * pool) :=
  let '(r, b, sock) := iread_conn b sock true evs in
  if r <? 0 then Some (r, [], b, sock, g)
  else
    '(pkts, b, g) ← next_loop (S (Z.to_nat (rb_p b))) b g;
    Some (0, pkts, b, sock, g).
End receive.

(** ** The byte stream as packets *)

(** the unread bytes *)
Definition unread (b : read_buf) : list Z := slice (rb_curr b) (rb_p b - rb_curr b) (rb_mem b).

Definition rb_wf (b : read_buf) : Prop :=
  0 <= rb_curr b <= rb_p b ∧ rb_p b <= rb_sz b.

(** what the size field of a packet says *)
Definition frame_len (l : list Z) : Z :=
  sint (le4 (byte_at l 0) (byte_at l 1) (byte_at l 2) (byte_at l 3)).

(** a packet on the wire: its size field is its length *)
Definition frame_ok (m : list Z) : Prop :=
  Forall is_byte m ∧ frame_len m = Z.of_nat (length m) ∧
  4 <= Z.of_nat (length m) <= S_PKT_HEAD_SIZE + S_PKT_MAX_SZ.

(** the bytes of a received packet *)
Definition pk_frame (p : s_packet) : list Z := take (Z.to_nat (pk_size p)) (pk_data p).

Section stream.
Context (junk : Z).
Implicit Types (b : read_buf) (l m : list Z).

Lemma unread_length b : rb_wf b → Z.of_nat (length (unread b)) = rb_p b - rb_curr b.
Proof. intros [? ?]. unfold unread, rb_sz in *. rewrite length_slice; lia. Qed.

Lemma s_roundup_ge n : n <= s_roundup n 1024.
Proof. by apply (s_roundup_ge_pow2 n 10). Qed.

Lemma slice_splice_prefix pos n src l :
  0 <= pos → 0 <= n → pos + n <= Z.of_nat (length l) →
  slice pos (n + Z.of_nat (length src)) (splice (pos + n) src l) = slice pos n l ++ src.
Proof.
  intros. unfold slice, splice.
  rewrite drop_app_le by (rewrite length_take; lia).
  rewrite skipn_firstn_comm. replace (Z.to_nat (pos + n) - Z.to_nat pos)%nat with (Z.to_nat n) by lia.
  rewrite app_assoc, take_app_le; [|rewrite !length_app, length_take, length_drop; lia].
  rewrite take_ge; [done|]. rewrite length_app, length_take, length_drop. lia.
Qed.

(** reading moves bytes from the socket to the buffer *)
Lemma read_loop_spec evs b sock :
  rb_wf b →
  let '(r, b', sock') := read_loop b sock evs in
  rb_wf b' ∧ unread b' ++ sock' = unread b ++ sock ++ arrivals evs.
Proof.
  revert b sock. induction evs as [|e evs IH]; intros b sock Hb; cbn [read_loop].
  { unfold arrivals. simpl. by rewrite app_nil_r. }
  destruct e as [k| | |bs].
  - destruct (_ =? 0) eqn:E; zbool; [done|].
    destruct sock as [|c sock]; [done|].
    change (arrivals (RRead k :: evs)) with (arrivals evs).
    set (n := Z.to_nat _). set (s := c :: sock) in *.
    set (b1 := RBuf _ _ _).
    assert (Z.of_nat (length (take n s)) <= rb_sz b - rb_p b) as Hn.
    { rewrite length_take. unfold n. rewrite s_min_spec, s_max_spec. destruct Hb. lia. }
    destruct Hb as [Hb1 Hb2]. unfold rb_sz in *.
    assert (rb_wf b1) as Hw.
    { split; unfold b1, rb_sz; cbn [rb_mem rb_p rb_curr]; [lia|].
      rewrite length_splice; lia. }
    specialize (IH b1 (drop n s) Hw). destruct (read_loop b1 (drop n s) evs) as [[r b'] sock'].
    destruct IH as [Hw' ->]. split; [done|].
    assert (unread b1 = unread b ++ take n s) as ->.
    { unfold unread, b1. cbn [rb_mem rb_p rb_curr].
      replace (rb_p b + Z.of_nat (length (take n s)) - rb_curr b) with
        (rb_p b - rb_curr b + Z.of_nat (length (take n s))) by lia.
      replace (rb_p b) with (rb_curr b + (rb_p b - rb_curr b)) at 2 by lia.
      apply slice_splice_prefix; lia. }
    rewrite <-app_assoc, (app_assoc (take n s)), take_drop. done.
  - by apply (IH b sock).
  - done.
  - specialize (IH b (sock ++ bs) Hb). destruct (read_loop b (sock ++ bs) evs) as [[r b'] sock'].
    destruct IH as [? ->]. split; [done|]. unfold arrivals. cbn [fmap list_fmap concat].
    by rewrite <-app_assoc.
Qed.

Lemma iread_conn_spec evs b sock ok :
  rb_wf b →
  let '(r, b', sock') := iread_conn junk b sock ok evs in
  rb_wf b' ∧ unread b' ++ sock' = unread b ++ sock ++ arrivals evs.
Proof.
  intros Hb. unfold iread_conn. destruct ok; [|done]. cbn [negb].
  destruct (_ <=? 0) eqn:E0; zbool; [done|]. destruct (_ <? _) eqn:E; zbool; [|by apply read_loop_spec].
  set (b1 := RBuf _ _ _). destruct Hb as [Hb1 Hb2]. unfold rb_sz in *.
  pose proof (s_roundup_ge ((rb_p b + Z.of_nat (length sock)) * 2 + 1)) as Hr.
  set (n := s_roundup _ _) in *.
  assert (length (take (Z.to_nat (rb_p b)) (rb_mem b)) = Z.to_nat (rb_p b)) as Hlt
    by (rewrite length_take; lia).
  assert (rb_wf b1) as Hw.
  { split; unfold b1, rb_sz; cbn [rb_mem rb_p rb_curr]; [lia|].
    rewrite length_splice; rewrite ?length_replicate; lia. }
  replace (unread b) with (unread b1); [by apply read_loop_spec|].
  unfold unread, b1, slice, splice. cbn [rb_mem rb_p rb_curr].
  change (Z.to_nat 0) with 0%nat. rewrite take_0. cbn [app].
  rewrite drop_app_le by lia. rewrite take_app_le by (rewrite length_drop; lia).
  rewrite skipn_firstn_comm, take_take. f_equal. lia.
Qed.

Lemma compact_spec b : rb_wf b → rb_wf (compact b) ∧ unread (compact b) = unread b.
Proof.
  intros [H1 H2]. unfold compact. destruct (0 <? rb_curr b) eqn:E; zbool; [|by split; [split|]].
  unfold rb_wf, rb_sz, unread in *. cbn [rb_mem rb_p rb_curr].
  assert (length (slice (rb_curr b) (rb_p b - rb_curr b) (rb_mem b)) = Z.to_nat (rb_p b - rb_curr b)) as Hl
    by (rewrite length_slice; lia).
  rewrite length_splice by lia. split; [lia|].
  rewrite Z.sub_0_r. replace (rb_p b - rb_curr b) with
    (Z.of_nat (length (slice (rb_curr b) (rb_p b - rb_curr b) (rb_mem b)))) at 1 by lia.
  apply slice_splice_eq; lia.
Qed.

(** a buffer that starts with a whole packet yields it *)
Lemma inext_packet_frame b g m l :
  rb_wf b → pool_wf g → frame_ok m → unread b = m ++ l →
  ∃ pkt g', inext_packet junk b g =
      NextPkt pkt (RBuf (rb_mem b) (rb_p b) (rb_curr b + Z.of_nat (length m))) g' ∧
    pool_wf g' ∧ block_ok pkt ∧ pk_ref_count pkt = 1 ∧ pk_frame pkt = m.
Proof.
  intros Hb Hg (Hm & Hfl & Hl4 & Hmax) Hu. pose proof (unread_length b Hb) as Hlen.
  rewrite Hu, length_app in Hlen. destruct Hb as [Hb1 Hb2]. unfold rb_sz in *.
  unfold inext_packet, s_packet_create_from.
  rewrite (proj2 (Z.ltb_ge _ _)) by lia.
  assert (take (length m) (drop (Z.to_nat (rb_curr b)) (rb_mem b)) = m) as Htm.
  { apply (f_equal (take (length m))) in Hu. rewrite take_app_length in Hu.
    unfold unread, slice in Hu. by rewrite take_take, Nat.min_l in Hu by lia. }
  set (l' := drop (Z.to_nat (rb_curr b)) (rb_mem b)) in *.
  assert (sint (le4 (byte_at l' 0) (byte_at l' 1) (byte_at l' 2) (byte_at l' 3)) = Z.of_nat (length m)) as ->.
  { rewrite <-Hfl. unfold frame_len. rewrite <-(take_drop (length m) l'), Htm.
    rewrite !byte_at_app_l by lia. done. }
  rewrite (proj2 (Z.leb_gt _ _)), (proj2 (Z.ltb_ge _ _)) by lia.
  destruct (s_packet_create_spec junk g (Z.of_nat (length m) - S_PKT_HEAD_SIZE))
    as (p & g' & -> & Hg' & (He & Hd & Hby) & (Hw1 & Hw2 & Hw3 & _) & Hs & _ & Href & _);
    [done|unfold S_PKT_HEAD_SIZE in *; lia|].
  assert (slice 0 (Z.of_nat (length m)) l' = m) as Hsl.
  { unfold slice. change (Z.to_nat 0) with 0%nat. by rewrite drop_0, Nat2Z.id. }
  eexists _, g'. split; [pkc; done|]. unfold block_ok, pk_frame. pkc. rewrite Hsl.
  rewrite length_splice by lia. split_and!; try done; try lia; [by apply Forall_splice|].
  unfold splice. change (Z.to_nat 0) with 0%nat. rewrite take_0, Nat2Z.id. cbn [app Nat.add].
    by rewrite take_app_length.
Qed.

(** a buffer that holds no whole packet yields none *)
Lemma inext_packet_none b g :
  Z.of_nat (length (unread b)) < 4 ∨
    (0 < frame_len (unread b) ∧ Z.of_nat (length (unread b)) < frame_len (unread b)) →
  rb_wf b → inext_packet junk b g = NextNone (compact b).
Proof.
  intros Hu Hb. pose proof (unread_length b Hb) as Hlen. destruct Hb as [Hb1 Hb2].
  unfold inext_packet, s_packet_create_from. rewrite Hlen in Hu.
  destruct (_ <? 4) eqn:E; zbool; [done|]. destruct Hu as [Hu|[H1 H2]]; [lia|].
  unfold frame_len, unread, slice in H1, H2.
  set (l' := drop (Z.to_nat (rb_curr b)) (rb_mem b)) in *.
  assert (∀ i, 0 <= i < 4 → byte_at (take (Z.to_nat (rb_p b - rb_curr b)) l') i = byte_at l' i) as Hby.
  { intros i Hi. unfold byte_at. rewrite lookup_take_lt by lia. done. }
  rewrite !Hby in H1, H2 by lia.
  by rewrite (proj2 (Z.leb_gt _ _)), (proj2 (Z.ltb_lt _ _)) by lia.
Qed.

(** a whole packet cannot be cut short *)
Definition incomplete l : Prop :=
  Z.of_nat (length l) < 4 ∨ (0 < frame_len l ∧ Z.of_nat (length l) < frame_len l).

Context (callback : s_packet → pool → s_packet * pool).
(** the callback gives back the packet it got and keeps the pool sound *)
Context (callback_ok : ∀ p g, pool_wf g → block_ok p → block_ok (callback p g).1 ∧ pool_wf (callback p g).2).

Lemma poll_loop_spec ms fuel b g l :
  rb_wf b → pool_wf g → Forall frame_ok ms → unread b = concat ms ++ l → incomplete l →
  (length ms < fuel)%nat →
  ∃ pkts b' g', next_loop junk callback fuel b g = Some (pkts, b', g') ∧
    rb_wf b' ∧ pool_wf g' ∧ pk_frame <$> pkts = ms ∧ unread b' = l.
Proof using callback_ok.
  intros Hb Hg Hms. revert fuel b g Hb Hg.
  induction Hms as [|m ms Hm Hms IH]; intros fuel b g Hb Hg Hu Hl Hf;
    (destruct fuel as [|fuel]; [simpl in Hf; lia|]); cbn [next_loop].
  - simpl in Hu. rewrite inext_packet_none; [|by rewrite Hu|done].
    destruct (compact_spec b Hb) as [Hw Hc]. eexists [], _, g. rewrite Hc. done.
  - cbn [concat] in Hu. rewrite <-app_assoc in Hu.
    destruct (inext_packet_frame b g m (concat ms ++ l) Hb Hg Hm Hu) as (p & g1 & -> & Hg1 & Hbp & _ & Hfp).
    destruct (callback_ok p g1 Hg1 Hbp) as [Hbp' Hg2]. destruct (callback p g1) as [p' g2].
    pose proof (s_packet_drop_pool g2 p' Hg2 Hbp') as Hg3. destruct (s_packet_drop g2 p') as [p'' g3].
    pose proof (unread_length b Hb) as Hlen. rewrite Hu, length_app in Hlen.
    destruct (IH fuel (RBuf (rb_mem b) (rb_p b) (rb_curr b + Z.of_nat (length m))) g3)
      as (pkts & b' & g' & -> & Hb' & Hg' & Hfr & Hu').
    + destruct Hb as [? ?]. split; cbn; [lia|done].
    + done.
    + unfold unread, slice in *. cbn [rb_mem rb_p rb_curr] in *.
      replace (Z.to_nat (rb_curr b + Z.of_nat (length m))) with (Z.to_nat (rb_curr b) + length m)%nat
        by (destruct Hb; lia).
      rewrite <-drop_drop.
      replace (Z.to_nat (rb_p b - (rb_curr b + Z.of_nat (length m)))) with
        (Z.to_nat (rb_p b - rb_curr b) - length m)%nat by (destruct Hb; lia).
      rewrite <-skipn_firstn_comm. rewrite Hu. by rewrite drop_app_length.
    + done.
    + simpl in Hf. lia.
    + exists (p :: pkts), b', g'. cbn. split_and!; try done. by rewrite Hfp, Hfr.
Qed.

Lemma incomplete_prefix l m rest :
  frame_ok m → m = l ++ rest → rest ≠ [] → incomplete l.
Proof.
  intros (_ & Hf & Hl & _) -> Hr. unfold incomplete.
  destruct (decide (Z.of_nat (length l) < 4)); [by left|right].
  rewrite length_app in *. destruct rest as [|c rest]; [done|]. cbn [length] in *.
  assert (frame_len l = frame_len (l ++ c :: rest)) as ->; [|lia].
  unfold frame_len. by rewrite !byte_at_app_l by lia.
Qed.

(** a prefix of a stream of packets is some whole packets and a part of the next *)
Lemma split_frames ms u rest :
  Forall frame_ok ms → u ++ rest = concat ms →
  ∃ ms1 ms2 l, ms = ms1 ++ ms2 ∧ u = concat ms1 ++ l ∧ l ++ rest = concat ms2 ∧ incomplete l.
Proof.
  intros Hms. revert u. induction Hms as [|m ms Hm Hms IH]; intros u Hu.
  - destruct u; [|done]. exists [], [], []. split_and!; try done. by left.
  - cbn [concat] in Hu. destruct (decide (length m <= length u)%nat) as [Hle|Hgt].
    + assert (take (length m) u = m) as Ht.
      { apply (f_equal (take (length m))) in Hu. rewrite take_app_length in Hu.
        by rewrite take_app_le in Hu. }
      destruct (IH (drop (length m) u)) as (ms1 & ms2 & l & -> & Hd & Hr & Hl).
      { apply (f_equal (drop (length m))) in Hu. rewrite drop_app_length in Hu.
        by rewrite drop_app_le in Hu. }
      exists (m :: ms1), ms2, l. split_and!; try done. cbn [concat].
      rewrite <-app_assoc, <-Hd. by rewrite <-(take_drop (length m) u), Ht at 1.
    + exists [], (m :: ms), u. split_and!; try done.
      apply (incomplete_prefix u m (drop (length u) m)); [done| |].
      * apply (f_equal (take (length u))) in Hu. rewrite take_app_length in Hu.
        rewrite take_app_le in Hu by lia. rewrite Hu at 1. by rewrite take_drop.
      * intros E. apply (f_equal length) in E. rewrite length_drop in E. simpl in E. lia.
Qed.

(** ** A connection between two system calls *)

Record rstate := RState { rs_buf : read_buf; rs_sock : list Z; rs_pool : pool }.

(** rounds of [s_net_poll] on the connection, up to the first error; the
    packets they hand out, and whether the connection was closed *)
Fixpoint poll_ins (s : rstate) (rounds : list (list read_event)) : option (bool * list s_packet * rstate) :=
  match rounds with
  | [] => Some (true, [], s)
  | evs :: rounds =>
      '(r, pkts, b, sock, g) ← poll_in junk callback (rs_buf s) (rs_sock s) (rs_pool s) evs;
      if r <? 0 then Some (false, pkts, RState b sock g)
      else
        '(ok, pkts', s) ← poll_ins (RState b sock g) rounds;
        Some (ok, pkts ++ pkts', s)
  end.

Definition all_arrivals (rounds : list (list read_event)) : list Z := concat (arrivals <$> rounds).

Lemma frames_count_le ms : Forall frame_ok ms → (length ms <= length (concat ms))%nat.
Proof.
  induction 1 as [|m ms (_ & _ & Hl & _) Hms IH]; cbn [concat length]; [lia|].
  rewrite length_app. lia.
Qed.

Lemma poll_in_spec b sock g evs ms rest :
  rb_wf b → pool_wf g → Forall frame_ok ms →
  unread b ++ sock ++ arrivals evs ++ rest = concat ms →
  ∃ r pkts b' sock' g' ms1 ms2, poll_in junk callback b sock g evs = Some (r, pkts, b', sock', g') ∧
    rb_wf b' ∧ pool_wf g' ∧ ms = ms1 ++ ms2 ∧ pk_frame <$> pkts = ms1 ∧
    unread b' ++ sock' ++ rest = concat ms2 ∧ (0 <= r → incomplete (unread b')).
Proof using callback_ok.
  intros Hb Hg Hms Hu. unfold poll_in. pose proof (iread_conn_spec evs b sock true Hb) as Hr.
  destruct (iread_conn junk b sock true evs) as [[r b1] sock1]. destruct Hr as [Hb1 Hu1].
  assert (unread b1 ++ sock1 ++ rest = concat ms) as Hu2.
  { rewrite <-Hu, (app_assoc (unread b1)), Hu1, <-!app_assoc. done. }
  destruct (r <? 0) eqn:E; zbool.
  { eexists r, [], b1, sock1, g, [], ms. split_and!; try done. lia. }
  destruct (split_frames ms (unread b1) (sock1 ++ rest) Hms Hu2) as (ms1 & ms2 & l & -> & Hu3 & Hl & Hi).
  apply Forall_app in Hms as [Hms1 Hms2].
  destruct (poll_loop_spec ms1 (S (Z.to_nat (rb_p b1))) b1 g l Hb1 Hg Hms1 Hu3 Hi)
    as (pkts & b' & g' & -> & Hb' & Hg' & Hf & Hu').
  { pose proof (frames_count_le ms1 Hms1). pose proof (unread_length b1 Hb1) as Hlen.
    rewrite Hu3, length_app in Hlen. destruct Hb1. lia. }
  cbn [mbind option_bind]. eexists 0, pkts, b', sock1, g', ms1, ms2. rewrite Hu'. done.
Qed.

Lemma poll_ins_gen rounds s ms :
  rb_wf (rs_buf s) → pool_wf (rs_pool s) → Forall frame_ok ms →
  unread (rs_buf s) ++ rs_sock s ++ all_arrivals rounds = concat ms →
  ∃ ok pkts s' ms2, poll_ins s rounds = Some (ok, pkts, s') ∧ ms = (pk_frame <$> pkts) ++ ms2 ∧
    (ok = true → unread (rs_buf s') ++ rs_sock s' = concat ms2 ∧
      (rounds ≠ [] → incomplete (unread (rs_buf s')))).
Proof using callback_ok.
  revert s ms. induction rounds as [|evs rounds IH]; intros s ms Hb Hg Hms Hu.
  - unfold all_arrivals in Hu. simpl in Hu. rewrite app_nil_r in Hu.
    eexists true, [], s, ms. split_and!; done.
  - unfold all_arrivals in Hu. cbn [fmap list_fmap concat] in Hu. fold (all_arrivals rounds) in Hu.
    destruct (poll_in_spec (rs_buf s) (rs_sock s) (rs_pool s) evs ms _ Hb Hg Hms Hu)
      as (r & pkts & b' & sock' & g' & ms1 & ms2 & E & Hb' & Hg' & -> & Hf & Hu' & Hi).
    cbn [poll_ins]. rewrite E. cbn [mbind option_bind]. apply Forall_app in Hms as [_ Hms2].
    destruct (r <? 0) eqn:Er; zbool.
    { eexists false, pkts, _, ms2. rewrite Hf. done. }
    destruct (IH (RState b' sock' g') ms2) as (ok & pkts' & s' & ms3 & E' & -> & Hend); try done.
    rewrite E'. cbn [mbind option_bind]. eexists ok, _, s', ms3.
    rewrite fmap_app, Hf, <-app_assoc. split_and!; try done. intros Hok.
    destruct (Hend Hok) as [Hend1 Hend2]. split; [done|]. intros _.
    destruct rounds; [|by apply Hend2]. cbn in E'. simplify_eq/=. by apply Hi.
Qed.

(** an incomplete rest that is all of the packets is none *)
Lemma incomplete_nil u ms : incomplete u → Forall frame_ok ms → u = concat ms → ms = [].
Proof.
  intros Hi Hms ->. destruct ms as [|m ms]; [done|]. exfalso. apply Forall_cons in Hms as [(_ & Hfl & Hl & _) _].
  cbn [concat] in Hi. unfold incomplete, frame_len in *. rewrite length_app in Hi.
  rewrite !byte_at_app_l, Hfl in Hi by lia. lia.
Qed.

(** Framing: however the kernel splits and delays the bytes of a stream of
    packets, and whatever a sound callback does, the receiver never crashes,
    hands out packets that carry exactly the bytes of the packets sent, in
    order, and, when no error closed the connection and every byte was read,
    all of them. *)
Theorem poll_ins_frames rounds s ms :
  rb_wf (rs_buf s) → unread (rs_buf s) = [] → pool_wf (rs_pool s) → Forall frame_ok ms →
  rs_sock s ++ all_arrivals rounds = concat ms →
  ∃ ok pkts s', poll_ins s rounds = Some (ok, pkts, s') ∧ pk_frame <$> pkts `prefix_of` ms ∧
    (ok = true → rounds ≠ [] → rs_sock s' = [] → pk_frame <$> pkts = ms).
Proof using callback_ok.
  intros Hb Hn Hg Hms Hu.
  destruct (poll_ins_gen rounds s ms) as (ok & pkts & s' & ms2 & E & -> & Hend); [done|done|done|by rewrite Hn|].
  eexists ok, pkts, s'. split; [done|]. split; [by eexists|]. intros Hok Hr Hs.
  destruct (Hend Hok) as [Hc Hi]. rewrite Hs, app_nil_r in Hc. specialize (Hi Hr).
  apply Forall_app in Hms as [_ Hms]. by rewrite (incomplete_nil _ ms2 Hi Hms Hc), app_nil_r.
Qed.
End stream.

(** two packets of 12 bytes, arriving in pieces of 5, 9 and 10 bytes *)
Definition sample_frame (c : Z) : list Z := [12; 0; 0; 0; c; 0; 0; 0; 0; 0; 0; 0].
Lemma sample_frame_ok c : is_byte c → frame_ok (sample_frame c).
Proof.
  intros Hc. split; [|split; [reflexivity|split; discriminate]]. unfold sample_frame.
  repeat (apply Forall_cons; split; [first [done|unfold is_byte; lia]|]). apply Forall_nil. done.
Qed.
Definition sample_rounds : list (list read_event) :=
  let s := sample_frame 7 ++ sample_frame 8 in
  [[RArrive (take 9 (drop 5 s)); RRead 3; RIntr; RRead 40]; [RRead 4]; [RArrive (drop 14 s); RRead 100]].
Definition sample_rstate : rstate :=
  RState (RBuf (replicate 16 0) 0 0) (take 5 (sample_frame 7 ++ sample_frame 8)) g_free_init.

Lemma poll_ins_frames_witness :
  ∃ ok pkts s', poll_ins 0 (λ p g, (p, g)) sample_rstate sample_rounds = Some (ok, pkts, s') ∧
    pk_frame <$> pkts `prefix_of` [sample_frame 7; sample_frame 8] ∧
    (ok = true → sample_rounds ≠ [] → rs_sock s' = [] →
      pk_frame <$> pkts = [sample_frame 7; sample_frame 8]).
Proof.
  apply poll_ins_frames; [by intros| | |apply g_free_init_wf| |reflexivity].
  - split; [split; reflexivity || discriminate|discriminate].
  - reflexivity.
  - apply Forall_cons. split; [apply sample_frame_ok; unfold is_byte; lia|].
    apply Forall_cons. split; [apply sample_frame_ok; unfold is_byte; lia|apply Forall_nil; exact I].
Defined.
