(* ===== verification/NetSend.v ===== *)
(** * [net/s_net.c]: sending, and the list of free connections

    A packet is shared memory: it may sit in the write queues of several
    connections, each of which remembers its own request id and writes it
    into the packet before each [write] ([iwrite_conn]). *)

From S2P Require Import Prelude SList Packet Wire SQueue Net.
Local Open Scope Z_scope.

(** [struct packet_node]; [p] is [s_packet_data_p(pkt)] *)
Record packet_node := PNode { pn_pkt : Z; pn_curr : Z; pn_total : Z; pn_req : Z }.
#[export] Instance packet_node_inhabited : Inhabited packet_node := populate (PNode 0 0 0 0).

(** what a [write] of the loop does *)
Inductive write_event :=
| WSend (k : Z)     (* takes at most [k] bytes *)
| WAgain
| WIntr
| WErr.

Abbreviation packets := (gmap Z s_packet).

Definition pkt_set_req (h : packets) (id req : Z) : packets :=
  alter (λ p, (s_packet_set_req p req).2) id h.
Definition pkt_grab (h : packets) (id : Z) : packets := alter s_packet_grab id h.

(** dropping the last reference gives the block back to the pool *)
Definition pkt_drop (h : packets) (g : pool) (id : Z) : packets * pool :=
  match h !! id with
  | None => (h, g)
  | Some p =>
      let '(p, g) := s_packet_drop g p in
      (if pk_ref_count p =? 0 then delete id h else <[id := p]> h, g)
  end.

Section send.
Context {Q : Type} `{!Fifo packet_node Q}.

(** a connection's write queue, the packets, the pool and the bytes the
    kernel took *)
Record wstate := WState { ws_queue : Q; ws_pkts : packets; ws_pool : pool; ws_out : list Z }.

(** [iwrite_conn]; at the end of the list the socket is full (EAGAIN) *)
Fixpoint iwrite_conn (s : wstate) (evs : list write_event) : Z * wstate :=
  match fifo_peek (ws_queue s) with
  | None => (0, s)
  | Some pn =>
      let h := pkt_set_req (ws_pkts s) (pn_pkt pn) (pn_req pn) in
      let s := WState (ws_queue s) h (ws_pool s) (ws_out s) in
      match evs with
      | [] | WAgain :: _ => (0, s)
      | WIntr :: evs => iwrite_conn s evs
      | WErr :: _ => (-1, s)
      | WSend k :: evs =>
          let nsend := s_min (s_max 0 k) (pn_total pn - pn_curr pn) in
          let data := default [] (pk_data <$> h !! pn_pkt pn) in
          if nsend =? 0 then (0, s)
          else
            let out := ws_out s ++ slice (pn_curr pn) nsend data in
            let pn := PNode (pn_pkt pn) (pn_curr pn + nsend) (pn_total pn) (pn_req pn) in
            let q := fifo_set_front (ws_queue s) pn in
            if pn_total pn <=? pn_curr pn then
              let '(h, g) := pkt_drop h (ws_pool s) (pn_pkt pn) in
              iwrite_conn (WState (fifo_pop q) h g out) evs
            else iwrite_conn (WState q h (ws_pool s) out) evs
      end
  end.

(** [s_net_send] up to the result of [iwrite_conn]; a negative one closes
    the connection *)
Definition s_net_send (s : wstate) (id : Z) (evs : list write_event) : Z * wstate :=
  match ws_pkts s !! id with
  | None => (0, s)
  | Some p =>
      let pn := PNode id 0 (pk_size p) (s_packet_get_req p) in
      iwrite_conn (WState (fifo_push (ws_queue s) pn) (pkt_grab (ws_pkts s) id) (ws_pool s) (ws_out s)) evs
  end.

(** [irm_conn]: the packets still queued are dropped *)
Fixpoint drop_queue (fuel : nat) (q : Q) (h : packets) (g : pool) : Q * packets * pool :=
  match fuel, fifo_peek q with
  | S fuel, Some pn =>
      let '(h, g) := pkt_drop h g (pn_pkt pn) in drop_queue fuel (fifo_pop q) h g
  | _, _ => (q, h, g)
  end.
End send.
Arguments wstate : clear implicits.

(** ** What goes over the wire *)

Definition req_bytes (req : Z) : list Z := [byte_of req 0; byte_of req 1; byte_of req 2; byte_of req 3].

(** the packet with the request id [req] *)
Definition frame_of (p : s_packet) (req : Z) : list Z :=
  take (Z.to_nat (pk_size p)) (splice S_PKT_REQ_POS (req_bytes req) (pk_data p)).

Definition whole (p : s_packet) : Prop := pk_wf p ∧ S_PKT_HEAD_SIZE <= pk_size p.

Section frames.

Lemma set_req_spec p req :
  whole p → (s_packet_set_req p req).2 =
    Packet (pk_size p) (pk_pos p) (pk_ref_count p) (pk_exp p) (splice S_PKT_REQ_POS (req_bytes req) (pk_data p)).
Proof.
  intros [(Hp & Hs & Hd & Hb) Hsz]. unfold s_packet_set_req, s_packet_write_uint. pk_unfold.
  rewrite !(proj2 (Z.ltb_ge _ _)) by lia. pkc. done.
Qed.

Lemma splice_splice {A} pos (s1 s2 l : list A) :
  0 <= pos → length s1 = length s2 → pos + Z.of_nat (length s2) <= Z.of_nat (length l) →
  splice pos s1 (splice pos s2 l) = splice pos s1 l.
Proof.
  intros Hp Hl Hb. unfold splice. f_equal; [|f_equal].
  - rewrite take_app_le by (rewrite length_take; lia). rewrite take_take. f_equal. lia.
  - rewrite app_assoc, drop_app_ge by (rewrite length_app, length_take; lia).
    rewrite length_app, length_take, drop_drop. f_equal. lia.
Qed.

Lemma set_req_whole p req : whole p → whole (s_packet_set_req p req).2.
Proof.
  intros Hw. rewrite set_req_spec by done. destruct Hw as [(Hp & Hs & Hd & Hb) Hsz].
  unfold whole, pk_wf, S_PKT_HEAD_SIZE, S_PKT_REQ_POS in *. pkc. rewrite length_splice by (cbn; lia).
  split_and!; try done. apply Forall_splice; [apply bytes4|done].
Qed.

Lemma frame_of_set_req p r1 r2 : whole p → frame_of (s_packet_set_req p r1).2 r2 = frame_of p r2.
Proof.
  intros Hw. rewrite set_req_spec by done. unfold frame_of. pkc.
  destruct Hw as [(Hp & Hs & Hd & Hb) Hsz]. unfold S_PKT_HEAD_SIZE, S_PKT_REQ_POS in *.
  rewrite splice_splice; [done|lia|done|cbn; lia].
Qed.

Lemma frame_of_data p req :
  whole p → take (Z.to_nat (pk_size p)) (pk_data (s_packet_set_req p req).2) = frame_of p req.
Proof. intros Hw. by rewrite set_req_spec. Qed.

Lemma length_frame_of p req : whole p → Z.of_nat (length (frame_of p req)) = pk_size p.
Proof.
  intros [(Hp & Hs & Hd & Hb) Hsz]. unfold frame_of, S_PKT_HEAD_SIZE, S_PKT_REQ_POS in *.
  rewrite length_take, length_splice; cbn; lia.
Qed.

Lemma byte_of_le4 b0 b1 b2 b3 :
  is_byte b0 → is_byte b1 → is_byte b2 → is_byte b3 → req_bytes (le4 b0 b1 b2 b3) = [b0; b1; b2; b3].
Proof.
  intros H0 H1 H2 H3. unfold req_bytes. rewrite !byte_of_spec, le4_spec by (done || lia).
  unfold is_byte in *. change (2 ^ (8 * 0)) with 1. change (2 ^ (8 * 1)) with 256.
  change (2 ^ (8 * 2)) with 65536. change (2 ^ (8 * 3)) with 16777216.
  f_equal; [|f_equal; [|f_equal; [|f_equal]]]; Z.div_mod_to_equations; lia.
Qed.

(** the request id in a packet is its own *)
Lemma frame_of_own p : whole p → frame_of p (s_packet_get_req p) = pk_frame p.
Proof.
  intros [(Hp & Hs & Hd & Hb) Hsz]. unfold frame_of, pk_frame, S_PKT_HEAD_SIZE, S_PKT_REQ_POS in *. f_equal.
  assert (∃ b0 b1 b2 b3 l1 l2, pk_data p = l1 ++ [b0; b1; b2; b3] ++ l2 ∧ length l1 = 8%nat) as
    (b0 & b1 & b2 & b3 & l1 & l2 & Hdata & Hl1).
  { pose proof (take_drop 8 (pk_data p)) as E. set (d := drop 8 (pk_data p)) in *.
    assert (length d >= 4)%nat by (unfold d; rewrite length_drop; lia).
    destruct d as [|b0 [|b1 [|b2 [|b3 d]]]]; cbn [length] in *; try lia.
    exists b0, b1, b2, b3, (take 8 (pk_data p)), d. rewrite length_take. split; [done|lia]. }
  assert (s_packet_get_req p = le4 b0 b1 b2 b3) as ->.
  { unfold s_packet_get_req, s_packet_read_uint, cur_byte. pk_unfold.
    rewrite !(proj2 (Z.ltb_ge _ _)) by lia. cbn [fst default]. rewrite Hdata.
    change 8 with (Z.of_nat 8). rewrite <-Hl1. rewrite !byte_at_app_r by (cbn; lia).
    rewrite Hdata in Hb. apply Forall_app in Hb as [_ Hb]. cbn [app] in Hb. rewrite !Forall_cons in Hb.
    destruct Hb as (? & ? & ? & ? & _). apply uint_small.
    change (is_uint (le4 b0 b1 b2 b3)). rewrite le4_spec by done. unfold is_uint, is_byte in *. lia. }
  rewrite Hdata in *. apply Forall_app in Hb as [_ Hb]. cbn [app] in Hb. rewrite !Forall_cons in Hb.
  destruct Hb as (? & ? & ? & ? & _). rewrite byte_of_le4 by done.
  change 8 with (Z.of_nat 8). rewrite <-Hl1. by apply splice_app_r.
Qed.
End frames.

(** ** The invariant of a connection's write queue *)
Section invariant.
Context {Q : Type} `{!Fifo packet_node Q, !FifoLaws packet_node Q}.
Implicit Types (s : wstate Q) (h : packets) (l : list packet_node).

Definition node_ok h (n : packet_node) : Prop :=
  ∃ p, h !! pn_pkt n = Some p ∧ pn_total n = pk_size p ∧ 0 <= pn_curr n < pn_total n.

(** what is still to be sent of a queued packet *)
Definition node_rest h (n : packet_node) : list Z :=
  match h !! pn_pkt n with
  | Some p => drop (Z.to_nat (pn_curr n)) (frame_of p (pn_req n))
  | None => []
  end.

Definition node_count (id : Z) l : Z := Z.of_nat (length (filter (λ n, pn_pkt n = id) l)).

(** the queue [l] over the packets [h]; [ext id] references are held by
    others *)
Record queue_ok (ext : Z → Z) h l : Prop := {
  qo_ext id : 0 <= ext id;
  qo_whole id p : h !! id = Some p → whole p;
  qo_nodes : Forall (node_ok h) l;
  qo_refs id p : h !! id = Some p → pk_ref_count p = node_count id l + ext id
}.

Definition ws_inv (ext : Z → Z) s : Prop :=
  fifo_wf (ws_queue s) ∧ queue_ok ext (ws_pkts s) (fifo_list (ws_queue s)).

Definition rest_of h l : list Z := concat (node_rest h <$> l).
Definition pending s : list Z := rest_of (ws_pkts s) (fifo_list (ws_queue s)).

Lemma node_count_cons id n l :
  node_count id (n :: l) = (if decide (pn_pkt n = id) then 1 else 0) + node_count id l.
Proof. unfold node_count. rewrite filter_cons. case_decide; cbn [length]; lia. Qed.

Lemma node_count_pos n l : n ∈ l → 0 < node_count (pn_pkt n) l.
Proof.
  induction 1 as [l|m l n Hn IH]; rewrite node_count_cons; [rewrite decide_True by done|case_decide; lia].
  unfold node_count. lia.
Qed.

Lemma rest_of_ext h h' l : (∀ n, n ∈ l → node_rest h' n = node_rest h n) → rest_of h' l = rest_of h l.
Proof.
  intros He. unfold rest_of. f_equal. apply list_fmap_ext. intros i n Hn.
  apply He. by eapply list_elem_of_lookup_2.
Qed.

Lemma set_req_rest ext h l n id req :
  queue_ok ext h l → node_rest (pkt_set_req h id req) n = node_rest h n.
Proof.
  intros [_ Hw _ _]. unfold node_rest, pkt_set_req. rewrite lookup_alter.
  case_decide as E; [|done]. subst. destruct (h !! pn_pkt n) as [p|] eqn:Hp; [|done]. simpl.
  by rewrite frame_of_set_req by by eapply Hw.
Qed.

(** writing a request id into a packet *)
Lemma set_req_ok ext h l id req :
  queue_ok ext h l → queue_ok ext (pkt_set_req h id req) l ∧ rest_of (pkt_set_req h id req) l = rest_of h l.
Proof.
  intros [He Hw Hn Hr]. unfold pkt_set_req. split; [split|].
  - done.
  - intros i p Hp. apply lookup_alter_Some in Hp as [(-> & p' & Hp & ->)|[_ Hp]]; [|by eapply Hw].
    eapply set_req_whole, Hw, Hp.
  - eapply Forall_impl; [done|]. intros n (p & Hp & Ht & Hc). unfold node_ok.
    rewrite lookup_alter. case_decide as E; [|by exists p]. subst. rewrite Hp. simpl. eexists. split; [done|].
    rewrite set_req_spec by by eapply Hw. done.
  - intros i p Hp. apply lookup_alter_Some in Hp as [(-> & p' & Hp & ->)|[_ Hp]]; [|by apply Hr].
    rewrite set_req_spec by by eapply Hw. pkc. by apply Hr.
  - apply rest_of_ext. intros n _. by eapply set_req_rest.
Qed.

(** the head of the queue advances *)
Lemma advance_ok ext h n l k :
  queue_ok ext h (n :: l) → 0 < k → pn_curr n + k < pn_total n →
  let n' := PNode (pn_pkt n) (pn_curr n + k) (pn_total n) (pn_req n) in
  queue_ok ext h (n' :: l) ∧
  rest_of h (n :: l) = take (Z.to_nat k) (node_rest h n) ++ rest_of h (n' :: l).
Proof.
  intros [He Hw Hn Hr] Hk Hlt n'. apply Forall_cons in Hn as [(p & Hp & Ht & Hc) Hn]. split; [split|].
  - done.
  - done.
  - apply Forall_cons. split; [|done]. exists p. unfold n'. cbn. split_and!; (done || lia).
  - intros id q Hq. rewrite (Hr id q Hq), !node_count_cons. done.
  - unfold rest_of. cbn [fmap list_fmap concat]. rewrite app_assoc. f_equal.
    unfold node_rest, n'. cbn. rewrite Hp. rewrite Z2Nat.inj_add by lia.
    by rewrite <-drop_drop, take_drop.
Qed.

(** the head of the queue is sent completely *)
Lemma finish_ok ext h g n l :
  queue_ok ext h (n :: l) →
  let h' := (pkt_drop h g (pn_pkt n)).1 in
  queue_ok ext h' l ∧ rest_of h (n :: l) = node_rest h n ++ rest_of h' l.
Proof.
  intros [He Hw Hn Hr]. cbn zeta. apply Forall_cons in Hn as [(p & Hp & Ht & Hc) Hn].
  pose proof (Hr _ _ Hp) as Hrp. rewrite node_count_cons, decide_True in Hrp by done.
  set (id := pn_pkt n) in *. set (p' := with_ref p (pk_ref_count p - 1)).
  assert ((pkt_drop h g id).1 = if pk_ref_count p' =? 0 then delete id h else <[id := p']> h) as ->.
  { unfold pkt_drop. rewrite Hp. unfold s_packet_drop. fold p'. by destruct (pk_ref_count p' =? 0) eqn:E; rewrite E. }
  pose proof (He id) as Heid. assert (pk_ref_count p' = node_count id l + ext id) as Hp' by (unfold p'; pkc; lia).
  set (h' := if (_ : bool) then _ else _).
  assert (∀ i, i ≠ id → h' !! i = h !! i) as Hother.
  { intros i Hi. unfold h'. case_match; [by rewrite lookup_delete_ne|by rewrite lookup_insert_ne]. }
  assert (∀ m, m ∈ l → pn_pkt m = id → h' !! id = Some p') as Hsame.
  { intros m Hm Hid. pose proof (node_count_pos m l Hm) as Hpos. rewrite Hid in Hpos.
    unfold h'. rewrite (proj2 (Z.eqb_neq _ _)) by lia. by rewrite lookup_insert_eq. }
  assert (∀ i q, h' !! i = Some q → (i = id ∧ q = p') ∨ (i ≠ id ∧ h !! i = Some q)) as Hinv.
  { intros i q Hq. destruct (decide (i = id)) as [->|Hi]; [left|right; by rewrite <-Hother].
    unfold h' in Hq. case_match; [by rewrite lookup_delete_eq in Hq|]. rewrite lookup_insert_eq in Hq. naive_solver. }
  split; [split|].
  - done.
  - intros i q [[-> ->]|[_ Hq]]%Hinv; [exact (Hw _ _ Hp)|by eapply Hw].
  - apply Forall_forall. intros m Hm. destruct (proj1 (Forall_forall _ _) Hn m Hm) as (q & Hq & Htq & Hcq).
    destruct (decide (pn_pkt m = id)) as [E|E].
    + exists p'. rewrite E, (Hsame m Hm E). rewrite E in Hq. unfold p'. pkc. naive_solver.
    + exists q. by rewrite Hother.
  - intros i q [[-> ->]|[Hi Hq]]%Hinv; [done|]. rewrite (Hr _ _ Hq), node_count_cons.
    fold id. by rewrite decide_False.
  - unfold rest_of. cbn [fmap list_fmap concat]. f_equal. symmetry. apply rest_of_ext.
    intros m Hm. unfold node_rest. destruct (decide (pn_pkt m = id)) as [E|E].
    + rewrite E, (Hsame m Hm E), Hp. done.
    + by rewrite Hother.
Qed.

(** what [write] is given are the bytes of the frame *)
Lemma slice_frame ext h n l k :
  queue_ok ext h (n :: l) → 0 < k <= pn_total n - pn_curr n →
  slice (pn_curr n) k (default [] (pk_data <$> pkt_set_req h (pn_pkt n) (pn_req n) !! pn_pkt n)) =
  take (Z.to_nat k) (node_rest h n).
Proof.
  intros [He Hw Hn Hr] Hk. apply Forall_cons in Hn as [(p & Hp & Ht & Hc) _].
  unfold pkt_set_req. rewrite lookup_alter, decide_True, Hp by done. cbn.
  unfold node_rest. rewrite Hp, <-frame_of_data by by eapply Hw.
  unfold slice. rewrite skipn_firstn_comm, take_take. f_equal. lia.
Qed.

(** [iwrite_conn] only moves bytes from the queue to the wire *)
Lemma iwrite_conn_inv ext evs s :
  ws_inv ext s →
  let '(r, s') := iwrite_conn s evs in
  ws_inv ext s' ∧ ws_out s' ++ pending s' = ws_out s ++ pending s.
Proof using FifoLaws0.
  revert s. induction evs as [|e evs IH]; intros s [Hq Hok].
  all: cbn [iwrite_conn]; rewrite fifo_peek_ok by done.
  all: destruct (fifo_list (ws_queue s)) as [|n l] eqn:El; cbn [head hd_error]; [by split; [split; [done|by rewrite El]|]|].
  all: destruct (set_req_ok ext (ws_pkts s) (n :: l) (pn_pkt n) (pn_req n) Hok) as [Hok1 Hr1].
  all: set (h1 := pkt_set_req (ws_pkts s) (pn_pkt n) (pn_req n)) in *.
  all: assert (ws_inv ext (WState (ws_queue s) h1 (ws_pool s) (ws_out s))) as Hinv1
    by (split; cbn; rewrite ?El; done).
  all: assert (pending (WState (ws_queue s) h1 (ws_pool s) (ws_out s)) = pending s) as Hp1
    by (unfold pending; cbn; by rewrite El).
  { by rewrite Hp1. }
  destruct e as [k| | |]; [|by rewrite Hp1| |by rewrite Hp1].
  2: { specialize (IH _ Hinv1). destruct (iwrite_conn _ evs). rewrite Hp1 in IH. done. }
  assert (0 <= pn_curr n < pn_total n) as Hc.
  { destruct Hok as [_ _ Hn _]. apply Forall_cons in Hn as [(p & _ & _ & Hc) _]. done. }
  rewrite s_min_spec, s_max_spec. set (ns := Z.min _ _). cbn [ws_queue ws_pkts ws_pool ws_out].
  destruct (ns =? 0) eqn:E0; zbool; [by rewrite Hp1|].
  assert (0 < ns <= pn_total n - pn_curr n) as Hns by lia.
  pose proof (slice_frame ext _ n l ns Hok Hns) as Hs. fold h1 in Hs. rewrite Hs.
  set (n' := PNode _ _ _ _). set (out := ws_out s ++ _).
  destruct (fifo_set_front_ok (ws_queue s) n n' l Hq El) as [Hq2 El2].
  assert (pending s = rest_of h1 (n :: l)) as -> by (rewrite Hr1; unfold pending; by rewrite El).
  assert (node_rest h1 n = node_rest (ws_pkts s) n) as En by by apply (set_req_rest ext _ (n :: l)).
  destruct (pn_total n' <=? pn_curr n') eqn:Et; unfold n' in Et; cbn [pn_total pn_curr] in Et; zbool.
  - destruct (finish_ok ext h1 (ws_pool s) n l Hok1) as [Hok2 Hr2].
    change (pn_pkt n') with (pn_pkt n).
    destruct (pkt_drop h1 (ws_pool s) (pn_pkt n)) as [h2 g2]. cbn [fst] in Hok2, Hr2.
    destruct (fifo_pop_ok (fifo_set_front (ws_queue s) n') Hq2) as [Hq3 El3]. rewrite El2 in El3. cbn in El3.
    specialize (IH (WState (fifo_pop (fifo_set_front (ws_queue s) n')) h2 g2 out)).
    destruct (iwrite_conn _ evs) as [r s']. destruct IH as [Hinv' ->]; [split; cbn; by rewrite ?El3|].
    split; [done|]. unfold pending. cbn [ws_pkts ws_queue ws_out]. rewrite El3, Hr2, app_assoc. f_equal.
    unfold out. f_equal. rewrite En. apply take_ge.
    destruct Hok as [_ Hw Hn _]. apply Forall_cons in Hn as [(p & Hp & Ht & _) _].
    unfold node_rest. rewrite Hp, length_drop. pose proof (length_frame_of p (pn_req n) (Hw _ _ Hp)). lia.
  - destruct (advance_ok ext h1 n l ns Hok1) as [Hok2 Hr2]; [lia|lia|]. fold n' in Hok2, Hr2.
    specialize (IH (WState (fifo_set_front (ws_queue s) n') h1 (ws_pool s) out)).
    destruct (iwrite_conn _ evs) as [r s']. destruct IH as [Hinv' ->]; [split; cbn; by rewrite ?El2|].
    split; [done|]. unfold pending. cbn [ws_pkts ws_queue ws_out]. rewrite El2, Hr2. unfold out. by rewrite En, <-app_assoc.
Qed.

(** ** A history of a connection *)

(** [WReq]: somebody writes another request id into a packet, as a send of
    the same packet to another connection does *)
Inductive wop :=
| WSendPkt (id : Z) (evs : list write_event)     (* [s_net_send] *)
| WReady (evs : list write_event)                (* EPOLLOUT *)
| WReq (id req : Z).

Definition run_wop (s : wstate Q) (o : wop) : Z * wstate Q :=
  match o with
  | WSendPkt id evs => s_net_send s id evs
  | WReady evs => iwrite_conn s evs
  | WReq id req => (0, WState (ws_queue s) (pkt_set_req (ws_pkts s) id req) (ws_pool s) (ws_out s))
  end.

(** what the caller handed to [s_net_send] *)
Definition op_frame (s : wstate Q) (o : wop) : list Z :=
  match o with
  | WSendPkt id _ => default [] (pk_frame <$> ws_pkts s !! id)
  | _ => []
  end.

(** the frames sent, and the state reached *)
Fixpoint run_wops (s : wstate Q) (ops : list wop) : list Z * wstate Q :=
  match ops with
  | [] => ([], s)
  | o :: ops =>
      let '(_, s') := run_wop s o in
      let '(fs, s'') := run_wops s' ops in
      (op_frame s o ++ fs, s'')
  end.

Lemma s_net_send_inv ext s id evs :
  ws_inv ext s →
  let '(r, s') := s_net_send s id evs in
  ws_inv ext s' ∧ ws_out s' ++ pending s' = ws_out s ++ pending s ++ op_frame s (WSendPkt id evs).
Proof using FifoLaws0.
  intros [Hq [He Hw Hn Hr]]. unfold s_net_send, op_frame.
  destruct (ws_pkts s !! id) as [p|] eqn:Hp; cbn [fmap option_fmap option_map default].
  2: { change (ws_inv ext s ∧ ws_out s ++ pending s = ws_out s ++ pending s ++ []).
       rewrite app_nil_r. split; [split; [exact Hq|split; assumption]|reflexivity]. }
  set (pn := PNode id 0 (pk_size p) (s_packet_get_req p)).
  set (s1 := WState _ _ _ _).
  destruct (fifo_push_ok (ws_queue s) pn Hq) as [Hq1 El1].
  assert (∀ i, pkt_grab (ws_pkts s) id !! i =
    if decide (id = i) then Some (s_packet_grab p) else ws_pkts s !! i) as Hg.
  { intros i. unfold pkt_grab. rewrite lookup_alter. case_decide; subst; by rewrite ?Hp. }
  assert (ws_inv ext s1) as Hinv1.
  { split; [done|]. unfold s1. cbn. rewrite El1. split.
    - done.
    - intros i q. rewrite Hg. case_decide as E; [|apply Hw]. intros [= <-]. exact (Hw _ _ Hp).
    - apply Forall_app. split.
      + eapply Forall_impl; [done|]. intros m (q & Hq' & Ht & Hc). unfold node_ok. rewrite Hg.
        case_decide as E; [|by exists q]. eexists. split; [done|]. subst. rewrite Hp in Hq'. naive_solver.
      + apply Forall_singleton. exists (s_packet_grab p). unfold pn. cbn. rewrite Hg, decide_True by done.
        destruct (Hw _ _ Hp) as [_ H12]. unfold S_PKT_HEAD_SIZE in *. split_and!; (done || lia).
    - intros i q. rewrite Hg. unfold node_count. rewrite filter_app, length_app, filter_cons.
      cbn [pn_pkt filter list_filter]. unfold pn. cbn [pn_pkt]. case_decide as E.
      + intros [= <-]. subst i. pose proof (Hr _ _ Hp) as Hrp. unfold node_count in Hrp.
        cbn [pk_ref_count s_packet_grab with_ref length]. rewrite Nat2Z.inj_add. cbn. lia.
      + intros Hq'. cbn. rewrite Nat.add_0_r. by apply Hr. }
  assert (pending s1 = pending s ++ pk_frame p) as Hp1.
  { unfold pending, s1, rest_of. cbn [ws_queue ws_pkts]. rewrite El1, fmap_app, concat_app. f_equal.
    - apply rest_of_ext. intros m _. unfold node_rest. rewrite Hg. case_decide as E; [|done]. subst. by rewrite Hp.
    - cbn. unfold node_rest, pn. cbn. rewrite Hg, decide_True, app_nil_r, drop_0 by done.
      rewrite <-frame_of_own by exact (Hw _ _ Hp). done. }
  pose proof (iwrite_conn_inv ext evs s1 Hinv1) as Hi. destruct (iwrite_conn s1 evs) as [r s'].
  rewrite Hp1 in Hi. done.
Qed.

Lemma run_wops_inv ext ops s :
  ws_inv ext s →
  let '(fs, s') := run_wops s ops in
  ws_inv ext s' ∧ ws_out s' ++ pending s' = ws_out s ++ pending s ++ fs.
Proof using FifoLaws0.
  revert s. induction ops as [|o ops IH]; intros s Hs; cbn [run_wops]; [by rewrite app_nil_r|].
  assert (let '(r, s') := run_wop s o in ws_inv ext s' ∧
    ws_out s' ++ pending s' = ws_out s ++ pending s ++ op_frame s o) as H1.
  { destruct o as [id evs|evs|id req]; cbn [run_wop].
    - by apply s_net_send_inv.
    - cbn [op_frame]. rewrite app_nil_r. by apply iwrite_conn_inv.
    - destruct Hs as [Hq Hok]. destruct (set_req_ok ext _ _ id req Hok) as [Hok' Hr].
      cbn [op_frame]. rewrite app_nil_r. split; [by split|]. unfold pending. cbn [ws_out ws_pkts ws_queue].
      by rewrite Hr. }
  destruct (run_wop s o) as [r s1]. destruct H1 as [Hs1 E1].
  specialize (IH s1 Hs1). destruct (run_wops s1 ops) as [fs s2]. destruct IH as [Hs2 E2].
  split; [done|]. rewrite E2, app_assoc, E1. by rewrite <-!app_assoc.
Qed.

(** C12. Sending: whatever the kernel accepts at each [write], whenever it
    interrupts or refuses, and although other connections rewrite the request
    id inside the shared packets, the bytes on the wire are those of the
    packets handed to [s_net_send], in order, each with the request id it had
    then; nothing is lost, and the reference counts stay exact. *)
Theorem run_wops_stream ext ops s :
  ws_inv ext s → fifo_list (ws_queue s) = [] → ws_out s = [] →
  let '(fs, s') := run_wops s ops in
  ws_inv ext s' ∧ ws_out s' ++ pending s' = fs ∧
  (fifo_list (ws_queue s') = [] → ws_out s' = fs).
Proof using FifoLaws0.
  intros Hs Hq Ho. pose proof (run_wops_inv ext ops s Hs) as H.
  destruct (run_wops s ops) as [fs s']. destruct H as [Hs' H]. split; [done|].
  rewrite Ho in H. unfold pending in H. rewrite Hq in H. cbn [app] in H.
  change (rest_of (ws_pkts s) []) with (@nil Z) in H. split; [done|].
  intros Hq'. rewrite Hq' in H. change (rest_of (ws_pkts s') []) with (@nil Z) in H.
  by rewrite app_nil_r in H.
Qed.
End invariant.

(** one packet, with one reference, sent while its request id is rewritten *)
Definition sample_packet : s_packet := Packet 12 12 1 4 (replicate 28 0).
Definition sample_wstate : wstate (s_queue packet_node) :=
  WState (fifo_new DEFAULT_PACKET_PENDING) {[ 7 := sample_packet ]} g_free_init [].
Definition sample_wops : list wop := [WSendPkt 7 [WSend 9; WAgain]; WReq 7 258; WReady [WIntr; WSend 100]].

Lemma run_wops_stream_witness :
  ws_out (run_wops sample_wstate sample_wops).2 = replicate 12 0 ∧
  let '(fs, s') := run_wops sample_wstate sample_wops in
  ws_inv (λ _, 1) s' ∧ ws_out s' ++ pending s' = fs ∧ (fifo_list (ws_queue s') = [] → ws_out s' = fs).
Proof.
  split; [vm_compute; reflexivity|]. apply run_wops_stream.
  - split; [apply fifo_new_ok|]. cbn [ws_queue ws_pkts sample_wstate]. rewrite (proj2 (fifo_new_ok _)). split.
    + lia.
    + intros id p Hp. apply lookup_singleton_Some in Hp as [_ <-]. split; [|discriminate].
      split; [discriminate|]. split; [discriminate|]. split; [discriminate|].
      apply Forall_replicate. unfold is_byte. lia.
    + apply Forall_nil. exact I.
    + intros id p Hp. apply lookup_singleton_Some in Hp as [_ <-]. reflexivity.
  - apply (fifo_new_ok (Q := s_queue packet_node)).
  - reflexivity.
Defined.
