(* ===== verification/NetLink.v ===== *)
(** * Two ends of a connection

    The sender of [NetSend] and the receiver of [Net], with the bytes between
    them carried by the kernel: in order, as late and in such pieces as it
    likes.  What one process hands to [s_net_send] is what the callback of the
    other gets. *)

From S2P Require Import Prelude Packet SQueue Net NetSend.
Local Open Scope Z_scope.

Section link.
Context {Q : Type} `{!Fifo packet_node Q}.
Context (junk : Z) (callback : s_packet → pool → s_packet * pool).

(** of the bytes [ws_out] of the sender, [ln_taken] have come to the receiver *)
Record link := Link {
  ln_s : wstate Q;
  ln_s_open : bool;            (* no [write] has failed *)
  ln_taken : nat;
  ln_r : rstate;
  ln_r_open : bool
}.

Definition wire (l : link) : list Z := drop (ln_taken l) (ws_out (ln_s l)).

(** what happens while the receiver reads: [n] more bytes come in *)
Inductive wire_event := WArrive (n : nat) | WRead (k : Z) | WInterrupt | WFail.

Fixpoint wire_events (w : list Z) (evs : list wire_event) : list read_event * nat :=
  match evs with
  | [] => ([], 0%nat)
  | WArrive n :: evs =>
      let bs := take n w in
      let '(revs, m) := wire_events (drop n w) evs in (RArrive bs :: revs, length bs + m)%nat
  | WRead k :: evs => let '(revs, m) := wire_events w evs in (RRead k :: revs, m)
  | WInterrupt :: evs => let '(revs, m) := wire_events w evs in (RIntr :: revs, m)
  | WFail :: evs => let '(revs, m) := wire_events w evs in (RErr :: revs, m)
  end.

Inductive link_op :=
| LSender (o : wop)                  (* the sender sends, or can write again *)
| LCarry (n : nat)                   (* bytes come in while the receiver is elsewhere *)
| LPoll (evs : list wire_event).     (* EPOLLIN at the receiver *)

Definition sent_frame (s : wstate Q) (o : wop) : list (list Z) :=
  match o with
  | WSendPkt id _ => match ws_pkts s !! id with Some p => [pk_frame p] | None => [] end
  | _ => []
  end.

(** the packets sent and received at a step; [None]: a crash *)
Definition link_step (l : link) (o : link_op) : option (list (list Z) * list s_packet * link) :=
  match o with
  | LSender o =>
      if ln_s_open l then
        let '(r, s) := run_wop (ln_s l) o in
        Some (sent_frame (ln_s l) o, [], Link s (0 <=? r) (ln_taken l) (ln_r l) (ln_r_open l))
      else Some ([], [], l)
  | LCarry n =>
      let bs := take n (wire l) in
      let r := ln_r l in
      Some ([], [], Link (ln_s l) (ln_s_open l) (ln_taken l + length bs) (RState (rs_buf r) (rs_sock r ++ bs) (rs_pool r)) (ln_r_open l))
  | LPoll evs =>
      if ln_r_open l then
        let '(revs, n) := wire_events (wire l) evs in
        '(r, pkts, b, sock, g) ← poll_in junk callback (rs_buf (ln_r l)) (rs_sock (ln_r l)) (rs_pool (ln_r l)) revs;
        Some ([], pkts, Link (ln_s l) (ln_s_open l) (ln_taken l + n) (RState b sock g) (0 <=? r))
      else Some ([], [], l)
  end.

Fixpoint link_run (l : link) (ops : list link_op) : option (list (list Z) * list s_packet * link) :=
  match ops with
  | [] => Some ([], [], l)
  | o :: ops =>
      '(fs, pkts, l) ← link_step l o;
      '(fs', pkts', l) ← link_run l ops;
      Some (fs ++ fs', pkts ++ pkts', l)
  end.
End link.
Arguments link : clear implicits.

(** ** Packets stay packets *)

Lemma frame_ok_frame_of p req : whole p → frame_ok (pk_frame p) → frame_ok (frame_of p req).
Proof.
  intros Hw (Hb & Hl & Hr). pose proof (length_frame_of p req Hw) as Hf.
  assert (Z.of_nat (length (pk_frame p)) = pk_size p) as Hp.
  { rewrite <-frame_of_own by done. by apply length_frame_of. }
  destruct Hw as [(Hpos & Hs & Hd & Hby) Hsz].
  assert (take 4 (frame_of p req) = take 4 (pk_frame p)) as Ht.
  { unfold frame_of, pk_frame, splice, S_PKT_REQ_POS, S_PKT_HEAD_SIZE in *. rewrite !take_take, !Nat.min_l by lia.
    rewrite take_app_le by (rewrite length_take; lia). by rewrite take_take. }
  split; [|split; [|by rewrite Hf, <-Hp]].
  - unfold frame_of. apply Forall_take, Forall_splice; [apply bytes4|done].
  - rewrite Hf, <-Hp, <-Hl. unfold frame_len.
    assert (∀ i, 0 <= i < 4 → byte_at (frame_of p req) i = byte_at (pk_frame p) i) as Hi; [|by rewrite !Hi by lia].
    intros i Hi. unfold byte_at.
    rewrite <-(lookup_take_lt (frame_of p req) 4), <-(lookup_take_lt (pk_frame p) 4) by lia. by rewrite Ht.
Qed.

Section sender.
Context {Q : Type} `{!Fifo packet_node Q, !FifoLaws packet_node Q}.
Implicit Types (s : wstate Q).

(** every packet says its own size *)
Definition pkts_ok (h : packets) : Prop := ∀ id p, h !! id = Some p → whole p ∧ frame_ok (pk_frame p).

Lemma pkts_ok_set_req h id req : pkts_ok h → pkts_ok (pkt_set_req h id req).
Proof.
  intros Hh i p. unfold pkt_set_req. intros [(-> & p' & Hp & ->)|[_ Hp]]%lookup_alter_Some; [|by eapply Hh].
  destruct (Hh _ _ Hp) as [Hw Hf]. split; [by apply set_req_whole|].
  replace (pk_frame _) with (frame_of p' req) by (by rewrite set_req_spec). by apply frame_ok_frame_of.
Qed.

Lemma pkts_ok_grab h id : pkts_ok h → pkts_ok (pkt_grab h id).
Proof. intros Hh i p. unfold pkt_grab. intros [(-> & p' & Hp & ->)|[_ Hp]]%lookup_alter_Some; apply (Hh _ _ Hp). Qed.

Lemma pkts_ok_drop h g id : pkts_ok h → pkts_ok (pkt_drop h g id).1.
Proof.
  intros Hh. unfold pkt_drop. destruct (h !! id) as [p|] eqn:Hp; [|done]. destruct (Hh _ _ Hp) as [Hw Hf].
  unfold s_packet_drop. set (p' := with_ref p _).
  assert (whole p' ∧ frame_ok (pk_frame p')) as Hp' by done.
  destruct (_ =? 0); cbn [fst]; (destruct (pk_ref_count p' =? 0); intros i q).
  all: try (intros [_ Hq]%lookup_delete_Some; by apply Hh with i).
  all: intros [[<- <-]|[_ Hq]]%lookup_insert_Some; [done|by apply Hh with i].
Qed.

(** [iwrite_conn] appends to the bytes the kernel took *)
Lemma iwrite_conn_grows evs s :
  pkts_ok (ws_pkts s) → let s' := (iwrite_conn s evs).2 in pkts_ok (ws_pkts s') ∧ ws_out s `prefix_of` ws_out s'.
Proof.
  cbn zeta. revert s. induction evs as [|e evs IH]; intros s Hs; cbn [iwrite_conn]; destruct (fifo_peek _) as [pn|]; try done.
  all: pose proof (pkts_ok_set_req _ (pn_pkt pn) (pn_req pn) Hs) as Hs1; set (h1 := pkt_set_req _ _ _) in *.
  { done. }
  destruct e as [k| | |]; [|done|by apply (IH (WState _ _ _ _))|done]. cbn [ws_queue ws_pkts ws_pool ws_out].
  destruct (_ =? 0); [done|]. cbn [pn_pkt].
  pose proof (pkts_ok_drop h1 (ws_pool s) (pn_pkt pn) Hs1) as Hd. destruct (pkt_drop h1 (ws_pool s) (pn_pkt pn)) as [h2 g2].
  case_match; (edestruct IH as [H1 H2]; [|split; [exact H1|etrans; [|exact H2]]]; [done|by apply prefix_app_r]).
Qed.
End sender.

(** ** What is received is what was sent *)
Section delivery.
Context {Q : Type} `{!Fifo packet_node Q, !FifoLaws packet_node Q}.
Context (junk : Z) (callback : s_packet → pool → s_packet * pool).
Context (callback_ok : ∀ p g, pool_wf g → block_ok p → block_ok (callback p g).1 ∧ pool_wf (callback p g).2).
Context (ext : Z → Z).
Implicit Types (l : link Q) (s : wstate Q).

(** the bytes of a packet that is sent join what is under way *)
Lemma sender_step s o :
  ws_inv ext s → pkts_ok (ws_pkts s) →
  let s' := (run_wop s o).2 in
  ws_inv ext s' ∧ pkts_ok (ws_pkts s') ∧ ws_out s `prefix_of` ws_out s' ∧
  ws_out s' ++ pending s' = ws_out s ++ pending s ++ concat (sent_frame s o) ∧ Forall frame_ok (sent_frame s o).
Proof using FifoLaws0.
  intros Hs Hp. pose proof (run_wops_inv ext [o] s Hs) as Hi. cbn [run_wops] in Hi.
  destruct (run_wop s o) as [r s'] eqn:E. rewrite app_nil_r in Hi. destruct Hi as [Hs' Ho]. cbn [snd].
  assert (op_frame s o = concat (sent_frame s o)) as Ef.
  { destruct o as [id evs|evs|id req]; [|done|done]. cbn. destruct (ws_pkts s !! id); cbn; [by rewrite app_nil_r|done]. }
  rewrite Ef in Ho. split; [done|].
  assert (pkts_ok (ws_pkts s') ∧ ws_out s `prefix_of` ws_out s') as [Hp' Hpre].
  { destruct o as [id evs|evs|id req]; cbn in E.
    - unfold s_net_send in E. destruct (ws_pkts s !! id) as [p|]; [|by injection E as <- <-].
      pose proof (iwrite_conn_grows evs (WState (fifo_push (ws_queue s) (PNode id 0 (pk_size p) (s_packet_get_req p)))
        (pkt_grab (ws_pkts s) id) (ws_pool s) (ws_out s)) (pkts_ok_grab _ id Hp)) as Hg. by rewrite E in Hg.
    - pose proof (iwrite_conn_grows evs s Hp) as Hg. by rewrite E in Hg.
    - injection E as <- <-. split; [by apply pkts_ok_set_req|done]. }
  split_and!; try done. destruct o as [id evs|evs|id req]; cbn; [|done|done].
  destruct (ws_pkts s !! id) as [p|] eqn:Ep; [|done]. constructor; [by apply (Hp id)|done].
Qed.

Lemma wire_events_spec w evs :
  let '(revs, n) := wire_events w evs in arrivals revs = take n w ∧ (n <= length w)%nat.
Proof.
  revert w. induction evs as [|[n|k| |] evs IH]; intros w; cbn [wire_events]; [by split; [|lia]| | | |].
  - specialize (IH (drop n w)). destruct (wire_events (drop n w) evs) as [revs m]. destruct IH as [E Hm].
    rewrite length_drop in Hm. rewrite length_take. unfold arrivals in *. cbn [fmap list_fmap concat]. rewrite E. split; [|lia].
    destruct (decide (n <= length w)%nat) as [Hn|Hn].
    + rewrite Nat.min_l by done. by rewrite take_take_drop.
    + rewrite drop_ge, take_nil, app_nil_r by lia. rewrite !take_ge by lia. done.
  - specialize (IH w). destruct (wire_events w evs) as [revs m]. by destruct IH.
  - specialize (IH w). destruct (wire_events w evs) as [revs m]. by destruct IH.
  - specialize (IH w). destruct (wire_events w evs) as [revs m]. by destruct IH.
Qed.

Lemma take_carried n (w : list Z) : take n w ++ drop (length (take n w)) w = w.
Proof.
  rewrite length_take. destruct (decide (n <= length w)%nat); [by rewrite Nat.min_l, take_drop by lia|].
  rewrite Nat.min_r, drop_all, take_ge by lia. apply app_nil_r.
Qed.

(** [ms] are the packets under way, some of them in part *)
Record link_inv (l : link Q) (ms : list (list Z)) : Prop := {
  li_s : ws_inv ext (ln_s l);
  li_pkts : pkts_ok (ws_pkts (ln_s l));
  li_taken : (ln_taken l <= length (ws_out (ln_s l)))%nat;
  li_buf : rb_wf (rs_buf (ln_r l));
  li_pool : pool_wf (rs_pool (ln_r l));
  li_frames : Forall frame_ok ms;
  li_bytes : ln_r_open l = true →
    unread (rs_buf (ln_r l)) ++ rs_sock (ln_r l) ++ wire l ++ pending (ln_s l) = concat ms ∧
    incomplete (unread (rs_buf (ln_r l)))
}.

Lemma link_step_inv l ms o :
  link_inv l ms →
  ∃ fs pkts l' ms', link_step junk callback l o = Some (fs, pkts, l') ∧ link_inv l' ms' ∧
    ms ++ fs = (pk_frame <$> pkts) ++ ms'.
Proof using FifoLaws0 callback_ok.
  intros Hl. pose proof Hl as [I1 I2 I3 I4 I5 I6 I7]. destruct o as [o|n|evs]; cbn [link_step].
  - destruct (ln_s_open l); [|exists [], [], l, ms; by rewrite app_nil_r].
    destruct (sender_step (ln_s l) o I1 I2) as (H1 & H2 & [x Hx] & H4 & H5).
    destruct (run_wop (ln_s l) o) as [r s']. cbn [snd] in *.
    exists (sent_frame (ln_s l) o), [], (Link s' (0 <=? r) (ln_taken l) (ln_r l) (ln_r_open l)), (ms ++ sent_frame (ln_s l) o).
    split; [done|]. split; [|done].
    split; cbn [ln_s ln_taken ln_r ln_r_open]; try done; [rewrite Hx, length_app; lia|by apply Forall_app|].
    intros Ho. destruct (I7 Ho) as [Hb Hi]. split; [|done]. rewrite concat_app, <-Hb.
    unfold wire; cbn [ln_taken ln_s]. rewrite Hx, drop_app_le by done. rewrite Hx, <-(app_assoc (ws_out (ln_s l))) in H4.
    apply (inj (app (ws_out (ln_s l)))) in H4. by rewrite <-!app_assoc, H4.
  - exists [], [], (Link (ln_s l) (ln_s_open l) (ln_taken l + length (take n (wire l)))
      (RState (rs_buf (ln_r l)) (rs_sock (ln_r l) ++ take n (wire l)) (rs_pool (ln_r l))) (ln_r_open l)), ms.
    rewrite app_nil_r. split; [done|]. split; [|done].
    split; cbn [ln_s ln_taken ln_r ln_r_open rs_buf rs_pool rs_sock]; try done.
    + unfold wire. rewrite length_take, length_drop. lia.
    + intros Ho. destruct (I7 Ho) as [Hb Hi]. split; [|done]. rewrite <-Hb, <-!app_assoc. do 2 f_equal.
      rewrite app_assoc. f_equal. unfold wire at 2. cbn [ln_taken ln_s]. rewrite <-drop_drop. fold (wire l).
      apply take_carried.
  - destruct (ln_r_open l) eqn:Eo; [|exists [], [], l, ms; by rewrite app_nil_r].
    destruct (I7 eq_refl) as [Hb Hi]. pose proof (wire_events_spec (wire l) evs) as Hw.
    destruct (wire_events (wire l) evs) as [revs n]. destruct Hw as [Ha Hn].
    destruct (poll_in_spec junk callback callback_ok (rs_buf (ln_r l)) (rs_sock (ln_r l)) (rs_pool (ln_r l)) revs ms
      (drop n (wire l) ++ pending (ln_s l)) I4 I5 I6) as (r & pkts & b & sock & g & ms1 & ms2 & E & Hb' & Hg' & -> & Hf & Hu & Hi').
    { rewrite Ha, <-Hb. do 2 f_equal. by rewrite app_assoc, take_drop. }
    rewrite E. cbn [mbind option_bind].
    exists [], pkts, (Link (ln_s l) (ln_s_open l) (ln_taken l + n) (RState b sock g) (0 <=? r)), ms2.
    split; [done|]. rewrite app_nil_r, Hf. split; [|done].
    split; cbn [ln_s ln_taken ln_r ln_r_open rs_buf rs_pool rs_sock]; try done.
    + unfold wire in Hn. rewrite length_drop in Hn. lia.
    + by apply Forall_app in I6 as [_ ?].
    + intros Hr. zbool. split; [|by apply Hi']. rewrite <-Hu. unfold wire. cbn [ln_taken ln_s]. by rewrite drop_drop.
Qed.

Lemma link_run_inv ops l ms :
  link_inv l ms →
  ∃ fs pkts l' ms', link_run junk callback l ops = Some (fs, pkts, l') ∧ link_inv l' ms' ∧
    ms ++ fs = (pk_frame <$> pkts) ++ ms'.
Proof using FifoLaws0 callback_ok.
  revert l ms. induction ops as [|o ops IH]; intros l ms Hl; cbn [link_run].
  - exists [], [], l, ms. by rewrite app_nil_r.
  - destruct (link_step_inv l ms o Hl) as (fs & pkts & l1 & ms1 & -> & H1 & E1). cbn [mbind option_bind].
    destruct (IH l1 ms1 H1) as (fs' & pkts' & l2 & ms2 & -> & H2 & E2). cbn [mbind option_bind].
    exists (fs ++ fs'), (pkts ++ pkts'), l2, ms2. split_and!; [done|done|].
    by rewrite app_assoc, E1, <-app_assoc, E2, fmap_app, app_assoc.
Qed.

(** a connection that has just been made *)
Record link_fresh (l : link Q) : Prop := {
  lf_s : ws_inv ext (ln_s l);
  lf_queue : fifo_list (ws_queue (ln_s l)) = [];
  lf_out : ws_out (ln_s l) = [];
  lf_pkts : pkts_ok (ws_pkts (ln_s l));
  lf_taken : ln_taken l = 0%nat;
  lf_buf : rb_wf (rs_buf (ln_r l));
  lf_unread : unread (rs_buf (ln_r l)) = [];
  lf_sock : rs_sock (ln_r l) = [];
  lf_pool : pool_wf (rs_pool (ln_r l))
}.

(** everything has been written, carried and read *)
Definition link_idle (l : link Q) : Prop :=
  fifo_list (ws_queue (ln_s l)) = [] ∧ ln_taken l = length (ws_out (ln_s l)) ∧ rs_sock (ln_r l) = [].

(** C11. A connection delivers: whatever the two kernels accept, delay, cut
    and interrupt, whoever else writes request ids into the packets that are
    queued, and whatever the receiver's callback does, neither end crashes,
    the packets the receiver gets are, byte for byte and in order, those that
    were handed to [s_net_send] so far, with the request ids they had then,
    and when nothing is under way any more it has got all of them. *)
Theorem link_delivers l ops :
  link_fresh l →
  ∃ sent got l', link_run junk callback l ops = Some (sent, got, l') ∧ pk_frame <$> got `prefix_of` sent ∧
    (ln_r_open l' = true → link_idle l' → pk_frame <$> got = sent).
Proof using FifoLaws0 callback_ok.
  intros [F1 F2 F3 F4 F5 F6 F7 F8 F9].
  assert (link_inv l []) as Hi.
  { split; try done; [rewrite F5; lia|]. intros _. rewrite F7, F8. unfold wire, pending, rest_of. rewrite F3, F2, drop_nil. split; [done|].
    left. done. }
  destruct (link_run_inv ops l [] Hi) as (sent & got & l' & ms & -> & Hl & E). cbn [app] in E.
  exists sent, got, l'. split; [done|]. split; [rewrite E; by apply prefix_app_r|]. intros Ho (Hq & Ht & Hs).
  destruct (li_bytes _ _ Hl Ho) as [Hb Hinc]. revert Hb. unfold wire, pending, rest_of. rewrite Hq, Ht, Hs, drop_all.
  cbn [fmap list_fmap concat app]. rewrite app_nil_r. intros Hb.
  rewrite E, (incomplete_nil _ ms Hinc (li_frames _ _ Hl) Hb). by rewrite app_nil_r.
Qed.
End delivery.

(** one packet of 12 bytes, written in two parts and read in three, while its
    request id is rewritten *)
Definition sample_sent : s_packet := Packet 12 12 1 4 (sample_frame 7 ++ replicate 16 0).
Definition sample_link : link (s_queue packet_node) :=
  Link (WState (fifo_new DEFAULT_PACKET_PENDING) {[ 7 := sample_sent ]} g_free_init []) true 0
    (RState (RBuf (replicate 16 0) 0 0) [] g_free_init) true.
Definition sample_link_ops : list link_op :=
  [LSender (WSendPkt 7 [WSend 9; WAgain]); LCarry 5; LPoll [WRead 3; WArrive 2; WInterrupt; WRead 40];
   LSender (WReq 7 258); LSender (WReady [WSend 100]); LCarry 10; LPoll [WRead 100]].

Lemma sample_link_fresh : link_fresh (λ _, 1) sample_link.
Proof.
  assert (whole sample_sent) as Hw.
  { split; [|discriminate]. split; [discriminate|]. split; [discriminate|]. split; [discriminate|].
    apply Forall_app. split; [apply sample_frame_ok; unfold is_byte; lia|]. apply Forall_replicate. unfold is_byte. lia. }
  split; cbn [ln_s ln_taken ln_r sample_link ws_queue ws_out ws_pkts rs_buf rs_sock rs_pool]; try done.
  - split; [apply fifo_new_ok|]. cbn [ws_queue ws_pkts]. rewrite (proj2 (fifo_new_ok _)). split.
    + lia.
    + by intros id p [_ <-]%lookup_singleton_Some.
    + apply Forall_nil. exact I.
    + by intros id p [_ <-]%lookup_singleton_Some.
  - intros id p [_ <-]%lookup_singleton_Some. split; [done|]. apply (sample_frame_ok 7). unfold is_byte. lia.
  - apply g_free_init_wf.
Qed.

Lemma link_delivers_witness :
  (∃ got l', link_run 0 (λ p g, (p, g)) sample_link sample_link_ops = Some ([sample_frame 7], got, l') ∧
     pk_frame <$> got = [sample_frame 7] ∧ link_idle l') ∧
  ∃ sent got l', link_run 0 (λ p g, (p, g)) sample_link sample_link_ops = Some (sent, got, l') ∧ pk_frame <$> got `prefix_of` sent ∧
    (ln_r_open l' = true → link_idle l' → pk_frame <$> got = sent).
Proof.
  split; [eexists _, _; split; [vm_compute; reflexivity|split; [reflexivity|split; [reflexivity|split; reflexivity]]]|].
  apply (link_delivers 0 (λ p g, (p, g))) with (ext := λ _, 1); [by intros|exact sample_link_fresh].
Defined.
