(* ===== verification/NetConn.v ===== *)
(** * [net/s_net.c]: the connections of a net and one [epoll] event

    A connection is known by the address of its link; [conn_list] is the list
    of the connections that may be used again. *)

From S2P Require Import Prelude SList.
Local Open Scope Z_scope.

(** ** Getting and putting connections *)

Record s_conn := Conn {
  cn_fd : Z;
  cn_ip : list Z;            (* [char ip[15]] and the byte up to [port] *)
  cn_port : Z;
  cn_udata : Z;
  cn_has_queue : bool;       (* [write_queue], [read_buf] are not [NULL] *)
  cn_read_buf_p : Z;
  cn_read_buf_curr : Z
}.

Record s_net := Net {
  nt_links : links;
  nt_conns : gmap Z s_conn;
  nt_conn_list : Z;          (* address of the list head *)
  nt_nconn : Z;
  nt_nconn_free : Z
}.

(** the fields that [iget_conn] sets again: of [ip], the first byte *)
Definition conn_reset (ip : list Z) : s_conn := Conn (-1) (0 :: tail ip) 0 0 true 0 0.

(** what [ip] holds, [junk] in memory that was never set *)
Definition conn_ip (net : s_net) (conn : Z) (junk : list Z) : list Z :=
  from_option cn_ip junk (nt_conns net !! conn).

(** [fresh] is the address [s_malloc] would return, [junk] what it holds *)
Definition iget_conn (net : s_net) (fresh : Z) (junk : list Z) : Z * s_net :=
  let '(conn, net) :=
    if negb (s_list_empty (nt_links net) (nt_conn_list net)) then
      let l := s_list_first (nt_links net) (nt_conn_list net) in
      (l, Net (s_list_del (nt_links net) l) (nt_conns net) (nt_conn_list net)
            (nt_nconn net) (nt_nconn_free net - 1))
    else
      (fresh, Net (nt_links net) (nt_conns net) (nt_conn_list net) (nt_nconn net + 1) (nt_nconn_free net)) in
  (conn, Net (s_list_init (nt_links net) conn)
           (<[conn := conn_reset (conn_ip net conn junk)]> (nt_conns net)) (nt_conn_list net) (nt_nconn net) (nt_nconn_free net)).

Definition iput_conn (net : s_net) (conn : Z) : s_net :=
  Net (s_list_insert (nt_links net) (nt_conn_list net) conn) (nt_conns net) (nt_conn_list net)
    (nt_nconn net) (nt_nconn_free net + 1).

(** the list part of [irm_conn] ([drop_queue] is the other) *)
Definition irm_conn (net : s_net) (conn : Z) : s_net :=
  Net (s_list_insert (s_list_del (nt_links net) conn) (nt_conn_list net) conn) (nt_conns net)
    (nt_conn_list net) (nt_nconn net) (nt_nconn_free net).

(** [iclose_conn_positive], [s_net_close]: after the callback *)
Definition iclose_conn (net : s_net) (conn : Z) : s_net := iput_conn (irm_conn net conn) conn.

(** ** A closed connection *)
Section closed.

Lemma next_insert h hd e q :
  next (link_at (s_list_insert h hd e) q) =
  if decide (hd = q) then e else if decide (e = q) then next (link_at h hd) else next (link_at h q).
Proof. unfold s_list_insert, list_insert_between. links_simpl; done. Qed.
Lemma prev_insert h hd e q :
  prev (link_at (s_list_insert h hd e) q) =
  if decide (next (link_at h hd) = q) then e else if decide (e = q) then hd else prev (link_at h q).
Proof. unfold s_list_insert, list_insert_between. links_simpl; done. Qed.
Lemma next_init h e q : next (link_at (s_list_init h e) q) = if decide (e = q) then e else next (link_at h q).
Proof. unfold s_list_init. links_simpl; done. Qed.
Lemma prev_init h e q : prev (link_at (s_list_init h e) q) = if decide (e = q) then e else prev (link_at h q).
Proof. unfold s_list_init. links_simpl; done. Qed.
Lemma next_del h e q :
  next (link_at (s_list_del h e) q) = if decide (e = q) then e
    else if decide (prev (link_at h e) = q) then next (link_at h e) else next (link_at h q).
Proof. unfold s_list_del. rewrite next_init. case_decide; [done|]. links_simpl; done. Qed.

(** a connection that is alone on its link and put on an empty list by
    [iclose_conn] links to itself *)
Lemma iclose_conn_links net c :
  is_list (nt_links net) (nt_conn_list net) [] → is_list (nt_links net) c [] → c ≠ nt_conn_list net →
  let h := nt_links (iclose_conn net c) in
  next (link_at h (nt_conn_list net)) = c ∧ next (link_at h c) = c ∧ prev (link_at h c) = c.
Proof.
  intros Hl Hc Hne. destruct Hl as [_ [[Hn Hp] _]], Hc as [_ [[Hcn Hcp] _]].
  unfold iclose_conn, iput_conn, irm_conn. cbn [nt_links nt_conn_list].
  set (h1 := s_list_del (nt_links net) c).
  assert (next (link_at h1 (nt_conn_list net)) = nt_conn_list net) as E1.
  { unfold h1. rewrite next_del, Hcp, Hcn. by rewrite !decide_False. }
  rewrite !next_insert, !prev_insert, !next_insert, E1.
  rewrite !(decide_True (P := nt_conn_list net = nt_conn_list net)) by done.
  rewrite (decide_False (P := nt_conn_list net = c)) by done. rewrite !(decide_True (P := c = c)) by done.
  done.
Qed.

Lemma iget_conn_self net c fresh junk :
  let h := nt_links net in
  next (link_at h (nt_conn_list net)) = c → next (link_at h c) = c → prev (link_at h c) = c →
  c ≠ nt_conn_list net →
  let '(c', net') := iget_conn net fresh junk in
  c' = c ∧ nt_conn_list net' = nt_conn_list net ∧
  next (link_at (nt_links net') (nt_conn_list net)) = c ∧
  next (link_at (nt_links net') c) = c ∧ prev (link_at (nt_links net') c) = c.
Proof.
  intros h E1 E2 E3 Hne. unfold iget_conn, s_list_empty, s_list_first. fold h. rewrite E1.
  rewrite bool_decide_eq_false_2 by done. cbn [negb nt_links nt_conn_list].
  rewrite !next_init, !prev_init, next_del, E2, E3.
  rewrite !(decide_True (P := c = c)), !(decide_False (P := c = nt_conn_list net)) by done. done.
Qed.

(** Closing a connection puts its link on the list of free connections
    twice ([irm_conn] and then [iput_conn]): the link then points to itself,
    taking it off the list leaves it there, and the next two connections,
    both alive, are the same object, whatever the free memory. *)
Theorem closed_conn_handed_out_twice net c fresh1 fresh2 junk :
  is_list (nt_links net) (nt_conn_list net) [] → is_list (nt_links net) c [] → c ≠ nt_conn_list net →
  let '(c1, net1) := iget_conn (iclose_conn net c) fresh1 junk in
  let '(c2, net2) := iget_conn net1 fresh2 junk in
  c1 = c ∧ c2 = c ∧ nt_nconn net2 = nt_nconn net.
Proof.
  intros Hl Hc Hne. destruct (iclose_conn_links net c Hl Hc Hne) as (E1 & E2 & E3).
  pose proof (iget_conn_self (iclose_conn net c) c fresh1 junk E1 E2 E3 Hne) as H1.
  assert (nt_nconn (iget_conn (iclose_conn net c) fresh1 junk).2 = nt_nconn net) as Hn1.
  { unfold iget_conn, s_list_empty. cbn [nt_conn_list iclose_conn iput_conn irm_conn] in *. rewrite E1.
    by rewrite bool_decide_eq_false_2. }
  destruct (iget_conn (iclose_conn net c) fresh1 junk) as [c1 net1]. destruct H1 as (-> & Eh & F1 & F2 & F3).
  cbn [nt_conn_list iclose_conn iput_conn irm_conn snd] in *. rewrite <-Eh in F1.
  pose proof (iget_conn_self net1 c fresh2 junk F1 F2 F3) as H2.
  assert (nt_nconn (iget_conn net1 fresh2 junk).2 = nt_nconn net1) as Hn2.
  { unfold iget_conn, s_list_empty. rewrite F1, bool_decide_eq_false_2 by congruence. done. }
  destruct (iget_conn net1 fresh2 junk) as [c2 net2]. destruct H2 as (-> & _); [congruence|].
  cbn in Hn2. split_and!; congruence.
Qed.

(** one connection, at address 20, the list head at 10 *)
Definition sample_net : s_net :=
  Net (s_list_init (s_list_init ∅ 10) 20) {[ 20 := conn_reset [] ]} 10 1 0.

Lemma closed_conn_handed_out_twice_witness :
  (iget_conn (iget_conn (iclose_conn sample_net 20) 30 []).2 40 []).1 = 20 ∧
  let '(c1, net1) := iget_conn (iclose_conn sample_net 20) 30 [] in
  let '(c2, net2) := iget_conn net1 40 [] in
  c1 = 20 ∧ c2 = 20 ∧ nt_nconn net2 = nt_nconn sample_net.
Proof.
  split; [vm_compute; reflexivity|].
  apply closed_conn_handed_out_twice; [| |discriminate];
    (split; [apply NoDup_singleton|split; [split; vm_compute; reflexivity|exact I]]).
Defined.
End closed.
