(* ===== verification/NetFd.v ===== *)
(** * [net/s_net.c]: the descriptors of a net

    [s_net_create], [s_net_connect], [ilisten_accept], [s_net_close] and the
    walk of [s_net_poll] over a batch of events, on the descriptors that are
    open and on those that [epoll] watches.  The program calls back in the
    middle of these: what is left to do is a list of actions ([act]), and
    while a callback runs the program may call the net again.  What the bytes
    of a connection are is in [Net] and [NetSend]; here a read or a write
    succeeds or fails. *)

From S2P Require Import Prelude SList NetConn.
Local Open Scope Z_scope.

(** ** The kernel *)

(** the open descriptors, and those of them that are watched with their
    [data.ptr] *)
Record kernel := Kernel { kn_open : gset Z; kn_epoll : gmap Z Z }.

(** [socket], [accept4] and [epoll_create] give a descriptor that is not open *)
Definition kn_fresh (k : kernel) (fd : Z) : bool := (0 <=? fd) && bool_decide (fd ∉ kn_open k).
Definition sys_open (k : kernel) (fd : Z) : kernel := Kernel ({[ fd ]} ∪ kn_open k) (kn_epoll k).

(** a new [epoll] watches nothing *)
Definition sys_epoll_create (k : kernel) (fd : Z) : kernel := Kernel ({[ fd ]} ∪ kn_open k) ∅.

(** a closed descriptor is not watched any more *)
Definition sys_close (k : kernel) (fd : Z) : kernel :=
  Kernel (kn_open k ∖ {[ fd ]}) (delete fd (kn_epoll k)).

(** [EPOLL_CTL_ADD] fails with [EBADF] and [EEXIST], [EPOLL_CTL_DEL] with
    [ENOENT]; [ok] is whether it fails for another reason *)
Definition sys_epoll_add (k : kernel) (fd data : Z) (ok : bool) : option kernel :=
  if ok && bool_decide (fd ∈ kn_open k) && bool_decide (kn_epoll k !! fd = None)
  then Some (Kernel (kn_open k) (<[fd := data]> (kn_epoll k))) else None.
Definition sys_epoll_del (k : kernel) (fd : Z) (ok : bool) : option kernel :=
  if ok && bool_decide (is_Some (kn_epoll k !! fd))
  then Some (Kernel (kn_open k) (delete fd (kn_epoll k))) else None.

(** ** The net *)

Definition DEFAULT_EPOLL_EVENTS_SZ : Z := 1024.

Inductive net_call := CAccept (conn : Z) | CPacket (conn : Z) | CClosed (conn : Z) | CClosing (conn : Z).

(** [struct s_net] without the connections, which are [fn_net]; the calls of
    [callback] are written down in [fn_calls] *)
Record fnet := FNet {
  fn_efd : Z;
  fn_events_sz : Z;
  fn_nfd : Z;
  fn_lfd : Z;
  fn_listen_port : Z;
  fn_net : s_net;
  fn_callback : bool;        (* [callback] is not [NULL] *)
  fn_kern : kernel;
  fn_calls : list net_call
}.

Definition with_net (s : fnet) (n : s_net) : fnet :=
  FNet (fn_efd s) (fn_events_sz s) (fn_nfd s) (fn_lfd s) (fn_listen_port s) n (fn_callback s) (fn_kern s) (fn_calls s).
Definition with_kern (s : fnet) (nfd : Z) (k : kernel) : fnet :=
  FNet (fn_efd s) (fn_events_sz s) nfd (fn_lfd s) (fn_listen_port s) (fn_net s) (fn_callback s) k (fn_calls s).
Definition with_call (s : fnet) (c : net_call) : fnet :=
  FNet (fn_efd s) (fn_events_sz s) (fn_nfd s) (fn_lfd s) (fn_listen_port s) (fn_net s) (fn_callback s) (fn_kern s)
    (if fn_callback s then fn_calls s ++ [c] else fn_calls s).

Definition iadd_fd (s : fnet) (fd data : Z) (ok : bool) : Z * fnet :=
  match sys_epoll_add (fn_kern s) fd data ok with
  | None => (-1, s)
  | Some k => (0, with_kern s (fn_nfd s + 1) k)
  end.

Definition irm_fd (s : fnet) (fd : Z) (ok : bool) : Z * fnet :=
  match sys_epoll_del (fn_kern s) fd ok with
  | None => (-1, s)
  | Some k => (0, with_kern s (fn_nfd s - 1) (sys_close k fd))
  end.

(** ** Creating a net *)

(** what the system calls of [s_net_create] return *)
Record create_env := CreateEnv {
  ce_efd : Z; ce_lfd : Z; ce_reuse : bool; ce_bind : bool; ce_listen : bool; ce_add : bool
}.

(** the descriptors are new ones *)
Definition create_ok (k : kernel) (e : create_env) : bool :=
  ((ce_efd e <? 0) || kn_fresh k (ce_efd e))
  && ((ce_lfd e <? 0) || kn_fresh (sys_epoll_create k (ce_efd e)) (ce_lfd e)).

(** [&net->conn_list] is at [head]; [None] is [NULL] *)
Definition s_net_create (k : kernel) (head listen_port : Z) (callback : bool) (e : create_env) : option fnet * kernel :=
  if ce_efd e <? 0 then (None, k) else
  let k := sys_epoll_create k (ce_efd e) in
  let fresh lfd port nfd k := FNet (ce_efd e) DEFAULT_EPOLL_EVENTS_SZ nfd lfd port
    (Net (s_list_init ∅ head) ∅ head 0 0) callback k [] in
  if listen_port >? 0 then
    if ce_lfd e <? 0 then (None, k) else
    let k := sys_open k (ce_lfd e) in
    if negb (ce_reuse e) then (None, k) else
    if negb (ce_bind e) then (None, k) else
    if negb (ce_listen e) then (None, k) else
    let s := (iadd_fd (fresh (ce_lfd e) listen_port 0 k) (ce_lfd e) 0 (ce_add e)).2 in
    (Some (with_kern s 0 (fn_kern s)), fn_kern s)       (* [net->nfd = 0] comes after [iadd_fd] *)
  else (Some (fresh (-1) (-1) 0 k), k).

(** ** Connections *)

Definition iadd_conn (s : fnet) (conn : Z) (ok : bool) : option (Z * fnet) :=
  c ← nt_conns (fn_net s) !! conn; Some (iadd_fd s (cn_fd c) conn ok).

(** [irm_conn] with its descriptor, and [iput_conn] *)
Definition release_conn (s : fnet) (conn : Z) (ok : bool) : option fnet :=
  c ← nt_conns (fn_net s) !! conn;
  let s := (irm_fd s (cn_fd c) ok).2 in
  Some (with_net s (iput_conn (irm_conn (fn_net s) conn) conn)).

Definition set_conn (n : s_net) (conn fd : Z) (ip : list Z) (port : Z) : s_net :=
  Net (nt_links n)
    (alter (λ c, Conn fd ip port (cn_udata c) (cn_has_queue c) (cn_read_buf_p c) (cn_read_buf_curr c)) conn (nt_conns n))
    (nt_conn_list n) (nt_nconn n) (nt_nconn_free n).

(** [memcpy] of a string [ip] into [conn->ip]: at most 15 bytes in
    [ilisten_accept], all with its 0 in [s_net_connect] *)
Definition accept_ip (old ip : list Z) : list Z := splice 0 (take 15 (ip ++ [0])) old.
Definition connect_ip (old ip : list Z) : list Z := splice 0 (ip ++ [0]) old.

Definition htons (p : Z) : Z := Z.lor (Z.shiftl (Z.land p 255) 8) (Z.land (Z.shiftr p 8) 255).

(** a string in the first [n] bytes, if it ends there *)
Fixpoint c_string (l : list Z) : option (list Z) :=
  match l with
  | [] => None
  | b :: l => if b =? 0 then Some [] else cons b <$> c_string l
  end.

(** what a reader of [conn->ip] finds in its 15 bytes *)
Definition s_net_ip (c : s_conn) : option (list Z) := c_string (take 15 (cn_ip c)).
Definition s_net_port (c : s_conn) : Z := cn_port c.

(** what [s_malloc] gives: an address and its bytes at [ip] *)
Definition alloc : Type := Z * list Z.

(** [None]: [ip] does not fit into [conn->ip] and the byte behind it *)
Definition s_net_connect (s : fnet) (ip : list Z) (port : Z) (fd : Z) (connected : bool) (al : alloc) (add_ok : bool)
    : option (Z * fnet) :=
  let k := if 0 <=? fd then sys_open (fn_kern s) fd else fn_kern s in
  let s := with_kern s (fn_nfd s) k in
  if negb connected || (fd <? 0) then Some (0, s) else
  let '(conn, n) := iget_conn (fn_net s) al.1 al.2 in
  if 15 <? Z.of_nat (length ip) then None else
  let s := with_net s (set_conn n conn fd (connect_ip (conn_ip n conn []) ip) port) in
  '(_, s) ← iadd_conn s conn add_ok;
  Some (conn, s).

(** one round of [ilisten_accept], [accept4] has given [fd] *)
Definition accept_one (s : fnet) (fd : Z) (ip : list Z) (sin_port : Z) (al : alloc) (add_ok : bool) : option fnet :=
  let s := with_kern s (fn_nfd s) (sys_open (fn_kern s) fd) in
  let '(conn, n) := iget_conn (fn_net s) al.1 al.2 in
  let s := with_net s (set_conn n conn fd (accept_ip (conn_ip n conn []) ip) (htons sin_port)) in
  '(_, s) ← iadd_conn s conn add_ok;
  Some (with_call s (CAccept conn)).

(** the buffer of events of [s_net_poll] *)
Definition poll_room (s : fnet) : fnet :=
  if fn_nfd s >? fn_events_sz s then
    FNet (fn_efd s) (s_roundup (fn_nfd s + 1) 64) (fn_nfd s) (fn_lfd s) (fn_listen_port s) (fn_net s) (fn_callback s)
      (fn_kern s) (fn_calls s)
  else s.

(** ** Running *)

(** [EPOLLIN], [EPOLLOUT] *)
Record event := Event { ev_in : bool; ev_out : bool }.

(** what is left to do: a callback of the program is running; a connection
    is to be released after its callback; the loops of [s_net_poll] over the
    packets of a connection and over the events, the loop of
    [ilisten_accept] *)
Inductive act :=
  | AUser
  | ARelease (conn : Z)
  | APackets (conn : Z)
  | AAccept
  | AEvents (l : list (Z * event)).

(** what happens next: the program calls the net or returns to it; what the
    kernel answers to the net *)
Inductive net_input :=
  | UReturn
  | UClose (conn : Z)
  | USend (conn : Z) (written : bool)
  | UConnect (ip : list Z) (port : Z) (fd : Z) (connected : bool) (al : alloc) (add_ok : bool)
  | UPoll (ready : option (list (Z * event)))       (* [epoll_wait] may fail *)
  | IEvent (ok : bool)                              (* of [iread_conn], [iwrite_conn] *)
  | IPacket (more : bool)                           (* of [inext_packet] *)
  | IRetry                                          (* [accept4]: [EINTR] *)
  | IStop                                           (* [accept4]: another error *)
  | IAccept (fd : Z) (ip : list Z) (sin_port : Z) (al : alloc) (add_ok : bool)
  | IRelease (del_ok : bool).

(** the callback runs, then the rest *)
Definition call_back (s : fnet) (c : net_call) (k : list act) : fnet * list act :=
  (with_call s c, if fn_callback s then AUser :: k else k).

Definition iclose_conn_positive (s : fnet) (conn : Z) (k : list act) : fnet * list act :=
  call_back s (CClosed conn) (ARelease conn :: k).
Definition s_net_close (s : fnet) (conn : Z) (k : list act) : fnet * list act :=
  call_back s (CClosing conn) (ARelease conn :: k).
Definition s_net_send (s : fnet) (conn : Z) (written : bool) (k : list act) : fnet * list act :=
  if written then (s, k) else iclose_conn_positive s conn k.

(** the program runs in a callback or outside of the net *)
Definition user (k : list act) : bool := match k with [] | AUser :: _ => true | _ => false end.

Definition is_conn (s : fnet) (conn : Z) : bool := bool_decide (is_Some (nt_conns (fn_net s) !! conn)).
Definition al_fresh (s : fnet) (al : alloc) : bool :=
  bool_decide (al.1 ≠ 0) && bool_decide (al.1 ≠ nt_conn_list (fn_net s)) && negb (is_conn s al.1)
  && bool_decide (length al.2 = 16%nat).

(** [epoll_wait]: watched descriptors, each once, no more than there is room *)
Definition poll_events (s : fnet) (ready : list (Z * event)) : option (list (Z * event)) :=
  if bool_decide (NoDup ready.*1) && (Z.of_nat (length ready) <=? fn_events_sz s)
  then mapM (λ '(fd, ev), (λ p, (p, ev)) <$> kn_epoll (fn_kern s) !! fd) ready else None.

(** the body of the loop over the events *)
Definition poll_event (s : fnet) (p : Z) (ev : event) (ok : bool) (k : list act) : fnet * list act :=
  if p =? 0 then (s, AAccept :: k)
  else if ev_in ev then if ok then (s, APackets p :: k) else iclose_conn_positive s p k
  else if ev_out ev then if ok then (s, k) else iclose_conn_positive s p k
  else iclose_conn_positive s p k.

(** [None]: this can not happen now *)
Definition net_step (s : fnet) (k : list act) (i : net_input) : option (fnet * list act) :=
  match i, k with
  | UReturn, AUser :: k => Some (s, k)
  | UClose conn, _ => if user k && is_conn s conn then Some (s_net_close s conn k) else None
  | USend conn w, _ => if user k && is_conn s conn then Some (s_net_send s conn w k) else None
  | UConnect ip port fd ok al add_ok, _ =>
      if user k && ((fd <? 0) || kn_fresh (fn_kern s) fd) && al_fresh s al
      then '(_, s) ← s_net_connect s ip port fd ok al add_ok; Some (s, k) else None
  | UPoll None, [] => Some (poll_room s, [])
  | UPoll (Some ready), [] =>
      let s := poll_room s in l ← poll_events s ready; Some (s, [AEvents l])
  | IEvent _, AEvents [] :: k => Some (s, k)
  | IEvent ok, AEvents ((p, ev) :: l) :: k => Some (poll_event s p ev ok (AEvents l :: k))
  | IPacket more, APackets conn :: k =>
      Some (if more then call_back s (CPacket conn) (APackets conn :: k) else (s, k))
  | IRetry, AAccept :: _ => Some (s, k)
  | IStop, AAccept :: k => Some (s, k)
  | IAccept fd ip port al add_ok, AAccept :: k =>
      if kn_fresh (fn_kern s) fd && al_fresh s al
      then s' ← accept_one s fd ip port al add_ok; Some (s', if fn_callback s then AUser :: AAccept :: k else AAccept :: k)
      else None
  | IRelease ok, ARelease conn :: k => s ← release_conn s conn ok; Some (s, k)
  | _, _ => None
  end.

Definition net_run (s : fnet) (k : list act) (ins : list net_input) : option (fnet * list act) :=
  foldl (λ o i, '(s, k) ← o; net_step s k i) (Some (s, k)) ins.

(** ** The pool of connections *)

(** every link of the set [P] leads to links of it *)
Definition links_closed (P : Z → Prop) (h : links) : Prop :=
  ∀ q, P q → P (next (link_at h q)) ∧ P (prev (link_at h q)).

Section links_closed.
Context (P : Z → Prop).
Implicit Types (h : links).

Lemma closed_set_next h p v : links_closed P h → P v → links_closed P (set_next h p v).
Proof. intros Hh Hv q Hq. rewrite next_set_next, prev_set_next. specialize (Hh q Hq). case_decide; tauto. Qed.
Lemma closed_set_prev h p v : links_closed P h → P v → links_closed P (set_prev h p v).
Proof. intros Hh Hv q Hq. rewrite next_set_prev, prev_set_prev. specialize (Hh q Hq). case_decide; tauto. Qed.
Lemma closed_init h e : links_closed P h → P e → links_closed P (s_list_init h e).
Proof. intros. unfold s_list_init. by apply closed_set_prev; [apply closed_set_next|]. Qed.

Lemma closed_insert h hd e : links_closed P h → P hd → P e → links_closed P (s_list_insert h hd e).
Proof.
  intros Hh Hhd He. pose proof (proj1 (Hh hd Hhd)). unfold s_list_insert, list_insert_between.
  auto using closed_set_next, closed_set_prev.
Qed.

Lemma closed_del h e : links_closed P h → P e → links_closed P (s_list_del h e).
Proof.
  intros Hh He. unfold s_list_del. apply closed_init; [|done].
  set (h1 := set_next _ _ _). assert (links_closed P h1) as H1 by (apply closed_set_next; [done|apply Hh, He]).
  apply closed_set_prev; [done|]. apply H1, He.
Qed.

(** a link that is set up joins the set *)
Lemma closed_init_new (Q : Z → Prop) h e :
  links_closed P h → (∀ q, Q q ↔ q = e ∨ P q) → links_closed Q (s_list_init h e).
Proof.
  intros Hh HQ q Hq. unfold s_list_init. rewrite next_set_prev, prev_set_prev, next_set_next, prev_set_next.
  case_decide; subst; rewrite !HQ; [naive_solver|]. destruct (proj1 (HQ q) Hq) as [->|HP]; [done|].
  specialize (Hh q HP). naive_solver.
Qed.
End links_closed.

Definition is_link (n : s_net) (q : Z) : Prop := q = nt_conn_list n ∨ is_Some (nt_conns n !! q).

Record pool_inv (n : s_net) : Prop := {
  pi_links : links_closed (is_link n) (nt_links n);
  pi_conns c cn : nt_conns n !! c = Some cn → c ≠ 0 ∧ c ≠ nt_conn_list n ∧ length (cn_ip cn) = 16%nat;
  pi_nconn : nt_nconn n = Z.of_nat (size (nt_conns n))
}.

Section pool.
Implicit Types (n : s_net).

Lemma iget_conn_inv n fresh junk c n' :
  pool_inv n → iget_conn n fresh junk = (c, n') →
  fresh ≠ 0 → fresh ≠ nt_conn_list n → nt_conns n !! fresh = None → length junk = 16%nat →
  pool_inv n' ∧ nt_conn_list n' = nt_conn_list n ∧ c ≠ 0 ∧
  nt_conns n' = <[c := conn_reset (conn_ip n c junk)]> (nt_conns n).
Proof.
  intros [Hl Hc Hn] E F0 Fh Fn Fj. unfold iget_conn, s_list_empty, s_list_first in E.
  assert (∀ x, length (conn_ip n x junk) = 16%nat) as Hip.
  { intros x. unfold conn_ip. destruct (nt_conns n !! x) as [cn|] eqn:Ex; [|done]. by destruct (Hc x cn Ex) as (_ & _ & ?). }
  assert (∀ x, length (cn_ip (conn_reset (conn_ip n x junk))) = 16%nat) as Hreset.
  { intros x. specialize (Hip x). by destruct (conn_ip n x junk). }
  case_bool_decide as He; cbn [negb] in E; injection E as <- <-;
    (split; [|split_and!; [done| |done]]); [| done | |].
  - split; cbn [nt_links nt_conns nt_conn_list nt_nconn].
    + apply closed_init_new with (P := is_link n); [done|]. intros q. unfold is_link; cbn [nt_conns nt_conn_list].
      rewrite lookup_insert_is_Some'. naive_solver.
    + intros c cn. rewrite lookup_insert. case_decide; [|by apply Hc]. intros [= <-]. subst.
      split_and!; [done|done|apply Hreset].
    + rewrite map_size_insert_None by done. lia.
  - destruct (proj1 (Hl _ (or_introl eq_refl))) as [?|[cn Hcn]]; [done|].
    split; cbn [nt_links nt_conns nt_conn_list nt_nconn].
    + apply closed_init_new with (P := is_link n).
      * apply closed_del; [done|]. right; eauto.
      * intros q. unfold is_link; cbn [nt_conns nt_conn_list]. rewrite lookup_insert_is_Some'. naive_solver.
    + intros c cn'. rewrite lookup_insert. case_decide; [|by apply Hc]. intros [= <-]. subst.
      destruct (Hc _ _ Hcn) as (? & ? & _). split_and!; [done|done|apply Hreset].
    + rewrite map_size_insert_Some; [done|eauto].
  - destruct (proj1 (Hl _ (or_introl eq_refl))) as [?|[cn Hcn]]; [done|]. by apply (Hc _ _ Hcn).
Qed.

Lemma set_conn_inv n c fd ip port :
  pool_inv n → length ip = 16%nat → pool_inv (set_conn n c fd ip port).
Proof.
  intros [Hl Hc Hn] Hip.
  split; cbn [set_conn nt_links nt_conns nt_conn_list nt_nconn].
  - intros q. unfold is_link, set_conn; cbn [nt_conns nt_conn_list]. rewrite !lookup_alter_is_Some. apply Hl.
  - intros c' cn. rewrite lookup_alter. case_decide; [|apply Hc]. subst c'.
    destruct (nt_conns n !! c) as [cn0|] eqn:Ec; [|done]. intros [= <-]. destruct (Hc _ _ Ec) as (? & ? & ?). auto.
  - rewrite Hn. f_equal. by rewrite <-!size_dom, dom_alter_L.
Qed.

Lemma put_conn_inv n c :
  pool_inv n → is_Some (nt_conns n !! c) → pool_inv (iput_conn (irm_conn n c) c).
Proof.
  intros [Hl Hc Hn] Hs. split; cbn [iput_conn irm_conn nt_links nt_conns nt_conn_list nt_nconn]; [|done|done].
  assert (is_link n c) by (by right). assert (is_link n (nt_conn_list n)) by (by left).
  auto using closed_insert, closed_del.
Qed.
End pool.

(** ** The descriptors *)

Abbreviation epoll_of s := (kn_epoll (fn_kern s)).
Abbreviation open_of s := (kn_open (fn_kern s)).
Abbreviation conns_of s := (nt_conns (fn_net s)).

(** [nfd] counts what is watched, but for the listening socket: its
    [iadd_fd] comes before [nfd] is set to 0 *)
Record net_inv (s : fnet) : Prop := {
  ni_pool : pool_inv (fn_net s);
  ni_efd : fn_efd s ∈ open_of s;
  ni_lfd : 0 <= fn_lfd s → fn_lfd s ∈ open_of s;
  ni_open fd p : epoll_of s !! fd = Some p → fd ∈ open_of s ∧ 0 <= fd;
  ni_data fd p : epoll_of s !! fd = Some p →
    if decide (fd = fn_lfd s) then p = 0 else is_Some (conns_of s !! p);
  ni_fds c cn : conns_of s !! c = Some cn → cn_fd cn ≠ fn_lfd s ∧ cn_fd cn ≠ fn_efd s;
  ni_count : Z.of_nat (size (epoll_of s)) =
    fn_nfd s + if decide (is_Some (epoll_of s !! fn_lfd s)) then 1 else 0;
  ni_room : DEFAULT_EPOLL_EVENTS_SZ <= fn_events_sz s
}.

(** what never changes, or only grows *)
Record net_le (s s' : fnet) : Prop := {
  nl_lfd : fn_lfd s' = fn_lfd s;
  nl_port : fn_listen_port s' = fn_listen_port s;
  nl_listen : epoll_of s' !! fn_lfd s = epoll_of s !! fn_lfd s;
  nl_conns c : is_Some (conns_of s !! c) → is_Some (conns_of s' !! c)
}.

#[export] Instance net_le_po : PreOrder net_le.
Proof.
  split; [by split|]. intros s1 s2 s3 [L1 P1 E1 C1] [L2 P2 E2 C2]. rewrite L1 in E2. split; [congruence..|auto].
Qed.

(** every pointer that is still to be followed leads to a connection, and
    [accept4] is only called with a listening socket *)
Definition ptr_ok (s : fnet) (p : Z) : Prop := if decide (p = 0) then 0 <= fn_lfd s else is_Some (conns_of s !! p).
Definition act_ok (s : fnet) (a : act) : Prop :=
  match a with
  | AUser => True
  | ARelease c | APackets c => is_Some (conns_of s !! c)
  | AAccept => 0 <= fn_lfd s
  | AEvents l => Forall (ptr_ok s) l.*1
  end.

Lemma act_ok_le s s' k : net_le s s' → Forall (act_ok s) k → Forall (act_ok s') k.
Proof.
  intros [L _ _ C] Hk. eapply Forall_impl; [done|]. intros [|c|c| |l]; simpl; auto; [by rewrite L|].
  intros Hl. eapply Forall_impl; [done|]. unfold ptr_ok. intros p. case_decide; [by rewrite L|auto].
Qed.

Section descriptors.
Implicit Types (s : fnet) (k : list act).

Lemma with_call_inv s c : net_inv s → net_inv (with_call s c) ∧ net_le s (with_call s c).
Proof. intros [? ? ? ? ? ? ? ?]. split; by split. Qed.

Lemma poll_room_inv s : net_inv s → net_inv (poll_room s) ∧ net_le s (poll_room s) ∧ fn_nfd s <= fn_events_sz (poll_room s).
Proof.
  intros [? ? ? ? ? ? ? Hr]. unfold poll_room. destruct (fn_nfd s >? fn_events_sz s) eqn:E; zbool.
  - pose proof (s_roundup_ge_pow2 (fn_nfd s + 1) 6 ltac:(lia)) as Hu. change (2 ^ 6) with 64 in Hu.
    assert (DEFAULT_EPOLL_EVENTS_SZ <= s_roundup (fn_nfd s + 1) 64) by lia.
    split; [by split|split; [by split|simpl; lia]].
  - split; [by split|split; [by split|lia]].
Qed.

Lemma irm_fd_inv s fd ok :
  net_inv s → fd ≠ fn_lfd s → fd ≠ fn_efd s → net_inv (irm_fd s fd ok).2 ∧ net_le s (irm_fd s fd ok).2.
Proof.
  intros Hi Hl He. unfold irm_fd, sys_epoll_del. destruct (ok && _) eqn:E; [|by split].
  apply andb_prop in E as [_ [p Hp]%bool_decide_eq_true]. destruct Hi as [I1 I2 I3 I4 I5 I6 I7 I8].
  unfold sys_close. cbn [snd kn_open kn_epoll]. rewrite (delete_delete_eq (M := gmap Z)).
  split; split; cbn [with_kern fn_net fn_efd fn_lfd fn_nfd fn_kern fn_events_sz kn_open kn_epoll]; auto.
  - set_solver.
  - intros. set_solver.
  - intros fd' p' [Hne Hp']%lookup_delete_Some. destruct (I4 _ _ Hp'). split; [set_solver|done].
  - intros fd' p' [Hne Hp']%lookup_delete_Some. by apply I5.
  - rewrite lookup_delete_ne by done. rewrite map_size_delete_Some by eauto.
    assert (size (epoll_of s) ≠ 0%nat) by (apply (map_size_ne_0_lookup_2 _ fd); eauto). lia.
  - by rewrite lookup_delete_ne.
Qed.

(** [release_conn] on any connection, closed before or not *)
Lemma release_conn_inv s conn ok :
  net_inv s → is_Some (conns_of s !! conn) →
  ∃ s', release_conn s conn ok = Some s' ∧ net_inv s' ∧ net_le s s'.
Proof.
  intros Hi [cn Hc]. unfold release_conn. rewrite Hc. cbn [mbind option_bind]. eexists. split; [done|].
  destruct (ni_fds s Hi _ _ Hc) as [Hl He]. destruct (irm_fd_inv s (cn_fd cn) ok Hi Hl He) as [H1 Hle].
  set (s1 := (irm_fd s (cn_fd cn) ok).2) in *.
  assert (is_Some (conns_of s1 !! conn)) as Hc1 by (apply (nl_conns _ _ Hle); eauto).
  destruct H1 as [I1 I2 I3 I4 I5 I6 I7 I8]. destruct Hle as [L P E C]. split; [|by split].
  split; try done. by apply put_conn_inv.
Qed.

Lemma iadd_fd_inv s fd c ok :
  net_inv s → 0 <= fd → fd ≠ fn_lfd s → is_Some (conns_of s !! c) →
  net_inv (iadd_fd s fd c ok).2 ∧ net_le s (iadd_fd s fd c ok).2.
Proof.
  intros Hi H0 Hl Hc. unfold iadd_fd, sys_epoll_add. destruct (ok && _ && _) eqn:E; [|by split].
  apply andb_prop in E as [[_ Ho%bool_decide_eq_true]%andb_prop Hn%bool_decide_eq_true].
  destruct Hi as [I1 I2 I3 I4 I5 I6 I7 I8].
  split; split; cbn [snd with_kern fn_net fn_efd fn_lfd fn_nfd fn_kern fn_events_sz kn_open kn_epoll]; auto.
  - intros fd' p' [[<- <-]|[Hne Hp']]%lookup_insert_Some; [done|]. by apply (I4 fd' p').
  - intros fd' p' [[<- <-]|[Hne Hp']]%lookup_insert_Some; [by rewrite decide_False|by apply I5].
  - rewrite lookup_insert_ne by done. rewrite map_size_insert_None by done. lia.
  - by rewrite lookup_insert_ne.
Qed.

(** a connection that is handed out gets a new descriptor *)
Lemma fresh_conn_inv s fd al c n ip port :
  net_inv s → kn_fresh (fn_kern s) fd = true → al_fresh s al = true → length ip = 16%nat →
  iget_conn (fn_net s) al.1 al.2 = (c, n) →
  let s' := with_net (with_kern s (fn_nfd s) (sys_open (fn_kern s) fd)) (set_conn n c fd ip port) in
  net_inv s' ∧ net_le s s' ∧ ∃ cn, conns_of s' !! c = Some cn ∧ cn_fd cn = fd.
Proof.
  intros [I1 I2 I3 I4 I5 I6 I7 I8] [H0 Hf%bool_decide_eq_true]%andb_prop Ha Hip E. zbool.
  apply andb_prop in Ha as [[[A1%bool_decide_eq_true A2%bool_decide_eq_true]%andb_prop A3]%andb_prop A4%bool_decide_eq_true].
  apply negb_true_iff, bool_decide_eq_false, eq_None_not_Some in A3.
  destruct (iget_conn_inv _ _ _ _ _ I1 E A1 A2 A3 A4) as (Hp & Eh & Hc0 & Ec).
  set (s' := with_net _ _). intros s''; subst s''.
  assert (conns_of s' !! c = Some (Conn fd ip port 0 true 0 0)) as Hc.
  { unfold s'; cbn. by rewrite Ec, lookup_alter_eq, lookup_insert_eq. }
  assert (∀ q, q ≠ c → conns_of s' !! q = conns_of s !! q) as Hq.
  { intros q Hq. unfold s'; cbn. by rewrite Ec, lookup_alter_ne, lookup_insert_ne by done. }
  assert (∀ q, is_Some (conns_of s !! q) → is_Some (conns_of s' !! q)) as Hm.
  { intros q Hs. destruct (decide (q = c)) as [->|Hne]; [eauto|by rewrite Hq]. }
  split; [|split; [by split|eauto]].
  assert (fd ≠ fn_lfd s) as Hl. { intros ->. auto. }
  assert (fd ≠ fn_efd s) as He. { intros ->. auto. }
  unfold s'; split; cbn [with_kern with_net fn_net fn_efd fn_lfd fn_nfd fn_kern fn_events_sz sys_open kn_open kn_epoll]; auto.
  - by apply set_conn_inv.
  - set_solver.
  - intros. set_solver.
  - intros fd' p Hp'. destruct (I4 _ _ Hp'). set_solver.
  - intros fd' p Hp'. specialize (I5 _ _ Hp').
    change (if decide (fd' = fn_lfd s) then p = 0 else is_Some (conns_of s' !! p)).
    destruct (decide (fd' = fn_lfd s)); auto.
  - intros c' cn. change (conns_of s' !! c' = Some cn → cn_fd cn ≠ fn_lfd s ∧ cn_fd cn ≠ fn_efd s).
    destruct (decide (c' = c)) as [->|Hne]; [rewrite Hc; by intros [= <-]|rewrite Hq by done; apply I6].
Qed.

Lemma add_conn_inv s fd al c n ip port ok :
  net_inv s → kn_fresh (fn_kern s) fd = true → al_fresh s al = true → length ip = 16%nat →
  iget_conn (fn_net s) al.1 al.2 = (c, n) →
  ∃ r s', iadd_conn (with_net (with_kern s (fn_nfd s) (sys_open (fn_kern s) fd)) (set_conn n c fd ip port)) c ok = Some (r, s')
    ∧ net_inv s' ∧ net_le s s'.
Proof.
  intros Hi Hf Ha Hip E. destruct (fresh_conn_inv s fd al c n ip port Hi Hf Ha Hip E) as (Hi' & Hle & cn & Hc & Efd).
  set (s' := with_net _ _) in *. unfold iadd_conn. rewrite Hc. cbn [mbind option_bind].
  destruct (iadd_fd s' (cn_fd cn) c ok) as [r s2] eqn:Ea. exists r, s2.
  apply andb_prop in Hf as [H0 _]. zbool.
  destruct (iadd_fd_inv s' (cn_fd cn) c ok Hi') as [H2 Hle2]; [by rewrite Efd|by apply (ni_fds _ Hi' c)|eauto|].
  rewrite Ea in H2, Hle2. split_and!; [done|done|by etrans].
Qed.

Lemma iget_ip_length s al c n :
  net_inv s → al_fresh s al = true → iget_conn (fn_net s) al.1 al.2 = (c, n) → length (conn_ip n c []) = 16%nat.
Proof.
  intros Hi Ha E.
  apply andb_prop in Ha as [[[A1%bool_decide_eq_true A2%bool_decide_eq_true]%andb_prop A3]%andb_prop A4%bool_decide_eq_true].
  apply negb_true_iff, bool_decide_eq_false, eq_None_not_Some in A3.
  destruct (iget_conn_inv _ _ _ _ _ (ni_pool _ Hi) E A1 A2 A3 A4) as (Hp & _ & _ & Ec).
  unfold conn_ip. rewrite Ec, lookup_insert_eq. cbn [from_option].
  apply (pi_conns _ Hp c). by rewrite Ec, lookup_insert_eq.
Qed.

Lemma accept_ip_length old ip : length old = 16%nat → length (accept_ip old ip) = 16%nat.
Proof. intros. unfold accept_ip. rewrite length_splice; [done|lia|]. rewrite length_take. lia. Qed.
Lemma connect_ip_length old ip : length old = 16%nat → (length ip <= 15)%nat → length (connect_ip old ip) = 16%nat.
Proof. intros. unfold connect_ip. rewrite length_splice; [done|lia|]. rewrite length_app. simpl. lia. Qed.

Lemma fresh_net_inv efd lfd port head cb (k : kernel) :
  efd ∈ kn_open k → (0 <= lfd → lfd ∈ kn_open k) → kn_epoll k = ∅ →
  net_inv (FNet efd DEFAULT_EPOLL_EVENTS_SZ 0 lfd port (Net (s_list_init ∅ head) ∅ head 0 0) cb k []).
Proof.
  intros He Hl Hk. split; cbn [fn_net fn_efd fn_lfd fn_nfd fn_kern fn_events_sz nt_conns]; rewrite ?Hk; try done.
  - split; [|done|done]. cbn [nt_links]. intros q [->|[? ?]]; [|done].
    cbn [nt_conn_list]. rewrite next_init, prev_init, !decide_True by done. split; by left.
Qed.

Lemma s_net_create_inv (k : kernel) head port cb e s (k' : kernel) :
  create_ok k e = true → s_net_create k head port cb e = (Some s, k') → net_inv s.
Proof.
  unfold create_ok, s_net_create. intros [Ho Hl]%andb_prop E.
  destruct (ce_efd e <? 0); [done|]. apply andb_prop in Ho as [_ Ho%bool_decide_eq_true].
  destruct (port >? 0).
  2: { injection E as <- _. apply fresh_net_inv; cbn [sys_epoll_create kn_open kn_epoll]; [set_solver|lia|done]. }
  destruct (ce_lfd e <? 0) eqn:Hneg; [done|]. apply andb_prop in Hl as [_ Hf%bool_decide_eq_true]. zbool.
  destruct (ce_reuse e), (ce_bind e), (ce_listen e); try done. injection E as <- _.
  set (k1 := sys_open _ _). set (s0 := FNet _ _ _ _ _ _ _ _ _).
  assert (net_inv s0) as [I1 I2 I3 I4 I5 I6 I7 I8].
  { apply fresh_net_inv; cbn [sys_epoll_create sys_open kn_open kn_epoll k1]; [set_solver..|done]. }
  unfold iadd_fd, sys_epoll_add. destruct (_ && _ && _) eqn:Ea; [|by split].
  split; cbn [with_kern fn_net fn_efd fn_lfd fn_nfd fn_kern fn_events_sz snd kn_open kn_epoll]; try done.
  - intros fd p [[<- <-]|[_ Hp]]%lookup_insert_Some; [|by apply (I4 fd p)]. split; [|done]. by apply I3.
  - intros fd p [[<- <-]|[_ Hp]]%lookup_insert_Some; [by rewrite decide_True|done].
  - cbn [fn_kern s0 k1 sys_open sys_epoll_create kn_epoll fn_lfd]. rewrite map_size_insert_None by done.
    rewrite lookup_insert_eq, decide_True by eauto. by rewrite map_size_empty.
Qed.

(** ** Every step *)

Lemma call_back_inv s c k :
  net_inv s → Forall (act_ok s) k →
  let '(s', k') := call_back s c k in net_inv s' ∧ Forall (act_ok s') k' ∧ net_le s s'.
Proof.
  intros Hi Hk. unfold call_back. destruct (with_call_inv s c Hi) as [H1 H2].
  pose proof (act_ok_le _ _ _ H2 Hk). destruct (fn_callback s); [|done]. split_and!; [done|by constructor|done].
Qed.

Lemma iclose_conn_positive_inv s c k :
  net_inv s → is_Some (conns_of s !! c) → Forall (act_ok s) k →
  let '(s', k') := iclose_conn_positive s c k in net_inv s' ∧ Forall (act_ok s') k' ∧ net_le s s'.
Proof. intros Hi Hc Hk. apply call_back_inv; [done|]. by constructor. Qed.

Lemma poll_event_inv s p ev ok k :
  net_inv s → ptr_ok s p → Forall (act_ok s) k →
  let '(s', k') := poll_event s p ev ok k in net_inv s' ∧ Forall (act_ok s') k' ∧ net_le s s'.
Proof.
  intros Hi Hp Hk. unfold poll_event. unfold ptr_ok in Hp. destruct (p =? 0) eqn:E; zbool.
  - rewrite decide_True in Hp by done. split_and!; [done|by constructor|done].
  - rewrite decide_False in Hp by done. pose proof (iclose_conn_positive_inv s p k Hi Hp Hk).
    destruct (ev_in ev), (ev_out ev), ok; try done; (split_and!; [done|by try constructor|done]).
Qed.

Lemma poll_events_ok s ready l : net_inv s → poll_events s ready = Some l → Forall (ptr_ok s) l.*1.
Proof.
  intros Hi. unfold poll_events. destruct (_ && _); [|done]. intros Hl%mapM_Some. apply Forall_fmap.
  induction Hl as [|[fd ev] [p ev'] r l Hx _ IH]; constructor; [|done].
  apply fmap_Some in Hx as (p' & Hp & [= -> ->]). cbn. destruct (ni_open _ Hi _ _ Hp).
  pose proof (ni_data _ Hi _ _ Hp) as Hd. unfold ptr_ok. case_decide as E0; case_decide as E1; subst; try done.
  destruct Hd as [cn Hcn]. by destruct (pi_conns _ (ni_pool _ Hi) _ _ Hcn).
Qed.
End descriptors.

Section steps.
Implicit Types (s : fnet) (k : list act).

Lemma s_net_connect_inv s ip port fd ok al add_ok r s' :
  net_inv s → (fd <? 0) || kn_fresh (fn_kern s) fd = true → al_fresh s al = true →
  s_net_connect s ip port fd ok al add_ok = Some (r, s') → net_inv s' ∧ net_le s s'.
Proof.
  intros Hi Hf Ha. unfold s_net_connect.
  destruct (fd <? 0) eqn:E0; zbool.
  { rewrite orb_true_r. replace (0 <=? fd) with false by (symmetry; apply Z.leb_gt; lia). intros [= _ <-].
    destruct Hi. split; by split. }
  cbn [orb] in Hf. replace (0 <=? fd) with true by (symmetry; apply Z.leb_le; lia).
  destruct ok; cbn [negb orb].
  - cbn [with_kern fn_net]. destruct (iget_conn _ _ _) as [c n] eqn:Eg. destruct (15 <? _) eqn:El; [done|]. zbool.
    destruct (add_conn_inv s fd al c n (connect_ip (conn_ip n c []) ip) port add_ok Hi Hf Ha) as (r' & s2 & -> & H2); [|done|].
    { apply connect_ip_length; [by apply (iget_ip_length s al)|lia]. }
    by intros [= _ <-].
  - intros [= _ <-]. apply andb_prop in Hf as [_ Hf%bool_decide_eq_true]. destruct Hi as [I1 I2 I3 I4 I5 I6 I7 I8].
    split; [|by split]. split; cbn; try done; set_solver.
Qed.

Lemma accept_one_inv s fd ip port al add_ok s' :
  net_inv s → kn_fresh (fn_kern s) fd = true → al_fresh s al = true →
  accept_one s fd ip port al add_ok = Some s' → net_inv s' ∧ net_le s s'.
Proof.
  intros Hi Hf Ha. unfold accept_one. cbn [with_kern fn_net]. destruct (iget_conn _ _ _) as [c n] eqn:Eg.
  destruct (add_conn_inv s fd al c n (accept_ip (conn_ip n c []) ip) (htons port) add_ok Hi Hf Ha) as (r & s2 & -> & H2 & L2); [|done|].
  { apply accept_ip_length. by apply (iget_ip_length s al). }
  intros [= <-]. destruct (with_call_inv s2 (CAccept c) H2). split; [done|by etrans].
Qed.

Lemma net_step_inv s k i s' k' :
  net_inv s → Forall (act_ok s) k → net_step s k i = Some (s', k') →
  net_inv s' ∧ Forall (act_ok s') k' ∧ net_le s s'.
Proof.
  intros Hi Hk. destruct i as [|c|c w|ip port fd ok al ao|r|ok|more| | |fd ip port al ao|ok]; simpl.
  - destruct k as [|[] k]; try done. intros [= <- <-]. by inversion Hk.
  - destruct (user k && is_conn s c) eqn:E; [|done]. apply andb_prop in E as [_ Hc%bool_decide_eq_true]. intros E%(inj Some).
    assert (Forall (act_ok s) (ARelease c :: k)) as Hk' by (by constructor).
    pose proof (call_back_inv s (CClosing c) _ Hi Hk') as H. unfold s_net_close in E. by rewrite E in H.
  - destruct (user k && is_conn s c) eqn:E; [|done]. apply andb_prop in E as [_ Hc%bool_decide_eq_true]. intros E%(inj Some).
    unfold s_net_send in E. destruct w; [by injection E as <- <-|].
    pose proof (iclose_conn_positive_inv s c k Hi Hc Hk) as H. by rewrite E in H.
  - destruct (_ && _ && _) eqn:E; [|done]. apply andb_prop in E as [[_ Hf]%andb_prop Ha].
    destruct (s_net_connect _ _ _ _ _ _ _) as [[r s2]|] eqn:Ec; [|done]. intros [= <- <-].
    destruct (s_net_connect_inv _ _ _ _ _ _ _ _ _ Hi Hf Ha Ec) as [H2 L2]. split_and!; [done|by eapply act_ok_le|done].
  - destruct k; [|by destruct r]. destruct (poll_room_inv s Hi) as (H1 & L1 & _).
    destruct r as [ready|]; [|by intros [= <- <-]].
    destruct (poll_events _ _) as [l|] eqn:El; [|done]. intros [= <- <-].
    split_and!; [done| |done]. constructor; [|done]. by eapply poll_events_ok.
  - destruct k as [|[|c|c| |[|[p ev] l]] k]; try done.
    + intros [= <- <-]. by inversion Hk.
    + apply Forall_cons in Hk as [[Hp Hl]%Forall_cons Hk]. intros E%(inj Some).
      assert (Forall (act_ok s) (AEvents l :: k)) as Hk' by (by constructor).
      pose proof (poll_event_inv s p ev ok _ Hi Hp Hk') as H. by rewrite E in H.
  - destruct k as [|[|c|c| |] k]; try done. destruct more; intros E%(inj Some).
    + pose proof (call_back_inv s (CPacket c) _ Hi Hk) as H. by rewrite E in H.
    + simplify_eq. by inversion Hk.
  - destruct k as [|[|c|c| |] k]; try done. by intros [= <- <-].
  - destruct k as [|[|c|c| |] k]; try done. intros [= <- <-]. by inversion Hk.
  - destruct k as [|[|c|c| |] k]; try done. destruct (_ && _) eqn:E; [|done]. apply andb_prop in E as [Hf Ha].
    destruct (accept_one _ _ _ _ _ _) as [s2|] eqn:Ec; [|done]. intros [= <- <-].
    destruct (accept_one_inv _ _ _ _ _ _ _ Hi Hf Ha Ec) as [H2 L2]. pose proof (act_ok_le _ _ _ L2 Hk).
    destruct (fn_callback s); split_and!; try done. by constructor.
  - destruct k as [|[|c|c| |] k]; try done. apply Forall_cons in Hk as [Hc Hk].
    destruct (release_conn_inv s c ok Hi Hc) as (s2 & -> & H2 & L2). intros [= <- <-].
    split_and!; [done|by eapply act_ok_le|done].
Qed.

Lemma net_run_cons s k i ins :
  net_run s k (i :: ins) = '(s, k) ← net_step s k i; net_run s k ins.
Proof.
  unfold net_run. simpl. destruct (net_step s k i) as [[s1 k1]|]; [done|]. by induction ins.
Qed.

Lemma net_run_inv s k ins s' k' :
  net_inv s → Forall (act_ok s) k → net_run s k ins = Some (s', k') →
  net_inv s' ∧ Forall (act_ok s') k' ∧ net_le s s'.
Proof.
  revert s k. induction ins as [|i ins IH]; intros s k Hi Hk; [by intros [= <- <-]|].
  rewrite net_run_cons. destruct (net_step s k i) as [[s1 k1]|] eqn:E; [|done].
  destruct (net_step_inv _ _ _ _ _ Hi Hk E) as (H1 & K1 & L1). intros Hr.
  destruct (IH s1 k1 H1 K1 Hr) as (H2 & K2 & L2). split_and!; [done|done|by etrans].
Qed.

(** C28. Whatever connections come and go, are closed twice or by the program
    in the middle of a poll, and whatever the kernel refuses: the listening
    socket stays open and watched as it was, every event that [epoll] can
    report is for it ([data.ptr] is [NULL]) or for a connection object, no
    pointer that is still to be followed is anything else, [nfd] is the
    number of the other descriptors watched, [nconn] that of the objects, and
    there is room for as many events at the next poll. *)
Theorem net_descriptors (k : kernel) head port cb e s0 (k0 : kernel) ins s acts :
  create_ok k e = true → s_net_create k head port cb e = (Some s0, k0) →
  net_run s0 [] ins = Some (s, acts) →
  (0 <= fn_lfd s → fn_lfd s ∈ open_of s) ∧ epoll_of s !! fn_lfd s = epoll_of s0 !! fn_lfd s0 ∧
  (∀ fd p, epoll_of s !! fd = Some p →
     fd ∈ open_of s ∧ if decide (fd = fn_lfd s) then p = 0 else p ≠ 0 ∧ is_Some (conns_of s !! p)) ∧
  Forall (act_ok s) acts ∧
  Z.of_nat (size (epoll_of s)) = fn_nfd s + (if decide (is_Some (epoll_of s !! fn_lfd s)) then 1 else 0) ∧
  nt_nconn (fn_net s) = Z.of_nat (size (conns_of s)) ∧
  fn_nfd s <= fn_events_sz (poll_room s).
Proof.
  intros Ho Hc Hr. pose proof (s_net_create_inv _ _ _ _ _ _ _ Ho Hc) as H0.
  destruct (net_run_inv _ _ _ _ _ H0 (Forall_nil_2 _) Hr) as (Hi & Ha & [L _ E _]).
  destruct (poll_room_inv s Hi) as (_ & _ & Hroom). pose proof Hi as [[_ I1 In] I2 I3 I4 I5 I6 I7 I8].
  split_and!; try done; [by rewrite L|]. intros fd p Hp. split; [by apply (I4 fd p)|].
  specialize (I5 _ _ Hp). destruct (decide (fd = fn_lfd s)); [done|]. split; [|done]. destruct I5 as [cn Hcn]. by destruct (I1 _ _ Hcn).
Qed.
End steps.

(** ** Addresses *)

Lemma c_string_app ip l : 0 ∉ ip → c_string (ip ++ 0 :: l) = Some ip.
Proof.
  induction ip as [|b ip IH]; intros Hb; simpl; [done|]. apply not_elem_of_cons in Hb as [H1 H2].
  rewrite IH by done. destruct (b =? 0) eqn:E; zbool; [congruence|done].
Qed.

Lemma c_string_none ip : 0 ∉ ip → c_string ip = None.
Proof.
  induction ip as [|b ip IH]; intros Hb; simpl; [done|]. apply not_elem_of_cons in Hb as [H1 H2].
  rewrite IH by done. destruct (b =? 0) eqn:E; zbool; [congruence|done].
Qed.

(** an address of less than 15 characters is read back *)
Lemma accept_ip_read old ip c :
  0 ∉ ip → (length ip < 15)%nat → cn_ip c = accept_ip old ip → s_net_ip c = Some ip.
Proof.
  intros H0 Hl E. unfold s_net_ip. rewrite E. unfold accept_ip, splice. change (take (Z.to_nat 0) old) with (@nil Z). rewrite app_nil_l.
  rewrite (take_ge (ip ++ [0])) by (rewrite length_app; simpl; lia).
  rewrite <-app_assoc, take_app_ge by lia. simpl.
  destruct (15 - length ip)%nat eqn:En; [lia|]. simpl. by apply c_string_app.
Qed.

(** one of 15 characters, as 192.168.100.100, has no end in [conn->ip] *)
Lemma accept_ip_unterminated old ip c :
  0 ∉ ip → length ip = 15%nat → cn_ip c = accept_ip old ip → s_net_ip c = None.
Proof.
  intros H0 Hl E. unfold s_net_ip. rewrite E. unfold accept_ip, splice. change (take (Z.to_nat 0) old) with (@nil Z). rewrite app_nil_l.
  rewrite !(take_app_length' ip) by done.
  by apply c_string_none.
Qed.

(** ** Descriptors that are lost *)

(** [s_net_create] that returns [NULL] leaves its descriptors open, *)
Lemma create_error_keeps_fd (k : kernel) head port cb e (k' : kernel) :
  s_net_create k head port cb e = (None, k') → 0 <= ce_efd e → ce_efd e ∈ kn_open k'.
Proof.
  unfold s_net_create. intros E H0. destruct (ce_efd e <? 0) eqn:En; zbool; [lia|].
  destruct (port >? 0); [|done]. destruct (ce_lfd e <? 0); [injection E as <-; set_solver|].
  destruct (ce_reuse e), (ce_bind e), (ce_listen e); try done; injection E as <-; set_solver.
Qed.

(** and so does [s_net_connect] when nobody listens *)
Lemma connect_error_keeps_fd s ip port fd al add_ok :
  0 <= fd → ∃ s', s_net_connect s ip port fd false al add_ok = Some (0, s') ∧ fd ∈ open_of s'.
Proof.
  intros H0. unfold s_net_connect. cbn [negb orb]. eexists. split; [done|].
  replace (0 <=? fd) with true by (symmetry; apply Z.leb_le; lia). cbn. set_solver.
Qed.

(** a descriptor that is watched, but that no connection knows *)
Definition lost (s : fnet) (fd : Z) : Prop :=
  is_Some (epoll_of s !! fd) ∧ fd ∈ open_of s ∧ ∀ c cn, conns_of s !! c = Some cn → cn_fd cn ≠ fd.

Section lost.
Context (fd : Z).
Implicit Types (s : fnet) (k : list act).

Lemma lost_release s c ok s' : lost s fd → release_conn s c ok = Some s' → lost s' fd.
Proof.
  intros ((p & He) & Ho & Hc) E. unfold release_conn in E. destruct (conns_of s !! c) as [cn|] eqn:Ec; [|done].
  injection E as <-. specialize (Hc _ _ Ec) as Hne. unfold irm_fd, sys_epoll_del.
  destruct (ok && _); [|by split; [eauto|]]. unfold sys_close.
  split; [|split]; cbn [with_net with_kern fn_kern fn_net kn_open kn_epoll iput_conn irm_conn nt_conns snd].
  - rewrite !lookup_delete_ne by done. eauto.
  - set_solver.
  - done.
Qed.

Lemma lost_add s fd' al c n ip port ok r s' :
  lost s fd → kn_fresh (fn_kern s) fd' = true → iget_conn (fn_net s) al.1 al.2 = (c, n) →
  iadd_conn (with_net (with_kern s (fn_nfd s) (sys_open (fn_kern s) fd')) (set_conn n c fd' ip port)) c ok = Some (r, s') →
  lost s' fd.
Proof.
  intros ((p & He) & Ho & Hc) [_ Hf%bool_decide_eq_true]%andb_prop Eg E.
  assert (fd' ≠ fd) as Hne by (intros ->; auto).
  assert (∀ q cn, nt_conns (set_conn n c fd' ip port) !! q = Some cn → cn_fd cn ≠ fd) as Hq.
  { assert (∃ x, nt_conns n = <[c := x]> (conns_of s)) as [x En].
    { unfold iget_conn in Eg. destruct (negb _); injection Eg as <- <-; by eexists. }
    intros q cn. cbn [set_conn nt_conns]. rewrite lookup_alter, En. case_decide as Hq.
    - subst q. rewrite lookup_insert_eq. by intros [= <-].
    - rewrite lookup_insert_ne by done. apply Hc. }
  unfold iadd_conn in E. destruct (_ !! c) as [cn|] eqn:Ec; [|done]. injection E as E.
  unfold iadd_fd, sys_epoll_add in E. destruct (_ && _); injection E as <- <-;
    (split; [|split]); cbn [with_net with_kern sys_open fn_kern fn_net kn_open kn_epoll]; try set_solver; try done.
  rewrite lookup_insert. case_decide; eauto.
Qed.

Lemma lost_connect s ip port fd' ok al ao r s' :
  lost s fd → (fd' <? 0) || kn_fresh (fn_kern s) fd' = true →
  s_net_connect s ip port fd' ok al ao = Some (r, s') → lost s' fd.
Proof.
  intros Hl Hf. unfold s_net_connect. destruct (fd' <? 0) eqn:E0; zbool.
  { rewrite orb_true_r. replace (0 <=? fd') with false by (symmetry; apply Z.leb_gt; lia). by intros [= _ <-]. }
  cbn [orb] in Hf. replace (0 <=? fd') with true by (symmetry; apply Z.leb_le; lia).
  destruct ok; cbn [negb orb].
  - cbn [with_kern fn_net]. destruct (iget_conn _ _ _) as [c n] eqn:Eg. destruct (15 <? _); [done|].
    destruct (iadd_conn _ _ _) as [[r' s2]|] eqn:Ea; [|done]. intros [= _ <-]. by eapply lost_add.
  - intros [= _ <-]. destruct Hl as (He & Ho & Hc). split; [done|split; [|done]]. cbn. set_solver.
Qed.

Lemma lost_call_back s c k s' k' : lost s fd → call_back s c k = (s', k') → lost s' fd.
Proof. by intros Hl [= <- _]. Qed.

Lemma lost_step s k i s' k' : lost s fd → net_step s k i = Some (s', k') → lost s' fd.
Proof.
  intros Hl. destruct i as [|c|c w|ip port fd' ok al ao|r|ok|more| | |fd' ip port al ao|ok]; simpl.
  - destruct k as [|[] k]; try done. by intros [= <- _].
  - destruct (_ && _); [|done]. intros E%(inj Some). by apply (lost_call_back s _ _ _ _ Hl) in E.
  - destruct (_ && _); [|done]. intros E%(inj Some). unfold s_net_send in E.
    destruct w; [by injection E as <- _|by apply (lost_call_back s _ _ _ _ Hl) in E].
  - destruct (_ && _ && _) eqn:E; [|done]. apply andb_prop in E as [[_ Hf]%andb_prop _].
    destruct (s_net_connect _ _ _ _ _ _ _) as [[r s2]|] eqn:Ec; [|done]. intros [= <- _]. by eapply lost_connect.
  - assert (lost (poll_room s) fd) as Hl' by (unfold poll_room; by destruct (_ >? _)).
    destruct r as [ready|], k; try done; [|by intros [= <- _]].
    destruct (poll_events _ _); [|done]. by intros [= <- _].
  - destruct k as [|[|c|c| |[|[p ev] l]] k]; try done; [by intros [= <- _]|]. intros E%(inj Some).
    unfold poll_event in E. destruct (p =? 0), (ev_in ev), (ev_out ev), ok;
      first [by injection E as <- _|by apply (lost_call_back s _ _ _ _ Hl) in E].
  - destruct k as [|[|c|c| |] k]; try done. by destruct more; intros [= <- _].
  - destruct k as [|[] k]; try done. by intros [= <- _].
  - destruct k as [|[] k]; try done. by intros [= <- _].
  - destruct k as [|[] k]; try done. destruct (_ && _) eqn:E; [|done]. apply andb_prop in E as [Hf _].
    unfold accept_one. cbn [with_kern fn_net]. destruct (iget_conn _ _ _) as [c n] eqn:Eg.
    destruct (iadd_conn _ _ _) as [[r s2]|] eqn:Ea; [|done]. intros [= <- _].
    exact (lost_add s fd' al c n _ _ _ _ _ Hl Hf Eg Ea).
  - destruct k as [|[] k]; try done. destruct (release_conn _ _ _) as [s2|] eqn:E; [|done]. intros [= <- _].
    by eapply lost_release.
Qed.

Lemma lost_run ins s k s' k' : lost s fd → net_run s k ins = Some (s', k') → lost s' fd.
Proof.
  revert s k. induction ins as [|i ins IH]; intros s k Hl; [by intros [= <- _]|].
  rewrite net_run_cons. destruct (net_step s k i) as [[s1 k1]|] eqn:E; [|done]. apply IH. by eapply lost_step.
Qed.
End lost.

(** ** Runs *)
Module Sample.

Definition kern : kernel := Kernel {[ 0; 1; 2 ]} ∅.
Definition env : create_env := CreateEnv 3 4 true true true true.
Definition created : option fnet := (s_net_create kern 10 9000 true env).1.
Definition start : fnet := Eval vm_compute in match created with Some s => s | None => FNet 0 0 0 0 0 (Net ∅ ∅ 0 0 0) true kern [] end.

Definition readable : event := Event true false.
Definition ip (n : nat) : list Z := replicate n 49.
Definition object (p : Z) : alloc := (p, replicate 16 7).

(** a poll in which the listening socket gives one connection *)
Definition accept_in (fd p : Z) : list net_input := [IAccept fd (ip 9) 40000 (object p) true; UReturn].
Definition poll_listen (l : list net_input) : list net_input :=
  UPoll (Some [(4, readable)]) :: IEvent true :: l ++ [IStop; IEvent true].
Definition close (p : Z) (ok : bool) : list net_input := [UClose p; UReturn; IRelease ok].

(** two connections, one of which sends a packet whose handler closes the
    other; a connection to another server; one that can not be written to *)
Definition busy : list net_input :=
  poll_listen (accept_in 5 20 ++ accept_in 6 21)
  ++ UPoll (Some [(5, readable)]) :: IEvent true :: IPacket true
  :: close 21 true ++ [UReturn; IPacket false; IEvent true]
  ++ [UConnect (ip 15) 9001 6 true (object 22) true; USend 20 false; UReturn; IRelease true].

(** one connection comes and is closed; two others come, and both are closed *)
Definition reuse : list net_input :=
  poll_listen (accept_in 5 20) ++ close 20 true
  ++ poll_listen (accept_in 6 21 ++ accept_in 7 22)
  ++ close 20 true ++ close 20 true.

(** both connections have sent something; the handler of the first packet
    closes the other one, whose event is still to come *)
Definition stale : list net_input :=
  poll_listen (accept_in 5 20 ++ accept_in 6 21)
  ++ UPoll (Some [(5, readable); (6, readable)]) :: IEvent true :: IPacket true
  :: close 21 true ++ [UReturn; IPacket false; IEvent false; UReturn; IRelease true; IEvent true].
End Sample.

Lemma net_descriptors_witness :
  is_Some (net_run Sample.start [] Sample.busy) ∧
  ∀ s acts, net_run Sample.start [] Sample.busy = Some (s, acts) →
    epoll_of s !! 4 = Some 0 ∧ Forall (act_ok s) acts ∧ nt_nconn (fn_net s) = Z.of_nat (size (conns_of s)).
Proof.
  split; [vm_compute; eauto|]. intros s acts Hr.
  assert (fn_lfd s = 4) as El by (vm_compute in Hr; injection Hr as <- _; reflexivity).
  assert (create_ok Sample.kern Sample.env = true) as Ho by (vm_compute; reflexivity).
  assert (s_net_create Sample.kern 10 9000 true Sample.env = (Some Sample.start, fn_kern Sample.start)) as Hc
    by (vm_compute; reflexivity).
  destruct (net_descriptors _ _ _ _ _ _ _ _ _ _ Ho Hc Hr) as (_ & H2 & _ & H4 & _ & H6 & _).
  rewrite El in H2. split_and!; [rewrite H2; vm_compute; reflexivity|exact H4|exact H6].
Defined.

(** A connection object that is closed is handed out twice, so that one of
    the two descriptors is overwritten: no connection knows it any more, and
    no run ever closes it. *)
Theorem descriptor_lost :
  ∃ s, net_run Sample.start [] Sample.reuse = Some (s, []) ∧ lost s 6 ∧
    ∀ ins s' acts, net_run s [] ins = Some (s', acts) → lost s' 6.
Proof.
  destruct (net_run Sample.start [] Sample.reuse) as [[s acts]|] eqn:E; [|vm_compute in E; done].
  assert (acts = [] ∧ bool_decide (is_Some (epoll_of s !! 6)) = true ∧ bool_decide (6 ∈ open_of s) = true ∧
          forallb (λ x, negb (cn_fd x.2 =? 6)) (map_to_list (conns_of s)) = true) as (-> & H1 & H2 & H3)
    by (vm_compute in E; injection E as <- <-; vm_compute; auto).
  assert (lost s 6) as Hl.
  { split; [by apply bool_decide_eq_true in H1|split; [by apply bool_decide_eq_true in H2|]].
    intros c cn Hc%elem_of_map_to_list. rewrite forallb_forall in H3.
    apply list_elem_of_In in Hc. specialize (H3 _ Hc). simpl in H3. by zbool. }
  exists s. split_and!; [done|done|]. intros ins s' acts. by apply lost_run.
Qed.

(** An event of a connection that was closed in the same poll is handled: the
    program, which has closed it, is told that the other end has. *)
Theorem stale_event_handled :
  ∃ s, net_run Sample.start [] Sample.stale = Some (s, []) ∧
    fn_calls s = [CAccept 20; CAccept 21; CPacket 20; CClosing 21; CClosed 21].
Proof.
  destruct (net_run Sample.start [] Sample.stale) as [[s acts]|] eqn:E; vm_compute in E; [|done].
  injection E as <- <-. eexists. split; [done|]. reflexivity.
Qed.
