(* ===== verification/Cluster.v ===== *)
(** * [include/s_ipc.h], [serv_group/s_server_group.h]: what the handlers share

    A handler of the core gets the server a packet comes from, the packet and
    the core's state.  What it does besides changing the state is a list of
    effects, in the order the C code performs them.  A packet it builds is
    given by its function number and its fields ([Wire] shows what becomes of
    them); one it passes on is the packet itself. *)

From S2P Require Import Prelude Packet Wire.
Local Open Scope Z_scope.

Definition S_SERV_TYPE_M : Z := 1.
Definition S_SERV_TYPE_D : Z := 2.
Definition S_SERV_TYPE_C : Z := 3.
Definition S_SERV_TYPE_MAX : Z := 4.

(** [enum S_ENUM_PKT_TYPE] *)
Definition S_PKT_TYPE_RPC_BACK_ : Z := 1.
Definition S_PKT_TYPE_IDENTIFY : Z := 2.
Definition S_PKT_TYPE_IDENTIFY_BACK : Z := 3.
Definition S_PKT_TYPE_PING : Z := 4.
Definition S_PKT_TYPE_PONG : Z := 5.
Definition S_PKT_TYPE_USER_DEF_BEGIN_ : Z := 6.
Definition S_PKT_TYPE_CREATE : Z := 7.
Definition S_PKT_TYPE_CREATE_CHECK_AUTH : Z := 8.
Definition S_PKT_TYPE_CREATE_METADATA : Z := 9.
Definition S_PKT_TYPE_CREATE_META_META_DATA : Z := 10.
Definition S_PKT_TYPE_PUSH_DATA : Z := 11.
Definition S_PKT_TYPE_WRITE : Z := 12.
Definition S_PKT_TYPE_GLOBAL_LOCK : Z := 13.
Definition S_PKT_TYPE_GLOBAL_UNLOCK : Z := 14.
Definition S_PKT_TYPE_LOCK_START : Z := 15.
Definition S_PKT_TYPE_LOCK_NEXT : Z := 16.
Definition S_PKT_TYPE_LOCK_UNLOCK : Z := 17.
Definition S_PKT_TYPE_LOCK_END : Z := 18.
Definition S_PKT_TYPE_PAXOS_REQUEST : Z := 19.
Definition S_PKT_TYPE_PAXOS_RESPONSE : Z := 20.
Definition S_PKT_TYPE_PAXOS_ACCEPT : Z := 21.
Definition S_PKT_TYPE_PAXOS_LEARN : Z := 22.
Definition S_PKT_TYPE_PAXOS_LEARN_REQUEST : Z := 23.
Definition S_PKT_TYPE_PAXOS_ADD_ME : Z := 24.
Definition S_PKT_TYPE_PAXOS_ADD_ACCEPT : Z := 25.
Definition S_PKT_TYPE_PAXOS_BACKUP : Z := 26.
Definition S_PKT_TYPE_PAXOS_REFRESH_ACCEPT : Z := 27.
Definition S_PKT_TYPE_MAX_ : Z := 28.

(** a server by its type and id *)
Record serv_id := Serv { sv_type : Z; sv_id : Z }.
#[export] Instance serv_id_eq_dec : EqDecision serv_id.
Proof. solve_decision. Defined.

(** a packet built of these fields and no more, or in room for [sz] bytes, or
    the packet at hand, with its function set *)
Inductive out_pkt :=
| OMsg (fn : Z) (fs : list field)
| OEasy (fn sz : Z) (fs : list field)
| OPkt (fn : Z) (p : s_packet).

(** [s_packet_easy(fn, sz)] and the writes: too big a packet is a null pointer,
    which the writes then follow ([None]) *)
Definition easy_pkt (fn sz : Z) (fs : list field) : option out_pkt :=
  if S_PKT_MAX_SZ <? sz then None else Some (OEasy fn sz fs).

(** the callback of a remote call, with its [ud] *)
Inductive rpc_cb :=
| CheckAuthBack (fname : list Z)     (* irpc_check_auth_back *)
| SendMdBack (fname : list Z)        (* irpc_send_md_back *)
| CreateBack (param : nat).          (* s_core_client_create_back *)

Inductive effect :=
| Send (to : serv_id) (o : out_pkt)                              (* s_servg_send *)
| RpcRet (to : serv_id) (req : Z) (o : out_pkt)                  (* s_servg_rpc_ret *)
| RpcCall (to : serv_id) (o : out_pkt) (cb : rpc_cb) (msec : Z). (* s_servg_rpc_call *)

(** [s_packet_read(...)] of a few fields in a row: [None] jumps to the error
    label *)
Definition read_int (p : s_packet) : option (Z * s_packet) :=
  let '(r, p) := s_packet_read_int p in r ← r; Some (r, p).
Definition read_uint (p : s_packet) : option (Z * s_packet) :=
  let '(r, p) := s_packet_read_uint p in r ← r; Some (r, p).
Definition read_ushort (p : s_packet) : option (Z * s_packet) :=
  let '(r, p) := s_packet_read_ushort p in r ← r; Some (r, p).
Definition read_string (p : s_packet) : option (list Z * s_packet) :=
  let '(r, p) := s_packet_read_string p in r ← r; Some (r, p).

Definition read_id (p : s_packet) : option (s_id * s_packet) :=
  '(x, p) ← read_int p; '(y, p) ← read_int p; Some (SId x y, p).

(** A decoder that fills an object it has allocated has three outcomes: a
    value, the error label, or an access outside the object. *)
Inductive res (A : Type) :=
| Ok (a : A)
| Fail
| Crash.
Arguments Ok {A} a.
Arguments Fail {A}.
Arguments Crash {A}.
#[export] Instance res_ret : MRet res := λ A a, Ok a.
#[export] Instance res_bind : MBind res := λ A B f r,
  match r with Ok a => f a | Fail => Fail | Crash => Crash end.

(** a reader, inside a decoder *)
Definition attempt {A} (o : option A) : res A := match o with Some a => Ok a | None => Fail end.
(** bytes up to [stop] of an object of [cap] bytes are written *)
Definition within (cap stop : Z) : res unit := if cap <? stop then Crash else Ok ().

Lemma bind_Ok {A B} (f : A → res B) r b : (r ≫= f) = Ok b → ∃ a, r = Ok a ∧ f a = Ok b.
Proof. destruct r as [a| |]; intros E; try done. by exists a. Qed.
Lemma attempt_Ok {A} (o : option A) a : attempt o = Ok a ↔ o = Some a.
Proof. destruct o; simpl; split; intros; by simplify_eq. Qed.
Lemma within_Ok cap stop u : within cap stop = Ok u ↔ stop <= cap.
Proof.
  unfold within. destruct u. destruct (cap <? stop) eqn:E; zbool; (split; [intros H|intros H]); try done; lia.
Qed.
Lemma within_ok cap stop : stop <= cap → within cap stop = Ok ().
Proof. apply within_Ok. Qed.

Section readers.

Lemma read_int_field p i l :
  pk_wf p → is_int i → pk_rest p = enc_field (Fint i) ++ l →
  ∃ p', read_int p = Some (i, p') ∧ pk_wf p' ∧ pk_rest p' = l.
Proof.
  intros Hw Hi Hr. destruct (read_field_enc p (Fint i) l Hw Hi Hr) as (p' & E & Hw' & Hr').
  exists p'. unfold read_int. simpl in E. destruct (s_packet_read_int p) as [[r|] q]; simplify_eq/=; done.
Qed.
Lemma read_uint_field p i l :
  pk_wf p → is_uint i → pk_rest p = enc_field (Fuint i) ++ l →
  ∃ p', read_uint p = Some (i, p') ∧ pk_wf p' ∧ pk_rest p' = l.
Proof.
  intros Hw Hi Hr. destruct (read_field_enc p (Fuint i) l Hw Hi Hr) as (p' & E & Hw' & Hr').
  exists p'. unfold read_uint. simpl in E. destruct (s_packet_read_uint p) as [[r|] q]; simplify_eq/=; done.
Qed.
Lemma read_ushort_field p i l :
  pk_wf p → is_ushort i → pk_rest p = enc_field (Fushort i) ++ l →
  ∃ p', read_ushort p = Some (i, p') ∧ pk_wf p' ∧ pk_rest p' = l.
Proof.
  intros Hw Hi Hr. destruct (read_field_enc p (Fushort i) l Hw Hi Hr) as (p' & E & Hw' & Hr').
  exists p'. unfold read_ushort. simpl in E. destruct (s_packet_read_ushort p) as [[r|] q]; simplify_eq/=; done.
Qed.
Lemma read_string_field p s l :
  pk_wf p → field_ok (Fstring s) → pk_rest p = enc_field (Fstring s) ++ l →
  ∃ p', read_string p = Some (s, p') ∧ pk_wf p' ∧ pk_rest p' = l.
Proof.
  intros Hw Hi Hr. destruct (read_field_enc p (Fstring s) l Hw Hi Hr) as (p' & E & Hw' & Hr').
  exists p'. unfold read_string. simpl in E. destruct (s_packet_read_string p) as [[r|] q]; simplify_eq/=; done.
Qed.
Lemma read_id_field p (i : s_id) l :
  pk_wf p → is_int (id_x i) → is_int (id_y i) →
  pk_rest p = enc_field (Fint (id_x i)) ++ enc_field (Fint (id_y i)) ++ l →
  ∃ p', read_id p = Some (i, p') ∧ pk_wf p' ∧ pk_rest p' = l.
Proof.
  intros Hw Hx Hy Hr. destruct (read_int_field p _ _ Hw Hx Hr) as (p1 & E1 & Hw1 & Hr1).
  destruct (read_int_field p1 _ _ Hw1 Hy Hr1) as (p2 & E2 & Hw2 & Hr2).
  exists p2. unfold read_id. rewrite E1. cbn [mbind option_bind]. rewrite E2. cbn [mbind option_bind].
  by destruct i.
Qed.

(** Two packets with the same bytes left to read are read in the same way. *)
Definition rest_eq (p p' : s_packet) : Prop := pk_wf p ∧ pk_wf p' ∧ pk_rest p = pk_rest p'.

Lemma read_int_wf p i p' : pk_wf p → read_int p = Some (i, p') → pk_wf p' ∧ is_int i.
Proof.
  unfold read_int, s_packet_read_int. intros Hw Hr. destruct (_ <? _); [done|]. cbn in Hr. simplify_eq.
  split; [by apply pk_wf_advance|apply sint_range].
Qed.

Lemma read_int_congr p p' i q :
  rest_eq p p' → read_int p = Some (i, q) → ∃ q', read_int p' = Some (i, q') ∧ rest_eq q q'.
Proof.
  intros (Hw & Hw' & E) Hr. destruct (read_int_wf _ _ _ Hw Hr) as [Hq _].
  assert (∃ b0 b1 b2 b3 l, pk_rest p = b0 :: b1 :: b2 :: b3 :: l) as (b0 & b1 & b2 & b3 & l & Hl).
  { unfold read_int, s_packet_read_int in Hr. destruct (_ <? _) eqn:Hs; [done|]. zbool.
    pose proof (length_pk_rest p Hw) as Hlen.
    destruct (pk_rest p) as [|b0 [|b1 [|b2 [|b3 l]]]]; simpl in Hlen; try lia. by eexists _, _, _, _, _. }
  unfold read_int in *. erewrite (read_int_bytes p) in Hr by done. rewrite E in Hl.
  erewrite (read_int_bytes p') by done. cbn [mbind option_bind] in *. simplify_eq. eexists. split; [done|].
  rewrite <-E in Hl.
  destruct (advance_over p [b0; b1; b2; b3] l 4) as [? R1]; [done..|].
  destruct (advance_over p' [b0; b1; b2; b3] l 4) as [? R2]; [done|by rewrite <-E|done|].
  split_and!; [done..|congruence].
Qed.

Lemma read_id_congr p p' i q :
  rest_eq p p' → read_id p = Some (i, q) → ∃ q', read_id p' = Some (i, q') ∧ rest_eq q q'.
Proof.
  unfold read_id. intros He Hr. destruct (read_int p) as [[x p1]|] eqn:E1; [|done]. cbn [mbind option_bind] in Hr.
  destruct (read_int p1) as [[y p2]|] eqn:E2; [|done]. cbn [mbind option_bind] in Hr. simplify_eq.
  destruct (read_int_congr _ _ _ _ He E1) as (p1' & -> & He1).
  destruct (read_int_congr _ _ _ _ He1 E2) as (p2' & E2' & He2).
  exists p2'. cbn [mbind option_bind]. by rewrite E2'.
Qed.
End readers.
