(* ===== verification/GLock.v ===== *)
(** * [core/s_core_glock_mserv.c]: the global lock of a meta server

    A client asks for a set of bits; a request that meets no held bit is
    granted at once, the others wait in the hash table until an unlock.  The
    table is any [Table]; [s_hash] is one.  A failed [assert] is [None]. *)

From S2P Require Import Prelude Packet Wire SHash SHashSpec Cluster.
Local Open Scope Z_scope.

Record s_glock_elem := GElem {
  ge_client_id : Z;
  ge_req_id : Z;
  ge_lock : Z;
  ge_is_waiting : bool
}.
#[export] Instance s_glock_elem_eq_dec : EqDecision s_glock_elem.
Proof. solve_decision. Defined.

Section glock.
Context {T : Type} `{HTb : !Table s_id s_glock_elem T}.

Record s_mserver := MServ { ms_glock : Z; ms_elems : T }.

Definition s_core_mserv_glock (st : s_mserver) (serv : serv_id) (pkt : s_packet)
    : option (s_mserver * list effect) :=
  if negb (sv_type serv =? S_SERV_TYPE_C) then None
  else
    let req_id := s_packet_get_req pkt in
    match (
      '(lock_id, pkt) ← read_id pkt;
      '(lock, pkt) ← read_uint pkt;
      Some (lock_id, lock, pkt))
    with
    | None => Some (st, [])
    | Some (lock_id, lock, pkt) =>
        if Z.land (ms_glock st) lock =? 0 then
          Some (MServ (Z.lor (ms_glock st) lock)
                  (tbl_put (ms_elems st) lock_id (GElem (sv_id serv) req_id lock false)),
                [RpcRet serv req_id (OPkt S_PKT_TYPE_RPC_BACK_ pkt)])
        else
          Some (MServ (ms_glock st)
                  (tbl_put (ms_elems st) lock_id (GElem (sv_id serv) req_id lock true)), [])
    end.

(** the servers that [s_servg_get_active_serv] finds *)
Context (active : serv_id → bool).

(** the loop over the table; [elem] runs one element behind [s_hash_next],
    which has already stored the key of the next element, if any, in [key] *)
Fixpoint unlock_loop (elems : list (s_id * s_glock_elem)) (st : s_mserver) : s_mserver * list effect :=
  match elems with
  | [] => (st, [])
  | (k, elem) :: rest =>
      let key := match rest with (k', _) :: _ => k' | [] => k end in
      if negb (ge_is_waiting elem) then unlock_loop rest st
      else if negb (Z.land (ms_glock st) (ge_lock elem) =? 0) then unlock_loop rest st
      else
        let st := MServ (ms_glock st)
          (tbl_put (ms_elems st) k (GElem (ge_client_id elem) (ge_req_id elem) (ge_lock elem) false)) in
        let serv := Serv S_SERV_TYPE_C (ge_client_id elem) in
        if negb (active serv) then unlock_loop rest st
        else
          let st := MServ (Z.lor (ms_glock st) (ge_lock elem)) (ms_elems st) in
          let '(st, effs) := unlock_loop rest st in
          (st, RpcRet serv (ge_req_id elem) (OMsg S_PKT_TYPE_RPC_BACK_ [Fint (id_x key); Fint (id_y key)]) :: effs)
  end.

Definition s_core_mserv_glock_unlock (st : s_mserver) (serv : serv_id) (pkt : s_packet)
    : option (s_mserver * list effect) :=
  if negb (sv_type serv =? S_SERV_TYPE_C) then None
  else
    match read_id pkt with
    | None => Some (st, [])
    | Some (lock_id, pkt) =>
        match tbl_get (ms_elems st) lock_id with
        | None => Some (st, [])
        | Some elem =>
            if negb (sv_id serv =? ge_client_id elem) then None
            else
              let st := MServ (Z.land (ms_glock st) (Z.lnot (ge_lock elem)))
                          (tbl_del (ms_elems st) lock_id) in
              Some (unlock_loop (tbl_elems (ms_elems st)) st)
        end
    end.
End glock.
Arguments s_mserver : clear implicits.

(** ** Mutual exclusion and no lost wake-up *)
Section invariant.
Implicit Types (m : gmap s_id s_glock_elem) (g : Z) (e : s_glock_elem).

Definition holds m (k : s_id) e : Prop := m !! k = Some e ∧ ge_is_waiting e = false.
Definition waits m (k : s_id) e : Prop := m !! k = Some e ∧ ge_is_waiting e = true.

(** two holders share no bit, the lock word is the union of the bits held *)
Record excl_ok g m : Prop := {
  ex_disjoint k1 k2 e1 e2 :
    holds m k1 e1 → holds m k2 e2 → k1 ≠ k2 → Z.land (ge_lock e1) (ge_lock e2) = 0;
  ex_union n : 0 <= n → Z.testbit g n = true ↔ ∃ k e, holds m k e ∧ Z.testbit (ge_lock e) n = true
}.
(** every request that waits meets a bit that is held *)
Definition wake_ok g m : Prop := ∀ k e, waits m k e → Z.land g (ge_lock e) ≠ 0.

Lemma land_0_iff a b : Z.land a b = 0 ↔ ∀ n, 0 <= n → Z.testbit a n = true → Z.testbit b n = true → False.
Proof.
  split.
  - intros E n Hn Ha Hb. pose proof (Z.land_spec a b n) as Hl. by rewrite E, Z.bits_0, Ha, Hb in Hl.
  - intros Hd. apply Z.bits_inj'. intros n Hn. rewrite Z.land_spec, Z.bits_0.
    destruct (Z.testbit a n) eqn:Ha, (Z.testbit b n) eqn:Hb; try done. exfalso. eauto.
Qed.

Lemma excl_conflict g m k e l :
  excl_ok g m → Z.land g l = 0 → holds m k e → Z.land (ge_lock e) l = 0.
Proof.
  intros [Hd Hu] Hg Hh. apply land_0_iff. intros n Hn Ha Hb.
  rewrite land_0_iff in Hg. apply (Hg n Hn); [|done]. apply Hu; [done|]. by exists k, e.
Qed.

(** a grant *)
Lemma excl_grant g m k e :
  excl_ok g m → Z.land g (ge_lock e) = 0 → ge_is_waiting e = false →
  (∀ e', ¬ holds m k e') → excl_ok (Z.lor g (ge_lock e)) (<[k := e]> m).
Proof.
  intros Hok Hg Hw Hk. pose proof Hok as [Hd Hu]. split.
  - intros k1 k2 e1 e2 [H1 W1] [H2 W2] Hne.
    rewrite lookup_insert in H1, H2. case_decide as E1; case_decide as E2; subst; try done.
    + simplify_eq. apply (excl_conflict g m k1); by try split.
    + simplify_eq. rewrite Z.land_comm. apply (excl_conflict g m k2); by try split.
    + apply (Hd k1 k2); by try split.
  - intros n Hn. rewrite Z.lor_spec, orb_true_iff, (Hu n Hn). split.
    + intros [(k' & e' & [He' We'] & Ht)|Ht].
      * exists k', e'. split; [|done]. split; [|done]. rewrite lookup_insert.
        case_decide as E; [|done]. subst. exfalso. by apply (Hk e').
      * exists k, e. split; [|done]. split; [|done]. by rewrite lookup_insert_eq.
    + intros (k' & e' & [He' We'] & Ht). rewrite lookup_insert in He'. case_decide as E.
      * simplify_eq. by right.
      * left. by exists k', e'.
Qed.

(** a request that has to wait, or any change of an element that does not hold *)
Lemma excl_wait g m k e :
  excl_ok g m → ge_is_waiting e = true → (∀ e', ¬ holds m k e') → excl_ok g (<[k := e]> m).
Proof.
  intros [Hd Hu] Hw Hk.
  assert (∀ k' e', holds (<[k := e]> m) k' e' ↔ holds m k' e') as Hh.
  { intros k' e'. unfold holds. rewrite lookup_insert. case_decide as E; [|done]. subst. split.
    - intros [[= <-] ?]. congruence.
    - intros ?. exfalso. by apply (Hk e'). }
  split.
  - intros k1 k2 e1 e2 H1%Hh H2%Hh. by apply Hd.
  - intros n Hn. rewrite (Hu n Hn). by setoid_rewrite Hh.
Qed.

(** a holder leaves *)
Lemma excl_release g m k e :
  excl_ok g m → holds m k e → excl_ok (Z.land g (Z.lnot (ge_lock e))) (delete k m).
Proof.
  intros [Hd Hu] Hk.
  assert (∀ k' e', holds (delete k m) k' e' ↔ k' ≠ k ∧ holds m k' e') as Hh.
  { intros k' e'. unfold holds. rewrite lookup_delete. case_decide; naive_solver. }
  split.
  - intros k1 k2 e1 e2 [_ H1]%Hh [_ H2]%Hh. by apply Hd.
  - intros n Hn. rewrite Z.land_spec, Z.lnot_spec, andb_true_iff, negb_true_iff, (Hu n Hn) by done. split.
    + intros [(k' & e' & He' & Ht) Hf]. exists k', e'. split; [|done]. apply Hh. split; [|done].
      intros ->. destruct He' as [He' _], Hk as [Hk _]. congruence.
    + intros (k' & e' & [Hne He']%Hh & Ht). split; [by exists k', e'|].
      destruct (Z.testbit (ge_lock e) n) eqn:Hf; [|done]. exfalso.
      assert (Z.land (ge_lock e') (ge_lock e) = 0) as E by by eapply Hd.
      rewrite land_0_iff in E. by apply (E n).
Qed.
End invariant.

(** ** The handlers keep the invariant *)
Section handlers.
Context {T : Type} `{HTb : !Table s_id s_glock_elem T, HT : !TableLaws s_id s_glock_elem T}.
Implicit Types (st : s_mserver T) (k : s_id) (e : s_glock_elem).

Definition emap st : gmap s_id s_glock_elem := tbl_map (ms_elems st).

Definition ginv st : Prop :=
  tbl_wf (ms_elems st) ∧ excl_ok (ms_glock st) (emap st) ∧ wake_ok (ms_glock st) (emap st).

Definition granted e : s_glock_elem := GElem (ge_client_id e) (ge_req_id e) (ge_lock e) false.

(** what an unlock does to the elements, and which replies it sends *)
Record woken st st' (effs : list effect) : Prop := {
  wo_inv : ginv st';
  wo_kept k e : holds (emap st) k e → holds (emap st') k e;
  wo_from k e' : emap st' !! k = Some e' →
    emap st !! k = Some e' ∨ ∃ e, waits (emap st) k e ∧ e' = granted e;
  wo_dom k : is_Some (emap st' !! k) ↔ is_Some (emap st !! k);
  wo_effs to req :
    (∃ o, RpcRet to req o ∈ effs) ↔
    ∃ k e, waits (emap st) k e ∧ holds (emap st') k (granted e) ∧
      to = Serv S_SERV_TYPE_C (ge_client_id e) ∧ req = ge_req_id e
}.

Context (active : serv_id → bool).

Lemma grant_state st k e :
  tbl_wf (ms_elems st) → waits (emap st) k e →
  let t := tbl_put (ms_elems st) k (granted e) in
  tbl_wf t ∧ tbl_map t = <[k := granted e]> (emap st).
Proof using HT. intros Hw _. by apply tbl_put_ok. Qed.

Lemma unlock_loop_spec rest st :
  tbl_wf (ms_elems st) → NoDup (fst <$> rest) →
  (∀ k e, (k, e) ∈ rest → emap st !! k = Some e) →
  excl_ok (ms_glock st) (emap st) →
  (∀ k e, waits (emap st) k e → (k, e) ∉ rest → Z.land (ms_glock st) (ge_lock e) ≠ 0) →
  (∀ k e, (k, e) ∈ rest → ge_is_waiting e = true → active (Serv S_SERV_TYPE_C (ge_client_id e)) = true) →
  let '(st', effs) := unlock_loop active rest st in woken st st' effs.
Proof using HT.
  revert st. induction rest as [|[k e] rest IH]; intros st Hwf Hnd Hin Hex Hwait Hact; cbn [unlock_loop].
  { split; try done.
    - split; [done|]. split; [done|]. intros k e Hk. apply (Hwait k e Hk). set_solver.
    - by left.
    - intros to req. split; [set_solver|]. intros (k & e & [H1 H2] & [H3 H4] & _).
      rewrite H1 in H3. simplify_eq. congruence. }
  cbn [fmap list_fmap fst] in Hnd. apply NoDup_cons in Hnd as [Hk Hnd].
  assert (emap st !! k = Some e) as Hke by (apply Hin; left).
  assert (∀ P : Prop, (ge_is_waiting e = true → Z.land (ms_glock st) (ge_lock e) ≠ 0) →
    let '(st', effs) := unlock_loop active rest st in woken st st' effs) as Hskip.
  { intros _ Hcond. apply IH; try done.
    - intros k' e' H'. apply Hin. by right.
    - intros k' e' Hw' Hn. destruct (decide ((k', e') = (k, e))) as [[= -> ->]|Hne].
      + apply Hcond. apply Hw'.
      + apply (Hwait k' e' Hw'). set_solver.
    - intros k' e' H'. apply (Hact k' e'). by right. }
  destruct (ge_is_waiting e) eqn:Ew; cbn [negb]; [|by apply (Hskip True)].
  destruct (_ =? 0) eqn:Eg; cbn [negb]; zbool; [|by apply (Hskip True)]. clear Hskip.
  rewrite (Hact k e ltac:(left) Ew). cbn [negb]. fold (granted e).
  destruct (grant_state st k e Hwf) as [Hwf1 Em1]; [by split|].
  set (st1 := MServ (Z.lor _ _) _). 
  assert (emap st1 = <[k := granted e]> (emap st)) as Em by done.
  assert (∀ e', ¬ holds (emap st) k e') as Hnh by (intros e' [H1 H2]; congruence).
  assert (woken st1 (unlock_loop active rest st1).1 (unlock_loop active rest st1).2) as Hw1.
  { specialize (IH st1). destruct (unlock_loop active rest st1) as [st' effs]. apply IH; try done.
    - intros k' e' H'. rewrite Em, lookup_insert_ne; [apply Hin; by right|]. intros ->.
      apply Hk, list_elem_of_fmap. by exists (k', e').
    - rewrite Em. by apply (excl_grant (ms_glock st) (emap st) k (granted e)).
    - intros k' e' [Hk' Hw'] Hn. rewrite Em, lookup_insert in Hk'. case_decide; [simplify_eq|].
      assert (Z.land (ms_glock st) (ge_lock e') ≠ 0) as Hc.
      { apply (Hwait k' e'); [done|]. set_solver. }
      intros E. apply Hc. rewrite land_0_iff in E |- *. intros n Hn' Ha Hb. apply (E n Hn'); [|done].
      unfold st1. cbn [ms_glock]. by rewrite Z.lor_spec, Ha.
    - intros k' e' H'. apply (Hact k' e'). by right. }
  destruct (unlock_loop active rest st1) as [st' effs]. destruct Hw1 as [Hi Hkept Hfrom Hdom Heff].
  rewrite Em in *. split.
  - done.
  - intros k' e' [H1 H2]. apply Hkept. split; [|done]. rewrite lookup_insert_ne; [done|congruence].
  - intros k' e' H'. destruct (Hfrom k' e' H') as [H1|(e1 & [H1 H2] & ->)]; rewrite lookup_insert in H1; case_decide; simplify_eq.
    + right. exists e. by split.
    + by left.
    + right. exists e1. by split.
  - intros k'. rewrite Hdom, lookup_insert_is_Some'. split; [|by right]. intros [->|?]; [by exists e|done].
  - intros to req. setoid_rewrite elem_of_cons. split.
    + intros (o & [E|Ho]).
      * simplify_eq. exists k, e. split; [by split|]. split; [|done]. apply Hkept. split; [|done]. by rewrite lookup_insert_eq.
      * destruct (proj1 (Heff to req)) as (k1 & e1 & [H1 H2] & H3 & H4); [by exists o|].
        rewrite lookup_insert in H1. case_decide; simplify_eq. exists k1, e1. by split.
    + intros (k1 & e1 & [H1 H2] & H3 & -> & ->). destruct (decide (k1 = k)) as [->|Hne].
      * simplify_eq. eexists. by left.
      * destruct (proj2 (Heff (Serv S_SERV_TYPE_C (ge_client_id e1)) (ge_req_id e1))) as (o & Ho).
        { exists k1, e1. split; [|done]. split; [|done]. by rewrite lookup_insert_ne. }
        exists o. by right.
Qed.

(** ** Well-behaved clients *)

(** a lock request comes from a client, for an id that is not in use *)
Definition lock_allowed st (serv : serv_id) (pkt : s_packet) : Prop :=
  sv_type serv = S_SERV_TYPE_C ∧
  ∀ id p, read_id pkt = Some (id, p) → emap st !! id = None.

(** an unlock comes from the client that holds the lock *)
Definition unlock_allowed st (serv : serv_id) (pkt : s_packet) : Prop :=
  sv_type serv = S_SERV_TYPE_C ∧
  ∀ id p e, read_id pkt = Some (id, p) → emap st !! id = Some e →
    ge_client_id e = sv_id serv ∧ ge_is_waiting e = false.

Definition waiters_active st : Prop :=
  ∀ k e, waits (emap st) k e → active (Serv S_SERV_TYPE_C (ge_client_id e)) = true.

Lemma glock_ginv st serv pkt :
  ginv st → lock_allowed st serv pkt →
  ∃ st' effs, s_core_mserv_glock st serv pkt = Some (st', effs) ∧ ginv st'.
Proof using HT.
  intros (Hwf & Hex & Hwk) [Ht Hnew]. unfold s_core_mserv_glock. rewrite Ht. cbn [Z.eqb Pos.eqb negb].
  change (S_SERV_TYPE_C =? S_SERV_TYPE_C) with true. cbn [negb].
  destruct (read_id pkt) as [[id p]|] eqn:Eid; cbn [mbind option_bind]; [|by eexists _, _].
  specialize (Hnew id p eq_refl).
  destruct (read_uint p) as [[lock p']|]; cbn [mbind option_bind]; [|by eexists _, _].
  assert (∀ e', ¬ holds (emap st) id e') as Hnh by (intros e' [? _]; congruence).
  destruct (_ =? 0) eqn:Eg; zbool; (eexists _, _; split; [done|]).
  - set (e := GElem _ _ _ _). destruct (tbl_put_ok (ms_elems st) id e Hwf) as [Hwf' Em].
    split; [done|]. unfold emap. cbn [ms_elems ms_glock]. rewrite Em. split.
    + by apply (excl_grant (ms_glock st) _ id e).
    + intros k e' [Hk Hw]. rewrite lookup_insert in Hk. case_decide; [simplify_eq|].
      assert (Z.land (ms_glock st) (ge_lock e') ≠ 0) as Hc by by apply (Hwk k e').
      intros E. apply Hc. rewrite land_0_iff in E |- *. intros n Hn Ha Hb. apply (E n Hn); [|done].
      by rewrite Z.lor_spec, Ha.
  - set (e := GElem _ _ _ _). destruct (tbl_put_ok (ms_elems st) id e Hwf) as [Hwf' Em].
    split; [done|]. unfold emap. cbn [ms_elems ms_glock]. rewrite Em. split.
    + by apply excl_wait.
    + intros k e' [Hk Hw]. rewrite lookup_insert in Hk. case_decide; [by simplify_eq|].
      by apply (Hwk k e').
Qed.

(** the state after the bits of the element are cleared *)
Definition released st (id : s_id) (e : s_glock_elem) : s_mserver T :=
  MServ (Z.land (ms_glock st) (Z.lnot (ge_lock e))) (tbl_del (ms_elems st) id).

Lemma unlock_spec st serv pkt :
  ginv st → unlock_allowed st serv pkt → waiters_active st →
  ∃ st' effs, s_core_mserv_glock_unlock active st serv pkt = Some (st', effs) ∧
    match read_id pkt with
    | Some (id, _) =>
        match emap st !! id with
        | Some e => woken (released st id e) st' effs ∧ emap (released st id e) = delete id (emap st)
        | None => st' = st ∧ effs = []
        end
    | None => st' = st ∧ effs = []
    end.
Proof using HT.
  intros (Hwf & Hex & Hwk) [Ht Hheld] Hact. unfold s_core_mserv_glock_unlock. rewrite Ht.
  change (S_SERV_TYPE_C =? S_SERV_TYPE_C) with true. cbn [negb].
  destruct (read_id pkt) as [[id p]|] eqn:Eid; [|by eexists _, _].
  rewrite tbl_get_ok by done. fold (emap st). destruct (emap st !! id) as [e|] eqn:He; [|by eexists _, _].
  destruct (Hheld id p e eq_refl He) as [-> Hw]. rewrite Z.eqb_refl. cbn [negb].
  fold (released st id e). destruct (tbl_del_ok (ms_elems st) id Hwf) as [Hwf' Em].
  pose proof (unlock_loop_spec (tbl_elems (ms_elems (released st id e))) (released st id e)) as Hl.
  destruct (unlock_loop active _ _) as [st' effs]. eexists st', effs. split; [done|]. split; [|done].
  pose proof (tbl_elems_ok (ms_elems (released st id e)) Hwf') as Hperm.
  assert (∀ k e1, (k, e1) ∈ tbl_elems (ms_elems (released st id e)) ↔ delete id (emap st) !! k = Some e1) as Hel.
  { intros k e1. rewrite Hperm, elem_of_map_to_list.
    change (tbl_map (tbl_del (ms_elems st) id) !! k = Some e1 ↔ delete id (emap st) !! k = Some e1).
    by rewrite Em. }
  assert (emap (released st id e) = delete id (emap st)) as Emr by done.
  apply Hl; try done.
  - rewrite Hperm. apply NoDup_fst_map_to_list.
  - intros k e1. by rewrite Emr, Hel.
  - rewrite Emr. by apply excl_release.
  - intros k e1 [Hk _] Hn. exfalso. apply Hn. by rewrite Hel, <-Emr.
  - intros k e1 Hk Hw1. rewrite Hel in Hk. apply lookup_delete_Some in Hk as [_ Hk].
    by apply (Hact k e1).
Qed.
End handlers.

(** ** Histories *)
Section histories.
Context {T : Type} `{HTb : !Table s_id s_glock_elem T, HT : !TableLaws s_id s_glock_elem T}.

(** a packet of a well-behaved client is handled; a client that waits stays
    connected *)
Inductive gstep : s_mserver T → s_mserver T → Prop :=
| gstep_lock st st' serv pkt effs :
    lock_allowed st serv pkt → s_core_mserv_glock st serv pkt = Some (st', effs) → gstep st st'
| gstep_unlock active st st' serv pkt effs :
    unlock_allowed st serv pkt → waiters_active active st →
    s_core_mserv_glock_unlock active st serv pkt = Some (st', effs) → gstep st st'.

Lemma gstep_ginv st st' : gstep st st' → ginv st → ginv st'.
Proof using HT.
  intros Hs Hi. destruct Hs as [st st' serv pkt effs Ha E|active st st' serv pkt effs Ha Hact E].
  - destruct (glock_ginv st serv pkt Hi Ha) as (st1 & effs1 & E1 & Hi1). congruence.
  - destruct (unlock_spec active st serv pkt Hi Ha Hact) as (st1 & effs1 & E1 & Hc).
    assert (st1 = st') as -> by congruence.
    repeat case_match; try (destruct Hc as [-> _]; done). destruct Hc as [Hw _]. apply (wo_inv _ _ _ Hw).
Qed.

Lemma new_ginv n : ginv (MServ 0 (tbl_new n : T)).
Proof using HT.
  destruct (tbl_new_ok (T := T) n) as [Hw Em]. split; [done|]. unfold emap. cbn [ms_elems ms_glock]. rewrite Em.
  split; [split|].
  - intros k1 k2 e1 e2 [H1 _]. by rewrite lookup_empty in H1.
  - intros i Hi. rewrite Z.bits_0. split; [done|]. intros (k & e & [H1 _] & _). by rewrite lookup_empty in H1.
  - intros k e [H1 _]. by rewrite lookup_empty in H1.
Qed.

(** C25. The global lock is exclusive and forgets nobody: in every state that
    well-behaved clients can bring a meta server to - each request has a new id,
    an unlock comes only from a client whose request was granted, and who waits
    stays connected ([gstep]; an unlock of a request that waits breaks it,
    [waiting_unlock_breaks_exclusion]) - two requests that are granted share no bit, the lock word is exactly the union of the bits
    granted, and every request that waits meets a bit that is taken (so that
    none waits for nothing). *)
Theorem glock_exclusive n st :
  rtc gstep (MServ 0 (tbl_new n)) st →
  tbl_wf (ms_elems st) ∧ excl_ok (ms_glock st) (emap st) ∧ wake_ok (ms_glock st) (emap st).
Proof using HT.
  intros Hr. change (ginv st). pose proof (new_ginv n) as H0.
  induction Hr as [st|st1 st2 st3 Hs _ IH]; [done|]. apply IH. by eapply gstep_ginv.
Qed.

(** An unlock wakes exactly the right clients: it never fails an
    assertion for the holder of the lock, it keeps every other grant, it
    changes no element but from waiting to granted, and it sends a reply to a
    client, with that client's request id, if and only if that request has
    just been granted. *)
Theorem glock_unlock_wakes active st serv pkt id p e :
  ginv st → unlock_allowed st serv pkt → waiters_active active st →
  read_id pkt = Some (id, p) → emap st !! id = Some e →
  ∃ st' effs, s_core_mserv_glock_unlock active st serv pkt = Some (st', effs) ∧ ginv st' ∧
    emap st' !! id = None ∧
    (∀ k e', k ≠ id → holds (emap st) k e' → holds (emap st') k e') ∧
    (∀ k e', emap st' !! k = Some e' →
      emap st !! k = Some e' ∨ ∃ e1, waits (emap st) k e1 ∧ e' = granted e1) ∧
    ∀ to req, (∃ o, RpcRet to req o ∈ effs) ↔
      ∃ k e1, k ≠ id ∧ waits (emap st) k e1 ∧ holds (emap st') k (granted e1) ∧
        to = Serv S_SERV_TYPE_C (ge_client_id e1) ∧ req = ge_req_id e1.
Proof using HT.
  intros Hi Ha Hact Hid He. destruct (unlock_spec active st serv pkt Hi Ha Hact) as (st' & effs & E & Hc).
  rewrite Hid, He in Hc. destruct Hc as [[Hi' Hkept Hfrom Hdom Heff] Em]. rewrite Em in *.
  exists st', effs. split; [done|]. split; [done|]. split_and!.
  - apply eq_None_not_Some. rewrite Hdom, lookup_delete_eq. by intros [? ?].
  - intros k e' Hne [H1 H2]. apply Hkept. split; [|done]. by rewrite lookup_delete_ne.
  - intros k e' H'. destruct (Hfrom k e' H') as [H1|(e1 & [H1 H2] & ->)]; apply lookup_delete_Some in H1 as [_ H1].
    + by left.
    + right. exists e1. by split.
  - intros to req. rewrite Heff. split.
    + intros (k & e1 & [H1 H2] & H3). apply lookup_delete_Some in H1 as [Hne H1].
      exists k, e1. split; [done|]. by split.
    + intros (k & e1 & Hne & [H1 H2] & H3). exists k, e1. split; [|done]. split; [|done].
      by rewrite lookup_delete_ne.
Qed.
End histories.

(** ** What the discipline is needed for *)
Section examples.
Local Abbreviation state := (s_mserver (s_hash s_glock_elem)).
#[local] Instance glock_elem_inhabited : Inhabited s_glock_elem := populate (GElem 0 0 0 false).

(** the packets of the handlers *)
Definition lock_pkt (req x y lock : Z) : s_packet :=
  let p := default (Packet 12 12 1 4 (replicate 28 0))
             (s_packet_start_write 0 g_free_init S_PKT_TYPE_GLOBAL_LOCK [Fint x; Fint y; Fuint lock]).1 in
  with_pos (s_packet_set_req p req).2 S_PKT_DATA_POS.
Definition client (id : Z) : serv_id := Serv S_SERV_TYPE_C id.

Definition run_lock (st : option state) (id req x y lock : Z) : option state :=
  st ← st; fst <$> s_core_mserv_glock st (client id) (lock_pkt req x y lock).
Definition run_unlock (st : option state) (id x y : Z) : option (state * list effect) :=
  st ← st; s_core_mserv_glock_unlock (λ _, true) st (client id) (lock_pkt 0 x y 0).

Definition empty_state : state := MServ 0 (s_hash_create 16).
(** client 1 holds bits 1 and 2; clients 2 and 3 wait for one each *)
Definition busy_state : option state :=
  run_lock (run_lock (run_lock (Some empty_state) 1 10 1 1 3) 2 20 2 2 1) 3 30 3 3 2.

(** a request that the table records as granted *)
Definition granted_in (st : state) (k : s_id) (l : Z) : bool :=
  match tbl_get (ms_elems st) k with
  | Some e => negb (ge_is_waiting e) && (ge_lock e =? l)
  | None => false
  end.

(** An unlock for a request that still waits clears bits that another
    client holds: a third client is then granted the same bit while the first
    still has it. *)
Theorem waiting_unlock_breaks_exclusion :
  ∃ st, run_lock (fst <$> run_unlock busy_state 2 2 2) 4 40 4 4 1 = Some st ∧
    granted_in st (SId 1 1) 3 = true ∧ granted_in st (SId 4 4) 1 = true ∧ Z.land 3 1 ≠ 0.
Proof.
  eexists. split; [vm_compute; reflexivity|]. by split_and!; vm_compute.
Qed.

(** The reply to a client that is granted its lock by an unlock names the
    lock id of the next element of the table, not its own: [s_hash_next] has
    already moved on when the packet is written. *)
Theorem grant_reply_names_next_lock :
  ∃ st effs, run_unlock busy_state 1 1 1 = Some (st, effs) ∧
    RpcRet (client 2) 20 (OMsg S_PKT_TYPE_RPC_BACK_ [Fint 3; Fint 3]) ∈ effs.
Proof.
  eexists _, _. split; [vm_compute; reflexivity|]. vm_compute. left.
Qed.

(** ** The properties at work *)
Definition get_state (o : option state) : state := default empty_state o.

Lemma elems_in (st : state) k e : tbl_wf (ms_elems st) → emap st !! k = Some e → (k, e) ∈ tbl_elems (ms_elems st).
Proof. intros Hwf Hk. rewrite (tbl_elems_ok _ Hwf). by apply elem_of_map_to_list. Qed.

Lemma one_lock_step : gstep empty_state (get_state (run_lock (Some empty_state) 1 10 1 1 3)).
Proof.
  eapply (gstep_lock _ _ (client 1) (lock_pkt 10 1 1 3)).
  - split; [reflexivity|]. intros id p _. unfold emap.
    destruct (tbl_new_ok (T := s_hash s_glock_elem) 16) as [_ Em].
    change (tbl_map (tbl_new (T := s_hash s_glock_elem) 16) !! id = None). rewrite Em. apply lookup_empty.
  - vm_compute. reflexivity.
Qed.

Lemma glock_exclusive_witness :
  rtc gstep (MServ 0 (tbl_new 16)) (get_state (run_lock (Some empty_state) 1 10 1 1 3)) ∧
  excl_ok (ms_glock (get_state (run_lock (Some empty_state) 1 10 1 1 3)))
    (emap (get_state (run_lock (Some empty_state) 1 10 1 1 3))).
Proof.
  assert (rtc gstep (MServ 0 (tbl_new 16)) (get_state (run_lock (Some empty_state) 1 10 1 1 3))) as H.
  { apply rtc_once, one_lock_step. }
  split; [exact H|]. apply (glock_exclusive 16 _ H).
Defined.

Lemma glock_unlock_wakes_witness :
  let st := get_state (run_lock (Some empty_state) 1 10 1 1 3) in
  ∃ st' effs, s_core_mserv_glock_unlock (λ _, true) st (client 1) (lock_pkt 0 1 1 0) = Some (st', effs) ∧
    emap st' !! SId 1 1 = None.
Proof.
  set (st := get_state (run_lock (Some empty_state) 1 10 1 1 3)). intros _st. subst _st.
  pose proof (gstep_ginv _ _ one_lock_step (new_ginv 16)) as Hi. fold st in Hi.
  assert (emap st !! SId 1 1 = Some (GElem 1 10 3 false)) as He.
  { unfold emap. rewrite <-tbl_get_ok by apply Hi. vm_compute. reflexivity. }
  assert (∀ k e, emap st !! k = Some e → tbl_elems (ms_elems st) = [(SId 1 1, GElem 1 10 3 false)] → e = GElem 1 10 3 false) as Hall.
  { intros k e Hk Hl. assert ((k, e) ∈ tbl_elems (ms_elems st)) as Hin.
    { apply elems_in; [apply Hi|exact Hk]. }
    rewrite Hl in Hin. apply list_elem_of_singleton in Hin. congruence. }
  destruct (glock_unlock_wakes (λ _, true) st (client 1) (lock_pkt 0 1 1 0) (SId 1 1)
    (default (lock_pkt 0 1 1 0) (snd <$> read_id (lock_pkt 0 1 1 0))) (GElem 1 10 3 false))
    as (st' & effs & E & _ & Hn & _).
  - exact Hi.
  - split; [reflexivity|]. intros id p e Hid Hk.
    rewrite (Hall id e Hk) by (vm_compute; reflexivity). by split.
  - by intros k e _.
  - vm_compute. reflexivity.
  - exact He.
  - exact (ex_intro _ st' (ex_intro _ effs (conj E Hn))).
Defined.

End examples.
