(* ===== verification/CorePkt.v ===== *)
(** * [core/s_core_pkt.c], [core/s_core_param.c], [core/s_core_util.c]

    The meta data of a file and its packets.  The objects end in an array whose
    room is computed when they are allocated; the decoders check every write
    against that room ([Crash] is a write outside). *)

From S2P Require Import Prelude Packet Wire Cluster.
Local Open Scope Z_scope.

Record s_file_desc := FDesc { file_id : Z; file_version : Z }.
Record s_file_size := FSize { fs_low : Z; fs_high : Z }.

(** [s_block_locate] is a pair *)
Record s_file_meta_data := FMD {
  md_fname : list Z;
  md_fdesc : s_file_desc;
  md_fsize : s_file_size;
  md_nblocks : Z;
  md_blocks : list (Z * Z)
}.

Record s_file_meta_meta_data := FMMD {
  mm_fname : list Z;
  mm_fdesc : s_file_desc;
  mm_flags : Z;
  mm_nmserv : Z;
  mm_mservs : list Z
}.

Record s_core_metadata_param := MDP { mp_fname : list Z; mp_size : s_file_size }.

Definition S_FILE_MMD_FLAG_DELETED : Z := 1.

(** ** Allocation
    The layout of the two structs on a 64-bit machine: their size, the end of
    the last field before the array, the size of a cell.  [__s_malloc] takes an
    [unsigned int]. *)
Definition sizeof_md : Z := 64.
Definition md_head : Z := 60.
Definition sizeof_locate : Z := 4.
Definition sizeof_mmd : Z := 64.
Definition mmd_head : Z := 56.
Definition sizeof_ushort : Z := 2.

(** the bytes that [s_file_meta_data_create(core, nblocks)] asks for; the
    fields before the array must fit *)
Definition s_file_meta_data_create (nblocks : Z) : res Z :=
  let sz := uint (sizeof_md + sizeof_ushort * nblocks) in
  _ ← within sz md_head; Ok sz.
Definition s_file_meta_meta_data_create (nmserv : Z) : res Z :=
  let sz := uint (sizeof_mmd + sizeof_ushort * nmserv) in
  _ ← within sz mmd_head; Ok sz.

(** ** Encoders *)
Section encoders.
(** the contents of fresh memory *)
Context (junk : Z).

(** [None] is [NULL]: the packet is dropped if a write fails *)
Definition s_core_pkt_from_mdp (g : pool) (param : s_core_metadata_param) : option s_packet * pool :=
  let sz := s_packet_size_for_string (mp_fname param) + s_packet_size_for_uint + s_packet_size_for_uint in
  match s_packet_easy junk g S_PKT_TYPE_CREATE sz with
  | (None, g) => (None, g)
  | (Some pkt, g) =>
      let '(r, pkt) := s_packet_write_string pkt (mp_fname param) in
      if r <? 0 then (None, (s_packet_drop g pkt).2)
      else
        let '(r, pkt) := s_packet_write_uint pkt (fs_low (mp_size param)) in
        if r <? 0 then (None, (s_packet_drop g pkt).2)
        else
          let '(r, pkt) := s_packet_write_uint pkt (fs_high (mp_size param)) in
          if r <? 0 then (None, (s_packet_drop g pkt).2) else (Some pkt, g)
  end.

Definition fmmd_size (mmd : s_file_meta_meta_data) : Z :=
  s_packet_size_for_string (mm_fname mmd) + s_packet_size_for_uint + s_packet_size_for_uint +
  s_packet_size_for_uint + s_packet_size_for_uint * mm_nmserv mmd.
Definition fmmd_fields (mmd : s_file_meta_meta_data) : list field :=
  [Fstring (mm_fname mmd); Fuint (file_id (mm_fdesc mmd)); Fuint (file_version (mm_fdesc mmd)); Fint (mm_nmserv mmd)] ++
  map Fushort (take (Z.to_nat (mm_nmserv mmd)) (mm_mservs mmd)).

(** a packet that cannot be made is a null pointer that is written to: [None] *)
Definition s_core_pkt_from_fmmd (g : pool) (mmd : s_file_meta_meta_data) : option (s_packet * pool) :=
  match s_packet_easy junk g S_PKT_TYPE_CREATE_META_META_DATA (fmmd_size mmd) with
  | (None, g) => None
  | (Some pkt, g) => Some (write_fields pkt (fmmd_fields mmd), g)
  end.

Definition fmd_size (md : s_file_meta_data) : Z :=
  s_packet_size_for_string (md_fname md) + s_packet_size_for_uint + s_packet_size_for_uint +
  s_packet_size_for_uint + s_packet_size_for_uint + s_packet_size_for_uint +
  (s_packet_size_for_ushort * 2) * md_nblocks md.
Definition fmd_fields (md : s_file_meta_data) : list field :=
  [Fstring (md_fname md); Fuint (file_id (md_fdesc md)); Fuint (file_version (md_fdesc md));
   Fuint (fs_high (md_fsize md)); Fuint (fs_low (md_fsize md)); Fuint (md_nblocks md)] ++
  concat (map (λ b, [Fushort b.1; Fushort b.2]) (take (Z.to_nat (md_nblocks md)) (md_blocks md))).

Definition s_core_pkt_from_fmd (g : pool) (md : s_file_meta_data) : option (s_packet * pool) :=
  match s_packet_easy junk g S_PKT_TYPE_CREATE_METADATA (fmd_size md) with
  | (None, g) => None
  | (Some pkt, g) => Some (write_fields pkt (fmd_fields md), g)
  end.

(** ** Decoders *)

(** the loop that fills [mservs], from cell [i] *)
Fixpoint read_mservs (cap i : Z) (n : nat) (pkt : s_packet) : res (list Z * s_packet) :=
  match n with
  | O => Ok ([], pkt)
  | S n =>
      '(s, pkt) ← attempt (read_ushort pkt);
      _ ← within cap (mmd_head + sizeof_ushort * i + sizeof_ushort);
      '(l, pkt) ← read_mservs cap (i + 1) n pkt;
      Ok (s :: l, pkt)
  end.

(** [Fail] is the error label, which returns [NULL] *)
Definition s_core_pkt_to_fmmd (pkt : s_packet) : res s_file_meta_meta_data :=
  '(fname, pkt) ← attempt (read_string pkt);
  '(id, pkt) ← attempt (read_uint pkt);
  '(version, pkt) ← attempt (read_uint pkt);
  '(nmserv, pkt) ← attempt (read_int pkt);
  cap ← s_file_meta_meta_data_create nmserv;
  '(mservs, pkt) ← read_mservs cap 0 (Z.to_nat nmserv) pkt;
  Ok (FMMD fname (FDesc id version) junk nmserv mservs).

(** the loop that fills [blocks], from cell [i] *)
Fixpoint read_blocks (cap i : Z) (n : nat) (pkt : s_packet) : res (list (Z * Z) * s_packet) :=
  match n with
  | O => Ok ([], pkt)
  | S n =>
      '(a, pkt) ← attempt (read_ushort pkt);
      _ ← within cap (md_head + sizeof_locate * i + sizeof_ushort);
      '(b, pkt) ← attempt (read_ushort pkt);
      _ ← within cap (md_head + sizeof_locate * i + sizeof_locate);
      '(l, pkt) ← read_blocks cap (i + 1) n pkt;
      Ok ((a, b) :: l, pkt)
  end.

Definition s_core_pkt_to_fmd (pkt : s_packet) : res s_file_meta_data :=
  let pkt := (s_packet_seek pkt 0).2 in
  '(fname, pkt) ← attempt (read_string pkt);
  '(id, pkt) ← attempt (read_uint pkt);
  '(version, pkt) ← attempt (read_uint pkt);
  '(high, pkt) ← attempt (read_uint pkt);
  '(low, pkt) ← attempt (read_uint pkt);
  '(nblocks, pkt) ← attempt (read_uint pkt);
  cap ← s_file_meta_data_create (sint nblocks);
  '(blocks, pkt) ← read_blocks cap 0 (Z.to_nat nblocks) pkt;
  Ok (FMD fname (FDesc id version) (FSize low high) (sint nblocks) blocks).
End encoders.

(** ** From one server to another *)
Section codecs.
Implicit Types (p q : s_packet) (md : s_file_meta_data) (mmd : s_file_meta_meta_data).

Definition name_ok (s : list Z) : Prop := field_ok (Fstring s).
Definition desc_ok (d : s_file_desc) : Prop := is_uint (file_id d) ∧ is_uint (file_version d).
Definition fsize_ok (s : s_file_size) : Prop := is_uint (fs_low s) ∧ is_uint (fs_high s).

Record fmd_ok md : Prop := {
  md_ok_fname : name_ok (md_fname md);
  md_ok_fdesc : desc_ok (md_fdesc md);
  md_ok_fsize : fsize_ok (md_fsize md);
  md_ok_nblocks : md_nblocks md = Z.of_nat (length (md_blocks md));
  md_ok_blocks : Forall (λ b, is_ushort b.1 ∧ is_ushort b.2) (md_blocks md);
  md_ok_fits : fmd_size md <= S_PKT_MAX_SZ
}.
Record fmmd_ok mmd : Prop := {
  mm_ok_fname : name_ok (mm_fname mmd);
  mm_ok_fdesc : desc_ok (mm_fdesc mmd);
  mm_ok_nmserv : mm_nmserv mmd = Z.of_nat (length (mm_mservs mmd));
  mm_ok_mservs : Forall is_ushort (mm_mservs mmd);
  mm_ok_fits : fmmd_size mmd <= S_PKT_MAX_SZ
}.

Lemma max_sz_eq : S_PKT_MAX_SZ = 4194304.
Proof. reflexivity. Qed.

Ltac sizes := unfold fmd_size, fmmd_size, s_packet_size_for_string, s_packet_size_for_uint,
  s_packet_size_for_ushort, desc_ok, fsize_ok, sizeof_md, sizeof_mmd, md_head, mmd_head, sizeof_locate, sizeof_ushort in *.

Lemma length_blocks (l : list (Z * Z)) :
  length (enc_fields (concat (map (λ b, [Fushort b.1; Fushort b.2]) l))) = (4 * length l)%nat.
Proof. induction l as [|b l IH]; [done|]. unfold enc_fields in *. simpl. rewrite IH. lia. Qed.
Lemma length_mservs (l : list Z) : length (enc_fields (map Fushort l)) = (2 * length l)%nat.
Proof. induction l as [|b l IH]; [done|]. unfold enc_fields in *. simpl. rewrite IH. lia. Qed.
Lemma enc_fields_app l1 l2 : enc_fields (l1 ++ l2) = enc_fields l1 ++ enc_fields l2.
Proof. unfold enc_fields. by rewrite map_app, concat_app. Qed.

Lemma fmd_fields_ok md : fmd_ok md →
  Forall field_ok (fmd_fields md) ∧ Z.of_nat (length (enc_fields (fmd_fields md))) = fmd_size md ∧
  0 <= md_nblocks md < 2097152.
Proof.
  intros [Hn [Hi Hv] [Hl Hh] Hb Hbs Hf]. unfold fmd_fields. rewrite Hb, Nat2Z.id, take_ge by done.
  rewrite max_sz_eq in Hf. sizes. rewrite Hb in Hf |- *. split_and!; try lia.
  - apply Forall_app. split; [repeat (apply Forall_cons; split; [first [done|unfold field_ok, is_uint; lia]|]); by apply Forall_nil|].
    clear -Hbs. induction Hbs as [|b l [? ?] _ IH]; [by apply Forall_nil|]. simpl. by repeat (apply Forall_cons; split; [done|]).
  - rewrite enc_fields_app, length_app, length_blocks. unfold enc_fields. simpl. rewrite length_app. simpl. lia.
Qed.

Lemma fmmd_fields_ok mmd : fmmd_ok mmd →
  Forall field_ok (fmmd_fields mmd) ∧ Z.of_nat (length (enc_fields (fmmd_fields mmd))) <= fmmd_size mmd ∧
  0 <= mm_nmserv mmd < 2097152.
Proof.
  intros [Hn [Hi Hv] Hb Hbs Hf]. unfold fmmd_fields. rewrite Hb, Nat2Z.id, take_ge by done.
  rewrite max_sz_eq in Hf. sizes. rewrite Hb in Hf |- *. split_and!; try lia.
  - apply Forall_app. split; [repeat (apply Forall_cons; split; [first [done|unfold field_ok, is_int; lia]|]); by apply Forall_nil|].
    clear -Hbs. induction Hbs as [|b l ? _ IH]; [by apply Forall_nil|]. simpl. by apply Forall_cons.
  - rewrite enc_fields_app, length_app, length_mservs. unfold enc_fields. simpl. rewrite length_app. simpl. lia.
Qed.

Lemma enc_fields_cons f l tl : enc_fields (f :: l) ++ tl = enc_field f ++ enc_fields l ++ tl.
Proof. by rewrite (app_assoc (enc_field f)). Qed.

Lemma read_blocks_spec cap i l p tl :
  pk_wf p → Forall (λ b, is_ushort b.1 ∧ is_ushort b.2) l →
  pk_rest p = enc_fields (concat (map (λ b, [Fushort b.1; Fushort b.2]) l)) ++ tl →
  if md_head + sizeof_locate * (i + Z.of_nat (length l)) <=? cap
  then ∃ p', read_blocks cap i (length l) p = Ok (l, p')
  else l = [] ∨ read_blocks cap i (length l) p = Crash.
Proof.
  intros Hw Hl. revert i p Hw. induction Hl as [|[a b] l [Ha Hb] _ IH]; intros i p Hw Hr.
  { case_match; [by exists p|by left]. }
  change (pk_rest p = enc_field (Fushort a) ++ enc_field (Fushort b) ++
    enc_fields (concat (map (λ b, [Fushort b.1; Fushort b.2]) l)) ++ tl) in Hr. cbn [length read_blocks].
  destruct (read_ushort_field p a _ Hw Ha Hr) as (p1 & -> & Hw1 & Hr1). cbn [attempt mbind res_bind].
  destruct (read_ushort_field p1 b _ Hw1 Hb Hr1) as (p2 & E2 & Hw2 & Hr2).
  specialize (IH (i + 1) p2 Hw2 Hr2). sizes.
  destruct (decide (60 + 4 * i + 4 <= cap)) as [Hin|Hout].
  - rewrite within_ok by lia. cbn [mbind res_bind]. rewrite E2. cbn [attempt mbind res_bind].
    rewrite within_ok by lia. cbn [mbind res_bind].
    replace (60 + 4 * (i + Z.of_nat (S (length l)))) with (60 + 4 * (i + 1 + Z.of_nat (length l))) by lia.
    destruct (_ <=? cap) eqn:E; zbool.
    + destruct IH as [p' ->]. by exists p'.
    + right. destruct IH as [->| ->]; [simpl in E; lia|done].
  - rewrite (proj2 (Z.leb_gt _ _)) by lia. right. unfold within.
    destruct (cap <? 60 + 4 * i + 2); [done|]. cbn [mbind res_bind]. rewrite E2. cbn [attempt mbind res_bind].
    by rewrite (proj2 (Z.ltb_lt _ _)) by lia.
Qed.

Lemma read_mservs_spec cap i l p tl :
  pk_wf p → Forall is_ushort l → pk_rest p = enc_fields (map Fushort l) ++ tl →
  mmd_head + sizeof_ushort * (i + Z.of_nat (length l)) <= cap →
  ∃ p', read_mservs cap i (length l) p = Ok (l, p').
Proof.
  intros Hw Hl. revert i p Hw. induction Hl as [|a l Ha _ IH]; intros i p Hw Hr Hc; [by exists p|].
  change (pk_rest p = enc_field (Fushort a) ++ enc_fields (map Fushort l) ++ tl) in Hr. cbn [length read_mservs] in *.
  destruct (read_ushort_field p a _ Hw Ha Hr) as (p1 & -> & Hw1 & Hr1). cbn [attempt mbind res_bind].
  rewrite within_ok by (sizes; lia). cbn [mbind res_bind].
  destruct (IH (i + 1) p1 Hw1 Hr1) as [p' E]; [lia|]. rewrite E. by exists p'.
Qed.

(** a packet with these bytes behind its head, as the receiver gets it *)
Lemma to_fmd_spec md q tl :
  fmd_ok md → pk_wf q → pk_pos q = S_PKT_DATA_POS → pk_rest q = enc_fields (fmd_fields md) ++ tl →
  s_core_pkt_to_fmd q = if md_nblocks md <=? 2 then Ok md else Crash.
Proof.
  intros Hok Hw Hpos Hr. destruct (fmd_fields_ok md Hok) as (_ & Hlen & Hn).
  destruct Hok as [Hnm [Hi Hv] [Hl Hh] Hb Hbs Hf]. unfold s_core_pkt_to_fmd.
  assert ((s_packet_seek q 0).2 = q) as ->.
  { unfold s_packet_seek. pose proof (length_pk_rest q Hw) as Hlr. rewrite Hr, length_app in Hlr.
    unfold S_PKT_DATA_POS, S_PKT_HEAD_SIZE in *. rewrite Hpos in Hlr.
    assert (0 < fmd_size md) by (sizes; lia).
    rewrite (proj2 (Z.ltb_ge _ _)), (proj2 (Z.ltb_ge _ _)) by lia. destruct q. cbn in Hpos. by subst. }
  unfold fmd_fields in Hr. rewrite Hb, Nat2Z.id, take_ge, enc_fields_app, <-app_assoc in Hr by done.
  set (rest := enc_fields (concat _) ++ tl) in Hr. rewrite !enc_fields_cons in Hr.
  change (pk_rest q = enc_field (Fstring (md_fname md)) ++ enc_field (Fuint (file_id (md_fdesc md))) ++
    enc_field (Fuint (file_version (md_fdesc md))) ++ enc_field (Fuint (fs_high (md_fsize md))) ++
    enc_field (Fuint (fs_low (md_fsize md))) ++ enc_field (Fuint (Z.of_nat (length (md_blocks md)))) ++ rest) in Hr.
  destruct (read_string_field _ _ _ Hw Hnm Hr) as (p1 & -> & Hw1 & Hr1). cbn [attempt mbind res_bind].
  destruct (read_uint_field _ _ _ Hw1 Hi Hr1) as (p2 & -> & Hw2 & Hr2). cbn [attempt mbind res_bind].
  destruct (read_uint_field _ _ _ Hw2 Hv Hr2) as (p3 & -> & Hw3 & Hr3). cbn [attempt mbind res_bind].
  destruct (read_uint_field _ _ _ Hw3 Hh Hr3) as (p4 & -> & Hw4 & Hr4). cbn [attempt mbind res_bind].
  destruct (read_uint_field _ _ _ Hw4 Hl Hr4) as (p5 & -> & Hw5 & Hr5). cbn [attempt mbind res_bind].
  destruct (read_uint_field _ (Z.of_nat (length (md_blocks md))) _ Hw5 ltac:(unfold is_uint; lia) Hr5) as (p6 & -> & Hw6 & Hr6). cbn [attempt mbind res_bind].
  rewrite Nat2Z.id, sint_small by (unfold is_int; lia). rewrite <-Hb. unfold s_file_meta_data_create. sizes.
  rewrite uint_small by (unfold is_uint; lia). rewrite within_ok by lia. cbn [mbind res_bind].
  pose proof (read_blocks_spec (64 + 2 * md_nblocks md) 0 (md_blocks md) p6 tl Hw6 Hbs Hr6) as Hrb. sizes.
  rewrite <-Hb in Hrb. destruct (md_nblocks md <=? 2) eqn:E; zbool.
  - rewrite (proj2 (Z.leb_le _ _)) in Hrb by lia. destruct Hrb as [p' ->]. cbn [mbind res_bind]. by destruct md as [? [] [] ? ?].
  - rewrite (proj2 (Z.leb_gt _ _)) in Hrb by lia. destruct Hrb as [Hnil| ->]; [|done].
    rewrite Hnil in Hb. simpl in Hb. lia.
Qed.

Definition with_flags (flags : Z) mmd : s_file_meta_meta_data :=
  FMMD (mm_fname mmd) (mm_fdesc mmd) flags (mm_nmserv mmd) (mm_mservs mmd).

Lemma to_fmmd_spec junk mmd q tl :
  fmmd_ok mmd → pk_wf q → pk_rest q = enc_fields (fmmd_fields mmd) ++ tl →
  s_core_pkt_to_fmmd junk q = Ok (with_flags junk mmd).
Proof.
  intros Hok Hw Hr. destruct (fmmd_fields_ok mmd Hok) as (_ & Hlen & Hn).
  destruct Hok as [Hnm [Hi Hv] Hb Hbs Hf]. unfold s_core_pkt_to_fmmd.
  unfold fmmd_fields in Hr. rewrite Hb, Nat2Z.id, take_ge, enc_fields_app, <-app_assoc in Hr by done.
  set (rest := enc_fields (map _ _) ++ tl) in Hr. rewrite !enc_fields_cons in Hr.
  change (pk_rest q = enc_field (Fstring (mm_fname mmd)) ++ enc_field (Fuint (file_id (mm_fdesc mmd))) ++
    enc_field (Fuint (file_version (mm_fdesc mmd))) ++ enc_field (Fint (Z.of_nat (length (mm_mservs mmd)))) ++ rest) in Hr.
  destruct (read_string_field _ _ _ Hw Hnm Hr) as (p1 & -> & Hw1 & Hr1). cbn [attempt mbind res_bind].
  destruct (read_uint_field _ _ _ Hw1 Hi Hr1) as (p2 & -> & Hw2 & Hr2). cbn [attempt mbind res_bind].
  destruct (read_uint_field _ _ _ Hw2 Hv Hr2) as (p3 & -> & Hw3 & Hr3). cbn [attempt mbind res_bind].
  destruct (read_int_field _ (Z.of_nat (length (mm_mservs mmd))) _ Hw3 ltac:(unfold is_int; lia) Hr3) as (p4 & -> & Hw4 & Hr4). cbn [attempt mbind res_bind].
  rewrite Nat2Z.id. rewrite <-Hb. unfold s_file_meta_meta_data_create. sizes.
  rewrite uint_small by (unfold is_uint; lia). rewrite within_ok by lia. cbn [mbind res_bind].
  destruct (read_mservs_spec (64 + 2 * mm_nmserv mmd) 0 (mm_mservs mmd) p4 tl Hw4 Hbs Hr4) as [p' ->]; [sizes; lia|].
  cbn [mbind res_bind]. unfold with_flags. by destruct (mm_fdesc mmd).
Qed.

(** the packet of a file's meta data, on its way to the receiver *)
Lemma from_fmd_received junk1 junk2 g1 g2 md tl :
  pool_wf g1 → pool_wf g2 → fmd_ok md →
  ∃ p g1' q g2', s_core_pkt_from_fmd junk1 g1 md = Some (p, g1') ∧
    let bytes := take (Z.to_nat (pk_size p)) (pk_data p) in
    s_packet_create_from junk2 g2 (bytes ++ tl) (Z.of_nat (length (bytes ++ tl))) = CF_packet q g2' ∧
    s_packet_get_fun q = S_PKT_TYPE_CREATE_METADATA ∧
    s_core_pkt_to_fmd q = if md_nblocks md <=? 2 then Ok md else Crash.
Proof.
  intros Hg1 Hg2 Hok. destruct (fmd_fields_ok md Hok) as (Hfs & Hlen & _). pose proof (md_ok_fits md Hok) as Hfit.
  unfold s_core_pkt_from_fmd.
  destruct (easy_write_spec junk1 g1 S_PKT_TYPE_CREATE_METADATA (fmd_size md) (fmd_fields md))
    as (p & g1' & tl1 & -> & Hg1' & (Hw & Hs & Hh & Hf & Hpl) & _); [done..|lia|].
  destruct (create_from_spec junk2 g2 (write_fields p (fmd_fields md)) S_PKT_TYPE_CREATE_METADATA tl Hg2 Hw)
    as (q & g2' & E2 & _ & Hwq & Hpq & Hsq & Hrq & Hfq); [lia|done..|].
  eexists _, g1', q, g2'. split; [done|]. split; [done|]. split; [done|].
  apply (to_fmd_spec md q tl1); [done..|]. by rewrite Hrq.
Qed.

(** C34. A file's meta data survives the way from one server to another: what
    [s_core_pkt_from_fmd] writes and the receiver copies out of its buffer is
    read by [s_core_pkt_to_fmd] as the same name, version, size and block
    locations, for files of at most two blocks. *)
Theorem fmd_roundtrip junk1 junk2 g1 g2 md tl :
  pool_wf g1 → pool_wf g2 → fmd_ok md → md_nblocks md <= 2 →
  ∃ p g1' q g2', s_core_pkt_from_fmd junk1 g1 md = Some (p, g1') ∧
    let bytes := take (Z.to_nat (pk_size p)) (pk_data p) in
    s_packet_create_from junk2 g2 (bytes ++ tl) (Z.of_nat (length (bytes ++ tl))) = CF_packet q g2' ∧
    s_packet_get_fun q = S_PKT_TYPE_CREATE_METADATA ∧ s_core_pkt_to_fmd q = Ok md.
Proof.
  intros Hg1 Hg2 Hok Hn. destruct (from_fmd_received junk1 junk2 g1 g2 md tl Hg1 Hg2 Hok) as (p & g1' & q & g2' & H).
  exists p, g1', q, g2'. by rewrite (proj2 (Z.leb_le _ _)) in H.
Qed.

(** C37. The meta data of a file of three or more blocks overflows the object it
    is read into: [s_file_meta_data_create] asks for two bytes a block and a
    block location takes four, so the receiver writes behind its allocation. *)
Theorem fmd_three_blocks_overflow junk1 junk2 g1 g2 md tl :
  pool_wf g1 → pool_wf g2 → fmd_ok md → 3 <= md_nblocks md →
  ∃ p g1' q g2', s_core_pkt_from_fmd junk1 g1 md = Some (p, g1') ∧
    let bytes := take (Z.to_nat (pk_size p)) (pk_data p) in
    s_packet_create_from junk2 g2 (bytes ++ tl) (Z.of_nat (length (bytes ++ tl))) = CF_packet q g2' ∧
    s_core_pkt_to_fmd q = Crash.
Proof.
  intros Hg1 Hg2 Hok Hn. destruct (from_fmd_received junk1 junk2 g1 g2 md tl Hg1 Hg2 Hok) as (p & g1' & q & g2' & E1 & E2 & _ & E3).
  exists p, g1', q, g2'. rewrite (proj2 (Z.leb_gt _ _)) in E3 by lia. done.
Qed.

(** The meta data of the meta servers of a file survives its packet, whose
    size is computed with four bytes a server where two are written; the flags
    are not in the packet and are left as fresh memory has them. *)
Theorem fmmd_roundtrip junk1 junk2 flags g1 g2 mmd tl :
  pool_wf g1 → pool_wf g2 → fmmd_ok mmd →
  ∃ p g1' q g2', s_core_pkt_from_fmmd junk1 g1 mmd = Some (p, g1') ∧
    let bytes := take (Z.to_nat (pk_size p)) (pk_data p) in
    s_packet_create_from junk2 g2 (bytes ++ tl) (Z.of_nat (length (bytes ++ tl))) = CF_packet q g2' ∧
    s_packet_get_fun q = S_PKT_TYPE_CREATE_META_META_DATA ∧
    s_core_pkt_to_fmmd flags q = Ok (with_flags flags mmd).
Proof.
  intros Hg1 Hg2 Hok. destruct (fmmd_fields_ok mmd Hok) as (Hfs & Hlen & _). pose proof (mm_ok_fits mmd Hok) as Hfit.
  unfold s_core_pkt_from_fmmd.
  destruct (easy_write_spec junk1 g1 S_PKT_TYPE_CREATE_META_META_DATA (fmmd_size mmd) (fmmd_fields mmd))
    as (p & g1' & tl1 & -> & Hg1' & (Hw & Hs & Hh & Hf & Hpl) & _); [done..|lia|].
  destruct (create_from_spec junk2 g2 (write_fields p (fmmd_fields mmd)) S_PKT_TYPE_CREATE_META_META_DATA tl Hg2 Hw)
    as (q & g2' & E2 & _ & Hwq & Hpq & Hsq & Hrq & Hfq); [lia|done..|].
  eexists _, g1', q, g2'. split; [done|]. split; [done|]. split; [done|].
  apply (to_fmmd_spec flags mmd q tl1); [done..|]. by rewrite Hrq.
Qed.
End codecs.

(** ** Examples *)
Section examples.
Definition file_a : list Z := [102; 105; 108; 101].
Definition md_of (n : nat) : s_file_meta_data :=
  FMD file_a (FDesc 65537 1) (FSize 100 0) (Z.of_nat n) (replicate n (3, 4)).
Definition mmd_ex : s_file_meta_meta_data := FMMD file_a (FDesc 65537 1) 0 2 [1; 2].

Lemma name_a_ok : name_ok file_a.
Proof. split; [|reflexivity]. repeat (apply Forall_cons; split; [unfold is_byte; lia|]). by apply Forall_nil. Qed.

Lemma md_of_ok n : (n <= 3)%nat → fmd_ok (md_of n).
Proof.
  intros Hn. split; unfold md_of; cbn [md_fname md_fdesc md_fsize md_nblocks md_blocks].
  - apply name_a_ok.
  - split; cbn; unfold is_uint; lia.
  - split; cbn; unfold is_uint; lia.
  - by rewrite length_replicate.
  - apply Forall_replicate. split; cbn; unfold is_ushort; lia.
  - destruct n as [|[|[|[|n]]]]; try discriminate. lia.
Qed.

Lemma fmd_roundtrip_witness :
  ∃ p g1' q g2', s_core_pkt_from_fmd 0 g_free_init (md_of 2) = Some (p, g1') ∧
    let bytes := take (Z.to_nat (pk_size p)) (pk_data p) in
    s_packet_create_from 9 g_free_init (bytes ++ [1]) (Z.of_nat (length (bytes ++ [1]))) = CF_packet q g2' ∧
    s_packet_get_fun q = S_PKT_TYPE_CREATE_METADATA ∧ s_core_pkt_to_fmd q = Ok (md_of 2).
Proof.
  apply (fmd_roundtrip 0 9 g_free_init g_free_init (md_of 2) [1]);
    [apply g_free_init_wf|apply g_free_init_wf|apply md_of_ok; lia|discriminate].
Defined.

Lemma fmd_three_blocks_overflow_witness :
  ∃ p g1' q g2', s_core_pkt_from_fmd 0 g_free_init (md_of 3) = Some (p, g1') ∧
    let bytes := take (Z.to_nat (pk_size p)) (pk_data p) in
    s_packet_create_from 9 g_free_init (bytes ++ []) (Z.of_nat (length (bytes ++ []))) = CF_packet q g2' ∧
    s_core_pkt_to_fmd q = Crash.
Proof.
  apply (fmd_three_blocks_overflow 0 9 g_free_init g_free_init (md_of 3) []);
    [apply g_free_init_wf|apply g_free_init_wf|apply md_of_ok; lia|discriminate].
Defined.

Lemma fmmd_roundtrip_witness :
  ∃ p g1' q g2', s_core_pkt_from_fmmd 0 g_free_init mmd_ex = Some (p, g1') ∧
    let bytes := take (Z.to_nat (pk_size p)) (pk_data p) in
    s_packet_create_from 9 g_free_init (bytes ++ []) (Z.of_nat (length (bytes ++ []))) = CF_packet q g2' ∧
    s_packet_get_fun q = S_PKT_TYPE_CREATE_META_META_DATA ∧ s_core_pkt_to_fmmd 77 q = Ok (with_flags 77 mmd_ex).
Proof.
  apply (fmmd_roundtrip 0 9 77 g_free_init g_free_init mmd_ex []); [apply g_free_init_wf|apply g_free_init_wf|].
  split; [apply name_a_ok|split; cbn; unfold is_uint; lia|reflexivity| |discriminate].
  repeat (apply Forall_cons; split; [unfold is_ushort; lia|]). by apply Forall_nil.
Defined.
End examples.

(** ** The number of blocks of a file ([s_core_util.c])
    [S_SZ_OF_UINT] is a number of bytes where bits are meant, so that shift
    counts leave the width of the type; C leaves such a shift undefined, and
    [ub_shl] stands for what it gives. *)
Section fsize.
Context (ub_shl : Z → Z → Z).

Definition S_SZ_OF_UINT : Z := 4.
Definition S_CORE_BLOCK_BITS : Z := 22.
Definition S_CORE_MAX_FSZ_BITS : Z := 42.
(** [a << n] on 32 bits *)
Definition shl32 (a n : Z) : Z :=
  if (0 <=? n) && (n <? 32) then uint (Z.shiftl a n) else uint (ub_shl a n).
Definition S_BITS_1_MASK (n : Z) : Z := uint (shl32 1 n - 1).
Definition ulong (z : Z) : Z := wrapu 64 z.

Definition s_core_fsize_to_block_num (size : s_file_size) : Z :=
  let bits := ulong (S_SZ_OF_UINT - S_CORE_BLOCK_BITS) in
  let num := Z.land (Z.shiftr (fs_low size) (ulong (S_SZ_OF_UINT - bits))) (S_BITS_1_MASK bits) in
  let high_bits := uint (S_CORE_MAX_FSZ_BITS - S_SZ_OF_UINT) in
  let num := Z.lor num (Z.land (shl32 (fs_high size) bits) (shl32 (uint (shl32 1 high_bits - 1)) bits)) in
  if negb (Z.land (fs_low size) (S_BITS_1_MASK S_CORE_BLOCK_BITS) =? 0) then sint (uint (num + 1)) else sint num.
End fsize.

(** The number of blocks of a file is left to the compiler: two readings of
    the shifts whose count is out of range, both allowed by the C standard, give
    one block and no block for a file of exactly one block (4 MB). *)
Theorem block_num_undetermined :
  ∃ shl1 shl2, s_core_fsize_to_block_num shl1 (FSize 4194304 0) = 1 ∧
    s_core_fsize_to_block_num shl2 (FSize 4194304 0) = 0.
Proof.
  exists (λ a n, Z.shiftl a (n mod 32)), (λ a _, if a =? 1 then 1 else 0). split; vm_compute; reflexivity.
Qed.

(** ** The pool of parameters ([s_core_param.c]) *)
Section params.
(** a cell of [g_mdp_pool], or a block of [s_malloc] *)
Inductive mdp_ptr := InPool (i : nat) | OnHeap (n : nat).
#[export] Instance mdp_ptr_eq_dec : EqDecision mdp_ptr.
Proof. solve_decision. Defined.

Definition S_CORE_PARAM_POOL_SIZE : nat := 128.
Definition S_CORE_PARAM_BUF_MAX_COUNT : Z := 512.

Record mdp_pool := MdpPool {
  g_mdp_free_list : list mdp_ptr;
  g_mdp_free_count : Z;
  mdp_brk : nat   (* blocks of [s_malloc] so far *)
}.

(** inserts every cell at the head *)
Definition s_core_param_init : mdp_pool :=
  MdpPool (foldl (λ l i, InPool i :: l) [] (seq 0 S_CORE_PARAM_POOL_SIZE)) (Z.of_nat S_CORE_PARAM_POOL_SIZE) 0.

Definition s_core_metadata_param_create (st : mdp_pool) : mdp_ptr * mdp_pool :=
  match g_mdp_free_list st with
  | mdp :: l => (mdp, MdpPool l (g_mdp_free_count st - 1) (mdp_brk st))
  | [] => (OnHeap (mdp_brk st), MdpPool [] (g_mdp_free_count st) (S (mdp_brk st)))
  end.

Definition s_core_metadata_param_destroy (st : mdp_pool) (mdp : mdp_ptr) : mdp_pool :=
  let outside := match mdp with InPool i => (S_CORE_PARAM_POOL_SIZE <=? i)%nat | OnHeap _ => true end in
  if outside && (S_CORE_PARAM_BUF_MAX_COUNT <? g_mdp_free_count st) then st
  else MdpPool (mdp :: g_mdp_free_list st) (g_mdp_free_count st + 1) (mdp_brk st).

(** a step of the clients, with the parameters in use *)
Inductive pool_step : mdp_pool * list mdp_ptr → mdp_pool * list mdp_ptr → Prop :=
| pool_create st live :
    pool_step (st, live)
      ((s_core_metadata_param_create st).2, (s_core_metadata_param_create st).1 :: live)
| pool_destroy st live1 mdp live2 :
    pool_step (st, live1 ++ mdp :: live2) (s_core_metadata_param_destroy st mdp, live1 ++ live2).

Record pool_inv (st : mdp_pool) (live : list mdp_ptr) : Prop := {
  pi_nodup : NoDup (g_mdp_free_list st ++ live);
  pi_count : g_mdp_free_count st = Z.of_nat (length (g_mdp_free_list st));
  pi_cells i : (i < S_CORE_PARAM_POOL_SIZE)%nat → InPool i ∈ g_mdp_free_list st ++ live;
  pi_known p : p ∈ g_mdp_free_list st ++ live →
    match p with InPool i => (i < S_CORE_PARAM_POOL_SIZE)%nat | OnHeap n => (n < mdp_brk st)%nat end
}.

Lemma init_list : g_mdp_free_list s_core_param_init = reverse (InPool <$> seq 0 S_CORE_PARAM_POOL_SIZE).
Proof. vm_compute. reflexivity. Qed.

Lemma init_inv : pool_inv s_core_param_init [].
Proof.
  split; rewrite ?init_list, ?app_nil_r.
  - rewrite reverse_Permutation. apply NoDup_fmap_2; [by intros ? ? [=]|]. apply NoDup_seq.
  - reflexivity.
  - intros i Hi. rewrite elem_of_reverse. apply list_elem_of_fmap_2, elem_of_seq. lia.
  - intros p. rewrite elem_of_reverse. intros (i & -> & Hi%elem_of_seq)%list_elem_of_fmap. lia.
Qed.

Lemma step_inv s s' : pool_step s s' → pool_inv s.1 s.2 → pool_inv s'.1 s'.2.
Proof.
  intros Hs [Hnd Hc Hcells Hknown]. destruct Hs as [st live|st live1 mdp live2]; cbn [fst snd] in *.
  - unfold s_core_metadata_param_create. destruct (g_mdp_free_list st) as [|mdp l] eqn:E.
    + split; cbn -[S_CORE_PARAM_POOL_SIZE]; cbn [app length] in *.
      * apply NoDup_cons. split; [|done]. intros Hin%Hknown. simpl in Hin. lia.
      * done.
      * intros i Hi. right. by apply Hcells.
      * intros p [->|Hp]%elem_of_cons; [lia|]. specialize (Hknown p Hp). destruct p; lia.
    + assert (l ++ mdp :: live ≡ₚ (mdp :: l) ++ live) as Hp by (simpl; by rewrite Permutation_middle).
      split; cbn -[S_CORE_PARAM_POOL_SIZE].
      * by rewrite Hp.
      * cbn [length] in Hc. lia.
      * intros i Hi. rewrite Hp. by apply Hcells.
      * intros p. rewrite Hp. apply Hknown.
  - unfold s_core_metadata_param_destroy.
    assert (mdp ∈ g_mdp_free_list st ++ live1 ++ mdp :: live2) as Hin by (rewrite !elem_of_app, elem_of_cons; tauto).
    assert (g_mdp_free_list st ++ live1 ++ mdp :: live2 ≡ₚ mdp :: g_mdp_free_list st ++ live1 ++ live2) as Hp.
    { rewrite (Permutation_app_comm live1). simpl. rewrite <-Permutation_middle. by rewrite (Permutation_app_comm live2). }
    destruct (_ && _) eqn:E.
    + rewrite Hp in Hnd. apply NoDup_cons in Hnd as [_ Hnd]. split; try done.
      * intros i Hi. specialize (Hcells i Hi). rewrite Hp in Hcells. apply elem_of_cons in Hcells as [<-|?]; [|done].
        exfalso. apply andb_prop in E as [E _]. apply Nat.leb_le in E. lia.
      * intros p Hpin. apply Hknown. rewrite Hp. by right.
    + split; cbn -[S_CORE_PARAM_POOL_SIZE].
      * by rewrite <-Hp.
      * lia.
      * intros i Hi. rewrite <-Hp. by apply Hcells.
      * intros p. rewrite <-Hp. apply Hknown.
Qed.

(** The pool of parameters never hands out an object that is in use: after
    any creations and destructions the free list and the objects in use are
    disjoint and without repetition, the count is the length of the list, and
    no cell of the pool is lost. *)
Theorem param_pool_sound st live :
  rtc pool_step (s_core_param_init, []) (st, live) →
  NoDup (g_mdp_free_list st ++ live) ∧ (s_core_metadata_param_create st).1 ∉ live ∧
  g_mdp_free_count st = Z.of_nat (length (g_mdp_free_list st)) ∧
  ∀ i, (i < S_CORE_PARAM_POOL_SIZE)%nat → InPool i ∈ g_mdp_free_list st ++ live.
Proof.
  intros Hr. assert (pool_inv st live) as Hi.
  { change (pool_inv (st, live).1 (st, live).2). revert Hr. generalize (st, live).
    apply (rtc_ind_r (λ s, pool_inv s.1 s.2)); [apply init_inv|]. intros s s' _. apply step_inv. }
  pose proof Hi as [Hnd Hc Hcells Hknown]. split_and!; try done.
  pose proof (step_inv _ _ (pool_create st live) Hi) as [Hnd' _ _ _]. cbn [fst snd] in Hnd'.
  apply NoDup_app in Hnd' as (_ & _ & Hnd'). by apply NoDup_cons in Hnd' as [? _].
Qed.

Lemma param_pool_sound_witness :
  NoDup (g_mdp_free_list (s_core_metadata_param_create s_core_param_init).2 ++ [InPool 127]).
Proof.
  apply (param_pool_sound (s_core_metadata_param_create s_core_param_init).2 [InPool 127]).
  apply rtc_once. exact (pool_create s_core_param_init []).
Defined.
End params.
