(* ===== verification/DLock.v ===== *)
(** * [core/s_core_dserv.c]: the distributed lock of the data servers

    A client sends one [LOCK_START] packet that names the data servers it
    writes to, in the order in which they are to be locked; each server passes
    the packet on to the next one ([LOCK_NEXT]) and tells the servers before it
    that they are done with ([LOCK_UNLOCK]).  Lock objects live in a heap: the
    table [locks] and the two lists hold their addresses.  [None] is an
    undefined access or a failed [assert]. *)

From S2P Require Import Prelude Packet Wire SHash SHashSpec Cluster.
From stdpp Require Import sorting.
Local Open Scope Z_scope.

Record s_core_lock_elem := LElem { le_serv_id : Z; le_id : s_id; le_finish : bool }.

(** [nserv] is the length of [lk_elems], the array behind the struct *)
Record s_core_lock := Lock {
  lk_pkt : s_packet;
  lk_id : s_id;
  lk_client_id : Z;
  lk_next_pos : Z;
  lk_next_serv : Z;
  lk_elems : list s_core_lock_elem
}.
Definition lk_nserv (l : s_core_lock) : Z := Z.of_nat (length (lk_elems l)).

(** the sizes of the two structs, in bytes *)
Definition sizeof_lock : Z := 48.
Definition sizeof_lock_elem : Z := 16.

(** ** Conflicts
    A cursor [pa + cur_a] is the rest of the array from there. *)

Fixpoint skip_while (f : Z → bool) (l : list s_core_lock_elem) : list s_core_lock_elem :=
  match l with
  | e :: r => if f (le_serv_id e) then skip_while f r else l
  | [] => []
  end.

(** [pa[cur_a].serv_id].  When [cur_a] has come to [nserv], the second inner
    loop reads it all the same, behind the array: undefined in C.  Here the
    read gives [junk], whatever is there, so that the rest of what the code does
    can be told for every value of it; that the read happens is
    [conflict_overread]. *)
Definition serv_here (junk : Z) (l : list s_core_lock_elem) : Z :=
  match l with e :: _ => le_serv_id e | [] => junk end.

Fixpoint conflict_loop (fuel : nat) (junk : Z) (a b : list s_core_lock_elem) : bool :=
  match fuel, a, b with
  | S fuel, ea :: _, eb :: _ =>
      if le_serv_id ea =? le_serv_id eb then
        if le_finish ea || le_finish eb then false else true
      else
        let a := skip_while (λ s, s <? le_serv_id eb) a in
        let b := skip_while (λ s, serv_here junk a >? s) b in
        conflict_loop fuel junk a b
  | _, _, _ => false
  end.

Definition lk_ahead (l : s_core_lock) : list s_core_lock_elem :=
  drop (Z.to_nat (lk_next_pos l)) (lk_elems l).

Definition ilock_is_conflict (junk : Z) (a b : s_core_lock) : bool :=
  conflict_loop (length (lk_ahead a) + length (lk_ahead b)) junk (lk_ahead a) (lk_ahead b).

(** does the loop read behind the array of [a]?  The same loop, which stops at
    the read *)
Fixpoint conflict_overread (fuel : nat) (a b : list s_core_lock_elem) : bool :=
  match fuel, a, b with
  | S fuel, ea :: _, eb :: _ =>
      if le_serv_id ea =? le_serv_id eb then false
      else
        match skip_while (λ s, s <? le_serv_id eb) a with
        | [] => true
        | ea :: _ as a => conflict_overread fuel a (skip_while (λ s, le_serv_id ea >? s) b)
        end
  | _, _, _ => false
  end.
Definition ilock_is_conflict_overread (a b : s_core_lock) : bool :=
  conflict_overread (length (lk_ahead a) + length (lk_ahead b)) (lk_ahead a) (lk_ahead b).

(** ** The state and the handlers *)
Record s_dserver {T TD : Type} := DServ {
  ds_heap : gmap nat s_core_lock;
  ds_locks : T;
  ds_sent : list nat;
  ds_waiting : list nat;
  ds_data : TD
}.
Arguments s_dserver : clear implicits.
Arguments DServ {T TD}.

Section dserver.
Context {T TD : Type} `{HTb : !Table s_id nat T, HTd : !Table s_id (Z * list Z) TD}.
Local Abbreviation state := (s_dserver T TD).
(** the id of this server, the servers that [s_servg_get_active_serv] finds,
    what lies behind an array *)
Context (core_id : Z) (active : serv_id → bool) (junk : Z).
Implicit Types (st : state) (p : nat) (lk : s_core_lock).

Definition set_heap st h : state := DServ h (ds_locks st) (ds_sent st) (ds_waiting st) (ds_data st).
Definition set_locks st t : state := DServ (ds_heap st) t (ds_sent st) (ds_waiting st) (ds_data st).
Definition set_sent st l : state := DServ (ds_heap st) (ds_locks st) l (ds_waiting st) (ds_data st).
(** [s_list_del(&lock->link)] *)
Definition unlink st p : state :=
  DServ (ds_heap st) (ds_locks st) (filter (.≠ p) (ds_sent st)) (filter (.≠ p) (ds_waiting st)) (ds_data st).
(** [s_packet_drop(lock->pkt); s_free(lock)] *)
Definition free_lock st p : state := set_heap st (delete p (ds_heap st)).

Fixpoint conflict_any (h : gmap nat s_core_lock) (sent : list nat) lk : option bool :=
  match sent with
  | [] => Some false
  | p :: ps => tmp ← h !! p; if ilock_is_conflict junk tmp lk then Some true else conflict_any h ps lk
  end.
Definition ilock_conflict_all st p : option bool :=
  lk ← ds_heap st !! p; conflict_any (ds_heap st) (ds_sent st) lk.

Definition id_fields (i : s_id) : list field := [Fint (id_x i); Fint (id_y i)].

(** the result is the return value, what becomes of the packet, the effects *)
Definition ilock_next lk (pkt : s_packet) : Z * s_packet * list effect :=
  if lk_nserv lk <=? lk_next_pos lk then
    let serv := Serv S_SERV_TYPE_C (lk_client_id lk) in
    if negb (active serv) then (0, pkt, [])
    else (0, pkt, [Send serv (OMsg S_PKT_TYPE_LOCK_END (id_fields (lk_id lk)))])
  else
    let pkt := (s_packet_set_fun pkt S_PKT_TYPE_LOCK_NEXT).2 in
    let pkt := (s_packet_seek pkt 0).2 in
    let pkt := (s_packet_write_int pkt (lk_next_pos lk)).2 in
    let serv := Serv S_SERV_TYPE_D (lk_next_serv lk) in
    if negb (active serv) then (0, pkt, [])
    else (1, pkt, [Send serv (OPkt S_PKT_TYPE_LOCK_NEXT pkt)]).

Definition ilock_unlock lk : list effect :=
  if lk_next_pos lk <=? 1 then []
  else
    omap (λ e, let serv := Serv S_SERV_TYPE_D (le_serv_id e) in
               if active serv then Some (Send serv (OMsg S_PKT_TYPE_LOCK_UNLOCK (id_fields (lk_id lk))))
               else None)
      (take (Z.to_nat (lk_next_pos lk - 1)) (lk_elems lk)).

Definition with_lk_pkt lk (pkt : s_packet) : s_core_lock :=
  Lock pkt (lk_id lk) (lk_client_id lk) (lk_next_pos lk) (lk_next_serv lk) (lk_elems lk).

Definition ilock_take_done st p : option (state * list effect) :=
  lk ← ds_heap st !! p;
  let effs := ilock_unlock lk in
  let '(ret, pkt, effs') := ilock_next lk (lk_pkt lk) in
  let st := set_heap st (<[p := with_lk_pkt lk pkt]> (ds_heap st)) in
  if negb (ret =? 0) then
    let st := set_sent st (ds_sent st ++ [p]) in
    let st := set_locks st (tbl_put (ds_locks st) (lk_id lk) p) in
    Some (st, effs ++ effs')
  else
    let st := unlink st p in
    let st := set_locks st (tbl_del (ds_locks st) (lk_id lk)) in
    Some (free_lock st p, effs ++ effs').

Definition s_core_dserv_push_data st (serv : serv_id) (pkt : s_packet) : state :=
  match read_id pkt with
  | None => st
  | Some (data_id, pkt) =>
      let '(r, sz, _) := s_packet_read_to_end pkt false (Some 0) in
      if r <? 0 then st
      else
        let '(r, sz, buf) := s_packet_read_to_end pkt true sz in
        if r <? 0 then st
        else
          DServ (ds_heap st) (ds_locks st) (ds_sent st) (ds_waiting st)
            (tbl_put (ds_data st) data_id (default 0 sz, buf))
  end.

Definition s_core_dserv_write st (serv : serv_id) (pkt : s_packet) : state * list effect :=
  match read_id pkt with
  | None => (st, [])
  | Some (data_id, pkt) => (st, [RpcRet serv (s_packet_get_req pkt) (OPkt S_PKT_TYPE_RPC_BACK_ pkt)])
  end.

(** the loop that reads the [nserv] elements into the object of [cap] bytes,
    from element [i]; [Fail] jumps to the error label, where the object is
    leaked *)
Fixpoint read_elems (cap i : Z) (n : nat) (pkt : s_packet) : res (list s_core_lock_elem * s_packet) :=
  match n with
  | O => Ok ([], pkt)
  | S n =>
      '(serv_id, pkt) ← attempt (read_int pkt);
      _ ← within cap (sizeof_lock + sizeof_lock_elem * i + sizeof_lock_elem);
      '(id, pkt) ← attempt (read_id pkt);
      '(elems, pkt) ← read_elems cap (i + 1) n pkt;
      Ok (LElem serv_id id false :: elems, pkt)
  end.

(** [s_core_lock_create(n)]: [__s_malloc] takes an [unsigned int] *)
Definition lock_cap (n : Z) : Z := uint (sizeof_lock + sizeof_lock_elem * n).

(** the head of the packet, the object, the elements *)
Definition read_lock (pkt : s_packet) : res (Z * Z * s_id * list s_core_lock_elem * s_packet) :=
  '(curr, pkt) ← attempt (read_int pkt);
  '(nserv, pkt) ← attempt (read_int pkt);
  '(client_id, pkt) ← attempt (read_int pkt);
  '(id, pkt) ← attempt (read_id pkt);
  _ ← within (lock_cap nserv) sizeof_lock;
  '(elems, pkt) ← read_elems (lock_cap nserv) 0 (Z.to_nat nserv) pkt;
  Ok (curr, client_id, id, elems, pkt).

Definition array_at {A} (l : list A) (i : Z) : option A :=
  if decide (0 <= i) then l !! Z.to_nat i else None.

Definition s_core_dserv_lock st (serv : serv_id) (pkt : s_packet) : option (state * list effect) :=
  match read_lock pkt with
  | Fail => Some (st, [])
  | Crash => None
  | Ok (curr, client_id, id, elems, pkt) =>
      e ← array_at elems curr;
      if negb (le_serv_id e =? core_id) then None
      else
        let next_pos := curr + 1 in
        let next_serv := match array_at elems next_pos with Some e => le_serv_id e | None => -1 end in
        let lk := Lock (s_packet_grab pkt) id client_id next_pos next_serv elems in
        let p := fresh (dom (ds_heap st)) in
        let st := set_heap st (<[p := lk]> (ds_heap st)) in
        b ← ilock_conflict_all st p;
        if (b : bool) then
          Some (DServ (ds_heap st) (ds_locks st) (ds_sent st) (ds_waiting st ++ [p]) (ds_data st), [])
        else ilock_take_done st p
  end.

(** the loop that marks the elements of the server that is done *)
Fixpoint mark_loop (serv_id : Z) (finish : bool) (l : list s_core_lock_elem)
    : bool * list s_core_lock_elem :=
  match l with
  | [] => (finish, [])
  | e :: r =>
      if le_serv_id e =? serv_id then
        let e := LElem (le_serv_id e) (le_id e) true in
        if negb finish then (finish, e :: r)
        else let '(f, r) := mark_loop serv_id finish r in (f, e :: r)
      else
        let finish := if le_finish e then finish else false in
        let '(f, r) := mark_loop serv_id finish r in (f, e :: r)
  end.

(** one pass over [lock_waiting]: the first lock that meets no lock sent *)
Fixpoint find_free st (waiting : list nat) : option (option nat) :=
  match waiting with
  | [] => Some None
  | p :: ps =>
      b ← ilock_conflict_all st p;
      if negb b then Some (Some p) else find_free st ps
  end.

(** [label_loop] *)
Fixpoint wake_loop (fuel : nat) st : option (state * list effect) :=
  match fuel with
  | O => None
  | S fuel =>
      r ← find_free st (ds_waiting st);
      match r with
      | None => Some (st, [])
      | Some p =>
          let st := unlink st p in
          '(st, effs) ← ilock_take_done st p;
          '(st, effs') ← wake_loop fuel st;
          Some (st, effs ++ effs')
      end
  end.

Definition s_core_dserv_lock_unlock st (serv : serv_id) (pkt : s_packet) : option (state * list effect) :=
  let serv_id := sv_id serv in
  match read_id pkt with
  | None => Some (st, [])
  | Some (id, _) =>
      match tbl_get (ds_locks st) id with
      | None => Some (st, [])
      | Some p =>
          lk ← ds_heap st !! p;
          let '(finish, elems) := mark_loop serv_id true (lk_elems lk) in
          let lk := Lock (lk_pkt lk) (lk_id lk) (lk_client_id lk) (lk_next_pos lk) (lk_next_serv lk) elems in
          let st := set_heap st (<[p := lk]> (ds_heap st)) in
          let st :=
            if (finish : bool) then free_lock (unlink (set_locks st (tbl_del (ds_locks st) id)) p) p
            else st in
          wake_loop (S (length (ds_waiting st))) st
      end
  end.
End dserver.

(** ** What [ilock_is_conflict] decides *)
Section conflicts.
Implicit Types (a b l : list s_core_lock_elem) (e : s_core_lock_elem) (lk : s_core_lock).

Definition before (e1 e2 : s_core_lock_elem) : Prop := le_serv_id e1 < le_serv_id e2.
Abbreviation ordered := (StronglySorted before).

(** the two requests still have to meet: on the first server that both go to
    after the places where they are, neither of them is done *)
Definition meets a b : Prop :=
  ∃ ea eb, ea ∈ a ∧ eb ∈ b ∧ le_serv_id ea = le_serv_id eb ∧ le_finish ea = false ∧ le_finish eb = false ∧
    ∀ xa xb, xa ∈ a → xb ∈ b → le_serv_id xa = le_serv_id xb → le_serv_id ea <= le_serv_id xa.

Lemma meets_sym a b : meets a b ↔ meets b a.
Proof.
  assert (∀ a b, meets a b → meets b a) as H; [|by split; apply H].
  clear. intros a b (ea & eb & Ha & Hb & E & Fa & Fb & Hmin). exists eb, ea. split_and!; try done.
  intros xb xa Hxb Hxa Ex. rewrite <-E, Ex. by apply (Hmin xa xb).
Qed.

Lemma skip_while_suffix f l : ∃ k, l = k ++ skip_while f l ∧ ∀ e, e ∈ k → f (le_serv_id e) = true.
Proof.
  induction l as [|e l IH]; simpl; [by exists []; set_solver|].
  destruct (f (le_serv_id e)) eqn:Ef; [|by exists []; set_solver].
  destruct IH as (k & E & Hk). exists (e :: k). split; [by rewrite E at 1|].
  intros x [->|Hx]%elem_of_cons; auto.
Qed.

Lemma skip_while_ordered f l : ordered l → ordered (skip_while f l).
Proof. induction 1 as [|e l Hl IH He]; simpl; [constructor|]. case_match; [done|by constructor]. Qed.

Lemma skip_while_le f l : (length (skip_while f l) ≤ length l)%nat.
Proof. induction l; simpl; [done|]. case_match; simpl; lia. Qed.

(** dropping from [a] elements that meet nobody in [b] *)
Lemma meets_skip f a b :
  (∀ ea eb, ea ∈ a → eb ∈ b → f (le_serv_id ea) = true → le_serv_id ea ≠ le_serv_id eb) →
  meets (skip_while f a) b ↔ meets a b.
Proof.
  intros Hf. destruct (skip_while_suffix f a) as (k & E & Hk). set (r := skip_while f a) in *.
  assert (∀ ea eb, ea ∈ a → eb ∈ b → le_serv_id ea = le_serv_id eb → ea ∈ r) as Hin.
  { intros ea eb Ha Hb Eq. rewrite E in Ha. apply elem_of_app in Ha as [Ha|Ha]; [|done].
    exfalso. apply (Hf ea eb); [rewrite E; set_solver|done|by apply Hk|done]. }
  assert (∀ e, e ∈ r → e ∈ a) as Hsub by (intros e He; rewrite E; set_solver).
  split; intros (ea & eb & Ha & Hb & Eq & Fa & Fb & Hmin); exists ea, eb; split_and!; eauto.
Qed.

Lemma meets_nil a : ¬ meets [] a.
Proof. intros (ea & eb & Ha & _). set_solver. Qed.

Lemma ordered_head e l x : ordered (e :: l) → x ∈ e :: l → le_serv_id e <= le_serv_id x.
Proof.
  intros [_ Hl]%StronglySorted_inv [->|Hx]%elem_of_cons; [done|].
  rewrite Forall_forall in Hl. specialize (Hl x Hx). unfold before in Hl. lia.
Qed.

Lemma meets_heads ea a eb b :
  ordered (ea :: a) → ordered (eb :: b) → le_serv_id ea = le_serv_id eb →
  meets (ea :: a) (eb :: b) ↔ le_finish ea = false ∧ le_finish eb = false.
Proof.
  intros Ha Hb E. split.
  - intros (xa & xb & Hxa & Hxb & Eq & Fa & Fb & Hmin).
    assert (le_serv_id xa <= le_serv_id ea) as Hle by (apply (Hmin ea eb); [left|left|done]).
    assert (∀ e l x, ordered (e :: l) → x ∈ e :: l → le_serv_id x <= le_serv_id e → x = e) as Heq.
    { clear. intros e l x [_ Hl]%StronglySorted_inv [->|Hx]%elem_of_cons Hle; [done|].
      rewrite Forall_forall in Hl. specialize (Hl x Hx). unfold before in Hl. lia. }
    rewrite <-(Heq ea a xa), <-(Heq eb b xb) by (done || lia). done.
  - intros [Fa Fb]. exists ea, eb. split_and!; try done; [left|left|].
    intros xa xb Hxa _ _. by apply (ordered_head ea a).
Qed.

Lemma conflict_loop_spec fuel junk a b :
  ordered a → ordered b → (length a + length b ≤ fuel)%nat →
  conflict_loop fuel junk a b = true ↔ meets a b.
Proof.
  revert a b. induction fuel as [|fuel IH]; intros a b Ha Hb Hf.
  { destruct a; [|simpl in Hf; lia]. simpl. split; [done|]. intros []%meets_nil. }
  destruct a as [|ea a]; [simpl; split; [done|]; intros []%meets_nil|].
  destruct b as [|eb b]; [simpl; split; [done|]; intros []%meets_sym%meets_nil|].
  cbn [conflict_loop]. destruct (_ =? _) eqn:E; zbool.
  { rewrite meets_heads by done. destruct (le_finish ea), (le_finish eb); simpl; naive_solver. }
  cbn zeta. set (a1 := skip_while (λ s, s <? le_serv_id eb) (ea :: a)).
  set (b1 := skip_while (λ s, serv_here junk a1 >? s) (eb :: b)).
  assert (meets a1 (eb :: b) ↔ meets (ea :: a) (eb :: b)) as <-.
  { apply meets_skip. intros xa xb _ Hxb Hlt. zbool. pose proof (ordered_head eb b xb Hb Hxb). lia. }
  assert (ordered a1) as Ha1 by by apply skip_while_ordered.
  assert (meets a1 b1 ↔ meets a1 (eb :: b)) as <-.
  { rewrite !(meets_sym a1). apply meets_skip. intros xb xa Hxb Hxa Hlt. zbool.
    destruct a1 as [|e1 a1']; [set_solver|]. cbn [serv_here] in Hlt.
    pose proof (ordered_head e1 a1' xa Ha1 Hxa). apply Z.ltb_lt in Hlt. lia. }
  apply IH; [done|by apply skip_while_ordered|].
  pose proof (skip_while_le (λ s, s <? le_serv_id eb) (ea :: a)) as L1. fold a1 in L1.
  pose proof (skip_while_le (λ s, serv_here junk a1 >? s) (eb :: b)) as L2. fold b1 in L2.
  destruct (decide (le_serv_id ea < le_serv_id eb)) as [Hlt|Hge].
  - assert (length a1 ≤ length a)%nat; [|simpl in *; lia].
    unfold a1. cbn [skip_while]. rewrite (proj2 (Z.ltb_lt _ _)) by done. apply skip_while_le.
  - assert (a1 = ea :: a) as E1. { unfold a1. cbn [skip_while]. by rewrite (proj2 (Z.ltb_ge _ _)) by lia. }
    assert (length b1 ≤ length b)%nat; [|simpl in *; lia].
    unfold b1. rewrite E1. cbn [skip_while serv_here]. rewrite Z.gtb_ltb, (proj2 (Z.ltb_lt _ _)) by lia.
    apply skip_while_le.
Qed.

(** the servers of a request, in the order in which they are locked *)
Definition lock_sorted lk : Prop := ordered (lk_elems lk).

Lemma ordered_drop n l : ordered l → ordered (drop n l).
Proof.
  revert l. induction n as [|n IH]; intros l Hl; [by rewrite drop_0|].
  destruct Hl; simpl; [constructor|by apply IH].
Qed.

Lemma is_conflict_meets junk (a b : s_core_lock) :
  lock_sorted a → lock_sorted b → ilock_is_conflict junk a b = true ↔ meets (lk_ahead a) (lk_ahead b).
Proof. intros Ha Hb. apply conflict_loop_spec; [by apply ordered_drop..|done]. Qed.

(** past its end the array is read, but the answer does not depend on it *)
Lemma conflict_loop_junk fuel junk a b : conflict_loop fuel junk a b = conflict_loop fuel 0 a b.
Proof.
  revert a b. induction fuel as [|fuel IH]; intros a b; [done|]. destruct a as [|ea a], b as [|eb b]; try done.
  cbn [conflict_loop]. destruct (_ =? _); [done|]. cbn zeta.
  destruct (skip_while (λ s, s <? le_serv_id eb) (ea :: a)) as [|x a1]; [by destruct fuel|]. by rewrite IH.
Qed.
Lemma is_conflict_junk junk (a b : s_core_lock) : ilock_is_conflict junk a b = ilock_is_conflict 0 a b.
Proof. apply conflict_loop_junk. Qed.

(** finding: a request whose remaining servers all come before those of the
    other, as [2] of [1,2] before [3] of [1,3], is read behind its last element *)
Lemma conflict_reads_behind (a b : s_core_lock) ea la eb lb :
  lk_ahead a = ea :: la → lk_ahead b = eb :: lb → (∀ e, e ∈ ea :: la → le_serv_id e < le_serv_id eb) →
  ilock_is_conflict_overread a b = true.
Proof.
  intros Ea Eb Hlt. unfold ilock_is_conflict_overread. rewrite Ea, Eb. cbn [length Nat.add conflict_overread].
  rewrite (proj2 (Z.eqb_neq _ _)) by (specialize (Hlt ea (list_elem_of_here _ _)); lia).
  assert (∀ l, (∀ e, e ∈ l → le_serv_id e < le_serv_id eb) → skip_while (λ s, s <? le_serv_id eb) l = []) as Hs.
  { induction l as [|e l IH]; intros Hl; [done|]. cbn [skip_while].
    rewrite (proj2 (Z.ltb_lt _ _)) by (apply Hl; left). apply IH. intros e' He'. apply Hl. by right. }
  by rewrite Hs.
Qed.
Example conflict_overread_12_13 :
  let lock (l : list Z) := Lock (Packet 0 0 0 0 []) (SId 0 0) 0 1 0 ((λ s, LElem s (SId 0 0) false) <$> l) in
  ilock_is_conflict_overread (lock [1; 2]) (lock [1; 3]) = true.
Proof. reflexivity. Qed.

Lemma is_conflict_sym junk (a b : s_core_lock) :
  lock_sorted a → lock_sorted b → ilock_is_conflict junk a b = ilock_is_conflict junk b a.
Proof. intros Ha Hb. apply eq_true_iff_eq. by rewrite !is_conflict_meets, meets_sym. Qed.

(** C40. Two requests conflict exactly when, on the first of the servers that
    both still have to lock, neither is done; the answer depends on no memory
    behind the arrays, and the loop ends. *)
Theorem ilock_is_conflict_correct junk fuel (a b : s_core_lock) :
  lock_sorted a → lock_sorted b → (length (lk_ahead a) + length (lk_ahead b) ≤ fuel)%nat →
  conflict_loop fuel junk (lk_ahead a) (lk_ahead b) = ilock_is_conflict 0 a b ∧
  (ilock_is_conflict 0 a b = true ↔ meets (lk_ahead a) (lk_ahead b)).
Proof.
  intros Ha Hb Hf. pose proof (is_conflict_meets 0 a b Ha Hb) as H. split; [|done].
  apply eq_true_iff_eq. rewrite H. apply conflict_loop_spec; [by apply ordered_drop..|done].
Qed.
End conflicts.

Lemma filter_ne_id (p : nat) (l : list nat) : p ∉ l → filter (.≠ p) l = l.
Proof.
  induction l as [|q l IH]; intros Hp; [done|]. rewrite filter_cons_True by set_solver.
  rewrite IH by set_solver. done.
Qed.
Lemma elem_of_filter_ne (p q : nat) (l : list nat) : q ∈ filter (.≠ p) l ↔ q ∈ l ∧ q ≠ p.
Proof. rewrite list_elem_of_filter. naive_solver. Qed.

(** [lk] meets a lock that has been passed on *)
Definition blocked junk (h : gmap nat s_core_lock) (sent : list nat) (lk : s_core_lock) : Prop :=
  ∃ q lq, q ∈ sent ∧ h !! q = Some lq ∧ ilock_is_conflict junk lq lk = true.

Lemma conflict_any_spec junk h sent lk :
  (∀ q, q ∈ sent → is_Some (h !! q)) →
  ∃ b, conflict_any junk h sent lk = Some b ∧ (b = true ↔ blocked junk h sent lk).
Proof.
  induction sent as [|q sent IH]; intros Hs; simpl.
  { exists false. split; [done|]. split; [done|]. intros (q & lq & Hq & _). set_solver. }
  destruct (Hs q) as [lq Hq]; [left|]. rewrite Hq. simpl. destruct (ilock_is_conflict junk lq lk) eqn:E.
  - exists true. split; [done|]. split; [|done]. intros _. exists q, lq. split; [left|done].
  - destruct IH as (b & -> & Hb); [set_solver|]. exists b. split; [done|]. rewrite Hb. split.
    + intros (q' & lq' & Hin & ?). exists q', lq'. split; [by right|done].
    + intros (q' & lq' & [->|Hin]%elem_of_cons & Hq' & Hc); [congruence|]. by exists q', lq'.
Qed.

(** ** The servers that are done *)
Section marks.
Implicit Types (l : list s_core_lock_elem) (e : s_core_lock_elem) (lk : s_core_lock).

Definition finer_elem e e' : Prop :=
  le_serv_id e' = le_serv_id e ∧ (le_finish e = true → le_finish e' = true).
Abbreviation finer := (Forall2 finer_elem).

Lemma finer_refl l : finer l l.
Proof. induction l; constructor; [by split|done]. Qed.

Lemma mark_loop_finer s f l : finer l (mark_loop s f l).2.
Proof.
  revert f. induction l as [|e l IH]; intros f; cbn [mark_loop]; [constructor|].
  destruct (_ =? s) eqn:E; zbool.
  - destruct f; cbn [negb].
    + specialize (IH true). destruct (mark_loop s true l). by constructor.
    + constructor; [done|]. apply finer_refl.
  - specialize (IH (if le_finish e then f else false)). destruct (mark_loop _ _ l). by constructor.
Qed.

Lemma mark_loop_false s l : (mark_loop s false l).1 = false.
Proof.
  induction l as [|e l IH]; cbn [mark_loop]; [done|]. destruct (_ =? s); cbn [negb]; [done|].
  destruct (le_finish e), (mark_loop s false l); done.
Qed.

(** an element of another server that is not done keeps the lock *)
Lemma mark_loop_unfinished s f l i e :
  l !! i = Some e → le_serv_id e ≠ s → le_finish e = false →
  (mark_loop s f l).1 = false ∧ (mark_loop s f l).2 !! i = Some e.
Proof.
  revert f i. induction l as [|e0 l IH]; intros f i Hi Hs Hf; [done|]. cbn [mark_loop].
  destruct i as [|i]; cbn in Hi.
  - simplify_eq. rewrite (proj2 (Z.eqb_neq _ _)) by done. rewrite Hf.
    pose proof (mark_loop_false s l). by destruct (mark_loop s false l).
  - destruct (_ =? s).
    + destruct f; cbn [negb]; [|done]. specialize (IH true i Hi Hs Hf). by destruct (mark_loop s true l).
    + specialize (IH (if le_finish e0 then f else false) i Hi Hs Hf). by destruct (mark_loop _ _ l).
Qed.

Lemma finer_ordered l l' : finer l l' → StronglySorted before l → StronglySorted before l'.
Proof.
  induction 1 as [|e e' l l' [Es _] Hl IH]; intros Ho; [constructor|].
  apply StronglySorted_inv in Ho as [Ho He]. constructor; [by apply IH|]. clear IH Ho.
  induction Hl as [|x x' l l' [Ex _] _ IH]; [constructor|]. apply Forall_cons in He as [He1 He].
  constructor; [|by apply IH]. unfold before in *. congruence.
Qed.

Lemma meets_finer a a' b : finer a a' → meets a' b → meets a b.
Proof.
  intros Hf (ea' & eb & Ha & Hb & E & Fa & Fb & Hmin).
  apply list_elem_of_lookup in Ha as [i Hi]. destruct (Forall2_lookup_r _ _ _ i ea' Hf Hi) as (ea & Hia & Es & Hfin).
  exists ea, eb. split_and!; try done.
  - by eapply list_elem_of_lookup_2.
  - congruence.
  - destruct (le_finish ea); [|done]. rewrite Hfin in Fa; done.
  - intros xa xb Hxa Hxb Ex. apply list_elem_of_lookup in Hxa as [j Hj].
    destruct (Forall2_lookup_l _ _ _ j xa Hf Hj) as (xa' & Hj' & Esx & _).
    rewrite <-Es, <-Esx. apply (Hmin xa' xb); [by eapply list_elem_of_lookup_2|done|congruence].
Qed.

Lemma is_conflict_finer junk lk lk' lb :
  finer (lk_elems lk) (lk_elems lk') → lk_next_pos lk' = lk_next_pos lk →
  lock_sorted lk → lock_sorted lb →
  ilock_is_conflict junk lk lb = false → ilock_is_conflict junk lk' lb = false.
Proof.
  intros Hf Hp Hs Hb. rewrite <-!not_true_iff_false, !is_conflict_meets; try done.
  - intros Hn Hm. apply Hn. apply (meets_finer _ (lk_ahead lk')); [|done].
    unfold lk_ahead. rewrite Hp. by apply Forall2_drop.
  - by apply (finer_ordered (lk_elems lk)).
Qed.
End marks.

(** ** The state of a data server *)
Section states.
Context {T TD : Type} `{HTb : !Table s_id nat T, HT : !TableLaws s_id nat T, HTd : !Table s_id (Z * list Z) TD}.
Local Abbreviation state := (s_dserver T TD).
Context (core_id : Z) (active : serv_id → bool) (junk : Z).
Implicit Types (st : state) (p q w : nat) (lk : s_core_lock) (h : gmap nat s_core_lock).

Definition listed st : list nat := ds_sent st ++ ds_waiting st.

(** every address that is kept is that of a live lock, in one list only *)
Record base st : Prop := {
  b_nodup : NoDup (listed st);
  b_heap p : p ∈ listed st → is_Some (ds_heap st !! p);
  b_wf : tbl_wf (ds_locks st);
  b_locks id p : tbl_map (ds_locks st) !! id = Some p →
    p ∈ ds_sent st ∧ ∃ lk, ds_heap st !! p = Some lk ∧ lk_id lk = id
}.

(** nobody waits for nothing *)
Definition wakeful st : Prop :=
  ∀ w lk, w ∈ ds_waiting st → ds_heap st !! w = Some lk → blocked junk (ds_heap st) (ds_sent st) lk.

(** the locks passed on exclude each other *)
Definition excl st : Prop :=
  (∀ p lk, p ∈ listed st → ds_heap st !! p = Some lk → lock_sorted lk) ∧
  ∀ p q lp lq, p ∈ ds_sent st → q ∈ ds_sent st → p ≠ q →
    ds_heap st !! p = Some lp → ds_heap st !! q = Some lq → ilock_is_conflict junk lp lq = false.

Lemma conflict_all_spec st p lk :
  base st → ds_heap st !! p = Some lk →
  ∃ b, ilock_conflict_all junk st p = Some b ∧ (b = true ↔ blocked junk (ds_heap st) (ds_sent st) lk).
Proof using HT.
  intros Hb Hp. unfold ilock_conflict_all. rewrite Hp. simpl. apply conflict_any_spec.
  intros q Hq. apply (b_heap _ Hb), elem_of_app. by left.
Qed.

Lemma find_free_spec st ws :
  base st → (∀ w, w ∈ ws → w ∈ ds_waiting st) →
  ∃ r, find_free junk st ws = Some r ∧
    match r with
    | None => ∀ w lk, w ∈ ws → ds_heap st !! w = Some lk → blocked junk (ds_heap st) (ds_sent st) lk
    | Some p => p ∈ ws ∧ ∀ lk, ds_heap st !! p = Some lk → ¬ blocked junk (ds_heap st) (ds_sent st) lk
    end.
Proof using HT.
  intros Hb. induction ws as [|w ws IH]; intros Hin; simpl; [exists None; set_solver|].
  destruct (b_heap _ Hb w) as [lk Hw]; [apply elem_of_app; right; apply Hin; left|].
  destruct (conflict_all_spec st w lk Hb Hw) as (b & -> & Hbl). simpl. destruct b; simpl.
  - destruct IH as (r & -> & Hr); [set_solver|]. exists r. split; [done|]. destruct r.
    + destruct Hr. split; [by right|done].
    + intros w' lk' [->|Hin']%elem_of_cons Hw'; [|by eapply Hr]. rewrite Hw in Hw'. simplify_eq. by apply Hbl.
  - exists (Some w). split; [done|]. split; [left|]. intros lk' Hw' Hbl'.
    rewrite Hw in Hw'. simplify_eq. apply Hbl in Hbl'. done.
Qed.

(** a waiting lock leaves its list *)
Lemma unlink_waiting st p :
  base st → p ∈ ds_waiting st →
  base (unlink st p) ∧ ds_sent (unlink st p) = ds_sent st ∧ p ∉ listed (unlink st p) ∧
  (length (ds_waiting (unlink st p)) < length (ds_waiting st))%nat.
Proof using HT.
  intros [Hnd Hh Hwf Hl] Hp.
  assert (p ∉ ds_sent st) as Hns by (intros Hs; apply NoDup_app in Hnd as (_ & Hd & _); by apply (Hd p)).
  assert (ds_sent (unlink st p) = ds_sent st) as Es by by apply filter_ne_id.
  split; [|split; [done|split]].
  - split; unfold listed in *; rewrite ?Es; simpl.
    + apply NoDup_app in Hnd as (H1 & H2 & H3). apply NoDup_app. split_and!; [done| |by apply NoDup_filter].
      intros q Hq [Hq' _]%elem_of_filter_ne. by apply (H2 q).
    + intros q Hq. apply Hh. rewrite elem_of_app, elem_of_filter_ne in Hq. set_solver.
    + done.
    + done.
  - unfold listed. rewrite Es. simpl. rewrite elem_of_app, elem_of_filter_ne. naive_solver.
  - simpl. apply (length_filter_lt _ _ p); [done|]. naive_solver.
Qed.

(** What [ilock_take_done] does to a lock that is in no list: the packet apart,
    no other lock is touched, and this one is passed on or freed. *)
Record taken st p lk st' : Prop := {
  tk_base : base st';
  tk_waiting : ds_waiting st' = ds_waiting st;
  tk_data : ds_data st' = ds_data st;
  tk_frame q : q ≠ p → ds_heap st' !! q = ds_heap st !! q;
  tk_sent :
    (ds_sent st' = ds_sent st ++ [p] ∧ ∃ pkt, ds_heap st' !! p = Some (with_lk_pkt lk pkt)) ∨
    ds_sent st' = ds_sent st
}.

Lemma take_done_spec st p lk :
  base st → p ∉ listed st → ds_heap st !! p = Some lk →
  ∃ st' effs, ilock_take_done active st p = Some (st', effs) ∧ taken st p lk st'.
Proof using HT.
  intros [Hnd Hh Hwf Hl] Hp Hlk. unfold ilock_take_done. rewrite Hlk. cbn [mbind option_bind].
  destruct (ilock_next active lk (lk_pkt lk)) as [[ret pkt] effs'].
  assert (p ∉ ds_sent st ∧ p ∉ ds_waiting st) as [Hps Hpw] by (unfold listed in Hp; set_solver).
  destruct (ret =? 0); cbn [negb]; (eexists _, _; split; [done|]).
  - destruct (tbl_del_ok (ds_locks st) (lk_id lk) Hwf) as [Hwf' Em].
    split; cbn -[filter delete].
    + split; unfold listed in *; cbn -[filter delete]; rewrite ?(filter_ne_id p) by done; try done.
      * intros q Hq. rewrite lookup_delete_ne, lookup_insert_ne by set_solver. by apply Hh.
      * intros id q Hq. rewrite Em in Hq. apply lookup_delete_Some in Hq as [_ Hq].
        destruct (Hl id q Hq) as [Hq' ?]. split; [done|].
        rewrite lookup_delete_ne, lookup_insert_ne by set_solver. done.
    + by rewrite (filter_ne_id p).
    + done.
    + intros q Hq. by rewrite lookup_delete_ne, lookup_insert_ne.
    + right. by rewrite (filter_ne_id p).
  - destruct (tbl_put_ok (ds_locks st) (lk_id lk) p Hwf) as [Hwf' Em].
    split; cbn.
    + split; unfold listed in *; cbn; try done.
      * rewrite <-app_assoc, (Permutation_app_comm [p]), app_assoc. apply NoDup_app.
        split_and!; [done|set_solver|apply NoDup_singleton].
      * intros q Hq. rewrite lookup_insert_is_Some'. destruct (decide (p = q)); [by left|right].
        apply Hh. set_solver.
      * intros id q Hq. rewrite Em, lookup_insert in Hq. case_decide; simplify_eq.
        -- split; [set_solver|]. rewrite lookup_insert_eq. by eexists.
        -- destruct (Hl id q Hq) as [Hq' ?]. split; [set_solver|]. rewrite lookup_insert_ne by set_solver. done.
    + done.
    + done.
    + intros q Hq. by rewrite lookup_insert_ne.
    + left. split; [done|]. eexists. by rewrite lookup_insert_eq.
Qed.

Lemma taken_blocked st p lk st' lw :
  base st → p ∉ listed st → taken st p lk st' →
  blocked junk (ds_heap st) (ds_sent st) lw → blocked junk (ds_heap st') (ds_sent st') lw.
Proof using HT.
  intros Hb Hp [_ _ _ Hf Hs] (q & lq & Hq & Hlq & Hc). exists q, lq. split_and!; [|rewrite Hf; [done|]|done].
  - destruct Hs as [[-> _]| ->]; set_solver.
  - unfold listed in Hp. set_solver.
Qed.

Lemma taken_wakeful st p lk st' :
  base st → p ∉ listed st → taken st p lk st' → wakeful st → wakeful st'.
Proof using HT.
  intros Hb Hp Ht Hw w lw Hin Hlw. apply (taken_blocked st p lk); try done.
  destruct Ht as [_ Ew _ Hf _]. rewrite Ew in Hin. apply (Hw w); [done|]. rewrite <-Hf; [done|].
  unfold listed in Hp. set_solver.
Qed.

Lemma taken_excl st p lk st' :
  base st → p ∉ listed st → taken st p lk st' → lock_sorted lk →
  ¬ blocked junk (ds_heap st) (ds_sent st) lk → excl st → excl st'.
Proof using HT.
  intros Hb Hp [_ Ew _ Hf Hs] Hso Hnb [Hsort Hex].
  assert (∀ q, q ∈ ds_sent st → q ≠ p) as Hne by (unfold listed in Hp; set_solver).
  destruct Hs as [[Es [pkt Hpk]]|Es]; unfold excl, listed in *; rewrite ?Ew, ?Es.
  - assert (∀ q lq, q ∈ ds_sent st → ds_heap st !! q = Some lq → ilock_is_conflict junk lq lk = false) as Hc.
    { intros q lq Hq Hlq. apply not_true_iff_false. intros Hc. apply Hnb. by exists q, lq. }
    split.
    + intros q lq Hq Hlq. destruct (decide (q = p)) as [->|Hqp].
      * rewrite Hpk in Hlq. by simplify_eq.
      * rewrite Hf in Hlq by done. apply (Hsort q); [set_solver|done].
    + intros q1 q2 l1 l2 H1 H2 Hne12 E1 E2. rewrite elem_of_app, list_elem_of_singleton in H1, H2.
      destruct H1 as [H1| ->], H2 as [H2| ->]; try done.
      * rewrite Hf in E1, E2 by by apply Hne. by apply (Hex q1 q2).
      * rewrite Hf in E1 by by apply Hne. rewrite Hpk in E2. simplify_eq. by apply (Hc q1).
      * rewrite Hf in E2 by by apply Hne. rewrite Hpk in E1. simplify_eq.
        rewrite is_conflict_sym; [by apply (Hc q2)|done|]. apply (Hsort q2); [set_solver|done].
  - split.
    + intros q lq Hq Hlq. apply (Hsort q); [done|]. rewrite <-Hf; [done|]. set_solver.
    + intros q1 q2 l1 l2 H1 H2 Hne12 E1 E2. rewrite Hf in E1, E2 by by apply Hne. by apply (Hex q1 q2).
Qed.

Lemma unlink_excl st p : ds_sent (unlink st p) = ds_sent st → excl st → excl (unlink st p).
Proof using HT.
  intros Es [H1 H2]. split; unfold listed; rewrite Es; [|done].
  intros q lq Hq. cbn -[filter] in Hq |- *. apply H1. unfold listed.
  rewrite elem_of_app, elem_of_filter_ne in Hq. set_solver.
Qed.

(** every lock of [st'] was there in [st], with another packet perhaps *)
Definition same_lock lk lk' : Prop := ∃ pkt, lk' = with_lk_pkt lk pkt.
Definition from_state st st' : Prop :=
  ∀ p lk', p ∈ listed st' → ds_heap st' !! p = Some lk' →
    p ∈ listed st ∧ ∃ lk, ds_heap st !! p = Some lk ∧ same_lock lk lk'.

Lemma same_lock_refl lk : same_lock lk lk.
Proof using Type. exists (lk_pkt lk). by destruct lk. Qed.
Lemma from_refl st : from_state st st.
Proof using Type. intros p lk Hp Hlk. split; [done|]. exists lk. split; [done|apply same_lock_refl]. Qed.
Lemma from_trans st st1 st2 : from_state st st1 → from_state st1 st2 → from_state st st2.
Proof using Type.
  intros H1 H2 p lk Hp Hlk. destruct (H2 p lk Hp Hlk) as [Hp1 (lk1 & Hlk1 & [pkt1 ->])].
  destruct (H1 p lk1 Hp1 Hlk1) as [Hp0 (lk0 & Hlk0 & [pkt0 ->])]. split; [done|].
  exists lk0. split; [done|]. by exists pkt1.
Qed.

Lemma taken_from st p lk st' :
  taken st p lk st' → ds_heap st !! p = Some lk → p ∉ listed st →
  ∀ q lq, q ∈ listed st' → ds_heap st' !! q = Some lq →
    (q ∈ listed st ∨ q = p) ∧ ∃ lk0, ds_heap st !! q = Some lk0 ∧ same_lock lk0 lq.
Proof using HT.
  intros [_ Ew _ Hf Hs] Hp Hnp q lq Hq Hlq. unfold listed in *. rewrite Ew in Hq. destruct (decide (q = p)) as [->|Hne].
  - split; [by right|]. exists lk. split; [done|]. destruct Hs as [[_ [pkt Hpk]]|Es].
    + rewrite Hpk in Hlq. simplify_eq. by eexists.
    + rewrite Es in Hq. done.
  - split; [left; destruct Hs as [[Es _]|Es]; rewrite Es in Hq; set_solver|].
    exists lq. rewrite <-Hf by done. split; [done|apply same_lock_refl].
Qed.

(** the loop behind an unlock *)
Lemma wake_loop_spec fuel st :
  base st → (length (ds_waiting st) < fuel)%nat →
  ∃ st' effs, wake_loop active junk fuel st = Some (st', effs) ∧ base st' ∧ wakeful st' ∧
    (excl st → excl st') ∧ ds_data st' = ds_data st ∧
    (∀ p, p ∈ ds_sent st → p ∈ ds_sent st') ∧ from_state st st'.
Proof using HT.
  revert st. induction fuel as [|fuel IH]; intros st Hb Hf; [lia|]. cbn [wake_loop].
  destruct (find_free_spec st (ds_waiting st) Hb) as (r & -> & Hr); [done|]. cbn [mbind option_bind].
  destruct r as [p|]; [|exists st, []; split_and!; try done; by apply from_refl].
  destruct Hr as [Hp Hfree]. destruct (unlink_waiting st p Hb Hp) as (Hb1 & Es & Hpl & Hlt).
  destruct (b_heap _ Hb p) as [lk Hlk]; [unfold listed; set_solver|].
  set (st1 := unlink st p) in *. assert (ds_heap st1 = ds_heap st) as Eh by done.
  destruct (take_done_spec st1 p lk) as (st2 & effs & E2 & Ht); [done..|]. rewrite E2. cbn [mbind option_bind].
  destruct (IH st2) as (st3 & effs' & E3 & Hb3 & Hw3 & Hx3 & Hd3 & Hs3 & Hq3);
    [apply Ht|rewrite (tk_waiting _ _ _ _ Ht); lia|].
  rewrite E3. cbn [mbind option_bind]. exists st3, (effs ++ effs').
  assert (∀ q, q ∈ listed st1 → q ≠ p) as Hne by set_solver.
  split_and!; try done.
  - intros Hx. apply Hx3. apply (taken_excl st1 p lk); try done.
    + apply Hx in Hlk; [done|]. unfold listed. set_solver.
    + rewrite Eh, Es. by apply Hfree.
    + by apply unlink_excl.
  - rewrite Hd3. by rewrite (tk_data _ _ _ _ Ht).
  - intros q Hq. apply Hs3. destruct (tk_sent _ _ _ _ Ht) as [[-> _]| ->]; rewrite Es; set_solver.
  - apply (from_trans st st2); [|done]. intros q lq Hq Hlq.
    destruct (taken_from st1 p lk st2 Ht Hlk Hpl q lq Hq Hlq) as [Hor Hlk0]. split; [|done].
    destruct Hor as [Hq1| ->]; [|unfold listed; set_solver]. unfold listed in Hq1 |- *. rewrite Es in Hq1.
    cbn -[filter] in Hq1. rewrite elem_of_app, elem_of_filter_ne in Hq1. rewrite elem_of_app. tauto.
Qed.
(** ** The handlers *)

Definition marked (serv_id : Z) lk : s_core_lock :=
  Lock (lk_pkt lk) (lk_id lk) (lk_client_id lk) (lk_next_pos lk) (lk_next_serv lk)
    (mark_loop serv_id true (lk_elems lk)).2.

Lemma update_base st p lk lk' :
  base st → ds_heap st !! p = Some lk → lk_id lk' = lk_id lk →
  base (set_heap st (<[p := lk']> (ds_heap st))).
Proof using HT.
  intros [Hnd Hh Hwf Hl] Hp Hid. split; cbn; try done.
  - intros q Hq. apply lookup_insert_is_Some'. right. by apply Hh.
  - intros id q Hq. destruct (Hl id q Hq) as [? (lq & Hlq & E)]. split; [done|]. rewrite lookup_insert.
    case_decide; subst; [|by exists lq]. exists lk'. split; [done|]. congruence.
Qed.

Lemma marked_excl st p lk s :
  excl st → p ∈ ds_sent st → ds_heap st !! p = Some lk →
  excl (set_heap st (<[p := marked s lk]> (ds_heap st))).
Proof using HT.
  intros [Hs Hx] Hp Hlk. pose proof (mark_loop_finer s true (lk_elems lk)) as Hf.
  assert (lock_sorted lk) as Hlks by (apply (Hs p); [unfold listed; set_solver|done]).
  split; unfold listed; cbn.
  - intros q lq Hq Hlq. rewrite lookup_insert in Hlq. case_decide; simplify_eq; [|by apply (Hs q)].
    by apply (finer_ordered (lk_elems lk)).
  - intros q1 q2 l1 l2 H1 H2 Hne E1 E2. assert (∀ q lq, q ∈ ds_sent st → ds_heap st !! q = Some lq → q ≠ p →
      ilock_is_conflict junk (marked s lk) lq = false) as Hc.
    { intros q lq Hq Hlq Hqp. apply (is_conflict_finer junk lk); try done.
      - apply (Hs q); [unfold listed; set_solver|done].
      - by apply (Hx p q). }
    destruct (decide (q1 = p)) as [->|N1]; [|destruct (decide (q2 = p)) as [->|N2]].
    + rewrite lookup_insert_eq in E1. rewrite lookup_insert_ne in E2 by done. simplify_eq. by apply (Hc q2).
    + rewrite lookup_insert_ne in E1 by done. rewrite lookup_insert_eq in E2. simplify_eq.
       rewrite is_conflict_sym; [by apply (Hc q1)| |by apply (finer_ordered (lk_elems lk))].
      apply (Hs q1); [unfold listed; set_solver|done].
    + rewrite lookup_insert_ne in E1, E2 by done. by apply (Hx q1 q2).
Qed.

(** the lock that every server is done with *)
Lemma finished_base st p lk id :
  base st → tbl_map (ds_locks st) !! id = Some p → ds_heap st !! p = Some lk →
  let st' := free_lock (unlink (set_locks st (tbl_del (ds_locks st) id)) p) p in
  base st' ∧ from_state st st' ∧ (∀ q, q ∈ ds_sent st' → q ∈ ds_sent st) ∧ ds_data st' = ds_data st ∧
  (excl st → excl st').
Proof using HT.
  intros [Hnd Hh Hwf Hl] Hid Hlk. destruct (Hl id p Hid) as [Hp (lk0 & Hlk0 & E0)].
  rewrite Hlk in Hlk0. simplify_eq. destruct (tbl_del_ok (ds_locks st) (lk_id lk0) Hwf) as [Hwf' Em].
  cbn zeta. assert (∀ q, q ∈ listed (free_lock (unlink (set_locks st (tbl_del (ds_locks st) (lk_id lk0))) p) p) ↔
    q ∈ listed st ∧ q ≠ p) as Hin.
  { intros q. unfold listed. cbn -[filter]. rewrite !elem_of_app, !elem_of_filter_ne. tauto. }
  split_and!.
  - split.
    + unfold listed in *. cbn -[filter]. rewrite <-filter_app. by apply NoDup_filter.
    + intros q [Hq Hne]%Hin. cbn. rewrite lookup_delete_ne by done. by apply Hh.
    + done.
    + intros id q Hq. cbn -[filter delete] in *. rewrite Em in Hq. apply lookup_delete_Some in Hq as [Hne Hq].
      destruct (Hl id q Hq) as [Hqs (lq & Hlq & Eq)]. assert (q ≠ p) as Hqp by congruence.
      split; [by apply elem_of_filter_ne|]. exists lq. by rewrite lookup_delete_ne.
  - intros q lq [Hq Hne]%Hin Hlq. cbn in Hlq. rewrite lookup_delete_ne in Hlq by done.
    split; [done|]. exists lq. split; [done|apply same_lock_refl].
  - intros q. cbn -[filter]. rewrite elem_of_filter_ne. tauto.
  - done.
  - intros [Hs Hx]. split.
    + intros q lq [Hq Hne]%Hin Hlq. cbn in Hlq. rewrite lookup_delete_ne in Hlq by done. by apply (Hs q).
    + cbn -[filter delete]. intros q1 q2 l1 l2 [H1 N1]%elem_of_filter_ne [H2 N2]%elem_of_filter_ne Hne E1 E2.
      rewrite lookup_delete_ne in E1, E2 by done. by apply (Hx q1 q2).
Qed.

(** what is kept of every lock by the handler of an unlock *)
Definition lock_from (s : Z) lk lk' : Prop := same_lock lk lk' ∨ same_lock (marked s lk) lk'.

Lemma dserv_unlock_spec st serv pkt :
  base st →
  ∃ st' effs, s_core_dserv_lock_unlock active junk st serv pkt = Some (st', effs) ∧ base st' ∧
    (wakeful st → wakeful st') ∧ (excl st → excl st') ∧ ds_data st' = ds_data st ∧
    (∀ p lk', p ∈ listed st' → ds_heap st' !! p = Some lk' →
      p ∈ listed st ∧ ∃ lk, ds_heap st !! p = Some lk ∧ lock_from (sv_id serv) lk lk') ∧
    (∀ p lk, p ∈ ds_sent st → ds_heap st !! p = Some lk →
      (mark_loop (sv_id serv) true (lk_elems lk)).1 = false → p ∈ ds_sent st').
Proof using HT.
  intros Hb. assert (∀ p lk', p ∈ listed st → ds_heap st !! p = Some lk' →
      p ∈ listed st ∧ ∃ lk, ds_heap st !! p = Some lk ∧ lock_from (sv_id serv) lk lk') as H0.
  { intros p lk Hp Hlk. split; [done|]. exists lk. split; [done|]. left. apply same_lock_refl. }
  unfold s_core_dserv_lock_unlock. destruct (read_id pkt) as [[id p']|]; [|by exists st, []; split_and!].
  rewrite tbl_get_ok by apply Hb. destruct (tbl_map (ds_locks st) !! id) as [p|] eqn:Hid; [|by exists st, []; split_and!].
  destruct (b_locks _ Hb id p Hid) as [Hp (lk & Hlk & Eid)]. rewrite Hlk. cbn [mbind option_bind].
  destruct (mark_loop (sv_id serv) true (lk_elems lk)) as [finish elems] eqn:Em.
  replace (Lock _ _ _ _ _ elems) with (marked (sv_id serv) lk) by (unfold marked; by rewrite Em).
  set (st1 := set_heap st (<[p := marked (sv_id serv) lk]> (ds_heap st))).
  assert (base st1) as Hb1 by by apply (update_base st p lk).
  assert (excl st → excl st1) as Hx1 by (intros Hx; by apply (marked_excl st p lk)).
  assert (ds_heap st1 !! p = Some (marked (sv_id serv) lk)) as Hlk1 by (cbn; by rewrite lookup_insert_eq).
  set (st2 := if finish then _ else st1).
  assert (base st2 ∧ from_state st1 st2 ∧ (finish = false → ds_sent st2 = ds_sent st) ∧
    (∀ q, q ∈ ds_sent st → q ≠ p → q ∈ ds_sent st2) ∧ ds_data st2 = ds_data st ∧ (excl st → excl st2)) as H2.
  { unfold st2. destruct finish.
    - destruct (finished_base st1 p (marked (sv_id serv) lk) id) as (? & ? & ? & ? & ?); [done..|].
      split_and!; try done; [intros q Hq Hne; cbn -[filter]; by apply elem_of_filter_ne|by auto].
    - split_and!; try done. apply from_refl. }
  clearbody st2. destruct H2 as (Hb2 & Hf2 & Hs2 & Hsq2 & Hd2 & Hx2).
  destruct (wake_loop_spec (S (length (ds_waiting st2))) st2 Hb2) as (st3 & effs & E3 & Hb3 & Hw3 & Hx3 & Hd3 & Hs3 & Hf3); [lia|].
  exists st3, effs. split; [done|]. split; [done|]. split; [done|]. split; [by auto|]. split; [congruence|]. split.
  - intros q lq Hq Hlq. destruct (from_trans _ _ _ Hf2 Hf3 q lq Hq Hlq) as [Hq1 (lq1 & Hlq1 & Hsl)].
    split; [done|]. cbn in Hlq1. rewrite lookup_insert in Hlq1. case_decide; simplify_eq.
    + exists lk. split; [done|]. by right.
    + exists lq1. split; [done|]. by left.
  - intros q lq Hq Hlq Hmark. apply Hs3. destruct (decide (q = p)) as [->|Hne]; [|by apply Hsq2].
    rewrite Hlk in Hlq. simplify_eq. rewrite Em in Hmark. cbn in Hmark. rewrite Hs2; done.
Qed.

(** the element of this server is not done *)
Definition owned lk : Prop :=
  ∃ e, array_at (lk_elems lk) (lk_next_pos lk - 1) = Some e ∧ le_serv_id e = core_id ∧ le_finish e = false.

Definition new_lock curr client_id id (elems : list s_core_lock_elem) pkt : s_core_lock :=
  Lock (s_packet_grab pkt) id client_id (curr + 1)
    (match array_at elems (curr + 1) with Some e => le_serv_id e | None => -1 end) elems.

(** a lock object has just been made: it is in no list *)
Definition fresh_ptr st : nat := fresh (dom (ds_heap st)).
Definition with_lock st lk : state := set_heap st (<[fresh_ptr st := lk]> (ds_heap st)).

Lemma blocked_frame h h' sent lk :
  (∀ q, q ∈ sent → h' !! q = h !! q) → blocked junk h' sent lk ↔ blocked junk h sent lk.
Proof using Type.
  intros Hf. split; intros (q & lq & Hq & Hlq & Hc); exists q, lq; (split; [done|]); (split; [|done]).
  - by rewrite <-Hf.
  - by rewrite Hf.
Qed.

Lemma with_lock_spec st lk :
  base st →
  base (with_lock st lk) ∧ fresh_ptr st ∉ listed (with_lock st lk) ∧
  ds_heap (with_lock st lk) !! fresh_ptr st = Some lk ∧
  (∀ q, q ∈ listed st → q ≠ fresh_ptr st ∧ ds_heap (with_lock st lk) !! q = ds_heap st !! q) ∧
  (∀ lw, blocked junk (ds_heap (with_lock st lk)) (ds_sent st) lw ↔ blocked junk (ds_heap st) (ds_sent st) lw).
Proof using HT.
  intros Hb. set (p := fresh_ptr st). set (st1 := with_lock st lk).
  assert (ds_heap st !! p = None) as Hp.
  { apply not_elem_of_dom. unfold p, fresh_ptr. apply is_fresh. }
  assert (∀ q, q ∈ listed st → q ≠ p ∧ ds_heap st1 !! q = ds_heap st !! q) as Hfr.
  { intros q Hq. assert (q ≠ p) as Hne by (intros ->; destruct (b_heap _ Hb p Hq); congruence).
    split; [done|]. cbn. by rewrite lookup_insert_ne. }
  split_and!; try done.
  - destruct Hb as [Hnd Hh Hwf Hl]. split; try done.
    + intros q Hq. destruct (Hfr q Hq) as [_ ->]. by apply Hh.
    + intros i q Hq. destruct (Hl i q Hq) as [Hq' ?]. split; [done|].
      destruct (Hfr q) as [_ ->]; [|done]. apply elem_of_app. by left.
  - intros Hq. by destruct (Hfr p Hq).
  - cbn. by rewrite lookup_insert_eq.
  - intros lw. apply blocked_frame. intros q Hq. apply Hfr, elem_of_app. by left.
Qed.

Lemma with_lock_wakeful st lk : base st → wakeful st → wakeful (with_lock st lk).
Proof using HT.
  intros Hb Hw w lw Hin Hlw. destruct (with_lock_spec st lk Hb) as (_ & _ & _ & Hfr & Hbl). apply Hbl, (Hw w); [done|].
  destruct (Hfr w) as [_ <-]; [|done]. apply elem_of_app. by right.
Qed.

Lemma with_lock_excl st lk : base st → excl st → excl (with_lock st lk).
Proof using HT.
  intros Hb [Hs Hx]. destruct (with_lock_spec st lk Hb) as (_ & _ & _ & Hfr & _). split.
  - intros q lq Hq Hlq. destruct (Hfr q Hq) as [_ E]. rewrite E in Hlq. by apply (Hs q).
  - intros q1 q2 l1 l2 H1 H2 H12 E1 E2. destruct (Hfr q1) as [_ F1]; [apply elem_of_app; by left|].
    destruct (Hfr q2) as [_ F2]; [apply elem_of_app; by left|]. rewrite F1 in E1. rewrite F2 in E2. by apply (Hx q1 q2).
Qed.

(** the lock has to wait *)
Definition enqueued st p : state :=
  DServ (ds_heap st) (ds_locks st) (ds_sent st) (ds_waiting st ++ [p]) (ds_data st).

Lemma listed_enqueued st p q : q ∈ listed (enqueued st p) ↔ q ∈ listed st ∨ q = p.
Proof using Type.
  unfold listed, enqueued. cbn. rewrite !elem_of_app, list_elem_of_singleton. tauto.
Qed.

Lemma enqueued_spec st p lk :
  base st → p ∉ listed st → ds_heap st !! p = Some lk →
  base (enqueued st p) ∧
  (blocked junk (ds_heap st) (ds_sent st) lk → wakeful st → wakeful (enqueued st p)) ∧
  (lock_sorted lk → excl st → excl (enqueued st p)).
Proof using HT.
  intros [Hnd Hh Hwf Hl] Hp Hlk. split_and!.
  - split; try done.
    + unfold listed, enqueued in *. cbn. rewrite app_assoc. apply NoDup_app.
      split_and!; [done|set_solver|apply NoDup_singleton].
    + intros q [Hq| ->]%listed_enqueued; [by apply Hh|]. by exists lk.
  - intros Hbl Hw w lw [Hin| ->%list_elem_of_singleton]%elem_of_app Hlw; [by apply (Hw w)|].
    cbn in Hlw. rewrite Hlk in Hlw. by simplify_eq.
  - intros Hso [Hs Hx]. split; [|done]. intros q lq [Hq| ->]%listed_enqueued Hlq; [by apply (Hs q)|].
    cbn in Hlq. rewrite Hlk in Hlq. by simplify_eq.
Qed.

(** the two outcomes of the handler of a lock packet *)
Lemma dserv_lock_eq st serv pkt curr client_id id elems (p' : s_packet) e :
  base st → read_lock pkt = Ok (curr, client_id, id, elems, p') →
  array_at elems curr = Some e → le_serv_id e = core_id →
  let lk := new_lock curr client_id id elems p' in
  let st1 := with_lock st lk in
  (blocked junk (ds_heap st) (ds_sent st) lk ∧
    s_core_dserv_lock core_id active junk st serv pkt = Some (enqueued st1 (fresh_ptr st), [])) ∨
  (¬ blocked junk (ds_heap st) (ds_sent st) lk ∧
    s_core_dserv_lock core_id active junk st serv pkt = ilock_take_done active st1 (fresh_ptr st)).
Proof using HT.
  intros Hb Hr He Hc lk st1. unfold s_core_dserv_lock. rewrite Hr, He. cbn [mbind option_bind].
  rewrite Hc, Z.eqb_refl. cbn [negb]. fold (new_lock curr client_id id elems p'). fold lk.
  fold (fresh_ptr st). fold (with_lock st lk). fold st1.
  destruct (with_lock_spec st lk Hb) as (Hb1 & _ & Hlk1 & _ & Hbl).
  destruct (conflict_all_spec st1 (fresh_ptr st) lk Hb1 Hlk1) as (b & -> & Hbb). cbn [mbind option_bind].
  destruct b; [left|right]; (split; [|done]).
  - by apply Hbl, Hbb.
  - intros Hbl'. apply Hbl, Hbb in Hbl'. done.
Qed.

Lemma dserv_lock_spec st serv pkt curr client_id id elems (p' : s_packet) e :
  base st → read_lock pkt = Ok (curr, client_id, id, elems, p') →
  array_at elems curr = Some e → le_serv_id e = core_id →
  let lk := new_lock curr client_id id elems p' in
  ∃ st' effs, s_core_dserv_lock core_id active junk st serv pkt = Some (st', effs) ∧ base st' ∧
    (wakeful st → wakeful st') ∧
    (excl st → lock_sorted lk → excl st') ∧ ds_data st' = ds_data st ∧
    (∀ q, q ∈ ds_sent st → q ∈ ds_sent st') ∧
    (∀ q lq, q ∈ listed st' → ds_heap st' !! q = Some lq →
      same_lock lk lq ∨ q ∈ listed st ∧ ds_heap st !! q = Some lq).
Proof using HT.
  intros Hb Hr He Hc lk. destruct (with_lock_spec st lk Hb) as (Hb1 & Hpl & Hlk1 & Hfr & Hbl).
  set (p := fresh_ptr st) in *. set (st1 := with_lock st lk) in *.
  destruct (dserv_lock_eq st serv pkt _ _ _ _ _ _ Hb Hr He Hc) as [[Hblk ->]|[Hblk ->]]; fold lk p st1 in Hblk |- *.
  - destruct (enqueued_spec st1 p lk Hb1 Hpl Hlk1) as (Hb2 & Hw2 & Hx2). eexists _, _. split; [done|].
    split; [done|]. split; [|split; [|split; [done|split; [done|]]]].
    + intros Hw. apply Hw2; [by apply Hbl|by apply with_lock_wakeful].
    + intros Hx Hso. by apply Hx2, with_lock_excl.
    + intros q lq [Hq| ->]%listed_enqueued Hlq; change (ds_heap st1 !! q = Some lq) in Hlq || change (ds_heap st1 !! p = Some lq) in Hlq.
      * right. split; [done|]. by rewrite <-(proj2 (Hfr q Hq)).
      * rewrite Hlk1 in Hlq. simplify_eq. left. apply same_lock_refl.
  - destruct (take_done_spec st1 p lk Hb1 Hpl Hlk1) as (st2 & effs & E2 & Ht). exists st2, effs.
    split; [done|]. split; [apply Ht|]. split; [|split; [|split; [|split]]].
    + intros Hw. apply (taken_wakeful st1 p lk); [done..|]. by apply with_lock_wakeful.
    + intros Hx Hso. apply (taken_excl st1 p lk); [done..| |by apply with_lock_excl]. by intros Hbl'%Hbl.
    + by rewrite (tk_data _ _ _ _ Ht).
    + intros q Hq. destruct (tk_sent _ _ _ _ Ht) as [[-> _]| ->]; cbn; set_solver.
    + intros q lq Hq Hlq. destruct (taken_from st1 p lk st2 Ht Hlk1 Hpl q lq Hq Hlq) as [[Hq1| ->] (lk0 & H0 & Hs)].
      * right. split; [done|]. rewrite (tk_frame _ _ _ _ Ht) in Hlq by by apply Hfr. by rewrite <-(proj2 (Hfr q Hq1)).
      * rewrite Hlk1 in H0. simplify_eq. by left.
Qed.

End states.

(** ** Histories *)
Section histories.
Context {T TD : Type} `{HTb : !Table s_id nat T, HT : !TableLaws s_id nat T, HTd : !Table s_id (Z * list Z) TD}.
Local Abbreviation state := (s_dserver T TD).
Context (core_id : Z).
Implicit Types (st : state) (lk : s_core_lock).

Definition dserv_init : state := DServ ∅ (tbl_new 16) [] [] (tbl_new 16).

(** one packet is handled; at each step other servers may be connected and
    other bytes lie behind the arrays.  [lock_ok] and [unlock_ok] say which
    packets come. *)
Inductive dstep (lock_ok : s_packet → Prop) (unlock_ok : serv_id → Prop) : state → state → Prop :=
| dstep_lock active junk st st' serv pkt effs :
    lock_ok pkt → s_core_dserv_lock core_id active junk st serv pkt = Some (st', effs) →
    dstep lock_ok unlock_ok st st'
| dstep_unlock active junk st st' serv pkt effs :
    unlock_ok serv → s_core_dserv_lock_unlock active junk st serv pkt = Some (st', effs) →
    dstep lock_ok unlock_ok st st'
| dstep_push st serv pkt : dstep lock_ok unlock_ok st (s_core_dserv_push_data st serv pkt).

Definition reachable lock_ok unlock_ok st : Prop := rtc (dstep lock_ok unlock_ok) dserv_init st.

(** the lock packet names the servers in increasing order *)
Definition pkt_sorted (pkt : s_packet) : Prop :=
  ∀ curr client_id id elems p, read_lock pkt = Ok (curr, client_id, id, elems, p) → StronglySorted before elems.
(** the unlock comes from another server *)
Definition from_other (serv : serv_id) : Prop := sv_id serv ≠ core_id.
Definition any {A} (_ : A) : Prop := True.

(** the handler of a lock succeeds unless an assertion fails *)
Lemma lock_cases active junk st st' serv pkt effs :
  s_core_dserv_lock core_id active junk st serv pkt = Some (st', effs) →
  (read_lock pkt = Fail ∧ st' = st) ∨
  ∃ curr client_id id elems p e, read_lock pkt = Ok (curr, client_id, id, elems, p) ∧
    array_at elems curr = Some e ∧ le_serv_id e = core_id.
Proof using Type.
  unfold s_core_dserv_lock. destruct (read_lock pkt) as [[[[[curr client_id] id] elems] p]| |]; [|intros [= ->]; by left|done].
  destruct (array_at elems curr) as [e|] eqn:He; [|done]. cbn [mbind option_bind].
  destruct (_ =? core_id) eqn:E; [|done]. zbool. intros _. right. by eexists _, _, _, _, _, _.
Qed.

Lemma read_elems_unfinished cap i n q elems p :
  read_elems cap i n q = Ok (elems, p) → Forall (λ e, le_finish e = false) elems.
Proof using Type.
  revert i q elems. induction n as [|n IH]; intros i q elems Hq; cbn [read_elems] in Hq; [by simplify_eq|].
  apply bind_Ok in Hq as ([s q1] & _ & Hq). apply bind_Ok in Hq as (_ & _ & Hq).
  apply bind_Ok in Hq as ([id q2] & _ & Hq). apply bind_Ok in Hq as ([es q3] & E & Hq).
  simplify_eq. constructor; [done|by eapply IH].
Qed.

(** a decoded lock, piece by piece *)
Lemma read_lock_inv pkt curr cl id elems q :
  read_lock pkt = Ok (curr, cl, id, elems, q) →
  ∃ nserv p1 p2 p3 p4,
    read_int pkt = Some (curr, p1) ∧ read_int p1 = Some (nserv, p2) ∧ read_int p2 = Some (cl, p3) ∧
    read_id p3 = Some (id, p4) ∧ sizeof_lock <= lock_cap nserv ∧
    read_elems (lock_cap nserv) 0 (Z.to_nat nserv) p4 = Ok (elems, q).
Proof using Type.
  unfold read_lock. intros H. apply bind_Ok in H as ([c p1] & E1%attempt_Ok & H).
  apply bind_Ok in H as ([n p2] & E2%attempt_Ok & H). apply bind_Ok in H as ([c' p3] & E3%attempt_Ok & H).
  apply bind_Ok in H as ([i p4] & E4%attempt_Ok & H). apply bind_Ok in H as (u & E5%within_Ok & H).
  apply bind_Ok in H as ([es p5] & E6 & H). simplify_eq. by exists n, p1, p2, p3, p4.
Qed.

Lemma read_lock_unfinished pkt curr cl id elems p i e :
  read_lock pkt = Ok (curr, cl, id, elems, p) → array_at elems i = Some e → le_finish e = false.
Proof using Type.
  intros (n & p1 & p2 & p3 & p4 & _ & _ & _ & _ & _ & Hel)%read_lock_inv He.
  apply read_elems_unfinished in Hel. unfold array_at in He. case_decide; [|done]. by eapply Forall_lookup_1 in Hel.
Qed.

Lemma push_state st serv pkt :
  ∃ t, s_core_dserv_push_data st serv pkt = DServ (ds_heap st) (ds_locks st) (ds_sent st) (ds_waiting st) t.
Proof using Type.
  destruct st. unfold s_core_dserv_push_data. destruct (read_id pkt) as [[id p]|]; [|by eexists].
  destruct (s_packet_read_to_end p false (Some 0)) as [[r sz] buf]. destruct (r <? 0); [by eexists|].
  destruct (s_packet_read_to_end p true sz) as [[r' sz'] buf']. destruct (r' <? 0); by eexists.
Qed.

(** the invariants speak of [junk], but do not depend on it *)
Lemma wakeful_junk junk1 junk2 st : wakeful junk1 st → wakeful junk2 st.
Proof using Type.
  intros Hw w lk Hin Hlk. destruct (Hw w lk Hin Hlk) as (q & lq & Hq & Hlq & Hc). exists q, lq. split_and!; try done.
  by rewrite is_conflict_junk, <-(is_conflict_junk junk1).
Qed.
Lemma excl_junk junk1 junk2 st : excl junk1 st → excl junk2 st.
Proof using Type.
  intros [Hs Hx]. split; [done|]. intros p q lp lq Hp Hq Hne Elp Elq.
  assert (lock_sorted lp ∧ lock_sorted lq) as [H1 H2].
  { split; [apply (Hs p)|apply (Hs q)]; unfold listed; try done; apply elem_of_app; by left. }
  specialize (Hx p q lp lq Hp Hq Hne Elp Elq). apply not_true_iff_false. apply not_true_iff_false in Hx.
  by rewrite is_conflict_meets in Hx |- *.
Qed.

Lemma dstep_base lock_ok unlock_ok st st' : dstep lock_ok unlock_ok st st' → base st → base st'.
Proof using HT.
  intros Hs Hb. destruct Hs as [active junk st st' serv pkt effs _ E|active junk st st' serv pkt effs _ E|st serv pkt].
  - destruct (lock_cases _ _ _ _ _ _ _ E) as [[_ ->]|(curr & cl & id & elems & p & e & Hr & He & Hc)]; [done|].
    destruct (dserv_lock_spec core_id active junk st serv pkt _ _ _ _ _ _ Hb Hr He Hc) as (st1 & effs1 & E1 & H1 & _).
    congruence.
  - destruct (dserv_unlock_spec active junk st serv pkt Hb) as (st1 & effs1 & E1 & H1 & _). congruence.
  - destruct (push_state st serv pkt) as [t ->]. by destruct Hb; split.
Qed.

Lemma init_base : base dserv_init.
Proof using HT.
  destruct (tbl_new_ok (T := T) 16) as [Hw Em]. split; cbn; [constructor|by intros p ?%elem_of_nil|done|].
  intros id p Hp. rewrite Em in Hp. by rewrite lookup_empty in Hp.
Qed.

Lemma reachable_ind lock_ok unlock_ok (P : state → Prop) :
  P dserv_init → (∀ st st', dstep lock_ok unlock_ok st st' → base st → P st → P st') →
  ∀ st, reachable lock_ok unlock_ok st → base st ∧ P st.
Proof using HT.
  intros H0 Hs. apply (rtc_ind_r (λ st, base st ∧ P st)); [split; [apply init_base|done]|].
  intros st st' _ Hst [Hb Hp]. split; [by eapply dstep_base|by eapply Hs].
Qed.

Lemma dstep_excl unlock_ok st st' :
  dstep pkt_sorted unlock_ok st st' → base st → excl 0 st → excl 0 st'.
Proof using HT.
  intros Hs Hb Hx. destruct Hs as [active junk st st' serv pkt effs Hok E|active junk st st' serv pkt effs _ E|st serv pkt].
  - destruct (lock_cases _ _ _ _ _ _ _ E) as [[_ ->]|(curr & cl & id & elems & p & e & Hr & He & Hc)]; [done|].
    destruct (dserv_lock_spec core_id active junk st serv pkt _ _ _ _ _ _ Hb Hr He Hc) as (st1 & effs1 & E1 & _ & _ & H1 & _).
    rewrite E in E1. simplify_eq. apply (excl_junk junk), H1; [by apply (excl_junk 0)|]. by eapply Hok.
  - destruct (dserv_unlock_spec active junk st serv pkt Hb) as (st1 & effs1 & E1 & _ & _ & H1 & _).
    rewrite E in E1. simplify_eq. by apply (excl_junk junk), H1, (excl_junk 0).
  - destruct (push_state st serv pkt) as [t ->]. by destruct Hx; split.
Qed.

(** The distributed lock excludes: if the lock packets name their servers
    in increasing order, then, whatever packets come in whatever order, of any
    two requests that a data server has passed on, one is done with the first
    of the servers that both go to after this one. *)
Theorem dlock_exclusion unlock_ok st p q lp lq :
  reachable pkt_sorted unlock_ok st →
  p ∈ ds_sent st → q ∈ ds_sent st → p ≠ q → ds_heap st !! p = Some lp → ds_heap st !! q = Some lq →
  ¬ meets (lk_ahead lp) (lk_ahead lq).
Proof using HT.
  intros Hr Hp Hq Hne Hlp Hlq. apply (reachable_ind _ _ (excl 0)) in Hr as [_ [Hs Hx]].
  2: { split; cbn; [by intros ? ? ?%elem_of_nil|by intros ? ? ? ? ?%elem_of_nil]. }
  2: { intros st1 st2 ? ? ?. by apply (dstep_excl unlock_ok st1). }
  specialize (Hx p q lp lq Hp Hq Hne Hlp Hlq). apply not_true_iff_false in Hx.
  rewrite is_conflict_meets in Hx; [done|apply (Hs p)|apply (Hs q)]; try done; apply elem_of_app; by left.
Qed.

Lemma dstep_wakeful lock_ok unlock_ok st st' :
  dstep lock_ok unlock_ok st st' → base st → wakeful 0 st → wakeful 0 st'.
Proof using HT.
  intros Hs Hb Hw. destruct Hs as [active junk st st' serv pkt effs _ E|active junk st st' serv pkt effs _ E|st serv pkt].
  - destruct (lock_cases _ _ _ _ _ _ _ E) as [[_ ->]|(curr & cl & id & elems & p & e & Hr & He & Hc)]; [done|].
    destruct (dserv_lock_spec core_id active junk st serv pkt _ _ _ _ _ _ Hb Hr He Hc) as (st1 & effs1 & E1 & _ & H1 & _).
    rewrite E in E1. simplify_eq. by apply (wakeful_junk junk), H1, (wakeful_junk 0).
  - destruct (dserv_unlock_spec active junk st serv pkt Hb) as (st1 & effs1 & E1 & _ & H1 & _).
    rewrite E in E1. simplify_eq. by apply (wakeful_junk junk), H1, (wakeful_junk 0).
  - by destruct (push_state st serv pkt) as [t ->].
Qed.

(** C23. No request is forgotten and none is used after it is freed: whatever
    packets have come, the addresses in the lists are those of live locks, every
    request that waits conflicts with one that was passed on, and any unlock is
    handled without a failure, its loop included. *)
Theorem dlock_no_lost_wakeup lock_ok unlock_ok st :
  reachable lock_ok unlock_ok st →
  (∀ p, p ∈ ds_sent st ++ ds_waiting st → is_Some (ds_heap st !! p)) ∧
  (∀ w lw, w ∈ ds_waiting st → ds_heap st !! w = Some lw →
    ∃ q lq, q ∈ ds_sent st ∧ ds_heap st !! q = Some lq ∧ ilock_is_conflict 0 lq lw = true) ∧
  ∀ active junk serv pkt, is_Some (s_core_dserv_lock_unlock active junk st serv pkt).
Proof using HT.
  intros Hr. apply (reachable_ind _ _ (wakeful 0)) in Hr as [Hb Hw].
  2: { by intros ? ? ?%elem_of_nil. }
  2: { intros st1 st2 ? ? ?. by apply (dstep_wakeful lock_ok unlock_ok st1). }
  split; [apply (b_heap _ Hb)|]. split.
  - exact Hw.
  - intros active junk serv pkt. destruct (dserv_unlock_spec active junk st serv pkt Hb) as (st' & effs & E & _).
    by eexists.
Qed.

Definition all_owned st : Prop := ∀ p lk, p ∈ listed st → ds_heap st !! p = Some lk → owned core_id lk.

Lemma same_lock_owned lk lk' : same_lock lk lk' → owned core_id lk → owned core_id lk'.
Proof using Type. by intros [pkt ->]. Qed.

Lemma marked_owned s lk :
  s ≠ core_id → owned core_id lk → owned core_id (marked s lk) ∧ (mark_loop s true (lk_elems lk)).1 = false.
Proof using Type.
  intros Hs (e & He & Hc & Hf). unfold array_at in He. case_decide as Hp; [|done].
  destruct (mark_loop_unfinished s true _ _ e He) as [H1 H2]; [congruence|done|]. split; [|done].
  exists e. split_and!; try done. unfold array_at, marked. cbn [lk_next_pos lk_elems]. by rewrite decide_True.
Qed.

Lemma dstep_owned lock_ok st st' : dstep lock_ok from_other st st' → base st → all_owned st → all_owned st'.
Proof using HT.
  intros Hs Hb Ho. destruct Hs as [active junk st st' serv pkt effs _ E|active junk st st' serv pkt effs Hs E|st serv pkt].
  - destruct (lock_cases _ _ _ _ _ _ _ E) as [[_ ->]|(curr & cl & id & elems & p & e & Hr & He & Hc)]; [done|].
    destruct (dserv_lock_spec core_id active junk st serv pkt _ _ _ _ _ _ Hb Hr He Hc) as (st1 & effs1 & E1 & _ & _ & _ & _ & _ & H1).
    rewrite E in E1. simplify_eq. intros q lq Hq Hlq. destruct (H1 q lq Hq Hlq) as [Hsl|[Hq' Hlq']]; [|by apply (Ho q)].
    apply (same_lock_owned _ _ Hsl). exists e. unfold new_lock. cbn [lk_elems lk_next_pos]. rewrite Z.add_simpl_r.
    split_and!; try done. by apply (read_lock_unfinished pkt curr cl id elems p curr).
  - destruct (dserv_unlock_spec active junk st serv pkt Hb) as (st1 & effs1 & E1 & _ & _ & _ & _ & H1 & _).
    rewrite E in E1. simplify_eq. intros q lq Hq Hlq. destruct (H1 q lq Hq Hlq) as [Hq' (lk & Hlk & Hor)].
    specialize (Ho q lk Hq' Hlk). destruct Hor as [Hsl|Hsl]; apply (same_lock_owned _ _ Hsl); [done|].
    by apply marked_owned.
  - by destruct (push_state st serv pkt) as [t ->].
Qed.

(** The list of the locks that were passed on only grows: whatever
    requests come, and unlocks from the other servers, no lock ever leaves it,
    because the element of the server itself is never marked as done. *)
Theorem dlock_never_released lock_ok st st' :
  reachable lock_ok from_other st → dstep lock_ok from_other st st' →
  ∀ p, p ∈ ds_sent st → p ∈ ds_sent st'.
Proof using HT.
  intros Hr Hs. apply (reachable_ind _ _ all_owned) in Hr as [Hb Ho].
  2: { by intros ? ? ?%elem_of_nil. }
  2: { intros st1 st2 ? ? ?. by apply (dstep_owned lock_ok st1). }
  destruct Hs as [active junk st st' serv pkt effs _ E|active junk st st' serv pkt effs Hs E|st serv pkt].
  - destruct (lock_cases _ _ _ _ _ _ _ E) as [[_ ->]|(curr & cl & id & elems & p & e & H1 & He & Hc)]; [done|].
    destruct (dserv_lock_spec core_id active junk st serv pkt _ _ _ _ _ _ Hb H1 He Hc) as (st1 & effs1 & E1 & _ & _ & _ & _ & H2 & _).
    rewrite E in E1. by simplify_eq.
  - destruct (dserv_unlock_spec active junk st serv pkt Hb) as (st1 & effs1 & E1 & _ & _ & _ & _ & _ & H1).
    rewrite E in E1. simplify_eq. intros p Hp. destruct (b_heap _ Hb p) as [lk Hlk]; [apply elem_of_app; by left|].
    apply (H1 p lk Hp Hlk). apply marked_owned; [done|]. apply (Ho p); [apply elem_of_app; by left|done].
  - by destruct (push_state st serv pkt) as [t ->].
Qed.
End histories.

(** ** A request on its way *)
Section passing.
Context {T TD : Type} `{HTb : !Table s_id nat T, HT : !TableLaws s_id nat T, HTd : !Table s_id (Z * list Z) TD}.
Context (core_id : Z) (active : serv_id → bool) (junk : Z).
Implicit Types (st : s_dserver T TD) (pkt p : s_packet).

Lemma read_elems_congr cap i n p p' elems q :
  rest_eq p p' → read_elems cap i n p = Ok (elems, q) →
  ∃ q', read_elems cap i n p' = Ok (elems, q') ∧ rest_eq q q' ∧ length elems = n.
Proof using Type.
  revert i p p' elems. induction n as [|n IH]; intros i p p' elems He Hr; cbn [read_elems] in *.
  { simplify_eq. by exists p'. }
  apply bind_Ok in Hr as ([s p1] & E1%attempt_Ok & Hr). apply bind_Ok in Hr as (u & Ew & Hr).
  apply bind_Ok in Hr as ([id p2] & E2%attempt_Ok & Hr). apply bind_Ok in Hr as ([es p3] & E3 & Hr). simplify_eq.
  destruct (read_int_congr _ _ _ _ He E1) as (p1' & -> & He1). cbn [attempt mbind res_bind]. rewrite Ew.
  destruct (read_id_congr _ _ _ _ He1 E2) as (p2' & E2' & He2). cbn [mbind res_bind]. rewrite E2'.
  destruct (IH _ _ _ _ He2 E3) as (p3' & E3' & He3 & Hl). cbn [attempt mbind res_bind]. rewrite E3'.
  exists p3'. cbn [mbind res_bind length]. by rewrite Hl.
Qed.

(** what is behind the position decides, but for the position itself *)
Lemma read_lock_congr pkt pkt' curr curr' client_id id elems q p1 p1' :
  read_lock pkt = Ok (curr, client_id, id, elems, q) → read_int pkt = Some (curr, p1) →
  read_int pkt' = Some (curr', p1') → rest_eq p1 p1' →
  ∃ q', read_lock pkt' = Ok (curr', client_id, id, elems, q') ∧ Z.of_nat (length elems) <= 2147483647.
Proof using Type.
  intros (n & p & p2 & p3 & p4 & E0 & E1 & E2 & E3 & Hc & E4)%read_lock_inv E0' Er He.
  rewrite E0 in E0'. simplify_eq. destruct (read_int_wf _ _ _ (proj1 He) E1) as [_ Hn].
  destruct (read_int_congr _ _ _ _ He E1) as (p2' & E1' & He1).
  destruct (read_int_congr _ _ _ _ He1 E2) as (p3' & E2' & He2).
  destruct (read_id_congr _ _ _ _ He2 E3) as (p4' & E3' & He3).
  destruct (read_elems_congr _ _ _ _ _ _ _ He3 E4) as (p5' & E4' & He4 & Hl).
  exists p5'. split; [|unfold is_int in Hn; lia].
  unfold read_lock. rewrite Er. cbn [attempt mbind res_bind]. rewrite E1'. cbn [attempt mbind res_bind].
  rewrite E2'. cbn [attempt mbind res_bind]. rewrite E3'. cbn [attempt mbind res_bind].
  rewrite within_ok by done. cbn [mbind res_bind]. by rewrite E4'.
Qed.

(** the packet that is passed on: its function and its first integer are
    replaced *)
Definition forwarded pkt (next_pos : Z) : s_packet :=
  (s_packet_write_int (s_packet_seek (s_packet_set_fun pkt S_PKT_TYPE_LOCK_NEXT).2 0).2 next_pos).2.

Lemma forwarded_bytes pkt p n :
  pk_wf pkt → pk_pos pkt = S_PKT_DATA_POS → S_PKT_DATA_POS + 4 <= pk_size pkt →
  pk_data p = pk_data pkt → pk_size p = pk_size pkt → pk_wf p →
  let r := with_pos (forwarded p n) S_PKT_DATA_POS in
  pk_wf r ∧ pk_rest r = enc_field (Fint n) ++ drop 4 (pk_rest pkt) ∧
  s_packet_get_fun (forwarded p n) = S_PKT_TYPE_LOCK_NEXT.
Proof using Type.
  intros Hw Hpos Hsz Hd Hs Hwp. cbn zeta. unfold S_PKT_DATA_POS, S_PKT_HEAD_SIZE in *.
  destruct (set_fun_spec p S_PKT_TYPE_LOCK_NEXT Hwp) as (Hw1 & Hs1 & _ & _ & Hd8 & _ & Hf); [unfold S_PKT_HEAD_SIZE; lia|].
  unfold forwarded. set (p1 := (s_packet_set_fun p S_PKT_TYPE_LOCK_NEXT).2) in *.
  assert ((s_packet_seek p1 0).2 = with_pos p1 12) as Es.
  { unfold s_packet_seek, S_PKT_HEAD_SIZE. rewrite (proj2 (Z.ltb_ge _ _)) by lia. by rewrite (proj2 (Z.ltb_ge _ _)) by lia. }
  rewrite Es. set (p2 := with_pos p1 12). assert (pk_wf p2) as Hw2.
  { destruct Hw1 as (? & ? & ? & ?). unfold pk_wf, p2, S_PKT_HEAD_SIZE in *. pkc. split_and!; done || lia. }
  unfold s_packet_write_int. rewrite (proj2 (Z.ltb_ge _ _)) by (unfold p2; pkc; lia). cbn [snd].
  change [byte_of n 0; byte_of n 1; byte_of n 2; byte_of n 3] with (enc_field (Fint n)).
  assert (pk_pos p2 + Z.of_nat (length (enc_field (Fint n))) <= pk_size p2) as Hfit by (unfold p2; pkc; simpl; lia).
  pose proof (appended_write p2 (enc_field (Fint n)) Hw2 (bytes4 n) Hfit) as (Hw3 & Hs3 & _ & Hp3 & Hdn3).
  pose proof (write_bytes_rest p2 (enc_field (Fint n)) Hw2 Hfit) as Hr3.
  set (p3 := write_bytes p2 (enc_field (Fint n))) in *.
  split_and!.
  - destruct Hw3 as (? & ? & ? & ?). unfold pk_wf, S_PKT_HEAD_SIZE in *. pkc. split_and!; done || lia.
  - change 12 with (pk_pos p2) at 1. unfold p3. rewrite write_bytes_reread by done. f_equal.
    unfold pk_rest. change (pk_pos p2) with 12. change (pk_data p2) with (pk_data p1). change (pk_size p2) with (pk_size p1).
    rewrite !drop_drop, !skipn_firstn_comm, Hs1, Hs, Hpos. f_equal.
    change (Z.to_nat 12 + length (enc_field (Fint n)))%nat with (8 + 8)%nat. rewrite <-drop_drop, Hd8, drop_drop.
    by rewrite Hd.
  - change S_PKT_TYPE_LOCK_NEXT with (uint S_PKT_TYPE_LOCK_NEXT).
    apply get_fun_slice; [unfold S_PKT_HEAD_SIZE; rewrite Hs3; unfold p2; pkc; lia|].
    unfold p3. by rewrite write_bytes_slice by (done || lia).
Qed.

Lemma forwarded_read pkt p curr client_id id elems q :
  pk_wf pkt → pk_pos pkt = S_PKT_DATA_POS → pk_data p = pk_data pkt → pk_size p = pk_size pkt → pk_wf p →
  read_lock pkt = Ok (curr, client_id, id, elems, q) → curr + 1 < Z.of_nat (length elems) → -1 <= curr →
  s_packet_get_fun (forwarded p (curr + 1)) = S_PKT_TYPE_LOCK_NEXT ∧
  ∃ q', read_lock (with_pos (forwarded p (curr + 1)) S_PKT_DATA_POS) = Ok (curr + 1, client_id, id, elems, q').
Proof using Type.
  intros Hw Hpos Hd Hs Hwp Hr Hlt Hge. pose proof Hr as (n & p1 & _ & _ & _ & E1 & _)%read_lock_inv.
  assert (S_PKT_DATA_POS + 4 <= pk_size pkt ∧ p1 = with_pos pkt (pk_pos pkt + 4)) as [Hsz ->].
  { unfold read_int, s_packet_read_int in E1. destruct (_ <? _) eqn:Hsz; [done|]. zbool. cbn in E1. simplify_eq.
    by rewrite Hpos in Hsz. }
  destruct (forwarded_bytes pkt p (curr + 1)) as (Hw' & Hr' & Hf); [done..|]. split; [done|].
  set (r := with_pos (forwarded p (curr + 1)) S_PKT_DATA_POS) in *.
  destruct (read_int_wf _ _ _ Hw E1) as [Hw1 _].
  assert (Z.of_nat (length elems) <= 2147483647) as Hmax.
  { by destruct (read_lock_congr pkt pkt _ _ _ _ _ _ _ _ Hr E1 E1) as (? & _ & ?). }
  destruct (read_int_field r (curr + 1) (drop 4 (pk_rest pkt)) Hw') as (r1 & Er & Hwr1 & Hrr1); [unfold is_int; lia|done|].
  destruct (read_lock_congr pkt r _ _ _ _ _ _ _ r1 Hr E1 Er) as (q' & Eq & _); [|by exists q'].
  split_and!; try done. rewrite Hrr1. by apply (pk_rest_advance pkt 4).
Qed.

Lemma read_int_data pkt i q : read_int pkt = Some (i, q) → pk_data q = pk_data pkt ∧ pk_size q = pk_size pkt.
Proof using Type. unfold read_int, s_packet_read_int. destruct (_ <? _); [done|]. intros E. by simplify_eq/=. Qed.

Lemma read_id_wf pkt i q :
  pk_wf pkt → read_id pkt = Some (i, q) → pk_wf q ∧ pk_data q = pk_data pkt ∧ pk_size q = pk_size pkt.
Proof using Type.
  unfold read_id. intros Hw Hr. destruct (read_int pkt) as [[x p1]|] eqn:E1; [|done]. cbn [mbind option_bind] in Hr.
  destruct (read_int p1) as [[y p2]|] eqn:E2; [|done]. cbn [mbind option_bind] in Hr. simplify_eq.
  destruct (read_int_wf _ _ _ Hw E1) as [H1 _]. destruct (read_int_wf _ _ _ H1 E2) as [H2 _].
  destruct (read_int_data _ _ _ E1), (read_int_data _ _ _ E2). split_and!; congruence.
Qed.

Lemma read_elems_wf cap i n pkt elems q :
  pk_wf pkt → read_elems cap i n pkt = Ok (elems, q) → pk_wf q ∧ pk_data q = pk_data pkt ∧ pk_size q = pk_size pkt.
Proof using Type.
  revert i pkt elems. induction n as [|n IH]; intros i pkt elems Hw Hr; cbn [read_elems] in Hr; [by simplify_eq|].
  apply bind_Ok in Hr as ([s p1] & E1%attempt_Ok & Hr). apply bind_Ok in Hr as (u & _ & Hr).
  apply bind_Ok in Hr as ([id p2] & E2%attempt_Ok & Hr). apply bind_Ok in Hr as ([es p3] & E3 & Hr). simplify_eq.
  destruct (read_int_wf _ _ _ Hw E1) as [H1 _]. destruct (read_int_data _ _ _ E1).
  destruct (read_id_wf _ _ _ H1 E2) as (H2 & ? & ?). destruct (IH _ _ _ H2 E3) as (? & ? & ?). split_and!; congruence.
Qed.

Lemma read_lock_wf pkt curr cl i elems q :
  pk_wf pkt → read_lock pkt = Ok (curr, cl, i, elems, q) → pk_wf q ∧ pk_data q = pk_data pkt ∧ pk_size q = pk_size pkt.
Proof using Type.
  intros Hw (n & p1 & p2 & p3 & p4 & E1 & E2 & E3 & E4 & _ & E5)%read_lock_inv.
  destruct (read_int_wf _ _ _ Hw E1) as [H1 _]. destruct (read_int_wf _ _ _ H1 E2) as [H2 _].
  destruct (read_int_wf _ _ _ H2 E3) as [H3 _]. destruct (read_id_wf _ _ _ H3 E4) as (H4 & ? & ?).
  destruct (read_elems_wf _ _ _ _ _ _ H4 E5) as (? & ? & ?).
  destruct (read_int_data _ _ _ E1), (read_int_data _ _ _ E2), (read_int_data _ _ _ E3). split_and!; congruence.
Qed.

Lemma unlock_effects curr client_id id elems q :
  0 <= curr →
  ilock_unlock active (new_lock curr client_id id elems q) =
  (λ e, Send (Serv S_SERV_TYPE_D (le_serv_id e)) (OMsg S_PKT_TYPE_LOCK_UNLOCK (id_fields id))) <$>
    filter (λ e, active (Serv S_SERV_TYPE_D (le_serv_id e)) = true) (take (Z.to_nat curr) elems).
Proof using Type.
  intros Hc. unfold ilock_unlock, new_lock. cbn [lk_next_pos lk_elems lk_id]. rewrite Z.add_simpl_r.
  destruct (_ <=? 1) eqn:E; zbool.
  - by replace (Z.to_nat curr) with 0%nat by lia.
  - induction (take (Z.to_nat curr) elems) as [|x l IH]; [done|]. cbn [omap list_omap].
    rewrite filter_cons. destruct (active _) eqn:Ea; cbn -[filter]; [by rewrite decide_True, IH|by rewrite decide_False].
Qed.

(** A request is passed on intact: a data server that can take it tells
    each server before it that it is done there, and sends the next server a
    [LOCK_NEXT] packet that reads as the same client, id and elements, with the
    place of that server. *)
Theorem dlock_passed_on st serv pkt curr client_id id elems q e e' :
  base st → pk_wf pkt → pk_pos pkt = S_PKT_DATA_POS →
  read_lock pkt = Ok (curr, client_id, id, elems, q) →
  array_at elems curr = Some e → le_serv_id e = core_id →
  array_at elems (curr + 1) = Some e' → active (Serv S_SERV_TYPE_D (le_serv_id e')) = true →
  ¬ blocked junk (ds_heap st) (ds_sent st) (new_lock curr client_id id elems q) →
  ∃ st' pkt' q',
    s_core_dserv_lock core_id active junk st serv pkt = Some (st',
      ((λ e, Send (Serv S_SERV_TYPE_D (le_serv_id e)) (OMsg S_PKT_TYPE_LOCK_UNLOCK (id_fields id))) <$>
        filter (λ e, active (Serv S_SERV_TYPE_D (le_serv_id e)) = true) (take (Z.to_nat curr) elems)) ++
      [Send (Serv S_SERV_TYPE_D (le_serv_id e')) (OPkt S_PKT_TYPE_LOCK_NEXT pkt')]) ∧
    s_packet_get_fun pkt' = S_PKT_TYPE_LOCK_NEXT ∧
    read_lock (with_pos pkt' S_PKT_DATA_POS) = Ok (curr + 1, client_id, id, elems, q').
Proof using HT.
  intros Hb Hw Hpos Hr He Hc He' Hact Hnb.
  pose proof (dserv_lock_eq core_id active junk st serv pkt _ _ _ _ _ _ Hb Hr He Hc) as Heq. unfold array_at in He, He'. case_decide; [|done]. case_decide; [|done].
  assert (curr + 1 < Z.of_nat (length elems)) as Hlt by (apply lookup_lt_Some in He'; lia).
  destruct (read_lock_wf _ _ _ _ _ _ Hw Hr) as (Hwq & Hdq & Hsq).
  destruct (forwarded_read pkt (s_packet_grab q) curr client_id id elems q) as [Hf [q' Hq']]; try done; [lia|].
  destruct Heq as [[? _]|[_ ->]]; [done|].
  set (lk := new_lock curr client_id id elems q) in *.
  destruct (with_lock_spec junk st lk Hb) as (_ & _ & Hlk & _ & _). unfold ilock_take_done.
  rewrite Hlk. cbn [mbind option_bind].
  assert (ilock_next active lk (lk_pkt lk) = (1, forwarded (s_packet_grab q) (curr + 1),
    [Send (Serv S_SERV_TYPE_D (le_serv_id e')) (OPkt S_PKT_TYPE_LOCK_NEXT (forwarded (s_packet_grab q) (curr + 1)))])) as ->.
  { unfold ilock_next, lk_nserv, lk, new_lock, array_at. cbn [lk_next_pos lk_elems lk_next_serv lk_pkt].
    rewrite (proj2 (Z.leb_gt _ _)), decide_True, He', Hact by lia. done. }
  cbn [negb Z.eqb]. eexists _, (forwarded (s_packet_grab q) (curr + 1)), q'. split; [|done]. do 3 f_equal.
  by apply unlock_effects.
Qed.
End passing.

(** ** The properties at work *)
Section examples.
Local Abbreviation state := (s_dserver (s_hash nat) (s_hash (Z * list Z))).
#[local] Instance data_inhabited : Inhabited (Z * list Z) := populate (0, []).

Definition lock_start (curr client x y : Z) (servs : list Z) : s_packet :=
  let fs := [Fint curr; Fint (Z.of_nat (length servs)); Fint client; Fint x; Fint y] ++
            concat (map (λ s, [Fint s; Fint x; Fint s]) servs) in
  let p := default (Packet 12 12 1 7 (replicate 256 0))
             (s_packet_start_write 0 g_free_init S_PKT_TYPE_LOCK_START fs).1 in
  with_pos p S_PKT_DATA_POS.
Definition unlock_pkt (x y : Z) : s_packet :=
  let p := default (Packet 12 12 1 7 (replicate 256 0))
             (s_packet_start_write 0 g_free_init S_PKT_TYPE_LOCK_UNLOCK [Fint x; Fint y]).1 in
  with_pos p S_PKT_DATA_POS.

Definition all_active (_ : serv_id) : bool := true.
Definition run_lock1 (st : state) (pkt : s_packet) : state :=
  default st (fst <$> s_core_dserv_lock 1 all_active 0 st (Serv S_SERV_TYPE_C 7) pkt).

(** server 1 is asked for 1, 2 and for 1, 3, then again for 1, 2 *)
Definition lockA : s_packet := lock_start 0 7 10 1 [1; 2].
Definition lockB : s_packet := lock_start 0 8 20 2 [1; 3].
Definition lockC : s_packet := lock_start 0 9 30 3 [1; 2].
Definition st0 : state := dserv_init.
Definition stA : state := run_lock1 st0 lockA.
Definition stB : state := run_lock1 stA lockB.
Definition stC : state := run_lock1 stB lockC.

Example stC_lists : ds_sent stC = [0%nat; 1%nat] ∧ ds_waiting stC = [2%nat].
Proof. split; vm_compute; reflexivity. Qed.

Lemma lock_start_sorted curr client x y servs :
  match read_lock (lock_start curr client x y servs) with Ok r => StronglySorted before r.1.2 | _ => True end →
  pkt_sorted (lock_start curr client x y servs).
Proof. intros H c cl id elems p E. by rewrite E in H. Qed.

Ltac sorted_pkt :=
  apply lock_start_sorted; vm_compute; repeat constructor.

Lemma lockA_sorted : pkt_sorted lockA.
Proof. sorted_pkt. Qed.
Lemma lockB_sorted : pkt_sorted lockB.
Proof. sorted_pkt. Qed.
Lemma lockC_sorted : pkt_sorted lockC.
Proof. sorted_pkt. Qed.

Lemma lock_step (st : state) pkt :
  pkt_sorted pkt → is_Some (s_core_dserv_lock 1 all_active 0 st (Serv S_SERV_TYPE_C 7) pkt) →
  dstep 1 pkt_sorted (from_other 1) st (run_lock1 st pkt).
Proof.
  intros Hs [[st' effs] E]. eapply (dstep_lock _ _ _ all_active 0); [exact Hs|].
  unfold run_lock1. rewrite E. reflexivity.
Qed.

Lemma stC_reachable : reachable 1 pkt_sorted (from_other 1) stC.
Proof.
  unfold reachable. apply (rtc_r _ stB); [apply (rtc_r _ stA); [apply (rtc_r _ st0); [reflexivity|]|]|]; apply lock_step.
  - apply lockA_sorted.
  - vm_compute. eauto.
  - apply lockB_sorted.
  - vm_compute. eauto.
  - apply lockC_sorted.
  - vm_compute. eauto.
Qed.

(** server 2 is done with the first request *)
Definition stD : state :=
  default stC (fst <$> s_core_dserv_lock_unlock all_active 0 stC (Serv S_SERV_TYPE_D 2) (unlock_pkt 10 1)).
Example stD_lists : ds_sent stD = [0%nat; 1%nat; 2%nat] ∧ ds_waiting stD = [].
Proof. split; vm_compute; reflexivity. Qed.

Lemma stD_step : dstep 1 pkt_sorted (from_other 1) stC stD.
Proof.
  assert (is_Some (s_core_dserv_lock_unlock all_active 0 stC (Serv S_SERV_TYPE_D 2) (unlock_pkt 10 1))) as [[st' effs] E].
  { vm_compute. eauto. }
  eapply (dstep_unlock _ _ _ all_active 0 _ _ (Serv S_SERV_TYPE_D 2) (unlock_pkt 10 1)); [discriminate|].
  unfold stD. rewrite E. reflexivity.
Qed.

Definition lock_of (st : state) (p : nat) : s_core_lock :=
  default (Lock (Packet 12 12 1 4 []) (SId 0 0) 0 0 0 []) (ds_heap st !! p).

Lemma dlock_exclusion_witness : ¬ meets (lk_ahead (lock_of stC 0)) (lk_ahead (lock_of stC 1)).
Proof.
  apply (dlock_exclusion 1 (from_other 1) stC 0 1).
  - exact stC_reachable.
  - vm_compute. left.
  - vm_compute. right. left.
  - discriminate.
  - vm_compute. reflexivity.
  - vm_compute. reflexivity.
Defined.

Lemma dlock_no_lost_wakeup_witness :
  (∃ q lq, q ∈ ds_sent stC ∧ ds_heap stC !! q = Some lq ∧ ilock_is_conflict 0 lq (lock_of stC 2) = true) ∧
  is_Some (s_core_dserv_lock_unlock all_active 0 stC (Serv S_SERV_TYPE_D 2) (unlock_pkt 10 1)).
Proof.
  destruct (dlock_no_lost_wakeup 1 pkt_sorted (from_other 1) stC) as (_ & Hw & Hu); [exact stC_reachable|].
  split; [|apply Hu]. apply (Hw 2%nat); vm_compute; [left|reflexivity].
Defined.

Lemma dlock_never_released_witness : 0%nat ∈ ds_sent stD.
Proof.
  apply (dlock_never_released 1 pkt_sorted stC stD); [exact stC_reachable|exact stD_step|]. vm_compute. left.
Defined.

Lemma ilock_is_conflict_correct_witness :
  conflict_loop 4 5 (lk_ahead (lock_of stC 0)) (lk_ahead (lock_of stC 2)) =
    ilock_is_conflict 0 (lock_of stC 0) (lock_of stC 2) ∧
  (ilock_is_conflict 0 (lock_of stC 0) (lock_of stC 2) = true ↔
    meets (lk_ahead (lock_of stC 0)) (lk_ahead (lock_of stC 2))).
Proof.
  apply (ilock_is_conflict_correct 5 4 (lock_of stC 0) (lock_of stC 2)).
  - vm_compute. repeat constructor.
  - vm_compute. repeat constructor.
  - vm_compute. lia.
Defined.

(** server 1 is the second of three *)
Definition lockM : s_packet := lock_start 1 7 10 1 [0; 1; 2].
Definition lockM_elems : list s_core_lock_elem :=
  [LElem 0 (SId 10 0) false; LElem 1 (SId 10 1) false; LElem 2 (SId 10 2) false].
Definition lockM_rest : s_packet := match read_lock lockM with Ok r => r.2 | _ => lockM end.

Lemma dlock_passed_on_witness :
  ∃ st' pkt' q', s_core_dserv_lock 1 all_active 0 st0 (Serv S_SERV_TYPE_D 0) lockM = Some (st',
    [Send (Serv S_SERV_TYPE_D 0) (OMsg S_PKT_TYPE_LOCK_UNLOCK [Fint 10; Fint 1]);
     Send (Serv S_SERV_TYPE_D 2) (OPkt S_PKT_TYPE_LOCK_NEXT pkt')]) ∧
    read_lock (with_pos pkt' S_PKT_DATA_POS) = Ok (2, 7, SId 10 1, lockM_elems, q').
Proof.
  destruct (dlock_passed_on 1 all_active 0 st0 (Serv S_SERV_TYPE_D 0) lockM 1 7 (SId 10 1) lockM_elems lockM_rest
    (LElem 1 (SId 10 1) false) (LElem 2 (SId 10 2) false)) as (st' & pkt' & q' & E & _ & Hr).
  - apply init_base.
  - vm_compute. split_and!; try discriminate. repeat constructor; discriminate.
  - vm_compute. reflexivity.
  - vm_compute. reflexivity.
  - vm_compute. reflexivity.
  - reflexivity.
  - vm_compute. reflexivity.
  - reflexivity.
  - intros (q & lq & Hq & _). by apply elem_of_nil in Hq.
  - exists st', pkt', q'. split; [exact E|exact Hr].
Defined.
End examples.
