(* ===== verification/Create.v ===== *)
(** * [core/s_core_create_*.c]: the creation of a file

    A client asks one meta server; that one asks every other meta server for
    its consent ([CREATE_CHECK_AUTH]), then makes the meta data, tells everybody
    who has it ([CREATE_META_META_DATA]) and sends it to the servers that are to
    keep it ([CREATE_METADATA]); when the last of these has answered, the client
    is answered.  The handlers are over any tables with the file names as
    keys. *)

From S2P Require Import Prelude Packet Wire SHash SHashSpec Cluster CorePkt.
Local Open Scope Z_scope.

Record s_core_mcreating := MCreating {
  mc_fname : list Z;
  mc_size : s_file_size;
  mc_client_id : Z;
  mc_req_id : Z;
  mc_ncheck : Z
}.
Definition with_ncheck (c : s_core_mcreating) (n : Z) : s_core_mcreating :=
  MCreating (mc_fname c) (mc_size c) (mc_client_id c) (mc_req_id c) n.

(** the tables of [struct s_mserver] for files, and [core->file_id] *)
Record mfiles {TC TF TM : Type} := MFiles {
  file_creating : TC;
  file_metadata : TF;
  file_meta_metadata : TM;
  core_file_id : Z
}.
Arguments mfiles : clear implicits.
Arguments MFiles {TC TF TM}.

Section mserv.
Context {TC TF TM : Type}.
Context `{HTC : !Table (list Z) s_core_mcreating TC, HTF : !Table (list Z) s_file_meta_data TF,
          HTM : !Table (list Z) s_file_meta_meta_data TM}.
Local Abbreviation state := (mfiles TC TF TM).
(** this server; the servers that [s_servg_get_active_serv] finds; those that
    [s_servg_next_active_serv] goes through, with their [mem], in its order *)
Context (core_id : Z) (active : serv_id → bool) (servs : Z → list (Z * Z)).
(** fresh memory; what [mmd->flags] finds behind a table slot; shifts out of
    range *)
Context (junk : Z) (slot_flags : list Z → Z) (ub_shl : Z → Z → Z).
Implicit Types (st : state) (c : s_core_mcreating) (fname : list Z).

Definition set_creating st t : state := MFiles t (file_metadata st) (file_meta_metadata st) (core_file_id st).
Definition set_metadata st t : state := MFiles (file_creating st) t (file_meta_metadata st) (core_file_id st).
Definition set_mmd st t : state := MFiles (file_creating st) (file_metadata st) t (core_file_id st).
Definition set_file_id st i : state := MFiles (file_creating st) (file_metadata st) (file_meta_metadata st) i.

Definition icreate_fail_to_client (req_id client_id : Z) : list effect :=
  let client := Serv S_SERV_TYPE_C client_id in
  if active client then [RpcRet client req_id (OMsg S_PKT_TYPE_RPC_BACK_ [Fint 0])] else [].

Definition icreate_suc_to_client c (md : s_file_meta_data) : option (list effect) :=
  let client := Serv S_SERV_TYPE_C (mc_client_id c) in
  if active client then
    pkt ← easy_pkt S_PKT_TYPE_RPC_BACK_ (fmd_size md) (fmd_fields md);
    Some [RpcRet client (mc_req_id c) pkt]
  else Some [].

(** a table slot holds a pointer and is read as the object itself *)
Definition icheck_can_create st (from_mserv_id : Z) fname : bool :=
  match tbl_get (file_creating st) fname with
  | None =>
      match tbl_get (file_meta_metadata st) fname with
      | Some _ => if negb (slot_flags fname =? S_FILE_MMD_FLAG_DELETED) then false else true
      | None => true
      end
  | Some _ => if from_mserv_id <? core_id then true else false
  end.

(** the first loop of [icreate_fmmd]: the other server is the one with the least
    memory in use; on this server itself it would not move on ([None]) *)
Fixpoint select_mservs (l : list (Z * Z)) (nmserv min_mem mserv_id : Z) : option (Z * Z) :=
  match l with
  | [] => Some (nmserv, mserv_id)
  | (id, mem) :: l =>
      if id =? core_id then None
      else if (min_mem =? 0) || (mem <? min_mem) then select_mservs l (nmserv + 1) mem id
      else select_mservs l nmserv min_mem mserv_id
  end.

Definition new_file_id st : Z :=
  Z.lor (if negb (sint (Z.shiftl core_id 16) =? 0) && true then 1 else 0) (Z.land (core_file_id st) 65535).

Definition icreate_fmmd st c : option (state * s_file_meta_meta_data * list effect) :=
  '(nmserv, mserv_id) ← select_mservs (servs S_SERV_TYPE_M) 1 0 (-1);
  '(st, fdesc) ←
    match tbl_get (file_meta_metadata st) (mc_fname c) with
    | Some mmd =>
        if negb (mm_flags mmd =? S_FILE_MMD_FLAG_DELETED) then None
        else Some (st, FDesc (file_id (mm_fdesc mmd)) (uint (file_version (mm_fdesc mmd) + 1)))
    | None => Some (set_file_id st (ushort (core_file_id st + 1)), FDesc (new_file_id st) 1)
    end;
  let mservs := ushort core_id :: (if 1 <? nmserv then [ushort mserv_id] else []) in
  let mmd := FMMD (mc_fname c) fdesc junk nmserv
               (mservs ++ replicate (Z.to_nat nmserv - length mservs) (ushort junk)) in
  let st := set_mmd st (tbl_put (file_meta_metadata st) (mc_fname c) mmd) in
  pkt ← easy_pkt S_PKT_TYPE_CREATE_META_META_DATA (fmmd_size mmd) (fmmd_fields mmd);
  Some (st, mmd, (λ s, Send (Serv S_SERV_TYPE_M s.1) pkt) <$> servs S_SERV_TYPE_M).

(** the loop of [icreate_fmd]: the two data servers with the least memory in
    use, 0 being "none yet" *)
Fixpoint select_dservs (l : list (Z * Z)) (ndserv d0 m0 d1 m1 : Z) : Z * Z * Z :=
  match l with
  | [] => (ndserv, d0, d1)
  | (id, mem) :: l =>
      if m0 =? 0 then select_dservs l (ndserv + 1) id mem d1 m1
      else if (m1 =? 0) || (mem <? m1) then
        if mem <? m0 then select_dservs l (ndserv + 1) id mem d0 m0
        else select_dservs l (ndserv + 1) d0 m0 id mem
      else select_dservs l ndserv d0 m0 d1 m1
  end.

Definition MAX_D : Z := 2.

(** [blocks[i].locate = ...] for every [i < nblocks] *)
Definition fill_blocks (nblocks d0 d1 : Z) : option (list (Z * Z)) :=
  match s_file_meta_data_create nblocks with
  | Ok cap =>
      if (0 <? nblocks) && (cap <? md_head + sizeof_locate * nblocks) then None
      else Some (replicate (Z.to_nat nblocks) (ushort d0, ushort d1))
  | _ => None
  end.

(** the servers that get the meta data, in the order of the calls *)
Definition md_targets (mmd : s_file_meta_meta_data) (ndserv d0 d1 : Z) : list serv_id :=
  filter (λ s, active s = true ∧ sv_id s ≠ core_id)
    (Serv S_SERV_TYPE_M <$> take (Z.to_nat (mm_nmserv mmd)) (mm_mservs mmd)) ++
  filter (λ s, active s = true) (Serv S_SERV_TYPE_D <$> take (Z.to_nat ndserv) [d0; d1]).

Definition icreate_fmd st (mmd : s_file_meta_meta_data) c : option (state * s_core_mcreating * list effect) :=
  let '(ndserv, d0, d1) := select_dservs (servs S_SERV_TYPE_D) 0 0 0 0 0 in
  let ndserv := s_min ndserv MAX_D in
  let nblocks := s_core_fsize_to_block_num ub_shl (mc_size c) in
  blocks ← fill_blocks nblocks d0 d1;
  let fmd := FMD (mm_fname mmd) (mm_fdesc mmd) (mc_size c) nblocks blocks in
  let st := set_metadata st (tbl_put (file_metadata st) (mm_fname mmd) fmd) in
  pkt ← easy_pkt S_PKT_TYPE_CREATE_METADATA (fmd_size fmd) (fmd_fields fmd);
  let targets := md_targets mmd ndserv d0 d1 in
  Some (st, with_ncheck c (mc_ncheck c + Z.of_nat (length targets)),
        (λ s, RpcCall s pkt (SendMdBack (mc_fname c)) 3000) <$> targets).

(** [creating] points into the table: what is written through it is there *)
Definition icreate st c : option (state * list effect) :=
  let c := with_ncheck c 0 in
  '(st, mmd, effs1) ← icreate_fmmd st c;
  '(st, c, effs2) ← icreate_fmd st mmd c;
  Some (set_creating st (tbl_put (file_creating st) (mc_fname c) c), effs1 ++ effs2).

Definition s_core_mserv_create st (client : serv_id) (pkt : s_packet) : option (state * list effect) :=
  let req_id := s_packet_get_req pkt in
  match (
    '(fname, pkt) ← read_string pkt;
    '(low, pkt) ← read_uint pkt;
    '(high, pkt) ← read_uint pkt;
    Some (fname, FSize low high))
  with
  | None => Some (st, [])
  | Some (fname, size) =>
      if negb (icheck_can_create st core_id fname) then
        Some (st, icreate_fail_to_client req_id (sv_id client))
      else
        let asked := filter (λ s, s.1 ≠ core_id) (servs S_SERV_TYPE_M) in
        let c := MCreating fname size (sv_id client) req_id (Z.of_nat (length asked)) in
        let st := set_creating st (tbl_put (file_creating st) fname c) in
        pkt_ask ← easy_pkt S_PKT_TYPE_CREATE_CHECK_AUTH (s_packet_size_for_string fname) [Fstring fname];
        let effs := (λ s, RpcCall (Serv S_SERV_TYPE_M s.1) pkt_ask (CheckAuthBack fname) 3000) <$> asked in
        if mc_ncheck c =? 0 then
          '(st, effs') ← icreate st c; Some (st, effs ++ effs')
        else Some (st, effs)
  end.

(** [pkt] is [None] when the call timed out or the connection broke *)
Definition irpc_check_auth_back st fname (pkt : option s_packet) : option (state * list effect) :=
  match tbl_get (file_creating st) fname with
  | None => Some (st, [])
  | Some c =>
      let agreed :=
        match pkt with
        | Some pkt => match read_int pkt with Some (ret, _) => negb (ret <=? 0) | None => false end
        | None => true
        end in
      if agreed then
        let c := with_ncheck c (mc_ncheck c - 1) in
        let st := set_creating st (tbl_put (file_creating st) fname c) in
        if mc_ncheck c =? 0 then icreate st c else Some (st, [])
      else
        Some (set_creating st (tbl_del (file_creating st) fname),
              icreate_fail_to_client (mc_req_id c) (mc_client_id c))
  end.

Definition irpc_send_md_back st fname (pkt : option s_packet) : option (state * list effect) :=
  match tbl_get (file_creating st) fname with
  | None => Some (st, [])
  | Some c =>
      match tbl_get (file_metadata st) fname with
      | None =>
          Some (set_creating st (tbl_del (file_creating st) fname),
                icreate_fail_to_client (mc_req_id c) (mc_client_id c))
      | Some md =>
          let c := with_ncheck c (mc_ncheck c - 1) in
          if mc_ncheck c =? 0 then
            effs ← icreate_suc_to_client c md;
            Some (set_creating st (tbl_del (file_creating st) fname), effs)
          else Some (set_creating st (tbl_put (file_creating st) fname c), [])
      end
  end.

Definition s_core_mserv_create_check_auth st (serv : serv_id) (pkt : s_packet) : list effect :=
  let ret :=
    match read_string pkt with
    | None => 0
    | Some (fname, _) => if icheck_can_create st (sv_id serv) fname then 1 else 0
    end in
  [RpcRet serv (s_packet_get_req pkt) (OMsg S_PKT_TYPE_RPC_BACK_ [Fint ret])].

Definition s_core_mserv_create_metadata st (serv : serv_id) (pkt : s_packet) : option (state * list effect) :=
  let answer ret := [RpcRet serv (s_packet_get_req pkt) (OMsg S_PKT_TYPE_RPC_BACK_ [Fint ret])] in
  match s_core_pkt_to_fmd pkt with
  | Crash => None
  | Fail => Some (st, answer 0)
  | Ok fmd => Some (set_metadata st (tbl_put (file_metadata st) (md_fname fmd) fmd), answer 1)
  end.

Definition s_core_mserv_create_meta_meta_data st (serv : serv_id) (pkt : s_packet) : option state :=
  match s_core_pkt_to_fmmd junk pkt with
  | Crash => None
  | Fail => Some st
  | Ok fmmd => Some (set_mmd st (tbl_put (file_meta_metadata st) (mm_fname fmmd) fmmd))
  end.
End mserv.

(** ** [s_core_create_dserv.c] *)
Definition s_core_dserv_create_metadata (serv : serv_id) (pkt : s_packet) : option (list effect) :=
  let answer ret := [RpcRet serv (s_packet_get_req pkt) (OMsg S_PKT_TYPE_RPC_BACK_ [Fint ret])] in
  match s_core_pkt_to_fmd pkt with
  | Crash => None
  | Fail => Some (answer 0)
  | Ok _ => Some (answer 1)
  end.

(** ** [s_core_create_client.c] *)
Section client.
Context (junk : Z).

Inductive S_E_CORE_ERR := S_CORE_ERR_NOERR | S_CORE_ERR_BAD_PARAM | S_CORE_ERR_INTERNAL.

(** what the caller gives: a name and a callback, perhaps, and a size *)
Record create_request := CreateRequest {
  cr_fname : option (list Z);
  cr_size : s_file_size;
  cr_callback : bool
}.

(** [None] is the return value 0, the calls of [s_servg_rpc_call] are the
    effects; [param_saved] is the object that the pool gives *)
Definition s_core_create_file (g : pool) (min_delay_serv : option serv_id) (param : create_request) (param_saved : nat)
    : option S_E_CORE_ERR * list effect * pool :=
  match min_delay_serv with
  | None => (Some S_CORE_ERR_INTERNAL, [], g)
  | Some mserv =>
      match cr_fname param with
      | None => (Some S_CORE_ERR_BAD_PARAM, [], g)
      | Some fname =>
          if negb (cr_callback param) then (Some S_CORE_ERR_BAD_PARAM, [], g)
          else
            match s_core_pkt_from_mdp junk g (MDP fname (cr_size param)) with
            | (None, g) => (Some S_CORE_ERR_INTERNAL, [], g)
            | (Some pkt, g) =>
                (None, [RpcCall mserv (OPkt S_PKT_TYPE_CREATE pkt) (CreateBack param_saved) (-1)], g)
            end
      end
  end.

(** [param->error] when the callback is called; a packet without an integer
    leaves [result] uninitialised, which changes the message only *)
Definition s_core_client_create_back (pkt : option s_packet) : S_E_CORE_ERR :=
  match pkt with
  | None => S_CORE_ERR_INTERNAL
  | Some pkt =>
      match read_int pkt with
      | None => S_CORE_ERR_INTERNAL
      | Some (result, _) => if result <=? 0 then S_CORE_ERR_INTERNAL else S_CORE_ERR_NOERR
      end
  end.
End client.

(** ** The protocol at one meta server *)
Section protocol.
Context {TC TF TM : Type}.
Context `{HTC : !Table (list Z) s_core_mcreating TC, HTF : !Table (list Z) s_file_meta_data TF,
          HTM : !Table (list Z) s_file_meta_meta_data TM,
          HLC : !TableLaws (list Z) s_core_mcreating TC, HLF : !TableLaws (list Z) s_file_meta_data TF,
          HLM : !TableLaws (list Z) s_file_meta_meta_data TM}.
Local Abbreviation state := (mfiles TC TF TM).
Context (core_id : Z).
Implicit Types (st : state) (c : s_core_mcreating) (f : list Z) (out : list rpc_cb).

(** what may change from one packet to the next *)
Record env := Env {
  e_active : serv_id → bool;
  e_servs : Z → list (Z * Z);
  e_junk : Z;
  e_slot_flags : list Z → Z;
  e_ub_shl : Z → Z → Z
}.

Definition create_h (e : env) st := s_core_mserv_create core_id (e_active e) (e_servs e) (e_junk e) (e_slot_flags e) (e_ub_shl e) st.
Definition run_cb (e : env) st (cb : rpc_cb) (pkt : option s_packet) : option (state * list effect) :=
  match cb with
  | CheckAuthBack f => irpc_check_auth_back core_id (e_active e) (e_servs e) (e_junk e) (e_ub_shl e) st f pkt
  | SendMdBack f => irpc_send_md_back (e_active e) st f pkt
  | CreateBack _ => None
  end.

Definition cb_name (cb : rpc_cb) : option (list Z) :=
  match cb with CheckAuthBack f | SendMdBack f => Some f | CreateBack _ => None end.
(** the calls that wait for their callback *)
Definition calls (effs : list effect) : list rpc_cb :=
  omap (λ ef, match ef with RpcCall _ _ cb _ => Some cb | _ => None end) effs.
Definition replies (effs : list effect) : list (serv_id * Z * out_pkt) :=
  omap (λ ef, match ef with RpcRet to req o => Some (to, req, o) | _ => None end) effs.
Definition pending f out : nat := length (filter (λ cb, cb_name cb = Some f) out).

Definition cmap st : gmap (list Z) s_core_mcreating := tbl_map (file_creating st).
Definition fmap_ st : gmap (list Z) s_file_meta_data := tbl_map (file_metadata st).

(** a server handles a request, or one of its calls comes to its end, with an
    answer or without.  The client of a name waits for the calls of an earlier
    attempt to come back before it tries again. *)
Inductive cstep : state * list rpc_cb → state * list rpc_cb → Prop :=
| cs_create e st out client pkt st' effs :
    (∀ f p, read_string pkt = Some (f, p) → pending f out = 0%nat) →
    create_h e st client pkt = Some (st', effs) → cstep (st, out) (st', out ++ calls effs)
| cs_back e st out1 cb out2 pkt st' effs :
    run_cb e st cb pkt = Some (st', effs) → cstep (st, out1 ++ cb :: out2) (st', out1 ++ out2 ++ calls effs)
| cs_metadata st out serv pkt st' effs :
    s_core_mserv_create_metadata st serv pkt = Some (st', effs) → cstep (st, out) (st', out)
| cs_mmd junk st out serv pkt st' :
    s_core_mserv_create_meta_meta_data junk st serv pkt = Some st' → cstep (st, out) (st', out).

Record cinv st out : Prop := {
  ci_wfc : tbl_wf (file_creating st);
  ci_wff : tbl_wf (file_metadata st);
  ci_wfm : tbl_wf (file_meta_metadata st);
  ci_name f c : cmap st !! f = Some c → mc_fname c = f;
  ci_count f c : cmap st !! f = Some c → mc_ncheck c = Z.of_nat (pending f out);
  (* all answers that are missing are of one kind *)
  ci_phase f c : cmap st !! f = Some c →
    (∀ cb, cb ∈ out → cb_name cb = Some f → cb = CheckAuthBack f) ∨
    ((∀ cb, cb ∈ out → cb_name cb = Some f → cb = SendMdBack f) ∧ is_Some (fmap_ st !! f));
  (* after a refusal only consents are missing *)
  ci_late f cb : cmap st !! f = None → cb ∈ out → cb_name cb = Some f → cb = CheckAuthBack f
}.

Lemma pending_app f out1 out2 : pending f (out1 ++ out2) = (pending f out1 + pending f out2)%nat.
Proof using Type. unfold pending. by rewrite filter_app, length_app. Qed.
Lemma pending_cons f cb out : pending f (cb :: out) = ((if decide (cb_name cb = Some f) then 1 else 0) + pending f out)%nat.
Proof using Type. unfold pending. rewrite filter_cons. by case_decide. Qed.
Lemma pending_all f cb l : cb_name cb = Some f → Forall (.= cb) l → pending f l = length l.
Proof using Type.
  intros Hn. induction 1 as [|x l -> _ IH]; [done|]. rewrite pending_cons, decide_True by done. simpl. lia.
Qed.
Lemma pending_other f cb l : cb_name cb ≠ Some f → Forall (.= cb) l → pending f l = 0%nat.
Proof using Type.
  intros Hn. induction 1 as [|x l -> _ IH]; [done|]. by rewrite pending_cons, decide_False.
Qed.
Lemma pending_0 f out cb : pending f out = 0%nat → cb ∈ out → cb_name cb ≠ Some f.
Proof using Type.
  intros Hp Hin Hn. unfold pending in Hp. apply nil_length_inv in Hp.
  assert (cb ∈ filter (λ cb, cb_name cb = Some f) out) as H by by apply list_elem_of_filter.
  rewrite Hp in H. by apply elem_of_nil in H.
Qed.

(** ** What the parts do *)
Lemma calls_send (l : list (Z * Z)) pkt : calls ((λ s, Send (Serv S_SERV_TYPE_M s.1) pkt) <$> l) = [].
Proof using Type. unfold calls. by induction l. Qed.
Lemma replies_send (l : list (Z * Z)) pkt : replies ((λ s, Send (Serv S_SERV_TYPE_M s.1) pkt) <$> l) = [].
Proof using Type. unfold replies. by induction l. Qed.
Lemma calls_rpc {A} (to : A → serv_id) pkt cb ms (l : list A) :
  calls ((λ s, RpcCall (to s) pkt cb ms) <$> l) = replicate (length l) cb.
Proof using Type. unfold calls. induction l as [|x l IH]; [done|]. cbn. by f_equal. Qed.
Lemma replies_rpc {A} (to : A → serv_id) pkt cb ms (l : list A) :
  replies ((λ s, RpcCall (to s) pkt cb ms) <$> l) = [].
Proof using Type. unfold replies. by induction l. Qed.
Lemma calls_app l1 l2 : calls (l1 ++ l2) = calls l1 ++ calls l2.
Proof using Type. unfold calls. by rewrite omap_app. Qed.
Lemma replies_app l1 l2 : replies (l1 ++ l2) = replies l1 ++ replies l2.
Proof using Type. unfold replies. by rewrite omap_app. Qed.
Lemma calls_fail active req cl : calls (icreate_fail_to_client active req cl) = [].
Proof using Type. unfold icreate_fail_to_client. by case_match. Qed.
Lemma replies_fail active req cl :
  replies (icreate_fail_to_client active req cl) =
    if active (Serv S_SERV_TYPE_C cl) then [(Serv S_SERV_TYPE_C cl, req, OMsg S_PKT_TYPE_RPC_BACK_ [Fint 0])] else [].
Proof using Type. unfold icreate_fail_to_client. by case_match. Qed.

Definition wf3 st : Prop :=
  tbl_wf (file_creating st) ∧ tbl_wf (file_metadata st) ∧ tbl_wf (file_meta_metadata st).

(** [icreate]: the meta data is there, and one call is out for each server that
    is to keep it *)
Record made st f c st' (effs : list effect) : Prop := {
  ma_wf : wf3 st';
  ma_calls : ∃ n, calls effs = replicate n (SendMdBack f) ∧ cmap st' = <[f := with_ncheck c (Z.of_nat n)]> (cmap st);
  ma_md : is_Some (fmap_ st' !! f);
  ma_mds g : is_Some (fmap_ st !! g) → is_Some (fmap_ st' !! g);
  ma_replies : replies effs = []
}.

Lemma icreate_fmmd_spec e st c st' mmd effs :
  wf3 st → icreate_fmmd core_id (e_servs e) (e_junk e) st c = Some (st', mmd, effs) →
  wf3 st' ∧ file_creating st' = file_creating st ∧ file_metadata st' = file_metadata st ∧
  mm_fname mmd = mc_fname c ∧ calls effs = [] ∧ replies effs = [].
Proof using HLM.
  intros (H1 & H2 & H3) E. unfold icreate_fmmd in E.
  destruct (select_mservs _ _ _ _ _) as [[nmserv mserv_id]|]; [|done]. cbn [mbind option_bind] in E.
  match type of E with (?x ≫= _) = _ => destruct x as [[st1 fdesc]|] eqn:E1; [|done] end. cbn [mbind option_bind] in E.
  assert (wf3 st1 ∧ file_creating st1 = file_creating st ∧ file_metadata st1 = file_metadata st) as (Hw & Ec & Ef).
  { destruct (tbl_get (file_meta_metadata st) (mc_fname c)) as [old|]; [|by simplify_eq].
    destruct (negb _); [done|]. by simplify_eq. }
  destruct (easy_pkt _ _ _) as [pkt|]; [|done]. cbn [mbind option_bind] in E. simplify_eq.
  destruct Hw as (W1 & W2 & W3). split; [split; [exact W1|split; [exact W2|by apply tbl_put_ok]]|].
  split_and!; try done; [by apply calls_send|by apply replies_send].
Qed.

Lemma icreate_spec e st c st' effs :
  wf3 st → icreate core_id (e_active e) (e_servs e) (e_junk e) (e_ub_shl e) st c = Some (st', effs) →
  made st (mc_fname c) c st' effs.
Proof using HLM HLF HLC.
  intros Hwf E. unfold icreate in E.
  destruct (icreate_fmmd _ _ _ _ _) as [[[st1 mmd] effs1]|] eqn:E1; [|done]. cbn [mbind option_bind] in E.
  destruct (icreate_fmd _ _ _ _ _ _ _) as [[[st2 c2] effs2]|] eqn:E2; [|done]. cbn [mbind option_bind] in E. simplify_eq.
  destruct (icreate_fmmd_spec e _ _ _ _ _ Hwf E1) as ((W1 & W2 & W3) & Ec & Ef & Hn & Hc1 & Hr1).
  unfold icreate_fmd in E2. destruct (select_dservs _ _ _ _ _ _) as [[nd d0] d1].
  destruct (fill_blocks _ _ _) as [blocks|]; [|done]. cbn [mbind option_bind] in E2.
  destruct (easy_pkt _ _ _) as [pkt|]; [|done]. cbn [mbind option_bind] in E2. simplify_eq.
  set (fmd := FMD _ _ _ _ _). set (targets := md_targets _ _ _ _ _ _).
  destruct (tbl_put_ok (file_metadata st1) (mm_fname mmd) fmd W2) as [W2' Em].
  destruct (tbl_put_ok (file_creating st1) (mc_fname c) (with_ncheck c (Z.of_nat (length targets))) W1) as [W1' Ecm].
  split.
  - split; [exact W1'|]. split; [exact W2'|exact W3].
  - exists (length targets). rewrite calls_app, Hc1, (calls_rpc (λ s, s)). split; [done|].
    unfold cmap. rewrite <-Ec, <-Ecm. reflexivity.
  - change (is_Some (tbl_map (tbl_put (file_metadata st1) (mm_fname mmd) fmd) !! mc_fname c)).
    rewrite Em, Hn, lookup_insert_eq. by eexists.
  - intros g Hg. change (is_Some (tbl_map (tbl_put (file_metadata st1) (mm_fname mmd) fmd) !! g)).
    rewrite Em, Ef, lookup_insert_is_Some'. by right.
  - by rewrite replies_app, Hr1, (replies_rpc (λ s, s)).
Qed.

Lemma cinv_wf3 st out : cinv st out → wf3 st.
Proof using Type. by intros []. Qed.

(** a table entry changes while no call for it is out but those counted *)
Lemma cinv_made st f c st' effs out :
  cinv st out → mc_fname c = f → pending f out = 0%nat → made st f c st' effs → cinv st' (out ++ calls effs).
Proof using HLC.
  intros [] Hf Hp [(W1 & W2 & W3) (n & -> & Em) Hmd Hmds _].
  assert (∀ g cb, cb ∈ out ++ replicate n (SendMdBack f) → cb_name cb = Some g →
    (g ≠ f ∧ cb ∈ out) ∨ (g = f ∧ cb = SendMdBack f)) as Hin.
  { intros g cb [Hcb|Hcb]%elem_of_app Hg.
    - left. split; [|done]. intros ->. by apply (pending_0 f out cb).
    - apply elem_of_replicate in Hcb as [-> _]. right. cbn in Hg. by simplify_eq. }
  assert (∀ g, g ≠ f → pending g (out ++ replicate n (SendMdBack f)) = pending g out) as Hpo.
  { intros g Hg. rewrite pending_app, (pending_other g (SendMdBack f) (replicate _ _)); [lia|by intros [= ->]|by apply Forall_replicate]. }
  split; try done; rewrite ?Em.
  - intros g c'. rewrite lookup_insert. case_decide; [intros [= <-]; by subst|by apply ci_name0].
  - intros g c'. rewrite lookup_insert. case_decide as Hd.
    + intros [= <-]. subst g. rewrite pending_app, Hp, (pending_all f (SendMdBack f) (replicate _ _)), length_replicate; [done..|by apply Forall_replicate].
    + intros Hg. rewrite Hpo by done. by apply ci_count0.
  - intros g c'. rewrite lookup_insert. case_decide as Hd.
    + intros [= <-]. right. split; [|by subst]. intros cb Hcb Hn. by destruct (Hin g cb Hcb Hn) as [[? _]|[-> ?]].
    + intros Hg. destruct (ci_phase0 g c' Hg) as [H1|[H1 H2]]; [left|right; split; [|by apply Hmds]];
        intros cb Hcb Hn; destruct (Hin g cb Hcb Hn) as [[_ ?]|[? _]]; by auto.
  - intros g cb. rewrite lookup_insert. case_decide as Hd; [done|]. intros Hg Hcb Hn.
    destruct (Hin g cb Hcb Hn) as [[_ ?]|[-> _]]; [by apply ci_late0|done].
Qed.

(** ** The steps keep the invariant *)
Lemma cmap_put st f c : tbl_wf (file_creating st) →
  tbl_wf (tbl_put (file_creating st) f c) ∧ cmap (set_creating st (tbl_put (file_creating st) f c)) = <[f := c]> (cmap st).
Proof using HLC. apply tbl_put_ok. Qed.
Lemma cmap_del st f : tbl_wf (file_creating st) →
  tbl_wf (tbl_del (file_creating st) f) ∧ cmap (set_creating st (tbl_del (file_creating st) f)) = delete f (cmap st).
Proof using HLC. apply tbl_del_ok. Qed.

Lemma pending_mid g out1 cb out2 :
  pending g (out1 ++ cb :: out2) = ((if decide (cb_name cb = Some g) then 1 else 0) + pending g (out1 ++ out2))%nat.
Proof using Type. rewrite !pending_app, pending_cons. lia. Qed.
Lemma elem_of_mid (cb cb' : rpc_cb) out1 out2 : cb' ∈ out1 ++ out2 → cb' ∈ out1 ++ cb :: out2.
Proof using Type. rewrite !elem_of_app, elem_of_cons. tauto. Qed.

Lemma cinv_update st f c out1 cb out2 :
  cinv st (out1 ++ cb :: out2) → cmap st !! f = Some c → cb_name cb = Some f →
  cinv (set_creating st (tbl_put (file_creating st) f (with_ncheck c (mc_ncheck c - 1)))) (out1 ++ out2).
Proof using HLC.
  intros [] Hc Hn. destruct (cmap_put st f (with_ncheck c (mc_ncheck c - 1)) ci_wfc0) as [W Em].
  split; rewrite ?Em; try done.
  - intros g c'. rewrite lookup_insert. case_decide; [intros [= <-]; subst g; by apply (ci_name0 f c)|apply ci_name0].
  - intros g c'. rewrite lookup_insert. case_decide as Hd.
    + intros [= <-]. subst g. specialize (ci_count0 f c Hc). rewrite pending_mid, decide_True in ci_count0 by done. cbn. lia.
    + intros Hg. specialize (ci_count0 g c' Hg). rewrite pending_mid, decide_False in ci_count0 by congruence. done.
  - intros g c' Hg. assert (∃ c0, cmap st !! g = Some c0) as [c0 H0].
    { rewrite lookup_insert in Hg. case_decide; [subst; by eexists|by eexists]. }
    destruct (ci_phase0 g c0 H0) as [H1|[H1 H2]]; [left|right; split; [|done]];
      intros cb' Hcb; apply H1; by apply elem_of_mid.
  - intros g cb'. rewrite lookup_insert. case_decide; [done|]. intros Hg Hcb. apply ci_late0; [done|by apply elem_of_mid].
Qed.

Lemma cinv_remove st f out1 cb out2 :
  cinv st (out1 ++ cb :: out2) → cb_name cb = Some f →
  (∀ cb', cb' ∈ out1 ++ out2 → cb_name cb' = Some f → cb' = CheckAuthBack f) →
  cinv (set_creating st (tbl_del (file_creating st) f)) (out1 ++ out2).
Proof using HLC.
  intros [] Hn Hl. destruct (cmap_del st f ci_wfc0) as [W Em].
  split; rewrite ?Em; try done; intros g; rewrite lookup_delete; case_decide as Hd; try done.
  - apply ci_name0.
  - intros c' Hg. specialize (ci_count0 g c' Hg). rewrite pending_mid, decide_False in ci_count0 by congruence. done.
  - intros c' Hg. destruct (ci_phase0 g c' Hg) as [H1|[H1 H2]]; [left|right; split; [|done]];
      intros cb' Hcb; apply H1; by apply elem_of_mid.
  - subst g. intros cb' _. apply Hl.
  - intros cb' Hg Hcb. apply ci_late0; [done|by apply elem_of_mid].
Qed.

(** a call that came too late *)
Lemma cinv_drop st f out1 cb out2 :
  cinv st (out1 ++ cb :: out2) → cb_name cb = Some f → cmap st !! f = None → cinv st (out1 ++ out2).
Proof using HLC.
  intros [] Hn Hc. split; try done.
  - intros g c' Hg. specialize (ci_count0 g c' Hg). rewrite pending_mid, decide_False in ci_count0 by congruence. done.
  - intros g c' Hg. destruct (ci_phase0 g c' Hg) as [H1|[H1 H2]]; [left|right; split; [|done]];
      intros cb' Hcb; apply H1; by apply elem_of_mid.
  - intros g cb' Hg Hcb. apply ci_late0; [done|by apply elem_of_mid].
Qed.

Lemma cinv_new st c n out :
  cinv st out → pending (mc_fname c) out = 0%nat → mc_ncheck c = Z.of_nat n →
  cinv (set_creating st (tbl_put (file_creating st) (mc_fname c) c)) (out ++ replicate n (CheckAuthBack (mc_fname c))).
Proof using HLC.
  intros [] Hp Hnc. set (f := mc_fname c) in *. destruct (cmap_put st f c ci_wfc0) as [W Em].
  assert (∀ g cb, cb ∈ out ++ replicate n (CheckAuthBack f) → cb_name cb = Some g →
    (g ≠ f ∧ cb ∈ out) ∨ (g = f ∧ cb = CheckAuthBack f)) as Hin.
  { intros g cb [Hcb|Hcb]%elem_of_app Hg.
    - left. split; [|done]. intros ->. by apply (pending_0 f out cb).
    - apply elem_of_replicate in Hcb as [-> _]. right. cbn in Hg. by simplify_eq. }
  split; rewrite ?Em; try done.
  - intros g c'. rewrite lookup_insert. case_decide; [by intros [= <-]|apply ci_name0].
  - intros g c'. rewrite lookup_insert, pending_app. case_decide as Hd.
    + intros [= <-]. subst g. rewrite Hp, (pending_all f (CheckAuthBack f) (replicate _ _)), length_replicate; [done..|by apply Forall_replicate].
    + intros Hg. rewrite (pending_other g (CheckAuthBack f) (replicate _ _)); [|by intros [= ->]|by apply Forall_replicate].
      rewrite Nat.add_0_r. by apply ci_count0.
  - intros g c'. rewrite lookup_insert. case_decide as Hd.
    + intros _. left. intros cb Hcb Hn. subst g. by destruct (Hin f cb Hcb Hn) as [[? _]|[_ ?]].
    + intros Hg. destruct (ci_phase0 g c' Hg) as [H1|[H1 H2]]; [left|right; split; [|done]];
        intros cb Hcb Hn; destruct (Hin g cb Hcb Hn) as [[_ ?]|[? _]]; by auto.
  - intros g cb. rewrite lookup_insert. case_decide as Hd; [done|]. intros Hg Hcb Hn.
    destruct (Hin g cb Hcb Hn) as [[_ ?]|[-> _]]; [by apply ci_late0|done].
Qed.

Lemma create_h_inv e st out client pkt st' effs :
  cinv st out → (∀ f p, read_string pkt = Some (f, p) → pending f out = 0%nat) →
  create_h e st client pkt = Some (st', effs) → cinv st' (out ++ calls effs).
Proof using HLC HLF HLM.
  intros Hi Hp E. unfold create_h, s_core_mserv_create in E.
  destruct (read_string pkt) as [[f p]|] eqn:Ef; cbn [mbind option_bind] in E; [|simplify_eq; by rewrite app_nil_r].
  specialize (Hp f p eq_refl).
  destruct (read_uint p) as [[low p1]|]; cbn [mbind option_bind] in E; [|simplify_eq; by rewrite app_nil_r].
  destruct (read_uint p1) as [[high p2]|]; cbn [mbind option_bind] in E; [|simplify_eq; by rewrite app_nil_r].
  destruct (icheck_can_create _ _ _ _ _); cbn [negb] in E; [|simplify_eq; by rewrite calls_fail, app_nil_r].
  set (asked := filter _ _) in E. set (c := MCreating f _ _ _ _) in E.
  destruct (easy_pkt _ _ _) as [ask|]; [|done]. cbn [mbind option_bind] in E.
  pose proof (cinv_new st c (length asked) out Hi Hp eq_refl) as Hi1. cbn [mc_fname c] in Hi1.
  set (st1 := set_creating st _) in *. change (mc_ncheck c) with (Z.of_nat (length asked)) in E.
  destruct (_ =? 0) eqn:E0; zbool.
  - destruct (icreate _ _ _ _ _ _ _) as [[st2 effs2]|] eqn:E2; [|done]. cbn [mbind option_bind] in E. simplify_eq.
    assert (asked = []) as Hnil by (apply nil_length_inv; lia). rewrite Hnil in Hi1 |- *. cbn in Hi1. rewrite app_nil_r in Hi1.
    apply icreate_spec in E2; [|by eapply cinv_wf3]. by apply (cinv_made st1 f c).
  - simplify_eq. by rewrite (calls_rpc (λ s, Serv S_SERV_TYPE_M s.1)).
Qed.

Lemma run_cb_inv e st out1 cb out2 pkt st' effs :
  cinv st (out1 ++ cb :: out2) → run_cb e st cb pkt = Some (st', effs) → cinv st' (out1 ++ out2 ++ calls effs).
Proof using HLC HLF HLM.
  intros Hi E. assert (cb ∈ out1 ++ cb :: out2) as Hcb by (rewrite elem_of_app, elem_of_cons; tauto).
  rewrite app_assoc. destruct cb as [f|f|]; cbn [run_cb] in E; [| |done].
  - unfold irpc_check_auth_back in E. rewrite tbl_get_ok in E by apply Hi. fold (cmap st) in E.
    destruct (cmap st !! f) as [c|] eqn:Hc; [|simplify_eq; rewrite app_nil_r; by eapply cinv_drop].
    assert (∀ cb, cb ∈ out1 ++ out2 → cb_name cb = Some f → cb = CheckAuthBack f) as Hph.
    { intros cb' Hcb' Hn. destruct (ci_phase _ _ Hi f c Hc) as [H1|[H1 _]]; [apply H1; [by apply elem_of_mid|done]|].
      by specialize (H1 (CheckAuthBack f) Hcb eq_refl). }
    match type of E with (if ?b then _ else _) = _ => destruct b end.
    + pose proof (cinv_update st f c out1 _ out2 Hi Hc eq_refl) as Hi1.
      set (c' := with_ncheck c (mc_ncheck c - 1)) in *. set (st1 := set_creating st _) in *.
      destruct (mc_ncheck c' =? 0) eqn:E0; [|simplify_eq; by rewrite app_nil_r]. zbool.
      apply icreate_spec in E; [|by eapply cinv_wf3]. assert (mc_fname c' = f) as Ef by apply (ci_name _ _ Hi f c Hc).
      rewrite Ef in E. apply (cinv_made st1 f c'); try done.
      assert (cmap st1 !! f = Some c') as H1.
      { unfold st1. rewrite (proj2 (cmap_put st f c' (ci_wfc _ _ Hi))). by rewrite lookup_insert_eq. }
      pose proof (ci_count _ _ Hi1 f c' H1). lia.
    + simplify_eq. rewrite calls_fail, app_nil_r. by eapply cinv_remove.
  - unfold irpc_send_md_back in E. rewrite tbl_get_ok in E by apply Hi. fold (cmap st) in E.
    destruct (cmap st !! f) as [c|] eqn:Hc; [|simplify_eq; rewrite app_nil_r; by eapply cinv_drop].
    destruct (ci_phase _ _ Hi f c Hc) as [H1|[H1 H2]]; [by specialize (H1 (SendMdBack f) Hcb eq_refl)|].
    rewrite tbl_get_ok in E by apply Hi. fold (fmap_ st) in E. destruct H2 as [md Hmd]. rewrite Hmd in E.
    pose proof (ci_count _ _ Hi f c Hc) as Hcnt. rewrite pending_mid, decide_True in Hcnt by done.
    cbn [mc_ncheck with_ncheck] in E. destruct (_ =? 0) eqn:E0; zbool.
    + destruct (icreate_suc_to_client _ _ _) as [effs1|] eqn:Es; [|done]. cbn [mbind option_bind] in E. simplify_eq.
      assert (calls effs = []) as ->.
      { unfold icreate_suc_to_client in Es. destruct (e_active _ _); [|by simplify_eq].
        destruct (easy_pkt _ _ _); [|done]. cbn [mbind option_bind] in Es. by simplify_eq. }
      rewrite app_nil_r. eapply cinv_remove; [done..|]. intros cb Hcb' Hn.
      exfalso. apply (pending_0 f (out1 ++ out2) cb); [lia|done..].
    + simplify_eq. rewrite app_nil_r. by eapply (cinv_update st f c out1 (SendMdBack f) out2).
Qed.

Lemma cstep_inv w w' : cstep w w' → cinv w.1 w.2 → cinv w'.1 w'.2.
Proof using HLC HLF HLM.
  intros Hs Hi. destruct Hs as [e st out client pkt st' effs Hd E|e st out1 cb out2 pkt st' effs E|st out serv pkt st' effs E|junk st out serv pkt st' E];
    cbn [fst snd] in *.
  - by eapply create_h_inv.
  - by eapply run_cb_inv.
  - unfold s_core_mserv_create_metadata in E. destruct (s_core_pkt_to_fmd pkt) as [md| |]; simplify_eq; [|done].
    destruct Hi. destruct (tbl_put_ok (file_metadata st) (md_fname md) md ci_wff0) as [W Em].
    split; try done. intros f c Hc. destruct (ci_phase0 f c Hc) as [H1|[H1 H2]]; [by left|right]. split; [done|].
    change (is_Some (tbl_map (tbl_put (file_metadata st) (md_fname md) md) !! f)). rewrite Em, lookup_insert_is_Some'. by right.
  - unfold s_core_mserv_create_meta_meta_data in E. destruct (s_core_pkt_to_fmmd junk pkt) as [mm| |]; simplify_eq; [|done].
    destruct Hi. split; try done. by apply tbl_put_ok.
Qed.

Definition files_init : state := MFiles (tbl_new 16) (tbl_new 16) (tbl_new 16) 0.

Lemma reachable_inv st out : rtc cstep (files_init, []) (st, out) → cinv st out.
Proof using HLC HLF HLM.
  intros Hr. change (cinv (st, out).1 (st, out).2). revert Hr. generalize (st, out).
  apply (rtc_ind_r (λ w, cinv w.1 w.2)).
  - destruct (tbl_new_ok (T := TC) 16) as [W1 E1], (tbl_new_ok (T := TF) 16) as [W2 _], (tbl_new_ok (T := TM) 16) as [W3 _].
    assert (∀ f, cmap files_init !! f = None) as Hn by (intros f; unfold cmap, files_init; cbn [file_creating]; by rewrite E1, lookup_empty).
    split; cbn [fst snd]; [exact W1|exact W2|exact W3|intros f c; by rewrite Hn..|by intros f cb _ ?%elem_of_nil].
  - intros w w' _. apply cstep_inv.
Qed.

(** C24. The bookkeeping of a creation is right: as long as nobody tries a name
    again before the calls of the last attempt are back ([cs_create]; else a
    late answer is counted for the new attempt, [stale_answer_counts]),
    [ncheck] is the number of answers still missing for the name, these are all
    consents or all receipts of the meta data, and in the second case the meta
    data is in the table. *)
Theorem create_protocol st out f c :
  rtc cstep (files_init, []) (st, out) → cmap st !! f = Some c →
  mc_fname c = f ∧ mc_ncheck c = Z.of_nat (pending f out) ∧
  ((∀ cb, cb ∈ out → cb_name cb = Some f → cb = CheckAuthBack f) ∨
   ((∀ cb, cb ∈ out → cb_name cb = Some f → cb = SendMdBack f) ∧ is_Some (fmap_ st !! f))).
Proof using HLC HLF HLM.
  intros Hr Hc. pose proof (reachable_inv _ _ Hr) as Hi.
  split; [by apply (ci_name _ _ Hi)|]. split; [by apply (ci_count _ _ Hi)|by apply (ci_phase _ _ Hi f c)].
Qed.

(** a refusal: no integer, or one that is not positive *)
Definition refused (pkt : option s_packet) : Prop :=
  ∃ p, pkt = Some p ∧ match read_int p with Some (ret, _) => ret <= 0 | None => True end.

(** The client is answered exactly when the creation leaves the table: after
    each callback either the creation goes on and nothing is sent to a client,
    or its client gets one reply under its request id, which is 0 after a
    refusal, and otherwise the file's meta data, the last receipt being in. *)
Theorem create_answers e st out1 cb out2 pkt st' effs f c :
  rtc cstep (files_init, []) (st, out1 ++ cb :: out2) → run_cb e st cb pkt = Some (st', effs) →
  cb_name cb = Some f → cmap st !! f = Some c → e_active e (Serv S_SERV_TYPE_C (mc_client_id c)) = true →
  match cmap st' !! f with
  | Some _ => replies effs = []
  | None =>
      (cb = CheckAuthBack f ∧ refused pkt ∧
        replies effs = [(Serv S_SERV_TYPE_C (mc_client_id c), mc_req_id c, OMsg S_PKT_TYPE_RPC_BACK_ [Fint 0])]) ∨
      (cb = SendMdBack f ∧ pending f (out1 ++ out2) = 0%nat ∧
        ∃ md, fmap_ st !! f = Some md ∧
          replies effs = [(Serv S_SERV_TYPE_C (mc_client_id c), mc_req_id c,
                           OEasy S_PKT_TYPE_RPC_BACK_ (fmd_size md) (fmd_fields md))])
  end.
Proof using HLC HLF HLM.
  intros Hr E Hn Hc Hact. apply reachable_inv in Hr as Hi.
  assert (cb ∈ out1 ++ cb :: out2) as Hcb by (rewrite elem_of_app, elem_of_cons; tauto).
  destruct cb as [g|g|]; cbn in Hn; simplify_eq; cbn [run_cb] in E.
  - unfold irpc_check_auth_back in E. rewrite tbl_get_ok in E by apply Hi. fold (cmap st) in E. rewrite Hc in E.
    match type of E with (if ?b then _ else _) = _ => destruct b eqn:Eb end.
    + destruct (cmap_put st f (with_ncheck c (mc_ncheck c - 1)) (ci_wfc _ _ Hi)) as [W Em].
      set (c' := with_ncheck c (mc_ncheck c - 1)) in *. set (st1 := set_creating st _) in *.
      destruct (mc_ncheck c' =? 0) eqn:E0.
      * apply icreate_spec in E; [|split; [exact W|split; apply Hi]].
        assert (mc_fname c' = f) as Ef by apply (ci_name _ _ Hi f c Hc). rewrite Ef in E.
        destruct E as [_ (n & _ & ->) _ _ ->]. by rewrite lookup_insert_eq.
      * simplify_eq. by rewrite Em, lookup_insert_eq.
    + simplify_eq. rewrite (proj2 (cmap_del st f (ci_wfc _ _ Hi))), lookup_delete_eq, replies_fail, Hact. left.
      split; [done|]. split; [|done]. destruct pkt as [p|]; [|done]. exists p. split; [done|].
      destruct (read_int p) as [[ret q]|]; [|done]. by zbool.
  - unfold irpc_send_md_back in E. rewrite tbl_get_ok in E by apply Hi. fold (cmap st) in E. rewrite Hc in E.
    destruct (ci_phase _ _ Hi f c Hc) as [H1|[_ [md Hmd]]]; [by specialize (H1 (SendMdBack f) Hcb eq_refl)|].
    rewrite tbl_get_ok in E by apply Hi. fold (fmap_ st) in E. rewrite Hmd in E. cbn [mc_ncheck with_ncheck] in E.
    pose proof (ci_count _ _ Hi f c Hc) as Hcnt. rewrite pending_mid, decide_True in Hcnt by done.
    destruct (_ =? 0) eqn:E0; zbool.
    + unfold icreate_suc_to_client, easy_pkt in E. cbn [mc_client_id with_ncheck mc_req_id] in E. rewrite Hact in E.
      destruct (_ <? _); [done|]. cbn [mbind option_bind] in E. simplify_eq.
      rewrite (proj2 (cmap_del st f (ci_wfc _ _ Hi))), lookup_delete_eq. right. split; [done|]. split; [lia|].
      by exists md.
    + simplify_eq. rewrite (proj2 (cmap_put st f _ (ci_wfc _ _ Hi))). by rewrite lookup_insert_eq.
Qed.
End protocol.

(** ** The protocol at work, and where it goes wrong *)
Section examples.
Local Abbreviation state :=
  (mfiles (gmap (list Z) s_core_mcreating) (gmap (list Z) s_file_meta_data) (gmap (list Z) s_file_meta_meta_data)).

(** meta servers 2 and 3, data servers 1 and 2, all active *)
Definition all_on (_ : serv_id) : bool := true.
Definition two_each (t : Z) : list (Z * Z) :=
  if t =? S_SERV_TYPE_M then [(2, 100); (3, 200)] else if t =? S_SERV_TYPE_D then [(1, 10); (2, 20)] else [].
Definition only_me (_ : Z) : list (Z * Z) := [].
Definition shl_x86 (a n : Z) : Z := Z.shiftl a (n mod 32).
Definition env_of (servs : Z → list (Z * Z)) : env := Env all_on servs 7 (λ _, 0) shl_x86.

Definition pkt_of (fn req : Z) (fs : list field) : s_packet :=
  let p := default (Packet 12 12 1 7 (replicate 256 0)) (s_packet_start_write 0 g_free_init fn fs).1 in
  with_pos (s_packet_set_req p req).2 S_PKT_DATA_POS.
Definition create_pkt (req : Z) (fname : list Z) (size : Z) : s_packet :=
  pkt_of S_PKT_TYPE_CREATE req [Fstring fname; Fuint size; Fuint 0].
Definition answer_pkt (ret : Z) : option s_packet := Some (pkt_of S_PKT_TYPE_RPC_BACK_ 1 [Fint ret]).

Definition start : option (state * list effect) := Some (files_init, []).
(** a run keeps the effects of all its steps *)
Definition do_create (servs : Z → list (Z * Z)) (w : option (state * list effect)) (client req : Z) (fname : list Z) :=
  '(st, effs) ← w;
  '(st, effs') ← create_h 1 (env_of servs) st (Serv S_SERV_TYPE_C client) (create_pkt req fname 100);
  Some (st : state, effs ++ effs').
Definition do_back (servs : Z → list (Z * Z)) (w : option (state * list effect)) (cb : rpc_cb) (pkt : option s_packet) :=
  '(st, effs) ← w;
  '(st, effs') ← run_cb 1 (env_of servs) st cb pkt;
  Some (st : state, effs ++ effs').

Definition asked_a : option (state * list effect) := do_create two_each start 9 5 file_a.
Definition agreed_a := do_back two_each (do_back two_each asked_a (CheckAuthBack file_a) (answer_pkt 1)) (CheckAuthBack file_a) (answer_pkt 1).

Example agreed_a_calls :
  (λ w, calls w.2) <$> agreed_a =
    Some [CheckAuthBack file_a; CheckAuthBack file_a; SendMdBack file_a; SendMdBack file_a; SendMdBack file_a].
Proof. vm_compute. reflexivity. Qed.

Lemma step_create servs st out client req fname st' effs :
  (∀ f p, read_string (create_pkt req fname 100) = Some (f, p) → pending f out = 0%nat) →
  do_create servs (Some (st, [])) client req fname = Some (st', effs) →
  cstep 1 (st, out) (st', out ++ calls effs).
Proof.
  intros Hp E. unfold do_create in E. cbn [mbind option_bind] in E.
  destruct (create_h _ _ _ _ _) as [[st1 effs1]|] eqn:E1; [|done]. cbn [mbind option_bind] in E. simplify_eq.
  by eapply (cs_create 1).
Qed.

Definition state_of (w : option (state * list effect)) : state := default files_init (fst <$> w).

Lemma asked_reachable :
  rtc (cstep 1) (files_init, []) (state_of asked_a, [CheckAuthBack file_a; CheckAuthBack file_a]).
Proof.
  apply rtc_once. apply (step_create two_each files_init [] 9 5 file_a _ (snd (default (files_init, []) asked_a))).
  - done.
  - vm_compute. reflexivity.
Qed.

Lemma create_protocol_witness :
  ∃ c, cmap (state_of asked_a) !! file_a = Some c ∧ mc_ncheck c = 2.
Proof.
  destruct (cmap (state_of asked_a) !! file_a) as [c|] eqn:Hc; [|vm_compute in Hc; discriminate].
  exists c. split; [reflexivity|].
  apply (create_protocol 1 (state_of asked_a) [CheckAuthBack file_a; CheckAuthBack file_a] file_a c); [exact asked_reachable|exact Hc].
Defined.

Definition refusal : state * list effect :=
  default (files_init, []) (run_cb 1 (env_of two_each) (state_of asked_a) (CheckAuthBack file_a) (answer_pkt 0)).

Lemma create_answers_witness :
  cmap refusal.1 !! file_a = None ∧
  replies refusal.2 = [(Serv S_SERV_TYPE_C 9, 5, OMsg S_PKT_TYPE_RPC_BACK_ [Fint 0])].
Proof.
  assert (cmap refusal.1 !! file_a = None) as Hn by (vm_compute; reflexivity). split; [exact Hn|].
  pose proof (create_answers 1 (env_of two_each) (state_of asked_a) [] (CheckAuthBack file_a) [CheckAuthBack file_a]
    (answer_pkt 0) refusal.1 refusal.2 file_a (MCreating file_a (FSize 100 0) 9 5 2)) as H.
  rewrite Hn in H. destruct H as [(_ & _ & H)|(H & _)]; [..|exact H|discriminate H].
  - exact asked_reachable.
  - vm_compute. reflexivity.
  - reflexivity.
  - vm_compute. reflexivity.
  - reflexivity.
Defined.

Definition effs_of (w : option (state * list effect)) : list effect := default [] (snd <$> w).
Lemma run_some (w : option (state * list effect)) :
  match w with Some _ => true | None => false end = true → w = Some (state_of w, effs_of w).
Proof. by destruct w as [[st effs]|]. Qed.

(** server 2 refuses a first attempt; during a second one the late consent of
    server 3 to the first comes in, and server 2 consents; then server 3 refuses *)
Definition stale_run : option (state * list effect) :=
  let w := do_back two_each asked_a (CheckAuthBack file_a) (answer_pkt 0) in
  let w := do_create two_each w 9 6 file_a in
  let w := do_back two_each w (CheckAuthBack file_a) (answer_pkt 1) in
  let w := do_back two_each w (CheckAuthBack file_a) (answer_pkt 1) in
  do_back two_each w (CheckAuthBack file_a) (answer_pkt 0).

(** An answer to an earlier attempt counts for a later one: in [stale_run]
    the meta data is distributed without the consent of server 3 to the second
    attempt, which is then answered with a failure when server 3 refuses it. *)
Theorem stale_answer_counts :
  ∃ st effs, stale_run = Some (st, effs) ∧ SendMdBack file_a ∈ calls effs ∧ is_Some (fmap_ st !! file_a) ∧
    replies effs = [(Serv S_SERV_TYPE_C 9, 5, OMsg S_PKT_TYPE_RPC_BACK_ [Fint 0]);
                    (Serv S_SERV_TYPE_C 9, 6, OMsg S_PKT_TYPE_RPC_BACK_ [Fint 0])].
Proof.
  exists (state_of stale_run), (effs_of stale_run). split; [apply run_some; vm_compute; reflexivity|].
  split; [vm_compute; do 4 right; left|]. split; [vm_compute; by eexists|vm_compute; reflexivity].
Qed.

Definition lone_run : option (state * list effect) := do_create only_me start 9 5 file_a.

(** A meta server that knows of no other server answers nobody: the creation
    stays in the table without a call that could end it, and a second request
    for the name is refused. *)
Theorem create_without_servers_hangs :
  ∃ st c, lone_run = Some (st, []) ∧ cmap st !! file_a = Some c ∧ mc_ncheck c = 0 ∧
    do_create only_me (Some (st, [])) 8 6 file_a =
      Some (st, [RpcRet (Serv S_SERV_TYPE_C 8) 6 (OMsg S_PKT_TYPE_RPC_BACK_ [Fint 0])]).
Proof.
  exists (state_of lone_run), (MCreating file_a (FSize 100 0) 9 5 0).
  set (w := do_create only_me (Some (state_of lone_run, [])) 8 6 file_a).
  assert (effs_of lone_run = []) as H1 by (vm_compute; reflexivity).
  assert (effs_of w = [RpcRet (Serv S_SERV_TYPE_C 8) 6 (OMsg S_PKT_TYPE_RPC_BACK_ [Fint 0])]) as H2
    by (vm_compute; reflexivity).
  assert (state_of w = state_of lone_run) as H3 by (vm_compute; reflexivity).
  assert (w = Some (state_of w, effs_of w)) as E2 by (apply run_some; vm_compute; reflexivity).
  split; [rewrite <-H1; apply run_some; vm_compute; reflexivity|].
  split; [vm_compute; reflexivity|]. split; [reflexivity|]. rewrite E2, H2, H3. reflexivity.
Qed.
End examples.

(** The number of the server is lost from the ids of its files: the logical
    [&&] where the bitwise one is meant makes all servers number their files
    alike. *)
Theorem file_ids_collide {TC TF TM} core1 core2 (st : mfiles TC TF TM) :
  0 < core1 < 32768 → 0 < core2 < 32768 → new_file_id core1 st = new_file_id core2 st.
Proof.
  assert (∀ c, 0 < c < 32768 → negb (sint (Z.shiftl c 16) =? 0) = true) as H.
  { intros c Hc. rewrite Z.shiftl_mul_pow2 by lia. change (2 ^ 16) with 65536.
    rewrite sint_small by (unfold is_int; lia). apply negb_true_iff, Z.eqb_neq. lia. }
  intros H1 H2. unfold new_file_id. by rewrite !H.
Qed.
Lemma file_ids_collide_witness : new_file_id 1 (MFiles () () () 3) = new_file_id 2 (MFiles () () () 3).
Proof. apply file_ids_collide; lia. Defined.

(** The client takes the reply of a successful creation, which starts with
    the file's name, for an integer: it reports success exactly if the second
    byte of the name is below 128, and so a failure for every name that starts
    with two bytes of a UTF-8 sequence. *)
Theorem create_reply_read_as_int junk1 junk2 g1 g2 md c0 c1 rest tl :
  pool_wf g1 → pool_wf g2 → fmd_ok md → md_fname md = c0 :: c1 :: rest →
  ∃ p g1' q g2', s_packet_easy junk1 g1 S_PKT_TYPE_RPC_BACK_ (fmd_size md) = (Some p, g1') ∧
    let reply := write_fields p (fmd_fields md) in
    let bytes := take (Z.to_nat (pk_size reply)) (pk_data reply) in
    s_packet_create_from junk2 g2 (bytes ++ tl) (Z.of_nat (length (bytes ++ tl))) = CF_packet q g2' ∧
    s_core_client_create_back (Some q) = if c1 <? 128 then S_CORE_ERR_NOERR else S_CORE_ERR_INTERNAL.
Proof.
  intros Hg1 Hg2 Hok Hname. destruct (fmd_fields_ok md Hok) as (Hfs & Hlen & _). pose proof (md_ok_fits md Hok) as Hfit.
  destruct (easy_write_spec junk1 g1 S_PKT_TYPE_RPC_BACK_ (fmd_size md) (fmd_fields md))
    as (p & g1' & tl1 & E1 & Hg1' & (Hw & Hs & Hh & Hf & Hpl) & _); [done..|lia|].
  destruct (create_from_spec junk2 g2 (write_fields p (fmd_fields md)) S_PKT_TYPE_RPC_BACK_ tl Hg2 Hw)
    as (q & g2' & E2 & _ & Hwq & Hpq & Hsq & Hrq & Hfq); [lia|done..|].
  exists p, g1', q, g2'. split; [done|]. split; [done|].
  pose proof (md_ok_fname md Hok) as [Hb Hl]. rewrite Hname in Hb, Hl.
  apply Forall_cons in Hb as [H0 Hb]. apply Forall_cons in Hb as [H1 Hb].
  set (len := Z.of_nat (length (c0 :: c1 :: rest))) in *.
  assert (∃ l, pk_rest q = byte_of len 0 :: byte_of len 1 :: c0 :: c1 :: l) as [l Hr].
  { rewrite Hrq, Hpl. unfold fmd_fields. rewrite Hname. by eexists. }
  unfold s_core_client_create_back, read_int. erewrite read_int_bytes by done. cbn [mbind option_bind].
  rewrite le4_spec by (done || (apply byte_of_range; lia)). rewrite !byte_of_spec by lia.
  change (2 ^ (8 * 0)) with 1. change (2 ^ (8 * 1)) with 256. rewrite Z.div_1_r.
  change S_PKT_STRING_MAX_LEN with 32768 in Hl. assert (2 <= len) by (unfold len; cbn [length]; lia).
  rewrite (Z.mod_small (len / 256)) by (split; [apply Z.div_pos; lia|apply Z.div_lt_upper_bound; lia]).
  replace (len mod 256 + len / 256 * 256) with len by (pose proof (Z_div_mod_eq_full len 256); lia).
  unfold is_byte in *. destruct (c1 <? 128) eqn:E; zbool.
  - rewrite sint_small by (unfold is_int; lia). by rewrite (proj2 (Z.leb_gt _ _)) by lia.
  - replace (sint _) with (len + c0 * 65536 + c1 * 16777216 - 4294967296); [by rewrite (proj2 (Z.leb_le _ _)) by lia|].
    unfold sint, wraps. change (2 ^ (32 - 1)) with 2147483648. change (2 ^ 32) with 4294967296.
    rewrite (Z.mod_eq _ 4294967296) by lia.
    replace ((len + c0 * 65536 + c1 * 16777216 + 2147483648) / 4294967296) with 1; [lia|].
    apply Z.div_unique with (len + c0 * 65536 + c1 * 16777216 + 2147483648 - 4294967296); lia.
Qed.

Lemma create_reply_read_as_int_witness :
  ∃ p g1' q g2', s_packet_easy 0 g_free_init S_PKT_TYPE_RPC_BACK_ (fmd_size (md_of 1)) = (Some p, g1') ∧
    let reply := write_fields p (fmd_fields (md_of 1)) in
    let bytes := take (Z.to_nat (pk_size reply)) (pk_data reply) in
    s_packet_create_from 9 g_free_init (bytes ++ []) (Z.of_nat (length (bytes ++ []))) = CF_packet q g2' ∧
    s_core_client_create_back (Some q) = if 105 <? 128 then S_CORE_ERR_NOERR else S_CORE_ERR_INTERNAL.
Proof.
  apply (create_reply_read_as_int 0 9 g_free_init g_free_init (md_of 1) 102 105 [108; 101] []);
    [apply g_free_init_wf|apply g_free_init_wf|apply md_of_ok; lia|reflexivity].
Defined.
