(* ===== verification/ServGroup.v ===== *)
(** * [serv_group/]: the servers of a group and the calls between them

    The state of [struct s_server_group], as the files [s_server_group.c],
    [s_servg_do_event.c] and [s_servg_check_list.c] change it.  A pointer to a
    [struct s_server] is the type and the index of its cell: [Serv type i]; a
    pointer to a parameter of a remote call is an address, never used twice;
    a connection is a number.  [None] is the end of a defined run: a null or
    dangling pointer is followed, an index is out of bounds, an assertion
    fails, or an intrusive list is broken.

    What is outside is an argument: [react] is what a callback of the user of
    the group does (it gets the group to read and returns its new state and
    the sends and calls it makes), [wfail n] says whether the [n]-th write to
    a socket fails. *)

From stdpp Require Import strings.
From S2P Require Import Prelude SArray SQueue SString Packet Wire SHashSpec Config Cluster.
Local Open Scope Z_scope.

(** ** [struct timeval] and the macros of [sys/time.h] *)
Record timeval := Tv { tv_sec : Z; tv_usec : Z }.
Definition timerclear : timeval := Tv 0 0.
Definition timerisset (a : timeval) : bool := negb (tv_sec a =? 0) || negb (tv_usec a =? 0).
Definition timercmp (cmp : Z → Z → bool) (a b : timeval) : bool :=
  if tv_sec a =? tv_sec b then cmp (tv_usec a) (tv_usec b) else cmp (tv_sec a) (tv_sec b).
Definition timersub (a b : timeval) : timeval :=
  let s := tv_sec a - tv_sec b in
  let u := tv_usec a - tv_usec b in
  if u <? 0 then Tv (s - 1) (u + 1000000) else Tv s u.

(** ** Texts *)
Definition cstr (s : String.string) : list Z :=
  (λ a, Z.of_nat (Ascii.nat_of_ascii a)) <$> String.list_ascii_of_string s.

(** the characters of a string, without the final 0 *)
Definition str_text (s : s_string) : list Z := take (Z.to_nat (s_string_len s)) (s_string_data_p s).

(** ** Data *)
Definition S_SERV_FLAG_ESTABLISHED : Z := 1.
Definition S_SERV_FLAG_IN_CONFIG : Z := 2.
Definition S_SERV_M_DEFAULT_PORT : Z := 10000.

Definition s_do_i_conn_him (my_type my_id his_type his_id : Z) : bool :=
  (his_type <? my_type) || ((my_type =? his_type) && (his_id <? my_id)).

(** [se_list]: the links of [list] have been set, to the cell itself or to
    its neighbours *)
Record s_server (T : Type) := Server {
  se_conn : option nat;
  se_id : Z;
  se_type : Z;
  se_flags : Z;
  se_ip : option s_string;
  se_port : Z;
  se_mem : Z;
  se_tv_connect : timeval;
  se_tv_send_identify : timeval;
  se_tv_established : timeval;
  se_tv_receive_pong : timeval;
  se_tv_delay : timeval;
  se_rpc_hash : option T;      (* [None]: null, not set, or destroyed *)
  se_req_id : Z;
  se_udata : Z;
  se_list : bool
}.
Arguments Server {T}. Arguments se_conn {T}. Arguments se_id {T}. Arguments se_type {T}.
Arguments se_flags {T}. Arguments se_ip {T}. Arguments se_port {T}. Arguments se_mem {T}.
Arguments se_tv_connect {T}. Arguments se_tv_send_identify {T}. Arguments se_tv_established {T}.
Arguments se_tv_receive_pong {T}. Arguments se_tv_delay {T}.
Arguments se_rpc_hash {T}. Arguments se_req_id {T}. Arguments se_udata {T}. Arguments se_list {T}.

Record s_servg_rpc_param (CB : Type) := Param {
  rp_req_id : Z;
  rp_callback : CB;            (* the function and its [ud] *)
  rp_msec_timeout : Z;
  rp_tv_timeout : timeval;
  rp_serv : serv_id
}.
Arguments Param {CB}. Arguments rp_req_id {CB}. Arguments rp_callback {CB}.
Arguments rp_msec_timeout {CB}. Arguments rp_tv_timeout {CB}. Arguments rp_serv {CB}.

(** what the group sees of a connection *)
Record net_conn := NConn { nc_udata : option serv_id; nc_ip : list Z; nc_port : Z }.

(** what happens outside the group's state, in order *)
Inductive event (CB H : Type) :=
| Sent (c : nat) (req : Z) (pkt : s_packet)                              (* s_net_send *)
| Called (a : nat) (serv : serv_id) (cb : CB) (back : option s_packet)   (* param->callback *)
| Handled (h : H) (serv : serv_id) (pkt : s_packet)                      (* handle_msg *)
| Established (serv : serv_id)                                           (* serv_established *)
| ServClosed (serv : serv_id)                                            (* serv_closed *)
| AllEstablished.                                                        (* all_established *)
Arguments Sent {CB H}. Arguments Called {CB H}. Arguments Handled {CB H}.
Arguments Established {CB H}. Arguments ServClosed {CB H}. Arguments AllEstablished {CB H}.

(** what the user of the group asks for *)
Inductive request (CB : Type) :=
| RSend (to : serv_id) (pkt : s_packet)
| RRet (to : serv_id) (req : Z) (pkt : s_packet)
| RCall (to : serv_id) (pkt : s_packet) (cb : CB) (msec : Z)
(* with what [s_net_connect] gives and [s_mem_used()] *)
| RConnect (type id : Z) (ip : list Z) (port : Z) (conn : option nat) (mem : Z).
Arguments RSend {CB}. Arguments RRet {CB}. Arguments RCall {CB}. Arguments RConnect {CB}.

(** the values of [s_server_group.c] that [s_servg_init_config] reads *)
Record servg_conf := Conf {
  cf_id : Z;
  cf_type : Z;
  cf_ipc_pwd : Z;
  cf_sec_for_timeover : Z;
  cf_sec_for_pingpong : Z;
  cf_sec_for_reconnect : Z
}.

(** the lists of servers, by the servers on them *)
Record waits := Waits { w_conn : list serv_id; w_identify : list serv_id; w_ping : list serv_id }.

(** the parameters of the calls under way *)
Record rpcs (CB : Type) := Rpcs {
  r_timeout : list nat;                            (* rpc_timeout_list *)
  r_params : gmap nat (s_servg_rpc_param CB);      (* the memory they are in *)
  r_next : nat
}.
Arguments Rpcs {CB}. Arguments r_timeout {CB}. Arguments r_params {CB}. Arguments r_next {CB}.

Record s_server_group (T U CB H : Type) := Group {
  sg_conf : servg_conf;
  sg_myself : option serv_id;
  sg_myself_q : s_queue (Z * s_packet);            (* struct ipacket *)
  sg_net : option Z;                               (* the port it listens at *)
  sg_conns : gmap nat net_conn;
  sg_servs : list (s_array (s_server T));
  sg_min_delay : list (option serv_id);
  sg_waits : waits;
  sg_handle_msg : gmap (Z * Z) H;
  sg_rpcs : rpcs CB;
  sg_nsend : nat;                                  (* writes so far *)
  sg_trace : list (event CB H);
  sg_udata : U
}.
Arguments Group {T U CB H}. Arguments sg_conf {T U CB H}. Arguments sg_myself {T U CB H}.
Arguments sg_myself_q {T U CB H}. Arguments sg_net {T U CB H}. Arguments sg_conns {T U CB H}.
Arguments sg_servs {T U CB H}. Arguments sg_min_delay {T U CB H}. Arguments sg_waits {T U CB H}.
Arguments sg_handle_msg {T U CB H}. Arguments sg_rpcs {T U CB H}. Arguments sg_nsend {T U CB H}.
Arguments sg_trace {T U CB H}. Arguments sg_udata {T U CB H}.

(** memory that is not set: no pointer in it can be followed *)
#[export] Instance s_server_inhabited T : Inhabited (s_server T) :=
  populate (Server None 0 0 0 None 0 0 timerclear timerclear timerclear timerclear timerclear
              None 0 0 false).
#[export] Instance s_packet_inhabited : Inhabited s_packet := populate (Packet 0 0 0 0 []).

(** ** Assignments to a field *)
Section setters.
Context {T U CB H : Type}.
Implicit Types (s : s_server T) (g : s_server_group T U CB H).

Definition set_conn v s : s_server T :=
  Server v (se_id s) (se_type s) (se_flags s) (se_ip s) (se_port s) (se_mem s) (se_tv_connect s)
    (se_tv_send_identify s) (se_tv_established s) (se_tv_receive_pong s) (se_tv_delay s) (se_rpc_hash s)
    (se_req_id s) (se_udata s) (se_list s).
Definition set_flags v s : s_server T :=
  Server (se_conn s) (se_id s) (se_type s) v (se_ip s) (se_port s) (se_mem s) (se_tv_connect s)
    (se_tv_send_identify s) (se_tv_established s) (se_tv_receive_pong s) (se_tv_delay s) (se_rpc_hash s)
    (se_req_id s) (se_udata s) (se_list s).
Definition set_addr ip port s : s_server T :=
  Server (se_conn s) (se_id s) (se_type s) (se_flags s) ip port (se_mem s) (se_tv_connect s)
    (se_tv_send_identify s) (se_tv_established s) (se_tv_receive_pong s) (se_tv_delay s) (se_rpc_hash s)
    (se_req_id s) (se_udata s) (se_list s).
Definition set_mem v s : s_server T :=
  Server (se_conn s) (se_id s) (se_type s) (se_flags s) (se_ip s) (se_port s) v (se_tv_connect s)
    (se_tv_send_identify s) (se_tv_established s) (se_tv_receive_pong s) (se_tv_delay s) (se_rpc_hash s)
    (se_req_id s) (se_udata s) (se_list s).
Definition set_tv_connect v s : s_server T :=
  Server (se_conn s) (se_id s) (se_type s) (se_flags s) (se_ip s) (se_port s) (se_mem s) v
    (se_tv_send_identify s) (se_tv_established s) (se_tv_receive_pong s) (se_tv_delay s) (se_rpc_hash s)
    (se_req_id s) (se_udata s) (se_list s).
Definition set_tv_send_identify v s : s_server T :=
  Server (se_conn s) (se_id s) (se_type s) (se_flags s) (se_ip s) (se_port s) (se_mem s)
    (se_tv_connect s) v (se_tv_established s) (se_tv_receive_pong s) (se_tv_delay s) (se_rpc_hash s)
    (se_req_id s) (se_udata s) (se_list s).
Definition set_tv_established v s : s_server T :=
  Server (se_conn s) (se_id s) (se_type s) (se_flags s) (se_ip s) (se_port s) (se_mem s)
    (se_tv_connect s) (se_tv_send_identify s) v (se_tv_receive_pong s) (se_tv_delay s) (se_rpc_hash s)
    (se_req_id s) (se_udata s) (se_list s).
Definition set_tv_receive_pong v s : s_server T :=
  Server (se_conn s) (se_id s) (se_type s) (se_flags s) (se_ip s) (se_port s) (se_mem s)
    (se_tv_connect s) (se_tv_send_identify s) (se_tv_established s) v (se_tv_delay s) (se_rpc_hash s)
    (se_req_id s) (se_udata s) (se_list s).
Definition set_tv_delay v s : s_server T :=
  Server (se_conn s) (se_id s) (se_type s) (se_flags s) (se_ip s) (se_port s) (se_mem s)
    (se_tv_connect s) (se_tv_send_identify s) (se_tv_established s) (se_tv_receive_pong s) v
    (se_rpc_hash s) (se_req_id s) (se_udata s) (se_list s).
Definition set_rpc hash req s : s_server T :=
  Server (se_conn s) (se_id s) (se_type s) (se_flags s) (se_ip s) (se_port s) (se_mem s)
    (se_tv_connect s) (se_tv_send_identify s) (se_tv_established s) (se_tv_receive_pong s)
    (se_tv_delay s) hash req (se_udata s) (se_list s).
Definition set_list v s : s_server T :=
  Server (se_conn s) (se_id s) (se_type s) (se_flags s) (se_ip s) (se_port s) (se_mem s)
    (se_tv_connect s) (se_tv_send_identify s) (se_tv_established s) (se_tv_receive_pong s)
    (se_tv_delay s) (se_rpc_hash s) (se_req_id s) (se_udata s) v.
Definition set_ident id type s : s_server T :=
  Server (se_conn s) id type (se_flags s) (se_ip s) (se_port s) (se_mem s) (se_tv_connect s)
    (se_tv_send_identify s) (se_tv_established s) (se_tv_receive_pong s) (se_tv_delay s) (se_rpc_hash s)
    (se_req_id s) (se_udata s) (se_list s).
Definition s_servg_set_udata s (ud : Z) : s_server T :=
  Server (se_conn s) (se_id s) (se_type s) (se_flags s) (se_ip s) (se_port s) (se_mem s)
    (se_tv_connect s) (se_tv_send_identify s) (se_tv_established s) (se_tv_receive_pong s)
    (se_tv_delay s) (se_rpc_hash s) (se_req_id s) ud (se_list s).
Definition g_conf v g : s_server_group T U CB H :=
  Group v (sg_myself g) (sg_myself_q g) (sg_net g) (sg_conns g) (sg_servs g) (sg_min_delay g)
    (sg_waits g) (sg_handle_msg g) (sg_rpcs g) (sg_nsend g) (sg_trace g) (sg_udata g).
Definition g_myself v g : s_server_group T U CB H :=
  Group (sg_conf g) v (sg_myself_q g) (sg_net g) (sg_conns g) (sg_servs g) (sg_min_delay g)
    (sg_waits g) (sg_handle_msg g) (sg_rpcs g) (sg_nsend g) (sg_trace g) (sg_udata g).
Definition g_myself_q v g : s_server_group T U CB H :=
  Group (sg_conf g) (sg_myself g) v (sg_net g) (sg_conns g) (sg_servs g) (sg_min_delay g) (sg_waits g)
    (sg_handle_msg g) (sg_rpcs g) (sg_nsend g) (sg_trace g) (sg_udata g).
Definition g_net v g : s_server_group T U CB H :=
  Group (sg_conf g) (sg_myself g) (sg_myself_q g) v (sg_conns g) (sg_servs g) (sg_min_delay g)
    (sg_waits g) (sg_handle_msg g) (sg_rpcs g) (sg_nsend g) (sg_trace g) (sg_udata g).
Definition g_conns v g : s_server_group T U CB H :=
  Group (sg_conf g) (sg_myself g) (sg_myself_q g) (sg_net g) v (sg_servs g) (sg_min_delay g)
    (sg_waits g) (sg_handle_msg g) (sg_rpcs g) (sg_nsend g) (sg_trace g) (sg_udata g).
Definition g_servs v g : s_server_group T U CB H :=
  Group (sg_conf g) (sg_myself g) (sg_myself_q g) (sg_net g) (sg_conns g) v (sg_min_delay g)
    (sg_waits g) (sg_handle_msg g) (sg_rpcs g) (sg_nsend g) (sg_trace g) (sg_udata g).
Definition g_min_delay v g : s_server_group T U CB H :=
  Group (sg_conf g) (sg_myself g) (sg_myself_q g) (sg_net g) (sg_conns g) (sg_servs g) v (sg_waits g)
    (sg_handle_msg g) (sg_rpcs g) (sg_nsend g) (sg_trace g) (sg_udata g).
Definition g_waits v g : s_server_group T U CB H :=
  Group (sg_conf g) (sg_myself g) (sg_myself_q g) (sg_net g) (sg_conns g) (sg_servs g)
    (sg_min_delay g) v (sg_handle_msg g) (sg_rpcs g) (sg_nsend g) (sg_trace g) (sg_udata g).
Definition g_handle_msg v g : s_server_group T U CB H :=
  Group (sg_conf g) (sg_myself g) (sg_myself_q g) (sg_net g) (sg_conns g) (sg_servs g)
    (sg_min_delay g) (sg_waits g) v (sg_rpcs g) (sg_nsend g) (sg_trace g) (sg_udata g).
Definition g_rpcs v g : s_server_group T U CB H :=
  Group (sg_conf g) (sg_myself g) (sg_myself_q g) (sg_net g) (sg_conns g) (sg_servs g)
    (sg_min_delay g) (sg_waits g) (sg_handle_msg g) v (sg_nsend g) (sg_trace g) (sg_udata g).
Definition g_nsend v g : s_server_group T U CB H :=
  Group (sg_conf g) (sg_myself g) (sg_myself_q g) (sg_net g) (sg_conns g) (sg_servs g)
    (sg_min_delay g) (sg_waits g) (sg_handle_msg g) (sg_rpcs g) v (sg_trace g) (sg_udata g).
Definition g_trace v g : s_server_group T U CB H :=
  Group (sg_conf g) (sg_myself g) (sg_myself_q g) (sg_net g) (sg_conns g) (sg_servs g)
    (sg_min_delay g) (sg_waits g) (sg_handle_msg g) (sg_rpcs g) (sg_nsend g) v (sg_udata g).
Definition g_udata v g : s_server_group T U CB H :=
  Group (sg_conf g) (sg_myself g) (sg_myself_q g) (sg_net g) (sg_conns g) (sg_servs g)
    (sg_min_delay g) (sg_waits g) (sg_handle_msg g) (sg_rpcs g) (sg_nsend g) (sg_trace g) v.
Definition log (e : event CB H) g := g_trace (sg_trace g ++ [e]) g.
End setters.

Section servg.
Context {T U CB H : Type} `{HTb : !Table Z nat T}.
Abbreviation server := (s_server T).
Abbreviation group := (s_server_group T U CB H).
Abbreviation event := (event CB H).
Abbreviation request := (request CB).
Implicit Types (g : group) (r : serv_id) (pkt : s_packet) (c : nat).

(** ** The arrays of servers *)

(** [iget_serv]; [s_array_at] is the pointer *)
Definition iget_serv g (type id : Z) : option serv_id :=
  if (0 <=? type) && (type <? S_SERV_TYPE_MAX) then
    a ← sg_servs g !! Z.to_nat type; i ← s_array_at a id; Some (Serv type i)
  else None.

(** the cell a pointer is to *)
Definition serv_at g r : option server :=
  a ← sg_servs g !! Z.to_nat (sv_type r); i ← s_array_at a (sv_id r); Some (arr_get a i).
Definition upd_serv (f : server → server) g r : group :=
  g_servs (alter (λ a, arr_set a (sv_id r) (f (arr_get a (sv_id r)))) (Z.to_nat (sv_type r)) (sg_servs g)) g.

Definition has_flag (s : server) (f : Z) : bool := negb (Z.land (se_flags s) f =? 0).

Definition s_servg_get_serv_in_config g (type id : Z) : option serv_id :=
  r ← iget_serv g type id; s ← serv_at g r;
  if has_flag s S_SERV_FLAG_IN_CONFIG then Some r else None.

Definition s_servg_get_active_serv g (type id : Z) : option serv_id :=
  r ← iget_serv g type id; s ← serv_at g r;
  if has_flag s S_SERV_FLAG_ESTABLISHED then Some r else None.

Definition s_servg_get_serv_array g (type : Z) : option (s_array server) :=
  if (0 <=? type) && (type <? S_SERV_TYPE_MAX) then sg_servs g !! Z.to_nat type else None.

Definition in_config_active (s : server) : bool :=
  has_flag s S_SERV_FLAG_IN_CONFIG && has_flag s S_SERV_FLAG_ESTABLISHED.

(** [for(; i < len; ++i)]: the first such cell of [n] from [i] *)
Fixpoint find_active (a : s_array server) (n : nat) (i : Z) : option Z :=
  match n with
  | O => None
  | S n => if in_config_active (arr_get a i) then Some i else find_active a n (i + 1)
  end.

(** the server, and the new value of [*id] *)
Definition s_servg_next_active_serv g (type id : Z) : option serv_id * Z :=
  let i := s_max 0 id in
  match s_servg_get_serv_array g type with
  | None => (None, id)
  | Some a =>
      match find_active a (Z.to_nat (s_array_len a - i)) i with
      | Some i => (Some (Serv type i), i + 1)
      | None => (None, id)
      end
  end.

(** [None]: [type] is out of range (it is not checked) *)
Definition s_servg_get_min_delay_serv g (type : Z) : option (option serv_id) :=
  if (type <? 0) || (S_SERV_TYPE_MAX <=? type) then None else
  m ← sg_min_delay g !! Z.to_nat type;
  match m with
  | Some r => Some (Some r)
  | None =>
      a ← sg_servs g !! Z.to_nat type;
      Some (Serv type <$> find_active a (Z.to_nat (s_array_len a)) 0)
  end.

(** [s_array_push] on an array of servers.  When it moves the cells, the
    links of those that have been linked are left pointing to the old block. *)
Definition push_serv (a : s_array server) : option (Z * s_array server) :=
  if (ar_total a <=? ar_nelem a) && existsb se_list (arr_list a) then None
  else Some (s_array_push a).

(** [for(; len < id; ++len)] *)
Fixpoint push_unused (n : nat) (a : s_array server) : option (s_array server) :=
  match n with
  | O => Some a
  | S n =>
      '(i, a) ← push_serv a;
      push_unused n (arr_set a i (set_conn None (set_flags 0 (arr_get a i))))
  end.

Definition iinit_serv (a : s_array server) (id : Z) : option (s_array server) :=
  let len := s_array_len a in
  if id <? len then
    i ← s_array_at a id; Some (arr_set a i (set_flags S_SERV_FLAG_IN_CONFIG (arr_get a i)))
  else
    a ← push_unused (Z.to_nat (id - len)) a;
    '(i, a) ← push_serv a;
    Some (arr_set a i (set_flags S_SERV_FLAG_IN_CONFIG (arr_get a i))).

(** ** The lists of servers *)
Definition on_list g r : bool :=
  let w := sg_waits g in bool_decide (r ∈ w_conn w ++ w_identify w ++ w_ping w).

(** [s_list_init(&serv->list)]: the neighbours of a cell on a list would go on
    pointing to it *)
Definition list_init g r : option group :=
  if on_list g r then None else Some (upd_serv (set_list true) g r).

(** [s_list_del(&serv->list)] *)
Definition list_del g r : option group :=
  s ← serv_at g r;
  if negb (se_list s) then None else
  let w := sg_waits g in
  let rm := filter (λ x, x ≠ r) in
  Some (g_waits (Waits (rm (w_conn w)) (rm (w_identify w)) (rm (w_ping w))) g).

(** [s_list_insert_tail(&servg->list_wait_for_conn, &serv->list)] etc. *)
Definition wait_for_conn g r : option group :=
  if on_list g r then None else
  let w := sg_waits g in Some (g_waits (Waits (w_conn w ++ [r]) (w_identify w) (w_ping w)) g).
Definition wait_for_identify g r : option group :=
  if on_list g r then None else
  let w := sg_waits g in Some (g_waits (Waits (w_conn w) (w_identify w ++ [r]) (w_ping w)) g).
Definition wait_for_ping g r : option group :=
  if on_list g r then None else
  let w := sg_waits g in Some (g_waits (Waits (w_conn w) (w_identify w) (w_ping w ++ [r])) g).

(** [s_servg_create_serv].  The outer [serv] stays null whatever the loop
    finds, so a new cell is always pushed. *)
Definition s_servg_create_serv g (type id : Z) : option (option serv_id * group) :=
  match s_servg_get_serv_array g type with
  | None => Some (None, g)
  | Some a =>
      if 0 <? id then
        a ← iinit_serv a id;
        let g := g_servs (<[Z.to_nat type := a]> (sg_servs g)) g in
        r ← iget_serv g type id;
        g ← list_init (upd_serv (λ s, set_ident id type (set_flags 0 s)) g r) r;
        Some (Some r, g)
      else
        let id := s_array_len a in
        '(i, a) ← push_serv a;
        let r := Serv type i in
        let g := g_servs (<[Z.to_nat type := arr_set a i (set_ident id type inhabitant)]> (sg_servs g)) g in
        g ← list_init g r;
        Some (Some r, g)
  end.

(** ** Sends, calls and closed connections
    A write that fails closes the connection inside the send: the callbacks of
    the calls under way run, and may send in turn.  [close] is
    [iwhen_conn_closed] on the connections still open. *)
Context (react : group → event → option (U * list request)) (wfail : nat → bool).

(** ** Packets of the group ([s_servg_pkt.h]); [mem] is [s_mem_used()] *)
Definition build_easy (fn sz : Z) (fs : list field) : option s_packet :=
  p ← (s_packet_easy 0 g_free_init fn sz).1; Some (write_fields p fs).

Definition s_servg_pkt_identify (mem type id pwd : Z) : option s_packet :=
  build_easy S_PKT_TYPE_IDENTIFY 16 [Fuint pwd; Fint type; Fint id; Fuint mem].
Definition s_servg_pkt_identify_back (mem ret : Z) : option s_packet :=
  build_easy S_PKT_TYPE_IDENTIFY_BACK 8 [Fint ret; Fuint mem].
Definition s_servg_pkt_ping (mem sec usec : Z) : option s_packet :=
  build_easy S_PKT_TYPE_PING 12 [Fuint sec; Fuint usec; Fuint mem].
Definition s_servg_pkt_pong (mem : Z) (p : s_packet) : s_packet :=
  let p := (s_packet_set_fun p S_PKT_TYPE_PONG).2 in
  let p := (s_packet_seek p 8).2 in
  (s_packet_write_uint p mem).2.

Section network.
Context (now : timeval) (close : group → nat → option group).

(** [irm_conn], [iput_conn] *)
Definition drop_conn g c : group := g_conns (delete c (sg_conns g)) g.

Definition s_net_close g c : option group :=
  _ ← sg_conns g !! c; g ← close g c; Some (drop_conn g c).

Definition s_net_send g c pkt : option group :=
  _ ← sg_conns g !! c;
  let n := sg_nsend g in
  let g := g_nsend (S n) (log (Sent c (s_packet_get_req pkt) pkt) g) in
  if wfail n then g ← close g c; Some (drop_conn g c) else Some g.

Definition isend g r pkt : option group :=
  if decide (sg_myself g = Some r) then
    let '(i, q) := s_queue_push (sg_myself_q g) in
    Some (g_myself_q (q_write q i (s_packet_get_req pkt, pkt)) g)
  else
    s ← serv_at g r; c ← se_conn s; s_net_send g c pkt.

(** [while(tv_usec > 1000000) { tv_sec++; tv_usec -= 1000000; }] *)
Fixpoint tv_norm (fuel : nat) (tv : timeval) : timeval :=
  match fuel with
  | O => tv
  | S fuel => if 1000000 <? tv_usec tv then tv_norm fuel (Tv (tv_sec tv + 1) (tv_usec tv - 1000000)) else tv
  end.

(** [msec_timeout * 1000] is an [int] *)
Definition tv_after (msec : Z) : option timeval :=
  if INT_MAX <? msec * 1000 then None
  else
    let tv := Tv (tv_sec now) (tv_usec now + msec * 1000) in
    Some (tv_norm (Z.to_nat (tv_usec tv)) tv).

(** before the first parameter that is not earlier *)
Fixpoint insert_timeout (ps : gmap nat (s_servg_rpc_param CB)) (tv : timeval) (a : nat) (l : list nat)
    : option (list nat) :=
  match l with
  | [] => Some [a]
  | b :: l' =>
      q ← ps !! b;
      if timercmp Z.geb (rp_tv_timeout q) tv then Some (a :: l) else cons b <$> insert_timeout ps tv a l'
  end.

(** the new parameter, on [rpc_timeout_list] if it has a time *)
Definition new_param g r (req : Z) (cb : CB) (msec : Z) : option (nat * group) :=
  let rs := sg_rpcs g in
  let a := r_next rs in
  if 0 <? msec then
    tv ← tv_after msec;
    l ← insert_timeout (r_params rs) tv a (r_timeout rs);
    Some (a, g_rpcs (Rpcs l (<[a := Param req cb msec tv r]> (r_params rs)) (S a)) g)
  else
    Some (a, g_rpcs (Rpcs (r_timeout rs) (<[a := Param req cb msec timerclear r]> (r_params rs)) (S a)) g).

Definition s_servg_rpc_call g r pkt (callback : option CB) (msec : Z) : option (Z * group) :=
  match callback with
  | None => g ← isend g r pkt; Some (0, g)
  | Some cb =>
      s ← serv_at g r;
      let req := se_req_id s in
      let g := upd_serv (λ s, set_rpc (se_rpc_hash s) (uint (req + 1)) s) g r in
      let '(ret, pkt) := s_packet_set_req pkt req in
      if ret <? 0 then Some (-1, g) else
      '(a, g) ← new_param g r req cb msec;
      t ← se_rpc_hash s;
      let g := upd_serv (λ s, set_rpc (Some (tbl_put t req a)) (se_req_id s) s) g r in
      g ← isend g r pkt;
      Some (0, g)
  end.

Definition s_servg_rpc_ret g r (req : Z) pkt : option group :=
  let pkt := (s_packet_set_fun pkt S_PKT_TYPE_RPC_BACK_).2 in
  let pkt := (s_packet_set_req pkt req).2 in
  isend g r pkt.

(** [s_net_connect]: a new connection, if the other end answers *)
Definition s_net_connect g (conn : option nat) (ip : list Z) (port : Z) : option (option nat * group) :=
  match conn with
  | None => Some (None, g)
  | Some c =>
      if decide (is_Some (sg_conns g !! c)) then None
      else Some (Some c, g_conns (<[c := NConn None ip port]> (sg_conns g)) g)
  end.

Definition send_identify (mem : Z) g c : option group :=
  let cf := sg_conf g in
  p ← s_servg_pkt_identify mem (cf_type cf) (cf_id cf) (cf_ipc_pwd cf);
  s_net_send g c p.

(** [s_net_set_udata]; the connection is null if [s_net_connect] failed *)
Definition s_net_set_udata g c r : option group :=
  n ← sg_conns g !! c; Some (g_conns (<[c := NConn (Some r) (nc_ip n) (nc_port n)]> (sg_conns g)) g).

(** the test after [s_net_connect] is on [serv], not on [serv->conn] *)
Definition s_servg_connect (mem : Z) g (type id : Z) (ip : list Z) (port : Z) (conn : option nat)
    : option (option serv_id * group) :=
  match s_servg_get_serv_in_config g type id with
  | Some _ => Some (None, g)
  | None =>
      match s_servg_get_active_serv g type id with
      | Some r => Some (Some r, g)
      | None =>
          '(o, g) ← s_servg_create_serv g type id;
          match o with
          | None => Some (None, g)
          | Some r =>
              let g := upd_serv (set_tv_connect now) g r in
              '(oc, g) ← s_net_connect g conn ip port;
              let g := upd_serv (set_conn oc) g r in
              c ← oc;
              g ← s_net_set_udata g c r;
              g ← wait_for_identify g r;
              let g := upd_serv (λ s, set_tv_send_identify (se_tv_connect s) s) g r in
              g ← send_identify mem g c;
              Some (Some r, g)
          end
      end
  end.

Definition run_request g (q : request) : option group :=
  match q with
  | RSend to pkt => snd <$> s_servg_rpc_call g to pkt None (-1)
  | RRet to req pkt => s_servg_rpc_ret g to req pkt
  | RCall to pkt cb msec => snd <$> s_servg_rpc_call g to pkt (Some cb) msec
  | RConnect type id ip port conn mem => snd <$> s_servg_connect mem g type id ip port conn
  end.
Fixpoint run_requests g (qs : list request) : option group :=
  match qs with
  | [] => Some g
  | q :: qs => g ← run_request g q; run_requests g qs
  end.

(** a callback of the user, and the sends and calls it makes *)
Definition callback g (e : event) : option group :=
  let g := log e g in
  '(u, qs) ← react g e; run_requests (g_udata u g) qs.

(** [s_free(param)] *)
Definition free_param g (a : nat) : option group :=
  _ ← r_params (sg_rpcs g) !! a;
  let rs := sg_rpcs g in Some (g_rpcs (Rpcs (r_timeout rs) (delete a (r_params rs)) (r_next rs)) g).

(** [while(pparam)]: the callbacks cannot add to the hash, [serv->conn] being
    null, so [s_hash_next] walks the elements it had at first *)
Fixpoint close_params g r (l : list nat) : option group :=
  match l with
  | [] => Some g
  | a :: l =>
      p ← r_params (sg_rpcs g) !! a;
      g ← callback g (Called a r (rp_callback p) None);
      g ← free_param g a;
      close_params g r l
  end.

(** [s_servg_reset_serv], once the connection is closed *)
Definition unlink_serv g r : option group :=
  g ← list_del g r;
  s ← serv_at g r;
  let type := se_type s in
  m ← sg_min_delay g !! Z.to_nat type;
  let g := if decide (m = Some r) then g_min_delay (<[Z.to_nat type := None]> (sg_min_delay g)) g else g in
  if negb (has_flag s S_SERV_FLAG_IN_CONFIG) then Some (upd_serv (set_flags 0) g r)
  else
    let g := upd_serv (set_flags S_SERV_FLAG_IN_CONFIG) g r in
    let cf := sg_conf g in
    if bool_decide (is_Some (se_ip s)) && (0 <? se_port s) &&
       s_do_i_conn_him (cf_type cf) (cf_id cf) type (se_id s)
    then wait_for_conn g r else Some g.

Definition s_servg_reset_serv g r : option group :=
  s ← serv_at g r;
  g ← match se_conn s with Some c => s_net_close g c | None => Some g end;
  unlink_serv (upd_serv (set_conn None) g r) r.

Definition when_conn_closed g c : option group :=
  n ← sg_conns g !! c;
  match nc_udata n with
  | None => Some g
  | Some r =>
      s ← serv_at g r;
      let g := upd_serv (set_conn None) g r in
      g ← (if has_flag s S_SERV_FLAG_ESTABLISHED then
             t ← se_rpc_hash s;
             g ← close_params g r (snd <$> tbl_elems t);
             let g := upd_serv (λ s, set_rpc None (se_req_id s) s) g r in
             callback g (ServClosed r)
           else Some g);
      s_servg_reset_serv g r
  end.
End network.

(** the calls that are nested: at most one for each connection *)
Fixpoint iwhen_conn_closed (fuel : nat) (now : timeval) g c : option group :=
  match fuel with
  | O => None
  | S fuel => when_conn_closed now (iwhen_conn_closed fuel now) g c
  end.

(** ** Handlers *)
Section events.
Context (fuel : nat) (now : timeval) (mem : Z).

Abbreviation close := (iwhen_conn_closed fuel now).

Definition all_servs (P : server → bool) g : bool := forallb (λ a, forallb P (arr_list a)) (sg_servs g).

Definition icheck_all_established g : bool :=
  all_servs (λ s, negb (has_flag s S_SERV_FLAG_IN_CONFIG && negb (has_flag s S_SERV_FLAG_ESTABLISHED))) g.

(** the end of [ihandle_identify] and of [ihandle_identify_back] *)
Definition established g r : option group :=
  g ← callback now close g (Established r);
  if icheck_all_established g then callback now close g AllEstablished else Some g.

(** [label_auth_error] *)
Definition auth_error g c : option group :=
  p ← s_servg_pkt_identify_back mem 0; s_net_send close g c p.

(** a server in [config.conf], or a new one *)
Definition identify_serv g (type id : Z) : option (option serv_id * group) :=
  match s_servg_get_serv_in_config g type id with
  | Some r => Some (Some r, g)
  | None => s_servg_create_serv g type id
  end.

(** after the answer is known to be yes *)
Definition accept_serv g c r (pmem : Z) : option group :=
  n ← sg_conns g !! c;
  let g := upd_serv (set_mem pmem) g r in
  let g := g_conns (<[c := NConn (Some r) (nc_ip n) (nc_port n)]> (sg_conns g)) g in
  let g := upd_serv (λ s,
    let s := set_conn (Some c) s in
    let s := set_addr (Some (s_string_create (nc_ip n))) (nc_port n) s in
    let s := set_flags (Z.lor (se_flags s) S_SERV_FLAG_ESTABLISHED) s in
    let s := set_rpc (Some (tbl_new 16)) 1 s in
    set_tv_established now (set_tv_connect now s)) g r in
  g ← list_del g r;
  g ← wait_for_ping g r;
  p ← s_servg_pkt_identify_back mem 1;
  g ← s_net_send close g c p;
  established g r.

Definition ihandle_identify g c pkt : option group :=
  if negb (s_packet_get_fun pkt =? S_PKT_TYPE_IDENTIFY) then s_net_close close g c else
  match read_uint pkt with
  | None => s_net_close close g c
  | Some (pwd, pkt) =>
      if negb (pwd =? cf_ipc_pwd (sg_conf g)) then auth_error g c else
      match '(type, pkt) ← read_int pkt; '(id, pkt) ← read_int pkt; '(m, pkt) ← read_uint pkt;
            Some (type, id, m) with
      | None => s_net_close close g c
      | Some (type, id, m) =>
          '(o, g) ← identify_serv g type id;
          match o with
          | None => auth_error g c
          | Some r =>
              s ← serv_at g r;
              if has_flag s S_SERV_FLAG_ESTABLISHED then auth_error g c
              else accept_serv g c r m
          end
      end
  end.

Definition ihandle_identify_back g r pkt : option group :=
  match '(ret, pkt) ← read_int pkt; '(m, pkt) ← read_uint pkt; Some (ret, m) with
  | Some (1, m) =>
      let g := upd_serv (λ s, set_rpc (Some (tbl_new 16)) 1 (set_mem m s)) g r in
      g ← list_del g r;
      g ← wait_for_ping g r;
      let g := upd_serv (λ s, set_flags (Z.lor (se_flags s) S_SERV_FLAG_ESTABLISHED) s) g r in
      established g r
  | _ => s_servg_reset_serv close g r
  end.

Definition ihandle_ping g r pkt : option group :=
  let pkt := (s_packet_seek pkt 8).2 in
  let '(v, pkt) := s_packet_read_uint pkt in
  let g := match v with Some m => upd_serv (set_mem m) g r | None => g end in
  let pkt := s_servg_pkt_pong mem pkt in
  s ← serv_at g r; c ← se_conn s;
  s_net_send close g c pkt.

Definition ihandle_pong g r pkt : option group :=
  match '(sec, pkt) ← read_uint pkt; '(usec, pkt) ← read_uint pkt; '(m, pkt) ← read_uint pkt;
        Some (sec, usec, m) with
  | None => Some g
  | Some (sec, usec, m) =>
      let delay := timersub now (Tv sec usec) in
      let g := upd_serv (λ s, set_tv_delay delay (set_mem m s)) g r in
      s ← serv_at g r;
      md ← sg_min_delay g !! Z.to_nat (se_type s);
      less ← match md with
             | None => Some true
             | Some r' =>
                 s' ← serv_at g r';
                 Some (bool_decide (r' ≠ r) && timercmp Z.gtb (se_tv_delay s') delay)
             end;
      let g := if less : bool then g_min_delay (<[Z.to_nat (se_type s) := Some r]> (sg_min_delay g)) g else g in
      let g := upd_serv (set_tv_receive_pong now) g r in
      g ← list_del g r;
      wait_for_ping g r
  end.

Definition ihandle_rpc_back g r pkt : option group :=
  let req := s_packet_get_req pkt in
  s ← serv_at g r;
  t ← se_rpc_hash s;
  match tbl_get t req with
  | None => Some g
  | Some a =>
      p ← r_params (sg_rpcs g) !! a;
      g ← callback now close g (Called a r (rp_callback p) (Some pkt));
      (* s_list_del, s_free *)
      let rs := sg_rpcs g in
      g ← free_param (g_rpcs (Rpcs (filter (λ b, b ≠ a) (r_timeout rs)) (r_params rs) (r_next rs)) g) a;
      s ← serv_at g r;
      t ← se_rpc_hash s;
      Some (upd_serv (λ s, set_rpc (Some (tbl_del t req)) (se_req_id s) s) g r)
  end.

(** [handle_msg[S_SERV_TYPE_MAX][S_PKT_TYPE_MAX_]]: neither index is checked *)
Definition handle_msg g (type fn : Z) : option (option H) :=
  if (0 <=? type) && (type <? S_SERV_TYPE_MAX) && (0 <=? fn) && (fn <? S_PKT_TYPE_MAX_)
  then Some (sg_handle_msg g !! (type, fn)) else None.

(** what the net tells: [S_NET_CONN_CLOSED], [S_NET_CONN_CLOSING],
    [S_NET_CONN_ACCEPT] or a packet *)
Inductive net_event := EvClosed | EvClosing | EvAccept | EvPkt (pkt : s_packet).

(** a packet without a connection is one the server sent to itself *)
Definition s_servg_do_event g (conn : option nat) (e : net_event) : option group :=
  match e with
  | EvClosed | EvClosing => c ← conn; close g c
  | EvAccept => Some g
  | EvPkt pkt =>
      serv ← match conn with
             | Some c => nc_udata <$> sg_conns g !! c
             | None => Some (sg_myself g)
             end;
      match serv with
      | None => c ← conn; ihandle_identify g c pkt
      | Some r =>
          let fn := s_packet_get_fun pkt in
          if fn =? S_PKT_TYPE_RPC_BACK_ then ihandle_rpc_back g r pkt
          else if fn =? S_PKT_TYPE_IDENTIFY_BACK then ihandle_identify_back g r pkt
          else if fn =? S_PKT_TYPE_PING then ihandle_ping g r pkt
          else if fn =? S_PKT_TYPE_PONG then ihandle_pong g r pkt
          else
            s ← serv_at g r;
            h ← handle_msg g (se_type s) fn;
            match h with
            | Some h => callback now close g (Handled h r pkt)
            | None => Some g
            end
      end
  end.

(** [iclose_conn_positive]: the other end has closed *)
Definition conn_closed g c : option group :=
  _ ← sg_conns g !! c; g ← s_servg_do_event g (Some c) EvClosed; Some (drop_conn g c).
(** [ilisten_accept] *)
Definition conn_accepted g c (ip : list Z) (port : Z) : option group :=
  if decide (is_Some (sg_conns g !! c)) then None
  else s_servg_do_event (g_conns (<[c := NConn None ip port]> (sg_conns g)) g) (Some c) EvAccept.
End events.

(** ** Connecting *)
Section connecting.
Context (fuel : nat) (now : timeval) (mem : Z).

Fixpoint next_of r (l : list serv_id) : option serv_id :=
  match l with
  | x :: l => if decide (x = r) then head l else next_of r l
  | [] => None
  end.

(** one server of [list_wait_for_conn]; [true]: [break] *)
Definition check_serv g r (conn : option nat) : option (bool * group) :=
  s ← serv_at g r;
  if bool_decide (is_Some (se_conn s)) || negb (has_flag s S_SERV_FLAG_IN_CONFIG) then None else
  let sub := timersub now (se_tv_connect s) in
  if timerisset (se_tv_connect s) && (tv_sec sub <=? cf_sec_for_reconnect (sg_conf g)) then Some (true, g) else
  let g := upd_serv (set_tv_connect now) g r in
  ip ← se_ip s;
  '(oc, g) ← s_net_connect g conn (str_text ip) (se_port s);
  let g := upd_serv (set_conn oc) g r in
  match oc with
  | None => Some (false, g)
  | Some c =>
      g ← s_net_set_udata g c r;
      g ← list_del g r;
      g ← wait_for_identify g r;
      let g := upd_serv (set_tv_send_identify now) g r in
      g ← send_identify (iwhen_conn_closed fuel now) mem g c;
      Some (false, g)
  end.

(** [s_list_foreach_safe(p, tmp, &servg->list_wait_for_conn)] *)
Fixpoint check_loop (n : nat) g (p : option serv_id) (connect : serv_id → option nat) : option group :=
  match p with
  | None => Some g
  | Some r =>
      match n with
      | O => None
      | S n =>
          if negb (bool_decide (r ∈ w_conn (sg_waits g))) then None else
          let tmp := next_of r (w_conn (sg_waits g)) in
          '(stop, g) ← check_serv g r (connect r);
          if stop : bool then Some g else check_loop n g tmp connect
      end
  end.

(** the lists after the first are not looked at any more *)
Definition s_servg_check_list n g connect : option group :=
  check_loop n g (head (w_conn (sg_waits g))) connect.

(** ** One step of the group *)

(** [while(!s_queue_empty(servg->myself_q))]: [p] points into the queue
    while the packet is handled, and is read again after *)
Fixpoint myself_loop (n : nat) g : option group :=
  match s_queue_peek (sg_myself_q g) with
  | None => Some g
  | Some i =>
      match n with
      | O => None
      | S n =>
          let '(req, pkt) := cell (q_mem (sg_myself_q g)) i in
          let pkt := (s_packet_set_req (s_packet_seek pkt 0).2 req).2 in
          let total := q_total (sg_myself_q g) in
          g ← s_servg_do_event fuel now mem g None (EvPkt pkt);
          if negb (q_total (sg_myself_q g) =? total) then None
          else myself_loop n (g_myself_q (s_queue_pop (sg_myself_q g)).2 g)
      end
  end.

(** the body of the loop over [rpc_timeout_list] *)
Definition timeout_param g (a : nat) : option group :=
  p ← r_params (sg_rpcs g) !! a;
  if timercmp Z.geb now (rp_tv_timeout p) then
    g ← callback now (iwhen_conn_closed fuel now) g (Called a (rp_serv p) (rp_callback p) None);
    _ ← r_params (sg_rpcs g) !! a;
    let rs := sg_rpcs g in
    let g := g_rpcs (Rpcs (filter (λ b, b ≠ a) (r_timeout rs)) (r_params rs) (r_next rs)) g in
    s ← serv_at g (rp_serv p);
    t ← se_rpc_hash s;
    let g := upd_serv (λ s, set_rpc (Some (tbl_del t (rp_req_id p))) (se_req_id s) s) g (rp_serv p) in
    free_param g a
  else Some g.

Fixpoint next_param (a : nat) (l : list nat) : option nat :=
  match l with
  | b :: l => if decide (b = a) then head l else next_param a l
  | [] => None
  end.

(** [s_list_foreach_safe(p, tmp, &servg->rpc_timeout_list)] *)
Fixpoint timeout_loop (n : nat) g (p : option nat) : option group :=
  match p with
  | None => Some g
  | Some a =>
      match n with
      | O => None
      | S n =>
          if negb (bool_decide (a ∈ r_timeout (sg_rpcs g))) then None else
          let tmp := next_param a (r_timeout (sg_rpcs g)) in
          g ← timeout_param g a;
          timeout_loop n g tmp
      end
  end.

Definition check_timeouts n g : option group := timeout_loop n g (head (r_timeout (sg_rpcs g))).

(** before [s_net_poll], which calls [s_servg_do_event] *)
Definition s_servg_poll n g connect : option group :=
  g ← s_servg_check_list n g connect;
  g ← myself_loop n g;
  check_timeouts n g.
End connecting.

(** ** Creation, registration and configuration *)

Definition s_servg_create (type id : Z) (u : U) : group :=
  Group (Conf id type 0 0 0 0) None (s_queue_create 32) None ∅
    (replicate 4 (s_array_create 16)) (replicate 4 None) (Waits [] [] []) ∅
    (Rpcs [] ∅ 0) 0 [] u.

Definition s_servg_register g (serv_type fn : Z) (h : H) : Z * group :=
  if (serv_type <? 0) || (S_SERV_TYPE_MAX <=? serv_type) then (-1, g)
  else if (fn <=? S_PKT_TYPE_USER_DEF_BEGIN_) || (S_PKT_TYPE_MAX_ <=? fn) then (-1, g)
  else if bool_decide (is_Some (sg_handle_msg g !! (serv_type, fn))) then (-1, g)
  else (0, g_handle_msg (<[(serv_type, fn) := h]> (sg_handle_msg g)) g).

(** [None]: not a server; the last of the three that fits decides *)
Definition iparse_config_serv_type_id (p : list Z) : option (Z * Z) :=
  let len := Z.of_nat (length p) in
  let r := (0, 0) in
  let r := if (8 <? len) && c_strncmp_eq 7 p (cstr "mserver"%string) then (S_SERV_TYPE_M, c_atoi (drop 8 p)) else r in
  let r := if (8 <? len) && c_strncmp_eq 7 p (cstr "dserver"%string) then (S_SERV_TYPE_D, c_atoi (drop 8 p)) else r in
  let r := if (7 <? len) && c_strncmp_eq 6 p (cstr "client"%string) then (S_SERV_TYPE_C, c_atoi (drop 7 p)) else r in
  if 0 <? r.2 then Some r else None.

Definition s_config_read_i (c : s_config) (k : list Z) : Z * s_config := s_config_read_int c (s_string_create k).

(** the servers of the configuration: [false]: [return -1].  [net_ok]: a
    socket can be bound to the port *)
Definition init_region (net_ok : bool) g (c : s_config) (region : s_string)
    : option (bool * group * s_config) :=
  match iparse_config_serv_type_id (str_text region) with
  | None => Some (true, g, c)
  | Some (type, id) =>
      let '(ret, c) := s_config_select_region c region in
      if ret <? 0 then Some (false, g, c) else
      let '(ip, c) := s_config_read_string c (s_string_create (cstr "ip"%string)) in
      let '(port, c) := s_config_read_int c (s_string_create (cstr "port"%string)) in
      a ← sg_servs g !! Z.to_nat type;
      a ← iinit_serv a id;
      let g := g_servs (<[Z.to_nat type := a]> (sg_servs g)) g in
      let r := Serv type id in
      let g := upd_serv (λ s,
        let s := set_rpc None 1 (set_ident id type (set_conn None s)) in
        let s := set_mem 0 (set_addr (s_string_grab <$> ip) port s) in
        set_tv_connect timerclear (set_tv_send_identify timerclear (set_tv_established timerclear
          (set_tv_receive_pong timerclear (set_tv_delay timerclear s))))) g r in
      let cf := sg_conf g in
      let me := (type =? cf_type cf) && (id =? cf_id cf) in
      if me && negb net_ok then Some (false, g, c) else
      let g := if me then g_myself (Some r) (g_net (Some port) g) else g in
      g ← list_init g r;
      g ← (if bool_decide (is_Some ip) && negb (port =? 0) &&
              s_do_i_conn_him (cf_type cf) (cf_id cf) type id
           then wait_for_conn g r else Some g);
      Some (true, g, c)
  end.

Fixpoint init_regions (n : nat) (net_ok : bool) g (c : s_config) (next : option s_string)
    : option (bool * group * s_config) :=
  match next with
  | None => Some (true, g, c)
  | Some region =>
      match n with
      | O => None
      | S n =>
          let '(next, c) := s_config_iter_next c in
          '(ok, g, c) ← init_region net_ok g c region;
          if ok : bool then init_regions n net_ok g c next else Some (false, g, c)
      end
  end.

(** the numbers of the default region; they are stored one by one *)
Definition init_numbers g (c : s_config) : bool * group * s_config :=
  let cf := sg_conf g in
  let set pwd over ping rec g := g_conf (Conf (cf_id cf) (cf_type cf) pwd over ping rec) g in
  let '(over, c) := s_config_read_i c (cstr "sec_for_timeover"%string) in
  if over <=? 0 then (false, set 0 over 0 0 g, c) else
  let '(ping, c) := s_config_read_i c (cstr "sec_for_pingpong"%string) in
  if ping <=? 0 then (false, set 0 over ping 0 g, c) else
  let '(rec, c) := s_config_read_i c (cstr "sec_for_reconnect"%string) in
  if rec <=? 0 then (false, set 0 over ping rec g, c) else
  let '(pwd, c) := s_config_read_i c (cstr "ipc_pwd"%string) in
  (* [ipc_pwd < 0] is never true of an unsigned number *)
  (true, set (uint pwd) over ping rec g, c).

(** a server that is not in the configuration *)
Definition init_outside (net_ok : bool) g : option (bool * group) :=
  let cf := sg_conf g in
  let port := if cf_type cf =? S_SERV_TYPE_M then S_SERV_M_DEFAULT_PORT + cf_id cf else 0 in
  if negb net_ok then Some (false, g) else
  '(o, g) ← s_servg_create_serv (g_net (Some port) g) (cf_type cf) (cf_id cf);
  Some (true, g_myself o g).

Definition init_myself g : option group :=
  r ← sg_myself g;
  _ ← serv_at g r;
  let g := upd_serv (λ s,
    let s := set_conn None (set_flags S_SERV_FLAG_ESTABLISHED s) in
    let s := set_addr (Some (s_string_create (cstr "127.0.0.1"%string))) (-1) s in
    set_rpc (Some (tbl_new 16)) 1 s) g r in
  if on_list g r then None else Some (upd_serv (set_list true) g r).

Definition s_servg_init_config (net_ok : bool) g (c : s_config) : option (Z * group * s_config) :=
  let g := g_myself None g in
  let '(_, c) := s_config_select_region c (s_string_create (cstr "default"%string)) in
  let '(ok, g, c) := init_numbers g c in
  if negb ok then Some (-1, g, c) else
  let c := s_config_iter_begin c in
  let '(next, c) := s_config_iter_next c in
  '(ok, g, c) ← init_regions (length (cf_regions c)) net_ok g c next;
  if negb ok then Some (-1, g, c) else
  '(ok, g) ← (if bool_decide (is_Some (sg_net g)) then Some (true, g) else init_outside net_ok g);
  if negb ok : bool then Some (-1, g, c) else
  g ← init_myself g;
  Some (0, g, c).
End servg.
