(* ===== verification/ServGroupRpc.v ===== *)
(** * [serv_group/]: each remote call is answered once

    The callback of a remote call runs when the answer comes, when its time is
    over or when the connection is closed, and then its parameter is freed.
    Whatever the other servers send, in a defined run it runs exactly once for
    a parameter that is freed, and never for one that is not. *)

From S2P Require Import Prelude SArray SQueue Packet SHashSpec Cluster ServGroup.
Local Open Scope Z_scope.

(** invert what a computation in [option] did *)
Ltac some_inv :=
  repeat match goal with
  | H : mbind _ _ = Some _ |- _ => apply bind_Some in H as (? & ? & H); cbn beta in H
  | H : (let '(_, _) := ?p in _) = Some _ |- _ => let E := fresh "E" in destruct p eqn:E
  | H : (if ?b then _ else _) = Some _ |- _ => let E := fresh "E" in destruct b eqn:E
  | H : match ?o with Some _ => _ | None => _ end = Some _ |- _ => let E := fresh "E" in destruct o eqn:E
  | _ => progress simplify_eq
  end.

(** ** Parameters and callbacks *)
Section once.
Context {CB H : Type}.
Implicit Types (rs : rpcs CB) (tr : list (event CB H)) (D : list nat) (a : nat).

Definition is_call (a : nat) (e : event CB H) : bool :=
  match e with Called b _ _ _ => bool_decide (a = b) | _ => false end.
(** how often the callback of parameter [a] has run *)
Definition called (a : nat) tr : nat := length (filter (λ e, is_call a e = true) tr).
Definition times (a : nat) D : nat := length (filter (λ b, a = b) D).

(** [D]: the parameters whose callback has been started and that have not
    been freed after it *)
Record once D rs tr : Prop := {
  o_next : ∀ a, is_Some (r_params rs !! a) → (a < r_next rs)%nat;
  o_busy : ∀ a, is_Some (r_params rs !! a) → called a tr = times a D;
  o_done : ∀ a, (a < r_next rs)%nat → r_params rs !! a = None → a ∉ D → called a tr = 1%nat;
  o_known : ∀ a, a ∈ D → (a < r_next rs)%nat;
  o_new : ∀ a, (r_next rs ≤ a)%nat → called a tr = 0%nat
}.

Lemma called_snoc a tr e : called a (tr ++ [e]) = (called a tr + if is_call a e then 1 else 0)%nat.
Proof.
  unfold called. rewrite filter_app, length_app. f_equal. rewrite filter_cons, filter_nil.
  destruct (is_call a e); by rewrite ?decide_True, ?decide_False by congruence.
Qed.

Lemma once_init : once [] (Rpcs [] ∅ 0) [].
Proof.
  split; cbn; [by intros a [??]|by intros a [??]|lia|by intros a ?%elem_of_nil|done].
Qed.

Lemma once_quiet D rs tr e : (∀ a, is_call a e = false) → once D rs tr → once D rs (tr ++ [e]).
Proof.
  intros He [H1 H2 H3 H4 H5]. split; try done; intros a; rewrite called_snoc, He, Nat.add_0_r; auto.
Qed.

Lemma times_cons_eq a D : times a (a :: D) = S (times a D).
Proof. unfold times. by rewrite filter_cons, decide_True. Qed.
Lemma times_cons_ne a b D : a ≠ b → times a (b :: D) = times a D.
Proof. intros. unfold times. by rewrite filter_cons, decide_False. Qed.
Lemma times_0 a D : a ∉ D → times a D = 0%nat.
Proof.
  induction D as [|b D IH]; [done|]. intros [? ?]%not_elem_of_cons. rewrite times_cons_ne by done. auto.
Qed.

Lemma once_call D rs tr a r cb back :
  (a < r_next rs)%nat → once D rs tr → once (a :: D) rs (tr ++ [Called a r cb back]).
Proof.
  intros Ha [H1 H2 H3 H4 H5]. split; intros b; rewrite ?called_snoc; cbn [is_call].
  - auto.
  - intros Hb. rewrite (H2 b Hb). destruct (decide (b = a)) as [->|].
    + rewrite bool_decide_true, times_cons_eq by done. lia.
    + rewrite bool_decide_false, times_cons_ne by done. lia.
  - intros Hn Hp [Hne HD]%not_elem_of_cons. rewrite bool_decide_false by done. rewrite (H3 b) by done. lia.
  - intros [->|?]%elem_of_cons; auto.
  - intros Hn. rewrite bool_decide_false by lia. rewrite (H5 b) by done. lia.
Qed.

Lemma once_free D rs tr a p :
  r_params rs !! a = Some p → once (a :: D) rs tr →
  ∀ l, once D (Rpcs l (delete a (r_params rs)) (r_next rs)) tr.
Proof.
  intros Ha [H1 H2 H3 H4 H5] l. split; cbn [r_params r_next]; intros b.
  - intros Hb. apply H1. rewrite lookup_delete_is_Some in Hb. tauto.
  - intros [Hne Hb]%lookup_delete_is_Some. rewrite (H2 b Hb), times_cons_ne; congruence.
  - intros Hn Hb HD. destruct (decide (b = a)) as [->|].
    + rewrite (H2 a) by eauto. rewrite times_cons_eq, times_0; done.
    + rewrite lookup_delete_ne in Hb by congruence. apply H3; [done..|]. by apply not_elem_of_cons.
  - intros HD. apply H4. by right.
  - auto.
Qed.

Lemma once_new D rs tr p l :
  once D rs tr → once D (Rpcs l (<[r_next rs := p]> (r_params rs)) (S (r_next rs))) tr.
Proof.
  intros [H1 H2 H3 H4 H5]. split; cbn [r_params r_next]; intros b.
  - rewrite lookup_insert_is_Some. intros [<-|[_ Hb]]; [lia|]. apply H1 in Hb. lia.
  - rewrite lookup_insert_is_Some. intros [<-|[_ Hb]]; [|auto].
    rewrite (H5 _ (le_n _)), times_0; [done|]. intros Hd. apply H4 in Hd. lia.
  - rewrite lookup_insert_None. intros Hn [Hb Hne] HD. apply H3; [lia|done..].
  - intros Hd. apply H4 in Hd. lia.
  - intros Hn. apply H5. lia.
Qed.

Lemma once_timeouts D rs tr l : once D rs tr → once D (Rpcs l (r_params rs) (r_next rs)) tr.
Proof. by intros [H1 H2 H3 H4 H5]. Qed.

(** what it says of a group at rest *)
Lemma once_rest rs tr a :
  once [] rs tr →
  (is_Some (r_params rs !! a) → called a tr = 0%nat) ∧
  ((a < r_next rs)%nat → r_params rs !! a = None → called a tr = 1%nat) ∧
  ((r_next rs ≤ a)%nat → called a tr = 0%nat).
Proof.
  intros [H1 H2 H3 H4 H5]. split; [intros Hs; by rewrite H2|]. split; [|apply H5]. intros. apply H3; [done..|]. set_solver.
Qed.
End once.

Section servg.
Context {T U CB H : Type} `{HTb : !Table Z nat T}.
Abbreviation group := (s_server_group T U CB H).
Implicit Types (g : group) (r : serv_id) (c : nat) (D : list nat).

Definition inv D g : Prop := once D (sg_rpcs g) (sg_trace g).
(** the parameters and the callbacks run are those before *)
Definition still g g' : Prop := sg_rpcs g' = sg_rpcs g ∧ sg_trace g' = sg_trace g.

Lemma still_inv D g g' : still g g' → inv D g → inv D g'.
Proof. intros [E1 E2]. unfold inv. by rewrite E1, E2. Qed.
Lemma still_refl g : still g g.
Proof. done. Qed.
Lemma still_trans g1 g2 g3 : still g1 g2 → still g2 g3 → still g1 g3.
Proof. intros [??] [??]. split; congruence. Qed.

Ltac still_tac := intros; some_inv; split; reflexivity.

Lemma list_init_still g r g' : list_init g r = Some g' → still g g'.
Proof. unfold list_init. still_tac. Qed.
Lemma list_del_still g r g' : list_del g r = Some g' → still g g'.
Proof. unfold list_del. still_tac. Qed.
Lemma wait_for_conn_still g r g' : wait_for_conn g r = Some g' → still g g'.
Proof. unfold wait_for_conn. still_tac. Qed.
Lemma wait_for_identify_still g r g' : wait_for_identify g r = Some g' → still g g'.
Proof. unfold wait_for_identify. still_tac. Qed.
Lemma wait_for_ping_still g r g' : wait_for_ping g r = Some g' → still g g'.
Proof. unfold wait_for_ping. still_tac. Qed.
Lemma set_udata_still g c r g' : s_net_set_udata g c r = Some g' → still g g'.
Proof. unfold s_net_set_udata. still_tac. Qed.
Lemma connect_still g conn ip port o g' : s_net_connect g conn ip port = Some (o, g') → still g g'.
Proof. unfold s_net_connect. still_tac. Qed.
Lemma create_serv_still g type id o g' : s_servg_create_serv g type id = Some (o, g') → still g g'.
Proof.
  unfold s_servg_create_serv. intros. some_inv; try (split; reflexivity).
  all: match goal with Hl : list_init _ _ = Some _ |- _ => apply list_init_still in Hl end; done.
Qed.
Lemma unlink_serv_still g r g' : unlink_serv g r = Some g' → still g g'.
Proof.
  unfold unlink_serv. intros Hs. some_inv; repeat case_decide;
    repeat match goal with
    | Hl : list_del _ _ = Some _ |- _ => apply list_del_still in Hl
    | Hl : wait_for_conn _ _ = Some _ |- _ => apply wait_for_conn_still in Hl
    end; (eapply still_trans; [exact H0|done]).
Qed.
Lemma identify_serv_still g type id o g' : identify_serv g type id = Some (o, g') → still g g'.
Proof. unfold identify_serv. intros. some_inv; [split; reflexivity|by eapply create_serv_still]. Qed.

(** the invariant goes through a step by lemma [L] *)
Ltac by_inv L :=
  multimatch goal with
  | Hi : inv _ _, Hs : _ = Some _ |- _ => (eapply L in Hs; [exact Hs|exact Hi])
  end.

Ltac still_step :=
  match goal with
  | Hw : wait_for_identify _ ?r = Some ?g |- inv _ ?g => apply (still_inv _ _ _ (wait_for_identify_still _ _ _ Hw))
  | Hw : list_del _ ?r = Some ?g |- inv _ ?g => apply (still_inv _ _ _ (list_del_still _ _ _ Hw))
  | Hw : s_net_set_udata _ _ _ = Some ?g |- inv _ ?g => apply (still_inv _ _ _ (set_udata_still _ _ _ _ Hw))
  | Hw : s_net_connect _ _ _ _ = Some (_, ?g) |- inv _ ?g => apply (still_inv _ _ _ (connect_still _ _ _ _ _ _ Hw))
  | Hw : s_servg_create_serv _ _ _ = Some (_, ?g) |- inv _ ?g => apply (still_inv _ _ _ (create_serv_still _ _ _ _ _ Hw))
  | |- inv ?D (upd_serv _ ?g _) => change (inv D g)
  end.

Section network.
Context (react : group → event CB H → option (U * list (request CB))) (wfail : nat → bool).
Context (now : timeval) (close : group → nat → option group).
Hypothesis close_inv : ∀ D g c g', inv D g → close g c = Some g' → inv D g'.

Lemma close_drop_inv D g c g' : inv D g → close g c = Some g' → inv D (drop_conn g' c).
Proof using close_inv. intros Hi Hc. exact (close_inv _ _ _ _ Hi Hc). Qed.

Lemma net_close_inv D g c g' : inv D g → s_net_close close g c = Some g' → inv D g'.
Proof using close_inv. unfold s_net_close. intros Hi ?. some_inv. by eapply close_drop_inv. Qed.

Lemma net_send_inv D g c pkt g' : inv D g → s_net_send wfail close g c pkt = Some g' → inv D g'.
Proof using close_inv.
  unfold s_net_send. intros Hi Hs. some_inv; [eapply close_drop_inv; [|done]|]; by apply once_quiet.
Qed.

Lemma isend_inv D g r pkt g' : inv D g → isend wfail close g r pkt = Some g' → inv D g'.
Proof using close_inv. unfold isend. intros Hi ?. some_inv; [exact Hi|by eapply net_send_inv]. Qed.

Lemma new_param_inv D g r req cb msec a g' : inv D g → new_param now g r req cb msec = Some (a, g') → inv D g'.
Proof. unfold new_param. intros Hi ?. some_inv; by apply once_new. Qed.

Lemma rpc_call_inv D g r pkt cb msec ret g' :
  inv D g → s_servg_rpc_call wfail now close g r pkt cb msec = Some (ret, g') → inv D g'.
Proof using close_inv.
  unfold s_servg_rpc_call. intros Hi Hs. some_inv.
  - exact Hi.
  - eapply isend_inv; [|done]. by_inv new_param_inv.
  - by eapply isend_inv.
Qed.

Lemma send_identify_inv D mem g c g' : inv D g → send_identify wfail close mem g c = Some g' → inv D g'.
Proof using close_inv. unfold send_identify. intros Hi Hs. some_inv. by_inv net_send_inv. Qed.

Lemma servg_connect_inv D mem g type id ip port conn o g' :
  inv D g → s_servg_connect wfail now close mem g type id ip port conn = Some (o, g') → inv D g'.
Proof using close_inv.
  unfold s_servg_connect. intros Hi Hs.
  some_inv; try (eapply send_identify_inv; [|eassumption]); by repeat still_step.
Qed.

Lemma run_request_inv D g q g' : inv D g → run_request wfail now close g q = Some g' → inv D g'.
Proof using close_inv.
  intros Hi Hs. destruct q; cbn [run_request] in Hs.
  - apply fmap_Some in Hs as ([ret g1] & Hs & ->). exact (rpc_call_inv _ _ _ _ _ _ _ _ Hi Hs).
  - exact (isend_inv _ _ _ _ _ Hi Hs).
  - apply fmap_Some in Hs as ([ret g1] & Hs & ->). exact (rpc_call_inv _ _ _ _ _ _ _ _ Hi Hs).
  - apply fmap_Some in Hs as ([ret g1] & Hs & ->). exact (servg_connect_inv _ _ _ _ _ _ _ _ _ _ Hi Hs).
Qed.

Lemma run_requests_inv D qs g g' : inv D g → run_requests wfail now close g qs = Some g' → inv D g'.
Proof using close_inv.
  revert g. induction qs as [|q qs IH]; cbn; intros g Hi Hs; some_inv; [done|].
  eapply IH; [|done]. by eapply run_request_inv.
Qed.

Lemma callback_inv D g e g' :
  (∀ a, is_call a e = false) → inv D g → callback react wfail now close g e = Some g' → inv D g'.
Proof using close_inv.
  unfold callback. intros He Hi Hs. some_inv. eapply run_requests_inv; [|done]. by apply once_quiet.
Qed.

Lemma callback_call_inv D g a r cb back p g' :
  r_params (sg_rpcs g) !! a = Some p →
  inv D g → callback react wfail now close g (Called a r cb back) = Some g' → inv (a :: D) g'.
Proof using close_inv.
  unfold callback. intros Ha Hi Hs. some_inv. eapply run_requests_inv; [|done].
  apply once_call; [|done]. eapply o_next; eauto.
Qed.

Lemma free_param_inv D g a g' : inv (a :: D) g → free_param g a = Some g' → inv D g'.
Proof. unfold free_param. intros Hi Hs. some_inv. by eapply once_free. Qed.

Lemma close_params_inv D l g r g' : inv D g → close_params react wfail now close g r l = Some g' → inv D g'.
Proof using close_inv.
  revert g. induction l as [|a l IH]; cbn; intros g Hi Hs; some_inv; [done|].
  eapply IH; [|done]. eapply free_param_inv; [|done]. by eapply callback_call_inv.
Qed.

Lemma reset_serv_inv D g r g' : inv D g → s_servg_reset_serv close g r = Some g' → inv D g'.
Proof using close_inv.
  unfold s_servg_reset_serv. intros Hi Hs. some_inv;
    (eapply still_inv; [by eapply unlink_serv_still|]); [by_inv net_close_inv|exact Hi].
Qed.

Lemma when_conn_closed_inv D g c g' :
  inv D g → when_conn_closed react wfail now close g c = Some g' → inv D g'.
Proof using close_inv.
  unfold when_conn_closed. intros Hi Hs. some_inv; [| |done].
  - eapply reset_serv_inv; [|done]. eapply callback_inv; [| |eassumption]; [done|].
    by_inv close_params_inv.
  - eapply reset_serv_inv; [|done]. exact Hi.
Qed.
End network.

Section events.
Context (react : group → event CB H → option (U * list (request CB))) (wfail : nat → bool).

Lemma iwhen_conn_closed_inv fuel now D g c g' :
  inv D g → iwhen_conn_closed react wfail fuel now g c = Some g' → inv D g'.
Proof.
  revert D g c g'. induction fuel as [|fuel IH]; [done|]. intros D g c g'. cbn. apply when_conn_closed_inv, IH.
Qed.

Context (fuel : nat) (now : timeval) (mem : Z).
Abbreviation close := (iwhen_conn_closed react wfail fuel now).

Lemma established_inv D g r g' : inv D g → established react wfail fuel now g r = Some g' → inv D g'.
Proof.
  unfold established. intros Hi Hs. some_inv.
  - eapply callback_inv in Hs; [exact Hs|apply iwhen_conn_closed_inv|done|].
    eapply callback_inv; [apply iwhen_conn_closed_inv| |exact Hi|eassumption]. done.
  - eapply callback_inv; [apply iwhen_conn_closed_inv| |exact Hi|eassumption]. done.
Qed.

Lemma send_inv D g c pkt g' : inv D g → s_net_send wfail close g c pkt = Some g' → inv D g'.
Proof. apply net_send_inv. apply iwhen_conn_closed_inv. Qed.
Lemma shut_inv D g c g' : inv D g → s_net_close close g c = Some g' → inv D g'.
Proof. apply net_close_inv. apply iwhen_conn_closed_inv. Qed.

Lemma auth_error_inv D g c g' : inv D g → auth_error react wfail fuel now mem g c = Some g' → inv D g'.
Proof. unfold auth_error. intros Hi Hs. some_inv. by_inv send_inv. Qed.

Lemma accept_serv_inv D g c r m g' :
  inv D g → accept_serv react wfail fuel now mem g c r m = Some g' → inv D g'.
Proof.
  unfold accept_serv. intros Hi Hs. some_inv. eapply established_inv; [|done]. eapply send_inv; [|eassumption].
  eapply still_inv; [by eapply wait_for_ping_still|]. eapply still_inv; [by eapply list_del_still|]. exact Hi.
Qed.

Lemma identify_inv D g c pkt g' :
  inv D g → ihandle_identify react wfail fuel now mem g c pkt = Some g' → inv D g'.
Proof.
  unfold ihandle_identify. intros Hi Hs. some_inv; try by_inv shut_inv; try by_inv auth_error_inv.
  all: match goal with Hd : identify_serv _ _ _ = Some _ |- _ =>
         apply identify_serv_still in Hd; apply (still_inv _ _ _ Hd) in Hi end.
  all: first [by_inv auth_error_inv|by_inv accept_serv_inv].
Qed.

Lemma identify_back_inv D g r pkt g' :
  inv D g → ihandle_identify_back react wfail fuel now g r pkt = Some g' → inv D g'.
Proof.
  assert (∀ g1, inv D g1 → s_servg_reset_serv close g1 r = Some g' → inv D g') as Hreset.
  { intros g1. apply reset_serv_inv. apply iwhen_conn_closed_inv. }
  unfold ihandle_identify_back. intros Hi Hs. case_match; [|by eapply Hreset].
  case_match. case_match; [by eapply Hreset| |by eapply Hreset].
  case_match; [by eapply Hreset..|]. some_inv. eapply established_inv; [|done].
  match goal with Hw : wait_for_ping _ _ = Some _ |- _ => apply wait_for_ping_still in Hw; apply (still_inv D _ _ Hw) end.
  eapply still_inv; [by eapply list_del_still|]. exact Hi.
Qed.

Lemma ping_inv D g r pkt g' : inv D g → ihandle_ping react wfail fuel now mem g r pkt = Some g' → inv D g'.
Proof.
  unfold ihandle_ping. intros Hi Hs. some_inv. eapply send_inv; [|done]. destruct o; exact Hi.
Qed.

Lemma pong_inv D g r pkt g' : inv D g → ihandle_pong now g r pkt = Some g' → inv D g'.
Proof.
  unfold ihandle_pong. intros Hi Hs. some_inv; try exact Hi.
  all: eapply still_inv; [by eapply wait_for_ping_still|]; eapply still_inv; [by eapply list_del_still|].
  all: repeat case_match; exact Hi.
Qed.

Lemma rpc_back_inv D g r pkt g' :
  inv D g → ihandle_rpc_back react wfail fuel now g r pkt = Some g' → inv D g'.
Proof.
  unfold ihandle_rpc_back. intros Hi Hs. some_inv; [|done].
  eapply callback_call_inv in Hi; [|apply iwhen_conn_closed_inv|eassumption..].
  match goal with Hf : free_param _ _ = Some _ |- _ => eapply free_param_inv in Hf; [exact Hf|] end.
  by apply once_timeouts.
Qed.

Lemma do_event_inv D g conn e g' :
  inv D g → s_servg_do_event react wfail fuel now mem g conn e = Some g' → inv D g'.
Proof.
  unfold s_servg_do_event. intros Hi Hs. destruct e; some_inv; try done.
  all: try by_inv (iwhen_conn_closed_inv fuel now).
  all: try by_inv rpc_back_inv.
  all: try by_inv identify_back_inv.
  all: try by_inv ping_inv.
  all: try by_inv pong_inv.
  all: try by_inv identify_inv.
  all: eapply callback_inv; [apply iwhen_conn_closed_inv| |exact Hi|eassumption]; done.
Qed.

Lemma check_serv_inv D g r conn b g' :
  inv D g → check_serv react wfail fuel now mem g r conn = Some (b, g') → inv D g'.
Proof.
  unfold check_serv. intros Hi Hs.
  some_inv; try (eapply send_identify_inv; [apply iwhen_conn_closed_inv| |eassumption]); by repeat still_step.
Qed.

Lemma check_loop_inv D n g p connect g' :
  inv D g → check_loop react wfail fuel now mem n g p connect = Some g' → inv D g'.
Proof.
  revert g p. induction n as [|n IH]; intros g p Hi Hs; cbn [check_loop] in Hs; some_inv; try done.
  - by_inv check_serv_inv.
  - eapply IH; [|done]. by_inv check_serv_inv.
Qed.

Lemma myself_loop_inv D n g g' : inv D g → myself_loop react wfail fuel now mem n g = Some g' → inv D g'.
Proof.
  revert g. induction n as [|n IH]; intros g Hi Hs; cbn [myself_loop] in Hs; some_inv; try done.
  eapply IH; [|done]. change (inv D x). by_inv do_event_inv.
Qed.

Lemma timeout_param_inv D g a g' : inv D g → timeout_param react wfail fuel now g a = Some g' → inv D g'.
Proof.
  unfold timeout_param. intros Hi Hs. some_inv; [|done].
  eapply callback_call_inv in Hi; [|apply iwhen_conn_closed_inv|eassumption..].
  eapply free_param_inv in Hs; [exact Hs|]. by apply once_timeouts.
Qed.

Lemma timeout_loop_inv D n g p g' : inv D g → timeout_loop react wfail fuel now n g p = Some g' → inv D g'.
Proof.
  revert g p. induction n as [|n IH]; intros g p Hi Hs; cbn [timeout_loop] in Hs; some_inv; try done.
  eapply IH; [|done]. by_inv timeout_param_inv.
Qed.

Lemma poll_inv D n g connect g' : inv D g → s_servg_poll react wfail fuel now mem n g connect = Some g' → inv D g'.
Proof.
  unfold s_servg_poll. intros Hi Hs. some_inv. eapply timeout_loop_inv; [|done].
  eapply myself_loop_inv; [|done]. by eapply check_loop_inv.
Qed.
End events.

(** ** Starting *)
Lemma init_region_still net_ok g cf region b g' cf' :
  init_region net_ok g cf region = Some (b, g', cf') → still g g'.
Proof.
  unfold init_region. intros Hs. some_inv; try (split; reflexivity).
  all: repeat match goal with
       | Hl : list_init _ _ = Some _ |- _ => apply list_init_still in Hl
       | Hl : wait_for_conn _ _ = Some _ |- _ => apply wait_for_conn_still in Hl
       end; repeat (eapply still_trans; [|eassumption]); repeat case_match; split; reflexivity.
Qed.

Lemma init_regions_still n net_ok g cf next b g' cf' :
  init_regions n net_ok g cf next = Some (b, g', cf') → still g g'.
Proof.
  revert g cf next. induction n as [|n IH]; intros g cf next Hs; cbn [init_regions] in Hs; some_inv; try (split; reflexivity).
  - eapply still_trans; [by eapply init_region_still|by eapply IH].
  - by eapply init_region_still.
Qed.

Lemma init_numbers_still g cf b g' cf' : init_numbers g cf = (b, g', cf') → still g g'.
Proof. unfold init_numbers. intros Hs. repeat case_match; simplify_eq; split; reflexivity. Qed.

Lemma init_outside_still net_ok g b g' : init_outside net_ok g = Some (b, g') → still g g'.
Proof.
  unfold init_outside. intros Hs. some_inv; [split; reflexivity|].
  match goal with Hc : s_servg_create_serv _ _ _ = Some _ |- _ => apply create_serv_still in Hc as [??] end.
  by split.
Qed.

Lemma init_config_still net_ok g cf z g' cf' : s_servg_init_config net_ok g cf = Some (z, g', cf') → still g g'.
Proof.
  unfold s_servg_init_config, init_myself. intros Hs. some_inv.
  all: repeat match goal with
       | Hl : init_numbers _ _ = _ |- _ => apply init_numbers_still in Hl
       | Hl : init_regions _ _ _ _ _ = Some _ |- _ => apply init_regions_still in Hl
       | Hl : init_outside _ _ = Some _ |- _ => apply init_outside_still in Hl
       end.
  all: repeat match goal with Hl : still _ _ |- _ => destruct Hl end.
  all: split; cbn in *; congruence.
Qed.

(** ** Histories *)
Section histories.
Context (react : group → event CB H → option (U * list (request CB))) (wfail : nat → bool).

(** what can happen to a group: a connection comes or is closed by the other
    end, a packet comes, [s_servg_poll] does its part before [s_net_poll], a
    new server is connected to, and the user sends and calls.  The time, the
    memory used and what [connect] gives are any. *)
Inductive gstep (g : group) : group → Prop :=
| step_accept fuel now mem c ip port g' :
    conn_accepted react wfail fuel now mem g c ip port = Some g' → gstep g g'
| step_closed fuel now mem c g' : conn_closed react wfail fuel now mem g c = Some g' → gstep g g'
| step_packet fuel now mem c pkt g' :
    s_servg_do_event react wfail fuel now mem g (Some c) (EvPkt pkt) = Some g' → gstep g g'
| step_poll fuel now mem n connect g' :
    s_servg_poll react wfail fuel now mem n g connect = Some g' → gstep g g'
| step_connect fuel now mem type id ip port conn o g' :
    s_servg_connect wfail now (iwhen_conn_closed react wfail fuel now) mem g type id ip port conn = Some (o, g') → gstep g g'
| step_user fuel now qs u g' :
    run_requests wfail now (iwhen_conn_closed react wfail fuel now) (g_udata u g) qs = Some g' → gstep g g'.

Lemma gstep_inv g g' : inv [] g → gstep g g' → inv [] g'.
Proof.
  intros Hi [fuel now mem c ip port g1 Hs|fuel now mem c g1 Hs|fuel now mem c pkt g1 Hs
    |fuel now mem n connect g1 Hs|fuel now mem type id ip port conn o g1 Hs|fuel now qs u g1 Hs].
  - unfold conn_accepted in Hs. some_inv. eapply do_event_inv; [|done]. exact Hi.
  - unfold conn_closed in Hs. some_inv. by_inv do_event_inv.
  - by eapply do_event_inv.
  - by eapply poll_inv.
  - eapply servg_connect_inv; [apply iwhen_conn_closed_inv|exact Hi|done].
  - eapply run_requests_inv; [apply iwhen_conn_closed_inv| |done]. exact Hi.
Qed.

(** C6. The callback of a remote call runs once.  Whatever packets come,
    connections are made and closed, writes fail and time passes, and
    whatever the callbacks send and call in turn: the parameter of a call that
    is kept has not had its callback run, that of a call that is freed has
    had it run exactly once, by the answer, the end of its time or the end of
    the connection, and no callback has run for a parameter that no call was
    given.  A run goes as far as the model is defined: a look at the list of
    time-outs after a connection with calls was closed reads freed memory
    ([ServGroupSpec.closed_call_stays_on_timeout_list]) and ends it. *)
Theorem rpc_callback_once net_ok type id u cf ret g0 cf' g :
  s_servg_init_config net_ok (s_servg_create type id u) cf = Some (ret, g0, cf') → rtc gstep g0 g →
  ∀ a, (is_Some (r_params (sg_rpcs g) !! a) → called a (sg_trace g) = 0%nat) ∧
       ((a < r_next (sg_rpcs g))%nat → r_params (sg_rpcs g) !! a = None → called a (sg_trace g) = 1%nat) ∧
       ((r_next (sg_rpcs g) ≤ a)%nat → called a (sg_trace g) = 0%nat).
Proof.
  intros Hg Hr a. apply once_rest. change (inv [] g).
  assert (inv [] g0) as Hi.
  { eapply still_inv; [by eapply init_config_still|]. apply once_init. }
  clear Hg. induction Hr as [|g1 g2 g3 Hs Hr IH]; [done|]. apply IH. by eapply gstep_inv.
Qed.
End histories.
End servg.
