(* ===== verification/ServGroupSpec.v ===== *)
(** * [serv_group/]: who is active, who may join, and two runs that go wrong *)

From stdpp Require Import strings.
From S2P Require Import Prelude SArray SQueue SString Packet Wire SHashSpec Config Cluster ServGroup ServGroupRpc.
Local Open Scope Z_scope.

Section servg.
Context {T U CB H : Type} `{HTb : !Table Z nat T}.
Abbreviation group := (s_server_group T U CB H).
Implicit Types (g : group) (r : serv_id) (c : nat).

(** ** The servers that are active *)
Section active.

Definition is_active (a : s_array (s_server T)) (i : Z) : Prop := in_config_active (arr_get a i) = true.
#[local] Instance is_active_dec a i : Decision (is_active a i).
Proof. unfold is_active. apply _. Defined.

Lemma find_active_spec a n i :
  match find_active a n i with
  | Some j => i <= j < i + Z.of_nat n ∧
      filter (is_active a) (seqZ i (Z.of_nat n)) = j :: filter (is_active a) (seqZ (j + 1) (i + Z.of_nat n - (j + 1)))
  | None => filter (is_active a) (seqZ i (Z.of_nat n)) = []
  end.
Proof.
  revert i. induction n as [|n IH]; intros i; cbn [find_active]; [done|].
  rewrite seqZ_cons by lia. replace (Z.pred (Z.of_nat (S n))) with (Z.of_nat n) by lia.
  replace (Z.succ i) with (i + 1) by lia. rewrite filter_cons.
  destruct (in_config_active (arr_get a i)) eqn:E.
  - rewrite decide_True by done. split; [lia|]. f_equal. f_equal. f_equal; lia.
  - rewrite decide_False by (unfold is_active; congruence). specialize (IH (i + 1)).
    destruct (find_active a n (i + 1)) as [j|]; [|exact IH]. destruct IH as [? ->].
    split; [lia|]. f_equal. f_equal. f_equal. lia.
Qed.

(** the loop of the callers: [id = -1; while(serv = next_active_serv(g, type, &id))] *)
Fixpoint active_walk (n : nat) g (type id : Z) : list serv_id :=
  match n with
  | O => []
  | S n =>
      match s_servg_next_active_serv g type id with
      | (Some r, id) => r :: active_walk n g type id
      | (None, _) => []
      end
  end.

Lemma active_walk_from g type a n id :
  s_servg_get_serv_array g type = Some a → s_array_len a - Z.max 0 id < Z.of_nat n →
  active_walk n g type id =
    Serv type <$> filter (is_active a) (seqZ (Z.max 0 id) (s_array_len a - Z.max 0 id)).
Proof.
  intros Ha. revert id. induction n as [|n IH]; intros id Hn; [by rewrite seqZ_nil by lia|].
  cbn [active_walk]. unfold s_servg_next_active_serv. rewrite Ha, s_max_spec.
  set (i := Z.max 0 id) in *. pose proof (find_active_spec a (Z.to_nat (s_array_len a - i)) i) as Hf.
  destruct (decide (s_array_len a - i < 0)) as [|].
  - replace (Z.to_nat (s_array_len a - i)) with 0%nat by lia. cbn [find_active]. by rewrite seqZ_nil by lia.
  - rewrite Z2Nat.id in Hf by lia. destruct (find_active a _ i) as [j|]; [|by rewrite Hf].
    destruct Hf as [Hj ->]. rewrite fmap_cons. f_equal. rewrite IH by lia.
    rewrite Z.max_r by lia. f_equal. f_equal. f_equal. lia.
Qed.

(** The loop over [s_servg_next_active_serv] that the creation of files
    uses ends, and meets exactly the servers of a type that are configured and
    established, each once, in the order of their ids. *)
Theorem next_active_walk g type a n :
  s_servg_get_serv_array g type = Some a → s_array_len a < Z.of_nat n →
  active_walk n g type (-1) = Serv type <$> filter (is_active a) (seqZ 0 (s_array_len a)).
Proof. intros Ha Hn. rewrite (active_walk_from _ _ a) by (done || lia). change (Z.max 0 (-1)) with 0. by rewrite Z.sub_0_r. Qed.
End active.

(** ** Who may join *)
Section joining.
Context (react : group → event CB H → option (U * list (request CB))) (wfail : nat → bool).
Context (fuel : nat) (now : timeval) (mem : Z).

Lemma close_stranger g c n g' :
  sg_conns g !! c = Some n → nc_udata n = None →
  iwhen_conn_closed react wfail fuel now g c = Some g' → g' = g.
Proof.
  intros Hc Hn. destruct fuel as [|f]; [done|]. cbn. unfold when_conn_closed. rewrite Hc. cbn. rewrite Hn.
  congruence.
Qed.

(** what is left as it was when nobody has joined *)
Definition nobody_joined g g' c : Prop :=
  sg_servs g' = sg_servs g ∧ sg_waits g' = sg_waits g ∧ sg_rpcs g' = sg_rpcs g ∧ sg_udata g' = sg_udata g ∧
  (sg_conns g' = sg_conns g ∨ sg_conns g' = delete c (sg_conns g)).

Lemma net_close_stranger g c n g' :
  sg_conns g !! c = Some n → nc_udata n = None →
  s_net_close (iwhen_conn_closed react wfail fuel now) g c = Some g' → nobody_joined g g' c.
Proof.
  intros Hc Hn Hs. unfold s_net_close in Hs. some_inv.
  assert (x0 = g) as -> by (eapply close_stranger; eauto). split_and!; try done. by right.
Qed.

Lemma net_send_stranger g c n p g' :
  sg_conns g !! c = Some n → nc_udata n = None →
  s_net_send wfail (iwhen_conn_closed react wfail fuel now) g c p = Some g' → nobody_joined g g' c.
Proof.
  intros Hc Hn Hs. unfold s_net_send in Hs. some_inv.
  - match goal with Hx : iwhen_conn_closed _ _ _ _ ?g1 c = Some ?x |- _ =>
      assert (x = g1) as -> by (eapply close_stranger; eauto) end.
    split_and!; try done. by right.
  - split_and!; try done. by left.
Qed.

(** the packet asks to join and knows the password *)
Definition may_join g (pkt : s_packet) : Prop :=
  s_packet_get_fun pkt = S_PKT_TYPE_IDENTIFY ∧ ∃ q, read_uint pkt = Some (cf_ipc_pwd (sg_conf g), q).

(** C27. A connection on which nobody has identified himself changes nothing
    without the password of the group: whatever else its packet is, no server,
    list, call or state of the user changes; it is answered no, or closed. *)
Theorem identify_needs_password g c n pkt g' :
  sg_conns g !! c = Some n → nc_udata n = None → ¬ may_join g pkt →
  s_servg_do_event react wfail fuel now mem g (Some c) (EvPkt pkt) = Some g' → nobody_joined g g' c.
Proof.
  intros Hc Hn Hj Hs. unfold s_servg_do_event in Hs. rewrite Hc in Hs. cbn in Hs. rewrite Hn in Hs.
  unfold ihandle_identify in Hs. destruct (_ =? S_PKT_TYPE_IDENTIFY) eqn:Ef; [|by eapply net_close_stranger].
  cbn [negb] in Hs. apply Z.eqb_eq in Ef. destruct (read_uint pkt) as [[pwd q]|] eqn:Er; [|by eapply net_close_stranger].
  destruct (pwd =? _) eqn:Ep; [|unfold auth_error in Hs; some_inv; by eapply net_send_stranger].
  apply Z.eqb_eq in Ep. destruct Hj. split; [done|]. exists q. by subst.
Qed.

(** A configured server that is not established and knows the password is
    let in: the bytes its [s_servg_pkt_identify] puts on the wire, received by
    [s_packet_create_from] whatever the pools hold, make the handler establish
    this server on this connection, with the memory it tells. *)
Theorem identify_lets_in g c n r s junk pool pool' tl p q type id m :
  sg_conns g !! c = Some n → nc_udata n = None →
  is_uint (cf_ipc_pwd (sg_conf g)) → is_int type → is_int id → is_uint m → pool_wf pool →
  s_servg_pkt_identify m type id (cf_ipc_pwd (sg_conf g)) = Some p →
  (let bytes := take (Z.to_nat (pk_size p)) (pk_data p) ++ tl in
   s_packet_create_from junk pool bytes (Z.of_nat (length bytes)) = CF_packet q pool') →
  s_servg_get_serv_in_config g type id = Some r → serv_at g r = Some s →
  has_flag s S_SERV_FLAG_ESTABLISHED = false →
  s_servg_do_event react wfail fuel now mem g (Some c) (EvPkt q) =
    accept_serv react wfail fuel now mem g c r m.
Proof.
  intros Hc Hn Hpwd Ht Hid Hm Hpool Hp Hq Hr Hs He.
  set (fs := [Fuint (cf_ipc_pwd (sg_conf g)); Fint type; Fint id; Fuint m]).
  assert (Forall field_ok fs) as Hok by (repeat (apply Forall_cons_2; [done|]); apply Forall_nil_2).
  destruct (easy_write_spec 0 g_free_init S_PKT_TYPE_IDENTIFY 16 fs) as (p1 & ? & tl1 & Ee & _ & Hcar & _);
    [apply g_free_init_wf|done|vm_compute; split; discriminate|].
  unfold s_servg_pkt_identify, build_easy in Hp. fold fs in Hp. rewrite Ee in Hp.
  cbn [fst mbind option_bind] in Hp. injection Hp as <-.
  destruct Hcar as (Hw & Hsz & Hh & Hf & Hpl).
  destruct (create_from_spec junk pool (write_fields p1 fs) S_PKT_TYPE_IDENTIFY tl) as (q1 & g1 & Eq & _ & Hwq & _ & _ & Hrest & Hfun);
    [done|done|rewrite Hsz; vm_compute; split; discriminate|done..|].
  assert (CF_packet q pool' = CF_packet q1 g1) as [= <- <-] by exact (eq_trans (eq_sym Hq) Eq).
  unfold s_servg_do_event. rewrite Hc. cbn. rewrite Hn. unfold ihandle_identify. rewrite Hfun.
  change (negb (uint S_PKT_TYPE_IDENTIFY =? S_PKT_TYPE_IDENTIFY)) with false. cbv iota.
  rewrite Hpl in Hrest. unfold enc_fields, fs in Hrest. cbn [map concat] in Hrest. rewrite <-!app_assoc in Hrest.
  destruct (read_uint_field q _ _ Hwq Hpwd Hrest) as (q2 & -> & Hw2 & Hr2).
  destruct (read_int_field q2 _ _ Hw2 Ht Hr2) as (q3 & E3 & Hw3 & Hr3).
  destruct (read_int_field q3 _ _ Hw3 Hid Hr3) as (q4 & E4 & Hw4 & Hr4).
  destruct (read_uint_field q4 _ _ Hw4 Hm Hr4) as (q5 & E5 & _).
  rewrite Z.eqb_refl. cbn [negb]. rewrite E3. cbn [mbind option_bind]. rewrite E4. cbn [mbind option_bind].
  rewrite E5. cbn [mbind option_bind].
  unfold identify_serv. rewrite Hr. cbn [mbind option_bind]. rewrite Hs. cbn [mbind option_bind]. by rewrite He.
Qed.
End joining.
End servg.

(** ** A small group
    Meta servers 1 and 2 and data server 1; the tables are finite maps.  The
    user of server 1 calls whoever joins, and gives it three seconds. *)
Module Sample.
Definition eol : String.string := String.String (Ascii.ascii_of_nat 10) String.EmptyString.
Definition config_text : list Z := cstr (String.concat eol
  ["sec_for_timeover = 5"; "sec_for_pingpong = 5"; "sec_for_reconnect = 3"; "ipc_pwd = 19690716";
   "mserver-1:"; "ip = 127.0.0.1"; "port = 8001"; "mserver-2:"; "ip = 127.0.0.1"; "port = 8002";
   "dserver-1:"; "ip = 127.0.0.1"; "port = 9001"; " "])%string.
Definition config : s_config := Eval vm_compute in default (SConfig [] None 0) (s_config_create config_text).

Abbreviation group := (s_server_group (gmap Z nat) unit nat unit).
Definition blank : group := s_servg_create S_SERV_TYPE_M 1 tt.
Definition ask : s_packet := Eval vm_compute in default inhabitant (build_easy S_PKT_TYPE_CREATE_CHECK_AUTH 4 [Fint 77]).
Definition react (_ : group) (e : event nat unit) : option (unit * list (request nat)) :=
  Some (tt, match e with Established r => [RCall r ask 9%nat 3000] | _ => [] end).
Definition wfail (_ : nat) : bool := false.
Definition noon : timeval := Tv 43200 0.

Definition g0 : group := Eval vm_compute in match s_servg_init_config true blank config with Some (_, g, _) => g | None => blank end.
Lemma g0_init : ∃ c, s_servg_init_config true blank config = Some (0, g0, c).
Proof. vm_compute. by eexists. Qed.

Definition event (g : group) (c : nat) (pkt : s_packet) : option group :=
  s_servg_do_event react wfail 5 noon 0 g (Some c) (EvPkt pkt).
(** server 2 connects, tells who it is, and answers *)
Definition identify (type id : Z) : s_packet :=
  with_pos (default inhabitant (s_servg_pkt_identify 5 type id 19690716)) S_PKT_DATA_POS.
Definition answer : s_packet := with_pos (s_packet_set_req (s_packet_set_fun ask S_PKT_TYPE_RPC_BACK_).2 1).2 S_PKT_DATA_POS.
Definition accepted (g : group) (c : nat) : group :=
  default g (conn_accepted react wfail 5 noon 0 g c (cstr "127.0.0.1"%string) 40000).
Definition g1 : group := Eval vm_compute in accepted g0 3.
Definition g2 : group := Eval vm_compute in default g1 (event g1 3 (identify S_SERV_TYPE_M 2)).
Definition g3 : group := Eval vm_compute in default g2 (event g2 3 answer).
(** or goes away before it answers *)
Definition g3' : group := Eval vm_compute in default g2 (conn_closed react wfail 5 noon 0 g2 3).

Lemma g1_step : gstep react wfail g0 g1.
Proof. eapply (step_accept _ _ _ 5 noon 0 3 (cstr "127.0.0.1"%string) 40000). vm_compute. reflexivity. Qed.
Lemma g2_step : gstep react wfail g1 g2.
Proof. eapply (step_packet _ _ _ 5 noon 0 3 (identify S_SERV_TYPE_M 2)). vm_compute. reflexivity. Qed.
Lemma g3_step : gstep react wfail g2 g3.
Proof. eapply (step_packet _ _ _ 5 noon 0 3 answer). vm_compute. reflexivity. Qed.
Lemma g3'_step : gstep react wfail g2 g3'.
Proof. eapply (step_closed _ _ _ 5 noon 0 3). vm_compute. reflexivity. Qed.
Lemma g3_reachable : rtc (gstep react wfail) g0 g3.
Proof. eapply rtc_l; [exact g1_step|]. eapply rtc_l; [exact g2_step|]. apply rtc_once. exact g3_step. Qed.

Lemma rpc_callback_once_witness :
  r_next (sg_rpcs g3) = 1%nat ∧ called 0 (sg_trace g3) = 1%nat.
Proof.
  split; [vm_compute; reflexivity|]. destruct g0_init as [c Hc].
  apply (rpc_callback_once react wfail true S_SERV_TYPE_M 1 tt config 0 g0 c g3 Hc g3_reachable 0).
  - vm_compute. lia.
  - vm_compute. reflexivity.
Defined.

Lemma next_active_walk_witness : active_walk 20 g2 S_SERV_TYPE_M (-1) = [Serv S_SERV_TYPE_M 2].
Proof.
  rewrite (next_active_walk g2 S_SERV_TYPE_M (default (s_array_create 16) (sg_servs g2 !! 1%nat)) 20); vm_compute; reflexivity.
Defined.

Definition no_password : s_packet := with_pos (default inhabitant (s_servg_pkt_identify 5 S_SERV_TYPE_M 2 1)) S_PKT_DATA_POS.
Lemma identify_needs_password_witness : sg_servs (default g1 (event g1 3 no_password)) = sg_servs g1.
Proof.
  apply (identify_needs_password react wfail 5 noon 0 g1 3 (NConn None (cstr "127.0.0.1"%string) 40000) no_password).
  - vm_compute. reflexivity.
  - reflexivity.
  - intros [_ (q & Hq)]. vm_compute in Hq. discriminate.
  - vm_compute. reflexivity.
Defined.

(** what server 1 receives when server 2 tells who it is *)
Definition received : s_packet :=
  let p := default inhabitant (s_servg_pkt_identify 5 S_SERV_TYPE_M 2 19690716) in
  match s_packet_create_from 170 g_free_init (pk_data p) 28 with CF_packet q _ => q | _ => p end.
Lemma identify_lets_in_witness :
  event g1 3 received = accept_serv react wfail 5 noon 0 g1 3 (Serv S_SERV_TYPE_M 2) 5.
Proof.
  unfold event. eapply (identify_lets_in react wfail 5 noon 0 g1 3 (NConn None (cstr "127.0.0.1"%string) 40000)
    (Serv S_SERV_TYPE_M 2) (default inhabitant (serv_at g1 (Serv S_SERV_TYPE_M 2))) 170 g_free_init _
    [] (default inhabitant (s_servg_pkt_identify 5 S_SERV_TYPE_M 2 19690716)) received S_SERV_TYPE_M 2 5).
  - reflexivity.
  - reflexivity.
  - vm_compute. split; congruence.
  - vm_compute. split; congruence.
  - vm_compute. split; congruence.
  - vm_compute. split; congruence.
  - apply g_free_init_wf.
  - vm_compute. reflexivity.
  - vm_compute. reflexivity.
  - vm_compute. reflexivity.
  - vm_compute. reflexivity.
  - vm_compute. reflexivity.
Defined.

(** A call with a time limit does not survive the end of its connection:
    [iwhen_conn_closed] runs its callback and frees its parameter, but leaves
    it on the list of timeouts.  Server 2 joins, is called and goes away; the
    next [s_servg_poll] of server 1, whatever the time, follows the freed
    parameter. *)
Theorem closed_call_stays_on_timeout_list :
  rtc (gstep react wfail) g0 g3' ∧
  r_timeout (sg_rpcs g3') = [0%nat] ∧ r_params (sg_rpcs g3') = ∅ ∧
  ∀ fuel now mem n connect, s_servg_poll react wfail fuel now mem n g3' connect = None.
Proof.
  split; [|split; [|split; [reflexivity|]]].
  - eapply rtc_l; [exact g1_step|]. eapply rtc_l; [exact g2_step|]. apply rtc_once. exact g3'_step.
  - reflexivity.
  - intros fuel now mem n connect. by destruct n.
Qed.

(** The id of the server itself is not refused: whoever knows the password
    and says he is server 1 to server 1 is established as the cell that
    [servg->myself] points to. *)
Theorem own_id_is_accepted :
  sg_myself g1 = Some (Serv S_SERV_TYPE_M 1) ∧
  ∃ g, event g1 3 (identify S_SERV_TYPE_M 1) = Some g ∧
    sg_myself g = Some (Serv S_SERV_TYPE_M 1) ∧
    s_servg_get_active_serv g S_SERV_TYPE_M 1 = Some (Serv S_SERV_TYPE_M 1) ∧
    se_conn <$> serv_at g (Serv S_SERV_TYPE_M 1) = Some (Some 3%nat).
Proof. split; [reflexivity|]. eexists. split; [vm_compute; reflexivity|]. vm_compute. auto. Qed.

(** A client that is not in the configuration and identifies itself again,
    on another connection, has its links set anew while it is on a list. *)
Example double_join_breaks_list :
  let h1 := default g1 (event g1 3 (identify S_SERV_TYPE_C 5)) in
  w_ping (sg_waits h1) = [Serv S_SERV_TYPE_C 5] ∧
  event (accepted h1 4) 4 (identify S_SERV_TYPE_C 5) = None.
Proof. split; vm_compute; reflexivity. Qed.

(** An answer from a server that has not been identified yet meets no table. *)
Example early_answer_fails :
  let h1 := default g0 (conn_accepted react wfail 5 noon 0 g0 3 [] 0) in
  let h2 := default h1 (s_net_set_udata h1 3 (Serv S_SERV_TYPE_D 1)) in
  event h2 3 answer = None.
Proof. vm_compute. reflexivity. Qed.
End Sample.
