(* ===== verification/ServGroupUser.v ===== *)
(** * [serv_group/]: what the user of a group may rely on

    A server that a connection, a list or [myself] points to is in the array
    of its type, so the table [handle_msg] is read at the row of that type: a
    handler runs only for the kind of server it was registered for.  What is
    true of the user's data at first and is kept by the handlers called like
    that stays true whatever the other servers send. *)

From S2P Require Import Prelude SArray SQueue SString Packet Wire SHashSpec Config Cluster ServGroup ServGroupRpc.
Local Open Scope Z_scope.

Lemma list_alter_at {A} (f : A → A) (l : list A) i x : l !! i = Some x → alter f i l = <[i := f x]> l.
Proof.
  intros Hx. apply list_eq. intros j. destruct (decide (i = j)) as [<-|].
  - rewrite list_lookup_alter_eq, Hx, list_lookup_insert_eq; [done|]. by eapply lookup_lt_Some.
  - by rewrite list_lookup_alter_ne, list_lookup_insert_ne.
Qed.

Section user.
Context {T U CB H : Type} `{HTb : !Table Z nat T}.
Abbreviation group := (s_server_group T U CB H).
Abbreviation server := (s_server T).
Implicit Types (g : group) (r : serv_id) (c : nat) (s : server) (a : s_array server).

(** ** Cells and their types *)
Definition cell_ok (t : nat) s : Prop := has_flag s S_SERV_FLAG_IN_CONFIG = true → se_type s = Z.of_nat t.
Definition arr_ok (t : nat) a : Prop := arr_wf a ∧ Forall (cell_ok t) (arr_list a).
Definition arrs_ok (l : list (s_array server)) : Prop := ∀ t a, l !! t = Some a → arr_ok t a.
(** the pointer is to a cell of the array of its type, and the cell says so *)
Definition known g r : Prop := 0 <= sv_type r ∧ ∃ s, serv_at g r = Some s ∧ se_type s = sv_type r.

Lemma arr_at_list a i : arr_wf a →
  (j ← s_array_at a i; Some (arr_get a j)) = if decide (0 <= i) then arr_list a !! Z.to_nat i else None.
Proof.
  intros Hw. rewrite s_array_at_spec by done. pose proof (length_arr_list a Hw) as Hl.
  case_decide as E.
  - rewrite decide_True by lia. cbn [mbind option_bind]. symmetry. by apply arr_get_spec.
  - cbn [mbind option_bind]. case_decide; [|done]. symmetry. apply lookup_ge_None_2. lia.
Qed.

Lemma serv_at_list g r : arrs_ok (sg_servs g) →
  serv_at g r = (a ← sg_servs g !! Z.to_nat (sv_type r);
                 if decide (0 <= sv_id r) then arr_list a !! Z.to_nat (sv_id r) else None).
Proof.
  intros Ha. unfold serv_at. destruct (sg_servs g !! _) as [a|] eqn:E; cbn [mbind option_bind]; [|done].
  apply arr_at_list. by apply (Ha _ _ E).
Qed.

(** a server is changed *)
Lemma upd_arrs g r f s : arrs_ok (sg_servs g) → serv_at g r = Some s →
  ∃ a, sg_servs g !! Z.to_nat (sv_type r) = Some a ∧ 0 <= sv_id r < s_array_len a ∧
    arr_get a (sv_id r) = s ∧
    sg_servs (upd_serv f g r) = <[Z.to_nat (sv_type r) := arr_set a (sv_id r) (f s)]> (sg_servs g) ∧
    arr_wf (arr_set a (sv_id r) (f s)) ∧
    arr_list (arr_set a (sv_id r) (f s)) = <[Z.to_nat (sv_id r) := f s]> (arr_list a).
Proof.
  intros Ha Hs. unfold serv_at in Hs. destruct (sg_servs g !! _) as [a|] eqn:E; [|done]. cbn [mbind option_bind] in Hs.
  destruct (Ha _ _ E) as [Hw _]. rewrite s_array_at_spec in Hs by done. case_decide as Hi; [|done].
  cbn [mbind option_bind] in Hs. simplify_eq. exists a. destruct (arr_set_spec a (sv_id r) (f (arr_get a (sv_id r))) Hw Hi) as [??].
  split_and!; try done; try lia. unfold upd_serv. cbn [sg_servs g_servs]. by rewrite (list_alter_at _ _ _ a).
Qed.

Record user_inv (tbl : gmap (Z * Z) H) (I : U → Prop) g : Prop := {
  j_arrs : arrs_ok (sg_servs g);
  j_conn c n r : sg_conns g !! c = Some n → nc_udata n = Some r → known g r;
  j_me r : sg_myself g = Some r → known g r;
  j_wait r : r ∈ w_conn (sg_waits g) → 0 <= sv_type r;
  j_tbl : sg_handle_msg g = tbl;
  j_user : I (sg_udata g)
}.
Definition grow g g' : Prop := ∀ r, known g r → known g' r.
Context (tbl : gmap (Z * Z) H) (I : U → Prop).
Abbreviation J := (user_inv tbl I).
Definition good g g' : Prop := J g' ∧ grow g g'.

Lemma good_trans g1 g2 g3 : good g1 g2 → good g2 g3 → good g1 g3.
Proof. intros [H1 G1] [H2 G2]. split; [done|]. intros r Hr. by apply G2, G1. Qed.
Lemma good_refl g : J g → good g g.
Proof. intros Hj. split; [done|]. by intros r. Qed.

(** what does not touch the servers *)
Lemma good_calm g g' :
  sg_servs g' = sg_servs g → sg_handle_msg g' = sg_handle_msg g →
  (∀ c n r, sg_conns g' !! c = Some n → nc_udata n = Some r → known g r) →
  (∀ r, sg_myself g' = Some r → known g r) →
  (∀ r, r ∈ w_conn (sg_waits g') → 0 <= sv_type r) →
  I (sg_udata g') → J g → good g g'.
Proof.
  intros Es Et Hc Hm Hw Hi Hj.
  assert (∀ r, known g r → known g' r) as Hk.
  { intros r (H0 & s & Hs & E). split; [done|]. exists s. split; [|done]. unfold serv_at in *. by rewrite Es. }
  split; [|done]. split; [rewrite Es; apply Hj|naive_solver..| | |]; [done|rewrite Et; apply Hj|done].
Qed.

(** an array takes the place of another *)
Lemma array_good g (t : nat) a a2 :
  J g → sg_servs g !! t = Some a → arr_ok t a2 →
  (∀ (j : nat) s, arr_list a !! j = Some s → se_type s = Z.of_nat t →
    ∃ s', arr_list a2 !! j = Some s' ∧ se_type s' = Z.of_nat t) →
  good g (g_servs (<[t := a2]> (sg_servs g)) g).
Proof.
  intros Hj Ea Hok Hc. set (g2 := g_servs _ g).
  assert (arrs_ok (sg_servs g2)) as Harrs.
  { intros t' b Hb. cbn in Hb. destruct (decide (t = t')) as [<-|].
    - rewrite list_lookup_insert_eq in Hb by (by eapply lookup_lt_Some). by simplify_eq.
    - rewrite list_lookup_insert_ne in Hb by done. by apply (j_arrs _ _ _ Hj). }
  assert (∀ r, known g r → known g2 r) as Hk.
  { intros r (H0 & s & Hs & E). split; [done|]. rewrite serv_at_list in * by (done || apply Hj). cbn.
    destruct (decide (t = Z.to_nat (sv_type r))) as [->|].
    - rewrite list_lookup_insert_eq by (by eapply lookup_lt_Some). rewrite Ea in Hs.
      cbn [mbind option_bind] in *. case_decide; [|done].
      destruct (Hc _ _ Hs) as (s' & Hs' & E'); [lia|]. exists s'. split; [done|lia].
    - rewrite list_lookup_insert_ne by done. by exists s. }
  split; [|done]. split; [done|..].
  - intros c n r Hcn Hn. by apply Hk, (j_conn _ _ _ Hj c n).
  - intros r Hm. by apply Hk, (j_me _ _ _ Hj).
  - apply Hj.
  - apply Hj.
  - apply Hj.
Qed.

Lemma upd_good g r f s :
  J g → serv_at g r = Some s →
  (se_type (f s) = se_type s ∨ se_type (f s) = sv_type r ∧ 0 <= sv_type r) →
  (has_flag (f s) S_SERV_FLAG_IN_CONFIG = true →
   has_flag s S_SERV_FLAG_IN_CONFIG = true ∧ se_type (f s) = se_type s ∨ se_type (f s) = sv_type r ∧ 0 <= sv_type r) →
  good g (upd_serv f g r).
Proof.
  intros Hj Hs Ht Hf. destruct (upd_arrs g r f s (j_arrs _ _ _ Hj) Hs) as (a & Ea & Hid & Eg & Es & Hw & El).
  destruct (j_arrs _ _ _ Hj _ _ Ea) as [Hwa Hok].
  pose proof (arr_get_spec a (sv_id r) Hwa Hid) as Hl. rewrite Eg in Hl.
  replace (upd_serv f g r) with (g_servs (<[Z.to_nat (sv_type r) := arr_set a (sv_id r) (f s)]> (sg_servs g)) g)
    by (rewrite <-Es; done).
  apply (array_good _ _ a); [done|done|split; [done|]|].
  - rewrite El. apply Forall_insert; [done|]. intros Hfl. destruct (Hf Hfl) as [[H1 ->]|[-> ?]]; [|lia].
    rewrite Forall_lookup in Hok. by apply (Hok _ _ Hl).
  - intros j s' Hs' E. rewrite El. destruct (decide (j = Z.to_nat (sv_id r))) as [->|].
    + rewrite list_lookup_insert_eq by (by eapply lookup_lt_Some). exists (f s). split; [done|].
      assert (s' = s) as -> by congruence. destruct Ht as [->|[-> ?]]; [done|lia].
    + rewrite list_lookup_insert_ne by done. by exists s'.
Qed.

(** a change that leaves the type and, but for other bits, the flags *)
Lemma upd_quiet g r f s :
  J g → serv_at g r = Some s → (∀ s, se_type (f s) = se_type s) →
  (∀ s, has_flag (f s) S_SERV_FLAG_IN_CONFIG = true → has_flag s S_SERV_FLAG_IN_CONFIG = true) →
  good g (upd_serv f g r).
Proof. intros Hj Hs Ht Hf. apply (upd_good g r f s); eauto. Qed.

Lemma upd_known g r f :
  J g → known g r → (∀ s, se_type (f s) = se_type s) →
  (∀ s, has_flag (f s) S_SERV_FLAG_IN_CONFIG = true → has_flag s S_SERV_FLAG_IN_CONFIG = true) →
  good g (upd_serv f g r).
Proof. intros Hj (H0 & s & Hs & E) Ht Hf. by apply (upd_quiet g r f s). Qed.

Lemma serv_at_upd g r f s : J g → serv_at g r = Some s → serv_at (upd_serv f g r) r = Some (f s).
Proof.
  intros Hj Hs. destruct (upd_arrs g r f s (j_arrs _ _ _ Hj) Hs) as (a & Ea & Hid & Eg & Es & Hw & El).
  unfold serv_at. rewrite Es, list_lookup_insert_eq by (by eapply lookup_lt_Some). cbn [mbind option_bind].
  rewrite arr_at_list by done. rewrite decide_True by lia. rewrite El. apply list_lookup_insert_eq.
  destruct (j_arrs _ _ _ Hj _ _ Ea) as [Hwa _]. pose proof (length_arr_list _ Hwa). lia.
Qed.

Lemma good_next g1 g2 g3 : good g1 g2 → (J g2 → grow g1 g2 → good g2 g3) → good g1 g3.
Proof. intros [H1 G1] Hn. eapply good_trans; [by split|auto]. Qed.

Lemma list_init_good g r g' : J g → known g r → list_init g r = Some g' → good g g'.
Proof. unfold list_init. intros Hj Hr Hs. some_inv. by apply upd_known. Qed.

Lemma list_del_good g r g' : J g → list_del g r = Some g' → good g g'.
Proof.
  unfold list_del. intros Hj Hs. some_inv. apply good_calm; try apply Hj; try done.
  cbn. intros r' Hr. apply list_elem_of_filter in Hr as [_ Hr]. by apply (j_wait _ _ _ Hj).
Qed.

Lemma wait_for_conn_good g r g' : J g → 0 <= sv_type r → wait_for_conn g r = Some g' → good g g'.
Proof.
  unfold wait_for_conn. intros Hj Hr Hs. some_inv. apply good_calm; try apply Hj; try done.
  cbn. intros r' [?| ->%list_elem_of_singleton]%elem_of_app; [by apply (j_wait _ _ _ Hj)|done].
Qed.
Lemma wait_for_identify_good g r g' : J g → wait_for_identify g r = Some g' → good g g'.
Proof. unfold wait_for_identify. intros Hj Hs. some_inv. apply good_calm; try apply Hj; done. Qed.
Lemma wait_for_ping_good g r g' : J g → wait_for_ping g r = Some g' → good g g'.
Proof. unfold wait_for_ping. intros Hj Hs. some_inv. apply good_calm; try apply Hj; done. Qed.

Lemma set_conns_good g m :
  (∀ c n r, m !! c = Some n → nc_udata n = Some r → known g r) → J g → good g (g_conns m g).
Proof. intros Hm Hj. apply good_calm; try apply Hj; done. Qed.
Lemma drop_conn_good g c : J g → good g (drop_conn g c).
Proof. intros Hj. apply set_conns_good; [|done]. intros c' n r [_ Hc]%lookup_delete_Some. by apply (j_conn _ _ _ Hj c'). Qed.
Lemma set_udata_good g c r g' : J g → known g r → s_net_set_udata g c r = Some g' → good g g'.
Proof.
  unfold s_net_set_udata. intros Hj Hr Hs. some_inv. apply set_conns_good; [|done].
  intros c' n r' [[<- <-]|[_ Hc]]%lookup_insert_Some; [by intros [= <-]|by apply (j_conn _ _ _ Hj c')].
Qed.
Lemma connect_good g conn ip port o g' : J g → s_net_connect g conn ip port = Some (o, g') → good g g'.
Proof.
  unfold s_net_connect. intros Hj Hs. some_inv; [|by apply good_refl]. apply set_conns_good; [|done].
  intros c1 n1 r1 [[<- <-]|[_ Hc]]%lookup_insert_Some; [done|by apply (j_conn _ _ _ Hj c1)].
Qed.

(** through the change of a server that comes next *)
Ltac via_upd :=
  match goal with |- good ?g _ =>
    match goal with Hs : context [upd_serv ?f g ?r] |- _ => eapply (good_next g (upd_serv f g r)) end
  end.

(** ** New servers *)

(** [a'] has the cells of [a] but for [i], with flags or not, and new ones
    without flags *)
Definition extends (i : Z) a a' : Prop :=
  arr_wf a' ∧ 0 <= i < s_array_len a' ∧ s_array_len a <= s_array_len a' ∧
  ∀ (j : nat) s', Z.of_nat j ≠ i → arr_list a' !! j = Some s' →
    arr_list a !! j = Some s' ∨ s_array_len a <= Z.of_nat j ∧ has_flag s' S_SERV_FLAG_IN_CONFIG = false.

Lemma push_serv_spec a i a' (f : server → server) :
  arr_wf a → push_serv a = Some (i, a') →
  i = s_array_len a ∧ arr_wf (arr_set a' i (f (arr_get a' i))) ∧
  arr_list (arr_set a' i (f (arr_get a' i))) = arr_list a ++ [f (arr_get a' i)].
Proof.
  unfold push_serv. intros Hw Hs. some_inv. pose proof (s_array_push_spec a (f (arr_get a' i)) Hw) as Hp.
  destruct (s_array_push a) as [i1 a1]. simplify_eq. naive_solver.
Qed.

Lemma push_unused_spec n a a' :
  arr_wf a → push_unused n a = Some a' →
  arr_wf a' ∧ ∃ l, arr_list a' = arr_list a ++ l ∧ length l = n ∧
    Forall (λ s, has_flag s S_SERV_FLAG_IN_CONFIG = false) l.
Proof.
  revert a. induction n as [|n IH]; intros a Hw Hs; cbn [push_unused] in Hs; some_inv.
  - split; [done|]. exists []. by rewrite app_nil_r.
  - match goal with Hp : push_serv _ = _ |- _ => rename Hp into E0 end.
    destruct (push_serv_spec _ _ _ (λ s, set_conn None (set_flags 0 s)) Hw E0) as (-> & Hw1 & E1).
    destruct (IH _ Hw1 Hs) as (Hw' & l & -> & <- & Hl). split; [done|].
    eexists (_ :: l). rewrite E1, <-app_assoc. split; [done|]. split; [done|]. by constructor.
Qed.

Lemma iinit_serv_extends a id a' : arr_wf a → iinit_serv a id = Some a' → extends id a a'.
Proof.
  unfold iinit_serv. intros Hw Hs. some_inv.
  - match goal with Hp : s_array_at _ _ = _ |- _ => rename Hp into E0 end.
    zbool. rewrite s_array_at_spec in E0 by done. case_decide as Hi; [|done]. simplify_eq.
    destruct (arr_set_spec a x (set_flags S_SERV_FLAG_IN_CONFIG (arr_get a x)) Hw Hi) as [Hw' El].
    split; [done|]. cbn. split; [done|]. split; [done|]. intros j s' Hj. rewrite El, list_lookup_insert_ne by lia. by left.
  - match goal with Hp : push_unused _ _ = _ |- _ => rename Hp into E2 end.
    zbool. destruct (push_unused_spec _ _ _ Hw E2) as (Hw1 & l & El & Hn & Hl).
    match goal with Hp : push_serv _ = _ |- _ => rename Hp into E0 end.
    destruct (push_serv_spec _ _ _ (set_flags S_SERV_FLAG_IN_CONFIG) Hw1 E0) as (-> & Hw2 & E1).
    pose proof (length_arr_list _ Hw) as L. pose proof (length_arr_list _ Hw1) as L1. pose proof L1 as L0.
    pose proof (length_arr_list _ Hw2) as L2. rewrite E1, length_app in L2. rewrite El, length_app in L1. cbn [length] in L2.
    split; [done|]. split; [lia|]. split; [lia|]. intros j s' Hj. rewrite E1, El, <-app_assoc.
    intros [?|[? Hs']]%lookup_app_Some; [by left|].
    right. split; [lia|]. apply lookup_app_Some in Hs' as [Hs'|[? Hs']].
    + rewrite Forall_lookup in Hl. by eapply Hl.
    + apply list_lookup_singleton_Some in Hs' as [? _]. lia.
Qed.

(** a cell is made ready for a server of the type of its array *)
Lemma place_good g type a a' id f :
  J g → sg_servs g !! Z.to_nat type = Some a → 0 <= type → extends id a a' → (∀ s, se_type (f s) = type) →
  let g' := upd_serv f (g_servs (<[Z.to_nat type := a']> (sg_servs g)) g) (Serv type id) in
  good g g' ∧ known g' (Serv type id).
Proof.
  intros Hj Ea H0 (Hw & Hid & Hlen & Hcells) Hf g'. destruct (j_arrs _ _ _ Hj _ _ Ea) as [Hwa Hok].
  set (x := f (arr_get a' id)). destruct (arr_set_spec a' id x Hw Hid) as [Hw2 El].
  assert (g' = g_servs (<[Z.to_nat type := arr_set a' id x]> (sg_servs g)) g) as Eg.
  { unfold g', upd_serv. cbn [sg_servs g_servs sv_type sv_id].
    rewrite (list_alter_at _ _ _ a') by (apply list_lookup_insert_eq; by eapply lookup_lt_Some).
    by rewrite list_insert_insert_eq. }
  pose proof (length_arr_list _ Hwa) as L. pose proof (length_arr_list _ Hw) as L'.
  assert (good g g') as Hg.
  { rewrite Eg. apply (array_good _ _ a); [done|done|split; [done|]|].
    - rewrite Forall_lookup. intros j s Hs. rewrite El in Hs. destruct (decide (Z.of_nat j = id)) as [<-|Hne].
      + rewrite Nat2Z.id, list_lookup_insert_eq in Hs by lia. simplify_eq. intros _. rewrite Hf. lia.
      + rewrite list_lookup_insert_ne in Hs by lia. destruct (Hcells j s Hne Hs) as [Hs'|[_ Hs']].
        * rewrite Forall_lookup in Hok. by eapply Hok.
        * intros Hfl. congruence.
    - intros j s Hs Et. rewrite El. destruct (decide (Z.of_nat j = id)) as [<-|Hne].
      + rewrite Nat2Z.id, list_lookup_insert_eq by lia. exists x. split; [done|]. unfold x. rewrite Hf. lia.
      + rewrite list_lookup_insert_ne by lia. pose proof (lookup_lt_Some _ _ _ Hs).
        destruct (lookup_lt_is_Some_2 (arr_list a') j) as [s' Hs']; [lia|].
        exists s'. split; [done|]. destruct (Hcells j s' Hne Hs') as [?|[? _]]; [congruence|lia]. }
  split; [done|]. split; [done|]. exists x. split; [|apply Hf].
  rewrite serv_at_list by apply Hg. rewrite Eg. cbn. rewrite list_lookup_insert_eq by (by eapply lookup_lt_Some).
  cbn [mbind option_bind]. rewrite decide_True by lia. rewrite El. apply list_lookup_insert_eq. lia.
Qed.

Lemma serv_array g type a : s_servg_get_serv_array g type = Some a → 0 <= type ∧ sg_servs g !! Z.to_nat type = Some a.
Proof. unfold s_servg_get_serv_array. intros Hs. destruct (_ && _) eqn:E; [|done]. zbool. done. Qed.

Lemma iget_serv_is g type id r : iget_serv g type id = Some r → r = Serv type id ∧ 0 <= type ∧ ∃ s, serv_at g r = Some s.
Proof.
  unfold iget_serv. intros Hs. destruct (_ && _) eqn:E; [|done]. zbool. some_inv.
  match goal with Ha : s_array_at _ _ = Some ?i |- _ => assert (i = id) as -> by (unfold s_array_at in Ha; destruct (_ || _) in Ha; congruence) end.
  split; [done|]. split; [done|]. unfold serv_at. cbn [sv_type sv_id].
  match goal with Ha : sg_servs g !! _ = Some _ |- _ => rewrite Ha end. cbn [mbind option_bind].
  match goal with Ha : s_array_at _ _ = Some _ |- _ => rewrite Ha end. by eexists.
Qed.

Lemma create_serv_good g type id o g' :
  J g → s_servg_create_serv g type id = Some (o, g') → good g g' ∧ ∀ r, o = Some r → known g' r.
Proof.
  unfold s_servg_create_serv. intros Hj Hs.
  destruct (s_servg_get_serv_array g type) as [a|] eqn:Ha; [|simplify_eq; split; [by apply good_refl|done]].
  apply serv_array in Ha as [H0 Ha]. destruct (j_arrs _ _ _ Hj _ _ Ha) as [Hwa Hok]. some_inv.
  - match goal with Hi : iinit_serv _ _ = _ |- _ => apply iinit_serv_extends in Hi; [|done]; rename Hi into Hext end.
    match goal with Hi : iget_serv _ _ _ = _ |- _ => apply iget_serv_is in Hi as (-> & _ & _) end.
    destruct (place_good g type a _ id (λ s, set_ident id type (set_flags 0 s)) Hj Ha H0 Hext) as [[Hg1 G1] Hk]; [done|].
    match goal with Hi : list_init _ _ = _ |- _ => destruct (list_init_good _ _ _ Hg1 Hk Hi) as [Hg2 G2] end.
    split; [split; [done|]|].
    + intros r Hr. by apply G2, G1.
    + intros r [= <-]. by apply G2.
  - match goal with Hp : push_serv _ = Some (?i, ?b) |- _ =>
      destruct (push_serv_spec _ _ _ (λ _, set_ident (s_array_len a) type inhabitant) Hwa Hp) as (-> & Hw1 & E1) end.
    pose proof (length_arr_list _ Hwa) as L.
    match goal with Hi : list_init ?g1 _ = _ |- _ => rename Hi into Hi0; assert (good g g1) as [Hg1 G1] end.
    { apply (array_good _ _ a); [done|done| |].
      - split; [done|]. rewrite E1. apply Forall_app. split; [done|]. apply Forall_singleton. intros _. cbn. lia.
      - intros j s1 Hs1 E2. exists s1. split; [|done]. rewrite E1. by apply lookup_app_l_Some. }
    match goal with Hi : list_init ?g1 ?r = _ |- _ => assert (known g1 r) as Hk end.
    { split; [done|]. eexists. rewrite serv_at_list by apply Hg1. cbn [sv_type sv_id sg_servs g_servs].
      rewrite list_lookup_insert_eq by (by eapply lookup_lt_Some). cbn [mbind option_bind].
      rewrite decide_True by lia. rewrite E1. rewrite lookup_app_r by lia.
      replace (Z.to_nat (s_array_len a) - length (arr_list a))%nat with 0%nat by lia. done. }
    destruct (list_init_good _ _ _ Hg1 Hk Hi0) as [Hg2 G2].
    split; [split; [done|]|].
    + intros r Hr. by apply G2, G1.
    + intros r [= <-]. by apply G2.
Qed.

Lemma identify_serv_good g type id o g' :
  J g → identify_serv g type id = Some (o, g') → good g g' ∧ ∀ r, o = Some r → known g' r.
Proof.
  unfold identify_serv, s_servg_get_serv_in_config. intros Hj Hs.
  destruct (iget_serv g type id) as [r|] eqn:Hr; cbn [mbind option_bind] in Hs; [|by apply create_serv_good in Hs].
  destruct (serv_at g r) as [s|] eqn:Es; cbn [mbind option_bind] in Hs; [|by apply create_serv_good in Hs].
  destruct (has_flag s _) eqn:Ef; [|by apply create_serv_good in Hs]. simplify_eq.
  apply iget_serv_is in Hr as (-> & H0 & _). split; [by apply good_refl|]. intros r [= <-]. split; [done|].
  exists s. split; [done|]. rewrite serv_at_list in Es by apply Hj. cbn [sv_type sv_id] in *.
  destruct (sg_servs g' !! _) as [a|] eqn:Ea; [|done]. cbn [mbind option_bind] in Es. case_decide; [|done].
  destruct (j_arrs _ _ _ Hj _ _ Ea) as [_ Hok]. rewrite Forall_lookup in Hok.
  specialize (Hok _ _ Es Ef). lia.
Qed.

(** ** The network and the user's callbacks *)
Section network.
Context (react : group → event CB H → option (U * list (request CB))) (wfail : nat → bool).
Context (now : timeval).

(** what the user may count on when it is called *)
Definition expected g (e : event CB H) : Prop :=
  match e with
  | Handled h r pkt => known g r ∧ tbl !! (sv_type r, s_packet_get_fun pkt) = Some h
  | _ => True
  end.
Context (Hreact : ∀ g e u qs, J g → expected g e → react (log e g) e = Some (u, qs) → I u).

Lemma log_good g e : J g → good g (log e g).
Proof. intros Hj. apply good_calm; try apply Hj; done. Qed.
Lemma myself_q_good g q : J g → good g (g_myself_q q g).
Proof. intros Hj. apply good_calm; try apply Hj; done. Qed.
Lemma rpcs_good g rs : J g → good g (g_rpcs rs g).
Proof. intros Hj. apply good_calm; try apply Hj; done. Qed.
Lemma min_delay_good g m : J g → good g (g_min_delay m g).
Proof. intros Hj. apply good_calm; try apply Hj; done. Qed.
Lemma udata_good g u : I u → J g → good g (g_udata u g).
Proof. intros Hu Hj. apply good_calm; try apply Hj; done. Qed.

Section closing.
Context (close : group → nat → option group).
Context (close_good : ∀ g c g', J g → close g c = Some g' → good g g').

Lemma close_drop_good g c g' : J g → close g c = Some g' → good g (drop_conn g' c).
Proof using close_good. intros Hj Hs. eapply good_next; [by eapply close_good|]. intros. by apply drop_conn_good. Qed.

Lemma net_close_good g c g' : J g → s_net_close close g c = Some g' → good g g'.
Proof using close_good. unfold s_net_close. intros Hj Hs. some_inv. by apply close_drop_good. Qed.

Lemma net_send_good g c pkt g' : J g → s_net_send wfail close g c pkt = Some g' → good g g'.
Proof using close_good.
  unfold s_net_send. intros Hj Hs. destruct (sg_conns g !! c); [|done]. cbn [mbind option_bind] in Hs.
  set (g1 := g_nsend _ _) in *. assert (good g g1) as Hg1 by (apply good_calm; try apply Hj; done).
  destruct Hg1 as [Hj1 G1]. eapply good_trans; [by split|]. some_inv; [by apply close_drop_good|by apply good_refl].
Qed.

Lemma isend_good g r pkt g' : J g → isend wfail close g r pkt = Some g' → good g g'.
Proof using close_good.
  unfold isend. intros Hj Hs. some_inv; [by apply myself_q_good|by eapply net_send_good].
Qed.

Lemma new_param_good g r req cb msec p g' : J g → new_param now g r req cb msec = Some (p, g') → good g g'.
Proof. unfold new_param. intros Hj Hs. some_inv; by apply rpcs_good. Qed.

Lemma new_param_servs g r req cb msec p g' : new_param now g r req cb msec = Some (p, g') → sg_servs g' = sg_servs g.
Proof. unfold new_param. intros Hs. some_inv; done. Qed.

Lemma rpc_call_good g r pkt cb msec ret g' :
  J g → s_servg_rpc_call wfail now close g r pkt cb msec = Some (ret, g') → good g g'.
Proof using close_good.
  unfold s_servg_rpc_call. intros Hj Hs. destruct cb as [cb|]; [|some_inv; by eapply isend_good].
  destruct (serv_at g r) as [s|] eqn:Es; [|done]. cbn [mbind option_bind] in Hs.
  set (g1 := upd_serv _ g r) in *. assert (good g g1) as [Hj1 G1] by (by apply (upd_quiet _ _ _ s)).
  eapply good_trans; [by split|]. pose proof (serv_at_upd g r (λ s0, set_rpc (se_rpc_hash s0) (uint (se_req_id s + 1)) s0) s Hj Es) as Es1.
  fold g1 in Es1. some_inv; [by apply good_refl|].
  match goal with Hn : new_param _ _ _ _ _ _ = Some (_, ?g2) |- _ =>
    pose proof (new_param_servs _ _ _ _ _ _ _ Hn) as Ev;
    eapply good_next; [exact (new_param_good _ _ _ _ _ _ _ Hj1 Hn)|]; intros Hj2 G2;
    assert (∃ s2, serv_at g2 r = Some s2) as [s2 Es2] by (unfold serv_at in *; rewrite Ev; by eexists) end.
  via_upd; [by eapply (upd_quiet _ _ _ s2)|]. intros. by eapply isend_good.
Qed.

Lemma send_identify_good mem g c g' : J g → send_identify wfail close mem g c = Some g' → good g g'.
Proof using close_good. unfold send_identify. intros Hj Hs. some_inv. by eapply net_send_good. Qed.

Lemma servg_connect_good mem g type id ip port conn o g' :
  J g → s_servg_connect wfail now close mem g type id ip port conn = Some (o, g') → good g g'.
Proof using close_good.
  unfold s_servg_connect. intros Hj Hs. destruct (s_servg_get_serv_in_config _ _ _); [simplify_eq; by apply good_refl|].
  destruct (s_servg_get_active_serv _ _ _); [simplify_eq; by apply good_refl|].
  destruct (s_servg_create_serv g type id) as [[[r|] g1]|] eqn:Hc; cbn [mbind option_bind] in Hs; [| |done].
  - destruct (create_serv_good _ _ _ _ _ Hj Hc) as [Hg1 Hk]. specialize (Hk r eq_refl). some_inv.
    eapply good_next; [exact Hg1|]. intros Hj1 _. via_upd; [by apply upd_known|].
    intros Hj2 G2. eapply good_next; [by eapply connect_good|]. intros Hj3 G3.
    via_upd; [apply upd_known; auto|]. intros Hj4 G4.
    eapply good_next; [eapply set_udata_good; [..|eassumption]; auto|]. intros Hj5 G5.
    eapply good_next; [by eapply wait_for_identify_good|]. intros Hj6 G6.
    via_upd; [apply upd_known; auto 8|]. intros Hj7 G7. by eapply send_identify_good.
  - simplify_eq. by apply (create_serv_good _ _ _ _ _ Hj Hc).
Qed.

Lemma run_request_good g q g' : J g → run_request wfail now close g q = Some g' → good g g'.
Proof using close_good.
  intros Hj Hs. destruct q; cbn [run_request] in Hs; try by eapply isend_good.
  all: apply fmap_Some in Hs as ([ret g1] & Hs & ->).
  - exact (rpc_call_good _ _ _ _ _ _ _ Hj Hs).
  - exact (rpc_call_good _ _ _ _ _ _ _ Hj Hs).
  - exact (servg_connect_good _ _ _ _ _ _ _ _ _ Hj Hs).
Qed.

Lemma run_requests_good qs g g' : J g → run_requests wfail now close g qs = Some g' → good g g'.
Proof using close_good.
  revert g. induction qs as [|q qs IH]; cbn; intros g Hj Hs; some_inv; [by apply good_refl|].
  eapply good_next; [by eapply run_request_good|]. intros. by apply IH.
Qed.

Lemma callback_good g e g' : J g → expected g e → callback react wfail now close g e = Some g' → good g g'.
Proof using close_good Hreact.
  unfold callback. intros Hj He Hs. some_inv. pose proof (Hreact _ _ _ _ Hj He H0) as Hu.
  eapply good_next; [by apply log_good|]. intros Hj1 _. eapply good_next; [by apply udata_good|].
  intros Hj2 _. by eapply run_requests_good.
Qed.

Lemma free_param_good g p g' : J g → free_param g p = Some g' → good g g'.
Proof. unfold free_param. intros Hj Hs. some_inv. by apply rpcs_good. Qed.

Lemma close_params_good l g r g' : J g → close_params react wfail now close g r l = Some g' → good g g'.
Proof using close_good Hreact.
  revert g. induction l as [|p l IH]; cbn; intros g Hj Hs; some_inv; [by apply good_refl|].
  eapply good_next; [eapply callback_good; [exact Hj| |eassumption]; done|]. intros Hj1 _. eapply good_next; [by eapply free_param_good|].
  intros. by apply IH.
Qed.

Lemma unlink_serv_good g r g' : J g → known g r → unlink_serv g r = Some g' → good g g'.
Proof.
  unfold unlink_serv. intros Hj Hr Hs. destruct (list_del g r) as [g1|] eqn:Hd; [|done]. cbn [mbind option_bind] in Hs.
  eapply good_next; [by eapply list_del_good|]. intros Hj1 G1. pose proof (G1 _ Hr) as Hr1.
  destruct (serv_at g1 r) as [s|] eqn:Es; [|done]. cbn [mbind option_bind] in Hs.
  destruct (sg_min_delay g1 !! _) as [m|]; [|done]. cbn [mbind option_bind] in Hs.
  set (g2 := if decide _ then _ else g1) in *.
  assert (good g1 g2 ∧ sg_servs g2 = sg_servs g1) as [Hg2 E2].
  { unfold g2. case_decide; split; try done; [by apply min_delay_good|by apply good_refl]. }
  eapply good_next; [exact Hg2|]. intros Hj2 G2.
  assert (serv_at g2 r = Some s) as Es2 by (unfold serv_at in *; by rewrite E2).
  destruct (negb (has_flag s _)) eqn:Ef; [simplify_eq; by apply (upd_quiet _ _ _ s)|]. zbool.
  via_upd; [apply (upd_good _ _ _ s); auto|]. intros Hj3 G3.
  destruct (_ && _); [|simplify_eq; by apply good_refl]. eapply wait_for_conn_good; [done| |done]. by destruct Hr.
Qed.

Lemma reset_serv_good g r g' : J g → known g r → s_servg_reset_serv close g r = Some g' → good g g'.
Proof using close_good.
  unfold s_servg_reset_serv. intros Hj Hr Hs. destruct (serv_at g r) as [s|]; [|done]. cbn [mbind option_bind] in Hs.
  apply bind_Some in Hs as (g1 & Hc & Hs).
  assert (good g g1) as Hg1. { destruct (se_conn s); [by eapply net_close_good|simplify_eq; by apply good_refl]. }
  eapply good_next; [exact Hg1|]. intros Hj1 G1. via_upd; [apply upd_known; auto|]. intros Hj2 G2.
  eapply unlink_serv_good; [done| |done]. by apply G2, G1.
Qed.

Lemma when_conn_closed_good g c g' : J g → when_conn_closed react wfail now close g c = Some g' → good g g'.
Proof using close_good Hreact.
  unfold when_conn_closed. intros Hj Hs. destruct (sg_conns g !! c) as [n|] eqn:Hc; [|done]. cbn [mbind option_bind] in Hs.
  destruct (nc_udata n) as [r|] eqn:Hn; [|simplify_eq; by apply good_refl].
  pose proof (j_conn _ _ _ Hj _ _ _ Hc Hn) as Hr. destruct (serv_at g r) as [s|]; [|done]. cbn [mbind option_bind] in Hs.
  via_upd; [by apply upd_known|]. intros Hj1 G1. apply bind_Some in Hs as (g3 & Hb & Hs).
  set (g1 := upd_serv _ g r) in *.
  assert (good g1 g3) as Hg3.
  { destruct (has_flag s _); [|simplify_eq; by apply good_refl]. some_inv.
    eapply good_next; [by eapply close_params_good|]. intros Hj2 G2. via_upd; [apply upd_known; auto|].
    intros Hj3 G3. by eapply callback_good; [exact Hj3| |eassumption]. }
  eapply good_next; [exact Hg3|]. intros Hj3 G3. eapply reset_serv_good; [done|by apply G3, G1|done].
Qed.
End closing.

Lemma closed_good fuel g c g' : J g → iwhen_conn_closed react wfail fuel now g c = Some g' → good g g'.
Proof using Hreact.
  revert g c g'. induction fuel as [|fuel IH]; [done|]. intros g c g'. cbn. apply when_conn_closed_good, IH.
Qed.

(** ** Events *)
Section events.
Context (fuel : nat) (mem : Z).
Abbreviation close := (iwhen_conn_closed react wfail fuel now).
Local Hint Resolve closed_good : core.

Lemma send_good g c pkt g' : J g → s_net_send wfail close g c pkt = Some g' → good g g'.
Proof using Hreact. apply net_send_good. eauto. Qed.
Lemma shut_good g c g' : J g → s_net_close close g c = Some g' → good g g'.
Proof using Hreact. apply net_close_good. eauto. Qed.
Lemma call_good g e g' : J g → expected g e → callback react wfail now close g e = Some g' → good g g'.
Proof using Hreact. apply callback_good. eauto. Qed.
Lemma reset_good g r g' : J g → known g r → s_servg_reset_serv close g r = Some g' → good g g'.
Proof using Hreact. apply reset_serv_good. eauto. Qed.

Lemma established_good g r g' : J g → established react wfail fuel now g r = Some g' → good g g'.
Proof using Hreact.
  unfold established. intros Hj Hs. apply bind_Some in Hs as (g1 & Hc & Hs).
  eapply good_next; [eapply call_good; [exact Hj| |exact Hc]; done|]. intros Hj1 _.
  destruct (icheck_all_established _); [|simplify_eq; by apply good_refl].
  by eapply call_good; [exact Hj1| |exact Hs].
Qed.

Lemma auth_error_good g c g' : J g → auth_error react wfail fuel now mem g c = Some g' → good g g'.
Proof using Hreact. unfold auth_error. intros Hj Hs. some_inv. by eapply send_good. Qed.

Lemma has_flag_lor_established f s :
  has_flag (set_flags (Z.lor f S_SERV_FLAG_ESTABLISHED) s) S_SERV_FLAG_IN_CONFIG = negb (Z.land f S_SERV_FLAG_IN_CONFIG =? 0).
Proof.
  unfold has_flag, S_SERV_FLAG_IN_CONFIG, S_SERV_FLAG_ESTABLISHED. cbn [se_flags set_flags].
  rewrite Z.land_lor_distr_l. change (Z.land 1 2) with 0. by rewrite Z.lor_0_r.
Qed.

Lemma accept_serv_good g c r m g' : J g → known g r → accept_serv react wfail fuel now mem g c r m = Some g' → good g g'.
Proof using Hreact.
  unfold accept_serv. intros Hj Hr Hs. destruct (sg_conns g !! c) as [n|]; [|done]. cbn [mbind option_bind] in Hs.
  via_upd; [by apply upd_known|]. intros Hj1 G1. set (g1 := upd_serv _ g r) in *.
  set (g2 := g_conns _ g1) in *. assert (good g1 g2) as Hg2.
  { apply set_conns_good; [|done]. intros c1 n1 r1 [[<- <-]|[_ Hc]]%lookup_insert_Some; [intros [= <-]; by apply G1|].
    by apply (j_conn _ _ _ Hj1 c1). }
  eapply good_next; [exact Hg2|]. intros Hj2 G2.
  via_upd; [apply upd_known; [done|by apply G2, G1|done|]|].
  { intros s. unfold has_flag. cbn. pose proof (has_flag_lor_established (se_flags s) s) as E. unfold has_flag in E. cbn in E.
    by rewrite E. }
  intros Hj3 G3. some_inv. eapply good_next; [by eapply list_del_good|]. intros Hj4 G4.
  eapply good_next; [by eapply wait_for_ping_good|]. intros Hj5 G5.
  eapply good_next; [by eapply send_good|]. intros Hj6 G6. by eapply established_good.
Qed.

Lemma identify_good g c pkt g' : J g → ihandle_identify react wfail fuel now mem g c pkt = Some g' → good g g'.
Proof using Hreact.
  unfold ihandle_identify. intros Hj Hs. destruct (negb _); [by eapply shut_good|].
  destruct (read_uint pkt) as [[pwd p1]|]; [|by eapply shut_good].
  destruct (negb _); [by eapply auth_error_good|]. case_match; [|by eapply shut_good].
  repeat case_match. destruct (identify_serv _ _ _) as [[o g1]|] eqn:Hi; [|done]. cbn [mbind option_bind] in Hs.
  destruct (identify_serv_good _ _ _ _ _ Hj Hi) as [Hg1 Hk]. eapply good_next; [exact Hg1|]. intros Hj1 _.
  destruct o as [r|]; [|by eapply auth_error_good]. some_inv; [by eapply auth_error_good|].
  eapply accept_serv_good; [done|by apply Hk|done].
Qed.

Lemma identify_back_good g r pkt g' :
  J g → known g r → ihandle_identify_back react wfail fuel now g r pkt = Some g' → good g g'.
Proof using Hreact.
  unfold ihandle_identify_back. intros Hj Hr Hs. case_match; [|by eapply reset_good].
  case_match. case_match; [by eapply reset_good| |by eapply reset_good].
  case_match; [by eapply reset_good..|].
  via_upd; [by apply upd_known|]. intros Hj1 G1. set (g1 := upd_serv _ g r) in *. some_inv.
  eapply good_next; [by eapply list_del_good|]. intros Hj2 G2.
  eapply good_next; [by eapply wait_for_ping_good|]. intros Hj3 G3.
  via_upd; [apply upd_known; [done|auto|done|]|].
  { intros s1. pose proof (has_flag_lor_established (se_flags s1) s1) as E. by rewrite E. }
  intros Hj4 _. by eapply established_good.
Qed.

Lemma ping_good g r pkt g' : J g → known g r → ihandle_ping react wfail fuel now mem g r pkt = Some g' → good g g'.
Proof using Hreact.
  unfold ihandle_ping. intros Hj Hr Hs. destruct (s_packet_read_uint _) as [v p].
  set (g1 := match v with Some _ => _ | None => g end) in *.
  assert (good g g1) as Hg1 by (unfold g1; destruct v; [by apply upd_known|by apply good_refl]).
  eapply good_next; [exact Hg1|]. intros Hj1 _. some_inv. by eapply send_good.
Qed.

Lemma pong_good g r pkt g' : J g → known g r → ihandle_pong now g r pkt = Some g' → good g g'.
Proof.
  unfold ihandle_pong. intros Hj Hr Hs. case_match; [|simplify_eq; by apply good_refl]. repeat case_match.
  via_upd; [by apply upd_known|]. intros Hj1 G1. set (g1 := upd_serv _ g r) in *.
  apply bind_Some in Hs as (s & _ & Hs). apply bind_Some in Hs as (md & _ & Hs). apply bind_Some in Hs as (less & _ & Hs).
  match goal with Hm : context [if ?b then g_min_delay ?m g1 else g1] |- _ =>
    set (g2 := if b then g_min_delay m g1 else g1) in *;
    assert (good g1 g2) as Hg2 by (unfold g2; destruct b; [by apply min_delay_good|by apply good_refl]) end.
  eapply good_next; [exact Hg2|]. intros Hj2 G2. via_upd; [by apply upd_known; [|apply G2, G1|..]|]. intros Hj3 G3.
  apply bind_Some in Hs as (g4 & Hd & Hs).
  eapply good_next; [by eapply list_del_good|]. intros Hj4 G4. by eapply wait_for_ping_good.
Qed.

Lemma rpc_back_good g r pkt g' : J g → known g r → ihandle_rpc_back react wfail fuel now g r pkt = Some g' → good g g'.
Proof using Hreact.
  unfold ihandle_rpc_back. intros Hj Hr Hs. some_inv; [|by apply good_refl].
  eapply good_next; [eapply call_good; [exact Hj| |eassumption]; done|]. intros Hj1 G1.
  eapply good_next; [by apply rpcs_good|]. intros Hj2 G2.
  eapply good_next; [by eapply free_param_good|]. intros Hj3 G3. apply upd_known; auto.
Qed.

Lemma do_event_good g conn e g' : J g → s_servg_do_event react wfail fuel now mem g conn e = Some g' → good g g'.
Proof using Hreact.
  unfold s_servg_do_event. intros Hj Hs. destruct e as [| | |pkt].
  - some_inv. by eapply closed_good.
  - some_inv. by eapply closed_good.
  - simplify_eq. by apply good_refl.
  - apply bind_Some in Hs as (serv & Hserv & Hs).
    destruct serv as [r|]; [|some_inv; by eapply identify_good].
    assert (known g r) as Hr.
    { destruct conn as [c|]; [|simplify_eq; by apply (j_me _ _ _ Hj)].
      apply fmap_Some in Hserv as (n & Hc & Hn). by apply (j_conn _ _ _ Hj c n). }
    destruct (_ =? _); [by eapply rpc_back_good|]. destruct (_ =? _); [by eapply identify_back_good|].
    destruct (_ =? _); [by eapply ping_good|]. destruct (_ =? _); [by eapply pong_good|].
    apply bind_Some in Hs as (s & Es & Hs). apply bind_Some in Hs as (h & Hh & Hs).
    destruct h as [h|]; [|simplify_eq; by apply good_refl].
    eapply call_good; [done| |done]. split; [done|]. clear Hserv. unfold handle_msg in Hh. some_inv.
    destruct Hr as (_ & s' & Es' & <-). rewrite <-(j_tbl _ _ _ Hj). congruence.
Qed.

Lemma conn_closed_good g c g' : J g → conn_closed react wfail fuel now mem g c = Some g' → good g g'.
Proof using Hreact.
  unfold conn_closed. intros Hj Hs. some_inv. eapply good_next; [by eapply do_event_good|].
  intros. by apply drop_conn_good.
Qed.

Lemma conn_accepted_good g c ip port g' : J g → conn_accepted react wfail fuel now mem g c ip port = Some g' → good g g'.
Proof using Hreact.
  unfold conn_accepted. intros Hj Hs. some_inv. match goal with Hd : s_servg_do_event _ _ _ _ _ (g_conns ?m g) _ _ = _ |- _ =>
    assert (good g (g_conns m g)) as Hg end.
  { apply set_conns_good; [|done]. intros c1 n1 r1 [[<- <-]|[_ Hc]]%lookup_insert_Some; [done|by apply (j_conn _ _ _ Hj c1)]. }
  eapply good_next; [exact Hg|]. intros Hj1 _. by eapply do_event_good.
Qed.

(** ** Connections the group makes, and its polls *)
Lemma check_serv_good g r conn b g' :
  J g → r ∈ w_conn (sg_waits g) → check_serv react wfail fuel now mem g r conn = Some (b, g') → good g g'.
Proof using Hreact.
  unfold check_serv. intros Hj Hw Hs. apply bind_Some in Hs as (s & Es & Hs).
  destruct (_ || _) eqn:Ef; [done|]. zbool.
  assert (known g r) as Hr.
  { pose proof (j_wait _ _ _ Hj _ Hw) as Hpos. split; [done|]. exists s. split; [done|].
    rewrite serv_at_list in Es by apply Hj. destruct (sg_servs g !! _) as [a|] eqn:Ea; [|done].
    cbn [mbind option_bind] in Es. case_decide; [|done]. destruct (j_arrs _ _ _ Hj _ _ Ea) as [_ Hok].
    rewrite Forall_lookup in Hok. specialize (Hok _ _ Es). unfold cell_ok in Hok. specialize (Hok ltac:(done)). lia. }
  destruct (_ && _); [simplify_eq; by apply good_refl|]. apply bind_Some in Hs as (ip & _ & Hs).
  via_upd; [by apply upd_known|]. intros Hj1 G1. apply bind_Some in Hs as ([oc g2] & Hc & Hs). cbn beta iota in Hs.
  eapply good_next; [by eapply connect_good|]. intros Hj2 G2. via_upd; [by apply upd_known; [|apply G2, G1|..]|].
  intros Hj3 G3. destruct oc as [c|]; [|simplify_eq; by apply good_refl].
  apply bind_Some in Hs as (g4 & Hu & Hs). eapply good_next; [eapply set_udata_good; [done| |done]; by apply G3, G2, G1|].
  intros Hj4 G4. apply bind_Some in Hs as (g5 & Hd & Hs). eapply good_next; [by eapply list_del_good|]. intros Hj5 G5.
  apply bind_Some in Hs as (g6 & Hi & Hs). eapply good_next; [by eapply wait_for_identify_good|]. intros Hj6 G6.
  via_upd; [by apply upd_known; [|apply G6, G5, G4, G3, G2, G1|..]|]. intros Hj7 G7. some_inv.
  eapply send_identify_good; [|exact Hj7|done]. intros g8 c8. apply closed_good.
Qed.

Lemma check_loop_good n g p connect g' : J g → check_loop react wfail fuel now mem n g p connect = Some g' → good g g'.
Proof using Hreact.
  revert g p. induction n as [|n IH]; intros g [r|] Hj Hs; cbn [check_loop] in Hs; try (simplify_eq; by apply good_refl).
  destruct (negb _) eqn:Hw; [done|]. zbool. apply bool_decide_eq_true in Hw.
  apply bind_Some in Hs as ([stop g1] & Hc & Hs). cbn beta iota in Hs.
  eapply good_next; [by eapply check_serv_good|]. intros Hj1 _.
  destruct stop; [simplify_eq; by apply good_refl|]. by eapply IH.
Qed.

Lemma myself_loop_good n g g' : J g → myself_loop react wfail fuel now mem n g = Some g' → good g g'.
Proof using Hreact.
  revert g. induction n as [|n IH]; intros g Hj Hs; cbn [myself_loop] in Hs; some_inv; try by apply good_refl.
  eapply good_next; [by eapply do_event_good|]. intros Hj1 _. eapply good_next; [by apply myself_q_good|].
  intros Hj2 _. by eapply IH.
Qed.

Lemma timeout_param_good g p g' : J g → timeout_param react wfail fuel now g p = Some g' → good g g'.
Proof using Hreact.
  unfold timeout_param. intros Hj Hs. some_inv; [|by apply good_refl].
  eapply good_next; [eapply call_good; [exact Hj| |eassumption]; done|]. intros Hj1 _.
  match goal with Hf : context [g_rpcs ?rs ?g1] |- good ?g1 _ => eapply (good_next _ (g_rpcs rs g1)) end; [by apply rpcs_good|].
  intros Hj2 _. via_upd; [by eapply upd_quiet|]. intros Hj3 _.
  by eapply free_param_good.
Qed.

Lemma timeout_loop_good n g p g' : J g → timeout_loop react wfail fuel now n g p = Some g' → good g g'.
Proof using Hreact.
  revert g p. induction n as [|n IH]; intros g [p|] Hj Hs; cbn [timeout_loop] in Hs; some_inv; try by apply good_refl.
  eapply good_next; [by eapply timeout_param_good|]. intros. by eapply IH.
Qed.

Lemma poll_good n g connect g' : J g → s_servg_poll react wfail fuel now mem n g connect = Some g' → good g g'.
Proof using Hreact.
  unfold s_servg_poll. intros Hj Hs. some_inv. eapply good_next; [by eapply check_loop_good|]. intros Hj1 _.
  eapply good_next; [by eapply myself_loop_good|]. intros Hj2 _. by eapply timeout_loop_good.
Qed.
End events.
End network.

(** ** Starting *)
Lemma create_ok (u : U) ty id : tbl = ∅ → I u → J (s_servg_create ty id u).
Proof.
  intros -> Hu. split; try done.
  - intros t a Ha. unfold s_servg_create in Ha. cbn [sg_servs] in Ha. apply lookup_replicate in Ha as [-> _].
    destruct (s_array_create_spec (A := server) 16) as [Hw El]. split; [done|]. by rewrite El.
  - cbn. by intros r ?%elem_of_nil.
Qed.

Lemma servs_calm g g' : sg_servs g' = sg_servs g → sg_handle_msg g' = sg_handle_msg g → sg_conns g' = sg_conns g →
  sg_myself g' = sg_myself g → sg_waits g' = sg_waits g → sg_udata g' = sg_udata g → J g → good g g'.
Proof.
  intros E1 E2 E3 E4 E5 E6 Hj. apply good_calm; rewrite ?E3, ?E4, ?E5, ?E6; try apply Hj; done.
Qed.
Lemma myself_good g r : J g → known g r → good g (g_myself (Some r) g).
Proof. intros Hj Hr. apply good_calm; try apply Hj; try done. cbn. by intros r' [= <-]. Qed.
Lemma net_good g v : J g → good g (g_net v g).
Proof. by apply servs_calm. Qed.

Lemma init_region_good net_ok g cf region b g' cf' :
  J g → init_region net_ok g cf region = Some (b, g', cf') → good g g'.
Proof.
  unfold init_region. intros Hj Hs. destruct (iparse_config_serv_type_id _) as [[type id]|] eqn:Hp; [|simplify_eq; by apply good_refl].
  assert (0 <= type) as Hpos.
  { unfold iparse_config_serv_type_id in Hp. repeat case_match; by simplify_eq. }
  destruct (s_config_select_region _ _) as [ret c1]. destruct (ret <? 0); [simplify_eq; by apply good_refl|].
  destruct (s_config_read_string _ _) as [ip c2]. destruct (s_config_read_int _ _) as [port c3].
  apply bind_Some in Hs as (a & Ha & Hs). apply bind_Some in Hs as (a' & Hi & Hs).
  destruct (j_arrs _ _ _ Hj _ _ Ha) as [Hwa _]. apply iinit_serv_extends in Hi; [|done].
  match type of Hs with context [upd_serv ?f _ _] => destruct (place_good g type a a' id f Hj Ha Hpos Hi) as [Hg1 Hk]; [done|] end.
  set (g1 := upd_serv _ _ _) in *. eapply good_next; [exact Hg1|]. intros Hj1 G1.
  set (me := (type =? _) && (id =? _)) in *. destruct (me && negb net_ok); [simplify_eq; by apply good_refl|].
  set (g2 := if me then _ else g1) in *. assert (good g1 g2) as Hg2.
  { unfold g2. destruct me; [|by apply good_refl]. eapply good_next; [by apply net_good|]. intros Hj2 G2.
    apply myself_good; [done|by apply G2]. }
  eapply good_next; [exact Hg2|]. intros Hj2 G2. apply bind_Some in Hs as (g3 & Hl & Hs).
  eapply good_next; [by eapply list_init_good; [|apply G2|]|]. intros Hj3 G3.
  apply bind_Some in Hs as (g4 & Hw & Hs). simplify_eq. destruct (_ && _ && _) in Hw; [|simplify_eq; by apply good_refl].
  by apply (wait_for_conn_good _ (Serv type id)).
Qed.

Lemma init_regions_good n net_ok g cf next b g' cf' :
  J g → init_regions n net_ok g cf next = Some (b, g', cf') → good g g'.
Proof.
  revert g cf next. induction n as [|n IH]; intros g cf [region|] Hj Hs; cbn [init_regions] in Hs;
    try (simplify_eq; by apply good_refl).
  destruct (s_config_iter_next cf) as [next c]. apply bind_Some in Hs as ([[ok g1] c1] & Hi & Hs). cbn beta iota in Hs.
  eapply good_next; [by eapply init_region_good|]. intros Hj1 _. destruct ok; [by eapply IH|simplify_eq; by apply good_refl].
Qed.

Lemma init_numbers_good g cf b g' cf' : J g → init_numbers g cf = (b, g', cf') → good g g'.
Proof. unfold init_numbers. intros Hj Hs. repeat case_match; simplify_eq; by apply servs_calm. Qed.

Lemma init_outside_good net_ok g b g' : J g → init_outside net_ok g = Some (b, g') → good g g'.
Proof.
  unfold init_outside. intros Hj Hs. destruct (negb net_ok); [simplify_eq; by apply good_refl|].
  apply bind_Some in Hs as ([o g1] & Hc & Hs). cbn beta iota in Hs. simplify_eq.
  eapply good_next; [by apply net_good|]. intros Hj1 _. destruct (create_serv_good _ _ _ _ _ Hj1 Hc) as [Hg Hk].
  eapply good_next; [exact Hg|]. intros Hj2 _. apply good_calm; try apply Hj2; done.
Qed.

Lemma init_myself_good g g' : J g → init_myself g = Some g' → good g g'.
Proof.
  unfold init_myself. intros Hj Hs. apply bind_Some in Hs as (r & Hr & Hs). pose proof (j_me _ _ _ Hj _ Hr) as Hk.
  apply bind_Some in Hs as (s & _ & Hs). via_upd; [by apply upd_known|]. intros Hj1 G1.
  destruct (on_list _ _); [done|]. simplify_eq. apply upd_known; [done|by apply G1|done|done].
Qed.

Lemma init_config_good net_ok g cf z g' cf' : J g → s_servg_init_config net_ok g cf = Some (z, g', cf') → good g g'.
Proof.
  unfold s_servg_init_config. intros Hj Hs. destruct (s_config_select_region _ _) as [z0 c0].
  destruct (init_numbers _ _) as [[ok g1] c1] eqn:Hn.
  assert (good g (g_myself None g)) as Hg0 by (apply good_calm; try apply Hj; done).
  eapply good_next; [exact Hg0|]. intros Hj0 _. eapply good_next; [by eapply init_numbers_good|]. intros Hj1 _.
  destruct (negb ok); [simplify_eq; by apply good_refl|]. destruct (s_config_iter_next _) as [next c2].
  apply bind_Some in Hs as ([[ok2 g2] c3] & Hi & Hs). cbn beta iota in Hs.
  eapply good_next; [by eapply init_regions_good|]. intros Hj2 _. destruct (negb ok2); [simplify_eq; by apply good_refl|].
  apply bind_Some in Hs as ([ok4 g4] & Ho & Hs). cbn beta iota in Hs.
  assert (good g2 g4) as Hg4 by (destruct (bool_decide _); [simplify_eq; by apply good_refl|by eapply init_outside_good]).
  eapply good_next; [exact Hg4|]. intros Hj4 _. destruct (negb ok4); [simplify_eq; by apply good_refl|].
  apply bind_Some in Hs as (g5 & Hm & Hs). simplify_eq. by eapply init_myself_good.
Qed.
End user.
