(* ===== verification/Paxos.v ===== *)
(** * [core/s_core_paxos.c]: agreeing on values, and on who may vote

    Every meta server is a proposer, an acceptor and a learner.  A handler is
    a computation of the monad [M]: it changes [struct s_paxos], emits what is
    sent, may jump to its [label_error], and ends the model ([None]) where the
    C code follows a freed proposal, writes behind an array, or shifts out of
    range.  Topics are texts; an array of the C code is a list; the packets
    come from servers of type [S_SERV_TYPE_M], known by their ids. *)

From stdpp Require Import strings.
From S2P Require Import Prelude Packet Wire SString SHashSpec Cluster ServGroup.
Local Open Scope Z_scope.

(** ** Data *)
Definition S_PAXOS_MAX_SERV : Z := 16.
Definition S_PAXOS_RESPONSE_BAD_VERSION : Z := 0.
Definition S_PAXOS_RESPONSE_NO_VALUE : Z := 1.
Definition S_PAXOS_RESPONSE_VALUE : Z := 2.
Definition S_PAXOS_PROPOSAL_ADD : Z := 0.
Definition S_PAXOS_PROPOSAL_RM : Z := 1.
Definition S_PAXOS_PROPOSAL_NORMAL : Z := 2.

(** [pv_servs] has the [S_PAXOS_MAX_SERV] cells of [servs] *)
Record s_paxos_version := Version { pv_version : Z; pv_nserv : Z; pv_servs : list Z }.

Record s_paxos_accept := Accept { ac_topic : list Z; ac_id : s_id; ac_value : Z; ac_version : Z }.
Record s_paxos_learn := Learn { le_topic : list Z; le_value : Z; le_serv_id : Z; le_id : s_id }.

Record s_paxos_proposal := Proposal {
  pp_ref_count : Z;
  pp_version : s_paxos_version;
  pp_topic : list Z;
  pp_value : Z;
  pp_type : Z;
  pp_the_serv : Z;
  pp_id : s_id;
  pp_nsent : Z;          (* response.nsent *)
  pp_count : Z;          (* response.count *)
  pp_max_id : s_id;      (* response.max_id *)
  pp_rvalue : Z          (* response.value *)
}.

(** the callback of a remote call, with its proposal *)
Inductive paxos_cb :=
| ReceiveResponse (p : nat)
| ReceiveLearn
| AddNewServOk (p : nat)
| RefreshAcceptBack (p : nat).

Inductive px_effect :=
| PSend (serv : Z) (o : out_pkt)
| PRet (serv req : Z) (o : out_pkt)
| PCall (serv : Z) (o : out_pkt) (cb : paxos_cb) (msec : Z)
| PConnect (serv port : Z).

(** [px_props]: the memory the proposals are in *)
Record s_paxos (TR TA TL TB : Type) := Paxos {
  px_version : s_paxos_version;
  px_response_version : Z;
  px_response : TR;
  px_accept : TA;
  px_learn : TL;
  px_backup : TB;
  px_id : Z;
  px_learn_count : Z;
  px_props : gmap nat s_paxos_proposal;
  px_next : nat;
  px_out : list px_effect
}.
Arguments Paxos {TR TA TL TB}. Arguments px_version {TR TA TL TB}.
Arguments px_response_version {TR TA TL TB}. Arguments px_response {TR TA TL TB}.
Arguments px_accept {TR TA TL TB}. Arguments px_learn {TR TA TL TB}. Arguments px_backup {TR TA TL TB}.
Arguments px_id {TR TA TL TB}. Arguments px_learn_count {TR TA TL TB}. Arguments px_props {TR TA TL TB}.
Arguments px_next {TR TA TL TB}. Arguments px_out {TR TA TL TB}.

Inductive outcome (A : Type) := Val (a : A) | Jump.
Arguments Val {A}. Arguments Jump {A}.

(** ** Utilities *)
(** [iget_new_version]: [-1] if the topic is no version *)
Definition iget_new_version (topic : list Z) : Z :=
  if c_strncmp_eq 8 topic (cstr "version:"%string) then c_atoi (drop 8 topic) else -1.

(** [1 << k]; a shift by less than 0 or more than 31 is undefined *)
Definition shl1 (k : Z) : option Z := if (0 <=? k) && (k <? 32) then Some (sint (2 ^ k)) else None.

(** [value |= 1 << servs[i]] for the servers of a list *)
Fixpoint or_bits (servs : list Z) (value : Z) : option Z :=
  match servs with
  | [] => Some value
  | k :: servs => b ← shl1 k; or_bits servs (Z.lor value b)
  end.

(** the servers in use; [nserv] beyond the array reads behind it *)
Definition servs_of (v : s_paxos_version) : option (list Z) :=
  if S_PAXOS_MAX_SERV <? pv_nserv v then None else Some (take (Z.to_nat (pv_nserv v)) (pv_servs v)).

Definition set_serv (v : s_paxos_version) (i x : Z) : option s_paxos_version :=
  if S_PAXOS_MAX_SERV <=? i then None
  else Some (Version (pv_version v) (pv_nserv v) (<[Z.to_nat i := x]> (pv_servs v))).

Definition iversion_to_int (v : s_paxos_version) : option Z := servs ← servs_of v; or_bits servs 0.

(** [value & (1 << k)] for [k] from 0 to 31 *)
Definition bits_of (value : Z) : list Z := filter (λ k, Z.testbit (uint value) k = true) (seqZ 0 32).

(** [for(...) if(value & (1 << i)) servs[c++] = i;] *)
Fixpoint set_servs (v : s_paxos_version) (c : Z) (l : list Z) : option (Z * s_paxos_version) :=
  match l with
  | [] => Some (c, v)
  | k :: l => v ← set_serv v c k; set_servs v (c + 1) l
  end.
Definition iversion_from_int (v : s_paxos_version) (value : Z) : option s_paxos_version :=
  '(c, v) ← set_servs v 0 (bits_of value); Some (Version (pv_version v) c (pv_servs v)).

(** a packet of these fields; one too big is a null pointer that is followed *)
Definition msg_pkt (fn : Z) (fs : list field) : option out_pkt :=
  if S_PKT_MAX_SZ <? Z.of_nat (length (enc_fields fs)) then None else Some (OMsg fn fs).

Definition topic_of_version (v : Z) : option (list Z) :=
  match s_string_create_format (cstr "version:%d"%string) [Aint v] with
  | FmtOk s => Some (str_text s)
  | _ => None
  end.

Definition s_paxos_is_in (v : s_paxos_version) (serv : Z) : option bool :=
  servs ← servs_of v; Some (bool_decide (serv ∈ servs)).

Section paxos.
Context {TR TA TL TB : Type}.
Context `{HTR : !Table (list Z) s_id TR, HTA : !Table (list Z) (list s_paxos_accept) TA,
          HTL : !Table (list Z) (list s_paxos_learn) TL, HTB : !Table Z (list s_paxos_accept) TB}.
Abbreviation px := (s_paxos TR TA TL TB).

(** ** The monad of the handlers *)
Definition M (A : Type) : Type := px → option (outcome A * px).
#[export] Instance M_ret : MRet M := λ A a s, Some (Val a, s).
#[export] Instance M_bind : MBind M := λ A B f m s,
  match m s with
  | Some (Val a, s) => f a s
  | Some (Jump, s) => Some (Jump, s)
  | None => None
  end.

(** [goto label_error] *)
Definition jump {A} : M A := λ s, Some (Jump, s).
(** the statements and those behind [label_error], where all paths lead *)
Definition label (m err : M ()) : M () := λ s, match m s with Some (_, s) => err s | None => None end.
(** the statements behind [label_error] are reached by the jumps only *)
Definition on_error (m err : M ()) : M () := λ s, match m s with Some (Jump, s) => err s | r => r end.
Definition need {A} (o : option A) : M A := λ s, a ← o; Some (Val a, s).
Definition gets {A} (f : px → A) : M A := λ s, Some (Val (f s), s).
Definition modify (f : px → px) : M () := λ s, Some (Val (), f s).
Definition read {A} (r : s_packet → option (A * s_packet)) (pkt : s_packet) : M (A * s_packet) :=
  match r pkt with Some x => mret x | None => jump end.

Fixpoint for_each {A} (f : A → M ()) (l : list A) : M () :=
  match l with
  | [] => mret ()
  | x :: l => f x ;; for_each f l
  end.

(** [for(i = i; i < n; ++i)] over reads of a packet: a body that does not
    jump has read some bytes, so [fuel] is the bytes there are *)
Fixpoint for_reads (fuel : nat) (i n : Z) (body : Z → s_packet → M s_packet) (pkt : s_packet) : M s_packet :=
  if i <? n then
    match fuel with
    | O => need None
    | S fuel => pkt ← body i pkt; for_reads fuel (i + 1) n body pkt
    end
  else mret pkt.

(** [while(s_packet_read_string(pkt, &topic) >= 0)] *)
Fixpoint while_topics (fuel : nat) (body : list Z → s_packet → M s_packet) (pkt : s_packet) : M () :=
  match read_string pkt with
  | None => mret ()
  | Some (topic, pkt) =>
      match fuel with
      | O => need None
      | S fuel => pkt ← body topic pkt; while_topics fuel body pkt
      end
  end.
Definition fuel_of (pkt : s_packet) : nat := S (Z.to_nat (pk_size pkt)).

Definition set_version v (s : px) : px :=
  Paxos v (px_response_version s) (px_response s) (px_accept s) (px_learn s) (px_backup s) (px_id s)
    (px_learn_count s) (px_props s) (px_next s) (px_out s).
Definition set_response_version v (s : px) : px :=
  Paxos (px_version s) v (px_response s) (px_accept s) (px_learn s) (px_backup s) (px_id s)
    (px_learn_count s) (px_props s) (px_next s) (px_out s).
Definition set_response v (s : px) : px :=
  Paxos (px_version s) (px_response_version s) v (px_accept s) (px_learn s) (px_backup s) (px_id s)
    (px_learn_count s) (px_props s) (px_next s) (px_out s).
Definition set_accept v (s : px) : px :=
  Paxos (px_version s) (px_response_version s) (px_response s) v (px_learn s) (px_backup s) (px_id s)
    (px_learn_count s) (px_props s) (px_next s) (px_out s).
Definition set_learn v (s : px) : px :=
  Paxos (px_version s) (px_response_version s) (px_response s) (px_accept s) v (px_backup s) (px_id s)
    (px_learn_count s) (px_props s) (px_next s) (px_out s).
Definition set_backup v (s : px) : px :=
  Paxos (px_version s) (px_response_version s) (px_response s) (px_accept s) (px_learn s) v (px_id s)
    (px_learn_count s) (px_props s) (px_next s) (px_out s).
Definition set_id v (s : px) : px :=
  Paxos (px_version s) (px_response_version s) (px_response s) (px_accept s) (px_learn s) (px_backup s) v
    (px_learn_count s) (px_props s) (px_next s) (px_out s).
Definition set_learn_count v (s : px) : px :=
  Paxos (px_version s) (px_response_version s) (px_response s) (px_accept s) (px_learn s) (px_backup s) (px_id s)
    v (px_props s) (px_next s) (px_out s).
Definition set_props v n (s : px) : px :=
  Paxos (px_version s) (px_response_version s) (px_response s) (px_accept s) (px_learn s) (px_backup s) (px_id s)
    (px_learn_count s) v n (px_out s).
Definition emit (e : px_effect) : M () := modify (λ s,
  Paxos (px_version s) (px_response_version s) (px_response s) (px_accept s) (px_learn s) (px_backup s) (px_id s)
    (px_learn_count s) (px_props s) (px_next s) (px_out s ++ [e])).

Section handlers.
(** this server, who is active, fresh memory, and the uninitialised [dummy] *)
Context (core_id : Z) (active : Z → bool) (junk : Z) (dummy : nat).

(** ** Proposals *)
Definition s_paxos_create (tr : TR) (ta : TA) (tl : TL) (tb : TB) : px :=
  let v := if core_id =? 1 then Version 1 1 (1 :: replicate 15 junk) else Version 0 0 (replicate 16 junk) in
  Paxos v 0 tr ta tl tb 1 0 ∅ 0 [].

(** [paxos->id++] *)
Definition next_id : M s_id :=
  id ← gets px_id; modify (set_id (id + 1)) ;; mret (SId core_id id).

(** the fields of a new proposal; its version is that of this server *)
Definition blank_proposal (topic : list Z) (value : Z) : M s_paxos_proposal :=
  id ← next_id; v ← gets px_version;
  mret (Proposal 1 v topic value junk junk id junk 0 (SId 0 0) (-1)).

Definition s_paxos_proposal_create (topic : list Z) (value : Z) : M nat :=
  p ← blank_proposal topic value;
  ps ← gets px_props; a ← gets px_next;
  modify (set_props (<[a := p]> ps) (S a)) ;; mret a.

(** a proposal by its address, which must not be freed *)
Definition proposal (a : nat) : M s_paxos_proposal := ps ← gets px_props; need (ps !! a).
Definition store (a : nat) (p : s_paxos_proposal) : M () :=
  ps ← gets px_props; n ← gets px_next; modify (set_props (<[a := p]> ps) n).

Definition with_count (f : Z → Z) (p : s_paxos_proposal) : s_paxos_proposal :=
  Proposal (pp_ref_count p) (pp_version p) (pp_topic p) (pp_value p) (pp_type p) (pp_the_serv p) (pp_id p)
    (pp_nsent p) (f (pp_count p)) (pp_max_id p) (pp_rvalue p).
Definition with_refs (f : Z → Z) (p : s_paxos_proposal) : s_paxos_proposal :=
  Proposal (f (pp_ref_count p)) (pp_version p) (pp_topic p) (pp_value p) (pp_type p) (pp_the_serv p) (pp_id p)
    (pp_nsent p) (pp_count p) (pp_max_id p) (pp_rvalue p).
Definition with_nsent (n : Z) (p : s_paxos_proposal) : s_paxos_proposal :=
  Proposal (pp_ref_count p) (pp_version p) (pp_topic p) (pp_value p) (pp_type p) (pp_the_serv p) (pp_id p)
    n (pp_count p) (pp_max_id p) (pp_rvalue p).
Definition with_kind (type the_serv : Z) (p : s_paxos_proposal) : s_paxos_proposal :=
  Proposal (pp_ref_count p) (pp_version p) (pp_topic p) (pp_value p) type the_serv (pp_id p)
    (pp_nsent p) (pp_count p) (pp_max_id p) (pp_rvalue p).
Definition with_value (v : Z) (p : s_paxos_proposal) : s_paxos_proposal :=
  Proposal (pp_ref_count p) (pp_version p) (pp_topic p) v (pp_type p) (pp_the_serv p) (pp_id p)
    (pp_nsent p) (pp_count p) (pp_max_id p) (pp_rvalue p).
Definition with_max (id : s_id) (v : Z) (p : s_paxos_proposal) : s_paxos_proposal :=
  Proposal (pp_ref_count p) (pp_version p) (pp_topic p) (pp_value p) (pp_type p) (pp_the_serv p) (pp_id p)
    (pp_nsent p) (pp_count p) id v.
Definition update (a : nat) (f : s_paxos_proposal → s_paxos_proposal) : M () := p ← proposal a; store a (f p).

Definition s_paxos_proposal_grab (a : nat) : M () := update a (with_refs (λ n, n + 1)).
Definition s_paxos_proposal_drop (a : nat) : M () :=
  p ← proposal a;
  if pp_ref_count p <=? 0 then need None
  else if pp_ref_count p - 1 =? 0 then ps ← gets px_props; n ← gets px_next; modify (set_props (delete a ps) n)
  else store a (with_refs (λ n, n - 1) p).

(** ** Acceptor and learner *)

(** [if version <= 0, ignore version] *)
Definition accept_refused (s : px) (topic : list Z) (id : s_id) (version : Z) : bool :=
  let v := iget_new_version topic in
  (0 <? version) && negb (version =? pv_version (px_version s)) ||
  (0 <? version) && (version <? px_response_version s) && (v <? px_response_version s) ||
  match tbl_get (px_response s) topic with Some pid => bool_decide (s_id_gt pid id) | None => false end.

(** the accepted values of a topic: one of this value takes the greater id *)
Fixpoint accept_value (topic : list Z) (id : s_id) (value version : Z) (l : list s_paxos_accept)
    : list s_paxos_accept :=
  match l with
  | [] => [Accept topic id value version]
  | a :: l =>
      if bool_decide (ac_topic a = topic) && (ac_value a =? value)
      then (if decide (s_id_gt id (ac_id a)) then Accept (ac_topic a) id (ac_value a) (ac_version a) else a) :: l
      else a :: accept_value topic id value version l
  end.

Definition iaccept (topic : list Z) (id : s_id) (value version : Z) : M () := λ s,
  if accept_refused s topic id version then Some (Val (), s) else
  let l := default [] (tbl_get (px_accept s) topic) in
  let l := accept_value topic id value (pv_version (px_version s)) l in
  Some (Val (), set_accept (tbl_put (px_accept s) topic l) s).

(** [pcount]: how many of the records met had this value *)
Definition count_value (h : gmap Z Z) (value : Z) : Z := default 0 (h !! value) + 1.

(** the servers of a new version: those not active are connected to *)
Fixpoint new_servs (v : s_paxos_version) (c : Z) (l : list Z) : M (Z * s_paxos_version) :=
  match l with
  | [] => mret (c, v)
  | k :: l =>
      v ← need (set_serv v c k);
      (if active k then mret () else emit (PConnect k (S_SERV_M_DEFAULT_PORT + k))) ;;
      new_servs v (c + 1) l
  end.

(** the loop over the records of a topic [version:v] *)
Fixpoint adopt (topic : list Z) (v : Z) (h : gmap Z Z) (l : list s_paxos_learn) : M () :=
  match l with
  | [] => mret ()
  | le :: l =>
      let value := le_value le in
      let n := count_value h value in
      ver ← gets px_version;
      if (pv_nserv ver ÷ 2 <? n) || ((pv_nserv ver =? 2) && (core_id =? 1)) then
        (* paxos->version.version = v *)
        '(c, ver) ← new_servs (Version v (pv_nserv ver) (pv_servs ver)) 0 (bits_of value);
        modify (set_version (Version v c (pv_servs ver))) ;;
        iaccept topic (le_id le) value (-1)
      else adopt topic v (<[value := n]> h) l
  end.

Definition icheck_new_version : M () :=
  s ← gets id;
  match list_find (λ kv : list Z * list s_paxos_learn,
          iget_new_version kv.1 = pv_version (px_version s) + 1) (tbl_elems (px_learn s)) with
  | Some (_, (topic, l)) => adopt topic (iget_new_version topic) ∅ l
  | None => mret ()
  end.

(** [None]: the server has told this value before *)
Fixpoint learn_known (value : Z) (id : s_id) (serv_id : Z) (l : list s_paxos_learn) : option (list s_paxos_learn) :=
  match l with
  | [] => None
  | le :: l =>
      if (le_serv_id le =? serv_id) && (le_value le =? value)
      then Some ((if decide (s_id_gt id (le_id le)) then Learn (le_topic le) (le_value le) (le_serv_id le) id else le) :: l)
      else cons le <$> learn_known value id serv_id l
  end.

Definition ilearn (topic : list Z) (value : Z) (id : s_id) (serv_id : Z) : M () :=
  t ← gets px_learn;
  let l := default [] (tbl_get t topic) in
  match learn_known value id serv_id l with
  | Some l => modify (set_learn (tbl_put t topic l))
  | None =>
      modify (set_learn (tbl_put t topic (l ++ [Learn topic value serv_id id]))) ;;
      icheck_new_version
  end.

(** the records of a topic that count, and the fields written for them: one
    group for every record that makes or adds to a majority *)
Fixpoint dump_topic (v : s_paxos_version) (topic : list Z) (h : gmap Z Z) (l : list s_paxos_learn)
    : option (list s_paxos_learn * list field) :=
  match l with
  | [] => Some ([], [])
  | le :: l =>
      b ← s_paxos_is_in v (le_serv_id le);
      if b : bool then
        let value := le_value le in
        let n := count_value h value in
        '(l, fs) ← dump_topic v topic (<[value := n]> h) l;
        Some (le :: l,
          (if pv_nserv v ÷ 2 <? n
           then [Fstring topic; Fint value; Fint (id_x (le_id le)); Fint (id_y (le_id le))] else []) ++ fs)
      else dump_topic v topic h l
  end.

Fixpoint dump_topics (v : s_paxos_version) (t : TL) (l : list (list Z * list s_paxos_learn))
    : option (TL * list field) :=
  match l with
  | [] => Some (t, [])
  | (topic, a) :: l =>
      '(a, fs) ← dump_topic v topic ∅ a;
      '(t, fs') ← dump_topics v (tbl_put t topic a) l;
      Some (t, fs ++ fs')
  end.

(** the body runs twice, to size the packet and to write it; the records the
    first run removes are not met by the second, which writes the same *)
Definition idump_learn (fn : Z) : M out_pkt :=
  v ← gets px_version; t ← gets px_learn;
  servs ← need (servs_of v);
  '(t, fs) ← need (dump_topics v t (tbl_elems t));
  modify (set_learn t) ;;
  need (msg_pkt fn ([Fint (pv_version v); Fint (pv_nserv v)] ++ (Fint <$> servs) ++ fs)).

(** ** Proposer *)

(** a packet to the servers of the version that are active *)
Definition broadcast (send : Z → M ()) : M () :=
  v ← gets px_version; servs ← need (servs_of v);
  for_each (λ k, if active k then send k else mret ()) servs.

Definition accept_fields (p : s_paxos_proposal) : list field :=
  [Fstring (pp_topic p); Fint (id_x (pp_id p)); Fint (id_y (pp_id p)); Fint (pp_value p);
   Fint (pv_version (pp_version p))].
(** [S_PKT_TYPE_PAXOS_ACCEPT] to all *)
Definition send_accept (p : s_paxos_proposal) : M () :=
  o ← need (msg_pkt S_PKT_TYPE_PAXOS_ACCEPT (accept_fields p));
  broadcast (λ k, emit (PSend k o)).

Definition send_request (a : nat) : M () :=
  p ← proposal a;
  v ← gets px_version; servs ← need (servs_of v);
  o ← need (msg_pkt S_PKT_TYPE_PAXOS_REQUEST
    ([Fstring (pp_topic p); Fint (id_x (pp_id p)); Fint (id_y (pp_id p)); Fint (pp_value p);
      Fint (pp_type p); Fint (pp_the_serv p);
      Fint (pv_version (pp_version p)); Fint (pv_nserv (pp_version p))] ++ (Fint <$> servs)));
  update a (with_nsent 0) ;;
  broadcast (λ k,
    s_paxos_proposal_grab a ;;
    emit (PCall k o (ReceiveResponse a) 1000) ;;
    p ← proposal a; store a (with_nsent (pp_nsent p + 1) p)) ;;
  s_paxos_proposal_drop a.

Definition s_paxos_start (topic : list Z) (value type the_serv : Z) : M () :=
  v ← gets px_version;
  me ← need (s_paxos_is_in v core_id);
  if negb me then mret () else
  a ← s_paxos_proposal_create topic value;
  update a (with_kind type the_serv) ;;
  servs ← need (servs_of v);
  let at_serv := if type =? S_PAXOS_PROPOSAL_ADD then list_find (λ k, the_serv = k) servs else None in
  if at_serv is Some (i, _) then _ ← need (or_bits (take i servs) 0); mret () else
  value ← (if type =? S_PAXOS_PROPOSAL_ADD then
             value ← need (or_bits servs 0); need (or_bits [the_serv] value)
           else if type =? S_PAXOS_PROPOSAL_RM then need (or_bits (filter (λ k, k ≠ the_serv) servs) 0)
           else mret value);
  update a (with_value value) ;;
  send_request a.

Definition s_paxos_learn_all : M () :=
  modify (λ s, set_learn (tbl_new 16) s) ;;
  v ← gets px_version;
  o ← need (msg_pkt S_PKT_TYPE_PAXOS_LEARN_REQUEST [Fint (pv_version v)]);
  servs ← need (servs_of v);
  broadcast (λ k, emit (PCall k o ReceiveLearn 1000)) ;;
  modify (set_learn_count (Z.of_nat (length (filter (λ k, active k = true) servs)))).

Definition s_paxos_check_leave : M () :=
  v ← gets px_version; servs ← need (servs_of v);
  match list_find (λ k, active k = false) servs with
  | None => mret ()
  | Some (_, k) =>
      value ← need (iversion_to_int v);
      b ← need (shl1 k);
      topic ← need (topic_of_version (pv_version v + 1));
      s_paxos_start topic (Z.land value (Z.lnot b)) S_PAXOS_PROPOSAL_RM k
  end.

(** ** Phase 1 at an acceptor *)

(** the greatest accepted id below [id], with its value *)
Fixpoint max_accepted (id : s_id) (l : list s_paxos_accept) (max : s_id * Z) : s_id * Z :=
  match l with
  | [] => max
  | a :: l =>
      max_accepted id l
        (if decide (s_id_gt id (ac_id a) ∧ s_id_gt (ac_id a) max.1) then (ac_id a, ac_value a) else max)
  end.

Definition backup_fields (l : list s_paxos_accept) : list field :=
  Fint (Z.of_nat (length l)) ::
  concat ((λ a, [Fstring (ac_topic a); Fint (ac_value a); Fint (id_x (ac_id a)); Fint (id_y (ac_id a))]) <$> l).
Definition accepts_fields (kv : list Z * list s_paxos_accept) : list field :=
  [Fstring kv.1; Fint (Z.of_nat (length kv.2))] ++
  concat ((λ a, [Fint (ac_value a); Fint (id_x (ac_id a)); Fint (id_y (ac_id a))]) <$> kv.2).

Definition response_fields (s : px) (topic : list Z) (id : s_id) (type the_serv : Z) : list field :=
  let '(max_id, value) := max_accepted id (default [] (tbl_get (px_accept s) topic)) (SId 0 0, -1) in
  (if value <? 0 then [Fint S_PAXOS_RESPONSE_NO_VALUE]
   else [Fint S_PAXOS_RESPONSE_VALUE; Fint (id_x max_id); Fint (id_y max_id); Fint value]) ++
  (if type =? S_PAXOS_PROPOSAL_RM
   then match tbl_get (px_backup s) the_serv with Some l => backup_fields l | None => [Fint 0] end else []) ++
  (if negb (type =? S_PAXOS_PROPOSAL_NORMAL) then concat (accepts_fields <$> tbl_elems (px_accept s)) else []).

(** the promise: the greatest id asked for *)
Definition promise (t : TR) (topic : list Z) (id : s_id) : TR :=
  match tbl_get t topic with
  | Some pid => if decide (s_id_gt id pid) then tbl_put t topic id else t
  | None => tbl_put t topic id
  end.

(** [s_packet_read(pkt, &p->version.servs[i], int, label_error)] *)
Definition read_serv (v : s_paxos_version) (i : Z) (pkt : s_packet) : M (s_packet * s_paxos_version) :=
  '(x, pkt) ← read read_int pkt; v ← need (set_serv v i x); mret (pkt, v).
Fixpoint read_servs (fuel : nat) (v : s_paxos_version) (i : Z) (pkt : s_packet) : M (s_packet * s_paxos_version) :=
  if i <? pv_nserv v then
    match fuel with
    | O => need None
    | S fuel => '(pkt, v) ← read_serv v i pkt; read_servs fuel v (i + 1) pkt
    end
  else mret (pkt, v).

(** the proposal made to hold what is read is freed on every path *)
Definition ireceive_request (serv : Z) (pkt : s_packet) : M () :=
  p ← blank_proposal [] (-1);
  let req_id := s_packet_get_req pkt in
  label (
    '(topic, pkt) ← read read_string pkt;
    '(id, pkt) ← read read_id pkt;
    '(value, pkt) ← read read_int pkt;
    '(type, pkt) ← read read_int pkt;
    '(the_serv, pkt) ← read read_int pkt;
    '(version, pkt) ← read read_int pkt;
    '(nserv, pkt) ← read read_int pkt;
    _ ← read_servs (fuel_of pkt) (Version version nserv (pv_servs (pp_version p))) 0 pkt;
    v ← gets px_version;
    if negb (pv_version v =? version) then
      emit (PRet serv req_id (OMsg 0 [Fint S_PAXOS_RESPONSE_BAD_VERSION]))
    else
      fs ← gets (λ s, response_fields s topic id type the_serv);
      o ← need (msg_pkt 0 fs);
      emit (PRet serv req_id o) ;;
      (if negb (type =? S_PAXOS_PROPOSAL_NORMAL) then modify (set_response_version (iget_new_version topic))
       else mret ()) ;;
      modify (λ s, set_response (promise (px_response s) topic id) s))
  (mret ()).

(** ** Responses *)

(** [suc == S_PAXOS_RESPONSE_VALUE]: the value a response tells, kept if its
    id is the greatest so far; [keep] is what is done with the proposal *)
Definition read_value (pkt : s_packet) : M ((s_id * Z) * s_packet) :=
  '(id, pkt) ← read read_id pkt; '(value, pkt) ← read read_int pkt; mret ((id, value), pkt).
Definition keep_max (x : s_id * Z) (p : s_paxos_proposal) : s_paxos_proposal :=
  if decide (s_id_gt x.1 (pp_max_id p)) then with_max x.1 x.2 p else p.
Definition take_max (x : s_id * Z) (p : s_paxos_proposal) : s_paxos_proposal :=
  if decide (s_id_gt x.1 (pp_max_id p)) then with_value x.2 (with_max x.1 x.2 p) else p.

(** [value], [id.x], [id.y] of a record, learned *)
Definition learn_record (topic : list Z) (serv : Z) (pkt : s_packet) : M s_packet :=
  '(value, pkt) ← read read_int pkt; '(id, pkt) ← read read_id pkt;
  ilearn topic value id serv ;; mret pkt.

(** "get all accept" *)
Definition learn_accepts (serv : Z) (pkt : s_packet) : M () :=
  while_topics (fuel_of pkt) (λ topic pkt,
    '(count, pkt) ← read read_int pkt;
    for_reads (fuel_of pkt) 0 count (λ _, learn_record topic serv) pkt) pkt.

(** "get backup" *)
Definition learn_backup (serv : Z) (pkt : s_packet) : M s_packet :=
  '(nbackup, pkt) ← read read_int pkt;
  for_reads (fuel_of pkt) 0 nbackup (λ _ pkt,
    '(topic, pkt) ← read read_string pkt; learn_record topic serv pkt) pkt.

(** the start of [i_receive_response_add] and [i_receive_response_rm]:
    [false] if the version was bad.  No packet: the time is over *)
Definition response_members (a : nat) (rm : bool) (pkt : option s_packet) (serv_from : Z) : M bool :=
  update a (with_count (λ n, n + 1)) ;;
  match pkt with
  | None => mret true
  | Some pkt =>
      '(suc, pkt) ← read read_int pkt;
      if suc =? S_PAXOS_RESPONSE_BAD_VERSION then
        update a (with_count (λ n, n - 1)) ;; s_paxos_proposal_drop a ;; mret false
      else
        pkt ← (if suc =? S_PAXOS_RESPONSE_VALUE then
                 '(x, pkt) ← read_value pkt; update a (keep_max x) ;; mret pkt
               else mret pkt);
        p ← proposal a;
        pkt ← (if rm then learn_backup (pp_the_serv p) pkt else mret pkt);
        learn_accepts serv_from pkt ;; mret true
  end.

(** another value has been accepted *)
Definition conflict (p : s_paxos_proposal) : bool := (0 <? pp_rvalue p) && negb (pp_rvalue p =? pp_value p).

(** the paths that [return] keep the reference to the proposal *)
Definition i_receive_response_add (pkt : option s_packet) (a : nat) (serv_from : Z) : M () :=
  on_error (
    go ← response_members a false pkt serv_from;
    if negb go then mret () else
    p ← proposal a;
    if negb (pp_count p =? pv_nserv (pp_version p)) then s_paxos_proposal_drop a
    else if conflict p then mret ()
    else if negb (active (pp_the_serv p)) then mret ()
    else
      o ← idump_learn S_PKT_TYPE_PAXOS_ADD_ACCEPT;
      s_paxos_proposal_grab a ;;
      emit (PCall (pp_the_serv p) o (AddNewServOk a) 1000) ;;
      s_paxos_proposal_drop a)
  (s_paxos_proposal_drop a).

(** the answer, or the end of the time: accepted by all either way *)
Definition i_add_new_serv_ok (a : nat) : M () := p ← proposal a; send_accept p.

Definition i_receive_response_rm (pkt : option s_packet) (a : nat) (serv_from : Z) : M () :=
  on_error (
    go ← response_members a true pkt serv_from;
    if negb go then mret () else
    p ← proposal a;
    if negb (pp_count p =? pp_nsent p) then s_paxos_proposal_drop a
    else if conflict p then mret ()
    else
      o ← idump_learn S_PKT_TYPE_PAXOS_REFRESH_ACCEPT;
      v ← gets px_version; servs ← need (servs_of v);
      broadcast (λ k, s_paxos_proposal_grab a ;; emit (PCall k o (RefreshAcceptBack a) 1000)) ;;
      update a (with_count (λ _, Z.of_nat (length (filter (λ k, active k = true) servs)))) ;;
      s_paxos_proposal_drop a)
  (s_paxos_proposal_drop a).

Definition i_refresh_accept_back (a : nat) : M () :=
  update a (with_count (λ n, n - 1)) ;;
  p ← proposal a;
  if pp_count p =? 0 then send_accept p else mret ().

(** [None] for [id]: the acceptor has no value *)
Definition iresponse (a : nat) (x : option (s_id * Z)) : M () :=
  update a (with_count (λ n, n + 1)) ;;
  match x with Some x => update a (take_max x) | None => mret () end ;;
  p ← proposal a;
  if pv_nserv (pp_version p) ÷ 2 <? pp_count p then send_accept p else mret ().

Definition ireceive_response (serv : Z) (pkt : option s_packet) (a : nat) : M () :=
  p ← proposal a;
  if pp_type p =? S_PAXOS_PROPOSAL_ADD then i_receive_response_add pkt a serv
  else if pp_type p =? S_PAXOS_PROPOSAL_RM then i_receive_response_rm pkt a serv
  else
    match pkt with
    | None => s_paxos_proposal_drop a
    | Some pkt =>
        label (
          '(suc, pkt) ← read read_int pkt;
          if suc =? S_PAXOS_RESPONSE_BAD_VERSION then mret ()
          else if suc =? S_PAXOS_RESPONSE_VALUE then
            '(x, pkt) ← read_value pkt; iresponse a (Some x)
          else iresponse a None)
        (s_paxos_proposal_drop a)
    end.

(** ** Phase 2 at an acceptor, and learning *)

Definition ireceive_accept (pkt : s_packet) : M () :=
  label (
    '(topic, pkt) ← read read_string pkt;
    '(id, pkt) ← read read_id pkt;
    '(value, pkt) ← read read_int pkt;
    '(version, pkt) ← read read_int pkt;
    iaccept topic id value version)
  (mret ()).

Definition learn_request_fields (t : TA) : list field :=
  concat ((λ a, [Fstring (ac_topic a); Fint (ac_value a); Fint (id_x (ac_id a)); Fint (id_y (ac_id a))]) <$>
          concat (snd <$> tbl_elems t)).
Definition ireceive_learn_request (serv : Z) (pkt : s_packet) : M () :=
  let req_id := s_packet_get_req pkt in
  match read_int pkt with
  | None => mret ()
  | Some (version, _) =>
      t ← gets px_accept;
      o ← need (msg_pkt 0 (Fint version :: learn_request_fields t));
      emit (PRet serv req_id o)
  end.

(** the records of a learner's answer; [false]: the version has changed *)
Fixpoint learn_loop (fuel : nat) (version serv : Z) (pkt : s_packet) : M bool :=
  match read_string pkt with
  | None => mret true
  | Some (topic, pkt) =>
      match fuel with
      | O => need None
      | S fuel =>
          pkt ← learn_record topic serv pkt;
          v ← gets px_version;
          if negb (version =? pv_version v) then mret false else learn_loop fuel version serv pkt
      end
  end.

Definition ireceive_learn (serv : Z) (pkt : option s_packet) : M () :=
  n ← gets px_learn_count; modify (set_learn_count (n - 1)) ;;
  on_error (
    go ← match pkt with
         | None => mret true
         | Some pkt =>
             '(version, pkt) ← read read_int pkt;
             v ← gets px_version;
             if negb (version =? pv_version v) then mret false
             else learn_loop (fuel_of pkt) version serv pkt
         end;
    n ← gets px_learn_count;
    if go && (n =? 0) then _ ← idump_learn 0; mret () else mret ())
  (mret ()).

(** ** Members *)

(** records of other values before the first of this value are removed *)
Fixpoint refresh (value : Z) (l : list s_paxos_accept) : list s_paxos_accept * bool :=
  match l with
  | [] => ([], false)
  | a :: l' => if ac_value a =? value then (l, true) else refresh value l'
  end.
Definition refresh_accept (topic : list Z) (value : Z) (id : s_id) (t : TA) : TA :=
  let '(l, find) := refresh value (default [] (tbl_get t topic)) in
  tbl_put t topic (if find then l else l ++ [Accept topic id value junk]).

(** the walk over [paxos->backup] starts where [dummy] says *)
Definition refresh_backup (topic : list Z) (value : Z) (t : TB) : TB :=
  foldl (λ t kl, tbl_put t kl.1 (filter (λ a, ¬ (ac_topic a = topic ∧ ac_value a ≠ value)) kl.2)) t
    (drop dummy (tbl_elems t)).

Definition ireceive_refresh_accept (serv : Z) (pkt : s_packet) : M () :=
  let req_id := s_packet_get_req pkt in
  label (
    '(version, pkt) ← read read_int pkt;
    '(nserv, pkt) ← read read_int pkt;
    pkt ← for_reads (fuel_of pkt) 0 nserv (λ _ pkt, '(_, pkt) ← read read_int pkt; mret pkt) pkt;
    v ← gets px_version;
    if negb (version =? pv_version v) then mret () else
    while_topics (fuel_of pkt) (λ topic pkt,
      '(value, pkt) ← read read_int pkt;
      '(id, pkt) ← read read_id pkt;
      modify (λ s, set_accept (refresh_accept topic value id (px_accept s)) s) ;;
      modify (λ s, set_backup (refresh_backup topic value (px_backup s)) s) ;;
      mret pkt) pkt ;;
    emit (PRet serv req_id (OMsg 0 [])))
  (mret ()).

Definition ireceive_add (new_serv : Z) : M () :=
  v ← gets px_version;
  topic ← need (topic_of_version (pv_version v + 1));
  servs ← need (servs_of v);
  value ← need (or_bits servs 0);
  value ← need (or_bits [new_serv] value);
  s_paxos_start topic value S_PAXOS_PROPOSAL_ADD new_serv.

(** the version is read in place *)
Fixpoint read_my_servs (fuel : nat) (i : Z) (pkt : s_packet) : M s_packet :=
  v ← gets px_version;
  if i <? pv_nserv v then
    match fuel with
    | O => need None
    | S fuel =>
        '(pkt, v) ← read_serv v i pkt;
        modify (set_version v) ;; read_my_servs fuel (i + 1) pkt
    end
  else mret pkt.

Definition ireceive_add_accept (serv : Z) (pkt : s_packet) : M () :=
  let req_id := s_packet_get_req pkt in
  label (
    v ← gets px_version;
    '(version, pkt) ← read read_int pkt;
    modify (set_version (Version version (pv_nserv v) (pv_servs v))) ;;
    '(nserv, pkt) ← read read_int pkt;
    modify (set_version (Version version nserv (pv_servs v))) ;;
    pkt ← read_my_servs (fuel_of pkt) 0 pkt;
    while_topics (fuel_of pkt) (λ topic pkt,
      '(value, pkt) ← read read_int pkt;
      '(id, pkt) ← read read_id pkt;
      iaccept topic id value (-1) ;; mret pkt) pkt ;;
    emit (PRet serv req_id (OMsg 0 [])))
  (mret ()).

(** ** Messages and answers *)

(** the handlers [s_paxos_create] registers *)
Definition handle_paxos (serv fn : Z) (pkt : s_packet) : M () :=
  if fn =? S_PKT_TYPE_PAXOS_REQUEST then ireceive_request serv pkt
  else if fn =? S_PKT_TYPE_PAXOS_ACCEPT then ireceive_accept pkt
  else if fn =? S_PKT_TYPE_PAXOS_LEARN_REQUEST then ireceive_learn_request serv pkt
  else if fn =? S_PKT_TYPE_PAXOS_ADD_ME then ireceive_add serv
  else if fn =? S_PKT_TYPE_PAXOS_ADD_ACCEPT then ireceive_add_accept serv pkt
  else if fn =? S_PKT_TYPE_PAXOS_REFRESH_ACCEPT then ireceive_refresh_accept serv pkt
  else mret ().

Definition run_paxos_cb (serv : Z) (cb : paxos_cb) (pkt : option s_packet) : M () :=
  match cb with
  | ReceiveResponse a => ireceive_response serv pkt a
  | ReceiveLearn => ireceive_learn serv pkt
  | AddNewServOk a => i_add_new_serv_ok a
  | RefreshAcceptBack a => i_refresh_accept_back a
  end.
End handlers.
End paxos.
