(* ===== verification/PaxosSpec.v ===== *)
(** * [core/s_core_paxos.c]: promises, majorities and versions

    A relation between the states before and after that is reflexive and
    transitive and holds for every elementary change holds for a handler:
    [keeps] is proved for a computation of [M] from its parts. *)

From stdpp Require Import strings.
From S2P Require Import Prelude Packet Wire SString SHashSpec Cluster ServGroup Paxos.
Local Open Scope Z_scope.

Create HintDb px discriminated.

(** ** A logic for [M] *)
Section logic.
Context {TR TA TL TB : Type}.
Context `{HTR : !Table (list Z) s_id TR, HTA : !Table (list Z) (list s_paxos_accept) TA,
          HTL : !Table (list Z) (list s_paxos_learn) TL, HTB : !Table Z (list s_paxos_accept) TB}.
Abbreviation px := (s_paxos TR TA TL TB).
Abbreviation M := (M (TR := TR) (TA := TA) (TL := TL) (TB := TB)).
Context (P : px → px → Prop) {HP : PreOrder P}.
#[local] Set Default Proof Using "Type + HP".

Definition keeps {A} (m : M A) : Prop := ∀ s r s', m s = Some (r, s') → P s s'.

Lemma keeps_ret {A} (a : A) : keeps (mret a).
Proof. intros s r s' [= <- <-]. reflexivity. Qed.
Lemma keeps_jump {A} : keeps (jump (A := A)).
Proof. intros s r s' [= <- <-]. reflexivity. Qed.
Lemma keeps_bind {A B} (m : M A) (f : A → M B) : keeps m → (∀ a, keeps (f a)) → keeps (m ≫= f).
Proof.
  intros Hm Hf s r s' Hs. unfold mbind, M_bind in Hs. destruct (m s) as [[[a|] s1]|] eqn:E; [|simplify_eq|done].
  - etrans; [by eapply Hm|]. by eapply Hf.
  - by eapply Hm.
Qed.
Lemma keeps_label (m err : M ()) : keeps m → keeps err → keeps (label m err).
Proof.
  intros Hm He s r s' Hs. unfold label in Hs. destruct (m s) as [[o s1]|] eqn:E; [|done].
  etrans; [by eapply Hm|]. by eapply He.
Qed.
Lemma keeps_on_error (m err : M ()) : keeps m → keeps err → keeps (on_error m err).
Proof.
  intros Hm He s r s' Hs. unfold on_error in Hs. destruct (m s) as [[[a|] s1]|] eqn:E; simplify_eq.
  - by eapply Hm.
  - etrans; [by eapply Hm|]. by eapply He.
Qed.
Lemma keeps_need {A} (o : option A) : keeps (need o).
Proof. intros s r s' Hs. unfold need in Hs. destruct o; cbn in Hs; simplify_eq. reflexivity. Qed.
Lemma keeps_gets {A} (f : px → A) : keeps (gets f).
Proof. intros s r s' [= <- <-]. reflexivity. Qed.
Lemma keeps_read {A} (rd : s_packet → option (A * s_packet)) pkt : keeps (read rd pkt).
Proof. unfold read. destruct (rd pkt); [apply keeps_ret|apply keeps_jump]. Qed.
Lemma keeps_modify f : (∀ s, P s (f s)) → keeps (modify f).
Proof. intros Hf s r s' [= <- <-]. apply Hf. Qed.
Lemma keeps_for_each {A} (f : A → M ()) l : (∀ x, keeps (f x)) → keeps (for_each f l).
Proof. intros Hf. induction l as [|x l IH]; [apply keeps_ret|]. apply keeps_bind; [apply Hf|done]. Qed.
Lemma keeps_for_reads fuel i n body pkt : (∀ j p, keeps (body j p)) → keeps (for_reads fuel i n body pkt).
Proof.
  intros Hb. revert i pkt. induction fuel as [|fuel IH]; intros i pkt; cbn; (case_match; [|apply keeps_ret]);
    [apply keeps_need|]. by apply keeps_bind.
Qed.
Lemma keeps_while fuel body pkt : (∀ t p, keeps (body t p)) → keeps (while_topics fuel body pkt).
Proof.
  intros Hb. revert pkt. induction fuel as [|fuel IH]; intros pkt; cbn;
    (destruct (read_string pkt) as [[t p]|]; [|apply keeps_ret]); [apply keeps_need|]. by apply keeps_bind.
Qed.
Lemma keeps_read_servs fuel v i pkt : keeps (read_servs fuel v i pkt).
Proof.
  revert v i pkt. induction fuel as [|fuel IH]; intros v i pkt; cbn; (case_match; [|apply keeps_ret]);
    [apply keeps_need|]. apply keeps_bind; [|intros [? ?]; apply IH].
  unfold read_serv. apply keeps_bind; [apply keeps_read|]. intros [? ?].
  apply keeps_bind; [apply keeps_need|]. intros ?. apply keeps_ret.
Qed.
End logic.

(** decompose a computation down to the changes it makes *)
Ltac keeps_step :=
  match goal with
  | |- keeps ?P (mret _) => apply (keeps_ret P)
  | |- keeps ?P jump => apply (keeps_jump P)
  | |- keeps ?P (_ ≫= _) => apply (keeps_bind P)
  | |- keeps ?P (label _ _) => apply (keeps_label P)
  | |- keeps ?P (on_error _ _) => apply (keeps_on_error P)
  | |- keeps ?P (need _) => apply (keeps_need P)
  | |- keeps ?P (gets _) => apply (keeps_gets P)
  | |- keeps ?P (read _ _) => apply (keeps_read P)
  | |- keeps ?P (for_each _ _) => apply (keeps_for_each P)
  | |- keeps ?P (for_reads _ _ _ _ _) => apply (keeps_for_reads P)
  | |- keeps ?P (while_topics _ _ _) => apply (keeps_while P)
  | |- keeps ?P (read_servs _ _ _ _) => apply (keeps_read_servs P)
  | |- keeps _ (match ?x with _ => _ end) => destruct x
  | |- ∀ _, _ => intro
  | |- keeps _ _ => progress (auto with px)
  end.
Ltac keeps := repeat keeps_step.

(** ** What every elementary change keeps, every handler keeps *)
Section handlers_keep.
Context {TR TA TL TB : Type}.
Context `{HTR : !Table (list Z) s_id TR, HTA : !Table (list Z) (list s_paxos_accept) TA,
          HTL : !Table (list Z) (list s_paxos_learn) TL, HTB : !Table Z (list s_paxos_accept) TB}.
Abbreviation px := (s_paxos TR TA TL TB).
Context (P : px → px → Prop) {HP : PreOrder P}.
Context (core_id : Z) (active : Z → bool) (junk : Z) (dummy : nat).

(** a change that leaves the tables of promises, accepted and learned records *)
Definition quiet (f : px → px) : Prop :=
  ∀ s, px_response (f s) = px_response s ∧ px_accept (f s) = px_accept s ∧ px_learn (f s) = px_learn s.

Context (Hquiet : ∀ f, quiet f → keeps P (modify f)).
Context (Haccept : ∀ topic id value version, keeps P (iaccept topic id value version)).
#[local] Set Default Proof Using "Type + HP + Hquiet + Haccept".
#[local] Hint Resolve Haccept : px.
#[local] Hint Extern 1 (keeps _ (modify _)) => (apply Hquiet; repeat split) : px.

Lemma emit_keeps e : keeps P (emit e).
Proof. unfold emit. keeps. Qed.
#[local] Hint Resolve emit_keeps : px.
Lemma new_servs_keeps v c l : keeps P (new_servs active v c l).
Proof. revert v c. induction l as [|k l IH]; intros v c; cbn; keeps. Qed.
#[local] Hint Resolve new_servs_keeps : px.
Lemma adopt_keeps topic v h l : keeps P (adopt core_id active topic v h l).
Proof. revert h. induction l as [|le l IH]; intros h; cbn; keeps; apply IH. Qed.
#[local] Hint Resolve adopt_keeps : px.
Lemma icheck_new_version_keeps : keeps P (icheck_new_version core_id active).
Proof. unfold icheck_new_version. keeps. Qed.

Context (Hlearn : ∀ topic value id serv, keeps P (ilearn core_id active topic value id serv)).
Context (Hdump : ∀ fn, keeps P (idump_learn fn)).
Context (Hpromise : ∀ topic id, keeps P (modify (λ s, set_response (promise (px_response s) topic id) s))).
Context (Hempty : keeps P (modify (λ s, set_learn (tbl_new 16) s))).
#[local] Set Default Proof Using "Type + HP + Hquiet + Haccept + Hlearn + Hdump + Hpromise + Hempty".
#[local] Hint Resolve Hlearn Hdump Hpromise Hempty : px.

Lemma update_keeps a f : keeps P (update a f).
Proof. unfold update, proposal, store. keeps. Qed.
#[local] Hint Resolve update_keeps : px.
Lemma proposal_keeps a : keeps P (proposal a).
Proof. unfold proposal. keeps. Qed.
#[local] Hint Resolve proposal_keeps : px.
Lemma store_keeps a p : keeps P (store a p).
Proof. unfold store. keeps. Qed.
#[local] Hint Resolve store_keeps : px.
Lemma drop_keeps a : keeps P (s_paxos_proposal_drop a).
Proof. unfold s_paxos_proposal_drop. keeps. Qed.
#[local] Hint Resolve drop_keeps : px.
Lemma broadcast_keeps f : (∀ k, keeps P (f k)) → keeps P (broadcast active f).
Proof. intros Hf. unfold broadcast. keeps. Qed.
#[local] Hint Resolve broadcast_keeps : px.
Lemma send_accept_keeps p : keeps P (send_accept active p).
Proof. unfold send_accept. keeps. Qed.
#[local] Hint Resolve send_accept_keeps : px.
Lemma blank_keeps topic value : keeps P (blank_proposal core_id junk topic value).
Proof. unfold blank_proposal, next_id. keeps. Qed.
#[local] Hint Resolve blank_keeps : px.
Lemma start_keeps topic value type the_serv :
  keeps P (s_paxos_start core_id active junk topic value type the_serv).
Proof.
  unfold s_paxos_start, s_paxos_proposal_create, send_request, s_paxos_proposal_grab. keeps.
  apply broadcast_keeps. keeps.
Qed.
#[local] Hint Resolve start_keeps : px.
Lemma learn_record_keeps topic serv pkt : keeps P (learn_record core_id active topic serv pkt).
Proof. unfold learn_record. keeps. Qed.
#[local] Hint Resolve learn_record_keeps : px.

(** the handlers, in the order of the file *)
Lemma request_keeps serv pkt : keeps P (ireceive_request core_id junk serv pkt).
Proof. unfold ireceive_request. keeps. Qed.
Lemma members_keeps a rm pkt serv : keeps P (response_members core_id active a rm pkt serv).
Proof. unfold response_members, learn_backup, learn_accepts, read_value. keeps. Qed.
#[local] Hint Resolve members_keeps : px.
Lemma response_keeps serv pkt a : keeps P (ireceive_response core_id active serv pkt a).
Proof.
  unfold ireceive_response, i_receive_response_add, i_receive_response_rm, s_paxos_proposal_grab, iresponse, read_value.
  keeps. apply broadcast_keeps. keeps.
Qed.
Lemma learn_loop_keeps fuel version serv pkt : keeps P (learn_loop core_id active fuel version serv pkt).
Proof. revert pkt. induction fuel as [|fuel IH]; intros pkt; cbn; keeps; apply IH. Qed.
#[local] Hint Resolve learn_loop_keeps : px.
Lemma learn_keeps serv pkt : keeps P (ireceive_learn core_id active serv pkt).
Proof. unfold ireceive_learn. keeps. Qed.
Lemma read_my_servs_keeps fuel i pkt : keeps P (read_my_servs fuel i pkt).
Proof. revert i pkt. induction fuel as [|fuel IH]; intros i pkt; cbn; unfold read_serv; keeps; apply IH. Qed.
#[local] Hint Resolve read_my_servs_keeps : px.
Lemma add_accept_keeps serv pkt : keeps P (ireceive_add_accept serv pkt).
Proof. unfold ireceive_add_accept. keeps. Qed.
#[local] Hint Resolve request_keeps response_keeps learn_keeps add_accept_keeps : px.

(** [ireceive_refresh_accept] rewrites the accepted records *)
Lemma handle_keeps serv fn pkt :
  (fn = S_PKT_TYPE_PAXOS_REFRESH_ACCEPT → keeps P (ireceive_refresh_accept junk dummy serv pkt)) →
  keeps P (handle_paxos core_id active junk dummy serv fn pkt).
Proof.
  intros Hr. unfold handle_paxos, ireceive_accept, ireceive_learn_request, ireceive_add.
  destruct (Z.eqb_spec fn S_PKT_TYPE_PAXOS_REFRESH_ACCEPT); [specialize (Hr ltac:(done))|]; keeps.
Qed.
Lemma run_cb_keeps serv cb pkt : keeps P (run_paxos_cb core_id active serv cb pkt).
Proof. unfold run_paxos_cb, i_add_new_serv_ok, i_refresh_accept_back. destruct cb; keeps. Qed.
Lemma learn_all_keeps : keeps P (s_paxos_learn_all active).
Proof. unfold s_paxos_learn_all. keeps. Qed.
Lemma check_leave_keeps : keeps P (s_paxos_check_leave core_id active junk).
Proof. unfold s_paxos_check_leave. keeps. Qed.
End handlers_keep.

(** ** Histories of a meta server *)
Section histories.
Context {TR TA TL TB : Type}.
Context `{HTR : !Table (list Z) s_id TR, HTA : !Table (list Z) (list s_paxos_accept) TA,
          HTL : !Table (list Z) (list s_paxos_learn) TL, HTB : !Table Z (list s_paxos_accept) TB}.
Context (core_id : Z).
Abbreviation px := (s_paxos TR TA TL TB).

(** a packet whose function [ok] allows, an answer (or its end of time), or a
    call of the user; which servers are active, and what memory holds, is any *)
Inductive pstep (ok : Z → Prop) (s : px) : px → Prop :=
| pstep_packet active junk dummy serv fn pkt r s' :
    ok fn → handle_paxos core_id active junk dummy serv fn pkt s = Some (r, s') → pstep ok s s'
| pstep_answer active serv cb pkt r s' : run_paxos_cb core_id active serv cb pkt s = Some (r, s') → pstep ok s s'
| pstep_start active junk topic value type the_serv r s' :
    s_paxos_start core_id active junk topic value type the_serv s = Some (r, s') → pstep ok s s'
| pstep_learn_all active r s' : s_paxos_learn_all active s = Some (r, s') → pstep ok s s'
| pstep_check_leave active junk r s' : s_paxos_check_leave core_id active junk s = Some (r, s') → pstep ok s s'.

(** a relation every elementary change respects holds along every history *)
Lemma history_keeps (P : px → px → Prop) {HP : PreOrder P} (ok : Z → Prop) s s' :
  (∀ f, quiet f → keeps P (modify f)) →
  (∀ topic id value version, keeps P (iaccept topic id value version)) →
  (∀ active topic value id serv, keeps P (ilearn core_id active topic value id serv)) →
  (∀ fn, keeps P (idump_learn fn)) →
  (∀ topic id, keeps P (modify (λ s, set_response (promise (px_response s) topic id) s))) →
  keeps P (modify (λ s, set_learn (tbl_new 16) s)) →
  (∀ junk dummy serv pkt, ok S_PKT_TYPE_PAXOS_REFRESH_ACCEPT → keeps P (ireceive_refresh_accept junk dummy serv pkt)) →
  rtc (pstep ok) s s' → P s s'.
Proof.
  intros Hq Ha Hl Hd Hp He Hr Hrtc. induction Hrtc as [s|s1 s2 s3 Hs _ IH]; [reflexivity|]. etrans; [|exact IH].
  clear IH s3. destruct Hs as [active junk dummy serv fn pkt r s' Hok Hs|active serv cb pkt r s' Hs
    |active junk topic value type the_serv r s' Hs|active r s' Hs|active junk r s' Hs].
  - eapply (handle_keeps P); [eauto..| |exact Hs]. intros ->. by apply Hr.
  - by eapply (run_cb_keeps P core_id active).
  - by eapply (start_keeps P core_id active).
  - by eapply (learn_all_keeps P core_id active).
  - by eapply (check_leave_keeps P core_id active junk).
Qed.
End histories.

(** ** An acceptor keeps its promises *)
Section promises.
Context {TR TA TL TB : Type}.
Context `{HTR : !Table (list Z) s_id TR, HTA : !Table (list Z) (list s_paxos_accept) TA,
          HTL : !Table (list Z) (list s_paxos_learn) TL, HTB : !Table Z (list s_paxos_accept) TB}.
Context `{LTR : !TableLaws (list Z) s_id TR, LTA : !TableLaws (list Z) (list s_paxos_accept) TA}.
Abbreviation px := (s_paxos TR TA TL TB).
#[local] Set Default Proof Using "Type + LTR + LTA".

Definition promised (s : px) (topic : list Z) : option s_id := tbl_map (px_response s) !! topic.
Definition accepted (s : px) (topic : list Z) : list s_paxos_accept := default [] (tbl_map (px_accept s) !! topic).
Definition tables_wf (s : px) : Prop := tbl_wf (px_response s) ∧ tbl_wf (px_accept s).

(** promises only grow, and what is accepted in between is at least what was
    promised before, unless a refresh ([rf]) rewrote the accepted records *)
Definition faithful (rf : Prop) (s s' : px) : Prop :=
  tables_wf s →
  tables_wf s' ∧
  ∀ topic pid, promised s topic = Some pid →
    (∃ pid', promised s' topic = Some pid' ∧ ¬ s_id_gt pid pid') ∧
    (¬ rf → ∀ a, a ∈ accepted s' topic → a ∈ accepted s topic ∨ ¬ s_id_gt pid (ac_id a)).

#[export] Instance faithful_preorder rf : PreOrder (faithful rf).
Proof.
  split.
  - intros s Hw. split; [done|]. intros topic pid Hp. split; [|by left]. exists pid. split; [done|apply s_id_gt_irrefl].
  - intros s1 s2 s3 H12 H23 Hw. destruct (H12 Hw) as [Hw2 H1]. destruct (H23 Hw2) as [Hw3 H2]. split; [done|].
    intros topic pid Hp. destruct (H1 topic pid Hp) as [(pid2 & Hp2 & G12) A12].
    destruct (H2 topic pid2 Hp2) as [(pid3 & Hp3 & G23) A23]. split.
    + exists pid3. split; [done|]. unfold s_id_gt in *. lia.
    + intros Hrf a [Ha|Ha]%(A23 Hrf); [by apply A12|]. right. unfold s_id_gt in *. lia.
Qed.

(** a change that leaves both tables *)
Lemma faithful_same (f : px → px) :
  (∀ s, px_response (f s) = px_response s) → (∀ s, px_accept (f s) = px_accept s) → ∀ rf s, faithful rf s (f s).
Proof.
  intros Hr Ha rf s [Hw1 Hw2]. unfold tables_wf, promised, accepted. rewrite Hr, Ha. split; [done|].
  intros topic pid Hp. split; [|by left]. exists pid. split; [done|apply s_id_gt_irrefl].
Qed.
Lemma keeps_same (f : px → px) :
  (∀ s, px_response (f s) = px_response s) → (∀ s, px_accept (f s) = px_accept s) → ∀ rf, keeps (faithful rf) (modify f).
Proof. intros. apply (keeps_modify (faithful rf)). by apply faithful_same. Qed.

Lemma promise_faithful rf topic id s : faithful rf s (set_response (promise (px_response s) topic id) s).
Proof.
  intros [Hw1 Hw2].
  assert (tbl_wf (promise (px_response s) topic id) ∧ ∀ t pid, promised s t = Some pid →
    ∃ pid', tbl_map (promise (px_response s) topic id) !! t = Some pid' ∧ ¬ s_id_gt pid pid') as [Hw Hp].
  { unfold promise, promised. rewrite tbl_get_ok by done.
    destruct (tbl_put_ok (px_response s) topic id Hw1) as [Hwp Hmp].
    destruct (tbl_map (px_response s) !! topic) as [pid0|] eqn:E; [case_decide as Hg|].
    - split; [done|]. intros t pid Ht. rewrite Hmp. destruct (decide (topic = t)) as [->|].
      + rewrite lookup_insert_eq. exists id. split; [done|]. simplify_eq. unfold s_id_gt in *. lia.
      + rewrite lookup_insert_ne by done. exists pid. split; [done|apply s_id_gt_irrefl].
    - split; [done|]. intros t pid Ht. exists pid. split; [done|apply s_id_gt_irrefl].
    - split; [done|]. intros t pid Ht. rewrite Hmp. rewrite lookup_insert_ne by (intros ->; congruence).
      exists pid. split; [done|apply s_id_gt_irrefl]. }
  split; [by split|]. intros t pid Ht. split; [by apply Hp|by left].
Qed.

Lemma accept_value_elem topic id value version l a :
  a ∈ accept_value topic id value version l → a ∈ l ∨ ac_id a = id.
Proof.
  induction l as [|b l IH]; cbn; [intros ->%list_elem_of_singleton; by right|].
  destruct (_ && _); [|set_solver]. case_decide; [|by left].
  intros [->|?]%elem_of_cons; [by right|]. left. by right.
Qed.

Lemma iaccept_faithful rf topic id value version : keeps (faithful rf) (iaccept (TL := TL) (TB := TB) topic id value version).
Proof.
  intros s r s' Hs. unfold iaccept in Hs. destruct (accept_refused _ _ _ _) eqn:Eref; simplify_eq; [reflexivity|].
  intros [Hw1 Hw2]. unfold accept_refused in Eref. apply orb_false_iff in Eref as [_ Hpid].
  rewrite tbl_get_ok in Hpid by done.
  destruct (tbl_put_ok (px_accept s) topic (accept_value topic id value (pv_version (px_version s))
    (default [] (tbl_get (px_accept s) topic))) Hw2) as [Hwp Hmp].
  split; [by split|]. intros t pid Ht. split; [exists pid; split; [done|apply s_id_gt_irrefl]|].
  intros _ a. unfold accepted. cbn [px_accept set_accept]. rewrite Hmp.
  destruct (decide (topic = t)) as [->|]; [|rewrite lookup_insert_ne by done; by left].
  rewrite lookup_insert_eq. cbn. rewrite tbl_get_ok by done. intros [Ha| ->]%accept_value_elem; [by left|right].
  unfold promised in Ht. rewrite Ht in Hpid. by apply bool_decide_eq_false in Hpid.
Qed.

Lemma ilearn_faithful rf core_id active topic value id serv :
  keeps (faithful rf) (ilearn core_id active topic value id serv).
Proof.
  unfold ilearn. keeps; [by apply keeps_same..|].
  apply icheck_new_version_keeps; [apply _| |apply iaccept_faithful]. intros f Hf. apply keeps_same; apply Hf.
Qed.
Lemma idump_faithful rf fn : keeps (faithful rf) (idump_learn fn).
Proof. unfold idump_learn. keeps. by apply keeps_same. Qed.

(** a refresh leaves the promises *)
Lemma refresh_accept_wf junk topic value id (t : TA) : tbl_wf t → tbl_wf (refresh_accept junk topic value id t).
Proof. intros Hw. unfold refresh_accept. destruct (refresh _ _) as [l []]; by apply tbl_put_ok. Qed.
Lemma refresh_faithful (rf : Prop) junk dummy serv pkt :
  rf → keeps (faithful rf) (ireceive_refresh_accept (TL := TL) junk dummy serv pkt).
Proof.
  intros Hrf.
  assert (∀ topic value id, keeps (faithful rf) (TL := TL) (TB := TB)
    (modify (λ s, set_accept (refresh_accept junk topic value id (px_accept s)) s))) as Hset.
  { intros topic value id. apply (keeps_modify (faithful rf)). intros s [Hw1 Hw2].
    split; [split; [done|by apply refresh_accept_wf]|].
    intros t pid Hp. split; [exists pid; split; [done|apply s_id_gt_irrefl]|]. by intros ?. }
  unfold ireceive_refresh_accept, emit. keeps; first [by apply keeps_same|apply Hset].
Qed.

(** C7. An acceptor keeps its promises.  Once it has answered a request of id
    [pid] for a topic, then whatever packets, answers and calls follow, in any
    number and from anyone, its promise for the topic never falls below [pid].
    And as long as no PAXOS_REFRESH_ACCEPT is among the packets, every record
    it accepts for the topic afterwards has at least the id [pid] - a
    PAXOS_REFRESH_ACCEPT rewrites the accepted records without a look at the
    promises ([refresh_breaks_promise]). *)
Theorem promise_kept core_id (ok : Z → Prop) s s' topic pid :
  tables_wf s → promised s topic = Some pid → rtc (pstep core_id ok) s s' →
  (∃ pid', promised s' topic = Some pid' ∧ ¬ s_id_gt pid pid') ∧
  (¬ ok S_PKT_TYPE_PAXOS_REFRESH_ACCEPT →
   ∀ a, a ∈ accepted s' topic → a ∈ accepted s topic ∨ ¬ s_id_gt pid (ac_id a)).
Proof.
  intros Hw Hp Hr. assert (faithful (ok S_PKT_TYPE_PAXOS_REFRESH_ACCEPT) s s') as Hf; [|by apply Hf].
  apply (history_keeps core_id (faithful _) ok); try done.
  - intros f Hf. apply keeps_same; apply Hf.
  - intros. by apply iaccept_faithful.
  - intros. apply ilearn_faithful.
  - apply idump_faithful.
  - intros t id. apply (keeps_modify (faithful _)). intros ?. apply promise_faithful.
  - by apply keeps_same.
  - intros. by apply refresh_faithful.
Qed.
End promises.

(** ** A version needs a majority *)
Section majority.
Context {TR TA TL TB : Type}.
Context `{HTR : !Table (list Z) s_id TR, HTA : !Table (list Z) (list s_paxos_accept) TA,
          HTL : !Table (list Z) (list s_paxos_learn) TL, HTB : !Table Z (list s_paxos_accept) TB}.
Context `{LTL : !TableLaws (list Z) (list s_paxos_learn) TL}.
Abbreviation px := (s_paxos TR TA TL TB).
#[local] Set Default Proof Using "Type + LTL".

Definition learned (s : px) (topic : list Z) : list s_paxos_learn := default [] (tbl_map (px_learn s) !! topic).
Definition told (le : s_paxos_learn) : Z * Z := (le_serv_id le, le_value le).

(** no server is counted twice for a value *)
Definition table_ok (t : TL) : Prop :=
  tbl_wf t ∧ ∀ topic l, tbl_map t !! topic = Some l → NoDup (told <$> l).
Definition learn_ok (s : px) : Prop := table_ok (px_learn s).

Definition stays (s s' : px) : Prop := learn_ok s → learn_ok s'.
#[export] Instance stays_preorder : PreOrder stays.
Proof. split; [by intros s Hs|intros s1 s2 s3 H1 H2 Hs; by apply H2, H1]. Qed.

Lemma learn_known_told value id serv l l' :
  learn_known value id serv l = Some l' → told <$> l' = told <$> l.
Proof.
  revert l'. induction l as [|le l IH]; intros l' Hl; cbn in Hl; [done|].
  destruct (_ && _); [|apply fmap_Some in Hl as (l1 & Hl & ->); cbn; f_equal; by apply IH].
  simplify_eq. rewrite !fmap_cons. f_equal. by case_decide.
Qed.
Lemma learn_unknown value id serv l : learn_known value id serv l = None → (serv, value) ∉ (told <$> l).
Proof.
  induction l as [|le l IH]; cbn; [intros _; apply not_elem_of_nil|].
  destruct (_ && _) eqn:E; [done|]. intros Hn%fmap_None. apply not_elem_of_cons. split; [|by apply IH].
  unfold told. intros [= -> ->]. by rewrite !Z.eqb_refl in E.
Qed.

Lemma table_ok_put t topic l : table_ok t → NoDup (told <$> l) → table_ok (tbl_put t topic l).
Proof.
  intros [Hw Hd] Hl. destruct (tbl_put_ok t topic l Hw) as [Hw' Hm]. split; [done|].
  intros topic' l'. rewrite Hm. intros [[<- <-]|[_ Hl']]%lookup_insert_Some; [done|by eapply Hd].
Qed.
Lemma table_ok_get t topic : table_ok t → NoDup (told <$> default [] (tbl_get t topic)).
Proof.
  intros [Hw Hd]. rewrite tbl_get_ok by done. destruct (_ !! topic) eqn:E; [by eapply Hd|apply NoDup_nil_2].
Qed.
Lemma table_ok_elems t topic l : table_ok t → (topic, l) ∈ tbl_elems t → tbl_map t !! topic = Some l.
Proof. intros [Hw _] Hin. rewrite tbl_elems_ok in Hin by done. by apply elem_of_map_to_list in Hin. Qed.

Lemma dump_topic_sublist v topic h l l' fs : dump_topic v topic h l = Some (l', fs) → sublist l' l.
Proof.
  revert h l' fs. induction l as [|le l IH]; intros h l' fs Hd; cbn in Hd; [by simplify_eq|].
  apply bind_Some in Hd as (b & _ & Hd). destruct b.
  - apply bind_Some in Hd as ([l1 fs1] & Hd & [= <- <-]). apply sublist_skip. by eapply IH.
  - apply sublist_cons. by eapply IH.
Qed.
Lemma dump_topics_ok v t l t' fs :
  table_ok t → Forall (λ kl, NoDup (told <$> kl.2)) l → dump_topics v t l = Some (t', fs) → table_ok t'.
Proof.
  revert t t' fs. induction l as [|[topic a] l IH]; intros t t' fs Ht Hl Hd; cbn in Hd; [by simplify_eq|].
  apply Forall_cons in Hl as [Ha Hl]. apply bind_Some in Hd as ([a' fs1] & Hd1 & Hd).
  apply bind_Some in Hd as ([t1 fs2] & Hd2 & [= <- <-]). eapply IH; [|done..]. apply table_ok_put; [done|].
  eapply sublist_NoDup; [exact Ha|]. apply fmap_sublist. by eapply dump_topic_sublist.
Qed.

Lemma stays_same (f : px → px) : (∀ s, px_learn (f s) = px_learn s) → keeps stays (modify f).
Proof. intros Hf. apply (keeps_modify stays). intros s. unfold stays, learn_ok. by rewrite Hf. Qed.
Lemma quiet_stays (f : px → px) : quiet f → keeps stays (modify f).
Proof. intros Hf. apply stays_same. apply Hf. Qed.

Lemma iaccept_stays topic id value version : keeps stays (iaccept topic id value version).
Proof. intros s r s' Hs. unfold iaccept in Hs. destruct (accept_refused _ _ _ _); simplify_eq; by intros Hok. Qed.

Lemma learn_add_ok (s : px) topic value id serv :
  learn_ok s → learn_known value id serv (default [] (tbl_get (px_learn s) topic)) = None →
  table_ok (tbl_put (px_learn s) topic (default [] (tbl_get (px_learn s) topic) ++ [Learn topic value serv id])).
Proof.
  intros Hok E%learn_unknown. pose proof (table_ok_get (px_learn s) topic Hok) as Hnd.
  apply table_ok_put; [done|]. rewrite fmap_app. apply NoDup_app. split; [done|].
  split; [|apply NoDup_singleton]. by intros x Hx ->%list_elem_of_singleton.
Qed.

Lemma ilearn_stays core_id active topic value id serv : keeps stays (ilearn core_id active topic value id serv).
Proof.
  intros s r s' Hs Hok. unfold ilearn, mbind, M_bind, gets in Hs. cbn in Hs.
  destruct (learn_known value id serv _) as [l|] eqn:E; cbn in Hs.
  - injection Hs as <- <-. apply table_ok_put; [done|]. rewrite (learn_known_told _ _ _ _ _ E). by apply table_ok_get.
  - assert (keeps stays (icheck_new_version core_id active)) as Hk
      by (apply icheck_new_version_keeps; [apply _|apply quiet_stays|apply iaccept_stays]).
    apply (Hk _ r s' Hs). by apply learn_add_ok.
Qed.

Lemma idump_stays fn : keeps stays (idump_learn fn).
Proof.
  intros s r s' Hs Hok. unfold idump_learn, mbind, M_bind, gets in Hs. cbn in Hs.
  destruct (servs_of (px_version s)) as [servs|]; [|done].
  destruct (dump_topics _ _ _) as [[t fs]|] eqn:E; [|done]. cbn in Hs.
  assert (s' = set_learn t s) as -> by (unfold need in Hs; destruct (msg_pkt _ _); by simplify_eq/=).
  eapply dump_topics_ok; [exact Hok| |exact E]. apply Forall_forall. intros [topic l] Hin.
  destruct Hok as [Hw Hd]. apply (Hd topic). by apply table_ok_elems.
Qed.

Lemma refresh_stays junk dummy serv pkt : keeps stays (ireceive_refresh_accept junk dummy serv pkt).
Proof. unfold ireceive_refresh_accept, emit. keeps; by apply stays_same. Qed.

Lemma history_learn_ok core_id s s' : learn_ok s → rtc (pstep core_id (λ _, True)) s s' → learn_ok s'.
Proof.
  intros Hok Hr. assert (stays s s') as Hs; [|by apply Hs].
  apply (history_keeps core_id stays (λ _, True)); [apply quiet_stays|intros; by apply iaccept_stays|
    intros; apply ilearn_stays|apply idump_stays|intros; by apply stays_same| |intros; apply refresh_stays|done].
  apply (keeps_modify stays). intros s1 Hs1. destruct (tbl_new_ok (T := TL) 16) as [Hw Hm].
  split; cbn; [done|]. intros topic l. rewrite Hm. by rewrite lookup_empty.
Qed.

(** the servers that told a value *)
Definition tellers (value : Z) (l : list s_paxos_learn) : list Z :=
  le_serv_id <$> filter (λ le, le_value le = value) l.

Lemma tellers_cons value le l :
  length (tellers value (le :: l)) = ((if decide (le_value le = value) then 1 else 0) + length (tellers value l))%nat.
Proof. unfold tellers. rewrite filter_cons. by case_decide. Qed.
Lemma tellers_NoDup value l : NoDup (told <$> l) → NoDup (tellers value l).
Proof.
  induction l as [|le l IH]; [constructor|]. rewrite fmap_cons. intros [Hle Hl]%NoDup_cons. unfold tellers.
  rewrite filter_cons.
  case_decide as Hv; [|by apply IH]. cbn. constructor; [|by apply IH]. intros (le' & Hs & Hin)%list_elem_of_fmap.
  apply list_elem_of_filter in Hin as [Hv' Hin]. apply Hle. apply list_elem_of_fmap. exists le'. split; [|done].
  unfold told. by rewrite Hs, Hv, Hv'.
Qed.

Definition majority (core_id nserv n : Z) : Prop := nserv ÷ 2 < n ∨ nserv = 2 ∧ core_id = 1.

Lemma new_servs_spec active v c l (s : px) r s' :
  new_servs active v c l s = Some (r, s') →
  px_version s' = px_version s ∧ px_learn s' = px_learn s ∧ ∃ cv, r = Val cv ∧ set_servs v c l = Some cv.
Proof.
  revert v c s. induction l as [|k l IH]; intros v c s Hs; cbn in Hs; [injection Hs as <- <-; cbn; eauto|].
  unfold mbind, M_bind, need in Hs. destruct (set_serv v c k) as [v'|] eqn:E; cbn in Hs; [|done].
  cbn [set_servs]. rewrite E. cbn. by destruct (active k); cbn in Hs; apply IH in Hs.
Qed.

Lemma set_servs_version v c l c' v' : set_servs v c l = Some (c', v') → pv_version v' = pv_version v.
Proof.
  revert v c. induction l as [|k l IH]; intros v c Hs; cbn in Hs; [by simplify_eq|].
  apply bind_Some in Hs as (v1 & Hv1 & Hs). apply IH in Hs. rewrite Hs. unfold set_serv in Hv1. by case_match; simplify_eq.
Qed.

Lemma iaccept_version topic id value version (s : px) r s' :
  iaccept topic id value version s = Some (r, s') → px_version s' = px_version s ∧ px_learn s' = px_learn s.
Proof. unfold iaccept. destruct (accept_refused _ _ _ _); intros; by simplify_eq. Qed.

Lemma count_value_insert h value value' :
  default 0 (<[value := count_value h value]> h !! value')
  = default 0 (h !! value') + (if decide (value = value') then 1 else 0).
Proof.
  unfold count_value. case_decide as Hv; [subst; by rewrite lookup_insert_eq|rewrite lookup_insert_ne by done; cbn; lia].
Qed.

Lemma adopt_spec core_id active topic v h l (s : px) r s' :
  adopt core_id active topic v h l s = Some (r, s') →
  px_learn s' = px_learn s ∧
  (px_version s' = px_version s ∨
   ∃ value n, majority core_id (pv_nserv (px_version s)) n ∧
     n ≤ default 0 (h !! value) + Z.of_nat (length (tellers value l)) ∧
     iversion_from_int (Version v (pv_nserv (px_version s)) (pv_servs (px_version s))) value = Some (px_version s')).
Proof.
  revert h s. induction l as [|le l IH]; intros h s Hs; cbn in Hs; [injection Hs as <- <-; by eauto|].
  unfold mbind, M_bind, gets in Hs. destruct (_ || _) eqn:Em.
  - destruct (new_servs _ _ _ _ s) as [[o s1]|] eqn:En; [|done].
    apply new_servs_spec in En as (Hv1 & Hl1 & [c ver] & -> & Hset). cbn in Hs.
    apply iaccept_version in Hs as [Hv2 Hl2]. cbn in Hv2, Hl2. split; [by rewrite Hl2|right].
    exists (le_value le), (count_value h (le_value le)). split_and!.
    + unfold majority. apply orb_true_iff in Em as [?|?]; [left|right]; lia.
    + rewrite tellers_cons, decide_True by done. unfold count_value. lia.
    + unfold iversion_from_int. rewrite Hset. cbn. rewrite Hv2. by rewrite (set_servs_version _ _ _ _ _ Hset).
  - apply IH in Hs as [Hl [Hv|(value & n & Hm & Hn & Hv)]]; split; auto. right. exists value, n.
    split_and!; [done| |done]. rewrite count_value_insert in Hn. rewrite tellers_cons. case_decide; lia.
Qed.

(** C8. A new version needs a majority.  Along every history of packets,
    answers and calls, a value that is learned changes the version by one
    only: to the members a value told for the topic [version:<next>] stands
    for, and only if more servers than half of the members have told this
    value, no server counted twice.  The one exception is server 1 of two,
    which needs nobody else. *)
Theorem version_needs_majority core_id junk tr ta tb s active topic value id serv r s' :
  rtc (pstep core_id (λ _, True)) (s_paxos_create core_id junk tr ta (tbl_new 16) tb) s →
  ilearn core_id active topic value id serv s = Some (r, s') →
  px_version s' ≠ px_version s →
  ∃ topic' l value',
    tbl_map (px_learn s') !! topic' = Some l ∧
    iget_new_version topic' = pv_version (px_version s) + 1 ∧
    iversion_from_int (Version (pv_version (px_version s) + 1) (pv_nserv (px_version s)) (pv_servs (px_version s)))
      value' = Some (px_version s') ∧
    NoDup (tellers value' l) ∧
    majority core_id (pv_nserv (px_version s)) (Z.of_nat (length (tellers value' l))).
Proof.
  intros Hr Hs Hne. apply history_learn_ok in Hr; cycle 1.
  { destruct (tbl_new_ok (T := TL) 16) as [Hw Hm]. split; cbn; [done|]. intros t l. rewrite Hm. by rewrite lookup_empty. }
  unfold ilearn, mbind, M_bind, gets in Hs. cbn in Hs. destruct (learn_known value id serv _) as [l0|] eqn:E; [by injection Hs as <- <-|].
  apply learn_add_ok in E; [|done]. revert Hs. set (s1 := set_learn _ s). intros Hs.
  unfold icheck_new_version, mbind, M_bind, gets in Hs. cbn in Hs.
  destruct (list_find _ _) as [[i [t l]]|] eqn:Ef; [|injection Hs as <- <-; by destruct Hne].
  apply list_find_Some in Ef as (Hi & Ht & _). apply list_elem_of_lookup_2 in Hi.
  apply (table_ok_elems _ _ _ E) in Hi. cbn in Ht.
  apply adopt_spec in Hs as [Hl [Hv|(value' & n & Hm & Hn & Hv)]]; [by destruct Hne|].
  exists t, l, value'. rewrite Hl, <- Ht. split_and!; [done..| |].
  - apply tellers_NoDup. by apply (proj2 E t).
  - cbn in Hm. destruct Hm as [?|?]; [left|by right]. rewrite lookup_empty in Hn. cbn in Hn. lia.
Qed.
End majority.
