(* ===== verification/PaxosRun.v ===== *)
(** * [core/s_core_paxos.c], run

    A meta server on concrete packets: the witnesses of the theorems of
    [PaxosSpec], and the runs that show where the protocol fails. *)

From stdpp Require Import strings.
From S2P Require Import Prelude Packet Wire SString SHashSpec Cluster ServGroup Paxos PaxosSpec.
Local Open Scope Z_scope.

Module Sample.
Abbreviation TR := (gmap (list Z) s_id).
Abbreviation TA := (gmap (list Z) (list s_paxos_accept)).
Abbreviation TL := (gmap (list Z) (list s_paxos_learn)).
Abbreviation TB := (gmap Z (list s_paxos_accept)).
Abbreviation px := (s_paxos TR TA TL TB).
Abbreviation act := (M (TR := TR) (TA := TA) (TL := TL) (TB := TB) ()).

Definition all (_ : Z) : bool := true.
Definition run (s : px) (m : act) : px := match m s with Some (_, s) => s | None => s end.
(** a packet of these fields, as it is read *)
Definition pkt (fs : list field) : s_packet := with_pos (default inhabitant (s_packet_start_write 0 g_free_init 0 fs).1) 12.

Definition color : list Z := Eval vm_compute in cstr "color"%string.
Definition version5 : list Z := Eval vm_compute in cstr "version:5"%string.

(** server 1 is told the members 1, 2 and 3 of version 4 *)
Definition members : list field := [Fint 4; Fint 3; Fint 1; Fint 2; Fint 3].
Definition start1 : px := s_paxos_create 1 0 ∅ ∅ ∅ ∅.
Definition joined : px := Eval vm_compute in
  run start1 (handle_paxos 1 all 0 0 2 S_PKT_TYPE_PAXOS_ADD_ACCEPT (pkt members)).

Lemma joined_step : pstep 1 (λ _, True) start1 joined.
Proof.
  apply (pstep_packet 1 _ start1 all 0 0%nat 2 S_PKT_TYPE_PAXOS_ADD_ACCEPT (pkt members) (Val ())); [done|].
  vm_compute; reflexivity.
Qed.

(** a request of id (2, 5) is promised; an accept of a lower id is refused,
    one of that id is not *)
Definition request : list field :=
  [Fstring color; Fint 2; Fint 5; Fint 7; Fint 2; Fint 0; Fint 4; Fint 3; Fint 1; Fint 2; Fint 3].
Definition asked : px := Eval vm_compute in
  run joined (handle_paxos 1 all 0 0 2 S_PKT_TYPE_PAXOS_REQUEST (pkt request)).
Definition lower : px := Eval vm_compute in
  run asked (handle_paxos 1 all 0 0 3 S_PKT_TYPE_PAXOS_ACCEPT (pkt [Fstring color; Fint 3; Fint 4; Fint 8; Fint 4])).
Definition accepted_it : px := Eval vm_compute in
  run lower (handle_paxos 1 all 0 0 2 S_PKT_TYPE_PAXOS_ACCEPT (pkt [Fstring color; Fint 2; Fint 5; Fint 7; Fint 4])).

(** a refresh of the value 6 with the id (1, 1): a record below the promise *)
Definition refreshed : px := Eval vm_compute in
  run accepted_it (handle_paxos 1 all 0 0%nat 3 S_PKT_TYPE_PAXOS_REFRESH_ACCEPT
    (pkt [Fint 4; Fint 0; Fstring color; Fint 6; Fint 1; Fint 1])).

Lemma promise_kept_witness :
  (∃ pid', promised refreshed color = Some pid' ∧ ¬ s_id_gt (SId 2 5) pid') ∧
  (∀ a, a ∈ accepted accepted_it color → a ∈ accepted asked color ∨ ¬ s_id_gt (SId 2 5) (ac_id a)) ∧
  accepted lower color = [] ∧ accepted accepted_it color = [Accept color (SId 2 5) 7 4].
Proof.
  assert (∀ ok : Z → Prop, ok S_PKT_TYPE_PAXOS_ACCEPT → rtc (pstep 1 ok) asked accepted_it) as Hr.
  { intros ok Hok. eapply rtc_l; [|eapply rtc_l; [|apply rtc_refl]].
    - apply (pstep_packet 1 ok asked all 0 0%nat 3 S_PKT_TYPE_PAXOS_ACCEPT
        (pkt [Fstring color; Fint 3; Fint 4; Fint 8; Fint 4]) (Val ()) lower); [done|vm_compute; reflexivity].
    - apply (pstep_packet 1 ok lower all 0 0%nat 2 S_PKT_TYPE_PAXOS_ACCEPT
        (pkt [Fstring color; Fint 2; Fint 5; Fint 7; Fint 4]) (Val ()) accepted_it); [done|vm_compute; reflexivity]. }
  destruct (promise_kept 1 (λ fn, fn ≠ S_PKT_TYPE_PAXOS_REFRESH_ACCEPT) asked accepted_it color (SId 2 5)) as [_ Ha];
    [by split|vm_compute; reflexivity|by apply Hr|].
  destruct (promise_kept 1 (λ _, True) asked refreshed color (SId 2 5)) as [Hp _]; [by split|vm_compute; reflexivity| |].
  { eapply rtc_r; [by apply Hr|]. apply (pstep_packet 1 (λ _, True) accepted_it all 0 0%nat 3 S_PKT_TYPE_PAXOS_REFRESH_ACCEPT
      (pkt [Fint 4; Fint 0; Fstring color; Fint 6; Fint 1; Fint 1]) (Val ()) refreshed); [done|vm_compute; reflexivity]. }
  split_and!; [exact Hp|apply Ha; by intros H|vm_compute; reflexivity|vm_compute; reflexivity].
Defined.

(** finding: a PAXOS_REFRESH_ACCEPT leaves an accepted record below the promise *)
Lemma refresh_breaks_promise :
  rtc (pstep 1 (λ _, True)) asked refreshed ∧ promised refreshed color = Some (SId 2 5) ∧
  accepted refreshed color = [Accept color (SId 1 1) 6 0] ∧ accepted asked color = [] ∧
  s_id_gt (SId 2 5) (SId 1 1).
Proof.
  split_and!; [|vm_compute; reflexivity|vm_compute; reflexivity
    |vm_compute; reflexivity|unfold s_id_gt; cbn; lia].
  eapply rtc_l; [|eapply rtc_l; [|apply rtc_refl]].
  - apply (pstep_packet 1 _ asked all 0 0%nat 2 S_PKT_TYPE_PAXOS_ACCEPT
      (pkt [Fstring color; Fint 2; Fint 5; Fint 7; Fint 4]) (Val ()) accepted_it); [done|vm_compute; reflexivity].
  - apply (pstep_packet 1 _ accepted_it all 0 0%nat 3 S_PKT_TYPE_PAXOS_REFRESH_ACCEPT
      (pkt [Fint 4; Fint 0; Fstring color; Fint 6; Fint 1; Fint 1]) (Val ()) refreshed); [done|vm_compute; reflexivity].
Qed.

(** server 3 tells the members 1 and 3 for version 5, and then server 2 *)
Definition told_once : px := Eval vm_compute in
  run joined (run_paxos_cb 1 all 3 ReceiveLearn (Some (pkt [Fint 4; Fstring version5; Fint 10; Fint 3; Fint 9]))).
Definition told_twice : px := Eval vm_compute in
  run told_once (ilearn 1 all version5 10 (SId 3 9) 2).

Lemma version_needs_majority_witness :
  px_version told_once = Version 4 3 ([1; 2; 3] ++ replicate 13 0) ∧
  px_version told_twice = Version 5 2 ([1; 3; 3] ++ replicate 13 0) ∧
  ∃ topic l value,
    tbl_map (px_learn told_twice) !! topic = Some l ∧
    iget_new_version topic = 5 ∧
    iversion_from_int (Version 5 3 (pv_servs (px_version told_once))) value = Some (px_version told_twice) ∧
    NoDup (tellers value l) ∧ majority 1 3 (Z.of_nat (length (tellers value l))).
Proof.
  split; [vm_compute; reflexivity|]. split; [vm_compute; reflexivity|].
  apply (version_needs_majority 1 0 (∅ : TR) (∅ : TA) (∅ : TB) told_once all version5 10 (SId 3 9) 2 (Val ()) told_twice);
    [|vm_compute; reflexivity|intros E; apply (f_equal pv_version) in E; discriminate E].
  eapply rtc_l; [exact joined_step|]. eapply rtc_l; [|apply rtc_refl].
  apply (pstep_answer 1 _ joined all 3 ReceiveLearn
    (Some (pkt [Fint 4; Fstring version5; Fint 10; Fint 3; Fint 9])) (Val ())). vm_compute; reflexivity.
Defined.

(** ** Where it fails *)

(** server 1 of three proposes 7 for [color]; two servers have no value, and
    the third one's response brings another value when the accept has been sent *)
Definition proposing : px := Eval vm_compute in run joined (s_paxos_start 1 all 0 color 7 S_PAXOS_PROPOSAL_NORMAL 0).
Definition responses : px := Eval vm_compute in
  run (run (run proposing (run_paxos_cb 1 all 1 (ReceiveResponse 0) (Some (pkt [Fint S_PAXOS_RESPONSE_NO_VALUE]))))
    (run_paxos_cb 1 all 2 (ReceiveResponse 0) (Some (pkt [Fint S_PAXOS_RESPONSE_NO_VALUE]))))
    (run_paxos_cb 1 all 3 (ReceiveResponse 0) (Some (pkt [Fint S_PAXOS_RESPONSE_VALUE; Fint 3; Fint 0; Fint 9]))).

(** the values proposed to a server in accept packets, with their ids *)
Definition proposed_to (serv : Z) (s : px) : list (Z * Z * Z) :=
  omap (λ e, match e with
             | PSend k (OMsg _ [Fstring _; Fint x; Fint y; Fint v; Fint _]) => if k =? serv then Some (x, y, v) else None
             | _ => None
             end) (px_out s).

(** A proposal sends accept packets for every response from the majority
    on, and still takes the value of the response that just came: two
    different values are proposed under one id. *)
Theorem two_values_for_one_id :
  ∃ s : px, rtc (pstep 1 (λ _, True)) start1 s ∧ ∀ k, k ∈ [1; 2; 3] → proposed_to k s = [(1, 1, 7); (1, 1, 9)].
Proof.
  exists responses. split.
  - eapply rtc_l; [exact joined_step|].
    eapply rtc_l; [apply (pstep_start 1 _ joined all 0 color 7 S_PAXOS_PROPOSAL_NORMAL 0 (Val ()) proposing); vm_compute; reflexivity|].
    eapply rtc_l; [|eapply rtc_l; [|eapply rtc_l; [|apply rtc_refl]]].
    + apply (pstep_answer 1 _ _ all 1 (ReceiveResponse 0) (Some (pkt [Fint S_PAXOS_RESPONSE_NO_VALUE])) (Val ())).
      vm_compute; reflexivity.
    + apply (pstep_answer 1 _ _ all 2 (ReceiveResponse 0) (Some (pkt [Fint S_PAXOS_RESPONSE_NO_VALUE])) (Val ())).
      vm_compute; reflexivity.
    + apply (pstep_answer 1 _ _ all 3 (ReceiveResponse 0)
        (Some (pkt [Fint S_PAXOS_RESPONSE_VALUE; Fint 3; Fint 0; Fint 9])) (Val ())). vm_compute; reflexivity.
  - intros k Hk. repeat (apply elem_of_cons in Hk as [->|Hk]; [vm_compute; reflexivity|]). by apply not_elem_of_nil in Hk.
Qed.
End Sample.
