(* ===== verification/Core.v ===== *)
(** * [core/s_core.c]: the server object

    [s_core_create] makes the group, the Paxos and the part of a server that
    its type calls for, and registers the handlers; [s_core_poll] polls the
    group and then calls the user's [update].  A handler is a constructor of
    [handler]; the table of the group holds these, and [run_handler] is the
    call through the table.  The union of [struct s_core] is [part]: a handler
    that finds another part than its own would read the memory of another
    struct ([None]). *)

From stdpp Require Import strings.
From S2P Require Import Prelude SArray SQueue SString Packet Wire SHashSpec Config Cluster GLock CorePkt DLock Create ServGroup ServGroupRpc ServGroupSpec ServGroupUser Paxos PaxosSpec.
Local Open Scope Z_scope.

(** ** Data *)
Inductive handler :=
| ireceive_request_ | ireceive_accept_ | ireceive_learn_request_ | ireceive_add_ | ireceive_add_accept_
| ireceive_refresh_accept_
| mserv_glock | mserv_glock_unlock | mserv_create
| mserv_create_check_auth | mserv_create_metadata | mserv_create_meta_meta_data
| dserv_lock | dserv_lock_unlock | dserv_create_metadata | dserv_push_data | dserv_write.

(** the callback of a remote call *)
Inductive core_cb := FileCb (cb : rpc_cb) | PaxosCb (cb : paxos_cb).

(** what a program calls from its [all_established] and its [update] *)
Inductive api_call :=
| s_core_create_file_ (param : create_request)
| s_paxos_start_ (topic : list Z) (value type the_serv : Z)
| s_paxos_learn_all_
| s_paxos_check_leave_.

(** [s_servg_register] in [s_paxos_create], [init_mserv], [init_dserv];
    [init_client] registers nothing *)
Definition paxos_handlers : list ((Z * Z) * handler) :=
  [((S_SERV_TYPE_M, S_PKT_TYPE_PAXOS_REQUEST), ireceive_request_);
   ((S_SERV_TYPE_M, S_PKT_TYPE_PAXOS_ACCEPT), ireceive_accept_);
   ((S_SERV_TYPE_M, S_PKT_TYPE_PAXOS_LEARN_REQUEST), ireceive_learn_request_);
   ((S_SERV_TYPE_M, S_PKT_TYPE_PAXOS_ADD_ME), ireceive_add_);
   ((S_SERV_TYPE_M, S_PKT_TYPE_PAXOS_ADD_ACCEPT), ireceive_add_accept_);
   ((S_SERV_TYPE_M, S_PKT_TYPE_PAXOS_REFRESH_ACCEPT), ireceive_refresh_accept_)].
Definition mserv_handlers : list ((Z * Z) * handler) :=
  [((S_SERV_TYPE_C, S_PKT_TYPE_GLOBAL_LOCK), mserv_glock);
   ((S_SERV_TYPE_C, S_PKT_TYPE_GLOBAL_UNLOCK), mserv_glock_unlock);
   ((S_SERV_TYPE_C, S_PKT_TYPE_CREATE), mserv_create);
   ((S_SERV_TYPE_M, S_PKT_TYPE_CREATE_CHECK_AUTH), mserv_create_check_auth);
   ((S_SERV_TYPE_M, S_PKT_TYPE_CREATE_METADATA), mserv_create_metadata);
   ((S_SERV_TYPE_M, S_PKT_TYPE_CREATE_META_META_DATA), mserv_create_meta_meta_data)].
Definition dserv_handlers : list ((Z * Z) * handler) :=
  [((S_SERV_TYPE_C, S_PKT_TYPE_LOCK_START), dserv_lock);
   ((S_SERV_TYPE_D, S_PKT_TYPE_LOCK_NEXT), dserv_lock);
   ((S_SERV_TYPE_D, S_PKT_TYPE_LOCK_UNLOCK), dserv_lock_unlock);
   ((S_SERV_TYPE_M, S_PKT_TYPE_CREATE_METADATA), dserv_create_metadata);
   ((S_SERV_TYPE_C, S_PKT_TYPE_PUSH_DATA), dserv_push_data);
   ((S_SERV_TYPE_C, S_PKT_TYPE_WRITE), dserv_write)].

Section core.
(** the tables: of the calls of a server; of locks, files and data; of Paxos *)
Context {T TG TC TF TM TK TD TR TA TL TB : Type}.
Context `{HT : !Table Z nat T, HTG : !Table s_id s_glock_elem TG,
          HTC : !Table (list Z) s_core_mcreating TC, HTF : !Table (list Z) s_file_meta_data TF,
          HTM : !Table (list Z) s_file_meta_meta_data TM,
          HTK : !Table s_id nat TK, HTD : !Table s_id (Z * list Z) TD,
          HTR : !Table (list Z) s_id TR, HTA : !Table (list Z) (list s_paxos_accept) TA,
          HTL : !Table (list Z) (list s_paxos_learn) TL, HTB : !Table Z (list s_paxos_accept) TB}.
Abbreviation px := (s_paxos TR TA TL TB).

Inductive core_part :=
| NoPart                                              (* the union as it is at first *)
| ClientPart
| MservPart (gl : s_mserver TG) (fs : mfiles TC TF TM)
| DservPart (ds : s_dserver TK TD).

Record s_core := Core { co_type : Z; co_id : Z; co_part : core_part; co_paxos : px }.
Definition set_part p core : s_core := Core (co_type core) (co_id core) p (co_paxos core).
Definition set_paxos s core : s_core := Core (co_type core) (co_id core) (co_part core) s.

Abbreviation group := (s_server_group T s_core core_cb handler).
Abbreviation request := (request core_cb).
Implicit Types (g : group) (core : s_core) (serv : serv_id) (pkt : s_packet).

(** what memory holds that is not set, what shifts out of range give, what
    [s_net_connect] gives for a meta server, and [s_mem_used()] *)
Record mem_env := MemEnv {
  me_junk : Z;
  me_slot_flags : list Z → Z;
  me_ub_shl : Z → Z → Z;
  me_dummy : nat;
  me_dial : Z → option nat;
  me_used : Z
}.

(** ** What a handler sees of the group, and what it makes it do *)
Definition is_active_serv g serv : bool := bool_decide (is_Some (s_servg_get_active_serv g (sv_type serv) (sv_id serv))).
Definition active_m g (k : Z) : bool := is_active_serv g (Serv S_SERV_TYPE_M k).
(** the loop over [s_servg_next_active_serv], with [serv->mem] *)
Definition walk g (type : Z) : list (Z * Z) :=
  match s_servg_get_serv_array g type with
  | Some a =>
      (λ r, (sv_id r, from_option se_mem 0 (serv_at g r))) <$>
      active_walk (S (Z.to_nat (s_array_len a))) g type (-1)
  | None => []
  end.
Definition env_at (m : mem_env) g : env :=
  Env (is_active_serv g) (walk g) (me_junk m) (me_slot_flags m) (me_ub_shl m).

(** the packet that a handler has built *)
Definition built (o : out_pkt) : option s_packet :=
  match o with
  | OMsg fn fs => (s_packet_start_write 0 g_free_init fn fs).1
  | OEasy fn sz fs => build_easy fn sz fs
  | OPkt fn p => Some (s_packet_set_fun p fn).2
  end.
Definition request_of (e : effect) : option request :=
  match e with
  | Send to o => pkt ← built o; Some (RSend to pkt)
  | RpcRet to req o => pkt ← built o; Some (RRet to req pkt)
  | RpcCall to o cb msec => pkt ← built o; Some (RCall to pkt (FileCb cb) msec)
  end.
Definition request_of_paxos (m : mem_env) (e : px_effect) : option request :=
  match e with
  | PSend serv o => pkt ← built o; Some (RSend (Serv S_SERV_TYPE_M serv) pkt)
  | PRet serv req o => pkt ← built o; Some (RRet (Serv S_SERV_TYPE_M serv) req pkt)
  | PCall serv o cb msec => pkt ← built o; Some (RCall (Serv S_SERV_TYPE_M serv) pkt (PaxosCb cb) msec)
  | PConnect serv port => Some (RConnect S_SERV_TYPE_M serv (cstr "127.0.0.1") port (me_dial m serv) (me_used m))
  end.
Definition with_effects {A} (f : A → s_core) (r : A * list effect) : option (s_core * list request) :=
  qs ← mapM request_of r.2; Some (f r.1, qs).
(** a step of Paxos adds to [px_out] *)
Definition with_paxos (m : mem_env) core (r : option (outcome () * px)) : option (s_core * list request) :=
  '(_, s) ← r;
  qs ← mapM (request_of_paxos m) (drop (length (px_out (co_paxos core))) (px_out s));
  Some (set_paxos s core, qs).

(** ** Calls through the table *)
Definition run_paxos (m : mem_env) core g (h : handler) serv pkt : option (s_core * list request) :=
  let s := co_paxos core in
  let id := co_id core in
  match h with
  | ireceive_request_ => with_paxos m core (ireceive_request id (me_junk m) (sv_id serv) pkt s)
  | ireceive_accept_ => with_paxos m core (ireceive_accept pkt s)
  | ireceive_learn_request_ => with_paxos m core (ireceive_learn_request (sv_id serv) pkt s)
  | ireceive_add_ => with_paxos m core (ireceive_add id (active_m g) (me_junk m) (sv_id serv) s)
  | ireceive_add_accept_ => with_paxos m core (ireceive_add_accept (sv_id serv) pkt s)
  | ireceive_refresh_accept_ => with_paxos m core (ireceive_refresh_accept (me_junk m) (me_dummy m) (sv_id serv) pkt s)
  | _ => None
  end.

Definition run_mserv (m : mem_env) core g gl fs (h : handler) serv pkt : option (s_core * list request) :=
  let on_gl r := with_effects (λ gl, set_part (MservPart gl fs) core) r in
  let on_fs r := with_effects (λ fs, set_part (MservPart gl fs) core) r in
  match h with
  | mserv_glock => s_core_mserv_glock gl serv pkt ≫= on_gl
  | mserv_glock_unlock => s_core_mserv_glock_unlock (is_active_serv g) gl serv pkt ≫= on_gl
  | mserv_create => create_h (co_id core) (env_at m g) fs serv pkt ≫= on_fs
  | mserv_create_check_auth => on_fs (fs, s_core_mserv_create_check_auth (co_id core) (me_slot_flags m) fs serv pkt)
  | mserv_create_metadata => s_core_mserv_create_metadata fs serv pkt ≫= on_fs
  | mserv_create_meta_meta_data =>
      fs ← s_core_mserv_create_meta_meta_data (me_junk m) fs serv pkt; on_fs (fs, [])
  | _ => None
  end.

Definition run_dserv (m : mem_env) core g ds (h : handler) serv pkt : option (s_core * list request) :=
  let on_ds r := with_effects (λ ds, set_part (DservPart ds) core) r in
  match h with
  | dserv_lock => s_core_dserv_lock (co_id core) (is_active_serv g) (me_junk m) ds serv pkt ≫= on_ds
  | dserv_lock_unlock => s_core_dserv_lock_unlock (is_active_serv g) (me_junk m) ds serv pkt ≫= on_ds
  | dserv_create_metadata => effs ← s_core_dserv_create_metadata serv pkt; on_ds (ds, effs)
  | dserv_push_data => on_ds (s_core_dserv_push_data ds serv pkt, [])
  | dserv_write => on_ds (s_core_dserv_write ds serv pkt)
  | _ => None
  end.

Definition is_paxos (h : handler) : bool :=
  match h with
  | ireceive_request_ | ireceive_accept_ | ireceive_learn_request_ | ireceive_add_ | ireceive_add_accept_
  | ireceive_refresh_accept_ => true
  | _ => false
  end.
Definition run_handler (m : mem_env) core g (h : handler) serv pkt : option (s_core * list request) :=
  if is_paxos h then run_paxos m core g h serv pkt
  else
    match co_part core with
    | MservPart gl fs => run_mserv m core g gl fs h serv pkt
    | DservPart ds => run_dserv m core g ds h serv pkt
    | _ => None
    end.

(** the callback of a remote call; that of a client only calls the user *)
Definition run_core_cb (m : mem_env) core g (cb : core_cb) serv (pkt : option s_packet)
    : option (s_core * list request) :=
  match cb with
  | PaxosCb cb => with_paxos m core (run_paxos_cb (co_id core) (active_m g) (sv_id serv) cb pkt (co_paxos core))
  | FileCb (CreateBack _) => Some (core, [])
  | FileCb cb =>
      match co_part core with
      | MservPart gl fs =>
          run_cb (co_id core) (env_at m g) fs cb pkt ≫= with_effects (λ fs, set_part (MservPart gl fs) core)
      | _ => None
      end
  end.

Definition run_api (m : mem_env) core g (c : api_call) : option (s_core * list request) :=
  let s := co_paxos core in
  match c with
  | s_core_create_file_ param =>
      to ← s_servg_get_min_delay_serv g S_SERV_TYPE_M;
      let '(_, effs, _) := s_core_create_file (me_junk m) g_free_init to param (me_dummy m) in
      with_effects (λ _ : (), core) ((), effs)
  | s_paxos_start_ topic value type the_serv =>
      with_paxos m core (s_paxos_start (co_id core) (active_m g) (me_junk m) topic value type the_serv s)
  | s_paxos_learn_all_ => with_paxos m core (s_paxos_learn_all (active_m g) s)
  | s_paxos_check_leave_ => with_paxos m core (s_paxos_check_leave (co_id core) (active_m g) (me_junk m) s)
  end.
Fixpoint run_apis (m : mem_env) core g (l : list api_call) : option (s_core * list request) :=
  match l with
  | [] => Some (core, [])
  | c :: l =>
      '(core, qs) ← run_api m core g c;
      '(core, qs') ← run_apis m core g l;
      Some (core, qs ++ qs')
  end.

(** the callbacks of the group: [when_all_established] calls the program, the
    other two do nothing *)
Definition core_react (m : mem_env) (all_established : group → list api_call) g (e : event core_cb handler)
    : option (s_core * list request) :=
  let core := sg_udata g in
  match e with
  | Handled h serv pkt => run_handler m core g h serv pkt
  | Called _ serv cb back => run_core_cb m core g cb serv back
  | AllEstablished => run_apis m core g (all_established g)
  | Sent _ _ _ | Established _ | ServClosed _ => Some (core, [])
  end.

(** ** [s_core_create] *)
Definition core_new (m : mem_env) (type id : Z) (p : core_part) : s_core :=
  Core type id p (s_paxos_create id (me_junk m) (tbl_new 16) (tbl_new 16) (tbl_new 16) (tbl_new 16)).

(** [init_client], [init_mserv], [init_dserv]: the part and the handlers *)
Definition init_part (type : Z) : core_part * list ((Z * Z) * handler) :=
  if type =? S_SERV_TYPE_C then (ClientPart, [])
  else if type =? S_SERV_TYPE_M then
    (MservPart (MServ 0 (tbl_new 16)) (MFiles (tbl_new 16) (tbl_new 16) (tbl_new 16) 0), mserv_handlers)
  else if type =? S_SERV_TYPE_D then (DservPart dserv_init, dserv_handlers)
  else (NoPart, []).

(** the results of the calls are not looked at *)
Definition register_all (l : list ((Z * Z) * handler)) g : group :=
  foldl (λ g x, (s_servg_register g x.1.1 x.1.2 x.2).2) g l.

(** [Some None]: a null pointer is returned *)
Definition s_core_create (m : mem_env) (net_ok : bool) (type id : Z) (config : s_config) : option (option group) :=
  let g := s_servg_create type id (core_new m type id NoPart) in
  '(ret, g, _) ← s_servg_init_config net_ok g config;
  if ret <? 0 then Some None
  else
    let g := register_all paxos_handlers g in
    let '(p, hs) := init_part type in
    Some (Some (register_all hs (g_udata (core_new m type id p) g))).

(** ** [s_core_poll] *)

(** what [s_net_poll] meets *)
Inductive net_input :=
| InAccept (c : nat) (ip : list Z) (port : Z)
| InClosed (c : nat)
| InPacket (c : nat) (pkt : s_packet).

Section polling.
Context (m : mem_env) (all_established update : group → list api_call) (wfail : nat → bool).
Context (fuel : nat) (now : timeval).
Abbreviation react := (core_react m all_established).

Definition net_event g (i : net_input) : option group :=
  match i with
  | InAccept c ip port => conn_accepted react wfail fuel now (me_used m) g c ip port
  | InClosed c => conn_closed react wfail fuel now (me_used m) g c
  | InPacket c pkt => s_servg_do_event react wfail fuel now (me_used m) g (Some c) (EvPkt pkt)
  end.
Fixpoint net_events g (l : list net_input) : option group :=
  match l with
  | [] => Some g
  | i :: l => g ← net_event g i; net_events g l
  end.

(** [create_param.update] *)
Definition core_update g : option group :=
  '(core, qs) ← run_apis m (sg_udata g) g (update g);
  run_requests wfail now (iwhen_conn_closed react wfail fuel now) (g_udata core g) qs.

Definition s_core_poll (n : nat) g (connect : serv_id → option nat) (inputs : list net_input) : option group :=
  g ← s_servg_poll react wfail fuel now (me_used m) n g connect;
  g ← net_events g inputs;
  core_update g.
End polling.

(** a server, from its creation: each poll has a time, an environment and a
    program of its own *)
Inductive runs : group → Prop :=
| runs_created m net_ok type id config g :
    s_core_create m net_ok type id config = Some (Some g) → runs g
| runs_poll m all_established update wfail fuel now n connect inputs g g' :
    runs g → s_core_poll m all_established update wfail fuel now n g connect inputs = Some g' → runs g'.

(** ** Registration *)
Definition all_handlers (type : Z) : list ((Z * Z) * handler) := paxos_handlers ++ (init_part type).2.

Lemma all_handlers_ok type :
  NoDup (all_handlers type).*1 ∧
  Forall (λ x, 0 <= x.1.1 < S_SERV_TYPE_MAX ∧ S_PKT_TYPE_USER_DEF_BEGIN_ < x.1.2 < S_PKT_TYPE_MAX_) (all_handlers type).
Proof.
  unfold all_handlers, init_part. repeat case_match; cbn [snd app fst];
    (split; [apply (bool_decide_unpack _); vm_compute; exact I|]); repeat constructor; cbn; done.
Qed.

(** registrations of pairs that are new and in range all succeed *)
Lemma register_all_table l g :
  NoDup l.*1 → Forall (λ x, 0 <= x.1.1 < S_SERV_TYPE_MAX ∧ S_PKT_TYPE_USER_DEF_BEGIN_ < x.1.2 < S_PKT_TYPE_MAX_) l →
  (∀ k, k ∈ l.*1 → sg_handle_msg g !! k = None) →
  register_all l g = g_handle_msg (list_to_map l ∪ sg_handle_msg g) g.
Proof.
  revert g. induction l as [|[[t fn] h] l IH]; intros g Hnd Hr Hn.
  - cbn. rewrite (left_id_L ∅ (∪)). by destruct g.
  - cbn in Hnd. apply NoDup_cons in Hnd as [Hni Hnd]. apply Forall_cons in Hr as [[Ht Hf] Hr]. cbn in Ht, Hf.
    cbn [register_all foldl]. fold (register_all l).
    assert (s_servg_register g t fn h = (0, g_handle_msg (<[(t, fn) := h]> (sg_handle_msg g)) g)) as E.
    { assert (sg_handle_msg g !! (t, fn) = None) as Hx by (apply Hn; cbn; left).
      unfold s_servg_register. rewrite Hx, bool_decide_false by (by intros [? ?]).
      rewrite (proj2 (orb_false_iff (t <? 0) _)), (proj2 (orb_false_iff (fn <=? _) _)); 
        [done|split; (apply Z.ltb_ge || apply Z.leb_gt); lia..]. }
    change (register_all l (s_servg_register g t fn h).2 = g_handle_msg (list_to_map (((t, fn), h) :: l) ∪ sg_handle_msg g) g).
    rewrite E. cbn [snd]. rewrite IH; [|done|done|].
    + transitivity (g_handle_msg (list_to_map l ∪ <[(t, fn) := h]> (sg_handle_msg g)) g); [done|].
      cbn. f_equal. rewrite <-insert_union_r; [by rewrite <-insert_union_l|]. by apply not_elem_of_list_to_map_1.
    + intros k Hk. cbn. rewrite lookup_insert_ne by (by intros <-). apply Hn. cbn. by right.
Qed.

(** ** The parts run as they do alone *)

(** the handlers of the global lock, called for clients only *)
Inductive glock_called : s_mserver TG → s_mserver TG → Prop :=
| called_lock gl gl' serv pkt effs :
    sv_type serv = S_SERV_TYPE_C → s_core_mserv_glock gl serv pkt = Some (gl', effs) → glock_called gl gl'
| called_unlock active gl gl' serv pkt effs :
    sv_type serv = S_SERV_TYPE_C → s_core_mserv_glock_unlock active gl serv pkt = Some (gl', effs) →
    glock_called gl gl'.

(** those of the files, and the answers of the other servers *)
Inductive files_called (id : Z) : mfiles TC TF TM → mfiles TC TF TM → Prop :=
| called_create e fs fs' serv pkt effs :
    sv_type serv = S_SERV_TYPE_C → create_h id e fs serv pkt = Some (fs', effs) → files_called id fs fs'
| called_back e fs fs' cb (back : option s_packet) effs : run_cb id e fs cb back = Some (fs', effs) → files_called id fs fs'
| called_metadata fs fs' serv pkt effs :
    sv_type serv = S_SERV_TYPE_M → s_core_mserv_create_metadata fs serv pkt = Some (fs', effs) → files_called id fs fs'
| called_mmd junk fs fs' serv pkt :
    sv_type serv = S_SERV_TYPE_M → s_core_mserv_create_meta_meta_data junk fs serv pkt = Some fs' → files_called id fs fs'.

(** those of a data server that change its state *)
Definition from_dserv (serv : serv_id) : Prop := sv_type serv = S_SERV_TYPE_D.
Inductive dserv_called (id : Z) : s_dserver TK TD → s_dserver TK TD → Prop :=
| called_dlock active junk ds ds' serv pkt effs :
    sv_type serv = S_SERV_TYPE_C ∨ from_dserv serv → s_core_dserv_lock id active junk ds serv pkt = Some (ds', effs) →
    dserv_called id ds ds'
| called_dunlock active junk ds ds' serv pkt effs :
    from_dserv serv → s_core_dserv_lock_unlock active junk ds serv pkt = Some (ds', effs) → dserv_called id ds ds'
| called_push ds serv pkt : sv_type serv = S_SERV_TYPE_C → dserv_called id ds (s_core_dserv_push_data ds serv pkt).

(** those of Paxos, for meta servers only; its answers and the calls of the
    program are the steps of [pstep] that are no packets *)
Inductive paxos_called (id : Z) : px → px → Prop :=
| called_paxos active junk dummy serv fn pkt r s s' :
    sv_type serv = S_SERV_TYPE_M → handle_paxos id active junk dummy (sv_id serv) fn pkt s = Some (r, s') →
    paxos_called id s s'
| called_no_packet s s' : pstep id (λ _, False) s s' → paxos_called id s s'.

Lemma dserv_called_dstep id ds ds' : dserv_called id ds ds' → dstep id any from_dserv ds ds'.
Proof. destruct 1; [by eapply dstep_lock|by eapply dstep_unlock|apply dstep_push]. Qed.
Lemma paxos_called_pstep id s s' : paxos_called id s s' → pstep id (λ _, True) s s'.
Proof.
  destruct 1 as [active junk dummy serv fn pkt r s s' _ Hs|s s' Hs]; [by eapply pstep_packet|].
  destruct Hs; [done|by eapply pstep_answer|by eapply pstep_start|by eapply pstep_learn_all|by eapply pstep_check_leave].
Qed.

Definition part_runs (type id : Z) (p : core_part) : Prop :=
  match p with
  | MservPart gl fs =>
      type = S_SERV_TYPE_M ∧ rtc glock_called (MServ 0 (tbl_new 16)) gl ∧ rtc (files_called id) files_init fs
  | DservPart ds => type = S_SERV_TYPE_D ∧ rtc (dserv_called id) dserv_init ds
  | ClientPart => type = S_SERV_TYPE_C
  | NoPart => type ≠ S_SERV_TYPE_M ∧ type ≠ S_SERV_TYPE_D ∧ type ≠ S_SERV_TYPE_C
  end.

Record parts_run (type id : Z) core : Prop := {
  pr_type : co_type core = type;
  pr_id : co_id core = id;
  pr_part : part_runs type id (co_part core);
  pr_paxos : ∃ junk, rtc (paxos_called id)
    (s_paxos_create id junk (tbl_new 16) (tbl_new 16) (tbl_new 16) (tbl_new 16)) (co_paxos core)
}.

(** a handler finds the part it was written for *)
Definition finds (h : handler) (p : core_part) : bool :=
  is_paxos h ||
  match h, p with
  | (mserv_glock | mserv_glock_unlock | mserv_create | mserv_create_check_auth | mserv_create_metadata
     | mserv_create_meta_meta_data), MservPart _ _ => true
  | (dserv_lock | dserv_lock_unlock | dserv_create_metadata | dserv_push_data | dserv_write), DservPart _ => true
  | _, _ => false
  end.
(** the type of the servers a handler is for *)
Definition row_of (h : handler) : list Z :=
  match h with
  | mserv_glock | mserv_glock_unlock | mserv_create | dserv_push_data | dserv_write => [S_SERV_TYPE_C]
  | dserv_lock => [S_SERV_TYPE_C; S_SERV_TYPE_D]
  | dserv_lock_unlock => [S_SERV_TYPE_D]
  | _ => [S_SERV_TYPE_M]
  end.

Definition table_of (type : Z) : gmap (Z * Z) handler := list_to_map (all_handlers type).

(** what the table holds fits the type of the server *)
Lemma table_fits type id p k h :
  part_runs type id p → table_of type !! k = Some h → finds h p = true ∧ k.1 ∈ row_of h.
Proof.
  intros Hp Hk. apply elem_of_list_to_map_2 in Hk. unfold all_handlers, init_part in Hk.
  assert (∀ l, (k, h) ∈ paxos_handlers ++ l → is_paxos h = true ∧ k.1 ∈ row_of h ∨ (k, h) ∈ l) as Hsplit.
  { intros l [Hl|?]%elem_of_app; [left|by right]. unfold paxos_handlers in Hl.
    repeat (apply elem_of_cons in Hl as [[= -> ->]|Hl]; [split; [done|by left]|]). by apply elem_of_nil in Hl. }
  assert (∀ l, (k, h) ∈ paxos_handlers ++ l → ((k, h) ∈ l → finds h p = true ∧ k.1 ∈ row_of h) →
    finds h p = true ∧ k.1 ∈ row_of h) as Hor.
  { intros l Hl Hr. destruct (Hsplit l Hl) as [[E ?]|?]; [|by apply Hr]. unfold finds. by rewrite E. }
  destruct (type =? S_SERV_TYPE_C) eqn:E1; [apply (Hor _ Hk); by intros ?%elem_of_nil|].
  destruct (type =? S_SERV_TYPE_M) eqn:E2; [|destruct (type =? S_SERV_TYPE_D) eqn:E3].
  - zbool. destruct p; cbn in Hp; destruct_and?; try (exfalso; unfold S_SERV_TYPE_M, S_SERV_TYPE_D, S_SERV_TYPE_C in *; lia). apply (Hor _ Hk). intros Hl. unfold mserv_handlers in Hl. cbn [snd] in Hl.
    repeat (apply elem_of_cons in Hl as [[= -> ->]|Hl]; [split; [done|by left]|]). by apply elem_of_nil in Hl.
  - zbool. destruct p; cbn in Hp; destruct_and?; try (exfalso; unfold S_SERV_TYPE_M, S_SERV_TYPE_D, S_SERV_TYPE_C in *; lia). apply (Hor _ Hk). intros Hl. unfold dserv_handlers in Hl. cbn [snd] in Hl.
    repeat (apply elem_of_cons in Hl as [[= -> ->]|Hl]; [split; [done|cbn; set_solver]|]).
    by apply elem_of_nil in Hl.
  - apply (Hor _ Hk). by intros ?%elem_of_nil.
Qed.

Lemma with_effects_Some {A} (f : A → s_core) r core qs : with_effects f r = Some (core, qs) → core = f r.1.
Proof. unfold with_effects. intros Hs. by some_inv. Qed.
Lemma with_effects_bind {A} (f : A → s_core) o core qs :
  o ≫= with_effects f = Some (core, qs) → ∃ a effs, o = Some (a, effs) ∧ core = f a.
Proof. intros ([a effs] & -> & Hs)%bind_Some. apply with_effects_Some in Hs. by exists a, effs. Qed.

Section keeping.
Context (type id : Z).
Abbreviation run := (parts_run type id).

Lemma set_paxos_run core s : run core → paxos_called id (co_paxos core) s → run (set_paxos s core).
Proof.
  intros [H1 H2 H3 [junk H4]] Hs. split; [done..|]. exists junk. by eapply rtc_r.
Qed.

Lemma with_paxos_run m core r core' qs :
  run core → (∀ o s, r = Some (o, s) → paxos_called id (co_paxos core) s) →
  with_paxos m core r = Some (core', qs) → run core'.
Proof.
  intros Hr Hs Hw. unfold with_paxos in Hw. destruct r as [[o s]|]; [|done]. cbn [mbind option_bind] in Hw.
  some_inv. apply set_paxos_run; [done|by eapply Hs].
Qed.

Lemma set_part_run core p : run core → part_runs type id p → run (set_part p core).
Proof. intros [H1 H2 H3 H4] Hp. by split. Qed.

Lemma run_paxos_run m core g h serv pkt core' qs :
  run core → sv_type serv ∈ row_of h → run_paxos m core g h serv pkt = Some (core', qs) → run core'.
Proof.
  intros Hr Hrow Hs. pose proof (pr_id _ _ _ Hr) as Hid. unfold run_paxos in Hs. rewrite Hid in Hs.
  destruct h; try done; apply list_elem_of_singleton in Hrow; (eapply with_paxos_run; [exact Hr| |exact Hs]); intros o s Ho.
  - by apply (called_paxos id (active_m g) (me_junk m) 0%nat serv S_PKT_TYPE_PAXOS_REQUEST pkt o).
  - by apply (called_paxos id (active_m g) (me_junk m) 0%nat serv S_PKT_TYPE_PAXOS_ACCEPT pkt o).
  - by apply (called_paxos id (active_m g) (me_junk m) 0%nat serv S_PKT_TYPE_PAXOS_LEARN_REQUEST pkt o).
  - by apply (called_paxos id (active_m g) (me_junk m) 0%nat serv S_PKT_TYPE_PAXOS_ADD_ME pkt o).
  - by apply (called_paxos id (active_m g) (me_junk m) 0%nat serv S_PKT_TYPE_PAXOS_ADD_ACCEPT pkt o).
  - by apply (called_paxos id (active_m g) (me_junk m) (me_dummy m) serv S_PKT_TYPE_PAXOS_REFRESH_ACCEPT pkt o).
Qed.

Lemma run_mserv_run m core g gl fs h serv pkt core' qs :
  run core → co_part core = MservPart gl fs → sv_type serv ∈ row_of h →
  run_mserv m core g gl fs h serv pkt = Some (core', qs) → run core'.
Proof.
  intros Hr Hp Hrow Hs. pose proof (pr_id _ _ _ Hr) as Hid. pose proof (pr_part _ _ _ Hr) as Hparts. rewrite Hp in Hparts.
  destruct Hparts as (Ht & Hgl & Hfs). unfold run_mserv in Hs. rewrite Hid in Hs.
  destruct h; try done; cbn [row_of] in Hrow; try (apply list_elem_of_singleton in Hrow).
  - apply with_effects_bind in Hs as (gl' & effs & Hs & ->). apply set_part_run; [done|].
    split; [done|]. split; [|done]. eapply rtc_r; [exact Hgl|]. by eapply called_lock.
  - apply with_effects_bind in Hs as (gl' & effs & Hs & ->). apply set_part_run; [done|].
    split; [done|]. split; [|done]. eapply rtc_r; [exact Hgl|]. by eapply called_unlock.
  - apply with_effects_bind in Hs as (fs' & effs & Hs & ->). apply set_part_run; [done|].
    split; [done|]. split; [done|]. eapply rtc_r; [exact Hfs|]. by eapply called_create.
  - apply with_effects_Some in Hs as ->. apply set_part_run; [done|]. by split_and!.
  - apply with_effects_bind in Hs as (fs' & effs & Hs & ->). apply set_part_run; [done|].
    split; [done|]. split; [done|]. eapply rtc_r; [exact Hfs|]. by eapply called_metadata.
  - apply bind_Some in Hs as (fs' & Hs & Hw). apply with_effects_Some in Hw as ->. apply set_part_run; [done|].
    split; [done|]. split; [done|]. eapply rtc_r; [exact Hfs|]. by eapply called_mmd.
Qed.

Lemma run_dserv_run m core g ds h serv pkt core' qs :
  run core → co_part core = DservPart ds → sv_type serv ∈ row_of h →
  run_dserv m core g ds h serv pkt = Some (core', qs) → run core'.
Proof.
  intros Hr Hp Hrow Hs. pose proof (pr_id _ _ _ Hr) as Hid. pose proof (pr_part _ _ _ Hr) as Hparts. rewrite Hp in Hparts.
  destruct Hparts as (Ht & Hds). unfold run_dserv in Hs. rewrite Hid in Hs.
  destruct h; try done; cbn [row_of] in Hrow.
  - apply with_effects_bind in Hs as (ds' & effs & Hs & ->). apply set_part_run; [done|]. split; [done|].
    eapply rtc_r; [exact Hds|]. eapply called_dlock; [|done]. apply elem_of_cons in Hrow as [?|Hrow]; [by left|].
    right. by apply list_elem_of_singleton in Hrow.
  - apply list_elem_of_singleton in Hrow. apply with_effects_bind in Hs as (ds' & effs & Hs & ->). apply set_part_run; [done|]. split; [done|].
    eapply rtc_r; [exact Hds|]. by eapply called_dunlock.
  - apply bind_Some in Hs as (effs & _ & Hw). apply with_effects_Some in Hw as ->. by apply set_part_run.
  - apply with_effects_Some in Hs as ->. apply set_part_run; [done|]. split; [done|].
    apply list_elem_of_singleton in Hrow. eapply rtc_r; [exact Hds|]. by apply called_push.
  - apply with_effects_Some in Hs as ->. apply set_part_run; [done|].
    unfold s_core_dserv_write. destruct (read_id pkt) as [[? ?]|]; by split.
Qed.

Lemma run_handler_run m core g h serv pkt fn core' qs :
  run core → table_of type !! (sv_type serv, fn) = Some h → run_handler m core g h serv pkt = Some (core', qs) → run core'.
Proof.
  intros Hr Hh Hs. destruct (table_fits _ _ _ _ _ (pr_part _ _ _ Hr) Hh) as [_ Hrow]. cbn [fst] in Hrow.
  unfold run_handler in Hs. destruct (is_paxos h); [by eapply run_paxos_run|].
  destruct (co_part core) eqn:Hp; try done; [by eapply run_mserv_run|by eapply run_dserv_run].
Qed.

Lemma run_core_cb_run m core g cb serv (back : option s_packet) core' qs :
  run core → run_core_cb m core g cb serv back = Some (core', qs) → run core'.
Proof.
  intros Hr Hs. pose proof (pr_id _ _ _ Hr) as Hid. destruct cb as [cb|cb]; cbn [run_core_cb] in Hs; rewrite ?Hid in Hs.
  - assert (∀ gl fs, co_part core = MservPart gl fs →
      run_cb id (env_at m g) fs cb back ≫= with_effects (λ fs, set_part (MservPart gl fs) core) = Some (core', qs) → run core') as Hfile.
    { intros gl fs Hp Hcb. pose proof (pr_part _ _ _ Hr) as Hparts. rewrite Hp in Hparts. destruct Hparts as (Ht & Hgl & Hfs).
      apply with_effects_bind in Hcb as (fs' & effs & Hcb & ->). apply set_part_run; [done|].
      split; [done|]. split; [done|]. eapply rtc_r; [exact Hfs|]. by eapply called_back. }
    destruct cb; [| |by simplify_eq]; destruct (co_part core) eqn:Hp; try done; by eapply Hfile.
  - eapply with_paxos_run; [exact Hr| |exact Hs]. intros o s Ho. apply called_no_packet. by eapply pstep_answer.
Qed.

Lemma run_api_run m core g c core' qs : run core → run_api m core g c = Some (core', qs) → run core'.
Proof.
  intros Hr Hs. pose proof (pr_id _ _ _ Hr) as Hid. destruct c; cbn [run_api] in Hs; rewrite ?Hid in Hs.
  - apply bind_Some in Hs as (to & _ & Hs). destruct (s_core_create_file _ _ _ _ _) as [[o effs] p].
    by apply with_effects_Some in Hs as ->.
  - eapply with_paxos_run; [exact Hr| |exact Hs]. intros o s Ho. apply called_no_packet. by eapply pstep_start.
  - eapply with_paxos_run; [exact Hr| |exact Hs]. intros o s Ho. apply called_no_packet. by eapply pstep_learn_all.
  - eapply with_paxos_run; [exact Hr| |exact Hs]. intros o s Ho. apply called_no_packet. by eapply pstep_check_leave.
Qed.

Lemma run_apis_run m l core g core' qs : run core → run_apis m core g l = Some (core', qs) → run core'.
Proof.
  revert core qs. induction l as [|c l IH]; intros core qs Hr Hs; cbn [run_apis] in Hs; [by simplify_eq|].
  apply bind_Some in Hs as ([core1 qs1] & Hc & Hs). apply bind_Some in Hs as ([core2 qs2] & Hl & Hs). simplify_eq.
  eapply IH; [|done]. by eapply run_api_run.
Qed.

Lemma core_react_run m all_established g e core qs :
  user_inv (table_of type) run g → expected (table_of type) g e →
  core_react m all_established (log e g) e = Some (core, qs) → run core.
Proof.
  intros Hj He Hs. pose proof (j_user _ _ _ Hj) as Hr. destruct e; cbn [core_react sg_udata log g_trace] in Hs; try by simplify_eq.
  - by eapply run_core_cb_run.
  - destruct He as [_ Hh]. by eapply run_handler_run.
  - by eapply run_apis_run.
Qed.
End keeping.

(** ** Every server, from its creation on *)
Lemma table_of_union type : list_to_map (init_part type).2 ∪ (list_to_map paxos_handlers ∪ ∅) = table_of type.
Proof.
  destruct (all_handlers_ok type) as [Hnd _]. unfold table_of, all_handlers in *. rewrite (right_id_L ∅ (∪)), list_to_map_app.
  apply map_union_comm. apply map_disjoint_list_to_map_l. rewrite Forall_forall. intros [k h] Hk.
  apply not_elem_of_list_to_map_1. rewrite fmap_app, NoDup_app in Hnd. destruct Hnd as (_ & Hd & _).
  intros Hp. apply (Hd k Hp). apply list_elem_of_fmap. by exists (k, h).
Qed.

Lemma core_new_run m type id : parts_run type id (core_new m type id (init_part type).1).
Proof.
  split; [done..| |exists (me_junk m); apply rtc_refl]. unfold core_new, init_part. cbn [co_part].
  destruct (type =? S_SERV_TYPE_C) eqn:E1; [by zbool|]. destruct (type =? S_SERV_TYPE_M) eqn:E2; [by zbool|].
  destruct (type =? S_SERV_TYPE_D) eqn:E3; zbool; [split; [done|apply rtc_refl]|by split_and!].
Qed.

(** the table after the creation, and the invariant *)
Lemma create_inv m net_ok type id config g :
  s_core_create m net_ok type id config = Some (Some g) →
  user_inv (table_of type) (parts_run type id) g ∧ sg_udata g = core_new m type id (init_part type).1.
Proof.
  unfold s_core_create. intros Hs. apply bind_Some in Hs as ([[ret g1] c1] & Hi & Hs). cbn beta iota in Hs.
  destruct (ret <? 0); [done|]. destruct (init_part type) as [p hs] eqn:Ep. apply (inj Some), (inj Some) in Hs. subst g.
  assert (user_inv ∅ (λ _, True) g1) as Hj.
  { refine (proj1 (init_config_good ∅ (λ _, True) net_ok _ config ret g1 c1 _ Hi)). exact (create_ok ∅ (λ _, True) _ type id eq_refl Logic.I). }
  destruct (all_handlers_ok type) as [Hnd Hr]. unfold all_handlers in Hnd, Hr. rewrite Ep in Hnd, Hr. cbn [snd] in Hnd, Hr.
  rewrite fmap_app, NoDup_app in Hnd. destruct Hnd as (Hnd1 & Hd & Hnd2). apply Forall_app in Hr as [Hr1 Hr2].
  rewrite (register_all_table paxos_handlers g1) by (done || intros; by rewrite (j_tbl _ _ _ Hj)).
  rewrite register_all_table; [|done|done|].
  2: { intros k Hk. cbn [sg_handle_msg g_udata g_handle_msg]. rewrite (j_tbl _ _ _ Hj), (right_id_L ∅ (∪)). apply not_elem_of_list_to_map_1.
       intros Hp. by apply (Hd k). }
  split; [|done]. destruct Hj as [J1 J2 J3 J4 J5 J6].
  split; cbn [sg_handle_msg g_udata g_handle_msg sg_udata]; [exact J1|exact J2|exact J3|exact J4| |].
  - rewrite J5. pose proof (table_of_union type) as E. by rewrite Ep in E.
  - pose proof (core_new_run m type id) as E. by rewrite Ep in E.
Qed.

Section poll_keeps.
Context (type id : Z) (m : mem_env) (all_established update : group → list api_call) (wfail : nat → bool).
Context (fuel : nat) (now : timeval).
Abbreviation inv := (user_inv (table_of type) (parts_run type id)).

Lemma net_events_inv l g g' :
  inv g → net_events m all_established wfail fuel now g l = Some g' → inv g'.
Proof.
  pose proof (core_react_run type id m all_established) as Hreact.
  revert g. induction l as [|i l IH]; intros g Hj Hs; cbn [net_events] in Hs; [by simplify_eq|].
  apply bind_Some in Hs as (g1 & Hi & Hs). apply (IH g1); [|done].
  destruct i as [c ip port|c|c pkt]; cbn [net_event] in Hi.
  - by eapply (conn_accepted_good _ _ _ _ _ Hreact).
  - by eapply (conn_closed_good _ _ _ _ _ Hreact).
  - by eapply (do_event_good _ _ _ _ _ Hreact).
Qed.

Lemma poll_inv_core n g connect inputs g' :
  inv g → s_core_poll m all_established update wfail fuel now n g connect inputs = Some g' → inv g'.
Proof.
  pose proof (core_react_run type id m all_established) as Hreact.
  unfold s_core_poll, core_update. intros Hj Hs. apply bind_Some in Hs as (g1 & Hp & Hs).
  apply bind_Some in Hs as (g2 & Hn & Hs). apply bind_Some in Hs as ([core qs] & Ha & Hs). cbn beta iota in Hs.
  assert (inv g1) as Hj1 by (by eapply (poll_good _ _ _ _ _ Hreact)).
  assert (inv g2) as Hj2 by (by eapply net_events_inv).
  assert (inv (g_udata core g2)) as Hj3.
  { apply udata_good; [|done]. eapply run_apis_run; [apply Hj2|done]. }
  eapply run_requests_good; [|exact Hj3|done]. intros g3 c g4. apply (closed_good _ _ _ _ _ Hreact).
Qed.
End poll_keeps.

Lemma runs_inv g : runs g → ∃ type id, user_inv (table_of type) (parts_run type id) g.
Proof.
  induction 1 as [m net_ok type id config g Hc|m all_established update wfail fuel now n connect inputs g g' _ (type & id & IH) Hp].
  - exists type, id. by eapply create_inv.
  - exists type, id. by eapply poll_inv_core.
Qed.

(** C5. The composition of the server.  Whatever connects, whatever packets,
    answers and time-outs come and whatever the program calls, each part of a
    server goes through a history of its own component: the global lock and the
    creations of files are asked for by clients only, meta data comes from meta
    servers only, the locks of a data server are asked for by clients and data
    servers, unlocked by data servers and its data sent by clients only, and
    the packets of Paxos come from meta servers only; besides these there are
    the answers to calls and the calls of the program. *)
Theorem server_refines_parts g :
  runs g → parts_run (co_type (sg_udata g)) (co_id (sg_udata g)) (sg_udata g).
Proof.
  intros Hr. apply runs_inv in Hr as (type & id & Hj). pose proof (j_user _ _ _ Hj) as Hp.
  by rewrite (pr_type _ _ _ Hp), (pr_id _ _ _ Hp).
Qed.

(** the server that a packet is from *)
Definition comes_from g (conn : option nat) serv : Prop :=
  match conn with
  | Some c => ∃ n, sg_conns g !! c = Some n ∧ nc_udata n = Some serv
  | None => sg_myself g = Some serv
  end.

(** C13. A handler runs only on the struct it was written for, and only for the
    servers it was registered for: in every state of every server, the handler
    that the table gives for a packet finds its own part in the union, and the
    packet is from a server of a type it is for, so that the [assert] on the
    type of a client holds. *)
Theorem handlers_find_part g conn serv s pkt h :
  runs g → comes_from g conn serv → serv_at g serv = Some s →
  handle_msg g (se_type s) (s_packet_get_fun pkt) = Some (Some h) →
  finds h (co_part (sg_udata g)) = true ∧ sv_type serv ∈ row_of h.
Proof.
  intros Hr Hc Hs Hh. apply runs_inv in Hr as (type & id & Hj).
  assert (known g serv) as (_ & s' & Hs' & Ht).
  { destruct conn as [c|]; [destruct Hc as (n & Hc & Hn); by apply (j_conn _ _ _ Hj c n)|by apply (j_me _ _ _ Hj)]. }
  unfold handle_msg in Hh. destruct (_ && _) in Hh; [|done]. apply (inj Some) in Hh. rewrite (j_tbl _ _ _ Hj) in Hh.
  assert (s' = s) as -> by congruence. rewrite Ht in Hh.
  by apply (table_fits _ _ _ _ _ (pr_part _ _ _ (j_user _ _ _ Hj))) in Hh.
Qed.

(** [s_core_create] registers what it means to: no call of
    [s_servg_register] is refused, so that each handler of the source is in the
    table at its place, and nothing else is. *)
Theorem create_registers m net_ok type id config g :
  s_core_create m net_ok type id config = Some (Some g) →
  Forall (λ x, sg_handle_msg g !! x.1 = Some x.2) (all_handlers type) ∧
  ∀ k h, sg_handle_msg g !! k = Some h → (k, h) ∈ all_handlers type.
Proof.
  intros Hc. apply create_inv in Hc as [Hj _]. rewrite (j_tbl _ _ _ Hj). split.
  - apply Forall_forall. intros [k h] Hk. by apply elem_of_list_to_map_1; [apply all_handlers_ok|].
  - intros k h Hk. by apply elem_of_list_to_map_2.
Qed.
End core.

Section locks.
Context {T TG TC TF TM TK TD TR TA TL TB : Type}.
Context `{HT : !Table Z nat T, HTG : !Table s_id s_glock_elem TG,
          HTC : !Table (list Z) s_core_mcreating TC, HTF : !Table (list Z) s_file_meta_data TF,
          HTM : !Table (list Z) s_file_meta_meta_data TM,
          HTK : !Table s_id nat TK, HTD : !Table s_id (Z * list Z) TD,
          HTR : !Table (list Z) s_id TR, HTA : !Table (list Z) (list s_paxos_accept) TA,
          HTL : !Table (list Z) (list s_paxos_learn) TL, HTB : !Table Z (list s_paxos_accept) TB,
          LTK : !TableLaws s_id nat TK, LTL : !TableLaws (list Z) (list s_paxos_learn) TL}.
Abbreviation group := (s_server_group T (s_core (TG := TG) (TC := TC) (TF := TF) (TM := TM) (TK := TK) (TD := TD)
  (TR := TR) (TA := TA) (TL := TL) (TB := TB)) core_cb handler).

(** C14. In a running data server no request is forgotten: each one that waits
    conflicts with one that was passed on and is still held, and any packet
    with an unlock is handled to its end; and the records of any running
    server's learner are sound, so that each server counts once. *)
Theorem running_server_sound (g : group) :
  runs g →
  (∀ ds, co_part (sg_udata g) = DservPart ds →
     (∀ w lw, w ∈ ds_waiting ds → ds_heap ds !! w = Some lw →
        ∃ q lq, q ∈ ds_sent ds ∧ ds_heap ds !! q = Some lq ∧ ilock_is_conflict 0 lq lw = true) ∧
     ∀ active junk serv pkt, is_Some (s_core_dserv_lock_unlock active junk ds serv pkt)) ∧
  learn_ok (co_paxos (sg_udata g)).
Proof using LTK LTL.
  intros Hr. apply runs_inv in Hr as (type & id & Hj). destruct (j_user _ _ _ Hj) as [_ _ Hp [junk Hpx]]. split.
  - intros ds Hds. rewrite Hds in Hp. destruct Hp as [_ Hp].
    apply (rtc_subrel (dserv_called id) (dstep id any from_dserv) _ _ (dserv_called_dstep id)) in Hp.
    apply (reachable_ind _ _ _ (wakeful 0)) in Hp as [Hb Hw].
    2: { by intros ? ? ?%elem_of_nil. }
    2: { intros st1 st2 ? ? ?. by apply (dstep_wakeful id any from_dserv st1). }
    split; [exact Hw|]. intros active junk' serv pkt.
    destruct (dserv_unlock_spec active junk' ds serv pkt Hb) as (st' & effs & E & _). by eexists.
  - apply (rtc_subrel (paxos_called id) (pstep id (λ _, True)) _ _ (paxos_called_pstep id)) in Hpx.
    eapply history_learn_ok; [|exact Hpx]. destruct (tbl_new_ok (T := TL) 16) as [Hw Hm].
    split; cbn; [done|]. intros t l. rewrite Hm. by rewrite lookup_empty.
Qed.
End locks.
