(* ===== verification/CoreRun.v ===== *)
(** * [core/s_core.c], run

    Data server 1 of a small group: it is created, a client connects, tells
    who it is and asks for a lock, all through [s_core_poll].  The witnesses of
    the theorems of [Core]. *)

From stdpp Require Import strings.
From S2P Require Import Prelude SArray SQueue SString Packet Wire SHashSpec Config Cluster GLock CorePkt DLock Create ServGroup ServGroupRpc ServGroupSpec ServGroupUser Paxos PaxosSpec Core.
Local Open Scope Z_scope.

Module DataServer.
Abbreviation core := (s_core (TG := gmap s_id s_glock_elem) (TC := gmap (list Z) s_core_mcreating)
  (TF := gmap (list Z) s_file_meta_data) (TM := gmap (list Z) s_file_meta_meta_data)
  (TK := gmap s_id nat) (TD := gmap s_id (Z * list Z))
  (TR := gmap (list Z) s_id) (TA := gmap (list Z) (list s_paxos_accept))
  (TL := gmap (list Z) (list s_paxos_learn)) (TB := gmap Z (list s_paxos_accept))).
Abbreviation group := (s_server_group (gmap Z nat) core core_cb handler).

Definition mem0 : mem_env := MemEnv 0 (λ _, 0) (λ a n, Z.shiftl a (n mod 32)) 0 (λ _, None) 100.
Definition no_calls (_ : group) : list api_call := [].
Definition blank : group := s_servg_create S_SERV_TYPE_D 1 (core_new mem0 S_SERV_TYPE_D 1 NoPart).
(** the groups are not unfolded: what a proof needs of them it computes *)
Definition get (o : option (option group)) : group := match o with Some (Some g) => g | _ => blank end.
Definition got (o : option (option group)) : bool := match o with Some (Some _) => true | _ => false end.
Lemma got_get o : got o = true → o = Some (Some (get o)).
Proof. by destruct o as [[g|]|]. Qed.

Abbreviation created := (s_core_create mem0 true S_SERV_TYPE_D 1 Sample.config).
Definition g0 : group := get created.
Definition inputs : list net_input :=
  [InAccept 3 (cstr "127.0.0.1"%string) 40000; InPacket 3 (Sample.identify S_SERV_TYPE_C 7);
   InAccept 4 (cstr "127.0.0.1"%string) 40001; InPacket 4 (Sample.identify S_SERV_TYPE_D 2);
   InPacket 3 (lock_start 0 7 10 1 [1; 2]); InPacket 3 (lock_start 0 7 20 1 [1; 2])].
Abbreviation polled := (s_core_poll mem0 no_calls no_calls (λ _, false) 5 Sample.noon 10 g0 (λ _, None) inputs).
Definition g1 : group := get (Some polled).
Definition locks (g : group) : list nat * list nat :=
  match co_part (sg_udata g) with DservPart ds => (ds_sent ds, ds_waiting ds) | _ => ([], []) end.

Lemma created_g0 : created = Some (Some g0).
Proof. apply got_get. vm_compute; reflexivity. Qed.
Lemma polled_g1 : polled = Some g1.
Proof.
  assert (got (Some polled) = true) as Hg by (vm_compute; reflexivity).
  unfold g1. by destruct polled.
Qed.

Lemma g0_runs : runs g0.
Proof. exact (runs_created mem0 true S_SERV_TYPE_D 1 Sample.config g0 created_g0). Qed.
Lemma g1_runs : runs g1.
Proof. exact (runs_poll mem0 no_calls no_calls (λ _, false) 5 Sample.noon 10 (λ _, None) inputs g0 g1 g0_runs polled_g1). Qed.

(** the first request was passed on, the second waits for it *)
Lemma g1_locks : locks g1 = ([0%nat], [1%nat]).
Proof. vm_compute; reflexivity. Qed.

Lemma g1_part : ∃ ds, co_part (sg_udata g1) = DservPart ds.
Proof.
  assert (match co_part (sg_udata g1) with DservPart _ => true | _ => false end = true) as Hp by (vm_compute; reflexivity).
  revert Hp. generalize (co_part (sg_udata g1)). intros [| |gl fs|ds] Hp; try discriminate Hp. by exists ds.
Qed.

Lemma server_refines_parts_witness : parts_run S_SERV_TYPE_D 1 (sg_udata g1).
Proof. exact (server_refines_parts g1 g1_runs). Defined.

Definition lockC7 : s_packet := lock_start 0 7 30 1 [1].
Lemma handlers_find_part_witness :
  finds dserv_lock (co_part (sg_udata g1)) = true ∧ S_SERV_TYPE_C ∈ row_of dserv_lock.
Proof.
  assert (comes_from g1 (Some 3%nat) (Serv S_SERV_TYPE_C 7)) as Hc.
  { eexists. split; [vm_compute; reflexivity|reflexivity]. }
  assert (∃ s, serv_at g1 (Serv S_SERV_TYPE_C 7) = Some s ∧ se_type s = S_SERV_TYPE_C) as (s & Hs & Ht).
  { eexists. split; [vm_compute; reflexivity|reflexivity]. }
  apply (handlers_find_part g1 (Some 3%nat) (Serv S_SERV_TYPE_C 7) s lockC7 dserv_lock g1_runs Hc Hs).
  rewrite Ht. vm_compute; reflexivity.
Defined.

Lemma create_registers_witness :
  Forall (λ x, sg_handle_msg g0 !! x.1 = Some x.2) (all_handlers S_SERV_TYPE_D).
Proof. exact (proj1 (create_registers mem0 true S_SERV_TYPE_D 1 Sample.config g0 created_g0)). Defined.

Lemma running_server_sound_witness :
  ∃ ds, co_part (sg_udata g1) = DservPart ds ∧
    ∀ w lw, w ∈ ds_waiting ds → ds_heap ds !! w = Some lw →
      ∃ q lq, q ∈ ds_sent ds ∧ ds_heap ds !! q = Some lq ∧ ilock_is_conflict 0 lq lw = true.
Proof.
  destruct g1_part as [ds E]. exists ds. split; [exact E|]. exact (proj1 (proj1 (running_server_sound g1 g1_runs) ds E)).
Defined.
End DataServer.
