(* ===== verification/AccessId.v ===== *)
(** * [test2/gen_random_id.c], [test3/s_access_id.c]: which servers are locked

    A program draws sets of data servers and writes a line for each; the
    client reads the file into an array of arrays of ids (lists here).  What [rand] returns
    is a list of numbers; the numbers it counts are only printed; the results of
    [write] are not looked at.  [None] is
    a read outside the file, or [rand] never giving a new number. *)

From S2P Require Import Prelude SArray SString.
From stdpp Require Import sorting.
Local Open Scope Z_scope.

(** ** [gen_random_id.c] *)
Definition MAX_DSERV : Z := 5.
Definition MAX_COUNT : nat := 1000.

Definition mycompare (a b : Z) : Z := a - b.
(** [qsort] of the standard library *)
Fixpoint qsort_insert (cmp : Z → Z → Z) (x : Z) (l : list Z) : list Z :=
  match l with
  | [] => [x]
  | y :: l' => if cmp x y <=? 0 then x :: l else y :: qsort_insert cmp x l'
  end.
Definition qsort (cmp : Z → Z → Z) (l : list Z) : list Z := foldr (qsort_insert cmp) [] l.

(** [label_regen]: draws until the number is not in [servs] *)
Fixpoint regen (servs : list Z) (rands : list Z) : option (Z * list Z) :=
  match rands with
  | [] => None
  | r :: rands =>
      let s := Z.rem r MAX_DSERV + 1 in
      if existsb (Z.eqb s) servs then regen servs rands else Some (s, rands)
  end.
(** [for(k = 0; k < count; ++k)] *)
Fixpoint draw (k : nat) (servs : list Z) (rands : list Z) : option (list Z * list Z) :=
  match k with
  | O => Some (servs, rands)
  | S k => '(s, rands) ← regen servs rands; draw k (servs ++ [s]) rands
  end.

(** [snprintf(buf, 100, "%d", i)] of a number that is not negative *)
Fixpoint c_decimal (fuel : nat) (i : Z) (acc : list Z) : list Z :=
  match fuel with
  | O => acc
  | S fuel => if i <? 10 then (48 + i) :: acc else c_decimal fuel (Z.quot i 10) ((48 + Z.rem i 10) :: acc)
  end.

(** the loop that writes a line; [true]: [return 0] *)
Fixpoint write_ids (prev : option Z) (servs : list Z) : list Z * bool :=
  match servs with
  | [] => ([10], false)
  | s :: rest =>
      if bool_decide (prev = Some s) then ([], true)
      else
        let '(l, stop) := write_ids (Some s) rest in
        (c_decimal 10 s [] ++ (if rest is [] then [] else [44]) ++ l, stop)
  end.

Definition all_serv : list Z := [49; 44; 50; 44; 51; 44; 52; 44; 53; 10].

Definition gen_line (rands : list Z) : option (list Z * bool * list Z) :=
  '(r, rands) ← match rands with [] => None | r :: rands => Some (r, rands) end;
  let count := Z.rem r MAX_DSERV + 1 in
  if count =? MAX_DSERV then Some (all_serv, false, rands)
  else
    '(servs, rands) ← draw (Z.to_nat count) [] rands;
    let '(l, stop) := write_ids None (qsort mycompare servs) in
    Some (l, stop, rands).
(** [main]: the file; [true]: it ends early *)
Fixpoint gen_lines (i : nat) (rands : list Z) : option (list Z * bool) :=
  match i with
  | O => Some ([], false)
  | S i =>
      '(l, stop, rands) ← gen_line rands;
      if stop : bool then Some (l, true)
      else '(file, stop) ← gen_lines i rands; Some (l ++ file, stop)
  end.
Definition gen_random_id (rands : list Z) : option (list Z * bool) := gen_lines MAX_COUNT rands.

(** ** [s_access_id.c] *)
Definition MAX_LINE_LEN : Z := 256.

(** up to the first [c], and what follows it *)
Fixpoint until (c : Z) (l : list Z) : option (list Z * list Z) :=
  match l with
  | [] => None
  | x :: l => if x =? c then Some ([], l) else '(a, b) ← until c l; Some (x :: a, b)
  end.

(** [strtok(buf, ",")] called until it gives null; [tok] is the token so far *)
Fixpoint strtok_all (buf tok : list Z) : list (list Z) :=
  let done_ := match tok with [] => [] | _ => [tok] end in
  match buf with
  | [] => done_
  | c :: buf =>
      if c =? 0 then done_
      else if c =? 44 then done_ ++ strtok_all buf []
      else strtok_all buf (tok ++ [c])
  end.

(** [ctx->p], from [ctx->curr] on; the array, or null *)
Definition read_line (data : list Z) : option (option (list Z) * list Z) :=
  match data with
  | [] => Some (None, [])
  | _ =>
      '(p, rest) ← until 10 data;
      if MAX_LINE_LEN <=? Z.of_nat (length p) then Some (None, data)
      else Some (Some (c_atoi <$> strtok_all p []), rest)
  end.

(** [array = read_line(&ctx); while(array) ...] *)
Fixpoint read_lines (fuel : nat) (data : list Z) : option (list (list Z)) :=
  match fuel with
  | O => None
  | S fuel =>
      '(array, data) ← read_line data;
      match array with
      | Some array => cons array <$> read_lines fuel data
      | None => Some []
      end
  end.

(** [file]: what is in [conf]; it cannot be opened if it is empty *)
Definition s_access_id_create (file : option (list Z)) : option (option (list (list Z))) :=
  match file with
  | None | Some [] => Some None
  | Some data => Some <$> read_lines (S (length data)) data
  end.

Definition sample_rands : list Z := [1; 3; 8; 1; 9; 10; 4; 2; 2; 1; 0].
Example gen_sample : gen_lines 3 sample_rands = Some ([50; 44; 52; 10] ++ all_serv ++ [53; 10], false).
Proof. reflexivity. Qed.
Example read_sample : s_access_id_create (fst <$> gen_lines 3 sample_rands) = Some (Some [[2; 4]; [1; 2; 3; 4; 5]; [5]]).
Proof. reflexivity. Qed.

(** ** What is drawn *)

(** ids of data servers, in increasing order *)
Definition serv_ok (s : Z) : Prop := 1 <= s <= MAX_DSERV.
Definition ids_ok (l : list Z) : Prop := l ≠ [] ∧ Forall serv_ok l ∧ StronglySorted Z.lt l.

Lemma rem_ok r : 0 <= r → serv_ok (Z.rem r MAX_DSERV + 1).
Proof. intros Hr. unfold serv_ok, MAX_DSERV. rewrite Z.rem_mod_nonneg by lia. pose proof (Z.mod_pos_bound r 5). lia. Qed.

Lemma regen_spec servs rands s rands' :
  Forall (Z.le 0) rands → regen servs rands = Some (s, rands') →
  serv_ok s ∧ s ∉ servs ∧ Forall (Z.le 0) rands'.
Proof.
  induction rands as [|r rands IH]; [done|]. intros [Hr Hrs]%Forall_cons. cbn [regen].
  destruct (existsb _ _) eqn:E; [by apply IH|]. intros [= <- <-]. split; [by apply rem_ok|]. split; [|done].
  intros Hin. apply not_true_iff_false in E. apply E. apply existsb_exists. exists (Z.rem r MAX_DSERV + 1).
  split; [by apply list_elem_of_In|apply Z.eqb_refl].
Qed.

Lemma draw_spec k servs rands servs' rands' :
  Forall (Z.le 0) rands → Forall serv_ok servs → NoDup servs → draw k servs rands = Some (servs', rands') →
  Forall serv_ok servs' ∧ NoDup servs' ∧ length servs' = (length servs + k)%nat ∧ Forall (Z.le 0) rands'.
Proof.
  revert servs rands. induction k as [|k IH]; intros servs rands Hr Hok Hnd Hs; cbn [draw] in Hs.
  - simplify_eq. split_and!; (done || lia).
  - apply bind_Some in Hs as ([s r1] & Hg & Hs). destruct (regen_spec _ _ _ _ Hr Hg) as (Hsk & Hns & Hr1).
    destruct (IH (servs ++ [s]) r1) as (H1 & H2 & H3 & H4); [done| | |done|].
    + apply Forall_app. split; [done|]. by apply Forall_singleton.
    + apply list.NoDup_app. split; [done|]. split; [|by apply NoDup_singleton].
      intros x Hx ->%list_elem_of_singleton. done.
    + rewrite length_app in H3. cbn [length] in H3. split_and!; (done || lia).
Qed.

(** The sets of a run of [rand], stated without the program: a number gives a
    count; all the ids, if it is [MAX_DSERV]; else the ids of the numbers that
    follow, up to the one with which [count] different ids have come up. *)
Definition id_of (r : Z) : Z := Z.rem r MAX_DSERV + 1.
Definition ids_of (rs : list Z) : gset Z := list_to_set (id_of <$> rs).
Inductive drawn : list Z → gset Z → list Z → Prop :=
| drawn_all r rands : id_of r = MAX_DSERV → drawn (r :: rands) (list_to_set (seqZ 1 MAX_DSERV)) rands
| drawn_some r used last rands :
    id_of r ≠ MAX_DSERV → id_of last ∉ ids_of used → Z.of_nat (size (ids_of used)) + 1 = id_of r →
    drawn (r :: used ++ last :: rands) ({[id_of last]} ∪ ids_of used) rands.
Inductive drawn_lines : list Z → list (gset Z) → Prop :=
| drawn_none rands : drawn_lines rands []
| drawn_line rands s rands' sets : drawn rands s rands' → drawn_lines rands' sets → drawn_lines rands (s :: sets).

(** a line of ids in order that has just the ids of the set *)
Definition line_of (s : gset Z) (l : list Z) : Prop := list_to_set l = s ∧ StronglySorted Z.lt l.

Lemma ids_of_app a b : ids_of (a ++ b) = ids_of a ∪ ids_of b.
Proof. unfold ids_of. by rewrite fmap_app, list_to_set_app_L. Qed.

Lemma regen_used servs rands s rands' :
  regen servs rands = Some (s, rands') →
  ∃ used last, rands = used ++ last :: rands' ∧ s = id_of last ∧ s ∉ servs ∧ ids_of used ⊆ list_to_set servs.
Proof.
  induction rands as [|r rands IH]; [done|]. cbn [regen]. fold (id_of r). destruct (existsb _ _) eqn:E.
  - intros (used & last & -> & -> & Hni & Hsub)%IH. exists (r :: used), last. split_and!; try done.
    apply existsb_exists in E as (x & Hx & Ex%Z.eqb_eq). apply list_elem_of_In in Hx. unfold ids_of in *.
    cbn [fmap list_fmap list_to_set foldr]. change (id_of r) with (Z.rem r MAX_DSERV + 1). set_solver.
  - intros [= <- <-]. exists [], r. split; [done|]. split; [done|]. split; [|unfold ids_of; set_solver]. intros Hin.
    apply not_true_iff_false in E. apply E, existsb_exists. exists (id_of r). split; [by apply list_elem_of_In|apply Z.eqb_refl].
Qed.

Lemma draw_used k servs rands servs' rands' :
  draw (S k) servs rands = Some (servs', rands') →
  ∃ used last, rands = used ++ last :: rands' ∧ list_to_set servs' = {[id_of last]} ∪ (list_to_set servs ∪ ids_of used) ∧
    id_of last ∉ list_to_set servs ∪ ids_of used.
Proof.
  revert servs rands. induction k as [|k IH]; intros servs rands Hs; cbn [draw] in Hs;
    apply bind_Some in Hs as ([s r1] & Hg & Hs); destruct (regen_used _ _ _ _ Hg) as (u & la & -> & -> & Hni & Hsub).
  - simplify_eq. exists u, la. split; [done|]. rewrite list_to_set_app_L. split; [|set_solver]. cbn. set_solver.
  - destruct (IH _ _ Hs) as (u2 & la2 & -> & E & Hni2). exists (u ++ la :: u2), la2. split; [by rewrite <-app_assoc|].
    change (la :: u2) with ([la] ++ u2). rewrite !ids_of_app.
    assert (ids_of [la] = {[id_of la]}) as -> by (unfold ids_of; cbn; set_solver).
    rewrite list_to_set_app_L in E, Hni2. cbn in E, Hni2. split; set_solver.
Qed.

Lemma qsort_insert_perm x l : qsort_insert mycompare x l ≡ₚ x :: l.
Proof.
  induction l as [|y l IH]; cbn; [done|]. case_match; [done|]. rewrite IH. apply Permutation_swap.
Qed.
Lemma qsort_perm l : qsort mycompare l ≡ₚ l.
Proof. induction l as [|x l IH]; cbn; [done|]. by rewrite qsort_insert_perm, IH. Qed.

Lemma qsort_insert_sorted x l : x ∉ l → StronglySorted Z.lt l → StronglySorted Z.lt (qsort_insert mycompare x l).
Proof.
  intros Hx. induction 1 as [|y l Hs IH Hall]; cbn; [by repeat constructor|].
  apply not_elem_of_cons in Hx as [Hne Hx]. unfold mycompare. destruct (_ <=? 0) eqn:E; zbool.
  - constructor; [by constructor|]. constructor; [lia|]. eapply Forall_impl; [exact Hall|]. intros z Hz. lia.
  - constructor; [by apply IH|]. rewrite qsort_insert_perm. constructor; [lia|done].
Qed.
(** what [qsort] gives for different numbers *)
Lemma qsort_sorted l : NoDup l → StronglySorted Z.lt (qsort mycompare l).
Proof.
  induction 1 as [|x l Hx Hnd IH]; cbn; [constructor|]. apply qsort_insert_sorted; [|done]. change (x ∉ qsort mycompare l). by rewrite qsort_perm.
Qed.

(** ** A line that is written is read back *)
Lemma decimal_digit s : serv_ok s → c_decimal 10 s [] = [48 + s].
Proof. intros [H1 H2]. unfold MAX_DSERV in *. cbn [c_decimal]. by rewrite (proj2 (Z.ltb_lt s 10)) by lia. Qed.

Fixpoint ids_body (l : list Z) : list Z :=
  match l with
  | [] => []
  | [s] => [48 + s]
  | s :: l => 48 + s :: 44 :: ids_body l
  end.

Lemma write_ids_spec prev l :
  Forall serv_ok l → StronglySorted Z.lt l → (∀ p, prev = Some p → Forall (Z.lt p) l) →
  write_ids prev l = (ids_body l ++ [10], false).
Proof.
  revert prev. induction l as [|s l IH]; intros prev Hok Hs Hp; [done|]. cbn [write_ids].
  apply Forall_cons in Hok as [Hsk Hok]. inversion_clear Hs as [|? ? Hs' Hall].
  rewrite bool_decide_false; [|intros ->; specialize (Hp s eq_refl); inversion Hp; lia].
  rewrite IH by (try done; by intros p [= <-]). rewrite decimal_digit by done. f_equal. by destruct l as [|s' l].
Qed.

Lemma until_body l rest : Forall serv_ok l → until 10 ((ids_body l ++ [10]) ++ rest) = Some (ids_body l, rest).
Proof.
  unfold serv_ok. induction 1 as [|s l Hs Hl IH]; [done|].
  assert (48 + s =? 10 = false) as E by (apply Z.eqb_neq; lia).
  destruct l as [|s' l]; cbn [ids_body app until] in *; rewrite E; [done|]. change (44 =? 10) with false. cbv iota.
  by rewrite IH.
Qed.

Lemma strtok_body l : Forall serv_ok l → strtok_all (ids_body l) [] = (λ s, [48 + s]) <$> l.
Proof.
  unfold serv_ok. induction 1 as [|s l Hs Hl IH]; [done|].
  assert (48 + s =? 0 = false) as E0 by (apply Z.eqb_neq; lia).
  assert (48 + s =? 44 = false) as E1 by (apply Z.eqb_neq; lia).
  destruct l as [|s' l]; cbn [ids_body strtok_all app] in *; rewrite E0, E1; [done|].
  change (44 =? 0) with false. change (44 =? 44) with true. cbv iota. cbn [fmap list_fmap]. by rewrite IH.
Qed.

Lemma atoi_digit s : serv_ok s → c_atoi [48 + s] = s.
Proof.
  unfold serv_ok, MAX_DSERV. intros Hs. rewrite c_atoi_digits by (constructor; [unfold is_digit_char; lia|constructor]).
  cbn [c_digits]. unfold c_isdigit. rewrite !(proj2 (Z.leb_le _ _)) by lia. cbn [andb]. rewrite sint_small; [lia|].
  unfold is_int. lia.
Qed.

Lemma length_ids_body l : (length (ids_body l) ≤ 2 * length l)%nat.
Proof. induction l as [|s [|s' l] IH]; cbn [ids_body length] in *; lia. Qed.

Lemma read_line_body l rest :
  Forall serv_ok l → (length l <= 100)%nat → read_line ((ids_body l ++ [10]) ++ rest) = Some (Some l, rest).
Proof.
  intros Hl Hn. unfold read_line. destruct ((ids_body l ++ [10]) ++ rest) eqn:E.
  { by apply (f_equal length) in E; rewrite !length_app in E; cbn in E; lia. }
  rewrite <-E, until_body by done. cbn [mbind option_bind]. pose proof (length_ids_body l).
  rewrite (proj2 (Z.leb_gt MAX_LINE_LEN _)) by (unfold MAX_LINE_LEN; lia).
  rewrite strtok_body by done. assert (c_atoi <$> ((λ s, [48 + s]) <$> l) = l) as ->; [|done].
  clear -Hl. induction Hl as [|s l Hs Hl IH]; [done|]. cbn [fmap list_fmap]. by rewrite IH, atoi_digit.
Qed.

Lemma sorted_NoDup l : StronglySorted Z.lt l → NoDup l.
Proof.
  induction 1 as [|x l Hs IH Hall]; constructor; [|done].
  intros Hx. rewrite Forall_forall in Hall. by apply (Z.lt_irrefl x), Hall.
Qed.
Lemma ids_ok_length l : ids_ok l → (length l <= 5)%nat.
Proof.
  intros (_ & Hok & Hs). change 5%nat with (length (seqZ 1 5)). apply submseteq_length, NoDup_submseteq; [by apply sorted_NoDup|].
  intros x Hx. rewrite Forall_forall in Hok. specialize (Hok x Hx). unfold serv_ok, MAX_DSERV in Hok.
  apply elem_of_seqZ. lia.
Qed.

(** a line of the program is that of some ids in order *)
Lemma gen_line_spec rands l stop rands' :
  Forall (Z.le 0) rands → gen_line rands = Some (l, stop, rands') →
  stop = false ∧ Forall (Z.le 0) rands' ∧
  ∃ ids s, l = ids_body ids ++ [10] ∧ ids_ok ids ∧ (length ids <= 5)%nat ∧ drawn rands s rands' ∧ line_of s ids.
Proof.
  unfold gen_line. destruct rands as [|r rands]; [done|]. intros [Hr Hrs]%Forall_cons Hg. cbn [mbind option_bind] in Hg.
  pose proof (rem_ok r Hr) as Hc. set (count := Z.rem r MAX_DSERV + 1) in *.
  destruct (count =? MAX_DSERV) eqn:E.
  - simplify_eq. split; [done|]. split; [done|]. exists [1; 2; 3; 4; 5], (list_to_set (seqZ 1 MAX_DSERV)).
    split; [done|]. split; [|split; [cbn; lia|split; [by apply drawn_all, Z.eqb_eq|split; [done|repeat constructor; lia]]]].
    split; [done|]. split; [repeat constructor; unfold MAX_DSERV; lia|]. repeat constructor; lia.
  - apply bind_Some in Hg as ([servs r1] & Hd & Hg). destruct (draw_spec _ _ _ _ _ Hrs (Forall_nil_2 _) NoDup_nil_2 Hd) as (Hok & Hnd & Hlen & Hr1).
    assert (Forall serv_ok (qsort mycompare servs)) as Hok2 by (by rewrite qsort_perm).
    rewrite write_ids_spec in Hg by (done || by apply qsort_sorted). simplify_eq.
    split; [done|]. split; [done|]. exists (qsort mycompare servs), (list_to_set servs). split; [done|].
    destruct (Z.to_nat count) as [|k] eqn:Ek; [unfold serv_ok in Hc; lia|].
    destruct (draw_used _ _ _ _ _ Hd) as (used & last & -> & Eset & Hni).
    rewrite (union_empty_l_L (ids_of used) : list_to_set [] ∪ ids_of used = ids_of used) in Eset, Hni.
    unfold serv_ok, MAX_DSERV in Hc. cbn [length] in Hlen.
    pose proof (Permutation_length (qsort_perm servs)) as Hq. split; [|split; [lia|split]].
    + split; [|split; [done|by apply qsort_sorted]]. intros En. rewrite En in Hq. cbn in Hq. lia.
    + rewrite Eset. apply drawn_some; [by apply Z.eqb_neq|done|].
      assert (size ({[id_of last]} ∪ ids_of used) = S (size (ids_of used))) as Hsz by (by rewrite size_union, size_singleton by set_solver).
      rewrite <-Eset, size_list_to_set in Hsz by done. change (id_of r) with count. lia.
    + split; [|by apply qsort_sorted]. apply list_to_set_perm_L, qsort_perm.
Qed.

Lemma gen_read_lines i rands file stop :
  Forall (Z.le 0) rands → gen_lines i rands = Some (file, stop) →
  stop = false ∧ (i <= length file)%nat ∧ ∃ ids sets, length ids = i ∧ Forall ids_ok ids ∧
    drawn_lines rands sets ∧ Forall2 line_of sets ids ∧ ∀ fuel, (i < fuel)%nat → read_lines fuel file = Some ids.
Proof.
  revert rands file stop. induction i as [|i IH]; intros rands file stop Hr Hg; cbn [gen_lines] in Hg.
  - simplify_eq. split; [done|]. split; [done|]. exists [], [].
    split_and!; [done|constructor|constructor|constructor|]. intros [|fuel] Hf; [lia|done].
  - apply bind_Some in Hg as ([[l stop1] r1] & Hl & Hg). cbn beta iota in Hg.
    destruct (gen_line_spec _ _ _ _ Hr Hl) as (-> & Hr1 & l0 & s0 & -> & Hok & Hlen & Hdr & Hl0).
    apply bind_Some in Hg as ([file1 stop2] & Hg1 & Hg). simplify_eq.
    destruct (IH _ _ _ Hr1 Hg1) as (-> & Hle & ids & sets & Hn & Hids & Hd & Hall & Hread). split; [done|].
    split; [rewrite !length_app; cbn [length]; lia|]. exists (l0 :: ids), (s0 :: sets).
    split; [cbn; lia|]. split; [by constructor|]. split; [by econstructor|]. split; [by constructor|]. intros [|fuel] Hf; [lia|]. cbn [read_lines].
    destruct Hok as (_ & Hok & _). rewrite read_line_body by (done || lia). cbn [mbind option_bind].
    rewrite Hread by lia. done.
Qed.

(** ** It ends, if [rand] goes on giving all numbers *)

(** [n] times in a row, each id comes up *)
Fixpoint fair (n : nat) (rands : list Z) : Prop :=
  match n with
  | O => True
  | S n => ∃ a b, rands = a ++ b ∧ (∀ s, serv_ok s → ∃ r, r ∈ a ∧ Z.rem r MAX_DSERV + 1 = s) ∧ fair n b
  end.

Lemma fair_app n a b : fair n b → fair n (a ++ b).
Proof.
  destruct n as [|n]; [done|]. intros (c & d & -> & Hc & Hd). exists (a ++ c), d. split; [by rewrite app_assoc|].
  split; [|done]. intros s Hs. destruct (Hc s Hs) as (r & Hr & E). exists r. split; [|done]. apply elem_of_app. by right.
Qed.
Lemma fair_le m n rands : (m <= n)%nat → fair n rands → fair m rands.
Proof.
  revert m rands. induction n as [|n IH]; intros m rands Hm Hf; [by replace m with 0%nat by lia|].
  destruct m as [|m]; [done|]. destruct Hf as (a & b & -> & Ha & Hb). exists a, b. split; [done|]. split; [done|]. apply IH; (done || lia).
Qed.

Lemma regen_fair n servs s0 rands :
  serv_ok s0 → s0 ∉ servs → fair (S n) rands → ∃ s rands', regen servs rands = Some (s, rands') ∧ fair n rands'.
Proof.
  intros Hs0 Hni (a & b & -> & Ha & Hb). destruct (Ha s0 Hs0) as (r0 & Hr0 & E0). clear Ha.
  induction a as [|r a IH]; [by apply elem_of_nil in Hr0|]. cbn [app regen]. destruct (existsb _ _) eqn:E.
  - apply IH. apply elem_of_cons in Hr0 as [->|]; [|done]. exfalso. rewrite E0 in E.
    apply existsb_exists in E as (x & Hx & ->%Z.eqb_eq). by apply Hni, list_elem_of_In.
  - eexists _, _. split; [done|]. by apply fair_app.
Qed.

(** fewer than five ids: there is another one *)
Lemma spare_id servs : (length servs < 5)%nat → ∃ s, serv_ok s ∧ s ∉ servs.
Proof.
  intros Hn. destruct (decide (Forall (λ s, s ∈ servs) (seqZ 1 5))) as [Hall|Hno].
  - exfalso. assert (length (seqZ 1 5) <= length servs)%nat as Hle; [|change (length (seqZ 1 5)) with 5%nat in Hle; lia].
    apply submseteq_length, NoDup_submseteq; [apply NoDup_seqZ|]. by rewrite Forall_forall in Hall.
  - apply not_Forall_Exists in Hno; [|apply _]. apply Exists_exists in Hno as (s & Hs & Hni). exists s.
    split; [|done]. apply elem_of_seqZ in Hs. unfold serv_ok, MAX_DSERV. lia.
Qed.

Lemma draw_fair k n servs rands :
  (length servs + k <= 5)%nat → fair (k + n) rands → ∃ servs' rands', draw k servs rands = Some (servs', rands') ∧ fair n rands'.
Proof.
  revert servs rands. induction k as [|k IH]; intros servs rands Hk Hf; cbn [draw]; [by eexists _, _|].
  destruct (spare_id servs) as (s0 & Hs0 & Hni); [lia|].
  destruct (regen_fair (k + n) servs s0 rands Hs0 Hni Hf) as (s & r' & -> & Hf'). cbn [mbind option_bind].
  apply IH; [rewrite length_app; cbn [length]; lia|done].
Qed.

Lemma gen_line_fair n rands :
  Forall (Z.le 0) rands → fair (5 + n) rands → ∃ l stop rands', gen_line rands = Some (l, stop, rands') ∧ fair n rands'.
Proof.
  intros Hr (a & b & -> & Ha & Hb). destruct (Ha 1) as (r0 & Hr0 & _); [unfold serv_ok, MAX_DSERV; lia|].
  destruct a as [|r a]; [by apply elem_of_nil in Hr0|]. cbn [app] in *. apply Forall_cons in Hr as [Hr _].
  unfold gen_line. cbn [mbind option_bind]. pose proof (rem_ok r Hr) as [_ Hc].
  destruct (Z.rem r MAX_DSERV + 1 =? MAX_DSERV) eqn:E.
  - eexists _, _, _. split; [done|]. apply fair_app, (fair_le n (4 + n)); [lia|done].
  - assert (Z.to_nat (Z.rem r MAX_DSERV + 1) <= 4)%nat as Hle by (zbool; unfold MAX_DSERV in *; lia).
    destruct (draw_fair (Z.to_nat (Z.rem r MAX_DSERV + 1)) n [] (a ++ b)) as (servs & r' & -> & Hf).
    { cbn [length]. lia. }
    { apply fair_app, (fair_le _ (4 + n)); [lia|done]. }
    cbn [mbind option_bind]. destruct (write_ids None (qsort mycompare servs)). by eexists _, _, _.
Qed.

Lemma gen_lines_fair i rands :
  Forall (Z.le 0) rands → fair (5 * i) rands → is_Some (gen_lines i rands).
Proof.
  revert rands. induction i as [|i IH]; intros rands Hr Hf; cbn [gen_lines]; [done|].
  destruct (gen_line_fair (5 * i) rands Hr) as (l & stop & r' & E & Hf'); [by replace (5 + 5 * i)%nat with (5 * S i)%nat by lia|].
  rewrite E. cbn [mbind option_bind]. destruct stop; [done|].
  destruct (IH r') as [[f st] E']; [by eapply gen_line_spec|done|]. by rewrite E'.
Qed.

Lemma read_drawn rands file stop ids :
  Forall (Z.le 0) rands → gen_random_id rands = Some (file, stop) → s_access_id_create (Some file) = Some (Some ids) →
  Forall ids_ok ids.
Proof.
  intros Hr Hg Hs. destruct (gen_read_lines _ _ _ _ Hr Hg) as (_ & Hle & ids' & _ & _ & Hok & _ & _ & Hread).
  unfold s_access_id_create in Hs. destruct file as [|c file]; [cbn in Hle; unfold MAX_COUNT in Hle; lia|].
  rewrite Hread in Hs by lia. cbn in Hs. by simplify_eq.
Qed.

(** C33. The client reads what was drawn.  The program ends if [rand] goes on
    giving all the ids; whatever [rand] returned, it has then written all its
    lines, and [s_access_id_create] reads the file as one line of ids for each
    set that was drawn: the ids of that set, all of them and no other, in
    strictly increasing order, never none, and all ids of data servers. *)
Theorem access_ids_roundtrip rands :
  Forall (Z.le 0) rands →
  (fair (5 * MAX_COUNT) rands → is_Some (gen_random_id rands)) ∧
  ∀ file stop, gen_random_id rands = Some (file, stop) →
    stop = false ∧ ∃ sets ids, drawn_lines rands sets ∧ length sets = MAX_COUNT ∧
      s_access_id_create (Some file) = Some (Some ids) ∧ Forall2 line_of sets ids ∧ Forall ids_ok ids.
Proof.
  intros Hr. split; [by apply gen_lines_fair|]. intros file stop Hg.
  destruct (gen_read_lines _ _ _ _ Hr Hg) as (-> & Hle & ids & sets & Hn & Hok & Hd & Hall & Hread). split; [done|].
  exists sets, ids. split; [done|]. split; [by rewrite (Forall2_length _ _ _ Hall)|]. split; [|done].
  unfold s_access_id_create. destruct file as [|c file]; [cbn in Hle; unfold MAX_COUNT in Hle; lia|].
  rewrite Hread by lia. done.
Qed.

(** ** Lines the reader does not expect *)

(** without a newline at the end, the file is read past its end *)
Lemma last_line_overrun : s_access_id_create (Some [49; 44; 50]) = None.
Proof. reflexivity. Qed.

(** a long line ends the file, and what follows is lost *)
Lemma long_line_ends_file l l' rest :
  Forall serv_ok l → (length l <= 100)%nat → (256 <= length l')%nat → 10 ∉ l' →
  s_access_id_create (Some (ids_body l ++ [10] ++ l' ++ [10] ++ rest)) = Some (Some [l]).
Proof.
  intros Hl Hn Hl' Hni.
  assert (until 10 (l' ++ [10] ++ rest) = Some (l', rest)) as Hu.
  { clear -Hni. induction l' as [|x l' IH]; [done|]. apply not_elem_of_cons in Hni as [Hx Hni]. cbn.
    rewrite (proj2 (Z.eqb_neq x 10)) by done. cbn in IH. by rewrite IH. }
  assert (read_line (l' ++ [10] ++ rest) = Some (None, l' ++ [10] ++ rest)) as Er.
  { unfold read_line. destruct (l' ++ [10] ++ rest) eqn:E'; [by destruct l'|]. rewrite Hu. cbn [mbind option_bind].
    rewrite (proj2 (Z.leb_le MAX_LINE_LEN _)) by (unfold MAX_LINE_LEN; lia). done. }
  assert (∀ n, read_lines (S (S n)) (ids_body l ++ [10] ++ l' ++ [10] ++ rest) = Some [l]) as Hall.
  { intros n. rewrite (app_assoc (ids_body l)). cbn [read_lines]. rewrite read_line_body by done. cbn [mbind option_bind].
    by rewrite Er. }
  unfold s_access_id_create. destruct (ids_body l ++ [10] ++ l' ++ [10] ++ rest) as [|c file] eqn:E.
  { apply (f_equal length) in E. rewrite !length_app in E. cbn in E. lia. }
  destruct file as [|c' file]; [apply (f_equal length) in E; rewrite !length_app in E; cbn in E; lia|].
  cbn [length]. by rewrite Hall.
Qed.
