(* ===== verification/LockClient.v ===== *)
(** * [test3/s_ud_client.c]: the client of the locks

    [s_ud_client_init] reads which data servers each request is for and sends
    the requests; [lock_callback] is called with [LOCK_END], when a request is
    granted, and again when the connection of the call is lost.  The requests
    are kept in [cl->locks] (any [Table]); a request is not written to after it
    is stored there, so the table holds the request itself. *)

From S2P Require Import Prelude SArray Packet Wire SHashSpec Cluster DLock ServGroup AccessId.
From stdpp Require Import sorting.
Local Open Scope Z_scope.

Record s_glock_client := GClient { gc_id : s_id; gc_tv : timeval }.

(** the statics of the file and [cl->locks] *)
Record ud_client {T : Type} := Ud {
  ud_gid : Z;
  ud_gcount : Z;
  ud_max_try : Z;
  ud_gtv : timeval;
  ud_access_id : list (list Z);
  ud_locks : T;
  ud_result : list timeval;
  ud_C : Z
}.
Arguments ud_client : clear implicits.
Arguments Ud {T}.

Section client.
Context {T : Type} `{HTb : !Table s_id s_glock_client T}.
Abbreviation state := (ud_client T).
Context (core_id : Z) (active : serv_id → bool).
Implicit Types (st : state) (pkt : s_packet).

Definition lock_fields (id : s_id) (D : list Z) : list field :=
  [Fint 0; Fint (Z.of_nat (length D)); Fint core_id; Fint (id_x id); Fint (id_y id)] ++
  concat ((λ d, [Fint d; Fint (id_x id); Fint (id_y id)]) <$> D).
Definition lock_size (D : list Z) : Z :=
  s_packet_size_for_int + s_packet_size_for_int + s_packet_size_for_int + s_packet_size_for_id +
  (s_packet_size_for_int + s_packet_size_for_id) * Z.of_nat (length D).

(** the call it makes, if any: the server and the packet.  [None]: there is no
    such line, or it is empty, and a null pointer is followed *)
Definition access_data st (now : timeval) : option (state * option (serv_id * out_pkt)) :=
  let gcount := ud_gcount st + 1 in
  let st := Ud (ud_gid st) gcount (ud_max_try st) (ud_gtv st) (ud_access_id st) (ud_locks st) (ud_result st) (ud_C st) in
  if ud_max_try st <? gcount then Some (st, None)
  else
    let id := SId core_id (ud_gid st) in
    let gid := sint (ud_gid st + 1) in
    let c := GClient id now in
    D ← array_at (ud_access_id st) ((core_id - 1) * 100 + gcount);
    pkt ← easy_pkt S_PKT_TYPE_LOCK_START (lock_size D) (lock_fields id D);
    d ← array_at D 0;
    let serv := Serv S_SERV_TYPE_D d in
    if active serv then
      Some (Ud gid gcount (ud_max_try st) (ud_gtv st) (ud_access_id st) (tbl_put (ud_locks st) id c) (ud_result st)
              (ud_C st), Some (serv, pkt))
    else
      Some (Ud gid gcount (ud_max_try st) (ud_gtv st) (ud_access_id st) (ud_locks st) (ud_result st) (ud_C st), None).

(** [for(i = 0; i < MaxTry; ++i) access_data(core)] at the end of
    [s_ud_client_init]; [now] gives the time of each call *)
Fixpoint access_loop (n : nat) st (now : nat → timeval) : option (state * list (serv_id * out_pkt)) :=
  match n with
  | O => Some (st, [])
  | S n' =>
      '(st, o) ← access_data st (now n);
      '(st, l) ← access_loop n' st now;
      Some (st, option_list o ++ l)
  end.

(** [config.conf] gives [MaxTry] and [ProcessNum]; [None]: [exit(0)], or a
    failure in [access_data].  [sync]: the time after [s_zoo_sync], which waits
    for the other processes *)
Definition s_ud_client_init (max_try process_num : Z) (access_file : option (list Z)) (sync : timeval)
    (now : nat → timeval) : option (option (state * list (serv_id * out_pkt))) :=
  if (max_try <=? 0) || (process_num <=? 0) then Some None
  else
    file ← s_access_id_create access_file;
    match file with
    | None => Some None
    | Some ids =>
        Some <$> access_loop (Z.to_nat max_try) (Ud 0 0 max_try sync ids (tbl_new 16) [] 0) now
    end.

(** [while(len <= i) s_array_push(g_result)]; the new cells are not set *)
Definition extend (result : list timeval) (i : Z) (junk : timeval) : list timeval :=
  result ++ replicate (Z.to_nat (i + 1) - length result) junk.

(** the handler of [LOCK_END], and the callback of the call.  As the callback
    of an answer it would take the request for the core ([None]); the data
    servers do not answer, so that [pkt] is null there.  [true]: the results are
    written to a file. *)
Definition lock_callback st (answer : bool) (pkt : option s_packet) (now junk : timeval) : option (state * bool) :=
  match pkt with
  | None => Some (st, false)
  | Some pkt =>
      if answer then None else
      match read_id pkt with
      | None => Some (st, false)
      | Some (id, _) =>
          match tbl_get (ud_locks st) id with
          | None => Some (st, false)
          | Some c =>
              let ret := timersub now (ud_gtv st) in
              if id_y id <? 0 then None else
              let result := <[Z.to_nat (id_y id) := ret]> (extend (ud_result st) (id_y id) junk) in
              let C := ud_C st + 1 in
              Some (Ud (ud_gid st) (ud_gcount st) (ud_max_try st) (ud_gtv st) (ud_access_id st) (ud_locks st) result C,
                    ud_max_try st <=? C)
          end
      end
  end.
End client.

(** ** What arrives *)

(** [q] is what the other end may get of the packet [o] *)
Definition arrives (o : out_pkt) (q : s_packet) : Prop :=
  pk_wf q ∧ pk_pos q = S_PKT_DATA_POS ∧
  match o with
  | OMsg fn fs => s_packet_get_fun q = fn ∧ pk_rest q = enc_fields fs
  | OEasy fn sz fs => s_packet_get_fun q = fn ∧ ∃ tl, pk_rest q = enc_fields fs ++ tl
  | OPkt fn p => s_packet_get_fun q = fn ∧ pk_rest q = pk_rest (with_pos p S_PKT_DATA_POS)
  end.

(** it is what [s_packet_create_from] makes of the bytes that were written *)
Lemma arrives_easy junk1 junk2 g1 g2 fn sz fs tl :
  pool_wf g1 → pool_wf g2 → is_uint fn → Forall field_ok fs → Z.of_nat (length (enc_fields fs)) <= sz <= S_PKT_MAX_SZ →
  ∃ p g1' q g2', s_packet_easy junk1 g1 fn sz = (Some p, g1') ∧
    (let p := write_fields p fs in
     let bytes := take (Z.to_nat (pk_size p)) (pk_data p) in
     s_packet_create_from junk2 g2 (bytes ++ tl) (Z.of_nat (length (bytes ++ tl))) = CF_packet q g2') ∧
    arrives (OEasy fn sz fs) q.
Proof.
  intros Hg1 Hg2 Hfn Hok Hsz.
  destruct (easy_write_spec junk1 g1 fn sz fs Hg1 Hok Hsz) as (p & g1' & tl' & E1 & Hg1' & (Hw & Hps & Hh & Hf & Hpl) & _).
  destruct (create_from_spec junk2 g2 (write_fields p fs) fn tl Hg2 Hw) as (q & g2' & E2 & _ & Hwq & Hpq & _ & Hr & Hfq);
    [unfold S_PKT_HEAD_SIZE in *; lia|done..|].
  exists p, g1', q, g2'. split; [done|]. split; [exact E2|]. split; [done|]. split; [done|].
  split; [by rewrite Hfq, uint_small|]. exists tl'. by rewrite Hr, Hpl.
Qed.

Section reading.
Implicit Types (p q : s_packet) (id : s_id) (D : list Z).

Lemma lock_fields_cons f fs : enc_fields (f :: fs) = enc_field f ++ enc_fields fs.
Proof. done. Qed.
Lemma lock_fields_app fs fs' : enc_fields (fs ++ fs') = enc_fields fs ++ enc_fields fs'.
Proof. unfold enc_fields. by rewrite map_app, concat_app. Qed.

Definition elem_fields id (d : Z) : list field := [Fint d; Fint (id_x id); Fint (id_y id)].

Lemma read_elems_fields cap i D p id tl :
  pk_wf p → Forall is_int D → is_int (id_x id) → is_int (id_y id) →
  sizeof_lock + sizeof_lock_elem * (i + Z.of_nat (length D)) <= cap →
  pk_rest p = enc_fields (concat (elem_fields id <$> D)) ++ tl →
  ∃ q, read_elems cap i (length D) p = Ok ((λ d, LElem d id false) <$> D, q).
Proof.
  revert i p. induction D as [|d D IH]; intros i p Hw HD Hx Hy Hc Hr; [by exists p|].
  apply Forall_cons in HD as [Hd HD]. cbn [fmap list_fmap concat] in Hr. unfold elem_fields at 1 in Hr.
  cbn [length] in *. change (concat (elem_fields id <$> D)) with (concat (elem_fields id <$> D)) in Hr.
  rewrite lock_fields_app, !lock_fields_cons in Hr. change (enc_fields []) with (@nil Z) in Hr.
  rewrite app_nil_r, <-!app_assoc in Hr. cbn [read_elems].
  destruct (read_int_field p d _ Hw Hd Hr) as (p1 & -> & Hw1 & Hr1). cbn [attempt mbind res_bind].
  rewrite within_ok by (unfold sizeof_lock, sizeof_lock_elem in *; lia). cbn [mbind res_bind].
  destruct (read_id_field p1 id _ Hw1 Hx Hy Hr1) as (p2 & -> & Hw2 & Hr2). cbn [attempt mbind res_bind].
  destruct (IH (i + 1) p2) as (q & ->); try done; [unfold sizeof_lock, sizeof_lock_elem in *; lia|]. by exists q.
Qed.

Lemma read_lock_fields core_id id D q tl :
  pk_wf q → is_int core_id → Forall is_int D → is_int (id_x id) → is_int (id_y id) →
  Z.of_nat (length D) < 1000000 →
  pk_rest q = enc_fields (lock_fields core_id id D) ++ tl →
  ∃ q', read_lock q = Ok (0, core_id, id, (λ d, LElem d id false) <$> D, q').
Proof.
  intros Hw Hc HD Hx Hy Hn Hr. unfold lock_fields in Hr. rewrite lock_fields_app, !lock_fields_cons in Hr.
  change (enc_fields []) with (@nil Z) in Hr. rewrite app_nil_r, <-!app_assoc in Hr. unfold read_lock.
  destruct (read_int_field q 0 _ Hw ltac:(unfold is_int; lia) Hr) as (p1 & -> & Hw1 & Hr1). cbn [attempt mbind res_bind].
  destruct (read_int_field p1 (Z.of_nat (length D)) _ Hw1 ltac:(unfold is_int; lia) Hr1) as (p2 & -> & Hw2 & Hr2). cbn [attempt mbind res_bind].
  destruct (read_int_field p2 _ _ Hw2 Hc Hr2) as (p3 & -> & Hw3 & Hr3). cbn [attempt mbind res_bind].
  destruct (read_id_field p3 id _ Hw3 Hx Hy Hr3) as (p4 & -> & Hw4 & Hr4). cbn [attempt mbind res_bind].
  assert (lock_cap (Z.of_nat (length D)) = sizeof_lock + sizeof_lock_elem * Z.of_nat (length D)) as Ec.
  { unfold lock_cap. apply uint_small. unfold is_uint, sizeof_lock, sizeof_lock_elem. lia. }
  rewrite within_ok by (rewrite Ec; unfold sizeof_lock_elem; lia). cbn [mbind res_bind]. rewrite Nat2Z.id.
  destruct (read_elems_fields (lock_cap (Z.of_nat (length D))) 0 D p4 id tl) as (q' & ->); try done; [by rewrite Ec|].
  by exists q'.
Qed.

(** ids in order make a chain in order *)
Lemma elems_sorted id D : StronglySorted Z.lt D → StronglySorted before ((λ d, LElem d id false) <$> D).
Proof.
  induction 1 as [|d D Hs IH Hall]; cbn; constructor; [done|]. apply Forall_fmap. eapply Forall_impl; [exact Hall|].
  by intros x Hx.
Qed.
End reading.

Section requests.
Context {T : Type} `{HTb : !Table s_id s_glock_client T}.
Implicit Types (st : ud_client T).

Lemma access_data_spec core_id active st now st' k o :
  access_data core_id active st now = Some (st', Some (k, o)) →
  ∃ D d, D ∈ ud_access_id st ∧ head D = Some d ∧ k = Serv S_SERV_TYPE_D d ∧ active k = true ∧
    o = OEasy S_PKT_TYPE_LOCK_START (lock_size D) (lock_fields core_id (SId core_id (ud_gid st)) D).
Proof.
  unfold access_data. intros Hs. destruct (_ <? _); [done|].
  apply bind_Some in Hs as (D & HD & Hs). apply bind_Some in Hs as (pkt & Hp & Hs). apply bind_Some in Hs as (d & Hd & Hs).
  destruct (active _) eqn:Ea; [|done]. simplify_eq. exists D, d.
  unfold easy_pkt in Hp. destruct (_ <? _); [done|]. simplify_eq. unfold array_at in *. repeat case_decide; try done.
  split_and!; try done; [by eapply list_elem_of_lookup_2|by destruct D].
Qed.

(** client 10, at its hundredth request, is past a file of a thousand lines *)
Lemma line_past_the_file active st now :
  length (ud_access_id st) = 1000%nat → ud_gcount st = 99 → 100 <= ud_max_try st → access_data 10 active st now = None.
Proof.
  intros Hl Hg Hm. unfold access_data. cbn [ud_max_try ud_access_id ud_gid].
  rewrite (proj2 (Z.ltb_ge _ _)) by lia. rewrite Hg.
  unfold array_at. case_decide; [|done]. rewrite lookup_ge_None_2; [done|]. rewrite Hl. vm_compute. lia.
Qed.
(** an answer to the call would be taken for an event *)
Lemma callback_takes_request_for_core st pkt now junk : lock_callback st true (Some pkt) now junk = None.
Proof. done. Qed.

(** The client and the data servers agree.  Whatever [access_data] sends,
    for a file of ids of data servers in order, arrives at the first of these
    servers and is decoded there as a request of this client, at its first
    place, for just these servers, in increasing order: what the exclusion of
    the locks needs. *)
Theorem request_decodes core_id active st now st' k o q :
  is_int core_id → is_int (ud_gid st) → Forall ids_ok (ud_access_id st) →
  access_data core_id active st now = Some (st', Some (k, o)) → arrives o q →
  ∃ D q', D ∈ ud_access_id st ∧ k = Serv S_SERV_TYPE_D (default 0 (head D)) ∧
    read_lock q = Ok (0, core_id, SId core_id (ud_gid st), (λ d, LElem d (SId core_id (ud_gid st)) false) <$> D, q') ∧
    pkt_sorted q.
Proof.
  intros Hc Hg Hids Hs (Hw & Hpos & Ha). apply access_data_spec in Hs as (D & d & HD & Hd & -> & _ & ->).
  destruct Ha as [_ [tl Hr]]. rewrite Forall_forall in Hids. destruct (Hids D HD) as (Hne & Hok & Hsort).
  pose proof (ids_ok_length D (Hids D HD)) as Hn.
  destruct (read_lock_fields core_id (SId core_id (ud_gid st)) D q tl) as (q' & Eq); try done; [|lia|].
  { eapply Forall_impl; [exact Hok|]. unfold serv_ok, MAX_DSERV, is_int. lia. }
  exists D, q'. rewrite Hd. split; [done|]. split; [done|]. split; [done|].
  intros curr cl id elems p Ep. rewrite Eq in Ep. simplify_eq. by apply elems_sorted.
Qed.
End requests.
