(* ===== verification/LockNet.v ===== *)
(** * The data servers and their clients as one system

    The servers run the handlers of [core/s_core_dserv.c] through their table
    ([dserv_handlers]), the clients those of [test3/s_ud_client.c].  A message
    that is under way may be handled at any time, in any order.  On a network
    that is not reliable it may also be lost, and what is connected may be
    different at each step.  Answers to clients and messages of meta servers
    are left out. *)

From S2P Require Import Prelude SArray Packet Wire SHashSpec Cluster DLock ServGroup Core AccessId LockClient.
From stdpp Require Import sorting.
Local Open Scope Z_scope.

Record message := Msg { ms_to : serv_id; ms_from : serv_id; ms_pkt : s_packet }.

(** what a handler sends, in order *)
Definition sends (effs : list effect) : list (serv_id * out_pkt) :=
  omap (λ e, match e with Send to o => Some (to, o) | _ => None end) effs.

Section network.
Context {TK TD TC : Type}.
Context `{HK : !Table s_id nat TK, HKL : !TableLaws s_id nat TK, HD : !Table s_id (Z * list Z) TD,
          HC : !Table s_id s_glock_client TC, HCL : !TableLaws s_id s_glock_client TC}.
Abbreviation dserver := (s_dserver TK TD).
Abbreviation client := (ud_client TC).

Record network := Net {
  nw_servs : gmap Z dserver;
  nw_clients : gmap Z client;
  nw_flight : list message
}.
Implicit Types (net : network) (ds : dserver) (cl : client) (m : message).

(** the call through the table of a data server; a message without a handler
    is dropped *)
Definition serv_handle (core_id : Z) (active : serv_id → bool) (junk : Z) ds (from : serv_id) (pkt : s_packet)
    : option (dserver * list effect) :=
  match (list_to_map dserv_handlers : gmap (Z * Z) handler) !! (sv_type from, s_packet_get_fun pkt) with
  | Some dserv_lock => s_core_dserv_lock core_id active junk ds from pkt
  | Some dserv_lock_unlock => s_core_dserv_lock_unlock active junk ds from pkt
  | Some dserv_push_data => Some (s_core_dserv_push_data ds from pkt, [])
  | Some dserv_write => Some (s_core_dserv_write ds from pkt)
  | _ => Some (ds, [])
  end.

(** the messages that the sends of server [k] become *)
Definition flows (k : Z) (effs : list effect) (ms : list message) : Prop :=
  Forall2 (λ s m, ms_to m = s.1 ∧ ms_from m = Serv S_SERV_TYPE_D k ∧ arrives s.2 (ms_pkt m)) (sends effs) ms.

(** a message is handled *)
Inductive handled (reliable : Prop) : network → network → Prop :=
| handled_serve ss cs fl fl' m ms k ds ds' active junk effs :
    fl ≡ₚ m :: fl' → ms_to m = Serv S_SERV_TYPE_D k → ss !! k = Some ds →
    (reliable → ∀ s, active s = true) →
    serv_handle k active junk ds (ms_from m) (ms_pkt m) = Some (ds', effs) → flows k effs ms →
    handled reliable (Net ss cs fl) (Net (<[k := ds']> ss) cs (ms ++ fl'))
| handled_granted ss cs fl fl' m c cl cl' now junk b :
    fl ≡ₚ m :: fl' → ms_to m = Serv S_SERV_TYPE_C c → cs !! c = Some cl →
    (sv_type (ms_from m), s_packet_get_fun (ms_pkt m)) = (S_SERV_TYPE_D, S_PKT_TYPE_LOCK_END) →
    lock_callback cl false (Some (ms_pkt m)) now junk = Some (cl', b) →
    handled reliable (Net ss cs fl) (Net ss (<[c := cl']> cs) fl')
| handled_ignored ss cs fl fl' m c cl :                     (* a client has no other handler *)
    fl ≡ₚ m :: fl' → ms_to m = Serv S_SERV_TYPE_C c → cs !! c = Some cl →
    (sv_type (ms_from m), s_packet_get_fun (ms_pkt m)) ≠ (S_SERV_TYPE_D, S_PKT_TYPE_LOCK_END) →
    handled reliable (Net ss cs fl) (Net ss cs fl').

Inductive nstep (reliable : Prop) : network → network → Prop :=
| nstep_request ss cs fl c cl cl' active now k o q :
    cs !! c = Some cl → access_data c active cl now = Some (cl', Some (k, o)) → arrives o q →
    nstep reliable (Net ss cs fl) (Net ss (<[c := cl']> cs) (Msg k (Serv S_SERV_TYPE_C c) q :: fl))
| nstep_no_request ss cs fl c cl cl' active now :
    cs !! c = Some cl → access_data c active cl now = Some (cl', None) →
    nstep reliable (Net ss cs fl) (Net ss (<[c := cl']> cs) fl)
| nstep_other ss cs fl c to q :                             (* a client sends anything else *)
    s_packet_get_fun q ≠ S_PKT_TYPE_LOCK_START →
    nstep reliable (Net ss cs fl) (Net ss cs (Msg to (Serv S_SERV_TYPE_C c) q :: fl))
| nstep_handled net net' : handled reliable net net' → nstep reliable net net'
| nstep_lost ss cs fl fl' m : ¬ reliable → fl ≡ₚ m :: fl' → nstep reliable (Net ss cs fl) (Net ss cs fl').

(** servers [ks], clients [cs], all with the same file of ids *)
Definition net_init (ks cs : list Z) (max_try : Z) (tv : timeval) (ids : list (list Z)) : network :=
  Net (list_to_map ((λ k, (k, dserv_init)) <$> ks)) (list_to_map ((λ c, (c, Ud 0 0 max_try tv ids (tbl_new 16) [] 0)) <$> cs)) [].
End network.
Arguments network : clear implicits.

(** ** What is under way *)

Definition for_lock m : Prop :=
  (sv_type (ms_from m), s_packet_get_fun (ms_pkt m)) = (S_SERV_TYPE_C, S_PKT_TYPE_LOCK_START) ∨
  (sv_type (ms_from m), s_packet_get_fun (ms_pkt m)) = (S_SERV_TYPE_D, S_PKT_TYPE_LOCK_NEXT).
#[export] Instance for_lock_dec m : Decision (for_lock m).
Proof. unfold for_lock. apply _. Defined.

(** a request at the place of server [k] *)
Definition lock_at (k : Z) (q : s_packet) : Prop :=
  pk_wf q ∧ pk_pos q = S_PKT_DATA_POS ∧
  ∃ curr cl id elems q' e, read_lock q = Ok (curr, cl, id, elems, q') ∧ 0 <= curr ∧
    array_at elems curr = Some e ∧ le_serv_id e = k ∧ StronglySorted before elems.
Definition msg_ok m : Prop := for_lock m → ∃ k, ms_to m = Serv S_SERV_TYPE_D k ∧ lock_at k (ms_pkt m).

(** a lock as it was read: what can still be forwarded *)
Definition held (lk : s_core_lock) : Prop :=
  ∃ pkt curr cl id elems q, pk_wf pkt ∧ pk_pos pkt = S_PKT_DATA_POS ∧
    read_lock pkt = Ok (curr, cl, id, elems, q) ∧ 0 <= curr ∧ StronglySorted before elems ∧
    lk = new_lock curr cl id elems q.

Section packets.
Implicit Types (p q pkt : s_packet).

Lemma read_lock_arrives p q curr cl id elems r :
  pk_wf p → pk_wf q → pk_rest q = pk_rest p → read_lock p = Ok (curr, cl, id, elems, r) →
  ∃ r', read_lock q = Ok (curr, cl, id, elems, r').
Proof.
  intros Hp Hq He Hr. pose proof Hr as (n & p1 & _ & _ & _ & E1 & _)%read_lock_inv.
  destruct (read_int_congr p q curr p1) as (q1 & Eq1 & He1); [by split_and!|done|].
  destruct (read_lock_congr p q _ _ _ _ _ _ _ _ Hr E1 Eq1 He1) as (r' & Er & _). by exists r'.
Qed.

Lemma forwarded_wf pkt p n curr cl id elems q :
  pk_wf pkt → pk_pos pkt = S_PKT_DATA_POS → pk_data p = pk_data pkt → pk_size p = pk_size pkt → pk_wf p →
  read_lock pkt = Ok (curr, cl, id, elems, q) → pk_wf (with_pos (forwarded p n) S_PKT_DATA_POS).
Proof.
  intros Hw Hpos Hd Hs Hwp Hr. apply (forwarded_bytes pkt p n); try done.
  pose proof Hr as (k & p1 & _ & _ & _ & E1 & _)%read_lock_inv.
  unfold read_int, s_packet_read_int in E1. destruct (_ <? _) eqn:Hsz; [done|]. zbool. by rewrite Hpos in Hsz.
Qed.

(** the request that a server passes on is the next server's *)
Lemma held_forwarded lk k q :
  held lk → lk_next_pos lk < lk_nserv lk → k = lk_next_serv lk →
  arrives (OPkt S_PKT_TYPE_LOCK_NEXT (forwarded (lk_pkt lk) (lk_next_pos lk))) q →
  lock_at k q ∧ s_packet_get_fun q = S_PKT_TYPE_LOCK_NEXT ∧
  ∃ r, read_lock q = Ok (lk_next_pos lk, lk_client_id lk, lk_id lk, lk_elems lk, r).
Proof.
  intros (pkt & curr & cl & id & elems & q0 & Hw & Hpos & Hr & Hc & Hso & ->) Hlt -> (Hwq & Hpq & Hfq & Hrq).
  unfold new_lock, lk_nserv in *. cbn [lk_pkt lk_next_pos lk_client_id lk_id lk_elems lk_next_serv] in *.
  destruct (read_lock_wf _ _ _ _ _ _ Hw Hr) as (Hwq0 & Hd & Hs).
  destruct (forwarded_read pkt (s_packet_grab q0) curr cl id elems q0) as [_ [r Er]]; try done; [lia|].
  destruct (read_lock_arrives _ q _ _ _ _ _ (forwarded_wf pkt (s_packet_grab q0) (curr + 1) _ _ _ _ _ Hw Hpos Hd Hs Hwq0 Hr) Hwq Hrq Er) as [r' Er'].
  assert (∃ e, array_at elems (curr + 1) = Some e) as [e He].
  { unfold array_at. rewrite decide_True by lia. apply lookup_lt_is_Some. lia. }
  rewrite He. split; [|split; [done|by exists r']]. split; [done|]. split; [done|].
  exists (curr + 1), cl, id, elems, r', e. split_and!; (done || lia).
Qed.
Lemma held_pos lk : held lk → 0 < lk_next_pos lk ∧ is_int (id_x (lk_id lk)) ∧ is_int (id_y (lk_id lk)).
Proof.
  intros (pkt & curr & cl & id & elems & q & Hw & _ & Hr & Hc & _ & ->). unfold new_lock. cbn [lk_next_pos lk_id].
  split; [lia|]. apply read_lock_inv in Hr as (n & p1 & p2 & p3 & p4 & E1 & E2 & E3 & E4 & _).
  destruct (read_int_wf _ _ _ Hw E1) as [H1 _]. destruct (read_int_wf _ _ _ H1 E2) as [H2 _].
  destruct (read_int_wf _ _ _ H2 E3) as [H3 _]. unfold read_id in E4.
  destruct (read_int p3) as [[x q1]|] eqn:Ex; [|done]. cbn [mbind option_bind] in E4.
  destruct (read_int q1) as [[y q2]|] eqn:Ey; [|done]. cbn [mbind option_bind] in E4. simplify_eq.
  destruct (read_int_wf _ _ _ H3 Ex) as [H4 ?]. by destruct (read_int_wf _ _ _ H4 Ey).
Qed.

(** what can be sent arrives as something *)
Lemma arrives_id fn id :
  is_uint fn → is_int (id_x id) → is_int (id_y id) → ∃ q, arrives (OMsg fn (id_fields id)) q.
Proof.
  intros Hfn Hx Hy.
  destruct (start_write_spec 0 g_free_init fn (id_fields id) g_free_init_wf) as (p & g & _ & Hg & (Hw & Hps & Hh & Hf & Hpl) & _ & _);
    [apply Forall_cons; split; [done|]; by apply Forall_singleton|done|].
  destruct (create_from_spec 0 g p fn [] Hg Hw) as (q & g' & _ & _ & Hwq & Hpq & _ & Hr & Hfq);
    [rewrite Hps; change (Z.of_nat (length (enc_fields (id_fields id)))) with 8; done|done..|].
  exists q. split; [done|]. split; [done|]. split; [by rewrite Hfq, uint_small|]. by rewrite Hr, Hpl.
Qed.
Lemma arrives_forwarded lk :
  held lk → ∃ q, arrives (OPkt S_PKT_TYPE_LOCK_NEXT (forwarded (lk_pkt lk) (lk_next_pos lk))) q.
Proof.
  intros (pkt & curr & cl & id & elems & q0 & Hw & Hpos & Hr & Hc & Hso & ->). unfold new_lock. cbn [lk_pkt lk_next_pos].
  destruct (read_lock_wf _ _ _ _ _ _ Hw Hr) as (Hwq0 & Hd & Hs).
  exists (with_pos (forwarded (s_packet_grab q0) (curr + 1)) S_PKT_DATA_POS).
  split; [by apply (forwarded_wf pkt _ _ curr cl id elems q0)|]. split; [done|]. split; [|done].
  pose proof Hr as (k & p1 & _ & _ & _ & E1 & _)%read_lock_inv.
  unfold read_int, s_packet_read_int in E1. destruct (_ <? _) eqn:Hsz; [done|]. zbool. rewrite Hpos in Hsz.
  by destruct (forwarded_bytes pkt (s_packet_grab q0) (curr + 1)) as (_ & _ & Hf).
Qed.
End packets.

(** ** The servers *)
Section servers.
Context {TK TD TC : Type}.
Context `{HK : !Table s_id nat TK, HKL : !TableLaws s_id nat TK, HD : !Table s_id (Z * list Z) TD,
          HC : !Table s_id s_glock_client TC, HCL : !TableLaws s_id s_glock_client TC}.
Abbreviation dserver := (s_dserver TK TD).
Implicit Types (ds : dserver) (m : message) (effs : list effect) (lk : s_core_lock).

(** the messages that a server makes of its effects *)
Definition outs_ok (k : Z) effs : Prop := (∃ ms, flows k effs ms) ∧ ∀ ms, flows k effs ms → Forall msg_ok ms.

Lemma sends_app effs effs' : sends (effs ++ effs') = sends effs ++ sends effs'.
Proof using Type. apply omap_app. Qed.

Lemma flows_app k effs effs' ms :
  flows k (effs ++ effs') ms ↔ ∃ ms1 ms2, ms = ms1 ++ ms2 ∧ flows k effs ms1 ∧ flows k effs' ms2.
Proof using Type.
  unfold flows. rewrite sends_app. split.
  - intros (ms1 & ms2 & H1 & H2 & ->)%Forall2_app_inv_l. eauto.
  - intros (ms1 & ms2 & -> & H1 & H2). by apply Forall2_app.
Qed.

Lemma outs_ok_app k effs effs' : outs_ok k effs → outs_ok k effs' → outs_ok k (effs ++ effs').
Proof using Type.
  intros [[ms1 E1] H1] [[ms2 E2] H2]. split; [exists (ms1 ++ ms2); apply flows_app; eauto 6|].
  intros ms (m1 & m2 & -> & ? & ?)%flows_app. apply Forall_app. eauto.
Qed.

Lemma outs_ok_Forall k effs :
  (∀ to o, (to, o) ∈ sends effs → ∃ q, arrives o q) →
  (∀ to o q, (to, o) ∈ sends effs → arrives o q → msg_ok (Msg to (Serv S_SERV_TYPE_D k) q)) → outs_ok k effs.
Proof using Type.
  unfold outs_ok, flows. intros He Hok. split.
  - clear Hok. induction (sends effs) as [|[to o] l IH]; [by exists []|]. destruct (He to o) as [q Hq]; [left|].
    destruct IH as [ms Hms]; [intros to' o' Hin; apply (He to'); by right|].
    exists (Msg to (Serv S_SERV_TYPE_D k) q :: ms). by constructor.
  - clear He. induction (sends effs) as [|[to o] l IH]; intros ms Hf; inversion Hf as [|? [t f q] ? ? (E1 & E2 & E3) Hf']; simplify_eq; [constructor|].
    cbn in *. subst. constructor; [apply (Hok _ o); [left|done]|]. apply IH; [|done]. intros to' o' q' Hin. apply Hok. by right.
Qed.
Lemma outs_ok_none k effs : sends effs = [] → outs_ok k effs.
Proof using Type. intros E. apply outs_ok_Forall; rewrite E; by intros ? ? *?%elem_of_nil. Qed.

(** what is sent to the servers before *)
Lemma unlock_sends active lk to o :
  (to, o) ∈ sends (ilock_unlock active lk) → o = OMsg S_PKT_TYPE_LOCK_UNLOCK (id_fields (lk_id lk)).
Proof using Type.
  unfold sends, ilock_unlock. destruct (_ <=? 1); [by intros ?%elem_of_nil|].
  intros (ef & Hin & He)%list_elem_of_omap. destruct ef; simplify_eq.
  apply list_elem_of_omap in Hin as (e & _ & He). destruct (active _); [by simplify_eq|done].
Qed.

Lemma take_outs k active ds p lk ds' effs :
  ds_heap ds !! p = Some lk → held lk → ilock_take_done active ds p = Some (ds', effs) → outs_ok k effs.
Proof using Type.
  intros Hlk Hh. unfold ilock_take_done. rewrite Hlk. cbn [mbind option_bind].
  destruct (held_pos lk Hh) as (_ & Hx & Hy).
  assert (outs_ok k (ilock_unlock active lk)) as Hu.
  { apply outs_ok_Forall; [intros to o ->%unlock_sends; by apply arrives_id|].
    intros to o q ->%unlock_sends (_ & _ & Hf & _) [[=]|[= Hn]]. cbn in Hn. by rewrite Hf in Hn. }
  unfold ilock_next. destruct (_ <=? _) eqn:El; [|fold (forwarded (lk_pkt lk) (lk_next_pos lk))]; (destruct (active _) eqn:Ea; cbn [negb Z.eqb];
    intros [= <- <-]; [|by rewrite app_nil_r]); apply outs_ok_app; try done; apply outs_ok_Forall; cbn;
    intros to o; [| intros q | | intros q]; intros [= -> ->]%list_elem_of_singleton.
  - by apply arrives_id.
  - intros Hq [[=]|[= Hn]]. destruct Hq as (_ & _ & Hf & _). cbn in Hn. by rewrite Hf in Hn.
  - by apply arrives_forwarded.
  - intros Hq _. zbool. eexists. split; [done|]. by apply (held_forwarded lk).
Qed.

Definition waits_held ds : Prop := ∀ w lk, w ∈ ds_waiting ds → ds_heap ds !! w = Some lk → held lk.

Lemma taken_waits ds p lk ds' : p ∉ listed ds → taken ds p lk ds' → waits_held ds → waits_held ds'.
Proof using Type.
  intros Hp Ht Hw w lw Hin Hlw. rewrite (tk_waiting _ _ _ _ Ht) in Hin. apply (Hw w); [done|].
  rewrite <-(tk_frame _ _ _ _ Ht); [done|]. intros ->. apply Hp, elem_of_app. by right.
Qed.

Lemma wake_outs k active junk fuel ds ds' effs :
  base ds → waits_held ds → wake_loop active junk fuel ds = Some (ds', effs) → outs_ok k effs ∧ waits_held ds'.
Proof using HKL HD.
  revert ds ds' effs. induction fuel as [|fuel IH]; intros ds ds' effs Hb Hw Hl; [done|]. cbn [wake_loop] in Hl.
  destruct (find_free_spec junk ds (ds_waiting ds) Hb) as (r & Er & Hr); [done|]. rewrite Er in Hl. cbn [mbind option_bind] in Hl.
  destruct r as [p|]; [|simplify_eq; split; [by apply outs_ok_none|done]].
  destruct Hr as [Hp _]. destruct (unlink_waiting ds p Hb Hp) as (Hb1 & _ & Hpl & _).
  destruct (b_heap _ Hb p) as [lk Hlk]; [apply elem_of_app; by right|].
  assert (waits_held (unlink ds p)) as Hw1 by (intros w lw [Hin _]%elem_of_filter_ne; by apply Hw).
  destruct (take_done_spec active (unlink ds p) p lk Hb1 Hpl Hlk) as (ds2 & e2 & E2 & Ht). rewrite E2 in Hl.
  cbn [mbind option_bind] in Hl. apply bind_Some in Hl as ([ds3 e3] & E3 & Hl). simplify_eq.
  destruct (IH ds2 ds' e3) as [Ho3 Hw3]; [apply Ht|by apply (taken_waits (unlink ds p) p lk)|done|].
  split; [|done]. apply outs_ok_app; [|done]. apply (take_outs k active (unlink ds p) p lk ds2); [done|by apply (Hw p)|done].
Qed.

Record dserv_ok (k : Z) ds : Prop := {
  do_base : base ds;
  do_excl : excl 0 ds;
  do_wakeful : wakeful 0 ds;
  do_waits : waits_held ds
}.

(** a data server has a handler for these only *)
Lemma dserv_row t fn h :
  (list_to_map dserv_handlers : gmap (Z * Z) handler) !! (t, fn) = Some h →
  (h = dserv_lock ∧ ((t, fn) = (S_SERV_TYPE_C, S_PKT_TYPE_LOCK_START) ∨ (t, fn) = (S_SERV_TYPE_D, S_PKT_TYPE_LOCK_NEXT))) ∨
  (h = dserv_lock_unlock ∧ (t, fn) = (S_SERV_TYPE_D, S_PKT_TYPE_LOCK_UNLOCK)) ∨
  h = dserv_create_metadata ∨ h = dserv_push_data ∨ h = dserv_write.
Proof using Type.
  intros Hk%elem_of_list_to_map_2. unfold dserv_handlers in Hk.
  repeat (apply elem_of_cons in Hk as [[= -> -> ->]|Hk]; [tauto|]). by apply elem_of_nil in Hk.
Qed.

Lemma push_ok k ds from pkt : dserv_ok k ds → dserv_ok k (s_core_dserv_push_data ds from pkt).
Proof using Type.
  intros [Hb Hx Hk Hw]. destruct (push_state ds from pkt) as [t ->].
  split; [by destruct Hb; split|by destruct Hx; split|exact Hk|exact Hw].
Qed.

Lemma lock_held k q curr cl id elems r :
  lock_at k q → read_lock q = Ok (curr, cl, id, elems, r) →
  held (new_lock curr cl id elems r) ∧ pkt_sorted q ∧ ∃ e, array_at elems curr = Some e ∧ le_serv_id e = k.
Proof using Type.
  intros (Hw & Hpos & curr' & cl' & id' & elems' & r' & e & Hr & Hc & He & Hk & Hs) Hr'. rewrite Hr in Hr'. simplify_eq.
  split; [by exists q, curr, cl, id, elems, r|]. split; [|by exists e]. intros c0 cl0 id0 el0 q0 Hr0. rewrite Hr in Hr0. by simplify_eq.
Qed.

Lemma serve_lock k active junk ds from pkt :
  dserv_ok k ds → lock_at k pkt →
  ∃ ds' effs, s_core_dserv_lock k active junk ds from pkt = Some (ds', effs) ∧ dserv_ok k ds' ∧ outs_ok k effs.
Proof using HKL HD.
  intros [Hb Hx Hwk Hw] Hl. pose proof Hl as (_ & _ & curr & cl & id & elems & r & e & Hr & _).
  destruct (lock_held k pkt curr cl id elems r Hl Hr) as (Hh & Hs & e' & He & Hk).
  set (lk := new_lock curr cl id elems r) in *.
  destruct (dserv_lock_spec k active junk ds from pkt curr cl id elems r e' Hb Hr He Hk) as (ds' & effs & E & Hb' & _).
  exists ds', effs. split; [done|].
  assert (dstep k pkt_sorted any ds ds') as Hstep by by eapply dstep_lock.
  assert (excl 0 ds') as Hx' by by apply (dstep_excl k any ds).
  assert (wakeful 0 ds') as Hwk' by by apply (dstep_wakeful k pkt_sorted any ds).
  destruct (with_lock_spec junk ds lk Hb) as (Hb1 & Hpl & Hlk1 & Hfr & _).
  assert (waits_held (with_lock ds lk)) as Hw1.
  { intros w lw Hin Hlw. apply (Hw w lw Hin). by rewrite <-(proj2 (Hfr w ltac:(apply elem_of_app; by right))). }
  destruct (dserv_lock_eq k active junk ds from pkt curr cl id elems r e' Hb Hr He Hk) as [[_ E']|[_ E']];
    rewrite E in E'; fold lk in E'.
  - injection E' as -> ->. split; [|by apply outs_ok_none]. split; [done..|].
    intros w lw [Hin| ->%list_elem_of_singleton]%elem_of_app Hlw; [by apply (Hw1 w)|].
    change (ds_heap (with_lock ds lk) !! fresh_ptr ds = Some lw) in Hlw. rewrite Hlk1 in Hlw. by simplify_eq.
  - destruct (take_done_spec active (with_lock ds lk) (fresh_ptr ds) lk Hb1 Hpl Hlk1) as (ds2 & e2 & E2 & Ht).
    rewrite E2 in E'. injection E' as -> ->. split; [split; [done..|by apply (taken_waits (with_lock ds lk) (fresh_ptr ds) lk)]|].
    by apply (take_outs k active (with_lock ds lk) (fresh_ptr ds) lk ds2).
Qed.

Lemma serve_unlock k active junk ds from pkt :
  dserv_ok k ds →
  ∃ ds' effs, s_core_dserv_lock_unlock active junk ds from pkt = Some (ds', effs) ∧ dserv_ok k ds' ∧ outs_ok k effs.
Proof using HKL HD.
  intros [Hb Hx Hwk Hw]. destruct (dserv_unlock_spec active junk ds from pkt Hb) as (ds' & effs & E & Hb' & Hwk' & Hx' & _).
  exists ds', effs. split; [done|]. assert (wakeful 0 ds') as Hwk0 by (by apply (wakeful_junk junk), Hwk', (wakeful_junk 0)). assert (excl 0 ds') as Hx0 by (by apply (excl_junk junk), Hx', (excl_junk 0)).
  revert E. unfold s_core_dserv_lock_unlock.
  destruct (read_id pkt) as [[id p']|]; [|intros [= <- <-]; split; [by split|by apply outs_ok_none]].
  rewrite tbl_get_ok by apply Hb. destruct (tbl_map (ds_locks ds) !! id) as [p|] eqn:Hid; [|intros [= <- <-]; split; [by split|by apply outs_ok_none]].
  destruct (b_locks _ Hb id p Hid) as [Hp (lk & Hlk & Eid)]. rewrite Hlk. cbn [mbind option_bind].
  destruct (mark_loop (sv_id from) true (lk_elems lk)) as [finish elems] eqn:Em.
  replace (Lock _ _ _ _ _ elems) with (marked (sv_id from) lk) by (unfold marked; by rewrite Em).
  set (ds1 := set_heap ds (<[p := marked (sv_id from) lk]> (ds_heap ds))).
  set (ds2 := if finish then _ else ds1). intros E.
  assert (base ds1) as Hb1 by by apply (update_base ds p lk).
  assert (p ∉ ds_waiting ds) as Hpw.
  { intros Hin. apply (b_nodup _) in Hb. apply NoDup_app in Hb as (_ & Hd & _). by apply (Hd p). }
  assert (waits_held ds1) as Hw1.
  { intros w lw Hin Hlw. apply (Hw w lw Hin). cbn in Hlw. rewrite lookup_insert_ne in Hlw; [done|]. by intros ->. }
  assert (base ds2 ∧ waits_held ds2) as [Hb2 Hw2].
  { unfold ds2. destruct finish; [|done]. split.
    - apply (finished_base junk ds1 p (marked (sv_id from) lk) id); [done..|]. cbn. by rewrite lookup_insert_eq.
    - intros w lw [Hin Hne]%elem_of_filter_ne Hlw. cbn in Hlw. rewrite lookup_delete_ne in Hlw by done. by apply (Hw1 w). }
  destruct (wake_outs k active junk _ ds2 ds' effs Hb2 Hw2 E). split; [by split|done].
Qed.

(** any message is handled: no assertion fails *)
Lemma serve_ok k active junk ds m :
  dserv_ok k ds → msg_ok m → ms_to m = Serv S_SERV_TYPE_D k →
  ∃ ds' effs, serv_handle k active junk ds (ms_from m) (ms_pkt m) = Some (ds', effs) ∧ dserv_ok k ds' ∧ outs_ok k effs.
Proof using HKL HD.
  intros Hd Hm Hto. unfold serv_handle.
  destruct (_ !! _) as [h|] eqn:E; [|exists ds, []; split_and!; try done; by apply outs_ok_none].
  apply dserv_row in E as [[-> Hl]|[[-> Hl]|[->|[->| ->]]]].
  - destruct (Hm Hl) as (k' & E & Hk). rewrite Hto in E. simplify_eq. by apply serve_lock.
  - by apply serve_unlock.
  - exists ds, []. split_and!; try done; by apply outs_ok_none.
  - eexists _, []. split_and!; [done|by apply push_ok|by apply outs_ok_none].
  - unfold s_core_dserv_write. destruct (read_id _) as [[id p]|]; (eexists _, _; split; [done|]; split; [done|]); [|by apply outs_ok_none].
    by apply outs_ok_none.
Qed.

(** ** The clients *)
Record client_ok (c : Z) (cl : ud_client TC) : Prop := {
  cl_id : is_int c;
  cl_gid : 0 <= ud_gid cl <= ud_gcount cl;
  cl_try : ud_gid cl <= ud_max_try cl <= 2147483647;
  cl_ids : Forall ids_ok (ud_access_id cl);
  cl_wf : tbl_wf (ud_locks cl);
  cl_locks id g : tbl_map (ud_locks cl) !! id = Some g → 0 <= id_y id
}.

Lemma access_data_ok c active (cl : ud_client TC) now cl' o :
  client_ok c cl → access_data c active cl now = Some (cl', o) → client_ok c cl'.
Proof using HCL.
  intros [Hc [Hg1 Hg2] [Ht1 Ht2] Hids Hw Hl]. unfold access_data. destruct (_ <? _) eqn:El; zbool.
  { intros [= <- _]. by split; cbn; try lia. }
  intros Hs. apply bind_Some in Hs as (D & _ & Hs). apply bind_Some in Hs as (pkt & _ & Hs). apply bind_Some in Hs as (d & _ & Hs).
  cbn [ud_gid ud_gcount ud_max_try ud_gtv ud_access_id ud_locks ud_result ud_C] in *.
  assert (sint (ud_gid cl + 1) = ud_gid cl + 1) as E by (apply sint_small; unfold is_int; lia).
  destruct (active _); simplify_eq; (split; cbn; rewrite ?E; try done; try lia).
  - by apply tbl_put_ok.
  - intros id g Hid. rewrite (proj2 (tbl_put_ok _ _ _ Hw)) in Hid. apply lookup_insert_Some in Hid as [[<- _]|[_ Hid]]; [cbn; lia|by eapply Hl].
Qed.

Lemma access_data_msg c active (cl : ud_client TC) now cl' k o q :
  client_ok c cl → access_data c active cl now = Some (cl', Some (k, o)) → arrives o q →
  msg_ok (Msg k (Serv S_SERV_TYPE_C c) q).
Proof using Type.
  intros [Hc [Hg1 Hg2] [Ht1 Ht2] Hids _ _] Hs Ha _. apply access_data_spec in Hs as (D & d & HDin & Hd & -> & _ & ->).
  destruct Ha as (Hw & Hpos & _ & tl & Hr). rewrite Forall_forall in Hids. destruct (Hids D HDin) as (Hne & Hok & Hsort).
  exists d. split; [done|]. split; [done|]. split; [done|]. pose proof (ids_ok_length D (Hids D HDin)).
  destruct (read_lock_fields c (SId c (ud_gid cl)) D q tl) as (q' & Eq); try done; [|unfold is_int; cbn; lia|lia|].
  { eapply Forall_impl; [exact Hok|]. unfold serv_ok, MAX_DSERV, is_int. lia. }
  destruct D as [|d' D]; [done|]. cbn in Hd. simplify_eq.
  eexists _, _, _, _, q', _. split; [exact Eq|]. split; [done|]. split; [done|]. split; [done|]. by apply elems_sorted.
Qed.

Lemma lock_callback_ok c (cl : ud_client TC) pkt now junk :
  client_ok c cl → ∃ cl' b, lock_callback cl false (Some pkt) now junk = Some (cl', b) ∧ client_ok c cl'.
Proof using HCL.
  intros Hok. unfold lock_callback. destruct (read_id pkt) as [[id p]|]; [|by eexists _, _].
  rewrite tbl_get_ok by apply Hok. destruct (tbl_map _ !! id) as [g|] eqn:E; [|by eexists _, _].
  rewrite (proj2 (Z.ltb_ge _ _)) by by eapply cl_locks. eexists _, _. split; [done|]. by destruct Hok; split.
Qed.

(** ** The network *)
Record net_inv (net : network TK TD TC) : Prop := {
  ni_servs k ds : nw_servs net !! k = Some ds → dserv_ok k ds;
  ni_clients c cl : nw_clients net !! c = Some cl → client_ok c cl;
  ni_flight : Forall msg_ok (nw_flight net)
}.

Lemma flight_perm fl fl' m : fl ≡ₚ m :: fl' → Forall msg_ok fl → msg_ok m ∧ Forall msg_ok fl'.
Proof using Type. intros -> H. by apply Forall_cons in H. Qed.

Lemma nstep_inv reliable (net net' : network TK TD TC) : nstep reliable net net' → net_inv net → net_inv net'.
Proof using HKL HD HCL.
  assert (∀ (cs : gmap Z (ud_client TC)) c cl', (∀ c cl, cs !! c = Some cl → client_ok c cl) → client_ok c cl' →
    ∀ c0 cl0, <[c := cl']> cs !! c0 = Some cl0 → client_ok c0 cl0) as Hins.
  { intros cs c cl' H Hc c0 cl0 [[<- <-]|[_ Hl]]%lookup_insert_Some; [done|by apply H]. }
  destruct 1 as [ss cs fl c cl cl' active now k o q Hcl Hs Ha|ss cs fl c cl cl' active now Hcl Hs|ss cs fl c to q Hq|
    net net' [ss cs fl fl' m ms k ds ds' active junk effs Hm Hto Hds _ Hs Hf|
    ss cs fl fl' m c cl cl' now junk b Hm Hto Hcl _ Hs|ss cs fl fl' m c cl Hm Hto Hcl _]|ss cs fl fl' m _ Hm]; intros [H1 H2 H3]; cbn [nw_servs nw_clients nw_flight] in *; split; cbn [nw_servs nw_clients nw_flight]; try done.
  - apply Hins; [done|]. eapply access_data_ok; [by apply H2|done].
  - constructor; [|done]. by eapply access_data_msg; [apply H2|..].
  - apply Hins; [done|]. eapply access_data_ok; [by apply H2|done].
  - constructor; [|done]. intros [[= Hl]|[= Hl]]; cbn in Hl; done.
  - destruct (flight_perm _ _ _ Hm H3) as [Hok _].
    destruct (serve_ok k active junk ds m (H1 _ _ Hds) Hok Hto) as (ds1 & e1 & E1 & Hd & _). rewrite Hs in E1. simplify_eq.
    intros k0 ds0 [[<- <-]|[_ Hl]]%lookup_insert_Some; [done|by apply H1].
  - destruct (flight_perm _ _ _ Hm H3) as [Hok Hfl].
    destruct (serve_ok k active junk ds m (H1 _ _ Hds) Hok Hto) as (ds1 & e1 & E1 & _ & Ho). rewrite Hs in E1. simplify_eq.
    apply Forall_app. split; [by apply Ho|done].
  - apply Hins; [done|]. destruct (lock_callback_ok c cl (ms_pkt m) now junk (H2 _ _ Hcl)) as (cl1 & b1 & E1 & Hok).
    rewrite Hs in E1. by simplify_eq.
  - by destruct (flight_perm _ _ _ Hm H3).
  - by destruct (flight_perm _ _ _ Hm H3).
  - by destruct (flight_perm _ _ _ Hm H3).
Qed.

(** the network as it runs: the clients have read a file that was drawn *)
Definition net_run (reliable : Prop) (net : network TK TD TC) : Prop :=
  ∃ rands file stop ids ks cs max_try tv,
    Forall (Z.le 0) rands ∧ gen_random_id rands = Some (file, stop) ∧
    s_access_id_create (Some file) = Some (Some ids) ∧ Forall is_int cs ∧ 0 < max_try <= 2147483647 ∧
    rtc (nstep reliable) (net_init ks cs max_try tv ids) net.

Lemma init_servs ks cs max_try tv ids k ds :
  nw_servs (net_init ks cs max_try tv ids : network TK TD TC) !! k = Some ds → ds = dserv_init.
Proof using Type. intros (x & [= _ ->] & _)%elem_of_list_to_map_2%list_elem_of_fmap. done. Qed.
Lemma init_clients ks cs max_try tv ids c cl :
  nw_clients (net_init ks cs max_try tv ids : network TK TD TC) !! c = Some cl →
  c ∈ cs ∧ cl = Ud 0 0 max_try tv ids (tbl_new 16) [] 0.
Proof using Type. intros (x & [= -> ->] & Hx)%elem_of_list_to_map_2%list_elem_of_fmap. done. Qed.

Lemma net_init_inv ks cs max_try tv ids :
  Forall ids_ok ids → Forall is_int cs → 0 < max_try <= 2147483647 → net_inv (net_init ks cs max_try tv ids).
Proof using HKL HCL.
  intros Hids Hcs Hmt. split; [| |constructor].
  - intros k ds ->%init_servs. split; [apply init_base| | |].
    + split; cbn; [by intros ? ? ?%elem_of_nil|by intros ? ? ? ? ?%elem_of_nil].
    + by intros w lk ?%elem_of_nil.
    + by intros w lk ?%elem_of_nil.
  - intros c cl [Hc ->]%init_clients. rewrite Forall_forall in Hcs. destruct (tbl_new_ok (T := TC) 16) as [Hw Em].
    split; cbn; try done; try lia; [by apply Hcs|]. intros id g Hg. rewrite Em in Hg. by rewrite lookup_empty in Hg.
Qed.

Lemma run_inv reliable net : net_run reliable net → net_inv net.
Proof using HKL HD HCL.
  intros (rands & file & stop & ids & ks & cs & mt & tv & Hr & Hg & Hs & Hcs & Hmt & Hrtc).
  assert (net_inv (net_init ks cs mt tv ids)) as H0 by (apply net_init_inv; [by eapply read_drawn|done..]).
  clear -Hrtc H0 HKL HCL. induction Hrtc as [|x y z Hxy _ IH]; [done|]. by apply IH, (nstep_inv reliable x).
Qed.

(** C2. The locks exclude on the whole network.  Clients send the requests of a
    drawn file, servers pass them on and tell each other, other messages come
    and messages are lost, in any order: of two requests that a server has
    passed on, one is done with the first of the servers that both go to after
    this one.  Nothing is assumed of the packets. *)
Theorem network_exclusion reliable net k ds p q lp lq :
  net_run reliable net → nw_servs net !! k = Some ds →
  p ∈ ds_sent ds → q ∈ ds_sent ds → p ≠ q → ds_heap ds !! p = Some lp → ds_heap ds !! q = Some lq →
  ¬ meets (lk_ahead lp) (lk_ahead lq).
Proof using HKL HD HCL.
  intros Hr%run_inv Hk Hp Hq Hne Hlp Hlq. destruct (do_excl _ _ (ni_servs _ Hr k ds Hk)) as [Hs Hx].
  specialize (Hx p q lp lq Hp Hq Hne Hlp Hlq). apply not_true_iff_false in Hx.
  rewrite is_conflict_meets in Hx; [done|apply (Hs p)|apply (Hs q)]; try done; apply elem_of_app; by left.
Qed.

(** C16. The handlers of the network run to their end: whatever message comes
    next, the server it is for handles it with no assertion that fails, no
    pointer that is null or freed and no loop without an end, whatever is
    connected; and so does a client the answer it waits for.  One undefined
    access does happen, the read behind the last element of a request in
    [ilock_is_conflict] ([conflict_reads_behind]): the statement is for
    every value that this read may give. *)
Theorem network_no_failure reliable net :
  net_run reliable net →
  (∀ m k ds active junk, m ∈ nw_flight net → ms_to m = Serv S_SERV_TYPE_D k → nw_servs net !! k = Some ds →
    is_Some (serv_handle k active junk ds (ms_from m) (ms_pkt m))) ∧
  (∀ m c cl now junk, m ∈ nw_flight net → ms_to m = Serv S_SERV_TYPE_C c → nw_clients net !! c = Some cl →
    is_Some (lock_callback cl false (Some (ms_pkt m)) now junk)).
Proof using HKL HD HCL.
  intros Hr%run_inv. split.
  - intros m k ds active junk Hm Hto Hk. pose proof (ni_flight _ Hr) as Hf. rewrite Forall_forall in Hf.
    destruct (serve_ok k active junk ds m (ni_servs _ Hr k ds Hk) (Hf m Hm) Hto) as (ds' & effs & E & _). by eexists.
  - intros m c cl now junk _ _ Hc. destruct (lock_callback_ok c cl (ms_pkt m) now junk (ni_clients _ Hr c cl Hc)) as (cl' & b & E & _).
    by eexists.
Qed.
End servers.
