(* ===== verification/LockProgress.v ===== *)
(** * No deadlock among the data servers

    Every request walks along its servers: its place is kept in an abstract
    map, and the request itself is either in a message to the server at that
    place or waits there ([walking]).  A server that has passed a request on
    hears of every later server that the request leaves.  With the order of
    the servers in a request this gives that, on a reliable network, no request
    waits once all messages are handled. *)

From S2P Require Import Prelude SArray Packet Wire SHashSpec Cluster DLock ServGroup Core AccessId LockClient LockNet.
From stdpp Require Import sorting.
Local Open Scope Z_scope.

Definition servs_of (lk : s_core_lock) : list Z := le_serv_id <$> lk_elems lk.

(** the request in a message *)
Definition lock_id (m : message) : option s_id :=
  if decide (for_lock m) then
    match read_lock (ms_pkt m) with Ok (_, _, id, _, _) => Some id | _ => None end
  else None.

(** the answer to a client *)
Definition for_end (m : message) : Prop :=
  (sv_type (ms_from m), s_packet_get_fun (ms_pkt m)) = (S_SERV_TYPE_D, S_PKT_TYPE_LOCK_END).
#[export] Instance for_end_dec m : Decision (for_end m).
Proof. unfold for_end. apply _. Defined.
Definition end_id (m : message) : option s_id := if decide (for_end m) then fst <$> read_id (ms_pkt m) else None.

(** where a lock is on its way *)
Definition placed (lk : s_core_lock) (i : nat) : Prop :=
  lk_next_pos lk = Z.of_nat (S i) ∧ lk_client_id lk = id_x (lk_id lk).

(** server [s] is telling server [k] *)
Definition unlock_coming (fl : list message) (s k : Z) (id : s_id) : Prop :=
  ∃ m p, m ∈ fl ∧ ms_to m = Serv S_SERV_TYPE_D k ∧ ms_from m = Serv S_SERV_TYPE_D s ∧
    s_packet_get_fun (ms_pkt m) = S_PKT_TYPE_LOCK_UNLOCK ∧ read_id (ms_pkt m) = Some (id, p).

Lemma unlock_coming_mono fl fl' s k id : fl ⊆ fl' → unlock_coming fl s k id → unlock_coming fl' s k id.
Proof. intros Hsub (m & p & Hm & H). exists m, p. split; [by apply Hsub|done]. Qed.
Lemma unlock_coming_l fl fl' s k id : unlock_coming fl s k id → unlock_coming (fl ++ fl') s k id.
Proof. apply unlock_coming_mono. intros x Hx. apply elem_of_app. by left. Qed.
Lemma unlock_coming_r fl fl' s k id : unlock_coming fl s k id → unlock_coming (fl' ++ fl) s k id.
Proof. apply unlock_coming_mono. intros x Hx. apply elem_of_app. by right. Qed.

Section progress.
Context {TK TD : Type}.
Context `{HK : !Table s_id nat TK, HKL : !TableLaws s_id nat TK, HD : !Table s_id (Z * list Z) TD}.
Abbreviation dserver := (s_dserver TK TD).
Abbreviation places := (gmap s_id (list Z * nat)).
Implicit Types (ds : dserver) (m : message) (lk : s_core_lock) (A : places) (toks : list s_id) (fl : list message)
  (ss : gmap Z dserver).

(** ** What a server knows
    [A] has the servers and the place of each request; [toks] are the requests
    that wait nowhere. *)
Record known_at A toks fl (k : Z) ds : Prop := {
  kn_sent p lk : p ∈ ds_sent ds → ds_heap ds !! p = Some lk →
    ∃ i pos, lk_next_pos lk = Z.of_nat (S i) ∧ A !! lk_id lk = Some (servs_of lk, pos) ∧
      servs_of lk !! i = Some k ∧ (i < pos)%nat ∧ tbl_map (ds_locks ds) !! lk_id lk = Some p ∧
      ∀ j e, (i < j)%nat → lk_elems lk !! j = Some e → le_finish e = false →
        (pos ≤ j)%nat ∨ unlock_coming fl (le_serv_id e) k (lk_id lk);
  kn_wait w lk : w ∈ ds_waiting ds → ds_heap ds !! w = Some lk →
    ∃ i, placed lk i ∧ A !! lk_id lk = Some (servs_of lk, i) ∧ servs_of lk !! i = Some k ∧ lk_id lk ∉ toks;
  kn_uniq w w' lk lk' : w ∈ ds_waiting ds → w' ∈ ds_waiting ds →
    ds_heap ds !! w = Some lk → ds_heap ds !! w' = Some lk' → lk_id lk = lk_id lk' → w = w'
}.

Definition waits_at ds (id : s_id) : Prop := ∃ w lk, w ∈ ds_waiting ds ∧ ds_heap ds !! w = Some lk ∧ lk_id lk = id.

Record walking A toks fl ss : Prop := {
  wk_nodup : NoDup toks;
  wk_serv k ds : ss !! k = Some ds → known_at A toks fl k ds;
  wk_place id servs i k : A !! id = Some (servs, i) → servs !! i = Some k →
    id ∈ toks ∨ ∃ ds, ss !! k = Some ds ∧ waits_at ds id;
  wk_sorted id servs i : A !! id = Some (servs, i) → StronglySorted Z.lt servs ∧ Forall serv_ok servs;
  wk_toks id : id ∈ toks → is_Some (A !! id)
}.

(** the messages carry the requests as they are *)
Record carried A fl : Prop := {
  ca_lock m : m ∈ fl → for_lock m → ∃ i id elems q, read_lock (ms_pkt m) = Ok (Z.of_nat i, id_x id, id, elems, q) ∧
    A !! id = Some (le_serv_id <$> elems, i);
  ca_end m : m ∈ fl → for_end m → ∃ id p, read_id (ms_pkt m) = Some (id, p) ∧ ms_to m = Serv S_SERV_TYPE_C (id_x id)
}.
Lemma carried_sub A fl fl' : fl' ⊆ fl → carried A fl → carried A fl'.
Proof using Type. intros Hsub [H1 H2]. split; intros m Hm; [apply H1|apply H2]; by apply Hsub. Qed.

(** the requests [ends] have come to their end, and no others *)
Definition ended A (ends : list s_id) : Prop :=
  NoDup ends ∧ (∀ id, id ∈ ends ↔ ∃ servs, A !! id = Some (servs, length servs)) ∧
  ∀ id servs i, A !! id = Some (servs, i) → (i ≤ length servs)%nat.

(** the steps that the requests have to go, and a bound of what is left to do:
    a step sends at most a message to each server *)
Definition to_go (x : list Z * nat) : nat := length x.1 - x.2.
Definition steps_left A : nat := map_fold (λ _ x n, to_go x + n)%nat 0%nat A.
Definition left_over A fl : nat := 7 * steps_left A + length fl.

Lemma steps_left_insert A id x y :
  A !! id = Some x → (steps_left (<[id := y]> A) + to_go x = steps_left A + to_go y)%nat.
Proof using Type.
  intros HA. unfold steps_left. rewrite <-(insert_delete_id A id x HA) at 2. rewrite <-insert_delete_eq.
  rewrite !map_fold_insert_L by (try apply lookup_delete_eq; intros; lia). lia.
Qed.

(** what a server does to the places, with [d] messages less: [ans] are the
    answers that have arrived *)
Record goes (d : nat) A fl A' fl' : Prop := {
  go_dom : dom A' = dom A;
  go_ended ans : ended A (ans ++ omap end_id fl) → ended A' (ans ++ omap end_id fl');
  go_left : (left_over A' fl' + d ≤ left_over A fl)%nat
}.

Lemma goes_refl d A fl fl' : omap end_id fl ≡ₚ omap end_id fl' → (length fl' + d ≤ length fl)%nat → goes d A fl A fl'.
Proof using Type.
  intros E Hl. split; [done| |unfold left_over; lia]. intros ans (Hn & Hm & Hle). split; [by rewrite <-E|].
  split; [|done]. intros id. rewrite <-Hm. by rewrite E.
Qed.
Lemma goes_trans d A1 fl1 A2 fl2 A3 fl3 : goes d A1 fl1 A2 fl2 → goes 0 A2 fl2 A3 fl3 → goes d A1 fl1 A3 fl3.
Proof using Type. intros [E1 H1 L1] [E2 H2 L2]. split; [congruence|auto|lia]. Qed.

Lemma sorted_lookup_lt (l : list Z) i j x y :
  StronglySorted Z.lt l → (i < j)%nat → l !! i = Some x → l !! j = Some y → x < y.
Proof using Type.
  intros Hs. revert i j. induction Hs as [|z l Hs IH Hall]; intros i j Hij Hi Hj; [done|].
  destruct j as [|j]; [lia|]. destruct i as [|i]; cbn in *; [|apply (IH i j); (done || lia)].
  simplify_eq. rewrite Forall_forall in Hall. by apply Hall, (list_elem_of_lookup_2 _ j).
Qed.

(** ** What [ilock_take_done] gives when all servers are there *)
Definition told lk : list (serv_id * out_pkt) :=
  (λ s, (Serv S_SERV_TYPE_D s, OMsg S_PKT_TYPE_LOCK_UNLOCK (id_fields (lk_id lk)))) <$>
    take (Z.to_nat (lk_next_pos lk - 1)) (servs_of lk).
Definition passed lk : s_packet := forwarded (lk_pkt lk) (lk_next_pos lk).

Lemma unlock_told active lk : (∀ s, active s = true) → 0 < lk_next_pos lk → sends (ilock_unlock active lk) = told lk.
Proof using Type.
  intros Ha Hp. unfold ilock_unlock, told, servs_of. destruct (_ <=? 1) eqn:E; zbool.
  { by replace (Z.to_nat (lk_next_pos lk - 1)) with 0%nat by lia. }
  rewrite <-fmap_take. induction (take _ (lk_elems lk)) as [|e l IH]; [done|]. cbn [omap list_omap]. rewrite Ha.
  cbn [sends omap list_omap fmap list_fmap]. f_equal. exact IH.
Qed.

Lemma take_cases active ds p lk ds' effs :
  (∀ s, active s = true) → ds_heap ds !! p = Some lk → 0 < lk_next_pos lk →
  ilock_take_done active ds p = Some (ds', effs) →
  (lk_next_pos lk < lk_nserv lk ∧
    ds' = DServ (<[p := with_lk_pkt lk (passed lk)]> (ds_heap ds)) (tbl_put (ds_locks ds) (lk_id lk) p) (ds_sent ds ++ [p])
            (ds_waiting ds) (ds_data ds) ∧
    sends effs = told lk ++ [(Serv S_SERV_TYPE_D (lk_next_serv lk), OPkt S_PKT_TYPE_LOCK_NEXT (passed lk))]) ∨
  (lk_nserv lk <= lk_next_pos lk ∧
    ds' = DServ (delete p (<[p := with_lk_pkt lk (lk_pkt lk)]> (ds_heap ds))) (tbl_del (ds_locks ds) (lk_id lk))
            (filter (.≠ p) (ds_sent ds)) (filter (.≠ p) (ds_waiting ds)) (ds_data ds) ∧
    sends effs = told lk ++ [(Serv S_SERV_TYPE_C (lk_client_id lk), OMsg S_PKT_TYPE_LOCK_END (id_fields (lk_id lk)))]).
Proof using Type.
  intros Ha Hlk Hp. unfold ilock_take_done. rewrite Hlk. cbn [mbind option_bind]. unfold ilock_next. rewrite !Ha. cbn [negb].
  destruct (_ <=? _) eqn:E; zbool; cbn [negb Z.eqb]; intros [= <- <-]; [right|left]; (split; [done|]; split; [done|]);
    by rewrite sends_app, unlock_told.
Qed.

(** the messages it becomes *)
Lemma told_messages k lk ms :
  Forall2 (λ s m, ms_to m = s.1 ∧ ms_from m = Serv S_SERV_TYPE_D k ∧ arrives s.2 (ms_pkt m)) (told lk) ms →
  is_int (id_x (lk_id lk)) → is_int (id_y (lk_id lk)) →
  (∀ m, m ∈ ms → ¬ for_lock m ∧ ¬ for_end m) ∧ omap lock_id ms = [] ∧ omap end_id ms = [] ∧
  ∀ j s, (Z.of_nat j < lk_next_pos lk - 1) → servs_of lk !! j = Some s → unlock_coming ms k s (lk_id lk).
Proof using Type.
  intros Hf Hx Hy.
  assert (∀ m, m ∈ ms → ¬ for_lock m ∧ ¬ for_end m) as Hn.
  { intros m Hm. apply list_elem_of_lookup in Hm as [n Hm]. destruct (Forall2_lookup_r _ _ _ n m Hf Hm) as ([t o] & Ho & _ & Hfr & Ha).
    unfold told in Ho. rewrite list_lookup_fmap in Ho. apply fmap_Some in Ho as (s & _ & [= -> ->]). cbn in Ha.
    destruct Ha as (_ & _ & Hfn & _). unfold for_lock, for_end. rewrite Hfn. split; [by intros [[=]|[= ?]]|by intros [= ?]]. }
  split; [apply Hn|]. split; [|split].
  1-2: clear Hf; induction ms as [|m ms IH]; [done|]; cbn [omap list_omap]; (try unfold lock_id at 1; try unfold end_id at 1);
    rewrite decide_False by (apply Hn; left); apply IH; intros m' Hm'; apply Hn; by right.
  - intros j s Hj Hs. destruct (Forall2_lookup_l _ _ _ j (Serv S_SERV_TYPE_D s, OMsg S_PKT_TYPE_LOCK_UNLOCK (id_fields (lk_id lk))) Hf) as (m & Hm & Hto & Hfr & Hw & _ & Hfn & Hr).
    { unfold told. rewrite list_lookup_fmap, lookup_take_lt by lia. by rewrite Hs. }
    destruct (read_id_field (ms_pkt m) (lk_id lk) [] Hw Hx Hy) as (p & Hp & _); [|].
    { rewrite Hr. unfold id_fields. by rewrite !lock_fields_cons, app_nil_r. }
    exists m, p. split; [by eapply list_elem_of_lookup_2|done].
Qed.

(** a request goes on from server [k] *)
Lemma known_step A toks toks' fl ms k k0 ds0 id servs i :
  A !! id = Some (servs, i) → servs !! i = Some k → toks' ⊆ id :: toks →
  (∀ j s, (j < i)%nat → servs !! j = Some s → unlock_coming ms k s id) →
  known_at A (id :: toks) fl k0 ds0 → known_at (<[id := (servs, S i)]> A) toks' (ms ++ fl) k0 ds0.
Proof using Type.
  intros HA Hk Hsub Hms [Hs Hw Hu]. split; [| |done].
  - intros p lk Hp Hlk. destruct (Hs p lk Hp Hlk) as (ip & pos & Hn & HAp & Hip & Hlt & Ht & Hpr).
    destruct (decide (lk_id lk = id)) as [E|Hne].
    + rewrite E in *. rewrite HA in HAp. injection HAp as -> <-. exists ip, (S i). rewrite lookup_insert_eq.
      split_and!; try done; [lia|]. intros j e Hj He Hf. destruct (Hpr j e Hj He Hf) as [Hle|Hc].
      * destruct (decide (i = j)) as [->|]; [|left; lia]. right.
        assert (servs_of lk !! j = Some (le_serv_id e)) as Ee by (unfold servs_of; by rewrite list_lookup_fmap, He).
        rewrite Hk in Ee. simplify_eq. apply unlock_coming_l. by apply (Hms ip).
      * right. by apply unlock_coming_r.
    + exists ip, pos. rewrite lookup_insert_ne by done. split_and!; try done.
      intros j e Hj He Hf. destruct (Hpr j e Hj He Hf) as [|Hc]; [by left|]. right.
      by apply unlock_coming_r.
  - intros w lk Hin Hlk. destruct (Hw w lk Hin Hlk) as (iw & Hn & HAw & Hiw & Hni). exists iw.
    rewrite lookup_insert_ne by (intros E; apply Hni; rewrite E; left). split_and!; try done. intros Ht. by apply Hni, Hsub.
Qed.

Lemma sent_elsewhere A toks fl k ds id servs i p lk :
  known_at A toks fl k ds → A !! id = Some (servs, i) → servs !! i = Some k → StronglySorted Z.lt servs →
  p ∈ ds_sent ds → ds_heap ds !! p = Some lk → lk_id lk ≠ id.
Proof using Type.
  intros [Hs _ _] HA Hk Hso Hp Hlk <-. destruct (Hs p lk Hp Hlk) as (ip & pos & _ & HAp & Hip & Hlt & _).
  rewrite HA in HAp. injection HAp as -> <-. by pose proof (sorted_lookup_lt _ _ _ _ _ Hso Hlt Hip Hk) as ?%Z.lt_irrefl.
Qed.

Lemma known_take A toks toks' fl ms k active ds p lk ds' effs i :
  (∀ s, active s = true) → base ds → p ∉ listed ds → ds_heap ds !! p = Some lk → lk_next_pos lk = Z.of_nat (S i) →
  A !! lk_id lk = Some (servs_of lk, i) → servs_of lk !! i = Some k → StronglySorted Z.lt (servs_of lk) →
  toks' ⊆ lk_id lk :: toks →
  (∀ j s, (j < i)%nat → servs_of lk !! j = Some s → unlock_coming ms k s (lk_id lk)) →
  ilock_take_done active ds p = Some (ds', effs) →
  known_at A (lk_id lk :: toks) fl k ds → known_at (<[lk_id lk := (servs_of lk, S i)]> A) toks' (ms ++ fl) k ds'.
Proof using HKL.
  intros Ha Hb Hp Hlk Hpos HA Hk Hso Hsub Hms Htd Hkn.
  assert (∀ q lq, q ∈ ds_sent ds → ds_heap ds !! q = Some lq → lk_id lq ≠ lk_id lk) as Hne.
  { intros q lq Hq Hlq. by apply (sent_elsewhere A _ _ k ds _ _ _ q lq Hkn HA). }
  destruct (known_step A toks toks' fl ms k k ds (lk_id lk) (servs_of lk) i HA Hk Hsub Hms Hkn) as [Hs Hw Hu].
  assert (p ∉ ds_sent ds ∧ p ∉ ds_waiting ds) as [Hps Hpw] by (by apply not_elem_of_app in Hp).
  pose proof (b_wf _ Hb) as Hwf.
  apply (take_cases active ds p lk) in Htd as [(Hlt & -> & _)|(Hge & -> & _)]; [| |done..|lia].
  - destruct (tbl_put_ok (ds_locks ds) (lk_id lk) p Hwf) as [_ Em].
    split; cbn [ds_sent ds_heap ds_waiting ds_locks].
    + intros q lq Hq Hlq. rewrite Em. destruct (decide (q = p)) as [->|Hqp].
      * rewrite lookup_insert_eq in Hlq. simplify_eq. exists i, (S i). unfold with_lk_pkt. cbn [lk_next_pos lk_id].
        rewrite !lookup_insert_eq. split_and!; try done; [lia|]. intros j e Hj _ _. left. lia.
      * rewrite lookup_insert_ne in Hlq by done. apply elem_of_app in Hq as [Hq| ->%list_elem_of_singleton]; [|done].
        rewrite (lookup_insert_ne _ (lk_id lk) (lk_id lq) p) by (intros E; by apply (Hne q lq)). by apply Hs.
    + intros w lw Hin Hlw. rewrite lookup_insert_ne in Hlw by (by intros <-). by apply (Hw w).
    + intros w w' lw lw' Hin Hin' E E'. rewrite lookup_insert_ne in E, E' by (by intros <-). by apply Hu.
  - destruct (tbl_del_ok (ds_locks ds) (lk_id lk) Hwf) as [_ Em].
    split; cbn -[filter delete]; rewrite ?filter_ne_id by done.
    + intros q lq Hq Hlq. rewrite Em. assert (q ≠ p) by (by intros ->).
      rewrite lookup_delete_ne, lookup_insert_ne in Hlq by done.
      rewrite (lookup_delete_ne _ (lk_id lk) (lk_id lq)) by (intros E; by apply (Hne q lq)). by apply Hs.
    + intros w lw Hin Hlw. rewrite lookup_delete_ne, lookup_insert_ne in Hlw by (by intros <-). by apply (Hw w).
    + intros w w' lw lw' Hin Hin' E E'. rewrite lookup_delete_ne, lookup_insert_ne in E, E' by (by intros <-).
      by apply Hu.
Qed.

(** ** The whole network *)
Definition walks A fl ss : Prop := walking A (omap lock_id fl) fl ss ∧ carried A fl.

(** the messages of a step of a request *)
Record step_messages (k : Z) lk (ms : list message) : Prop := {
  sm_few : (length ms ≤ S (length (servs_of lk)))%nat;
  sm_told j s : Z.of_nat j < lk_next_pos lk - 1 → servs_of lk !! j = Some s → unlock_coming ms k s (lk_id lk);
  sm_locks : omap lock_id ms = (if decide (lk_next_pos lk < lk_nserv lk) then [lk_id lk] else []);
  sm_ends : omap end_id ms = (if decide (lk_next_pos lk < lk_nserv lk) then [] else [lk_id lk]);
  sm_lock m : m ∈ ms → for_lock m →
    ∃ q, read_lock (ms_pkt m) = Ok (lk_next_pos lk, lk_client_id lk, lk_id lk, lk_elems lk, q);
  sm_end m : m ∈ ms → for_end m →
    ∃ p, read_id (ms_pkt m) = Some (lk_id lk, p) ∧ ms_to m = Serv S_SERV_TYPE_C (lk_client_id lk)
}.

Lemma take_messages fl k active ds p lk ds' effs ms :
  (∀ s, active s = true) → ds_heap ds !! p = Some lk → held lk →
  ilock_take_done active ds p = Some (ds', effs) → flows k effs ms → step_messages k lk ms.
Proof using Type.
  intros Ha Hlk Hh Htd Hf. destruct (held_pos lk Hh) as (Hpos & Hx & Hy). unfold flows in Hf.
  apply (take_cases active ds p lk) in Htd as [(Hlt & _ & Es)|(Hge & _ & Es)]; try done; rewrite Es in Hf;
    apply Forall2_app_inv_l in Hf as (ms1 & ms2 & Hf1 & Hf2 & ->);
    apply Forall2_cons_inv_l in Hf2 as ([to from q] & ms3 & (Hto & Hfr & Hq) & ->%Forall2_nil_inv_l & ->);
    cbn [ms_to ms_from ms_pkt fst snd] in *; subst; destruct (told_messages k lk ms1 Hf1 Hx Hy) as (Hn1 & Ho1 & Hoe1 & Hu1);
    apply Forall2_length in Hf1; unfold told in Hf1; rewrite length_fmap, length_take in Hf1;
    (split; [rewrite length_app; cbn [length]; lia|intros j s Hj Hs; apply unlock_coming_l; by apply (Hu1 j)|rewrite omap_app, Ho1|rewrite omap_app, Hoe1| |]);
    cbn [app omap list_omap].
  - destruct (held_forwarded lk (lk_next_serv lk) q Hh Hlt eq_refl Hq) as (_ & Hfn & r & Hr).
    rewrite decide_True by done. unfold lock_id. rewrite decide_True; [|right; cbn; by rewrite Hfn]. cbn. by rewrite Hr.
  - destruct Hq as (_ & _ & Hfn & _). rewrite decide_True by done. unfold end_id.
    rewrite decide_False; [done|]. unfold for_end. cbn. rewrite Hfn. by intros [= ?].
  - intros m [Hm| ->%list_elem_of_singleton]%elem_of_app Hfl; [by destruct (Hn1 m Hm)|].
    by destruct (held_forwarded lk (lk_next_serv lk) q Hh Hlt eq_refl Hq) as (_ & _ & r & Hr); exists r.
  - destruct Hq as (_ & _ & Hfn & _). intros m [Hm| ->%list_elem_of_singleton]%elem_of_app Hfe; [by destruct (Hn1 m Hm)|].
    unfold for_end in Hfe. cbn in Hfe, Hfn. rewrite Hfn in Hfe. by injection Hfe.
  - destruct Hq as (_ & _ & Hfn & _). rewrite decide_False by lia. unfold lock_id. rewrite decide_False; [done|].
    unfold for_lock. cbn. rewrite Hfn. by intros [[=]|[= ?]].
  - destruct Hq as (Hwq & _ & Hfn & Hrq). rewrite decide_False by lia. unfold end_id.
    rewrite decide_True by (unfold for_end; cbn; by rewrite Hfn). cbn.
    destruct (read_id_field q (lk_id lk) [] Hwq Hx Hy) as (r & -> & _); [|done].
    rewrite Hrq. unfold id_fields. by rewrite !lock_fields_cons, app_nil_r.
  - destruct Hq as (_ & _ & Hfn & _). intros m [Hm| ->%list_elem_of_singleton]%elem_of_app Hfl; [by destruct (Hn1 m Hm)|].
    unfold for_lock in Hfl. cbn in Hfl, Hfn. rewrite Hfn in Hfl. by destruct Hfl as [[=]|[= ?]].
  - destruct Hq as (Hwq & _ & Hfn & Hrq). intros m [Hm| ->%list_elem_of_singleton]%elem_of_app Hfe; [by destruct (Hn1 m Hm)|].
    destruct (read_id_field q (lk_id lk) [] Hwq Hx Hy) as (r & Hr & _); [|by exists r].
    rewrite Hrq. unfold id_fields. by rewrite !lock_fields_cons, app_nil_r.
Qed.

Lemma walks_perm A fl fl' ss : fl ≡ₚ fl' → walks A fl ss → walks A fl' ss.
Proof using Type.
  intros Hp [[Hn Hs Hpl Hso Ht] Hc].
  assert (∀ id, id ∈ omap lock_id fl' ↔ id ∈ omap lock_id fl) as Hin by (intros id; by rewrite Hp).
  split; [|apply (carried_sub A fl); [|done]; intros m; by rewrite Hp]. split.
  - by rewrite <-Hp.
  - intros k ds Hk. destruct (Hs k ds Hk) as [H1 H2 H3]. split; [| |done].
    + intros p lk Hp1 Hlk. destruct (H1 p lk Hp1 Hlk) as (i & pos & ? & ? & ? & ? & ? & Hpr). exists i, pos.
      split_and!; try done. intros j e Hj He Hf. destruct (Hpr j e Hj He Hf) as [|(m & q & Hm & ?)]; [by left|].
      right. exists m, q. split; [by rewrite <-Hp|done].
    + intros w lk Hw Hlk. destruct (H2 w lk Hw Hlk) as (i & ? & ? & ? & Hni). exists i. by rewrite Hin.
  - intros id servs i k HA Hk. rewrite Hin. by apply (Hpl id servs i k).
  - done.
  - intros id. rewrite Hin. apply Ht.
Qed.

(** a server at which the same requests wait *)
Lemma waits_at_taken active ds p lk ds' effs id :
  base ds → p ∉ listed ds → ds_heap ds !! p = Some lk → ilock_take_done active ds p = Some (ds', effs) →
  waits_at ds id → waits_at ds' id.
Proof using HKL.
  intros Hb Hp Hlk Htd (w & lw & Hw & Hlw & Hid). destruct (take_done_spec active ds p lk Hb Hp Hlk) as (ds1 & e1 & E & Ht).
  rewrite Htd in E. simplify_eq. exists w, lw. rewrite (tk_waiting _ _ _ _ Ht), (tk_frame _ _ _ _ Ht); [done|].
  intros ->. apply Hp, elem_of_app. by right.
Qed.

(** the requests that have come to their end *)
Lemma take_goes A fl ms lk i :
  A !! lk_id lk = Some (servs_of lk, i) → (i < length (servs_of lk))%nat →
  omap end_id ms = (if decide (S i < length (servs_of lk))%nat then [] else [lk_id lk]) → (length ms <= 7)%nat →
  goes 0 A fl (<[lk_id lk := (servs_of lk, S i)]> A) (ms ++ fl).
Proof using Type.
  intros HA Hi Hoe Hms. split; [by rewrite dom_insert_lookup_L| |].
  2: { unfold left_over. rewrite length_app. pose proof (steps_left_insert A _ _ (servs_of lk, S i) HA) as E. unfold to_go in E. cbn in E. lia. }
  intros ans (Hn & Hm & Hl). assert (ans ++ omap end_id (ms ++ fl) ≡ₚ omap end_id ms ++ ans ++ omap end_id fl) as E.
  { rewrite omap_app, !app_assoc. apply Permutation_app_tail, Permutation_app_comm. }
  assert (lk_id lk ∉ ans ++ omap end_id fl) as Hni.
  { rewrite Hm, HA. intros (servs & [= <- ->]). lia. }
  split; [|split].
  - rewrite E, Hoe. case_decide; [done|]. by constructor.
  - intros id. rewrite E, elem_of_app, Hm, Hoe. destruct (decide (id = lk_id lk)) as [->|Hne].
    + rewrite lookup_insert_eq. rewrite HA. case_decide as Hd; split; intros Hor.
      * destruct Hor as [Hor%elem_of_nil|(servs & [= <- ->])]; [done|lia].
      * destruct Hor as (servs & [= <- E2]). lia.
      * exists (servs_of lk). do 2 f_equal. lia.
      * left. by apply list_elem_of_singleton.
    + rewrite lookup_insert_ne by done. split; [|by right]. intros [Hin|]; [|done]. case_decide; [by apply elem_of_nil in Hin|].
      by apply list_elem_of_singleton in Hin.
  - intros id servs j [[<- [= <- <-]]|[_ HA']]%lookup_insert_Some; [lia|by eapply Hl].
Qed.

(** [take_done] on the network: the request is in no message and no list *)
Lemma take_walks A fl ss k active ds p lk ds' effs ms i :
  (∀ s, active s = true) → walking A (lk_id lk :: omap lock_id fl) fl ss → carried A fl →
  ss !! k = Some ds → base ds → p ∉ listed ds → ds_heap ds !! p = Some lk → held lk →
  placed lk i → A !! lk_id lk = Some (servs_of lk, i) → servs_of lk !! i = Some k →
  ilock_take_done active ds p = Some (ds', effs) → flows k effs ms →
  ∃ A', goes 0 A fl A' (ms ++ fl) ∧ walks A' (ms ++ fl) (<[k := ds']> ss).
Proof using HKL.
  intros Ha [Hnd Hs Hpl Hso Htk] Hc Hk Hb Hp Hlk Hh [Hpos Hcl] HA Hi Htd Hf.
  destruct (Hso _ _ _ HA) as [Hsorted Hok].
  destruct (take_messages fl k active ds p lk ds' effs ms Ha Hlk Hh Htd Hf) as [Hfew Hu Hom Hoe Hread Hend].
  assert (∀ j s, (j < i)%nat → servs_of lk !! j = Some s → unlock_coming ms k s (lk_id lk)) as Hu'.
  { intros j s Hj. apply Hu. lia. }
  assert (Z.of_nat (length (servs_of lk)) = lk_nserv lk) as Hlen by (unfold servs_of, lk_nserv; by rewrite length_fmap).
  set (toks' := omap lock_id (ms ++ fl)).
  assert (toks' = (if decide (lk_next_pos lk < lk_nserv lk) then [lk_id lk] else []) ++ omap lock_id fl) as Et.
  { unfold toks'. by rewrite omap_app, Hom. }
  assert (toks' ⊆ lk_id lk :: omap lock_id fl) as Hsub.
  { rewrite Et. case_decide; cbn; [done|]. intros x Hx. by right. }
  exists (<[lk_id lk := (servs_of lk, S i)]> A). split.
  { apply (take_goes A fl ms lk i); try done; [by eapply lookup_lt_Some|rewrite Hoe; apply decide_ext; lia|].
    assert (length (servs_of lk) <= 5)%nat; [|lia]. apply ids_ok_length. split; [by intros E; rewrite E in Hi|done]. }
  split; [split|]; fold toks'.
  - rewrite Et. case_decide; cbn; [done|]. by apply NoDup_cons in Hnd as [_ Hnd].
  - intros k0 ds0 [[<- <-]|[Hne Hk0]]%lookup_insert_Some.
    + apply (known_take A (omap lock_id fl) toks' fl ms k active ds p lk ds' effs i); try done. by apply Hs.
    + apply (known_step A (omap lock_id fl) toks' fl ms k k0 ds0 (lk_id lk) (servs_of lk) i); try done. by apply Hs.
  - intros id servs j k0 HA' Hk0. apply lookup_insert_Some in HA' as [[<- [= <- <-]]|[Hne HA']].
    + left. rewrite Et. rewrite decide_True; [by left|]. apply lookup_lt_Some in Hk0. lia.
    + destruct (Hpl id servs j k0 HA' Hk0) as [Hin|(ds0 & Hds0 & Hw)].
      * left. apply elem_of_cons in Hin as [->|Hin]; [done|]. rewrite Et. apply elem_of_app. by right.
      * right. destruct (decide (k = k0)) as [<-|]; [|exists ds0; by rewrite lookup_insert_ne].
        rewrite Hk in Hds0. simplify_eq. exists ds'. rewrite lookup_insert_eq. split; [done|].
        by apply (waits_at_taken active ds0 p lk ds' effs).
  - intros id servs j [[<- [= <- <-]]|[_ HA']]%lookup_insert_Some; [done|by eapply Hso].
  - intros id Hin. apply lookup_insert_is_Some'. apply Hsub in Hin. by right; apply Htk.
  - split; intros m [Hm|Hm]%elem_of_app Hfm.
    + destruct (Hread m Hm Hfm) as (q & Hr). rewrite Hpos, Hcl in Hr. exists (S i), (lk_id lk), (lk_elems lk), q.
      by rewrite lookup_insert_eq.
    + destruct (ca_lock _ _ Hc m Hm Hfm) as (j & id & elems & q & Hr & HAm). exists j, id, elems, q. split; [done|].
      rewrite lookup_insert_ne; [done|]. intros <-. apply NoDup_cons in Hnd as [Hni _]. apply Hni.
      apply list_elem_of_omap. exists m. split; [done|]. unfold lock_id. by rewrite decide_True, Hr.
    + destruct (Hend m Hm Hfm) as (q & Hr & Hto). rewrite Hcl in Hto. by exists (lk_id lk), q.
    + by apply (ca_end _ _ Hc m).
Qed.

(** a request leaves the list of those that wait *)
Lemma unlink_walking A toks fl ss k ds w lk :
  walking A toks fl ss → ss !! k = Some ds → base ds → w ∈ ds_waiting ds → ds_heap ds !! w = Some lk →
  walking A (lk_id lk :: toks) fl (<[k := unlink ds w]> ss).
Proof using HKL.
  intros [Hnd Hs Hpl Hso Htk] Hk Hb Hw Hlw.
  destruct (unlink_waiting ds w Hb Hw) as (_ & Es & _ & _).
  destruct (kn_wait _ _ _ _ _ (Hs k ds Hk) w lk Hw Hlw) as (i & Hpos & HA & Hi & Hni).
  assert (∀ k0 ds0 w0 lw0, ss !! k0 = Some ds0 → w0 ∈ ds_waiting ds0 → ds_heap ds0 !! w0 = Some lw0 →
    lk_id lw0 = lk_id lk → k0 = k ∧ w0 = w) as Honly.
  { intros k0 ds0 w0 lw0 Hk0 Hw0 Hlw0 E. destruct (kn_wait _ _ _ _ _ (Hs k0 ds0 Hk0) w0 lw0 Hw0 Hlw0) as (i0 & _ & HA0 & Hi0 & _).
    rewrite E, HA in HA0. injection HA0 as E1 <-. rewrite <-E1, Hi in Hi0. injection Hi0 as ->. split; [done|].
    rewrite Hk in Hk0. injection Hk0 as ->. by apply (kn_uniq _ _ _ _ _ (Hs k0 ds0 Hk) w0 w lw0 lk). }
  split; [by constructor| | |done|].
  - intros k0 ds0 [[<- <-]|[Hne Hk0]]%lookup_insert_Some.
    + destruct (Hs k ds Hk) as [H1 H2 H3]. split; rewrite ?Es; [exact H1| |].
      * intros w0 lw0 [Hw0 Hne]%elem_of_filter_ne Hlw0. destruct (H2 w0 lw0 Hw0 Hlw0) as (i0 & ? & ? & ? & Hni0).
        exists i0. split_and!; try done. intros [E|]%elem_of_cons; [|done]. by destruct (Honly k ds w0 lw0 Hk Hw0 Hlw0 E).
      * intros w1 w2 l1 l2 [Hw1 _]%elem_of_filter_ne [Hw2 _]%elem_of_filter_ne. by apply H3.
    + destruct (Hs k0 ds0 Hk0) as [H1 H2 H3]. split; [done| |done].
      intros w0 lw0 Hw0 Hlw0. destruct (H2 w0 lw0 Hw0 Hlw0) as (i0 & ? & ? & ? & Hni0).
      exists i0. split_and!; try done. intros [E|]%elem_of_cons; [|done]. by destruct (Honly k0 ds0 w0 lw0 Hk0 Hw0 Hlw0 E).
  - intros id servs j k0 HA' Hk0. destruct (Hpl id servs j k0 HA' Hk0) as [Hin|(ds0 & Hds0 & w0 & lw0 & Hw0 & Hlw0 & Hid)].
    { left. by right. }
    destruct (decide (id = lk_id lk)) as [->|Hne]; [left; by left|]. right.
    destruct (decide (k = k0)) as [<-|]; [|exists ds0; rewrite lookup_insert_ne by done; split; [done|by exists w0, lw0]].
    rewrite Hk in Hds0. simplify_eq. eexists. rewrite lookup_insert_eq. split; [done|]. exists w0, lw0.
    split; [|done]. cbn. apply elem_of_filter_ne. split; [done|]. intros ->. congruence.
  - intros id [->|Hin]%elem_of_cons; [by rewrite HA|by apply Htk].
Qed.

(** [label_loop] on the network *)
Lemma wake_walks A fl ss k active junk fuel ds ds' effs ms :
  (∀ s, active s = true) → walks A fl ss → ss !! k = Some ds → base ds → waits_held ds →
  wake_loop active junk fuel ds = Some (ds', effs) → flows k effs ms →
  ∃ A', goes 0 A fl A' (ms ++ fl) ∧ walks A' (ms ++ fl) (<[k := ds']> ss).
Proof using HKL.
  intros Ha. revert A fl ss ds effs ms. induction fuel as [|fuel IH]; intros A fl ss ds effs ms Hwk Hk Hb Hw Hl Hf; [done|].
  cbn [wake_loop] in Hl. destruct (find_free_spec junk ds (ds_waiting ds) Hb) as (r & Er & Hr); [done|].
  rewrite Er in Hl. cbn [mbind option_bind] in Hl. destruct r as [p|].
  2: { simplify_eq. apply Forall2_nil_inv_l in Hf as ->. exists A. rewrite insert_id by done. split; [by apply goes_refl; [|cbn; lia]|done]. }
  destruct Hr as [Hp _]. destruct (unlink_waiting ds p Hb Hp) as (Hb1 & _ & Hpl & _).
  destruct (b_heap _ Hb p) as [lk Hlk]; [apply elem_of_app; by right|].
  assert (waits_held (unlink ds p)) as Hw1 by (intros w lw [Hin _]%elem_of_filter_ne; by apply Hw).
  destruct (take_done_spec active (unlink ds p) p lk Hb1 Hpl Hlk) as (ds2 & e2 & E2 & Ht). rewrite E2 in Hl.
  cbn [mbind option_bind] in Hl. apply bind_Some in Hl as ([ds3 e3] & E3 & Hl). injection Hl as -> <-.
  apply flows_app in Hf as (ms1 & ms2 & -> & Hf1 & Hf2). destruct Hwk as [Hwk Hc].
  destruct (kn_wait _ _ _ _ _ (wk_serv _ _ _ _ Hwk k ds Hk) p lk Hp Hlk) as (i & Hpos & HA & Hi & _).
  destruct (take_walks A fl (<[k := unlink ds p]> ss) k active (unlink ds p) p lk ds2 e2 ms1 i) as (A1 & Hd1 & Hwk1); try done.
  - by apply unlink_walking.
  - by rewrite lookup_insert_eq.
  - by apply (Hw p).
  - rewrite insert_insert_eq in Hwk1.
    destruct (IH A1 (ms1 ++ fl) (<[k := ds2]> ss) ds2 e3 ms2) as (A2 & Hd2 & Hwk2); try done.
    + by rewrite lookup_insert_eq.
    + apply Ht.
    + by apply (taken_waits (unlink ds p) p lk).
    + rewrite insert_insert_eq in Hwk2. exists A2.
      assert (ms2 ++ ms1 ++ fl ≡ₚ (ms1 ++ ms2) ++ fl) as Ep by (by rewrite app_assoc, (Permutation_app_comm ms2)).
      split; [|by apply (walks_perm _ (ms2 ++ ms1 ++ fl))]. apply (goes_trans _ _ _ A1 (ms1 ++ fl)); [done|].
      apply (goes_trans _ _ _ A2 (ms2 ++ ms1 ++ fl)); [done|]. apply goes_refl; [by rewrite Ep|rewrite Ep; lia].
Qed.

(** ** A message is handled *)

(** a message that tells nothing is gone *)
Lemma walking_drop A toks fl fl' ss :
  (∀ s k id, unlock_coming fl s k id → unlock_coming fl' s k id) → walking A toks fl ss → walking A toks fl' ss.
Proof using Type.
  intros Hu [Hnd Hs Hpl Hso Htk]. split; try done. intros k ds Hk. destruct (Hs k ds Hk) as [H1 H2 H3]. split; [|done..].
  intros p lk Hp Hlk. destruct (H1 p lk Hp Hlk) as (i & pos & ? & ? & ? & ? & ? & Hpr). exists i, pos. split_and!; try done.
  intros j e Hj He Hf. destruct (Hpr j e Hj He Hf); [by left|right; by apply Hu].
Qed.
Lemma unlock_coming_cons m fl s k id :
  (s_packet_get_fun (ms_pkt m) = S_PKT_TYPE_LOCK_UNLOCK → sv_type (ms_from m) = S_SERV_TYPE_D →
   ∀ p, read_id (ms_pkt m) = Some (id, p) → ms_to m = Serv S_SERV_TYPE_D k → ms_from m = Serv S_SERV_TYPE_D s → False) →
  unlock_coming (m :: fl) s k id → unlock_coming fl s k id.
Proof using Type.
  intros Hn (m' & p & [->|Hm]%elem_of_cons & Hto & Hfr & Hfn & Hr); [|by exists m', p]. exfalso.
  apply (Hn Hfn) with p; try done. by rewrite Hfr.
Qed.

Lemma other_walks A fl m ss :
  ¬ for_lock m → (∀ s k id, unlock_coming (m :: fl) s k id → unlock_coming fl s k id) →
  walks A (m :: fl) ss → walks A fl ss.
Proof using Type.
  intros Hn Hu [Hw Hc]. split; [|apply (carried_sub A (m :: fl)); [|done]; intros m' Hm'; by right].
  apply (walking_drop _ _ (m :: fl)); [done|]. cbn [omap list_omap] in Hw. unfold lock_id in Hw at 1.
  by rewrite decide_False in Hw.
Qed.

Lemma with_lock_walking A toks fl ss k ds lk :
  base ds → ss !! k = Some ds → walking A toks fl ss → walking A toks fl (<[k := with_lock ds lk]> ss).
Proof using HKL.
  intros Hb Hk [Hnd Hs Hpl Hso Htk]. destruct (with_lock_spec 0 ds lk Hb) as (_ & _ & _ & Hfr & _).
  assert (∀ w, w ∈ ds_waiting ds → ds_heap (with_lock ds lk) !! w = ds_heap ds !! w) as Hw.
  { intros w Hw. apply Hfr, elem_of_app. by right. }
  split; try done.
  - intros k0 ds0 [[<- <-]|[Hne Hk0]]%lookup_insert_Some; [|by apply Hs]. destruct (Hs k ds Hk) as [H1 H2 H3]. split.
    + intros p lp Hp Hlp. apply (H1 p lp Hp). rewrite <-(proj2 (Hfr p ltac:(apply elem_of_app; by left))). done.
    + intros w lw Hin Hlw. rewrite Hw in Hlw by done. by apply (H2 w).
    + intros w w' lw lw' Hin Hin' E E'. rewrite Hw in E, E' by done. by apply H3.
  - intros id servs i k0 HA Hk0. destruct (Hpl id servs i k0 HA Hk0) as [|(ds0 & Hds0 & w & lw & Hin & Hlw & Hid)]; [by left|].
    right. destruct (decide (k = k0)) as [<-|]; [|exists ds0; rewrite lookup_insert_ne by done; split; [done|by exists w, lw]].
    rewrite Hk in Hds0. simplify_eq. eexists. rewrite lookup_insert_eq. split; [done|]. exists w, lw. by rewrite Hw.
Qed.

Lemma enqueue_walks A fl ss k ds p lk i :
  p ∉ listed ds → ds_heap ds !! p = Some lk → ss !! k = Some ds → placed lk i →
  A !! lk_id lk = Some (servs_of lk, i) → servs_of lk !! i = Some k →
  walking A (lk_id lk :: omap lock_id fl) fl ss → carried A fl → walks A fl (<[k := enqueued ds p]> ss).
Proof using Type.
  intros Hp Hlk Hk Hpos HA Hi [Hnd Hs Hpl Hso Htk] Hc. apply NoDup_cons in Hnd as [Hni Hnd]. split; [|done].
  assert (∀ k0 ds0, known_at A (lk_id lk :: omap lock_id fl) fl k0 ds0 → known_at A (omap lock_id fl) fl k0 ds0) as Hweak.
  { intros k0 ds0 [H1 H2 H3]. split; [done| |done]. intros w lw Hw Hlw.
    destruct (H2 w lw Hw Hlw) as (j & ? & ? & ? & Hnj). exists j. split_and!; try done. intros Hin. apply Hnj. by right. }
  split; try done.
  - intros k0 ds0 [[<- <-]|[Hne Hk0]]%lookup_insert_Some; [|by apply Hweak, Hs].
    destruct (Hs k ds Hk) as [_ H2' _]. destruct (Hweak k ds (Hs k ds Hk)) as [H1 H2 H3].
    assert (∀ w lw, w ∈ ds_waiting ds → ds_heap ds !! w = Some lw → lk_id lw ≠ lk_id lk) as Hne.
    { intros w lw Hw Hlw E. destruct (H2' w lw Hw Hlw) as (_ & _ & _ & _ & Hn). apply Hn. rewrite E. by left. }
    split; [done| |]; unfold enqueued; cbn [ds_waiting ds_heap].
    + intros w lw [Hw| ->%list_elem_of_singleton]%elem_of_app Hlw; [by apply (H2 w)|]. rewrite Hlk in Hlw. injection Hlw as <-.
      by exists i.
    + intros w w' lw lw' [Hw| ->%list_elem_of_singleton]%elem_of_app [Hw'| ->%list_elem_of_singleton]%elem_of_app E E' Eid; [by apply (H3 w w' lw lw')| | |done].
      * rewrite Hlk in E'. injection E' as <-. by destruct (Hne w lw Hw E).
      * rewrite Hlk in E. injection E as <-. by destruct (Hne w' lw' Hw' E').
  - intros id servs j k0 HA' Hk0. destruct (Hpl id servs j k0 HA' Hk0) as [[->|Hin]%elem_of_cons|(ds0 & Hds0 & w & lw & Hw & Hlw & Hid)].
    + rewrite HA in HA'. injection HA' as <- <-. rewrite Hi in Hk0. injection Hk0 as <-. right. eexists. rewrite lookup_insert_eq.
      split; [done|]. exists p, lk. split; [|done]. apply elem_of_app. right. by apply list_elem_of_singleton.
    + by left.
    + right. destruct (decide (k = k0)) as [<-|]; [|exists ds0; rewrite lookup_insert_ne by done; split; [done|by exists w, lw]].
      rewrite Hk in Hds0. simplify_eq. eexists. rewrite lookup_insert_eq. split; [done|]. exists w, lw.
      split; [|done]. apply elem_of_app. by left.
  - intros id Hin. apply Htk. by right.
Qed.

(** a request arrives *)
Lemma lock_walks A fl m ss k active junk ds ds' effs ms :
  (∀ s, active s = true) → for_lock m → lock_at k (ms_pkt m) → walks A (m :: fl) ss → ss !! k = Some ds → dserv_ok k ds →
  s_core_dserv_lock k active junk ds (ms_from m) (ms_pkt m) = Some (ds', effs) → flows k effs ms →
  ∃ A', goes 1 A (m :: fl) A' (ms ++ fl) ∧ walks A' (ms ++ fl) (<[k := ds']> ss).
Proof using HKL.
  intros Ha Hfl Hl [Hw Hc] Hk [Hb _ _ _] E Hf.
  destruct (ca_lock _ _ Hc m ltac:(left) Hfl) as (i & id & elems & q & Hr & HA).
  assert (walking A (id :: omap lock_id fl) fl ss) as Hw1.
  { cbn [omap list_omap] in Hw. unfold lock_id in Hw at 1. rewrite decide_True, Hr in Hw by done.
    apply (walking_drop _ _ (m :: fl)); [|done]. intros s k0 id0. apply unlock_coming_cons. intros Hfn Hty.
    unfold for_lock in Hfl. rewrite Hfn, Hty in Hfl. by destruct Hfl. }
  assert (carried A fl) as Hc1 by (apply (carried_sub A (m :: fl)); [|done]; intros m' Hm'; by right).
  assert (goes 1 A (m :: fl) A fl) as Hg.
  { apply goes_refl; [|cbn; lia]. cbn [omap list_omap]. unfold end_id at 1. rewrite decide_False; [done|]. unfold for_end.
    destruct Hfl as [[= -> ->]|[= -> ->]]; by intros [= ?]. }
  destruct (lock_held k _ _ _ _ _ _ Hl Hr) as (Hh & _ & e & He & Hek). set (lk := new_lock (Z.of_nat i) (id_x id) id elems q) in *.
  unfold array_at in He. rewrite decide_True, Nat2Z.id in He by lia.
  assert (placed lk i ∧ servs_of lk !! i = Some k) as [Hpos Hi].
  { split; [split; [unfold lk, new_lock; cbn [lk_next_pos]; lia|done]|]. unfold servs_of. cbn. rewrite list_lookup_fmap, He. cbn. by rewrite Hek. }
  destruct (with_lock_spec junk ds lk Hb) as (Hb1 & Hpl & Hlk1 & _ & _).
  pose proof (with_lock_walking A _ fl ss k ds lk Hb Hk Hw1) as Hw2.
  destruct (dserv_lock_eq k active junk ds (ms_from m) (ms_pkt m) (Z.of_nat i) (id_x id) id elems q e) as [[_ E']|[_ E']]; try done.
  { unfold array_at. by rewrite decide_True, Nat2Z.id by lia. }
  - fold lk in E'. rewrite E in E'. injection E' as -> ->. apply Forall2_nil_inv_l in Hf as ->. exists A. split; [done|].
    rewrite <-(insert_insert_eq ss k _ (with_lock ds lk)). apply (enqueue_walks A fl _ k _ _ lk i); try done. by rewrite lookup_insert_eq.
  - fold lk in E'. rewrite E in E'. symmetry in E'.
    destruct (take_walks A fl (<[k := with_lock ds lk]> ss) k active (with_lock ds lk) (fresh_ptr ds) lk ds' effs ms i Ha Hw2 Hc1) as (A' & Hd & Hwk); try done.
    { by rewrite lookup_insert_eq. }
    exists A'. rewrite insert_insert_eq in Hwk. split; [|done]. by apply (goes_trans _ _ _ A fl).
Qed.

(** the server that tells is marked *)
Lemma mark_loop_marks s f (l : list s_core_lock_elem) j e :
  NoDup (le_serv_id <$> l) → (mark_loop s f l).2 !! j = Some e → le_serv_id e = s → le_finish e = true.
Proof using Type.
  revert f j. induction l as [|x l IH]; intros f j Hnd Hj Hs; [done|]. cbn [mark_loop] in Hj.
  apply NoDup_cons in Hnd as [Hni Hnd]. fold (le_serv_id <$> l) in *. destruct (_ =? s) eqn:E; zbool.
  - destruct j as [|j].
    { destruct f; cbn [negb] in Hj; [destruct (mark_loop s true l)|]; cbn in Hj; by simplify_eq. }
    exfalso. assert (∃ y, l !! j = Some y ∧ le_serv_id y = s) as (y & Hy & Ey).
    { destruct f; cbn [negb] in Hj; [|by exists e].
      pose proof (mark_loop_finer s true l) as Hf. destruct (mark_loop s true l) as [f' r]. cbn in Hj, Hf.
      destruct (Forall2_lookup_r _ _ _ j e Hf Hj) as (y & Hy & Ey & _). exists y. split; [done|congruence]. }
    apply Hni. rewrite E, <-Ey. by eapply list_elem_of_fmap_2, list_elem_of_lookup_2.
  - destruct j as [|j].
    + destruct (mark_loop s _ l). cbn in Hj. simplify_eq.
    + apply (IH (if le_finish x then f else false) j Hnd); [|done]. by destruct (mark_loop s _ l).
Qed.

Lemma servs_of_marked s lk : servs_of (marked s lk) = servs_of lk.
Proof using Type.
  unfold servs_of, marked. cbn [lk_elems]. pose proof (mark_loop_finer s true (lk_elems lk)) as Hf.
  induction Hf as [|x y l l' [E _] _ IH]; [done|]. cbn. by rewrite E, IH.
Qed.

(** an unlock arrives: the element of [s] is marked in the request [id] *)
Lemma known_marked A toks fl m k k0 ds0 s id pm :
  ms_to m = Serv S_SERV_TYPE_D k → ms_from m = Serv S_SERV_TYPE_D s → read_id (ms_pkt m) = Some (id, pm) →
  known_at A toks (m :: fl) k0 ds0 →
  (k0 = k → ∀ p lk j e, p ∈ ds_sent ds0 → ds_heap ds0 !! p = Some lk → lk_id lk = id →
    lk_elems lk !! j = Some e → le_serv_id e = s → le_finish e = true) →
  known_at A toks fl k0 ds0.
Proof using Type.
  intros Hto Hfr Hr [H1 H2 H3] Hm. split; [|done..]. intros p lk Hp Hlk.
  destruct (H1 p lk Hp Hlk) as (i & pos & ? & ? & ? & ? & ? & Hpr). exists i, pos. split_and!; try done.
  intros j e Hj He Hf. destruct (Hpr j e Hj He Hf) as [|Hu]; [by left|]. right. revert Hu. apply unlock_coming_cons.
  intros _ _ q Hq Hto' Hfr'. rewrite Hr in Hq. rewrite Hto in Hto'. rewrite Hfr in Hfr'. injection Hq as Hq _. injection Hto' as ->. injection Hfr' as ->.
  rewrite (Hm eq_refl p lk j e) in Hf; done.
Qed.

Lemma mark_walking A toks fl m ss k ds s id pm p lk :
  ms_to m = Serv S_SERV_TYPE_D k → ms_from m = Serv S_SERV_TYPE_D s → read_id (ms_pkt m) = Some (id, pm) →
  walking A toks (m :: fl) ss → ss !! k = Some ds → base ds → tbl_map (ds_locks ds) !! id = Some p →
  ds_heap ds !! p = Some lk →
  walking A toks fl (<[k := set_heap ds (<[p := marked s lk]> (ds_heap ds))]> ss).
Proof using Type.
  intros Hto Hfr Hr [Hnd Hs Hpl Hso Htk] Hk Hb Hid Hlk. destruct (b_locks _ Hb id p Hid) as [Hp (lk0 & Hlk0 & Eid)].
  rewrite Hlk in Hlk0. injection Hlk0 as <-.
  assert (p ∉ ds_waiting ds) as Hpw.
  { intros Hin. pose proof (b_nodup _ Hb) as Hn. apply NoDup_app in Hn as (_ & Hd & _). by apply (Hd p). }
  split; try done.
  - intros k0 ds0 [[<- <-]|[Hne Hk0]]%lookup_insert_Some.
    2: { apply (known_marked A toks fl m k k0 ds0 s id pm); try done. by apply Hs. }
    destruct (Hs k ds Hk) as [H1 H2 H3]. apply (known_marked A toks fl m k k _ s id pm); try done.
    + split; cbn [set_heap ds_sent ds_heap ds_waiting ds_locks].
      * intros q lq Hq Hlq. rewrite lookup_insert in Hlq. case_decide as E; [|by apply H1]. subst q. injection Hlq as <-.
        destruct (H1 p lk Hp Hlk) as (i & pos & ? & ? & ? & ? & ? & Hpr). exists i, pos. rewrite servs_of_marked.
        unfold marked at 1 2 3. cbn [lk_next_pos lk_id]. split_and!; try done.
        intros j e Hj He Hf. unfold marked in He. cbn [lk_elems] in He.
        destruct (Forall2_lookup_r _ _ _ j e (mark_loop_finer s true (lk_elems lk)) He) as (e0 & He0 & Es & Hfin).
        unfold marked. cbn [lk_id]. rewrite Es. apply Hpr; [done..|]. destruct (le_finish e0); [|done]. by rewrite Hfin in Hf.
      * intros w lw Hw Hlw. rewrite lookup_insert_ne in Hlw by (by intros <-). by apply (H2 w).
      * intros w w' lw lw' Hw Hw' E E'. rewrite lookup_insert_ne in E, E' by (by intros <-). by apply H3.
    + intros _ q lq j e Hq Hlq Eq He Es. cbn [set_heap ds_sent ds_heap] in *. rewrite lookup_insert in Hlq.
      case_decide as E; [|]. 
      * subst q. injection Hlq as <-. unfold marked in He. cbn [lk_elems] in He.
        apply (mark_loop_marks s true (lk_elems lk) j e); try done.
        destruct (H1 p lk Hp Hlk) as (i & pos & _ & HA & _). destruct (Hso _ _ _ HA) as [Hsorted _]. by apply sorted_NoDup.
      * exfalso. apply E. destruct (H1 q lq Hq Hlq) as (i & pos & _ & _ & _ & _ & Ht & _). rewrite Eq, Hid in Ht. by injection Ht.
  - intros id0 servs i k0 HA Hk0. destruct (Hpl id0 servs i k0 HA Hk0) as [|(ds0 & Hds0 & w & lw & Hw & Hlw & Eq)]; [by left|].
    right. destruct (decide (k = k0)) as [<-|]; [|exists ds0; rewrite lookup_insert_ne by done; split; [done|by exists w, lw]].
    rewrite Hk in Hds0. injection Hds0 as <-. eexists. rewrite lookup_insert_eq. split; [done|]. exists w, lw.
    cbn. rewrite lookup_insert_ne by (by intros <-). done.
Qed.

(** the request that everybody is done with *)
Lemma finished_walking A toks fl ss k ds p lk id :
  walking A toks fl ss → ss !! k = Some ds → base ds → tbl_map (ds_locks ds) !! id = Some p → ds_heap ds !! p = Some lk →
  walking A toks fl (<[k := free_lock (unlink (set_locks ds (tbl_del (ds_locks ds) id)) p) p]> ss).
Proof using HKL.
  intros [Hnd Hs Hpl Hso Htk] Hk Hb Hid Hlk. destruct (b_locks _ Hb id p Hid) as [Hp (lk0 & Hlk0 & Eid)].
  rewrite Hlk in Hlk0. injection Hlk0 as <-.
  assert (p ∉ ds_waiting ds) as Hpw.
  { intros Hin. pose proof (b_nodup _ Hb) as Hn. apply NoDup_app in Hn as (_ & Hd & _). by apply (Hd p). }
  destruct (tbl_del_ok (ds_locks ds) id (b_wf _ Hb)) as [_ Em]. split; try done.
  - intros k0 ds0 [[<- <-]|[Hne Hk0]]%lookup_insert_Some; [|by apply Hs].
    destruct (Hs k ds Hk) as [H1 H2 H3]. split; cbn -[filter delete]; rewrite ?(filter_ne_id p (ds_waiting ds)) by done.
    + intros q lq [Hq Hne]%elem_of_filter_ne Hlq. rewrite lookup_delete_ne in Hlq by done.
      destruct (H1 q lq Hq Hlq) as (i & pos & ? & ? & ? & ? & Ht & ?). exists i, pos. rewrite Em, lookup_delete_ne; [done|].
      intros ->. rewrite Hid in Ht. by injection Ht as ->.
    + intros w lw Hw Hlw. rewrite lookup_delete_ne in Hlw by (by intros <-). by apply (H2 w).
    + intros w w' lw lw' Hw Hw' E E'. rewrite lookup_delete_ne in E, E' by (by intros <-). by apply H3.
  - intros id0 servs i k0 HA Hk0. destruct (Hpl id0 servs i k0 HA Hk0) as [|(ds0 & Hds0 & w & lw & Hw & Hlw & Eq)]; [by left|].
    right. destruct (decide (k = k0)) as [<-|]; [|exists ds0; rewrite lookup_insert_ne by done; split; [done|by exists w, lw]].
    rewrite Hk in Hds0. injection Hds0 as <-. eexists. rewrite lookup_insert_eq. split; [done|]. exists w, lw.
    cbn -[filter delete]. rewrite filter_ne_id, lookup_delete_ne by (done || by intros <-). done.
Qed.

(** a server tells that it is done with a request *)
Lemma unlock_walks A fl m ss k active junk ds ds' effs ms :
  (∀ s, active s = true) → s_packet_get_fun (ms_pkt m) = S_PKT_TYPE_LOCK_UNLOCK → sv_type (ms_from m) = S_SERV_TYPE_D →
  ms_to m = Serv S_SERV_TYPE_D k → walks A (m :: fl) ss → ss !! k = Some ds → dserv_ok k ds →
  s_core_dserv_lock_unlock active junk ds (ms_from m) (ms_pkt m) = Some (ds', effs) → flows k effs ms →
  ∃ A', goes 1 A (m :: fl) A' (ms ++ fl) ∧ walks A' (ms ++ fl) (<[k := ds']> ss).
Proof using HKL.
  intros Ha Hfn Hty Hto Hwk Hk [Hb _ _ Hw] E Hf.
  assert (¬ for_lock m) as Hnl by (unfold for_lock; rewrite Hfn, Hty; by intros [[=]|[= ?]]).
  destruct (ms_from m) as [t s] eqn:Efr. cbn in Hty. subst t.
  assert (goes 1 A (m :: fl) A fl) as Hg.
  { apply goes_refl; [|cbn; lia]. cbn [omap list_omap]. unfold end_id at 1. rewrite decide_False; [done|]. unfold for_end. rewrite Hfn. by intros [= ?]. }
  assert (carried A fl) as Hc by (apply (carried_sub A (m :: fl)); [intros m' Hm'; by right|apply Hwk]).
  assert (walking A (omap lock_id fl) (m :: fl) ss) as Hw0.
  { destruct Hwk as [Hw0 _]. cbn [omap list_omap] in Hw0. unfold lock_id in Hw0 at 1. by rewrite decide_False in Hw0. }
  assert (walks A fl ss → ds' = ds → effs = [] → ∃ A', goes 1 A (m :: fl) A' (ms ++ fl) ∧ walks A' (ms ++ fl) (<[k := ds']> ss)) as Hnop.
  { intros Hwk' -> ->. apply Forall2_nil_inv_l in Hf as ->. exists A. by rewrite insert_id. }
  unfold s_core_dserv_lock_unlock in E. cbn [sv_id] in E. destruct (read_id (ms_pkt m)) as [[id pm]|] eqn:Er.
  2: { injection E as <- <-. apply Hnop; [|done..]. apply (other_walks A fl m); try done.
       intros s0 k0 id0. apply unlock_coming_cons. intros _ _ q. by rewrite Er. }
  rewrite tbl_get_ok in E by apply Hb. destruct (tbl_map (ds_locks ds) !! id) as [p|] eqn:Hid.
  2: { injection E as <- <-. apply Hnop; [|done..]. split; [|done]. split; try apply Hw0. intros k0 ds0 Hk0.
       apply (known_marked A _ fl m k k0 ds0 s id pm); try done; [by apply Hw0|]. intros -> p lk j e Hp Hlk Eid _ _.
       rewrite Hk in Hk0. injection Hk0 as <-.
       destruct (kn_sent _ _ _ _ _ (wk_serv _ _ _ _ Hw0 k ds Hk) p lk Hp Hlk) as (i & pos & _ & _ & _ & _ & Ht & _).
       by rewrite Eid, Hid in Ht. }
  destruct (b_locks _ Hb id p Hid) as [Hp (lk & Hlk & Eid)]. rewrite Hlk in E. cbn [mbind option_bind] in E.
  destruct (mark_loop s true (lk_elems lk)) as [finish elems] eqn:Em.
  replace (Lock (lk_pkt lk) (lk_id lk) (lk_client_id lk) (lk_next_pos lk) (lk_next_serv lk) elems) with (marked s lk) in E by (unfold marked; by rewrite Em).
  set (ds1 := set_heap ds (<[p := marked s lk]> (ds_heap ds))) in *.
  assert (walking A (omap lock_id fl) fl (<[k := ds1]> ss)) as Hw1 by (by apply (mark_walking A _ fl m ss k ds s id pm p lk)).
  assert (base ds1) as Hb1 by by apply (update_base ds p lk).
  assert (p ∉ ds_waiting ds) as Hpw.
  { intros Hin. pose proof (b_nodup _ Hb) as Hn. apply NoDup_app in Hn as (_ & Hd & _). by apply (Hd p). }
  assert (waits_held ds1) as Hh1.
  { intros w lw Hin Hlw. apply (Hw w lw Hin). cbn in Hlw. rewrite lookup_insert_ne in Hlw; [done|]. by intros ->. }
  assert (ds_heap ds1 !! p = Some (marked s lk)) as Hlk1 by (cbn; by rewrite lookup_insert_eq).
  set (ds2 := if finish then _ else ds1) in *.
  assert (walking A (omap lock_id fl) fl (<[k := ds2]> ss) ∧ base ds2 ∧ waits_held ds2) as (Hw2 & Hb2 & Hh2).
  { unfold ds2. destruct finish; [|done]. split; [|split].
    - rewrite <-(insert_insert_eq ss k _ ds1). apply (finished_walking A _ fl _ k ds1 p (marked s lk) id); try done. by rewrite lookup_insert_eq.
    - by apply (finished_base junk ds1 p (marked s lk) id).
    - intros w lw [Hin Hne]%elem_of_filter_ne Hlw. cbn in Hlw. rewrite lookup_delete_ne in Hlw by done. by apply (Hh1 w). }
  destruct (wake_walks A fl (<[k := ds2]> ss) k active junk (S (length (ds_waiting ds2))) ds2 ds' effs ms Ha) as (A' & Hd & Hwk'); try done.
  - by rewrite lookup_insert_eq.
  - rewrite insert_insert_eq in Hwk'. exists A'. split; [|done]. by apply (goes_trans _ _ _ A fl).
Qed.

Lemma push_walks A fl ss k ds from pkt :
  walks A fl ss → ss !! k = Some ds → walks A fl (<[k := s_core_dserv_push_data ds from pkt]> ss).
Proof using Type.
  intros [[Hnd Hs Hpl Hso Htk] Hc] Hk. destruct (push_state ds from pkt) as [t ->]. split; [|done]. split; try done.
  - intros k0 ds0 [[<- <-]|[Hne Hk0]]%lookup_insert_Some; [|by apply Hs]. by destruct (Hs k ds Hk).
  - intros id servs i k0 HA Hk0. destruct (Hpl id servs i k0 HA Hk0) as [|(ds0 & Hds0 & Hw)]; [by left|]. right.
    destruct (decide (k = k0)) as [<-|]; [|exists ds0; by rewrite lookup_insert_ne].
    rewrite Hk in Hds0. injection Hds0 as <-. eexists. by rewrite lookup_insert_eq.
Qed.

Lemma serve_walks A fl m ss k active junk ds ds' effs ms :
  (∀ s, active s = true) → msg_ok m → ms_to m = Serv S_SERV_TYPE_D k → walks A (m :: fl) ss → ss !! k = Some ds →
  dserv_ok k ds → serv_handle k active junk ds (ms_from m) (ms_pkt m) = Some (ds', effs) → flows k effs ms →
  ∃ A', goes 1 A (m :: fl) A' (ms ++ fl) ∧ walks A' (ms ++ fl) (<[k := ds']> ss).
Proof using HKL.
  intros Ha Hm Hto Hwk Hk Hd E Hf.
  assert (for_end m → ∃ c, ms_to m = Serv S_SERV_TYPE_C c ∧ Serv S_SERV_TYPE_D k = Serv S_SERV_TYPE_C c) as Hend.
  { intros He. destruct (ca_end _ _ (proj2 Hwk) m ltac:(left) He) as (id & q & _ & Hto'). rewrite Hto in *. by exists (id_x id). }
  destruct (decide (for_lock m)) as [Hfl|Hnl].
  { destruct (Hm Hfl) as (k' & Hto' & Hl). rewrite Hto in Hto'. injection Hto' as <-.
    apply (lock_walks A fl m ss k active junk ds ds' effs ms); try done. revert E. unfold serv_handle.
    destruct Hfl as [-> | ->]; done. }
  destruct (decide ((sv_type (ms_from m), s_packet_get_fun (ms_pkt m)) = (S_SERV_TYPE_D, S_PKT_TYPE_LOCK_UNLOCK))) as [[= Ht Hfn]|Hnu].
  { apply (unlock_walks A fl m ss k active junk ds ds' effs ms); try done. revert E. unfold serv_handle. by rewrite Ht, Hfn. }
  assert (walks A fl ss) as Hwk'.
  { apply (other_walks A fl m); try done. intros s k0 id. apply unlock_coming_cons. intros Hfn Hty. by rewrite Hfn, Hty in Hnu. }
  assert (∃ ms', ms' = ms ∧ sends effs = []) as (_ & _ & Es).
  { exists ms. split; [done|]. revert E. unfold serv_handle. destruct ((list_to_map dserv_handlers : gmap (Z * Z) handler) !! (sv_type (ms_from m), s_packet_get_fun (ms_pkt m))) as [h|] eqn:Eh; [|by (intros ?; simplify_eq)].
    apply dserv_row in Eh as [[-> H]|[[-> H]|[->|[->| ->]]]]; try done; try by (intros ?; simplify_eq).
    unfold s_core_dserv_write. destruct (read_id _) as [[? ?]|]; by (intros ?; simplify_eq). }
  assert (ms = []) as -> by (unfold flows in Hf; rewrite Es in Hf; by apply Forall2_nil_inv_l in Hf).
  exists A. split.
  { apply goes_refl; [|cbn; lia]. cbn [omap list_omap app]. unfold end_id at 1. case_decide as He; [|done]. exfalso.
    destruct (Hend He) as (c & _ & Hc2). by injection Hc2. }
  cbn [app]. revert E. unfold serv_handle. destruct ((list_to_map dserv_handlers : gmap (Z * Z) handler) !! (sv_type (ms_from m), s_packet_get_fun (ms_pkt m))) as [h|] eqn:Eh; [|intros [= <- _]; by rewrite insert_id].
  apply dserv_row in Eh as [[-> H]|[[-> H]|[->|[->| ->]]]]; try done.
  - intros [= <- _]. by rewrite insert_id.
  - intros [= <- _]. by apply push_walks.
  - unfold s_core_dserv_write. destruct (read_id _) as [[? ?]|]; intros [= <- _]; by rewrite insert_id.
Qed.

(** a new request *)
Lemma request_walks A fl m ss id elems q :
  walks A fl ss → A !! id = None → for_lock m → read_lock (ms_pkt m) = Ok (0, id_x id, id, elems, q) →
  StronglySorted Z.lt (le_serv_id <$> elems) → Forall serv_ok (le_serv_id <$> elems) →
  (∀ s k id, ¬ unlock_coming [m] s k id) →
  walks (<[id := (le_serv_id <$> elems, 0%nat)]> A) (m :: fl) ss.
Proof using Type.
  intros [[Hnd Hs Hpl Hso Htk] Hc] HA Hfl Hr Hsorted Hok Hnu. set (A' := <[id := _]> A).
  assert (∀ id' x, A !! id' = Some x → A' !! id' = Some x ∧ id' ≠ id) as HA'.
  { intros id' x Hx. assert (id' ≠ id) as Hne by (intros ->; congruence). split; [|done]. unfold A'. by rewrite lookup_insert_ne. }
  assert (omap lock_id (m :: fl) = id :: omap lock_id fl) as Et.
  { cbn [omap list_omap]. unfold lock_id at 1. by rewrite decide_True, Hr. }
  split; [rewrite Et; split|].
  - constructor; [|done]. intros Hin. destruct (Htk id Hin) as [x Hx]. congruence.
  - intros k ds Hk. destruct (Hs k ds Hk) as [H1 H2 H3]. split; [| |done].
    + intros p lk Hp Hlk. destruct (H1 p lk Hp Hlk) as (i & pos & ? & Hx & ? & ? & ? & Hpr). exists i, pos.
      split_and!; try done; [by apply HA'|]. intros j e Hj He Hf. destruct (Hpr j e Hj He Hf) as [|Hu]; [by left|].
      right. by apply (unlock_coming_r fl [m]).
    + intros w lk Hw Hlk. destruct (H2 w lk Hw Hlk) as (i & ? & Hx & ? & Hni). exists i. destruct (HA' _ _ Hx) as [? Hne].
      split_and!; try done. by apply not_elem_of_cons.
  - intros id0 servs i k HA0 Hk. apply lookup_insert_Some in HA0 as [[<- _]|[Hne HA0]]; [left; left|].
    destruct (Hpl id0 servs i k HA0 Hk) as [|]; [left; by right|by right].
  - intros id0 servs i [[<- [= <- <-]]|[_ HA0]]%lookup_insert_Some; [done|by eapply Hso].
  - intros id0 [->|Hin]%elem_of_cons; [unfold A'; by rewrite lookup_insert_eq|].
    destruct (Htk id0 Hin) as [x Hx]. exists x. by apply HA'.
  - split; intros m' [->|Hm']%elem_of_cons Hf'.
    + exists 0%nat, id, elems, q. split; [done|]. unfold A'. by rewrite lookup_insert_eq.
    + destruct (ca_lock _ _ Hc m' Hm' Hf') as (i & id' & elems' & q' & Hr' & Hx). exists i, id', elems', q'.
      split; [done|]. by apply HA'.
    + unfold for_lock in Hfl. unfold for_end in Hf'. rewrite Hf' in Hfl. by destruct Hfl as [[=]|[= ?]].
    + by apply (ca_end _ _ Hc m').
Qed.

(** ** The clients, and all steps *)
Section clients.
Context {TC : Type} `{HC : !Table s_id s_glock_client TC, HCL : !TableLaws s_id s_glock_client TC}.
Implicit Types (cl : ud_client TC) (net : network TK TD TC).

(** [ans]: the requests that have been answered *)
Record client_knows A (ans : list s_id) (c : Z) cl : Prop := {
  ck_locks id : is_Some (tbl_map (ud_locks cl) !! id) ↔ id ∈ dom A ∧ id_x id = c;
  ck_fresh id : id ∈ dom A → id_x id = c → id_y id < ud_gid cl;
  ck_count : ud_C cl = Z.of_nat (length (filter (λ id, id_x id = c) ans))
}.

Record net_walks A (ans : list s_id) net : Prop := {
  nw_walks : walks A (nw_flight net) (nw_servs net);
  nw_ended : ended A (ans ++ omap end_id (nw_flight net));
  nw_knows c cl : nw_clients net !! c = Some cl → client_knows A ans c cl
}.

(** what a call of [access_data] changes *)
Lemma access_data_changes c active cl now cl' o :
  client_ok c cl → access_data c active cl now = Some (cl', o) →
  ud_C cl' = ud_C cl ∧
  match o with
  | None => ud_locks cl' = ud_locks cl ∧ ud_gid cl <= ud_gid cl'
  | Some _ => ud_gid cl' = ud_gid cl + 1 ∧ ∃ g, ud_locks cl' = tbl_put (ud_locks cl) (SId c (ud_gid cl)) g
  end.
Proof using Type.
  intros [Hc [Hg1 Hg2] [Ht1 Ht2] _ _ _]. unfold access_data. destruct (_ <? _) eqn:El; zbool.
  { intros [= <- <-]. by cbn. }
  intros Hs. apply bind_Some in Hs as (D & _ & Hs). apply bind_Some in Hs as (pkt & _ & Hs). apply bind_Some in Hs as (d & _ & Hs).
  cbn [ud_gid ud_gcount ud_max_try ud_gtv ud_access_id ud_locks ud_result ud_C] in *.
  assert (sint (ud_gid cl + 1) = ud_gid cl + 1) as E by (apply sint_small; unfold is_int; lia).
  destruct (active _); injection Hs as <- <-; cbn; rewrite E; (split; [done|]); [split; [done|]; by eexists|split; (done || lia)].
Qed.

(** the request that is sent *)
Lemma access_data_request c active cl now cl' k o q :
  client_ok c cl → access_data c active cl now = Some (cl', Some (k, o)) → arrives o q →
  let m := Msg k (Serv S_SERV_TYPE_C c) q in let id := SId c (ud_gid cl) in
  for_lock m ∧ ∃ elems p, read_lock q = Ok (0, c, id, elems, p) ∧ elems ≠ [] ∧
    StronglySorted Z.lt (le_serv_id <$> elems) ∧ Forall serv_ok (le_serv_id <$> elems).
Proof using Type.
  intros [Hc [Hg1 Hg2] [Ht1 Ht2] Hids _ _] Hs Ha. apply access_data_spec in Hs as (D & d & HDin & Hd & -> & _ & ->).
  destruct Ha as (Hw & Hpos & Hfn & tl & Hr). rewrite Forall_forall in Hids. destruct (Hids D HDin) as (Hne & Hok & Hsort).
  cbn zeta. split; [left; cbn; by rewrite Hfn|]. pose proof (ids_ok_length D (Hids D HDin)).
  destruct (read_lock_fields c (SId c (ud_gid cl)) D q tl) as (q' & Eq); try done; [|unfold is_int; cbn; lia|lia|].
  { eapply Forall_impl; [exact Hok|]. unfold serv_ok, MAX_DSERV, is_int. lia. }
  eexists _, q'. split; [exact Eq|]. assert (le_serv_id <$> ((λ d, LElem d (SId c (ud_gid cl)) false) <$> D) = D) as ->; [|by destruct D].
  clear. induction D as [|x D IH]; [done|]. cbn. by f_equal.
Qed.

Lemma client_knows_put A ans c cl cl' servs g :
  client_ok c cl → ud_C cl' = ud_C cl → ud_gid cl' = ud_gid cl + 1 →
  ud_locks cl' = tbl_put (ud_locks cl) (SId c (ud_gid cl)) g →
  client_knows A ans c cl → client_knows (<[SId c (ud_gid cl) := (servs, 0%nat)]> A) ans c cl'.
Proof using HCL.
  intros Hok EC Eg El [H1 H2 H3]. split; [| |by rewrite EC].
  - intros id. rewrite El, (proj2 (tbl_put_ok _ _ _ (cl_wf _ _ Hok))), dom_insert_L, elem_of_union, elem_of_singleton, lookup_insert_is_Some', H1.
    naive_solver.
  - intros id. rewrite dom_insert_L, elem_of_union, elem_of_singleton, Eg. intros [->|Hin] Hx; [cbn; lia|].
    specialize (H2 id Hin Hx). lia.
Qed.
Lemma client_knows_other A ans c c' cl id x :
  id_x id = c → c' ≠ c → client_knows A ans c' cl → client_knows (<[id := x]> A) ans c' cl.
Proof using Type.
  intros Hx Hne [H1 H2 H3]. split; [| |done].
  - intros id'. rewrite H1, dom_insert_L, elem_of_union, elem_of_singleton. naive_solver congruence.
  - intros id'. rewrite dom_insert_L, elem_of_union, elem_of_singleton. intros [->|Hin]; [congruence|by apply H2].
Qed.

(** a message that nobody counts comes or goes *)
Lemma end_id_other m fl : ¬ for_end m → omap end_id (m :: fl) = omap end_id fl.
Proof using Type. intros Hn. cbn [omap list_omap]. unfold end_id at 1. by rewrite decide_False. Qed.
Lemma lock_id_other m fl : ¬ for_lock m → omap lock_id (m :: fl) = omap lock_id fl.
Proof using Type. intros Hn. cbn [omap list_omap]. unfold lock_id at 1. by rewrite decide_False. Qed.

Lemma more_walks A fl m ss : ¬ for_lock m → ¬ for_end m → walks A fl ss → walks A (m :: fl) ss.
Proof using Type.
  intros Hn He [Hw Hc]. split.
  - rewrite lock_id_other by done. apply (walking_drop _ _ fl); [|done]. intros s k id. by apply (unlock_coming_r fl [m]).
  - split; intros m' [->|Hm]%elem_of_cons; try done; [by apply (ca_lock _ _ Hc)|by apply (ca_end _ _ Hc)].
Qed.

Lemma request_net ss cs fl c cl cl' active now k o q A ans :
  client_ok c cl → cs !! c = Some cl → access_data c active cl now = Some (cl', Some (k, o)) → arrives o q →
  net_walks A ans (Net ss cs fl) →
  ∃ A', net_walks A' ans (Net ss (<[c := cl']> cs) (Msg k (Serv S_SERV_TYPE_C c) q :: fl)).
Proof using HCL.
  intros Hok Hc Hs Ha [Hw (Hn & Hm & Hle) Hk]. cbn [nw_flight nw_servs nw_clients] in *.
  destruct (access_data_changes c active cl now cl' _ Hok Hs) as (EC & Eg & g & El).
  destruct (access_data_request c active cl now cl' k o q Hok Hs Ha) as (Hfl & elems & p & Hr & Hne & Hsort & Hserv).
  set (m := Msg k _ q) in *. set (id := SId c (ud_gid cl)) in *.
  assert (A !! id = None) as HA.
  { apply not_elem_of_dom. intros Hin. pose proof (ck_fresh _ _ _ _ (Hk c cl Hc) id Hin eq_refl) as Hlt. cbn in Hlt. lia. }
  assert (¬ for_end m) as Hnend by (unfold for_end; cbn; by intros [= ?]).
  exists (<[id := (le_serv_id <$> elems, 0%nat)]> A). split; cbn [nw_flight nw_servs nw_clients].
  - apply (request_walks A fl m ss id elems p); try done.
    intros s k0 id0 (m' & r & ->%list_elem_of_singleton & _ & Hfr & _). by injection Hfr.
  - rewrite end_id_other by done. split; [done|]. split.
    + intros id0. rewrite Hm. destruct (decide (id0 = id)) as [->|Hne0]; [|by rewrite lookup_insert_ne].
      rewrite HA, lookup_insert_eq. split; [by intros (? & ?)|]. intros (servs & [= <- E]). rewrite length_fmap in E.
      destruct elems; [done|]. by cbn in E.
    + intros id0 servs j [[<- [= <- <-]]|[_ H]]%lookup_insert_Some; [lia|by eapply Hle].
  - intros c0 cl0 [[<- <-]|[Hne0 Hc0]]%lookup_insert_Some.
    + by apply (client_knows_put A ans c cl cl' _ g); [..|apply Hk].
    + by apply (client_knows_other A ans c c0); [..|apply Hk].
Qed.

Lemma granted_net ss cs fl m c cl cl' now junk b A ans :
  client_ok c cl → cs !! c = Some cl → msg_ok m → ms_to m = Serv S_SERV_TYPE_C c → for_end m →
  lock_callback cl false (Some (ms_pkt m)) now junk = Some (cl', b) →
  net_walks A ans (Net ss cs (m :: fl)) → ∃ ans', net_walks A ans' (Net ss (<[c := cl']> cs) fl).
Proof using HCL.
  intros Hok Hc Hmok Hto He Hs [Hw Hend Hk]. cbn [nw_flight nw_servs nw_clients] in *.
  destruct (ca_end _ _ (proj2 Hw) m ltac:(left) He) as (id & p & Hr & Hto'). rewrite Hto in Hto'. injection Hto' as ->.
  assert (omap end_id (m :: fl) = id :: omap end_id fl) as Ee.
  { cbn [omap list_omap]. unfold end_id at 1. by rewrite decide_True, Hr. }
  rewrite Ee in Hend. assert (ans ++ id :: omap end_id fl ≡ₚ id :: ans ++ omap end_id fl) as Ep by by rewrite Permutation_middle.
  destruct Hend as (Hn & Hm & Hle). assert (id ∈ dom A) as Hin.
  { apply elem_of_dom. destruct (proj1 (Hm id)) as (servs & HA); [|by rewrite HA]. apply elem_of_app. right. left. }
  unfold lock_callback in Hs. rewrite Hr, tbl_get_ok in Hs by apply Hok.
  destruct (proj2 (ck_locks _ _ _ _ (Hk (id_x id) cl Hc) id) (conj Hin eq_refl)) as [g Hg]. rewrite Hg in Hs.
  destruct (id_y id <? 0); [done|]. injection Hs as <- _.
  exists (id :: ans). split; cbn [nw_flight nw_servs nw_clients].
  - apply (other_walks A fl m); try done.
    + intros [Hf|Hf]; unfold for_end in He; rewrite He in Hf; done.
    + intros s k id0. apply unlock_coming_cons. intros _ _ _ _ Hto'. rewrite Hto in Hto'. by injection Hto'.
  - split; [by rewrite <-app_comm_cons, <-Ep|]. split; [|done]. intros id0. by rewrite <-Hm, Ep.
  - intros c0 cl0 [[<- <-]|[Hne0 Hc0]]%lookup_insert_Some.
    + destruct (Hk _ _ Hc) as [H1 H2 H3]. split; cbn [ud_locks ud_gid ud_C]; try done.
      rewrite filter_cons_True by done. cbn [length]. lia.
    + destruct (Hk _ _ Hc0) as [H1 H2 H3]. split; try done. by rewrite filter_cons_False.
Qed.

Lemma handled_left net net' A ans :
  handled True net net' → net_inv net → net_walks A ans net →
  ∃ A' ans', net_walks A' ans' net' ∧ (left_over A' (nw_flight net') < left_over A (nw_flight net))%nat.
Proof using HKL HCL.
  destruct 1 as [ss cs fl fl' m ms k ds ds' active junk effs Hm Hto Hds Hact Hs Hf|
    ss cs fl fl' m c cl cl' now junk b Hm Hto Hcl He Hs|ss cs fl fl' m c cl Hm Hto Hcl Hne]; intros [H1 H2 H3] [Hw Hend Hk];
    cbn [nw_servs nw_clients nw_flight] in *; destruct (flight_perm _ _ _ Hm H3) as [Hok _];
    assert (ended A (ans ++ omap end_id (m :: fl'))) as He' by
      (destruct Hend as (E1 & E2 & E3); split; [by rewrite <-Hm|]; split; [|done]; intros id; by rewrite <-E2, Hm);
    assert (left_over A (m :: fl') = left_over A fl) as El by (unfold left_over; by rewrite Hm).
  - destruct (serve_walks A fl' m ss k active junk ds ds' effs ms (Hact I) Hok Hto) as (A' & [Hd Hg Hl] & Hw'); try done.
    { by apply (walks_perm A fl). }
    { by apply H1. }
    exists A', ans. split; [|lia]. split; cbn [nw_servs nw_clients nw_flight]; [done|by apply Hg|].
    intros c cl Hc. destruct (Hk c cl Hc) as [K1 K2 K3]. by split; rewrite ?Hd.
  - destruct (granted_net ss cs fl' m c cl cl' now junk b A ans (H2 _ _ Hcl) Hcl Hok Hto He Hs) as (ans' & ?).
    { split; cbn [nw_servs nw_clients nw_flight]; [by apply (walks_perm A fl)|done|done]. }
    exists A, ans'. split; [done|]. unfold left_over in *. cbn [length] in El. lia.
  - exists A, ans. split; [|unfold left_over in *; cbn [length] in El; lia].
    split; cbn [nw_servs nw_clients nw_flight]; [|by rewrite end_id_other in He'|done].
    apply (other_walks A fl' m); [| |by apply (walks_perm A fl)].
    + intros Hf. destruct (Hok Hf) as (k & Hto' & _). rewrite Hto in Hto'. by injection Hto'.
    + intros s k id. apply unlock_coming_cons. intros _ _ _ _ Hto'. rewrite Hto in Hto'. by injection Hto'.
Qed.

Lemma nstep_walks net net' A ans :
  nstep True net net' → net_inv net → net_walks A ans net → ∃ A' ans', net_walks A' ans' net'.
Proof using HKL HCL.
  destruct 1 as [ss cs fl c cl cl' active now k o q Hcl Hs Ha|ss cs fl c cl cl' active now Hcl Hs|ss cs fl c to q Hq|
    net net' Hh|ss cs fl fl' m Hno Hm]; intros Hi Hnw.
  - destruct (request_net ss cs fl c cl cl' active now k o q A ans (ni_clients _ Hi c cl Hcl) Hcl Hs Ha Hnw) as (A' & ?).
    by exists A', ans.
  - destruct (access_data_changes c active cl now cl' None (ni_clients _ Hi c cl Hcl) Hs) as (EC & El & Eg).
    destruct Hnw as [Hw Hend Hk]. exists A, ans. split; try done. cbn [nw_clients] in *.
    intros c0 cl0 [[<- <-]|[Hne0 Hc0]]%lookup_insert_Some; [|by apply Hk].
    destruct (Hk _ _ Hcl) as [K1 K2 K3]. split; [by rewrite El| |by rewrite EC].
    intros id Hin Hx. specialize (K2 id Hin Hx). lia.
  - destruct Hnw as [Hw Hend Hk]. exists A, ans. cbn [nw_servs nw_clients nw_flight] in *.
    assert (¬ for_end (Msg to (Serv S_SERV_TYPE_C c) q)) as Hne by (unfold for_end; cbn; by intros [= ?]).
    split; cbn [nw_servs nw_clients nw_flight]; [|by rewrite end_id_other|done].
    apply more_walks; try done. unfold for_lock. cbn. by intros [[= ?]|[= ?]].
  - destruct (handled_left net net' A ans Hh Hi Hnw) as (A' & ans' & ? & _). by exists A', ans'.
  - by destruct Hno.
Qed.

Lemma init_walks ks cs max_try tv ids : net_walks ∅ [] (net_init ks cs max_try tv ids : network TK TD TC).
Proof using HKL HCL.
  split.
  - split; [|by split; intros m ?%elem_of_nil]. split; cbn; [constructor| |done..|by intros id ?%elem_of_nil].
    intros k ds Hk. apply (init_servs (TC := TC) ks cs max_try tv ids) in Hk as ->. split; [by intros ? ? ?%elem_of_nil..|by intros ? ? ? ? ?%elem_of_nil].
  - cbn. split; [constructor|]. split; [|done]. intros id. split; [by intros ?%elem_of_nil|]. by intros (servs & ?).
  - intros c cl [_ ->]%init_clients. destruct (tbl_new_ok (T := TC) 16) as [_ Em].
    split; cbn; [|set_solver|done]. intros id. rewrite Em, lookup_empty. split; [by intros [? ?]|set_solver].
Qed.

Lemma run_walks net : net_run True net → net_inv net ∧ ∃ A ans, net_walks A ans net.
Proof using HKL HD HCL.
  intros (rands & file & stop & ids & ks & cs & mt & tv & Hr & Hg & Hs & Hcs & Hmt & Hrtc).
  assert (net_inv (net_init ks cs mt tv ids)) as H0 by (apply net_init_inv; [by eapply read_drawn|done..]).
  pose proof (init_walks ks cs mt tv ids) as Hw.
  assert (∀ x A ans, rtc (nstep True) x net → net_inv x → net_walks A ans x → net_inv net ∧ ∃ A ans, net_walks A ans net) as Hind.
  { intros x A ans Hx. revert A ans. clear -Hx HKL HCL. induction Hx as [x|x y z Hxy _ IH]; intros A ans Hi Hn; [eauto|].
    destruct (nstep_walks x y A ans Hxy Hi Hn) as (A' & ans' & Hn'). by apply (IH A' ans'); [apply (nstep_inv True x)|]. }
  by apply (Hind _ _ _ Hrtc H0 Hw).
Qed.

(** C15. The network comes to rest: from any state that it can reach, the
    messages that are under way, and those that they lead to, can be handled in
    a bounded number of steps only, in whatever order. *)
Theorem network_settles net :
  net_run True net → ∃ n, ∀ l net', nsteps (handled True) l net net' → (l ≤ n)%nat.
Proof using HKL HD HCL.
  intros Hr. destruct (run_walks net Hr) as [Hi (A & ans & Hnw)]. exists (left_over A (nw_flight net)).
  intros l net' Hs. revert A ans Hi Hnw. clear Hr. induction Hs as [x|l x y z Hxy _ IH]; intros A ans Hi Hnw; [lia|].
  destruct (handled_left x y A ans Hxy Hi Hnw) as (A' & ans' & Hnw' & Hlt).
  specialize (IH A' ans' (nstep_inv True x y (nstep_handled _ x y Hxy) Hi) Hnw'). lia.
Qed.

(** a server or a client of the network will get it *)
Definition addressed net m : Prop :=
  (∃ k ds, ms_to m = Serv S_SERV_TYPE_D k ∧ nw_servs net !! k = Some ds) ∨
  (∃ c cl, ms_to m = Serv S_SERV_TYPE_C c ∧ nw_clients net !! c = Some cl).

#[local] Instance addressed_dec net m : Decision (addressed net m).
Proof.
  destruct (ms_to m) as [t k] eqn:E.
  destruct (decide (t = S_SERV_TYPE_D ∧ is_Some (nw_servs net !! k))) as [H|N1]; [left; left; by destruct H as [-> [ds Hk]]; exists k, ds|].
  destruct (decide (t = S_SERV_TYPE_C ∧ is_Some (nw_clients net !! k))) as [H|N2]; [left; right; by destruct H as [-> [cl Hk]]; exists k, cl|].
  right. intros [(k' & ds & Hto & Hk)|(c & cl & Hto & Hk)]; rewrite E in Hto; injection Hto as -> ->; [by apply N1|by apply N2].
Qed.

Lemma can_handle net m :
  net_inv net → m ∈ nw_flight net → addressed net m → ∃ net', handled True net net'.
Proof using HKL HD HCL.
  destruct net as [ss cs fl]. intros [H1 H2 H3] [fl' Hm]%elem_of_Permutation Ha. cbn [nw_servs nw_clients nw_flight] in *.
  destruct (flight_perm _ _ _ Hm H3) as [Hok _]. destruct Ha as [(k & ds & Hto & Hk)|(c & cl & Hto & Hc)]; cbn in *.
  - destruct (serve_ok k (λ _, true) 0 ds m (H1 k ds Hk) Hok Hto) as (ds' & effs & E & _ & [ms Hms] & _).
    eexists. by apply (handled_serve True ss cs fl fl' m ms k ds ds' (λ _, true) 0 effs).
  - destruct (decide ((sv_type (ms_from m), s_packet_get_fun (ms_pkt m)) = (S_SERV_TYPE_D, S_PKT_TYPE_LOCK_END))) as [He|Hne].
    + destruct (lock_callback_ok c cl (ms_pkt m) (Tv 0 0) (Tv 0 0) (H2 c cl Hc)) as (cl' & b & E & _).
      eexists. by apply (handled_granted True ss cs fl fl' m c cl cl' (Tv 0 0) (Tv 0 0) b).
    + eexists. by apply (handled_ignored True ss cs fl fl' m c cl).
Qed.

Section rest.
Context (net : network TK TD TC) (Hi : net_inv net) (A : places) (ans : list s_id) (Hnw : net_walks A ans net).
Context (Hall : ∀ k, serv_ok k → is_Some (nw_servs net !! k)).
Context (Hq : ∀ m, m ∈ nw_flight net → ¬ addressed net m).

Lemma rest_toks : omap lock_id (nw_flight net) = [].
Proof using Hi Hnw Hall Hq.
  pose proof (ni_flight _ Hi) as Hf. destruct (omap lock_id (nw_flight net)) as [|id l] eqn:E; [done|]. exfalso.
  assert (id ∈ omap lock_id (nw_flight net)) as (m & Hm & Hl)%list_elem_of_omap by (rewrite E; left).
  unfold lock_id in Hl. case_decide as Hfl; [|done]. rewrite Forall_forall in Hf. destruct (Hf m Hm Hfl) as (k & Hto & _ & _ & Hat).
  destruct Hnw as [[Hw Hc] _ _]. destruct (ca_lock _ _ Hc m Hm Hfl) as (i & id' & elems & q & Hr & HA).
  destruct Hat as (curr & cl & id2 & elems2 & q2 & e & Hr2 & _ & He & Hk & _). rewrite Hr in Hr2. injection Hr2 as <- <- <- <- <-.
  destruct (wk_sorted _ _ _ _ Hw _ _ _ HA) as [_ Hok]. rewrite Forall_forall in Hok.
  destruct (Hall k) as [ds Hds]; [|by apply (Hq m Hm); left; exists k, ds].
  apply Hok. rewrite <-Hk. apply list_elem_of_fmap_2. unfold array_at in He. case_decide; [|done]. by eapply list_elem_of_lookup_2.
Qed.

(** whoever waits, waits for a request that waits further on *)
Lemma rest_no_wait_below (n : nat) k ds id :
  nw_servs net !! k = Some ds → waits_at ds id → MAX_DSERV - k < Z.of_nat n → False.
Proof using Hi Hnw Hall Hq.
  destruct Hnw as [[Hw Hc] _ _]. rewrite rest_toks in Hw.
  revert k ds id. induction n as [|n IH]; intros k ds id Hk (w & lk & Hin & Hlk & Hid) Hn.
  { destruct (kn_wait _ _ _ _ _ (wk_serv _ _ _ _ Hw k ds Hk) w lk Hin Hlk) as (i & _ & HA & Hik & _).
    destruct (wk_sorted _ _ _ _ Hw _ _ _ HA) as [_ Hok]. rewrite Forall_forall in Hok.
    specialize (Hok k (list_elem_of_lookup_2 _ _ _ Hik)). unfold serv_ok in Hok. lia. }
  destruct (ni_servs _ Hi k ds Hk) as [Hb [Hsort _] Hwake _].
  destruct (Hwake w lk Hin Hlk) as (q & lq & Hqs & Hlq & Hcf).
  apply is_conflict_meets in Hcf as (ea & eb & Hea & _ & _ & Hfin & _);
    [|apply (Hsort q); [apply elem_of_app; by left|done]|apply (Hsort w); [apply elem_of_app; by right|done]].
  destruct (kn_sent _ _ _ _ _ (wk_serv _ _ _ _ Hw k ds Hk) q lq Hqs Hlq) as (i & pos & Hpos & HA & Hik & Hlt & _ & Hpr).
  apply list_elem_of_lookup in Hea as [j Hj]. unfold lk_ahead in Hj. rewrite Hpos, Nat2Z.id, lookup_drop in Hj.
  destruct (Hpr (S i + j)%nat ea) as [Hle|(m & r & Hm & Hto & _)]; [lia|done|done| |].
  2: { apply (Hq m Hm). left. by exists k, ds. }
  assert (S i + j < length (servs_of lq))%nat as Hlen by (unfold servs_of; rewrite length_fmap; by eapply lookup_lt_Some).
  destruct (lookup_lt_is_Some_2 (servs_of lq) pos) as [k' Hk']; [lia|].
  destruct (wk_sorted _ _ _ _ Hw _ _ _ HA) as [Hso _].
  pose proof (sorted_lookup_lt _ _ _ _ _ Hso Hlt Hik Hk') as Hkk.
  destruct (wk_place _ _ _ _ Hw _ _ _ _ HA Hk') as [?%elem_of_nil|(ds' & Hds' & Hw')]; [done|].
  apply (IH k' ds' (lk_id lq) Hds' Hw'). lia.
Qed.
Lemma rest_no_wait k ds id : nw_servs net !! k = Some ds → ¬ waits_at ds id.
Proof using Hi Hnw Hall Hq.
  intros Hk Hwt. apply (rest_no_wait_below (Z.to_nat (MAX_DSERV - k) + 1) k ds id Hk Hwt). lia.
Qed.

Lemma rest_done id servs i : A !! id = Some (servs, i) → i = length servs.
Proof using Hi Hnw Hall Hq.
  intros HA. pose proof rest_toks as Ht. pose proof rest_no_wait as Hno. destruct Hnw as [[Hw _] (_ & _ & Hle) _].
  pose proof (Hle _ _ _ HA). destruct (decide (i = length servs)) as [|Hne]; [done|].
  destruct (lookup_lt_is_Some_2 servs i) as [k' Hk']; [lia|].
  destruct (wk_place _ _ _ _ Hw _ _ _ _ HA Hk') as [Hin|(ds' & Hds' & Hw')]; [|by destruct (Hno k' ds' id)].
  rewrite Ht in Hin. by apply elem_of_nil in Hin.
Qed.

Lemma rest_answered c cl : nw_clients net !! c = Some cl → ud_C cl = Z.of_nat (length (tbl_elems (ud_locks cl))).
Proof using Hi Hnw Hall Hq HCL.
  intros Hc. pose proof rest_done as Hdone. destruct Hnw as [[Hw Hca] (Hn & Hm & _) Hk].
  destruct (Hk c cl Hc) as [K1 _ ->]. f_equal. rewrite (tbl_elems_ok _ (cl_wf _ _ (ni_clients _ Hi c cl Hc))).
  rewrite <-(length_fmap fst). apply Permutation_length, NoDup_Permutation; [|apply NoDup_fst_map_to_list|].
  { apply NoDup_filter. by apply NoDup_app in Hn as [? _]. }
  intros id. rewrite list_elem_of_filter, list_elem_of_fmap. transitivity (is_Some (tbl_map (ud_locks cl) !! id)).
  - rewrite K1, elem_of_dom. assert (id_x id = c → id ∈ ans ↔ id ∈ ans ++ omap end_id (nw_flight net)) as Hends.
    { intros Hx. rewrite elem_of_app. split; [by left|]. intros [|(m & Hin & He)%list_elem_of_omap]; [done|].
      unfold end_id in He. case_decide as Hfe; [|done]. destruct (ca_end _ _ Hca m Hin Hfe) as (id' & p & Hr & Hto).
      rewrite Hr in He. injection He as ->. exfalso. apply (Hq m Hin). right. exists c, cl. by rewrite Hto, Hx. }
    split.
    + intros [Hx Hin]. apply Hends, Hm in Hin as (servs & HA); [|done]. by rewrite HA.
    + intros [[[servs i] HA] Hx]. split; [done|]. apply Hends, Hm; [done|]. exists servs. by rewrite HA, <-(Hdone _ _ _ HA).
  - split.
    + intros [g Hg]. exists (id, g). split; [done|]. by apply elem_of_map_to_list.
    + intros ([id' g] & -> & Hg%elem_of_map_to_list). by exists g.
Qed.
End rest.

(** C1. No deadlock.  On a network that loses nothing and has the data servers
    of the file, in any state that it can reach: either some message can be
    handled, or no request waits at any data server and each client has had an
    answer to each of its requests. *)
Theorem network_no_deadlock net :
  net_run True net → (∀ k, serv_ok k → is_Some (nw_servs net !! k)) →
  (∃ net', handled True net net') ∨
  (∀ k ds, nw_servs net !! k = Some ds → ds_waiting ds = []) ∧
  (∀ c cl, nw_clients net !! c = Some cl → ud_C cl = Z.of_nat (length (tbl_elems (ud_locks cl)))).
Proof using HKL HD HCL.
  intros Hr Hall. destruct (run_walks net Hr) as [Hi (A & ans & Hnw)].
  destruct (decide (Exists (addressed net) (nw_flight net))) as [(m & Hm & Ha)%Exists_exists|Hno]; [left; by apply (can_handle net m)|].
  assert (∀ m, m ∈ nw_flight net → ¬ addressed net m) as Hq by (intros m Hm Ha; apply Hno, Exists_exists; by exists m).
  right. split; [|intros c cl; by apply (rest_answered net Hi A ans)].
  intros k ds Hk. destruct (ds_waiting ds) as [|w l] eqn:E; [done|]. exfalso.
  assert (w ∈ ds_waiting ds) as Hin by (rewrite E; left).
  destruct (b_heap _ (do_base _ _ (ni_servs _ Hi k ds Hk)) w) as [lk Hlk]; [apply elem_of_app; by right|].
  apply (rest_no_wait net Hi A ans Hnw Hall Hq k ds (lk_id lk) Hk). by exists w, lk.
Qed.
End clients.
End progress.
