(* ===== verification/LockNetRun.v ===== *)
(** * A run of the data servers

    Client 1 has drawn [2,4] and [2,3]; server 2 takes both requests. *)

From S2P Require Import Prelude SArray Packet Wire SHash SHashSpec Cluster DLock ServGroup Core AccessId LockClient LockNet LockProgress.
From stdpp Require Import sorting.
Local Open Scope Z_scope.

Module LockRun.
#[local] Instance data_inhabited : Inhabited (Z * list Z) := populate (0, []).
#[local] Instance client_inhabited : Inhabited s_glock_client := populate (GClient (SId 0 0) (Tv 0 0)).
Abbreviation net := (network (s_hash nat) (s_hash (Z * list Z)) (s_hash s_glock_client)).

Definition rands : list Z := [4; 1; 1; 3; 1; 2; 1] ++ replicate 997 4.
Definition file : list Z := from_option fst [] (gen_random_id rands).
Definition ids : list (list Z) := default [] (default None (s_access_id_create (Some file))).
Lemma drawn_file : gen_random_id rands = Some (file, false).
Proof. vm_compute. reflexivity. Qed.
Lemma read : s_access_id_create (Some file) = Some (Some ids).
Proof. vm_compute. reflexivity. Qed.
Lemma rands_ok : Forall (Z.le 0) rands.
Proof. apply (bool_decide_unpack _). vm_compute. exact I. Qed.
Example lines : take 3 ids = [[1; 2; 3; 4; 5]; [2; 4]; [2; 3]].
Proof. vm_compute. reflexivity. Qed.

Lemma access_ids_roundtrip_witness :
  (fair (5 * MAX_COUNT) rands → is_Some (gen_random_id rands)) ∧
  ∀ file stop, gen_random_id rands = Some (file, stop) →
    stop = false ∧ ∃ sets ids, drawn_lines rands sets ∧ length sets = MAX_COUNT ∧
      s_access_id_create (Some file) = Some (Some ids) ∧ Forall2 line_of sets ids ∧ Forall ids_ok ids.
Proof. apply (access_ids_roundtrip rands). exact rands_ok. Defined.

(** ** The network *)
Definition active (_ : serv_id) : bool := true.
Definition noon : timeval := Tv 43200 0.
Definition n0 : net := net_init [1; 2; 3; 4; 5] [1] 2 noon ids.

(** what the other end makes of the bytes of a packet *)
Definition received (p : s_packet) : s_packet :=
  let bytes := take (Z.to_nat (pk_size p)) (pk_data p) in
  match s_packet_create_from 0 g_free_init bytes (Z.of_nat (length bytes)) with CF_packet q _ => q | _ => p end.
Definition got (o : out_pkt) : s_packet :=
  match built o with Some p => received p | None => Packet 12 12 1 7 (replicate 256 0) end.

(** client 1 makes a request; [None]: it makes none *)
Definition ask (n : net) : option (ud_client (s_hash s_glock_client) * serv_id * out_pkt) :=
  cl ← nw_clients n !! 1; '(cl, o) ← access_data 1 active cl noon; '(k, o) ← o; Some (cl, k, o).
Definition after_ask (n : net) : net :=
  match ask n with
  | Some (cl, k, o) => Net (nw_servs n) (<[1 := cl]> (nw_clients n)) (Msg k (Serv S_SERV_TYPE_C 1) (got o) :: nw_flight n)
  | None => n
  end.
Lemma ask_step n :
  match ask n with Some (_, _, o) => arrives o (got o) | None => False end → nstep True n (after_ask n).
Proof.
  destruct n as [ss cs fl]. unfold after_ask. destruct (ask _) as [[[cl k] o]|] eqn:E; [|done]. intros Ha.
  unfold ask in E. cbn [nw_clients nw_servs nw_flight] in *. apply bind_Some in E as (cl0 & Hc & E).
  apply bind_Some in E as ([cl1 o1] & Hs & E). apply bind_Some in E as ([k1 o2] & -> & E). injection E as -> -> ->.
  by apply (nstep_request True ss cs fl 1 cl0 cl active noon k o).
Qed.

(** the first message is handled by server [k] *)
Definition serve (k : Z) (n : net) : option (s_dserver (s_hash nat) (s_hash (Z * list Z)) * list effect * list message) :=
  match nw_flight n with
  | m :: fl =>
      ds ← nw_servs n !! k;
      '(ds, effs) ← serv_handle k active 0 ds (ms_from m) (ms_pkt m);
      if bool_decide (ms_to m = Serv S_SERV_TYPE_D k) then Some (ds, effs, fl) else None
  | [] => None
  end.
Definition out_of (k : Z) (effs : list effect) : list message :=
  (λ s, Msg s.1 (Serv S_SERV_TYPE_D k) (got s.2)) <$> sends effs.
Definition after_serve (k : Z) (n : net) : net :=
  match serve k n with
  | Some (ds, effs, fl) => Net (<[k := ds]> (nw_servs n)) (nw_clients n) (out_of k effs ++ fl)
  | None => n
  end.
Lemma serve_step k n :
  match serve k n with Some (_, effs, _) => Forall (λ s, arrives s.2 (got s.2)) (sends effs) | None => False end →
  nstep True n (after_serve k n).
Proof.
  destruct n as [ss cs fl]. unfold after_serve. destruct (serve _ _) as [[[ds effs] fl']|] eqn:E; [|done]. intros Ha.
  unfold serve in E. cbn [nw_clients nw_servs nw_flight] in *. destruct fl as [|m fl]; [done|].
  apply bind_Some in E as (ds0 & Hds & E). apply bind_Some in E as ([ds1 e1] & Hs & E). case_bool_decide as Hto; [|done].
  injection E as -> -> ->. apply nstep_handled.
  apply (handled_serve True ss cs _ fl' m (out_of k effs) k ds0 ds active 0 effs); try done.
  unfold flows, out_of. clear Hs. induction Ha as [|s l Hs _ IH]; constructor; [done|exact IH].
Qed.

(** whether a packet is what may arrive *)
#[local] Instance wf_dec (q : s_packet) : Decision (pk_wf q).
Proof. unfold pk_wf, is_byte. apply _. Defined.
Definition arrives_b (o : out_pkt) (q : s_packet) : bool :=
  bool_decide (pk_wf q) && bool_decide (pk_pos q = S_PKT_DATA_POS) &&
  match o with
  | OMsg fn fs => bool_decide (s_packet_get_fun q = fn) && bool_decide (pk_rest q = enc_fields fs)
  | OEasy fn sz fs =>
      bool_decide (s_packet_get_fun q = fn) && bool_decide (take (length (enc_fields fs)) (pk_rest q) = enc_fields fs)
  | OPkt fn p => bool_decide (s_packet_get_fun q = fn) && bool_decide (pk_rest q = pk_rest (with_pos p S_PKT_DATA_POS))
  end.
Lemma arrives_ok o q : arrives_b o q = true → arrives o q.
Proof.
  unfold arrives_b, arrives. rewrite !andb_true_iff. intros [[?%bool_decide_eq_true_1 ?%bool_decide_eq_true_1] Ho].
  split; [done|]. split; [done|]. destruct o; apply andb_true_iff in Ho as [?%bool_decide_eq_true_1 Hr%bool_decide_eq_true_1];
    (split; [done|]); try done. exists (drop (length (enc_fields fs)) (pk_rest q)). by rewrite <-Hr, take_drop at 1.
Qed.
Lemma ask_ok n :
  match ask n with Some (_, _, o) => arrives_b o (got o) | None => false end = true → nstep True n (after_ask n).
Proof. intros H. apply ask_step. destruct (ask n) as [[[cl k] o]|]; [by apply arrives_ok|done]. Qed.
Lemma serve_ok_step k n :
  match serve k n with Some (_, effs, _) => forallb (λ s, arrives_b s.2 (got s.2)) (sends effs) | None => false end = true →
  nstep True n (after_serve k n).
Proof.
  intros H. apply serve_step. destruct (serve k n) as [[[ds effs] fl]|]; [|done].
  apply Forall_forall. intros s Hs%list_elem_of_In. rewrite forallb_forall in H. by apply arrives_ok, H.
Qed.

Definition n1 : net := after_ask n0.
Definition n2 : net := after_serve 2 n1.
Definition n3 : net := after_ask n2.
Definition n4 : net := after_serve 2 n3.

Lemma n4_run : net_run True n4.
Proof.
  exists rands, file, false, ids, [1; 2; 3; 4; 5], [1], 2, noon. split; [exact rands_ok|]. split; [exact drawn_file|].
  split; [exact read|]. split; [by repeat constructor|]. split; [done|]. change (net_init _ _ _ _ _) with n0.
  apply (rtc_l _ n0 n1); [apply ask_ok; vm_compute; reflexivity|].
  apply (rtc_l _ n1 n2); [apply serve_ok_step; vm_compute; reflexivity|].
  apply (rtc_l _ n2 n3); [apply ask_ok; vm_compute; reflexivity|].
  apply (rtc_l _ n3 n4); [apply serve_ok_step; vm_compute; reflexivity|]. apply rtc_refl.
Qed.

Definition serv2 : s_dserver (s_hash nat) (s_hash (Z * list Z)) := default dserv_init (nw_servs n4 !! 2).
Definition lock_in (p : nat) : s_core_lock := default (Lock (Packet 12 12 1 4 []) (SId 0 0) 0 0 0 []) (ds_heap serv2 !! p).
Lemma n4_serv2 : nw_servs n4 !! 2 = Some serv2.
Proof.
  unfold serv2. assert (bool_decide (is_Some (nw_servs n4 !! 2)) = true) as H by (vm_compute; reflexivity).
  apply bool_decide_eq_true_1 in H as [ds ->]. done.
Qed.
Lemma serv2_sent : ds_sent serv2 = [0%nat; 1%nat].
Proof. vm_compute. reflexivity. Qed.
Lemma n4_servs k : serv_ok k → is_Some (nw_servs n4 !! k).
Proof.
  intros Hk. assert (k ∈ [1; 2; 3; 4; 5]) as Hin by (unfold serv_ok, MAX_DSERV in Hk; repeat (rewrite elem_of_cons); lia).
  assert (forallb (λ k, bool_decide (is_Some (nw_servs n4 !! k))) [1; 2; 3; 4; 5] = true) as H by (vm_compute; reflexivity).
  rewrite forallb_forall in H. apply list_elem_of_In, H in Hin. by apply bool_decide_eq_true_1 in Hin.
Qed.

Lemma network_exclusion_witness : ¬ meets (lk_ahead (lock_in 0)) (lk_ahead (lock_in 1)).
Proof.
  apply (network_exclusion True n4 2 serv2 0 1 (lock_in 0) (lock_in 1)); [exact n4_run|exact n4_serv2|rewrite serv2_sent; left|
    rewrite serv2_sent; right; left|discriminate|vm_compute; reflexivity|vm_compute; reflexivity].
Defined.

Lemma network_no_failure_witness :
  (∀ m k ds active junk, m ∈ nw_flight n4 → ms_to m = Serv S_SERV_TYPE_D k → nw_servs n4 !! k = Some ds →
    is_Some (serv_handle k active junk ds (ms_from m) (ms_pkt m))) ∧
  (∀ m c cl now junk, m ∈ nw_flight n4 → ms_to m = Serv S_SERV_TYPE_C c → nw_clients n4 !! c = Some cl →
    is_Some (lock_callback cl false (Some (ms_pkt m)) now junk)).
Proof. apply (network_no_failure True n4). exact n4_run. Defined.

Lemma network_settles_witness : ∃ n, ∀ l net', nsteps (handled True) l n4 net' → (l ≤ n)%nat.
Proof. apply (network_settles n4). exact n4_run. Defined.

Lemma network_no_deadlock_witness :
  (∃ net', handled True n4 net') ∨
  (∀ k ds, nw_servs n4 !! k = Some ds → ds_waiting ds = []) ∧
  (∀ c cl, nw_clients n4 !! c = Some cl → ud_C cl = Z.of_nat (length (tbl_elems (ud_locks cl)))).
Proof. apply (network_no_deadlock n4); [exact n4_run|exact n4_servs]. Defined.

(** the first request of client 1, and what server 2 makes of it *)
Definition cl0 : ud_client (s_hash s_glock_client) := Ud 0 0 2 noon ids (tbl_new 16) [] 0.
Definition asked : ud_client (s_hash s_glock_client) * out_pkt :=
  match access_data 1 active cl0 noon with Some (cl, Some (_, o)) => (cl, o) | _ => (cl0, OMsg 0 []) end.
Lemma request_decodes_witness :
  ∃ D q', D ∈ ids ∧ Serv S_SERV_TYPE_D 2 = Serv S_SERV_TYPE_D (default 0 (head D)) ∧
    read_lock (got asked.2) = Ok (0, 1, SId 1 0, (λ d, LElem d (SId 1 0) false) <$> D, q') ∧ pkt_sorted (got asked.2).
Proof.
  apply (request_decodes 1 active cl0 noon asked.1 (Serv S_SERV_TYPE_D 2) asked.2 (got asked.2)).
  - done.
  - done.
  - exact (read_drawn rands file false ids rands_ok drawn_file read).
  - vm_compute. reflexivity.
  - apply arrives_ok. vm_compute. reflexivity.
Defined.
End LockRun.
