(* ===== verification/MsQueue.v ===== *)
(** * [lockfree/s_ms_queue.c]: Michael and Scott's queue

    Threads push and pop at the same time.  A thread is a program counter with
    its local variables; [run_pc] makes its next access to shared memory, one
    word at a time (the copy of a [struct ms_pointer] is two loads), and
    [mstep] lets any thread go next.  Nodes are numbered by their place in the
    static buffer; [_free_node] returns at once, so no node is used again. *)

From S2P Require Import Prelude.
From stdpp Require Import functions.
Local Open Scope Z_scope.

(** ** Data *)
Definition MAX_BUF : Z := 10000000.
Record ms_pointer := Ptr { mp_ptr : option Z; mp_tag : Z }.
Record ms_node := MNode { mn_next : ms_pointer; mn_ival : Z }.
#[export] Instance ms_pointer_eq_dec : EqDecision ms_pointer.
Proof. solve_decision. Defined.

(** the queue, the buffer of nodes and its counter [c] *)
Record ms_queue := MsQueue {
  ms_head : ms_pointer;
  ms_tail : ms_pointer;
  ms_buf : Z → ms_node;
  ms_c : Z
}.
Definition set_head (p : ms_pointer) q : ms_queue := MsQueue p (ms_tail q) (ms_buf q) (ms_c q).
Definition set_tail (p : ms_pointer) q : ms_queue := MsQueue (ms_head q) p (ms_buf q) (ms_c q).
Definition set_node (a : Z) (n : ms_node) q : ms_queue :=
  MsQueue (ms_head q) (ms_tail q) (<[a := n]> (ms_buf q)) (ms_c q).
Definition set_c (c : Z) q : ms_queue := MsQueue (ms_head q) (ms_tail q) (ms_buf q) c.

Definition null : ms_pointer := Ptr None 0.

(** a node that is followed: not null, and in the buffer *)
Definition node_at (q : ms_queue) (p : option Z) : option ms_node :=
  a ← p; if (0 <=? a) && (a <? MAX_BUF) then Some (ms_buf q a) else None.

(** [ms_queue_create]; the first node is the dummy *)
Definition ms_queue_create (buf : Z → ms_node) : ms_queue :=
  MsQueue (Ptr (Some 0) 0) (Ptr (Some 0) 0) (<[0 := MNode null 0]> buf) 1.

(** ** The program of a thread *)

(** what comes next, with the variables in use: [n] is the new node *)
Inductive pc :=
| Idle
| NewNode (v : Z)                                      (* p = g_buf + c * node_sz *)
| NewLoad (v n : Z)                                    (* c++: the load *)
| NewStore (v n c : Z)                                 (* c++: the store *)
| PushInit (v n : Z)                                   (* n->ival = v, ms_zero_pointer(&n->next) *)
| PushTailPtr (n : Z)                                  (* tail = q->tail *)
| PushTailTag (n : Z) (p : option Z)
| PushNextPtr (n : Z) (tail : ms_pointer)              (* next = tail.ptr->next *)
| PushNextTag (n : Z) (tail : ms_pointer) (p : option Z)
| PushEqPtr (n : Z) (tail next : ms_pointer)           (* ms_equal_pointer(&tail, &q->tail) *)
| PushEqTag (n : Z) (tail next : ms_pointer)
| PushCas (n : Z) (tail next : ms_pointer)             (* either CAS of the loop *)
| PushSwing (n : Z) (tail : ms_pointer)                (* the CAS after the loop *)
| PopHeadPtr                                           (* head = q->head *)
| PopHeadTag (p : option Z)
| PopTailPtr (head : ms_pointer)                       (* tail = q->tail *)
| PopTailTag (head : ms_pointer) (p : option Z)
| PopNextPtr (head tail : ms_pointer)                  (* next = head.ptr->next *)
| PopNextTag (head tail : ms_pointer) (p : option Z)
| PopEqPtr (head tail next : ms_pointer)               (* ms_equal_pointer(&head, &q->head) *)
| PopEqTag (head tail next : ms_pointer)
| PopTest (head tail next : ms_pointer)                (* empty; CAS(&q->tail); ret = next.ptr->ival *)
| PopCas (head next : ms_pointer) (ret : Z)            (* CAS(&q->head) *)
| Finished (r : Z).                                    (* about to return *)

(** [junk]: the upper bytes of [__ret], of which [sete] writes only the first *)
Section program.
Context (junk : Z).

(** [__ret] of [CAS]; [ok]: the cell had the old value, and has the new one *)
Definition cas_ret (ok : bool) : Z := (if ok then 1 else 0) + 256 * junk.

Definition next_tag (p : ms_pointer) : Z := uint (mp_tag p + 1).

(** [CAS(&q->tail, tail, tmp)], with [b] and the next tag; its result is not used *)
Definition cas_tail (tail : ms_pointer) (b : Z) (q : ms_queue) : ms_queue :=
  if decide (ms_tail q = tail) then set_tail (Ptr (Some b) (next_tag tail)) q else q.

(** [None]: the thread is not running, or crashes *)
Definition run_pc (q : ms_queue) (p : pc) : option (ms_queue * pc) :=
  match p with
  | Idle | Finished _ => None
  | NewNode v => Some (q, NewLoad v (ms_c q))
  | NewLoad v n => Some (q, NewStore v n (ms_c q))
  | NewStore v n c => Some (set_c (c + 1) q, PushInit v n)
  | PushInit v n => _ ← node_at q (Some n); Some (set_node n (MNode null v) q, PushTailPtr n)
  | PushTailPtr n => Some (q, PushTailTag n (mp_ptr (ms_tail q)))
  | PushTailTag n p => Some (q, PushNextPtr n (Ptr p (mp_tag (ms_tail q))))
  | PushNextPtr n tail => nd ← node_at q (mp_ptr tail); Some (q, PushNextTag n tail (mp_ptr (mn_next nd)))
  | PushNextTag n tail p =>
      nd ← node_at q (mp_ptr tail); Some (q, PushEqPtr n tail (Ptr p (mp_tag (mn_next nd))))
  | PushEqPtr n tail next =>
      Some (q, if decide (mp_ptr tail = mp_ptr (ms_tail q)) then PushEqTag n tail next else PushTailPtr n)
  | PushEqTag n tail next =>
      Some (q, if decide (mp_tag tail = mp_tag (ms_tail q)) then PushCas n tail next else PushTailPtr n)
  | PushCas n tail next =>
      match mp_ptr next with
      | None =>
          a ← mp_ptr tail; nd ← node_at q (Some a);
          let ok := bool_decide (mn_next nd = next) in
          Some (if ok then set_node a (MNode (Ptr (Some n) (next_tag next)) (mn_ival nd)) q else q,
                if cas_ret ok =? 0 then PushTailPtr n else PushSwing n tail)
      | Some b => Some (cas_tail tail b q, PushTailPtr n)
      end
  | PushSwing n tail => Some (cas_tail tail n q, Finished 0)
  | PopHeadPtr => Some (q, PopHeadTag (mp_ptr (ms_head q)))
  | PopHeadTag p => Some (q, PopTailPtr (Ptr p (mp_tag (ms_head q))))
  | PopTailPtr head => Some (q, PopTailTag head (mp_ptr (ms_tail q)))
  | PopTailTag head p => Some (q, PopNextPtr head (Ptr p (mp_tag (ms_tail q))))
  | PopNextPtr head tail => nd ← node_at q (mp_ptr head); Some (q, PopNextTag head tail (mp_ptr (mn_next nd)))
  | PopNextTag head tail p =>
      nd ← node_at q (mp_ptr head); Some (q, PopEqPtr head tail (Ptr p (mp_tag (mn_next nd))))
  | PopEqPtr head tail next =>
      Some (q, if decide (mp_ptr head = mp_ptr (ms_head q)) then PopEqTag head tail next else PopHeadPtr)
  | PopEqTag head tail next =>
      Some (q, if decide (mp_tag head = mp_tag (ms_head q)) then PopTest head tail next else PopHeadPtr)
  | PopTest head tail next =>
      if decide (mp_ptr head = mp_ptr tail) then
        match mp_ptr next with
        | None => Some (q, Finished (-1))
        | Some b => Some (cas_tail tail b q, PopHeadPtr)
        end
      else nd ← node_at q (mp_ptr next); Some (q, PopCas head next (mn_ival nd))
  | PopCas head next ret =>
      let ok := bool_decide (ms_head q = head) in
      Some (if ok then set_head (Ptr (mp_ptr next) (next_tag head)) q else q,
            if cas_ret ok =? 0 then PopHeadPtr else Finished ret)
  end.
End program.

(** ** Threads *)
Inductive op := Push (v : Z) | Pop.
Inductive label := Call (t : nat) (o : op) | Return (t : nat) (r : Z).

Definition enter (o : op) : pc := match o with Push v => NewNode v | Pop => PopHeadPtr end.
Definition running (p : pc) : bool := match p with Idle | Finished _ => false | _ => true end.
(** between the load of [c] for [p] and the store of [c++] *)
Definition allocating (p : pc) : bool := match p with NewLoad _ _ | NewStore _ _ _ => true | _ => false end.

Definition mstate : Type := ms_queue * (nat → pc).

(** [excl]: a thread enters [_new_node] only when no other thread is in it,
    which the code does not see to *)
Inductive mstep (junk : Z) (excl : bool) : mstate → option label → mstate → Prop :=
| m_call q ps t o : ps t = Idle → mstep junk excl (q, ps) (Some (Call t o)) (q, <[t := enter o]> ps)
| m_return q ps t r : ps t = Finished r → mstep junk excl (q, ps) (Some (Return t r)) (q, <[t := Idle]> ps)
| m_run q ps t q' p' :
    run_pc junk q (ps t) = Some (q', p') →
    (excl = true → allocating p' = true → ∀ t', t' ≠ t → allocating (ps t') = false) →
    mstep junk excl (q, ps) None (q', <[t := p']> ps).

Definition ms_init (buf : Z → ms_node) : mstate := (ms_queue_create buf, λ _, Idle).

(** ** What is promised: operations on a list, each at one moment between its
    call and its return.  A pop may return [-1] if the queue has been empty at
    some moment since its call ([SPop true]). *)
Inductive status := SIdle | SPush (v : Z) | SPop (seen_empty : bool) | SDone (r : Z).
Definition sstate : Type := list Z * (nat → status).
Definition senter (o : op) : status := match o with Push v => SPush v | Pop => SPop false end.

(** the moment of an operation: the list and the thread before and after *)
Inductive lin : list Z → status → list Z → status → Prop :=
| lin_push l v : lin l (SPush v) (l ++ [v]) (SDone 0)
| lin_pop x l b : lin (x :: l) (SPop b) l (SDone x)
| lin_look b : lin [] (SPop b) [] (SPop true)
| lin_pop_empty l : lin l (SPop true) l (SDone (-1)).

Inductive sstep : sstate → option label → sstate → Prop :=
| s_call l st t o : st t = SIdle → sstep (l, st) (Some (Call t o)) (l, <[t := senter o]> st)
| s_return l st t r : st t = SDone r → sstep (l, st) (Some (Return t r)) (l, <[t := SIdle]> st)
| s_lin l st t l' s' : lin l (st t) l' s' → sstep (l, st) None (l', <[t := s']> st).
Definition sinit : sstate := ([], λ _, SIdle).
