(* ===== verification/MsQueueSpec.v ===== *)
(** * Michael and Scott's queue is linearizable

    The nodes that have ever been linked, in order, are [hist]: its links are
    those of the buffer, [head] and [tail] are at the places [h] and [t] in it,
    and the list promised is what lies behind [head]. *)

From S2P Require Import Prelude MsQueue.
From stdpp Require Import functions list_relations.
Local Open Scope Z_scope.

(** ** The invariant *)
Record qinv (q : ms_queue) (hist : list Z) (h t : nat) : Prop := QInv {
  qi_next i a : hist !! i = Some a → mp_ptr (mn_next (ms_buf q a)) = hist !! S i;
  qi_range i a : hist !! i = Some a → 0 ≤ a < ms_c q ∧ a < MAX_BUF;
  qi_nodup : NoDup hist;
  qi_head : is_Some (hist !! h) ∧ mp_ptr (ms_head q) = hist !! h;
  qi_tail : is_Some (hist !! t) ∧ mp_ptr (ms_tail q) = hist !! t;
  qi_le : (h ≤ t)%nat
}.

Definition contents (q : ms_queue) (hist : list Z) (h : nat) : list Z :=
  (λ a, mn_ival (ms_buf q a)) <$> drop (S h) hist.

(** a node that only its thread knows *)
Definition fresh_node (q : ms_queue) (hist : list Z) (n : Z) : Prop := 0 ≤ n < ms_c q ∧ n ∉ hist.
Definition made (q : ms_queue) (hist : list Z) (n v : Z) : Prop :=
  fresh_node q hist n ∧ n < MAX_BUF ∧ ms_buf q n = MNode null v.

(** a pointer to the node at place [i] *)
Definition at_place (hist : list Z) (i : nat) (p : option Z) : Prop := is_Some p ∧ hist !! i = p.
(** what a thread has read of the link of the node at place [i] *)
Definition next_read (hist : list Z) (i : nat) (p : option Z) : Prop := is_Some p → hist !! S i = p.
(** in a pop; a null link has been seen when the queue was empty *)
Definition pop_next (hist : list Z) (i j : nat) (p : option Z) (s : status) : Prop :=
  at_place hist (S i) p ∨ p = None ∧ i = j ∧ s = SPop true.

(** a thread at [p], whose operation stands at [s] *)
Definition rel (q : ms_queue) (hist : list Z) (h t : nat) (p : pc) (s : status) : Prop :=
  match p with
  | Idle => s = SIdle
  | Finished r => s = SDone r
  | NewNode v => s = SPush v
  | NewLoad v n => s = SPush v ∧ n = ms_c q
  | NewStore v n c => s = SPush v ∧ n = ms_c q ∧ c = ms_c q
  | PushInit v n => s = SPush v ∧ fresh_node q hist n
  | PushTailPtr n => ∃ v, s = SPush v ∧ made q hist n v
  | PushTailTag n p => ∃ v i, s = SPush v ∧ made q hist n v ∧ at_place hist i p
  | PushNextPtr n tail => ∃ v i, s = SPush v ∧ made q hist n v ∧ at_place hist i (mp_ptr tail)
  | PushNextTag n tail p =>
      ∃ v i, s = SPush v ∧ made q hist n v ∧ at_place hist i (mp_ptr tail) ∧ next_read hist i p
  | PushEqPtr n tail next | PushEqTag n tail next | PushCas n tail next =>
      ∃ v i, s = SPush v ∧ made q hist n v ∧ at_place hist i (mp_ptr tail) ∧ next_read hist i (mp_ptr next)
  | PushSwing n tail => s = SDone 0 ∧ ∃ i, at_place hist i (mp_ptr tail) ∧ hist !! S i = Some n
  | PopHeadPtr => ∃ b, s = SPop b
  | PopHeadTag p => ∃ b i, s = SPop b ∧ at_place hist i p ∧ (i ≤ h)%nat
  | PopTailPtr head => ∃ b i, s = SPop b ∧ at_place hist i (mp_ptr head) ∧ (i ≤ h)%nat
  | PopTailTag head p =>
      ∃ b i j, s = SPop b ∧ at_place hist i (mp_ptr head) ∧ (i ≤ h)%nat ∧ at_place hist j p ∧ (i ≤ j ≤ t)%nat
  | PopNextPtr head tail =>
      ∃ b i j, s = SPop b ∧ at_place hist i (mp_ptr head) ∧ (i ≤ h)%nat ∧
        at_place hist j (mp_ptr tail) ∧ (i ≤ j ≤ t)%nat
  | PopNextTag head tail p =>
      ∃ b i j, s = SPop b ∧ at_place hist i (mp_ptr head) ∧ (i ≤ h)%nat ∧
        at_place hist j (mp_ptr tail) ∧ (i ≤ j ≤ t)%nat ∧ pop_next hist i j p s
  | PopEqPtr head tail next | PopEqTag head tail next | PopTest head tail next =>
      ∃ b i j, s = SPop b ∧ at_place hist i (mp_ptr head) ∧ (i ≤ h)%nat ∧
        at_place hist j (mp_ptr tail) ∧ (i ≤ j ≤ t)%nat ∧ pop_next hist i j (mp_ptr next) s
  | PopCas head next ret =>
      ∃ b i a, s = SPop b ∧ at_place hist i (mp_ptr head) ∧ (i < t)%nat ∧
        mp_ptr next = Some a ∧ hist !! S i = Some a ∧ mn_ival (ms_buf q a) = ret
  end.

(** the node a thread has not yet linked *)
Definition owned (p : pc) : option Z :=
  match p with
  | PushInit _ n | PushTailPtr n | PushTailTag n _ | PushNextPtr n _ | PushNextTag n _ _
  | PushEqPtr n _ _ | PushEqTag n _ _ | PushCas n _ _ => Some n
  | _ => None
  end.

Record minv (m : mstate) (sp : sstate) (hist : list Z) (h t : nat) : Prop := MInv {
  mi_q : qinv m.1 hist h t;
  mi_list : sp.1 = contents m.1 hist h;
  mi_rel i : rel m.1 hist h t (m.2 i) (sp.2 i);
  mi_owned i j n : owned (m.2 i) = Some n → owned (m.2 j) = Some n → i = j;
  mi_alloc i j : allocating (m.2 i) = true → allocating (m.2 j) = true → i = j
}.

(** take an assertion of [rel] apart, and put one together *)
Ltac opened := repeat match goal with H : ∃ _, _ |- _ => destruct H | H : _ ∧ _ |- _ => destruct H end; subst.
Ltac filled := repeat match goal with |- ∃ _, _ => eexists | |- _ ∧ _ => split | |- SPop _ = SPop _ => reflexivity end.

(** ** What a step of one thread leaves to the others *)
Record frame (q : ms_queue) (hist : list Z) (h t : nat) (p : pc) (q' : ms_queue) (hist' : list Z) (h' t' : nat) : Prop := Frame {
  fr_hist i a : hist !! i = Some a → hist' !! i = Some a;
  fr_h : (h ≤ h')%nat;
  fr_t : (t ≤ t')%nat;
  fr_c : ms_c q ≤ ms_c q';
  fr_alloc : allocating p = false → ms_c q' = ms_c q;
  fr_ival i a : hist !! i = Some a → mn_ival (ms_buf q' a) = mn_ival (ms_buf q a);
  fr_other n : owned p ≠ Some n → fresh_node q hist n → n ∉ hist' ∧ ms_buf q' n = ms_buf q n
}.

Lemma frame_refl q hist h t p : frame q hist h t p q hist h t.
Proof. split; try done. by intros n _ [_ Hn]. Qed.

Section stable.
Context {q : ms_queue} {hist : list Z} {h t : nat} {p : pc} {q' : ms_queue} {hist' : list Z} {h' t' : nat}.
Context (F : frame q hist h t p q' hist' h' t').
#[local] Set Default Proof Using "F".

Lemma at_place_stable i x : at_place hist i x → at_place hist' i x.
Proof. intros [[a ->] Hi]. split; [done|]. by apply (fr_hist _ _ _ _ _ _ _ _ _ F). Qed.
Lemma next_read_stable i x : next_read hist i x → next_read hist' i x.
Proof. intros Hx [a ->]. apply (fr_hist _ _ _ _ _ _ _ _ _ F). by apply Hx. Qed.
Lemma pop_next_stable i j x s : pop_next hist i j x s → pop_next hist' i j x s.
Proof. intros [?|?]; [left; by apply at_place_stable|by right]. Qed.
Lemma fresh_stable n : owned p ≠ Some n → fresh_node q hist n → fresh_node q' hist' n.
Proof.
  intros Ho Hn. destruct (fr_other _ _ _ _ _ _ _ _ _ F n Ho Hn) as [Hn' _]. destruct Hn as [Hr _]. split; [|done].
  pose proof (fr_c _ _ _ _ _ _ _ _ _ F). lia.
Qed.
Lemma made_stable n v : owned p ≠ Some n → made q hist n v → made q' hist' n v.
Proof.
  intros Ho (Hn & Hm & Hb). split; [by apply fresh_stable|]. split; [done|].
  destruct (fr_other _ _ _ _ _ _ _ _ _ F n Ho Hn) as [_ ->]. done.
Qed.

Lemma rel_stable p2 s2 :
  (∀ n, owned p = Some n → owned p2 ≠ Some n) → (allocating p = true → allocating p2 = false) →
  rel q hist h t p2 s2 → rel q' hist' h' t' p2 s2.
Proof.
  intros Ho Ha Hr.
  assert (∀ n, owned p2 = Some n → owned p ≠ Some n) as Ho' by (intros n H2 H1; by apply (Ho n)).
  destruct F as [Fh ? ? _ Fa Fi _].
  assert (allocating p2 = true → ms_c q' = ms_c q) as Hc.
  { intros H2. apply Fa. destruct (allocating p); [|done]. by rewrite Ha in H2. }
  destruct p2; cbn in Hr, Ho', Hc |- *;
    opened; (try done); filled; eauto using at_place_stable, next_read_stable, pop_next_stable, fresh_stable, made_stable with lia.
Qed.
End stable.

(** ** One step of a thread *)
Definition simulated (q : ms_queue) (hist : list Z) (h t : nat) (p : pc) (s : status) (q' : ms_queue) (p' : pc) : Prop :=
  ∃ hist' h' t' s',
    qinv q' hist' h' t' ∧ rel q' hist' h' t' p' s' ∧ frame q hist h t p q' hist' h' t' ∧
    (contents q' hist' h' = contents q hist h ∧ s' = s ∨ lin (contents q hist h) s (contents q' hist' h') s').

Lemma sim_read q hist h t p s p' : qinv q hist h t → rel q hist h t p' s → simulated q hist h t p s q p'.
Proof. intros Hq Hr. exists hist, h, t, s. split_and!; [done|done|apply frame_refl|by left]. Qed.
Lemma sim_lin q hist h t p s p' s' :
  qinv q hist h t → rel q hist h t p' s' → lin (contents q hist h) s (contents q hist h) s' →
  simulated q hist h t p s q p'.
Proof. intros Hq Hr Hl. exists hist, h, t, s'. split_and!; [done|done|apply frame_refl|by right]. Qed.

Lemma place_lt (hist : list Z) i p : at_place hist i p → (i < length hist)%nat.
Proof. intros [[a ->] Hi]. by eapply lookup_lt_Some. Qed.
Lemma place_unique hist i j p : NoDup hist → at_place hist i p → at_place hist j p → i = j.
Proof. intros Hn [[a ->] Hi] [_ Hj]. by eapply NoDup_lookup. Qed.
Lemma place_node q hist h t i p :
  qinv q hist h t → at_place hist i p → ∃ a, p = Some a ∧ hist !! i = Some a ∧ node_at q p = Some (ms_buf q a).
Proof.
  intros Hq [[a ->] Hi]. exists a. split_and!; [done..|]. cbn. pose proof (qi_range _ _ _ _ Hq i a Hi).
  by rewrite (proj2 (Z.leb_le 0 a)), (proj2 (Z.ltb_lt a MAX_BUF)) by lia.
Qed.
Lemma head_place q hist h t : qinv q hist h t → at_place hist h (mp_ptr (ms_head q)).
Proof. intros Hq. destruct (qi_head _ _ _ _ Hq) as [? ->]. by split. Qed.
Lemma tail_place q hist h t : qinv q hist h t → at_place hist t (mp_ptr (ms_tail q)).
Proof. intros Hq. destruct (qi_tail _ _ _ _ Hq) as [? ->]. by split. Qed.

(** the link of a node that a thread follows *)
Lemma next_place q hist h t i a : qinv q hist h t → hist !! i = Some a → next_read hist i (mp_ptr (mn_next (ms_buf q a))).
Proof. intros Hq Hi _. by rewrite (qi_next _ _ _ _ Hq i a Hi). Qed.
(** a null link is that of the last node; if it is at or before [head], the list is empty *)
Lemma next_null q hist h t i a :
  qinv q hist h t → hist !! i = Some a → mp_ptr (mn_next (ms_buf q a)) = None → length hist = S i.
Proof.
  intros Hq Hi Hn. rewrite (qi_next _ _ _ _ Hq i a Hi) in Hn. apply lookup_lt_Some in Hi. apply lookup_ge_None in Hn. lia.
Qed.
Lemma contents_empty q hist h : (length hist ≤ S h)%nat → contents q hist h = [].
Proof. intros Hl. unfold contents. by rewrite drop_ge. Qed.

Lemma contents_ext q q' hist h :
  (∀ i a, hist !! i = Some a → mn_ival (ms_buf q' a) = mn_ival (ms_buf q a)) → contents q' hist h = contents q hist h.
Proof. intros Hb. apply list_fmap_ext. intros i a. rewrite lookup_drop. apply Hb. Qed.

(** the counter, and the new node, concern nobody else *)
Lemma sim_store q hist h t v n c s :
  qinv q hist h t → rel q hist h t (NewStore v n c) s →
  simulated q hist h t (NewStore v n c) s (set_c (c + 1) q) (PushInit v n).
Proof.
  intros Hq (-> & -> & ->). exists hist, h, t, (SPush v).
  assert (∀ a, a ∈ hist → 0 ≤ a < ms_c q) as Hr.
  { intros a [i Hi]%list_elem_of_lookup. by apply (qi_range _ _ _ _ Hq i). }
  assert (0 ≤ ms_c q).
  { destruct (head_place _ _ _ _ Hq) as [[a Ha] Hi]. rewrite Ha in Hi. pose proof (qi_range _ _ _ _ Hq h a Hi). lia. }
  split_and!; [| |split; cbn; try done; [lia|by intros ? _ []]|by left].
  - destruct Hq as [Hn Hrg Hd Hh Ht Hle]. split; cbn; try done. intros i a Hi. pose proof (Hrg i a Hi). lia.
  - cbn. split; [done|]. split; cbn; [lia|]. intros Hin%Hr. lia.
Qed.

Lemma set_node_other a nd q b : a ≠ b → ms_buf (set_node a nd q) b = ms_buf q b.
Proof. intros Hne. cbn. by rewrite fn_lookup_insert_ne. Qed.
Lemma set_node_same a nd q : ms_buf (set_node a nd q) a = nd.
Proof. cbn. by rewrite fn_lookup_insert. Qed.

Lemma sim_init q hist h t v n s :
  qinv q hist h t → rel q hist h t (PushInit v n) s → n < MAX_BUF →
  simulated q hist h t (PushInit v n) s (set_node n (MNode null v) q) (PushTailPtr n).
Proof.
  intros Hq (-> & Hf & Hn) Hmax. exists hist, h, t, (SPush v).
  assert (∀ i a, hist !! i = Some a → ms_buf (set_node n (MNode null v) q) a = ms_buf q a) as Hb.
  { intros i a Hi. apply set_node_other. intros ->. apply Hn. by eapply list_elem_of_lookup_2. }
  split_and!.
  - destruct Hq as [Hnx Hrg Hd Hh Ht Hle]. split; try done. intros i a Hi. rewrite (Hb i a Hi). by apply Hnx.
  - exists v. split; [done|]. split; [by split|]. split; [done|]. apply set_node_same.
  - split; try done; [intros i a Hi; by rewrite (Hb i a Hi)|]. intros m Hm [_ Hin]. split; [done|].
    apply set_node_other. intros ->. by apply Hm.
  - left. split; [|done]. apply contents_ext. intros i a Hi. by rewrite (Hb i a Hi).
Qed.

(** [CAS(&q->tail, tail, tmp)] moves [tail] to the next node or does nothing *)
Lemma sim_cas_tail q hist h t p s tail i b p' :
  qinv q hist h t → at_place hist i (mp_ptr tail) → hist !! S i = Some b →
  (∀ t', (t ≤ t')%nat → rel (cas_tail tail b q) hist h t' p' s) →
  simulated q hist h t p s (cas_tail tail b q) p'.
Proof.
  intros Hq Hi Hb Hr. unfold cas_tail in *. case_decide as Heq; [|apply sim_read; [done|by apply Hr]]. subst tail.
  assert (i = t) as -> by (eapply place_unique; [apply Hq|done|by eapply tail_place]).
  exists hist, h, (S t), s. split_and!; [|apply Hr; lia| |by left].
  - destruct Hq as [Hnx Hrg Hd Hh Ht Hle]. split; try done; cbn; try lia; by rewrite Hb.
  - split; try done; try lia. by intros n _ [_ Hn].
Qed.

(** the link of the last node is set: the push happens *)
Lemma sim_link q hist h t n tail next i a v :
  qinv q hist h t → made q hist n v → mp_ptr tail = Some a → hist !! i = Some a →
  mp_ptr (mn_next (ms_buf q a)) = None →
  simulated q hist h t (PushCas n tail next) (SPush v)
    (set_node a (MNode (Ptr (Some n) (next_tag next)) (mn_ival (ms_buf q a))) q) (PushSwing n tail).
Proof.
  intros Hq [[Hc Hn] [Hmax Hbn]] Hta Hi Hnull. pose proof (next_null _ _ _ _ _ _ Hq Hi Hnull) as Hlen.
  set (q' := set_node a _ q). exists (hist ++ [n]), h, t, (SDone 0).
  assert (a ≠ n) as Han by (intros ->; apply Hn; by eapply list_elem_of_lookup_2).
  assert (ms_buf q' n = MNode null v) as Hqn by (unfold q'; by rewrite set_node_other).
  assert (∀ j b, hist !! j = Some b → (hist ++ [n]) !! j = Some b) as Hext by (intros; by apply lookup_app_l_Some).
  assert (∀ b, mn_ival (ms_buf q' b) = mn_ival (ms_buf q b)) as Hival.
  { intros b. unfold q'. destruct (decide (a = b)) as [->|]; [by rewrite set_node_same|by rewrite set_node_other]. }
  assert ((h < length hist)%nat) by (eapply place_lt, head_place, Hq).
  split_and!.
  - destruct Hq as [Hnx Hrg Hd [[? Hh] Eh] [[? Ht] Et] Hle]. split; try done.
    + intros j b Hj. apply lookup_app_Some in Hj as [Hj|[Hj Hb]].
      * destruct (decide (a = b)) as [->|Hne].
        -- unfold q'. rewrite set_node_same. cbn [mn_next mp_ptr]. assert (i = j) as <- by (by eapply NoDup_lookup).
           rewrite lookup_app_r by lia. by replace (S i - length hist)%nat with 0%nat by lia.
        -- unfold q'. rewrite set_node_other by done. rewrite (Hnx j b Hj). symmetry. apply lookup_app_l.
           pose proof (lookup_lt_Some _ _ _ Hj). destruct (decide (i = j)) as [->|]; [congruence|lia].
      * apply list_lookup_singleton_Some in Hb as [Hb <-]. rewrite Hqn. symmetry. apply lookup_ge_None.
        rewrite length_app. cbn. lia.
    + intros j b Hj. apply lookup_app_Some in Hj as [Hj|[_ Hb]]; [by apply (Hrg j)|].
      by apply list_lookup_singleton_Some in Hb as [_ <-].
    + apply list.NoDup_app. split; [done|]. split; [|apply NoDup_singleton]. by intros ? Hx ->%list_elem_of_singleton.
    + rewrite (Hext _ _ Hh), <- Hh. by split; [rewrite Hh|].
    + rewrite (Hext _ _ Ht), <- Ht. by split; [rewrite Ht|].
  - split; [done|]. exists i. split; [split; [by rewrite Hta|]|].
    + rewrite Hta. by apply Hext.
    + rewrite lookup_app_r by lia. by replace (S i - length hist)%nat with 0%nat by lia.
  - split; try done. intros m Hm [Hmc Hmn]. split.
    + rewrite elem_of_app, list_elem_of_singleton. intros [?|E]; [done|apply Hm; cbn; congruence].
    + apply set_node_other. intros ->. apply Hmn. by eapply list_elem_of_lookup_2.
  - right. replace (contents q' (hist ++ [n]) h) with (contents q hist h ++ [v]); [constructor|]. unfold contents.
    rewrite drop_app_le by lia. rewrite fmap_app, list_fmap_singleton, Hqn. f_equal. apply list_fmap_ext. intros. by rewrite Hival.
Qed.

(** [head] moves: the pop happens *)
Lemma sim_unlink q hist h t next a tag b :
  qinv q hist h t → (h < t)%nat → hist !! S h = Some a → mp_ptr next = Some a →
  simulated q hist h t (PopCas (ms_head q) next (mn_ival (ms_buf q a))) (SPop b)
    (set_head (Ptr (mp_ptr next) tag) q) (Finished (mn_ival (ms_buf q a))).
Proof.
  intros Hq Hlt Ha Hn. exists hist, (S h), t, (SDone (mn_ival (ms_buf q a))). split_and!; [|done| |].
  - destruct Hq as [Hnx Hrg Hd Hh Ht Hle]. split; try done; cbn; by rewrite Ha, Hn.
  - split; try done; try lia. by intros m _ [_ Hm].
  - right. unfold contents at 1. rewrite (drop_S _ _ _ Ha). constructor.
Qed.

Lemma cas_ret_0 ok : cas_ret 0 ok = (if ok then 1 else 0).
Proof. by destruct ok. Qed.

Definition in_push (p : pc) : bool :=
  match p with
  | NewNode _ | NewLoad _ _ | NewStore _ _ _ | PushSwing _ _ => true
  | _ => match owned p with Some _ => true | None => false end
  end.

(** every step of a thread is a step of its operation, or none *)
Lemma run_sim_push q hist h t p s q' p' :
  qinv q hist h t → rel q hist h t p s → in_push p = true →
  run_pc 0 q p = Some (q', p') → simulated q hist h t p s q' p'.
Proof.
  intros Hq Hr Hp Hrun. pose proof (tail_place _ _ _ _ Hq) as Htl.
  destruct p; try discriminate; clear Hp; cbn [run_pc] in Hrun; rewrite ?cas_ret_0 in Hrun.
  - simplify_eq. by apply sim_read.
  - simplify_eq. apply sim_read; [done|]. by destruct Hr as [-> ->].
  - simplify_eq. by apply sim_store.
  - apply bind_Some in Hrun as (nd & Hnd & Hrun). simplify_eq. apply sim_init; [done..|].
    cbn in Hnd. case_match eqn:E; [|done]. lia.
  - simplify_eq. apply sim_read; [done|]. destruct Hr as (v & -> & Hm). by exists v, t.
  - simplify_eq. by apply sim_read.
  - destruct Hr as (v & i & -> & Hm & Hi). destruct (place_node _ _ _ _ _ _ Hq Hi) as (a & Ha & Hia & Hn).
    rewrite Hn in Hrun. simplify_eq/=. apply sim_read; [done|]. exists v, i. split_and!; [done..|]. by eapply next_place.
  - apply bind_Some in Hrun as (nd & _ & Hrun). simplify_eq. by apply sim_read.
  - simplify_eq. apply sim_read; [done|]. destruct Hr as (v & i & -> & Hm & Hi & Hx). case_decide; cbn; eauto 10.
  - simplify_eq. apply sim_read; [done|]. destruct Hr as (v & i & -> & Hm & Hi & Hx). case_decide; cbn; eauto 10.
  - destruct Hr as (v & i & -> & Hm & Hi & Hx). destruct (mp_ptr next) as [b|] eqn:En.
    + simplify_eq. eapply sim_cas_tail; [done..|by apply Hx|]. intros t' _. exists v. split; [done|].
      unfold cas_tail. by case_decide.
    + destruct (place_node _ _ _ _ _ _ Hq Hi) as (a & Ha & Hia & Hn). rewrite Ha in Hrun, Hn.
      unfold mbind, option_bind in Hrun. rewrite Hn in Hrun. simplify_eq. case_bool_decide as Heq.
      * eapply sim_link; [done..|]. by rewrite Heq.
      * apply sim_read; [done|]. by exists v.
  - simplify_eq. destruct Hr as [-> (i & Hi & Hb)]. eapply sim_cas_tail; [done..|]. by intros.
Qed.

Lemma run_sim_pop q hist h t p s q' p' :
  qinv q hist h t → rel q hist h t p s → in_push p = false →
  run_pc 0 q p = Some (q', p') → simulated q hist h t p s q' p'.
Proof.
  intros Hq Hr Hp Hrun. pose proof (head_place _ _ _ _ Hq) as Hhd. pose proof (tail_place _ _ _ _ Hq) as Htl.
  pose proof (qi_le _ _ _ _ Hq) as Hle.
  destruct p; try discriminate; clear Hp; cbn [run_pc] in Hrun; try discriminate; rewrite ?cas_ret_0 in Hrun.
  - simplify_eq. apply sim_read; [done|]. destruct Hr as [b ->]. by exists b, h.
  - simplify_eq. by apply sim_read.
  - simplify_eq. apply sim_read; [done|]. destruct Hr as (b & i & -> & Hi & Hih). exists b, i, t.
    split_and!; [done..|lia|lia].
  - simplify_eq. by apply sim_read.
  - destruct Hr as (b & i & j & -> & Hi & Hih & Hj & Hij). destruct (place_node _ _ _ _ _ _ Hq Hi) as (a & Ha & Hia & Hn).
    rewrite Hn in Hrun. simplify_eq/=. destruct (mp_ptr (mn_next (ms_buf q' a))) as [c|] eqn:Enx.
    + apply sim_read; [done|]. exists b, i, j. split_and!; [done..|lia|lia|]. left. split; [done|].
      by rewrite <- Enx, (qi_next _ _ _ _ Hq i a Hia).
    + pose proof (next_null _ _ _ _ _ _ Hq Hia Enx). pose proof (place_lt _ _ _ Hj). eapply sim_lin with (s' := SPop true).
      * done.
      * exists true, i, j. split_and!; try done; try lia. right. split_and!; [done|lia|done].
      * rewrite contents_empty by lia. constructor.
  - apply bind_Some in Hrun as (nd & _ & Hrun). simplify_eq. by apply sim_read.
  - simplify_eq. apply sim_read; [done|]. case_decide; [done|]. destruct Hr as (b & i & j & -> & _). by exists b.
  - simplify_eq. apply sim_read; [done|]. case_decide; [done|]. destruct Hr as (b & i & j & -> & _). by exists b.
  - destruct Hr as (b & i & j & -> & Hi & Hih & Hj & Hij & Hx). case_decide as Heq.
    + assert (i = j) as <- by (eapply place_unique; [apply Hq|exact Hi|by rewrite Heq]).
      destruct (mp_ptr next) as [c|] eqn:En; simplify_eq.
      * destruct Hx as [[_ Hx]|[? _]]; [|done]. eapply sim_cas_tail; [done..|]. intros t' _. by exists b.
      * destruct Hx as [[[? ?] _]|(_ & _ & [= ->])]; [done|]. eapply sim_lin; [done..|constructor].
    + destruct Hx as [Hx|(_ & -> & _)]; [|by destruct Heq; destruct Hi as [_ <-], Hj as [_ <-]].
      destruct (place_node _ _ _ _ _ _ Hq Hx) as (a & Ha & Hxa & Hn). rewrite Hn in Hrun. simplify_eq/=.
      apply sim_read; [done|]. exists b, i, a. split_and!; try done.
      destruct (decide (i = j)) as [->|]; [|lia]. by destruct Heq; destruct Hi as [_ <-], Hj as [_ <-].
  - destruct Hr as (b & i & a & -> & Hi & Hit & Hn & Ha & Hret). subst ret. case_bool_decide as Heq; simplify_eq.
    + assert (i = h) as -> by (eapply place_unique; [apply Hq|done..]). eapply sim_unlink; [done..].
    + apply sim_read; [done|]. by exists b.
Qed.

Lemma run_sim q hist h t p s q' p' :
  qinv q hist h t → rel q hist h t p s → run_pc 0 q p = Some (q', p') → simulated q hist h t p s q' p'.
Proof. destruct (in_push p) eqn:E; [intros; by eapply run_sim_push|intros; by eapply run_sim_pop]. Qed.

(** ** All threads *)
Lemma run_owned junk q p q' p' n :
  run_pc junk q p = Some (q', p') → owned p' = Some n → owned p = Some n ∨ ∃ v c, p = NewStore v n c.
Proof.
  intros Hrun Ho. destruct p; cbn [run_pc] in Hrun; try discriminate;
    repeat (case_match; try discriminate); try (apply bind_Some in Hrun as (? & ? & Hrun));
    try (apply bind_Some in Hrun as (? & ? & Hrun)); simplify_eq; cbn in Ho; repeat case_match; simplify_eq/=; eauto.
Qed.
Lemma rel_fresh q hist h t p s n : rel q hist h t p s → owned p = Some n → fresh_node q hist n.
Proof. intros Hr Ho. destruct p; simplify_eq/=; unfold made in Hr; naive_solver. Qed.

Lemma init_minv buf : minv (ms_init buf) sinit [0] 0 0.
Proof.
  split; try done. split; try done.
  - intros i a Hi. apply list_lookup_singleton_Some in Hi as [-> <-]. cbn. by rewrite fn_lookup_insert.
  - intros i a Hi. apply list_lookup_singleton_Some in Hi as [-> <-]. cbn. unfold MAX_BUF. lia.
  - apply NoDup_singleton.
Qed.

Lemma minv_enter q ps l st hist h t i p s :
  minv (q, ps) (l, st) hist h t → rel q hist h t p s → owned p = None → allocating p = false →
  minv (q, <[i := p]> ps) (l, <[i := s]> st) hist h t.
Proof.
  intros [Hq Hl Hr Ho Ha] Hp Hop Hap. split; [done|done| | |]; cbn in *.
  - intros j. destruct (decide (i = j)) as [->|]; [by rewrite !fn_lookup_insert|by rewrite !fn_lookup_insert_ne].
  - intros j k n. unfold insert, fn_insert. do 2 case_decide; subst; try congruence. apply Ho.
  - intros j k. unfold insert, fn_insert. do 2 case_decide; subst; try congruence. apply Ha.
Qed.

Lemma minv_run q ps l st hist h t i q' p' :
  minv (q, ps) (l, st) hist h t → run_pc 0 q (ps i) = Some (q', p') →
  (allocating p' = true → ∀ j, j ≠ i → allocating (ps j) = false) →
  ∃ l' s' hist' h' t', minv (q', <[i := p']> ps) (l', <[i := s']> st) hist' h' t' ∧
    (l' = l ∧ s' = st i ∨ lin l (st i) l' s').
Proof.
  intros [Hq Hl Hr Ho Ha] Hrun Hex; cbn in *.
  destruct (run_sim _ _ _ _ _ _ _ _ Hq (Hr i) Hrun) as (hist' & h' & t' & s' & Hq' & Hr' & F & Hl').
  exists (contents q' hist' h'), s', hist', h', t'. subst l. split; [|done]. split; cbn; [done|done| | |].
  - intros j. destruct (decide (i = j)) as [->|Hne]; [by rewrite !fn_lookup_insert|]. rewrite !fn_lookup_insert_ne by done.
    apply (rel_stable F); [|by intros Hi; destruct (allocating (ps j)) eqn:E; [destruct Hne; by apply Ha|]|done].
    intros n H1 H2. by apply Hne, (Ho i j n).
  - assert (∀ j n, owned p' = Some n → owned (ps j) = Some n → i = j) as Hnew.
    { intros j n Hp Hj. destruct (run_owned _ _ _ _ _ _ Hrun Hp) as [Hi|(v & c & Hi)]; [by eapply Ho|].
      pose proof (Hr i) as Hri. rewrite Hi in Hri. destruct Hri as (_ & -> & _).
      destruct (rel_fresh _ _ _ _ _ _ _ (Hr j) Hj) as [Hlt _]. lia. }
    intros j k n. unfold insert, fn_insert. do 2 case_decide; subst; intros Hj Hk; [done|by eapply Hnew| |by eapply Ho].
    symmetry. by eapply Hnew.
  - intros j k. unfold insert, fn_insert. do 2 case_decide; subst; intros Hj Hk; [done| | |by apply Ha];
      exfalso; rewrite Hex in *; congruence || done.
Qed.

Lemma minv_ext m l st st' hist h t : minv m (l, st) hist h t → (∀ j, st j = st' j) → minv m (l, st') hist h t.
Proof. intros [Hq Hl Hr Ho Ha] He. split; try done. intros j. cbn in *. by rewrite <- He. Qed.

Lemma mstep_sim m o m' sp hist h t :
  minv m sp hist h t → mstep 0 true m o m' →
  ∃ sp' hist' h' t', minv m' sp' hist' h' t' ∧ (sstep sp o sp' ∨ o = None ∧ sp' = sp).
Proof.
  intros Hm Hs. destruct sp as [l st]. destruct Hs as [q ps i op Hi|q ps i r Hi|q ps i q' p' Hrun Hex].
  - exists (l, <[i := senter op]> st), hist, h, t. pose proof (mi_rel _ _ _ _ _ Hm i) as Hr. cbn in Hr. rewrite Hi in Hr.
    split; [|left; by constructor]. destruct op; apply minv_enter; try done. by exists false.
  - exists (l, <[i := SIdle]> st), hist, h, t. pose proof (mi_rel _ _ _ _ _ Hm i) as Hr. cbn in Hr. rewrite Hi in Hr.
    split; [|left; by constructor]. by apply minv_enter.
  - destruct (minv_run _ _ _ _ _ _ _ _ _ _ Hm Hrun (Hex eq_refl)) as (l' & s' & hist' & h' & t' & Hm' & [[-> ->]|Hl]).
    + exists (l, st), hist', h', t'. split; [|by right]. eapply minv_ext; [done|]. intros j.
      destruct (decide (i = j)) as [->|]; [by rewrite fn_lookup_insert|by rewrite fn_lookup_insert_ne].
    + exists (l', <[i := s']> st), hist', h', t'. split; [done|left]. by constructor.
Qed.

Lemma reachable_minv buf tr m :
  trace (mstep 0 true) (ms_init buf) tr m → ∃ sp, (∃ hist h t, minv m sp hist h t) ∧ trace sstep sinit tr sp.
Proof.
  apply (trace_refines _ _ (λ m sp, ∃ hist h t, minv m sp hist h t)); [|by eexists _, _, _; apply init_minv].
  intros m1 o m2 sp (hist & h & t & Hm) Hs.
  destruct (mstep_sim _ _ _ _ _ _ _ Hm Hs) as (sp' & hist' & h' & t' & Hm' & Hsp). exists sp'. split; [by eauto|done].
Qed.

(** ** The theorems *)

(** C10. The queue is linearizable.  Whatever calls threads make and however
    their accesses interleave, one word at a time, what the callers see is
    what a list would show them: every push appends and every pop removes the
    first element at one moment between call and return, and a pop that
    returns [-1] saw an empty list.  This needs two things that the code does
    not see to: that nobody is in [_new_node] when a thread enters it, and
    that the bytes of [__ret] that [sete] leaves are 0. *)
Theorem ms_queue_linearizable buf tr m :
  trace (mstep 0 true) (ms_init buf) tr m → ∃ sp, trace sstep sinit tr sp.
Proof. intros Htr. destruct (reachable_minv _ _ _ Htr) as (sp & _ & Hs). by exists sp. Qed.

Lemma rel_runs q hist h t p s :
  qinv q hist h t → rel q hist h t p s → running p = true → run_pc 0 q p = None → ∃ v n, p = PushInit v n ∧ MAX_BUF ≤ n.
Proof.
  intros Hq Hr Hp Hrun. pose proof (λ i x, place_node q hist h t i x Hq) as Hn.
  destruct p; try discriminate; cbn [run_pc] in Hrun.
  - cbn in Hrun. destruct Hr as (_ & [Hr _] & _). exists v, n. split; [done|]. case_match eqn:E; [done|]. lia.
  - destruct Hr as (v & i & _ & _ & Hi). destruct (Hn _ _ Hi) as (a & _ & _ & E). by rewrite E in Hrun.
  - destruct Hr as (v & i & _ & _ & Hi & _). destruct (Hn _ _ Hi) as (a & _ & _ & E). by rewrite E in Hrun.
  - destruct Hr as (v & i & _ & _ & Hi & _). destruct (Hn _ _ Hi) as (a & Ha & _ & E). rewrite Ha in Hrun, E.
    case_match; [done|]. unfold mbind, option_bind in Hrun. by rewrite E in Hrun.
  - destruct Hr as (b & i & j & _ & Hi & _). destruct (Hn _ _ Hi) as (a & _ & _ & E). by rewrite E in Hrun.
  - destruct Hr as (b & i & j & _ & Hi & _). destruct (Hn _ _ Hi) as (a & _ & _ & E). by rewrite E in Hrun.
  - destruct Hr as (b & i & j & _ & Hi & _ & Hj & _ & Hx). case_decide as Heq; [by case_match|].
    destruct Hx as [Hx|(_ & -> & _)]; [|by destruct Heq; destruct Hi as [_ <-], Hj as [_ <-]].
    destruct (Hn _ _ Hx) as (a & _ & _ & E). by rewrite E in Hrun.
Qed.

(** No thread follows a null pointer, in particular not [next] in a pop:
    a thread that is running can always go on, up to the push that takes a
    node behind the buffer. *)
Theorem ms_queue_safe buf tr q ps i :
  trace (mstep 0 true) (ms_init buf) tr (q, ps) → running (ps i) = true →
  is_Some (run_pc 0 q (ps i)) ∨ ∃ v n, ps i = PushInit v n ∧ MAX_BUF ≤ n.
Proof.
  intros Htr Hp. destruct (reachable_minv _ _ _ Htr) as (sp & (hist & h & t & Hm) & _).
  destruct (run_pc 0 q (ps i)) eqn:E; [by left|right]. eapply rel_runs; [apply Hm|apply (mi_rel _ _ _ _ _ Hm i)|done..].
Qed.
