(* ===== verification/MsQueueRun.v ===== *)
(** * Michael and Scott's queue, run

    Schedules of concrete threads, and a decision procedure for short traces:
    [refuted] follows every state the promised list can be in.  With both, the
    two assumptions of [ms_queue_linearizable] are seen to be needed. *)

From S2P Require Import Prelude MsQueue MsQueueSpec.
From stdpp Require Import functions.
Local Open Scope Z_scope.

(** ** Schedules *)
Inductive action := ACall (i : nat) (o : op) | AReturn (i : nat) | ARun (i k : nat).

Section schedule.
Context (junk : Z) (excl : bool) (n : nat).

(** [n] threads at most take part *)
Definition run_one (m : mstate) (i : nat) : option mstate :=
  '(q, p) ← run_pc junk m.1 (m.2 i);
  if (i <? n)%nat &&
     (negb excl || negb (allocating p) || forallb (λ j, (j =? i)%nat || negb (allocating (m.2 j))) (seq 0 n))
  then Some (q, <[i := p]> m.2) else None.
Fixpoint run_k (k : nat) (m : mstate) (i : nat) : option mstate :=
  match k with O => Some m | S k => m ← run_one m i; run_k k m i end.
Fixpoint run_actions (m : mstate) (l : list action) : option (mstate * list label) :=
  match l with
  | [] => Some (m, [])
  | ACall i o :: l =>
      match m.2 i with
      | Idle => if (i <? n)%nat then
                  '(m, tr) ← run_actions (m.1, <[i := enter o]> m.2) l; Some (m, Call i o :: tr)
                else None
      | _ => None
      end
  | AReturn i :: l =>
      match m.2 i with
      | Finished r => '(m, tr) ← run_actions (m.1, <[i := Idle]> m.2) l; Some (m, Return i r :: tr)
      | _ => None
      end
  | ARun i k :: l => m ← run_k k m i; run_actions m l
  end.

Definition only (m : mstate) : Prop := ∀ i, (n ≤ i)%nat → allocating (m.2 i) = false.

Lemma run_one_step m i m' : only m → run_one m i = Some m' → mstep junk excl m None m' ∧ only m'.
Proof.
  intros Ho Hr. destruct m as [q ps]. unfold run_one in Hr. cbn in Hr.
  apply bind_Some in Hr as ([q' p'] & Hrun & Hr). destruct (_ && _) eqn:E; [|done]. injection Hr as <-.
  apply andb_prop in E as [Hi E]. apply Nat.ltb_lt in Hi. split.
  - constructor; [done|]. intros -> Hp j Hj. rewrite Hp in E. cbn in E. rewrite forallb_forall in E.
    destruct (decide (j < n)%nat) as [Hjn|]; [|apply Ho; lia]. specialize (E j). rewrite in_seq in E.
    assert ((j =? i)%nat = false) as Hji by by apply Nat.eqb_neq, Hj. rewrite Hji in E. cbn in E.
    apply negb_true_iff, E. lia.
  - intros j Hj. cbn. rewrite fn_lookup_insert_ne by lia. by apply Ho.
Qed.
Lemma run_k_trace k m i m' tr m'' :
  only m → run_k k m i = Some m' → (only m' → trace (mstep junk excl) m' tr m'') → trace (mstep junk excl) m tr m''.
Proof.
  revert m. induction k as [|k IH]; intros m Ho Hr Htr; cbn in Hr; [simplify_eq; by apply Htr|].
  apply bind_Some in Hr as (m1 & H1 & Hr). destruct (run_one_step _ _ _ Ho H1). econstructor; [done|by apply IH].
Qed.
Lemma run_actions_trace m l m' tr : only m → run_actions m l = Some (m', tr) → trace (mstep junk excl) m tr m'.
Proof.
  revert m tr. induction l as [|[i o|i|i k] l IH]; intros [q ps] tr Ho Hr; cbn [run_actions fst snd] in Hr.
  - simplify_eq. constructor.
  - destruct (ps i) eqn:E; try done. destruct (i <? n)%nat eqn:Hi; [|done]. apply Nat.ltb_lt in Hi.
    apply bind_Some in Hr as ([m1 tr1] & H1 & [= <- <-]). eapply trace_label; [by constructor|]. apply IH; [|done].
    intros j Hj. cbn. rewrite fn_lookup_insert_ne by lia. by apply Ho.
  - destruct (ps i) eqn:E; try done.
    apply bind_Some in Hr as ([m1 tr1] & H1 & [= <- <-]). eapply trace_label; [by constructor|]. apply IH; [|done].
    intros j Hj. cbn. destruct (decide (i = j)) as [->|]; [by rewrite fn_lookup_insert|].
    rewrite fn_lookup_insert_ne by done. by apply Ho.
  - apply bind_Some in Hr as (m1 & H1 & Hr). eapply run_k_trace; [done..|]. intros. by apply IH.
Qed.
End schedule.

Lemma schedule_trace junk excl buf l tr :
  snd <$> run_actions junk excl 2 (ms_init buf) l = Some tr → ∃ m, trace (mstep junk excl) (ms_init buf) tr m.
Proof.
  intros Hr. apply fmap_Some in Hr as ([m tr'] & Hr & ->). exists m. by eapply run_actions_trace.
Qed.

(** ** Which traces a list can show *)
#[export] Instance status_eq_dec : EqDecision status.
Proof. solve_decision. Defined.

(** a state with two threads *)
Definition view : Type := list Z * status * status.
Definition lins (l : list Z) (s : status) : list (list Z * status) :=
  match s with
  | SPush v => [(l ++ [v], SDone 0)]
  | SPop b =>
      (match l with x :: l => [(l, SDone x)] | [] => [([], SPop true)] end) ++ (if b then [(l, SDone (-1))] else [])
  | _ => []
  end.
Definition taus (x : view) : list view :=
  let '(l, s0, s1) := x in ((λ y, (y.1, y.2, s1)) <$> lins l s0) ++ ((λ y, (y.1, s0, y.2)) <$> lins l s1).
Definition label_of (o : label) (x : view) : list view :=
  let '(l, s0, s1) := x in
  match o with
  | Call O o => if decide (s0 = SIdle) then [(l, senter o, s1)] else []
  | Call (S O) o => if decide (s1 = SIdle) then [(l, s0, senter o)] else []
  | Return O r => if decide (s0 = SDone r) then [(l, SIdle, s1)] else []
  | Return (S O) r => if decide (s1 = SDone r) then [(l, s0, SIdle)] else []
  | _ => []
  end.
Definition of_two (o : label) : bool := match o with Call i _ | Return i _ => (i <? 2)%nat end.

Fixpoint close_taus (k : nat) (xs : list view) : list view :=
  match k with O => xs | S k => close_taus k (remove_dups (xs ++ (xs ≫= taus))) end.
Definition closed (xs : list view) : bool := forallb (λ x, forallb (λ y, bool_decide (y ∈ xs)) (taus x)) xs.
(** no state of the list is left at the end *)
Fixpoint refuted (xs : list view) (tr : list label) : bool :=
  closed xs &&
  match tr with
  | [] => match xs with [] => true | _ => false end
  | o :: tr => of_two o && refuted (close_taus 6 (xs ≫= label_of o)) tr
  end.

Definition seen (xs : list view) (sp : sstate) : Prop :=
  (sp.1, sp.2 0%nat, sp.2 1%nat) ∈ xs ∧ ∀ i, (2 ≤ i)%nat → sp.2 i = SIdle.

Lemma seen_tau xs sp sp' : closed xs = true → seen xs sp → sstep sp None sp' → seen xs sp'.
Proof.
  intros Hc [Hin Hi] Hs. inversion Hs as [| |l st t l' s' Hl]; subst; cbn in *.
  assert (t < 2)%nat as Ht.
  { destruct (decide (t < 2)%nat); [done|]. rewrite Hi in Hl by lia. inversion Hl. }
  split; cbn; [|intros j Hj; rewrite fn_lookup_insert_ne by lia; by apply Hi].
  assert ((l', s') ∈ lins l (st t)) as Hlin.
  { inversion Hl; subst; cbn; set_solver. }
  unfold closed in Hc. rewrite forallb_forall in Hc. specialize (Hc _ (proj1 (list_elem_of_In _ _) Hin)).
  rewrite forallb_forall in Hc. apply (bool_decide_eq_true_1 _), Hc, list_elem_of_In. cbn. apply elem_of_app.
  destruct t as [|[|t]]; [left|right|lia]; apply list_elem_of_fmap; exists (l', s');
    rewrite fn_lookup_insert, fn_lookup_insert_ne by done; done.
Qed.
Lemma seen_label xs sp o sp' : of_two o = true → seen xs sp → sstep sp (Some o) sp' → seen (xs ≫= label_of o) sp'.
Proof.
  intros Ho [Hin Hi] Hs. inversion Hs as [l st t op E|l st t r E|]; subst; cbn [of_two] in Ho; cbn [fst snd] in *; apply Nat.ltb_lt in Ho;
    (split; cbn; [|intros j Hj; rewrite fn_lookup_insert_ne by lia; by apply Hi]);
    apply list_elem_of_bind; (eexists; split; [|exact Hin]); destruct t as [|[|t]]; [| |lia| | |lia]; cbn;
    rewrite fn_lookup_insert, fn_lookup_insert_ne by done; rewrite E, decide_True by done; by apply list_elem_of_singleton.
Qed.
Lemma close_taus_incl k xs x : x ∈ xs → x ∈ close_taus k xs.
Proof. revert xs. induction k as [|k IH]; intros xs Hx; [done|]. apply IH, elem_of_remove_dups, elem_of_app. by left. Qed.

Lemma refuted_sound xs tr sp sp' : refuted xs tr = true → seen xs sp → ¬ trace sstep sp tr sp'.
Proof.
  intros Hr Hs Htr. revert xs Hr Hs. induction Htr as [sp|sp sp1 tr sp' Hst Htr IH|sp o sp1 tr sp' Hst Htr IH]; intros xs Hr Hs.
  - destruct xs; [|cbn [refuted] in Hr; by rewrite andb_false_r in Hr]. destruct Hs as [Hs _]. by apply not_elem_of_nil in Hs.
  - apply (IH xs); [done|]. apply (seen_tau _ sp); [|done..]. by destruct tr; apply andb_prop in Hr as [? _].
  - cbn [refuted] in Hr. apply andb_prop in Hr as [_ Hr]. apply andb_prop in Hr as [Ho Hr]. apply (IH _ Hr).
    destruct (seen_label _ _ _ _ Ho Hs Hst) as [Hin Hi]. split; [|done]. by apply close_taus_incl.
Qed.

(** ** Where the queue fails *)

Definition two_pushes : list label :=
  [Call 1 (Push 2); Call 0 (Push 1); Return 0 0; Return 1 0; Call 0 Pop; Return 0 1; Call 0 Pop; Return 0 (-1)].

(** [sete] writes one byte of [__ret]; with anything in the other three a
    [CAS] that fails is taken to have succeeded, and the push of a thread that
    another one overtakes is lost: no list shows what the callers see. *)
Theorem failed_cas_loses_push buf :
  (∃ m, trace (mstep 1 true) (ms_init buf) two_pushes m) ∧ ¬ ∃ sp, trace sstep sinit two_pushes sp.
Proof.
  split.
  - apply (schedule_trace 1 true buf [ACall 1 (Push 2); ARun 1 10; ACall 0 (Push 1); ARun 0 12; AReturn 0; ARun 1 2;
      AReturn 1; ACall 0 Pop; ARun 0 10; AReturn 0; ACall 0 Pop; ARun 0 9; AReturn 0]).
    vm_compute. reflexivity.
  - intros [sp Htr]. refine (refuted_sound [([], SIdle, SIdle)] _ _ _ _ _ Htr); [vm_compute; reflexivity|].
    split; [by apply list_elem_of_singleton|done].
Qed.

Definition one_node : list label :=
  [Call 1 (Push 2); Call 0 (Push 1); Return 0 0; Call 0 Pop; Return 0 2; Call 0 Pop; Return 0 (-1)].

(** [_new_node] reads and writes its counter like any variable: two
    threads that are in it get the same node, and the second one writes over
    the value the first has pushed. *)
Theorem shared_node_loses_push buf :
  (∃ m, trace (mstep 0 false) (ms_init buf) one_node m) ∧ ¬ ∃ sp, trace sstep sinit one_node sp.
Proof.
  split.
  - apply (schedule_trace 0 false buf [ACall 1 (Push 2); ARun 1 1; ACall 0 (Push 1); ARun 0 12; AReturn 0; ARun 1 3;
      ACall 0 Pop; ARun 0 10; AReturn 0; ACall 0 Pop; ARun 0 9; AReturn 0]).
    vm_compute. reflexivity.
  - intros [sp Htr]. refine (refuted_sound [([], SIdle, SIdle)] _ _ _ _ _ Htr); [vm_compute; reflexivity|].
    split; [by apply list_elem_of_singleton|done].
Qed.

(** ** Witnesses: two pushes that overlap, and a pop *)
Definition sample_buf : Z → ms_node := λ _, MNode null 0.
Definition overlap : list action :=
  [ACall 1 (Push 2); ARun 1 10; ACall 0 (Push 1); ARun 0 12; AReturn 0; ARun 1 9; AReturn 1; ACall 0 Pop; ARun 0 4].
Definition overlap_trace : list label := [Call 1 (Push 2); Call 0 (Push 1); Return 0 0; Return 1 0; Call 0 Pop].

Lemma ms_queue_linearizable_witness : ∃ sp, trace sstep sinit overlap_trace sp.
Proof.
  destruct (schedule_trace 0 true sample_buf overlap overlap_trace) as [m Hm]; [vm_compute; reflexivity|].
  exact (ms_queue_linearizable sample_buf overlap_trace m Hm).
Defined.

Definition overlap_end : mstate := default (ms_init sample_buf) (fst <$> run_actions 0 true 2 (ms_init sample_buf) overlap).
Lemma ms_queue_safe_witness :
  is_Some (run_pc 0 overlap_end.1 (overlap_end.2 0%nat)) ∨ ∃ v n, overlap_end.2 0%nat = PushInit v n ∧ MAX_BUF ≤ n.
Proof.
  apply (ms_queue_safe sample_buf overlap_trace overlap_end.1 overlap_end.2 0); [|vm_compute; reflexivity].
  apply (run_actions_trace 0 true 2 (ms_init sample_buf) overlap (overlap_end.1, overlap_end.2) overlap_trace); [done|].
  unfold overlap_end. destruct (run_actions _ _ _ _ _) as [[[q ps] tr]|] eqn:E; [|vm_compute in E; discriminate].
  cbn. do 2 f_equal. apply (f_equal (fmap snd)) in E. vm_compute in E. by injection E as <-.
Defined.
