(* ===== verification/Queue1r1w.v ===== *)
(** * [common/s_1r1w_queue.c]: a queue for one reader and one writer

    The writer pushes and the reader pops without locks.  Each is a program
    counter whose next step is one access to shared memory.  Elements are
    numbered by their place in the static buffer [g_buf]; [ifree_elem] returns
    at once, so none is used again. *)

From S2P Require Import Prelude MsQueue.
From stdpp Require Import functions list_relations.
Local Open Scope Z_scope.

(** ** Data *)
Record s_1r1w_elem := Elem { e_prev : option Z; e_data : Z }.

Record s_1r1w_queue := Q1 {
  q1_head : option Z;
  q1_tail : option Z;
  q1_last : option Z;
  q1_buf : Z → s_1r1w_elem;
  q1_c : Z
}.
Definition set_q1_head p q : s_1r1w_queue := Q1 p (q1_tail q) (q1_last q) (q1_buf q) (q1_c q).
Definition set_q1_tail p q : s_1r1w_queue := Q1 (q1_head q) p (q1_last q) (q1_buf q) (q1_c q).
Definition set_q1_last p q : s_1r1w_queue := Q1 (q1_head q) (q1_tail q) p (q1_buf q) (q1_c q).
Definition set_q1_elem a e q : s_1r1w_queue :=
  Q1 (q1_head q) (q1_tail q) (q1_last q) (<[a := e]> (q1_buf q)) (q1_c q).

(** the static buffer is zero at first *)
Definition s_1r1w_queue_create : s_1r1w_queue := Q1 None None None (λ _, Elem None 0) 0.

(** ** The writer *)
Inductive wpc :=
| WIdle
| WGet (d : Z)                   (* iget_free_elem *)
| WData (d e : Z)                (* elem->data = d *)
| WTest (e : Z)                  (* if(!q->head) *)
| WFirstHead (e : Z)             (* q->head = elem *)
| WFirstTail (e : Z)             (* q->tail = elem *)
| WLoad (e : Z)                  (* q->head ... *)
| WPrev (e h : Z)                (* ... ->prev = elem *)
| WHead (e : Z)                  (* q->head = elem *)
| WDone.

(** [None]: not running, or behind the buffer *)
Definition s_1r1w_queue_push (q : s_1r1w_queue) (p : wpc) : option (s_1r1w_queue * wpc) :=
  match p with
  | WIdle | WDone => None
  | WGet d =>
      if q1_c q <? MAX_BUF
      then Some (Q1 (q1_head q) (q1_tail q) (q1_last q) (q1_buf q) (q1_c q + 1), WData d (q1_c q)) else None
  | WData d e => Some (set_q1_elem e (Elem (e_prev (q1_buf q e)) d) q, WTest e)
  | WTest e => Some (q, match q1_head q with None => WFirstHead e | Some _ => WLoad e end)
  | WFirstHead e => Some (set_q1_head (Some e) q, WFirstTail e)
  | WFirstTail e => Some (set_q1_tail (Some e) q, WDone)
  | WLoad e => h ← q1_head q; Some (q, WPrev e h)
  | WPrev e h => Some (set_q1_elem h (Elem (Some e) (e_data (q1_buf q h))) q, WHead e)
  | WHead e => Some (set_q1_head (Some e) q, WDone)
  end.

(** ** The reader *)
Inductive rpc_ :=
| RIdle
| RTail                          (* if(!q->tail) *)
| RLast                          (* if(q->last) *)
| RLoad                          (* q->last ... *)
| RPrev (l : Z)                  (* ... ->prev *)
| RSetTail (p : option Z)        (* q->tail = *)
| RTail2                         (* if(!q->tail) return NULL *)
| RElem                          (* elem = q->tail *)
| RSetLast (e : Z)               (* q->last = elem *)
| RPrev2 (e : Z)                 (* elem->prev *)
| RSetTail2 (e : Z) (p : option Z) (* q->tail = *)
| RData (e : Z)                  (* return elem->data *)
| RDone (r : Z).

Definition s_1r1w_queue_pop (q : s_1r1w_queue) (p : rpc_) : option (s_1r1w_queue * rpc_) :=
  match p with
  | RIdle | RDone _ => None
  | RTail => Some (q, match q1_tail q with None => RLast | Some _ => RElem end)
  | RLast => Some (q, match q1_last q with None => RTail2 | Some _ => RLoad end)
  | RLoad => l ← q1_last q; Some (q, RPrev l)
  | RPrev l => Some (q, RSetTail (e_prev (q1_buf q l)))
  | RSetTail p => Some (set_q1_tail p q, RTail2)
  | RTail2 => Some (q, match q1_tail q with None => RDone 0 | Some _ => RElem end)
  | RElem => e ← q1_tail q; Some (q, RSetLast e)
  | RSetLast e => Some (set_q1_last (Some e) q, RPrev2 e)
  | RPrev2 e => Some (q, RSetTail2 e (e_prev (q1_buf q e)))
  | RSetTail2 e p => Some (set_q1_tail p q, RData e)
  | RData e => Some (q, RDone (e_data (q1_buf q e)))
  end.

(** ** Both *)
Inductive label1 := CallPush (d : Z) | ReturnPush | CallPop | ReturnPop (r : Z).
Definition state1 : Type := s_1r1w_queue * wpc * rpc_.

Inductive step1 : state1 → option label1 → state1 → Prop :=
| step_call_push q r d : step1 (q, WIdle, r) (Some (CallPush d)) (q, WGet d, r)
| step_return_push q r : step1 (q, WDone, r) (Some ReturnPush) (q, WIdle, r)
| step_call_pop q w : step1 (q, w, RIdle) (Some CallPop) (q, w, RTail)
| step_return_pop q w x : step1 (q, w, RDone x) (Some (ReturnPop x)) (q, w, RIdle)
| step_push q w r q' w' : s_1r1w_queue_push q w = Some (q', w') → step1 (q, w, r) None (q', w', r)
| step_pop q w r q' r' : s_1r1w_queue_pop q r = Some (q', r') → step1 (q, w, r) None (q', w, r').
Definition init1 : state1 := (s_1r1w_queue_create, WIdle, RIdle).

(** ** What is promised: a list, its writer and its reader *)
Inductive wstatus := NoPush | Pushing (d : Z) | Pushed.
Inductive rstatus := NoPop | Popping | Popped (r : Z).
Inductive spec1 : list Z * wstatus * rstatus → option label1 → list Z * wstatus * rstatus → Prop :=
| spec_call_push l d r : spec1 (l, NoPush, r) (Some (CallPush d)) (l, Pushing d, r)
| spec_return_push l r : spec1 (l, Pushed, r) (Some ReturnPush) (l, NoPush, r)
| spec_call_pop l w : spec1 (l, w, NoPop) (Some CallPop) (l, w, Popping)
| spec_return_pop l w x : spec1 (l, w, Popped x) (Some (ReturnPop x)) (l, w, NoPop)
| spec_push l d r : spec1 (l, Pushing d, r) None (l ++ [d], Pushed, r)
| spec_pop x l w : spec1 (x :: l, w, Popping) None (l, w, Popped x)
| spec_pop_empty w : spec1 ([], w, Popping) None ([], w, Popped 0).

(** ** The invariant: [hist] are the elements linked so far, [k] of them popped *)
Record base1 (q : s_1r1w_queue) (hist : list Z) (k : nat) : Prop := Base1 {
  b_prev i a : hist !! i = Some a → e_prev (q1_buf q a) = hist !! S i;
  b_range i a : hist !! i = Some a → 0 ≤ a < q1_c q;
  b_fresh a : q1_c q ≤ a → e_prev (q1_buf q a) = None;
  b_c : 0 ≤ q1_c q;
  b_nodup : NoDup hist;
  b_k : (k ≤ length hist)%nat
}.

Definition own1 (q : s_1r1w_queue) (hist : list Z) (e d : Z) : Prop :=
  0 ≤ e < q1_c q ∧ e ∉ hist ∧ q1_buf q e = Elem None d.
Definition wrel (q : s_1r1w_queue) (hist : list Z) (w : wpc) (s : wstatus) : Prop :=
  match w with
  | WIdle => s = NoPush ∧ q1_head q = last hist
  | WGet d => s = Pushing d ∧ q1_head q = last hist
  | WData d e => s = Pushing d ∧ q1_head q = last hist ∧ ∃ d', own1 q hist e d'
  | WTest e => ∃ d, s = Pushing d ∧ q1_head q = last hist ∧ own1 q hist e d
  | WFirstHead e => ∃ d, s = Pushing d ∧ q1_head q = last hist ∧ own1 q hist e d ∧ hist = []
  | WFirstTail e => ∃ d, s = Pushing d ∧ q1_head q = Some e ∧ own1 q hist e d ∧ hist = []
  | WLoad e => ∃ d, s = Pushing d ∧ q1_head q = last hist ∧ own1 q hist e d ∧ is_Some (last hist)
  | WPrev e h => ∃ d, s = Pushing d ∧ last hist = Some h ∧ own1 q hist e d
  | WHead e => s = Pushed ∧ last hist = Some e
  | WDone => s = Pushed ∧ q1_head q = last hist
  end.

(** the element popped last, and where [tail] may stand *)
Definition popped (hist : list Z) (k : nat) : option Z := match k with O => None | S j => hist !! j end.
Definition tail_ok (q : s_1r1w_queue) (hist : list Z) (k : nat) : Prop :=
  q1_tail q = hist !! k ∨ q1_tail q = None ∧ (0 < k)%nat.
Definition between (q : s_1r1w_queue) (hist : list Z) (k : nat) : Prop := q1_last q = popped hist k ∧ tail_ok q hist k.

Definition rrel (q : s_1r1w_queue) (hist : list Z) (k : nat) (r : rpc_) (s : rstatus) : Prop :=
  match r with
  | RIdle => s = NoPop ∧ between q hist k
  | RTail | RLast => s = Popping ∧ between q hist k
  | RLoad => s = Popping ∧ between q hist k ∧ (0 < k)%nat
  | RPrev l => s = Popping ∧ between q hist k ∧ popped hist k = Some l
  | RSetTail p =>
      between q hist k ∧ (0 < k)%nat ∧
      (s = Popped 0 ∧ p = None ∨ ∃ e, s = Popping ∧ p = Some e ∧ hist !! k = Some e)
  | RTail2 =>
      between q hist k ∧
      (s = Popping ∧ q1_tail q = hist !! k ∧ (k = O ∨ is_Some (q1_tail q)) ∨ s = Popped 0 ∧ q1_tail q = None ∧ (0 < k)%nat)
  | RElem => ∃ e, s = Popping ∧ q1_last q = popped hist k ∧ q1_tail q = Some e ∧ hist !! k = Some e
  | RSetLast e => s = Popped (e_data (q1_buf q e)) ∧ popped hist k = Some e
  | RPrev2 e => s = Popped (e_data (q1_buf q e)) ∧ popped hist k = Some e ∧ q1_last q = Some e
  | RSetTail2 e p =>
      s = Popped (e_data (q1_buf q e)) ∧ popped hist k = Some e ∧ q1_last q = Some e ∧ (p = None ∨ p = hist !! k)
  | RData e => s = Popped (e_data (q1_buf q e)) ∧ popped hist k = Some e ∧ between q hist k
  | RDone x => s = Popped x ∧ between q hist k
  end.

Definition contents1 (q : s_1r1w_queue) (hist : list Z) (k : nat) : list Z :=
  (λ a, e_data (q1_buf q a)) <$> drop k hist.

Record inv1 (m : state1) (sp : list Z * wstatus * rstatus) (hist : list Z) (k : nat) : Prop := Inv1 {
  i1_base : base1 m.1.1 hist k;
  i1_list : sp.1.1 = contents1 m.1.1 hist k;
  i1_w : wrel m.1.1 hist m.1.2 sp.1.2;
  i1_r : rrel m.1.1 hist k m.2 sp.2
}.

(** ** The reader *)
Lemma popped_pos hist k e : popped hist k = Some e → (0 < k)%nat.
Proof. destruct k; [done|lia]. Qed.
Lemma popped_zero q hist k : base1 q hist k → popped hist k = None → k = O.
Proof. intros Hb Hp. destruct k as [|j]; [done|]. apply lookup_ge_None in Hp. pose proof (b_k _ _ _ Hb). lia. Qed.
Lemma popped_prev q hist k l : base1 q hist k → popped hist k = Some l → e_prev (q1_buf q l) = hist !! k.
Proof. intros Hb Hp. destruct k as [|j]; [done|]. by apply (b_prev _ _ _ Hb). Qed.
Lemma contents1_empty q hist k : hist !! k = None → contents1 q hist k = [].
Proof. intros Hn%lookup_ge_None. unfold contents1. by rewrite drop_ge. Qed.

(** the reader changes [tail] and [last] only *)
Definition same_w (q q' : s_1r1w_queue) : Prop := q1_head q' = q1_head q ∧ q1_buf q' = q1_buf q ∧ q1_c q' = q1_c q.

Lemma same_w_base q q' hist k : same_w q q' → base1 q hist k → base1 q' hist k.
Proof. intros (_ & Hb & Hc) []. split; rewrite ?Hb, ?Hc; done. Qed.
Lemma same_w_rel q q' hist w s : same_w q q' → wrel q hist w s → wrel q' hist w s.
Proof. intros (Hh & Hb & Hc). unfold wrel, own1. by rewrite Hh, Hb, Hc. Qed.

(** what a step of the reader comes to *)
Definition reader_sim (q : s_1r1w_queue) (hist : list Z) (k : nat) (s : rstatus) (q' : s_1r1w_queue) (r' : rpc_) : Prop :=
  ∃ k' s', same_w q q' ∧ base1 q' hist k' ∧ rrel q' hist k' r' s' ∧
    (k' = k ∧ s' = s ∨ ∀ w, spec1 (contents1 q hist k, w, s) None (contents1 q' hist k', w, s')).

Lemma sim_same q hist k s q' r' :
  base1 q hist k → same_w q q' → rrel q' hist k r' s → reader_sim q hist k s q' r'.
Proof. intros Hb Hq Hr. exists k, s. split_and!; [done|by eapply same_w_base|done|by left]. Qed.

Lemma pop_sim q hist k r s q' r' :
  base1 q hist k → rrel q hist k r s → s_1r1w_queue_pop q r = Some (q', r') → reader_sim q hist k s q' r'.
Proof.
  intros Hb Hr Hp. destruct r; try discriminate; cbn [s_1r1w_queue_pop] in Hp.
  - destruct Hr as [-> [Hl Ht]]. destruct (q1_tail q) as [e|] eqn:E; simplify_eq; apply sim_same; try done.
    destruct Ht as [Ht|[Ht _]]; [|congruence]. exists e. by rewrite <- Ht, E.
  - destruct Hr as [-> [Hl Ht]]. destruct (q1_last q) as [l|] eqn:E; simplify_eq; apply sim_same; try done.
    + split; [done|]. split; [split; [congruence|done]|]. by eapply popped_pos, eq_sym.
    + symmetry in Hl. pose proof (popped_zero _ _ _ Hb Hl) as ->.
      split; [by split; [rewrite E|]|]. left. destruct Ht as [Ht|[_ Ht]]; [|lia]. split_and!; auto.
  - destruct Hr as (-> & [Hl Ht] & Hk). apply bind_Some in Hp as (l & E & Hp). simplify_eq. apply sim_same; [done..|].
    split_and!; [done|by split|by rewrite <- Hl].
  - destruct Hr as (-> & Hbt & Hl). simplify_eq. rewrite (popped_prev _ _ _ _ Hb Hl).
    destruct (hist !! k) as [e|] eqn:E.
    + apply sim_same; [done..|]. split_and!; [apply Hbt|by eapply popped_pos|]. right. by exists e.
    + exists k, (Popped 0). split_and!; [done|done|split_and!; [apply Hbt|by eapply popped_pos|by left]|].
      right. intros w. rewrite contents1_empty by done. constructor.
  - destruct Hr as ([Hl _] & Hk & Hp'). simplify_eq. apply sim_same; [done..|].
    destruct Hp' as [[-> ->]|(e & -> & -> & He)].
    + split; [split; [done|by right]|by right].
    + split; [split; [done|left]|left]; cbn; rewrite He; eauto.
  - destruct Hr as ([Hl Ht] & Hs). destruct (q1_tail q) as [e|] eqn:E; simplify_eq.
    + destruct Hs as [(-> & Hs & _)|(_ & ? & _)]; [|congruence]. apply sim_same; [done..|]. exists e. split_and!; congruence.
    + destruct Hs as [(-> & Hs & [->|[? ?]])|(-> & _ & Hk)]; [|congruence|by apply sim_same].
      exists O, (Popped 0). split_and!; [done|done|by split|]. right. intros w.
      rewrite contents1_empty by congruence. constructor.
  - destruct Hr as (e & -> & Hl & Ht & He). rewrite Ht in Hp. simplify_eq/=.
    exists (S k), (Popped (e_data (q1_buf q' e))). split_and!; [done| |done|].
    + destruct Hb. split; try done. by eapply lookup_lt_Some.
    + right. intros w. unfold contents1 at 1. rewrite (drop_S _ _ _ He). constructor.
  - destruct Hr as [-> Hl]. simplify_eq. by apply sim_same.
  - destruct Hr as (-> & Hl & Hq). simplify_eq. apply sim_same; [done..|]. split_and!; [done..|]. right.
    by eapply popped_prev.
  - destruct Hr as (-> & Hl & Hq & Hx). simplify_eq. apply sim_same; [done..|]. split_and!; [done|done|]. split; [cbn; congruence|].
    destruct Hx as [->| ->]; [right; split; [done|by eapply popped_pos]|by left].
  - destruct Hr as (-> & Hl & Hbt). simplify_eq. by apply sim_same.
Qed.

(** ** The writer *)

(** an element is linked at the end: what the reader has seen stays true *)
Lemma rrel_append q q' hist k r s e :
  q1_last q' = q1_last q → (∀ a, a ∈ hist → e_data (q1_buf q' a) = e_data (q1_buf q a)) →
  (q1_tail q' = q1_tail q ∧ hist ≠ [] ∨ q1_tail q' = Some e ∧ hist = [] ∧ k = O) →
  (∀ j, popped hist k = Some j → j ∈ hist) → base1 q hist k →
  rrel q hist k r s → rrel q' (hist ++ [e]) k r s.
Proof.
  intros Hl Hd Ht Hin Hb Hr.
  assert (popped (hist ++ [e]) k = popped hist k) as Ep.
  { destruct k as [|j]; [done|]. cbn. apply lookup_app_l. pose proof (b_k _ _ _ Hb). lia. }
  assert (∀ x, hist !! k = Some x → (hist ++ [e]) !! k = Some x) as Ek by (intros; by apply lookup_app_l_Some).
  assert (between q hist k → between q' (hist ++ [e]) k) as Hbt.
  { intros [H1 H2]. split; [by rewrite Hl, Ep|]. unfold tail_ok in *.
    destruct Ht as [[-> Hne]|(-> & -> & ->)]; [|by left]. destruct H2 as [H2|H2]; [|by right].
    destruct (hist !! k) as [x|] eqn:E; [left; by rewrite H2, (Ek x)|right; split; [done|]].
    apply lookup_ge_None in E. destruct hist; [done|]. cbn in E. lia. }
  assert (∀ x, popped hist k = Some x → e_data (q1_buf q' x) = e_data (q1_buf q x)) as Hdp by (intros; by apply Hd, Hin).
  destruct r; cbn in Hr |- *; rewrite ?Ep, ?Hl.
  - destruct Hr as [-> H]. by split; [|apply Hbt].
  - destruct Hr as [-> H]. by split; [|apply Hbt].
  - destruct Hr as [-> H]. by split; [|apply Hbt].
  - destruct Hr as (-> & H & Hk). by split_and!; [|apply Hbt|].
  - destruct Hr as (-> & H & Hk). by split_and!; [|apply Hbt|].
  - destruct Hr as (H & Hk & [[-> ->]|(x & -> & -> & Hx)]); (split_and!; [by apply Hbt|done|]); [by left|].
    right. exists x. by split_and!; [..|apply Ek].
  - destruct Hr as (H1 & H2). split; [by apply Hbt|]. destruct Ht as [[-> Hne]|(-> & -> & ->)].
    + destruct H2 as [(-> & H2 & H3)|H2]; [left|by right]. destruct (hist !! k) as [x|] eqn:E.
      * split_and!; [done|by rewrite H2, (Ek x)|done].
      * exfalso. rewrite H2 in H3. destruct H3 as [->|[? ?]]; [|done]. by destruct hist.
    + destruct H2 as [(-> & H2 & H3)|(_ & _ & ?)]; [left|lia]. by split_and!; [|..|left].
  - destruct Hr as (x & -> & H1 & H2 & H3). exists x. destruct Ht as [[-> Hne]|(_ & -> & _)]; [|done].
    split_and!; [done..|by apply Ek].
  - destruct Hr as [-> H]. by rewrite (Hdp _ H).
  - destruct Hr as (-> & H & H2). by rewrite (Hdp _ H).
  - destruct Hr as (-> & H & H2 & [->|Hx]); rewrite (Hdp _ H); (split_and!; [done..|]); [by left|].
    destruct (hist !! k) as [x|] eqn:E; [right; by rewrite Hx, (Ek x)|by left].
  - destruct Hr as (-> & H & H2). rewrite (Hdp _ H). by split_and!; [..|apply Hbt].
  - destruct Hr as [-> H]. by split; [|apply Hbt].
Qed.
Lemma popped_in hist k j : popped hist k = Some j → j ∈ hist.
Proof. destruct k; [done|]. apply list_elem_of_lookup_2. Qed.

Definition writer_sim (q : s_1r1w_queue) (hist : list Z) (k : nat) (r : rpc_) (s : wstatus) (sr : rstatus)
    (q' : s_1r1w_queue) (w' : wpc) : Prop :=
  ∃ hist' s', base1 q' hist' k ∧ wrel q' hist' w' s' ∧ rrel q' hist' k r sr ∧
    (contents1 q' hist' k = contents1 q hist k ∧ s' = s ∨
     spec1 (contents1 q hist k, s, sr) None (contents1 q' hist' k, s', sr)).

Lemma elem_other a b x q : a ≠ b → q1_buf (set_q1_elem a x q) b = q1_buf q b.
Proof. intros Hne. cbn. by rewrite fn_lookup_insert_ne. Qed.
Lemma elem_same a x q : q1_buf (set_q1_elem a x q) a = x.
Proof. cbn. by rewrite fn_lookup_insert. Qed.

(** a step that only the writer sees *)
Lemma sim_private q hist k r s sr q' w' :
  base1 q' hist k → wrel q' hist w' s → rrel q hist k r sr →
  q1_tail q' = q1_tail q → q1_last q' = q1_last q → (∀ a, a ∈ hist → e_data (q1_buf q' a) = e_data (q1_buf q a)) →
  writer_sim q hist k r s sr q' w'.
Proof.
  intros Hb Hw Hr Ht Hl Hd. exists hist, s. split_and!; [done|done| |left].
  - assert (∀ x, popped hist k = Some x → e_data (q1_buf q' x) = e_data (q1_buf q x)) as Hdp
      by (intros; by apply Hd; eapply popped_in).
    destruct r; cbn in Hr |- *; unfold between, tail_ok in *; rewrite ?Ht, ?Hl; try done;
      destruct Hr as [-> Hr]; first [by rewrite (Hdp _ Hr)|by rewrite (Hdp _ (proj1 Hr))].
  - split; [|done]. unfold contents1. apply list_fmap_ext. intros i a. rewrite lookup_drop. intros Ha. apply Hd.
    by eapply list_elem_of_lookup_2.
Qed.

(** the element is linked: the push happens *)
Lemma sim_append q hist k r d sr q' w' e :
  base1 q hist k → own1 q hist e d → rrel q hist k r sr → wrel q' (hist ++ [e]) w' Pushed →
  q1_c q' = q1_c q → q1_last q' = q1_last q →
  (q1_tail q' = q1_tail q ∧ hist ≠ [] ∨ q1_tail q' = Some e ∧ hist = [] ∧ k = O) →
  (∀ a, e_data (q1_buf q' a) = e_data (q1_buf q a)) →
  (∀ a, last hist ≠ Some a → e_prev (q1_buf q' a) = e_prev (q1_buf q a)) →
  (∀ a, last hist = Some a → e_prev (q1_buf q' a) = Some e) →
  writer_sim q hist k r (Pushing d) sr q' w'.
Proof.
  intros Hb (He & Hn & Hbe) Hr Hw Hc Hl Ht Hd Hp1 Hp2. exists (hist ++ [e]), Pushed.
  pose proof (b_k _ _ _ Hb) as Hk. split_and!; [|done| |right].
  - destruct Hb as [Hp Hrg Hf Hc0 Hnd _]. split; rewrite ?Hc.
    + intros i a Hi. apply lookup_app_Some in Hi as [Hi|[Hge Hi]].
      * destruct (decide (last hist = Some a)) as [Hla|Hla].
        -- rewrite (Hp2 a Hla). rewrite last_lookup in Hla.
           assert (i = pred (length hist)) as -> by (by eapply NoDup_lookup).
           apply lookup_lt_Some in Hi. rewrite lookup_app_r by lia.
           by replace (S (pred (length hist)) - length hist)%nat with 0%nat by lia.
        -- rewrite (Hp1 a Hla), (Hp i a Hi). symmetry. apply lookup_app_l. pose proof (lookup_lt_Some _ _ _ Hi).
           destruct (decide (S i = length hist)) as [Hs|]; [|lia]. destruct Hla. rewrite last_lookup, <- Hs. done.
      * apply list_lookup_singleton_Some in Hi as [Hi <-]. rewrite (Hp1 e), Hbe.
        -- symmetry. apply lookup_ge_None. rewrite length_app. cbn. lia.
        -- intros Hla. apply Hn. rewrite last_lookup in Hla. by eapply list_elem_of_lookup_2.
    + intros i a Hi. apply lookup_app_Some in Hi as [Hi|[_ Hi]]; [by eapply Hrg|].
      by apply list_lookup_singleton_Some in Hi as [_ <-].
    + intros a Ha. rewrite Hp1; [by apply Hf|]. intros Hla. rewrite last_lookup in Hla. apply Hrg in Hla. lia.
    + done.
    + apply list.NoDup_app. split; [done|]. split; [|apply NoDup_singleton]. by intros ? Hx ->%list_elem_of_singleton.
    + rewrite length_app. lia.
  - eapply rrel_append; try done. intros. by eapply popped_in.
  - replace (contents1 q' (hist ++ [e]) k) with (contents1 q hist k ++ [d]); [constructor|]. unfold contents1.
    rewrite drop_app_le by lia. rewrite fmap_app, list_fmap_singleton, Hd, Hbe. f_equal. apply list_fmap_ext.
    intros. by rewrite Hd.
Qed.

Lemma push_sim q hist k r w s sr q' w' :
  base1 q hist k → wrel q hist w s → rrel q hist k r sr → s_1r1w_queue_push q w = Some (q', w') →
  writer_sim q hist k r s sr q' w'.
Proof.
  intros Hb Hw Hr Hp. pose proof (b_c _ _ _ Hb) as Hc.
  assert (∀ e d, own1 q hist e d → ∀ a x, a ∈ hist → q1_buf (set_q1_elem e x q) a = q1_buf q a) as Hot
    by (intros e d (_ & Hn & _) a x Ha; apply elem_other; by intros ->).
  destruct w; try discriminate; cbn [s_1r1w_queue_push] in Hp.
  - destruct Hw as [-> Hh]. case_match eqn:E; [|done]. simplify_eq. apply sim_private; try done.
    + destruct Hb as [H1 H2 H3 _ H4 H5]. split; cbn; try done; try lia; [|intros; apply H3; lia].
      intros i a Hi. specialize (H2 i a Hi). lia.
    + split_and!; [done..|]. exists (e_data (q1_buf q (q1_c q))). split_and!; cbn; [lia|lia| |].
      * intros [i Hi]%list_elem_of_lookup. pose proof (b_range _ _ _ Hb i _ Hi). lia.
      * pose proof (b_fresh _ _ _ Hb (q1_c q)) as Hf. destruct (q1_buf q (q1_c q)). cbn in *. by rewrite Hf by lia.
  - destruct Hw as (-> & Hh & d' & Hown). pose proof (Hot _ _ Hown) as Ho. destruct Hown as (He & Hn & Hbe). simplify_eq.
    apply sim_private; try done.
    + destruct Hb as [H1 H2 H3 _ H4 H5]. split; try done.
      * intros i a Hi. rewrite Ho by (by eapply list_elem_of_lookup_2). by apply H1.
      * intros a Ha. rewrite elem_other by (cbn in Ha; lia). by apply H3.
    + exists d. split_and!; [done..|]. split_and!; [apply He|apply He|done|]. rewrite elem_same. by rewrite Hbe.
    + intros a Ha. by rewrite Ho.
  - destruct Hw as (d & -> & Hh & Hown). simplify_eq. apply sim_private; try done.
    destruct (q1_head q') as [h|] eqn:E; exists d; rewrite ?E; (split_and!; [done..|]); [by rewrite <- Hh|].
    symmetry in Hh. by apply last_None in Hh.
  - destruct Hw as (d & -> & Hh & Hown & ->). simplify_eq. apply sim_private; try done.
    + by destruct Hb.
    + by exists d.
  - destruct Hw as (d & -> & Hh & Hown & ->). simplify_eq. pose proof (b_k _ _ _ Hb) as Hk.
    eapply sim_append; [done..| |done|done| |done|done|done]; [by split|]. right. split_and!; [done..|]. cbn in Hk. lia.
  - destruct Hw as (d & -> & Hh & Hown & Hlast). apply bind_Some in Hp as (h & E & Hp). simplify_eq.
    apply sim_private; try done. exists d. split_and!; [done| |done]. congruence.
  - destruct Hw as (d & -> & Hlast & Hown). simplify_eq.
    eapply sim_append; [done..| |done|done| | | |].
    + split; [done|]. by rewrite last_snoc.
    + left. split; [done|]. by intros ->.
    + intros a. destruct (decide (h = a)) as [->|]; [by rewrite elem_same|by rewrite elem_other].
    + intros a Ha. by rewrite elem_other by congruence.
    + intros a Ha. assert (h = a) as -> by congruence. by rewrite elem_same.
  - destruct Hw as [-> Hlast]. simplify_eq. apply sim_private; try done; by destruct Hb.
Qed.

(** ** Both *)
Lemma step1_sim m o m' sp hist k :
  inv1 m sp hist k → step1 m o m' →
  ∃ sp' hist' k', inv1 m' sp' hist' k' ∧ (spec1 sp o sp' ∨ o = None ∧ sp' = sp).
Proof.
  intros [Hb Hl Hw Hr] Hs. destruct sp as [[l ws] rs]. cbn in *.
  destruct Hs as [q r d|q r|q w|q w x|q w r q' w' Hp|q w r q' r' Hp]; cbn in *.
  - destruct Hw as [-> Hh]. exists (l, Pushing d, rs), hist, k. split; [by split|left; constructor].
  - destruct Hw as [-> Hh]. exists (l, NoPush, rs), hist, k. split; [by split|left; constructor].
  - destruct Hr as [-> Hbt]. exists (l, ws, Popping), hist, k. split; [by split|left; constructor].
  - destruct Hr as [-> Hbt]. exists (l, ws, NoPop), hist, k. split; [by split|left; constructor].
  - destruct (push_sim _ _ _ _ _ _ _ _ _ Hb Hw Hr Hp) as (hist' & s' & Hb' & Hw' & Hr' & Hsp). subst l.
    destruct Hsp as [[<- ->]|Hsp]; [exists (contents1 q' hist' k, ws, rs)|exists (contents1 q' hist' k, s', rs)];
      exists hist', k; (split; [by split|]); auto.
  - destruct (pop_sim _ _ _ _ _ _ _ Hb Hr Hp) as (k' & s' & Hq & Hb' & Hr' & Hsp). subst l.
    pose proof (same_w_rel _ _ _ _ _ Hq Hw) as Hw'.
    destruct Hsp as [[-> ->]|Hsp].
    + exists (contents1 q hist k, ws, rs), hist, k. split; [|auto]. split; try done. cbn. unfold contents1.
      by destruct Hq as (_ & -> & _).
    + exists (contents1 q' hist k', ws, s'), hist, k'. split; [by split|auto].
Qed.

Lemma reachable_inv1 tr m :
  trace step1 init1 tr m → ∃ sp, (∃ hist k, inv1 m sp hist k) ∧ trace spec1 ([], NoPush, NoPop) tr sp.
Proof.
  apply (trace_refines _ _ (λ m sp, ∃ hist k, inv1 m sp hist k)).
  - intros m1 o m2 sp (hist & k & Hm) Hs.
    destruct (step1_sim _ _ _ _ _ _ Hm Hs) as (sp' & hist' & k' & Hm' & Hsp). exists sp'. split; [by eauto|done].
  - exists [], O. split; cbn; [split; try done; constructor|done|done|]. split; [done|]. split; [done|by left].
Qed.

(** ** The theorems *)

(** C26. One reader and one writer need no lock: whatever the interleaving of
    their accesses, the calls and returns are those of a list to which each
    push appends, and from which each pop takes the first element, or null if
    it is empty, at one moment between call and return. *)
Theorem queue_1r1w_linearizable tr m :
  trace step1 init1 tr m → ∃ sp, trace spec1 ([], NoPush, NoPop) tr sp.
Proof. intros Htr. destruct (reachable_inv1 _ _ Htr) as (sp & _ & Hs). by exists sp. Qed.

(** the steps that are left of a call *)
Definition push_left (w : wpc) : nat :=
  match w with
  | WIdle | WDone => 0 | WGet _ => 6 | WData _ _ => 5 | WTest _ => 4 | WFirstHead _ => 2 | WFirstTail _ => 1
  | WLoad _ => 3 | WPrev _ _ => 2 | WHead _ => 1
  end.
Definition pop_left (r : rpc_) : nat :=
  match r with
  | RIdle | RDone _ => 0 | RTail => 11 | RLast => 10 | RLoad => 9 | RPrev _ => 8 | RSetTail _ => 7 | RTail2 => 6
  | RElem => 5 | RSetLast _ => 4 | RPrev2 _ => 3 | RSetTail2 _ _ => 2 | RData _ => 1
  end.

(** C32. Neither waits for the other: in every state that can be reached, a
    call under way can take its next step, whatever the other side is doing,
    unless the static buffer is used up, and it returns after at most six
    steps of the writer, or eleven of the reader. *)
Theorem queue_1r1w_wait_free tr q w r :
  trace step1 init1 tr (q, w, r) →
  ((0 < push_left w)%nat → (∃ d, w = WGet d ∧ MAX_BUF ≤ q1_c q) ∨
     ∃ q' w', s_1r1w_queue_push q w = Some (q', w') ∧ (push_left w' < push_left w)%nat) ∧
  ((0 < pop_left r)%nat → ∃ q' r', s_1r1w_queue_pop q r = Some (q', r') ∧ (pop_left r' < pop_left r)%nat).
Proof.
  intros Htr. destruct (reachable_inv1 _ _ Htr) as (sp & (hist & k & [Hb _ Hw Hr]) & _). cbn in Hb, Hw, Hr. split; intros Hp.
  - destruct w; cbn in Hp; try lia; try (right; eexists _, _; split; [done|cbn; lia]).
    + cbn. destruct (q1_c q <? MAX_BUF) eqn:E; [right; eexists _, _; split; [done|cbn; lia]|left; exists d; split; [done|lia]].
    + right. eexists _, _. split; [done|]. cbn. case_match; cbn; lia.
    + destruct Hw as (d & _ & Hh & _ & [h Hl]). right. cbn. rewrite Hh, Hl. eexists _, _. split; [done|cbn; lia].
  - destruct r; cbn in Hp; try lia; try (eexists _, _; split; [done|cbn; repeat case_match; cbn; lia]).
    + destruct Hr as (_ & [Hl _] & Hk). cbn. rewrite Hl. destruct k as [|j]; [lia|]. cbn.
      destruct (lookup_lt_is_Some_2 hist j) as [l ->]; [pose proof (b_k _ _ _ Hb); lia|].
      eexists _, _. split; [done|cbn; lia].
    + destruct Hr as (e & _ & _ & Ht & _). cbn. rewrite Ht. eexists _, _. split; [done|cbn; lia].
Qed.

(** ** Witnesses: a pop that begins before the push of 7 and ends after it *)
Ltac by_writer := eapply trace_tau; [apply step_push; reflexivity|].
Ltac by_reader := eapply trace_tau; [apply step_pop; reflexivity|].
Definition meet : list label1 := [CallPop; CallPush 7; ReturnPush; ReturnPop 7; CallPop].

Lemma meet_trace : ∃ m, trace step1 init1 meet m ∧ m.2 = RLast.
Proof.
  eexists. split; [|shelve]. eapply trace_label; [apply step_call_pop|]. eapply trace_label; [apply step_call_push|].
  do 3 by_writer. by_reader. by_writer. by_reader. by_writer. eapply trace_label; [apply step_return_push|].
  do 6 by_reader. eapply trace_label; [apply step_return_pop|]. eapply trace_label; [apply step_call_pop|]. by_reader.
  apply trace_nil. Unshelve. reflexivity.
Qed.

Lemma queue_1r1w_linearizable_witness : ∃ sp, trace spec1 ([], NoPush, NoPop) meet sp.
Proof. destruct meet_trace as (m & Hm & _). exact (queue_1r1w_linearizable meet m Hm). Defined.

Lemma queue_1r1w_wait_free_witness :
  ∃ q q' r', s_1r1w_queue_pop q RLast = Some (q', r') ∧ (pop_left r' < pop_left RLast)%nat.
Proof.
  destruct meet_trace as ([[q w] r] & Hm & Hr). cbn in Hr. subst r. exists q.
  apply (queue_1r1w_wait_free meet q w RLast Hm). cbn. lia.
Defined.
