(* ===== verification/LockQueue.v ===== *)
(** * [common/s_lock_queue.c], [common/s_spinlock_queue.c]: queues under a lock

    Any number of threads push and pop; what they do between the lock and the
    unlock are calls of [s_list.h] on one list.  The lock of the library is a
    word that holds its owner: a thread waits while it is taken.  Elements are
    numbered by their place in the static buffer, [lockq_head] is the address of
    [elem_head]. *)

From S2P Require Import Prelude SList MsQueue.
From stdpp Require Import functions.
Local Open Scope Z_scope.

(** ** Data *)
Definition lockq_head : Z := -1.
Record s_lock_queue := LockQ {
  lq_m : option nat;           (* the mutex, by its owner *)
  lq_sl : option nat;          (* the spin lock *)
  lq_use_mutex : bool;
  lq_links : links;
  lq_data : Z → Z;
  lq_c : Z
}.

Definition s_lock_queue_create (use_mutex : bool) : s_lock_queue :=
  LockQ None None use_mutex (s_list_init ∅ lockq_head) (λ _, 0) 0.
(** a [struct s_spinlock_queue] has the spin lock only *)
Definition s_spinlock_queue_create : s_lock_queue := s_lock_queue_create false.

Definition holder (q : s_lock_queue) : option nat := if lq_use_mutex q then lq_m q else lq_sl q.
Definition set_holder (o : option nat) (q : s_lock_queue) : s_lock_queue :=
  if lq_use_mutex q then LockQ o (lq_sl q) (lq_use_mutex q) (lq_links q) (lq_data q) (lq_c q)
  else LockQ (lq_m q) o (lq_use_mutex q) (lq_links q) (lq_data q) (lq_c q).
Definition set_links (h : links) (q : s_lock_queue) : s_lock_queue :=
  LockQ (lq_m q) (lq_sl q) (lq_use_mutex q) h (lq_data q) (lq_c q).

(** ** The program of a thread *)
Inductive lpc :=
| LIdle
| LPush (d : Z)                  (* lock *)
| LGet (d : Z)                   (* iget_free_elem *)
| LData (d e : Z)                (* elem->data = d *)
| LInsert (e : Z)                (* s_list_insert_tail *)
| LPop                           (* lock *)
| LEmpty                         (* if(!s_list_empty) *)
| LFirst                         (* elem = s_list_first_entry *)
| LDel (e : Z)                   (* s_list_del(&elem->link) *)
| LRead (e : Z)                  (* data = elem->data *)
| LUnlock (r : Z)
| LDone (r : Z).

(** [None]: not running, waiting, or behind the buffer *)
Definition s_lock_queue_push (t : nat) (q : s_lock_queue) (p : lpc) : option (s_lock_queue * lpc) :=
  match p with
  | LPush d => match holder q with None => Some (set_holder (Some t) q, LGet d) | Some _ => None end
  | LGet d =>
      if lq_c q <? MAX_BUF
      then Some (LockQ (lq_m q) (lq_sl q) (lq_use_mutex q) (lq_links q) (lq_data q) (lq_c q + 1), LData d (lq_c q))
      else None
  | LData d e =>
      Some (LockQ (lq_m q) (lq_sl q) (lq_use_mutex q) (lq_links q) (<[e := d]> (lq_data q)) (lq_c q), LInsert e)
  | LInsert e => Some (set_links (s_list_insert_tail (lq_links q) lockq_head e) q, LUnlock 0)
  | _ => None
  end.

Definition s_lock_queue_pop (t : nat) (q : s_lock_queue) (p : lpc) : option (s_lock_queue * lpc) :=
  match p with
  | LPop => match holder q with None => Some (set_holder (Some t) q, LEmpty) | Some _ => None end
  | LEmpty => Some (q, if s_list_empty (lq_links q) lockq_head then LUnlock 0 else LFirst)
  | LFirst => Some (q, LDel (s_list_first (lq_links q) lockq_head))
  | LDel e => Some (set_links (s_list_del (lq_links q) e) q, LRead e)
  | LRead e => Some (q, LUnlock (lq_data q e))
  | _ => None
  end.

Definition run_lpc (t : nat) (q : s_lock_queue) (p : lpc) : option (s_lock_queue * lpc) :=
  match p with
  | LUnlock r => Some (set_holder None q, LDone r)
  | LPush _ | LGet _ | LData _ _ | LInsert _ => s_lock_queue_push t q p
  | _ => s_lock_queue_pop t q p
  end.

(** the spin lock queue: the same statements on a queue without a mutex *)
Definition s_spinlock_queue_push (t : nat) (q : s_lock_queue) (p : lpc) : option (s_lock_queue * lpc) :=
  if lq_use_mutex q then None else s_lock_queue_push t q p.
Definition s_spinlock_queue_pop (t : nat) (q : s_lock_queue) (p : lpc) : option (s_lock_queue * lpc) :=
  if lq_use_mutex q then None else s_lock_queue_pop t q p.

(** ** Threads, and what is promised *)
Definition lstate : Type := s_lock_queue * (nat → lpc).
Definition lenter (o : op) : lpc := match o with Push d => LPush d | Pop => LPop end.
Inductive lstep : lstate → option label → lstate → Prop :=
| l_call q ps t o : ps t = LIdle → lstep (q, ps) (Some (Call t o)) (q, <[t := lenter o]> ps)
| l_return q ps t r : ps t = LDone r → lstep (q, ps) (Some (Return t r)) (q, <[t := LIdle]> ps)
| l_run q ps t q' p' : run_lpc t q (ps t) = Some (q', p') → lstep (q, ps) None (q', <[t := p']> ps).

Inductive lstatus := LSIdle | LSPush (d : Z) | LSPop | LSDone (r : Z).
Definition lsenter (o : op) : lstatus := match o with Push d => LSPush d | Pop => LSPop end.
Inductive latomic : list Z → lstatus → list Z → lstatus → Prop :=
| la_push l d : latomic l (LSPush d) (l ++ [d]) (LSDone 0)
| la_pop x l : latomic (x :: l) LSPop l (LSDone x)
| la_pop_empty : latomic [] LSPop [] (LSDone 0).
Inductive lspec : list Z * (nat → lstatus) → option label → list Z * (nat → lstatus) → Prop :=
| ls_call l st t o : st t = LSIdle → lspec (l, st) (Some (Call t o)) (l, <[t := lsenter o]> st)
| ls_return l st t r : st t = LSDone r → lspec (l, st) (Some (Return t r)) (l, <[t := LSIdle]> st)
| ls_lin l st t l' s' : latomic l (st t) l' s' → lspec (l, st) None (l', <[t := s']> st).

(** ** The invariant: [es] are the elements on the list *)
Record list_ok (q : s_lock_queue) (es : list Z) : Prop := ListOk {
  lo_list : is_list (lq_links q) lockq_head es;
  lo_range e : e ∈ es → 0 ≤ e < lq_c q;
  lo_c : 0 ≤ lq_c q
}.
Definition lcontents (q : s_lock_queue) (es : list Z) : list Z := lq_data q <$> es.

Definition new_elem (q : s_lock_queue) (es : list Z) (e : Z) : Prop := 0 ≤ e < lq_c q ∧ e ∉ es.
Definition lrel (q : s_lock_queue) (es : list Z) (p : lpc) (s : lstatus) : Prop :=
  match p with
  | LIdle => s = LSIdle
  | LPush d | LGet d => s = LSPush d
  | LData d e => s = LSPush d ∧ new_elem q es e
  | LInsert e => s = LSPush (lq_data q e) ∧ new_elem q es e
  | LPop | LEmpty => s = LSPop
  | LFirst => s = LSPop ∧ es ≠ []
  | LDel e => s = LSPop ∧ ∃ es', es = e :: es'
  | LRead e => s = LSDone (lq_data q e)
  | LUnlock r | LDone r => s = LSDone r
  end.

(** between the lock and the unlock *)
Definition in_section (p : lpc) : bool :=
  match p with LIdle | LPush _ | LPop | LDone _ => false | _ => true end.

Record linv (m : lstate) (sp : list Z * (nat → lstatus)) (es : list Z) : Prop := LInv {
  li_ok : list_ok m.1 es;
  li_list : sp.1 = lcontents m.1 es;
  li_rel t : lrel m.1 es (m.2 t) (sp.2 t);
  li_lock t : in_section (m.2 t) = true ↔ holder m.1 = Some t
}.

Lemma lrel_outside q es q' es' p s : in_section p = false → lrel q es p s → lrel q' es' p s.
Proof. by destruct p. Qed.
Lemma holder_set o q : holder (set_holder o q) = o.
Proof. unfold set_holder, holder. by destruct q as [? ? [] ? ? ?]. Qed.
Lemma set_holder_ok o q es : list_ok q es → list_ok (set_holder o q) es.
Proof. intros []. unfold set_holder. by destruct (lq_use_mutex q). Qed.
Lemma set_holder_contents o q es : lcontents (set_holder o q) es = lcontents q es.
Proof. unfold set_holder. by destruct (lq_use_mutex q). Qed.

(** one step of a thread: what becomes of the list, of the thread and of the lock *)
Definition lsim (q : s_lock_queue) (es : list Z) (t : nat) (p : lpc) (s : lstatus) (q' : s_lock_queue) (p' : lpc) : Prop :=
  ∃ es' s', list_ok q' es' ∧ lrel q' es' p' s' ∧
    (lcontents q' es' = lcontents q es ∧ s' = s ∨ latomic (lcontents q es) s (lcontents q' es') s') ∧
    (in_section p = false ∧ holder q = None ∧ holder q' = Some t ∧ in_section p' = true ∨
     in_section p = true ∧ holder q' = holder q ∧ in_section p' = true ∨
     in_section p = true ∧ holder q' = None ∧ in_section p' = false).

Lemma lsim_section q es t p s q' p' s' :
  list_ok q' es → lrel q' es p' s' → lcontents q' es = lcontents q es → s' = s →
  in_section p = true → holder q' = holder q → in_section p' = true → lsim q es t p s q' p'.
Proof. intros. exists es, s'. split_and!; [done|done|by left|]. right. by left. Qed.

Lemma run_lpc_sim q es t p s q' p' :
  list_ok q es → lrel q es p s → run_lpc t q p = Some (q', p') → lsim q es t p s q' p'.
Proof.
  intros Hok Hr Hp. destruct p; try discriminate; cbn [run_lpc s_lock_queue_push s_lock_queue_pop] in Hp.
  - destruct (holder q) eqn:Eh; [done|]. simplify_eq. cbn in Hr. subst s. exists es, (LSPush d).
    split_and!; [by apply set_holder_ok|done|left; by rewrite set_holder_contents|left]. by rewrite holder_set.
  - destruct (lq_c q <? MAX_BUF); [|done]. simplify_eq. cbn in Hr. subst s.
    destruct Hok as [Hl Hrg Hc]. eapply lsim_section; try done.
    + split; cbn; [done| |lia]. intros e He. specialize (Hrg e He). lia.
    + split; [done|]. split; cbn; [lia|]. intros He%Hrg. lia.
  - simplify_eq. destruct Hr as [-> [Hc Hn]]. destruct Hok as [Hl Hrg Hc0].
    apply lsim_section with (s' := LSPush d); [by split| | |done..].
    + split; [|done]. cbn. by rewrite fn_lookup_insert.
    + unfold lcontents. apply list_fmap_ext. intros i a Ha. cbn. apply fn_lookup_insert_ne. intros ->.
      apply Hn. by eapply list_elem_of_lookup_2.
  - simplify_eq. destruct Hr as [-> [Hc Hn]]. destruct Hok as [Hl Hrg Hc0].
    exists (es ++ [e]), (LSDone 0). split_and!; [|done| |].
    + split; cbn; [|set_solver|done]. apply s_list_insert_tail_spec; [done|]. unfold lockq_head. set_solver by lia.
    + right. unfold lcontents. rewrite fmap_app. constructor.
    + right. left. done.
  - destruct (holder q) eqn:Eh; [done|]. simplify_eq. cbn in Hr. subst s. exists es, LSPop.
    split_and!; [by apply set_holder_ok|done|left; by rewrite set_holder_contents|left]. by rewrite holder_set.
  - simplify_eq. cbn in Hr. subst s. rewrite (s_list_empty_spec _ _ es) by apply Hok. case_bool_decide as He.
    + subst es. exists [], (LSDone 0). split_and!; [done|done|right; constructor|]. right. by left.
    + by eapply lsim_section.
  - simplify_eq. destruct Hr as [-> Hne]. eapply lsim_section; try done. split; [done|]. unfold s_list_first.
    rewrite (is_list_next_head _ _ es) by apply Hok. destruct es as [|x es]; [done|]. by exists es.
  - simplify_eq. destruct Hr as [-> (es' & ->)]. destruct Hok as [Hl Hrg Hc0].
    exists es', (LSDone (lq_data q e)). split_and!; [|done| |].
    + split; cbn; [|set_solver|done]. by apply (s_list_del_spec _ _ [] e es').
    + right. constructor.
    + right. by left.
  - simplify_eq. cbn in Hr. subst s. by eapply lsim_section.
  - simplify_eq. cbn in Hr. subst s. exists es, (LSDone r).
    split_and!; [by apply set_holder_ok|done|left; by rewrite set_holder_contents|]. right. right. by rewrite holder_set.
Qed.

Lemma lstep_sim m o m' sp es :
  linv m sp es → lstep m o m' → ∃ sp', (∃ es', linv m' sp' es') ∧ (lspec sp o sp' ∨ o = None ∧ sp' = sp).
Proof.
  intros [Hok Hl Hr Hk] Hs. destruct sp as [l st]. cbn in *. destruct Hs as [q ps i op Hi|q ps i r Hi|q ps i q' p' Hrun]; cbn in *.
  - pose proof (Hr i) as Hri. rewrite Hi in Hri. exists (l, <[i := lsenter op]> st). split; [|left; by constructor].
    exists es. split; cbn; [done|done| |]; intros t; (destruct (decide (i = t)) as [<-|];
      [rewrite !fn_lookup_insert|rewrite !fn_lookup_insert_ne by done; done]); [by destruct op|].
    rewrite <- (Hk i), Hi. by destruct op.
  - pose proof (Hr i) as Hri. rewrite Hi in Hri. exists (l, <[i := LSIdle]> st). split; [|left; by constructor].
    exists es. split; cbn; [done|done| |]; intros t; (destruct (decide (i = t)) as [<-|];
      [rewrite !fn_lookup_insert|rewrite !fn_lookup_insert_ne by done; done]); [done|].
    by rewrite <- (Hk i), Hi.
  - destruct (run_lpc_sim _ _ _ _ _ _ _ Hok (Hr i) Hrun) as (es' & s' & Hok' & Hr' & Hat & Hlock).
    assert (∀ t, t ≠ i → in_section (ps t) = false) as Hout.
    { intros t Ht. destruct (in_section (ps t)) eqn:E; [|done]. apply Hk in E.
      destruct Hlock as [(_ & ? & _)|[(Hi & _)|(Hi & _)]]; [congruence| |]; apply Hk in Hi; congruence. }
    assert (∀ st', st' i = s' → (∀ t, t ≠ i → st' t = st t) → linv (q', <[i := p']> ps) (lcontents q' es', st') es') as Hinv.
    { intros st' Hst Hst'. split; cbn; [done|done| |]; intros t; (destruct (decide (i = t)) as [<-|];
        [rewrite fn_lookup_insert|rewrite fn_lookup_insert_ne by done]).
      - by rewrite Hst.
      - rewrite Hst' by done. eapply lrel_outside; [by apply Hout|by apply Hr].
      - destruct Hlock as [(_ & _ & -> & ->)|[(Hi & -> & ->)|(_ & -> & ->)]]; [done| |done]. by rewrite <- (Hk i), Hi.
      - rewrite Hout by done. split; [done|]. destruct Hlock as [(_ & _ & -> & _)|[(Hi & -> & _)|(_ & -> & _)]]; [congruence| |done].
        apply Hk in Hi. congruence. }
    subst l. destruct Hat as [[Hc ->]|Hat].
    + exists (lcontents q es, st). split; [|by right]. exists es'. rewrite <- Hc. by apply Hinv.
    + exists (lcontents q' es', <[i := s']> st). split; [|left; by constructor]. exists es'.
      apply Hinv; [by rewrite fn_lookup_insert|]. intros t Ht. by rewrite fn_lookup_insert_ne.
Qed.

Definition linit (use_mutex : bool) : lstate := (s_lock_queue_create use_mutex, λ _, LIdle).
Lemma reachable_linv um tr m :
  trace lstep (linit um) tr m → ∃ sp, (∃ es, linv m sp es) ∧ trace lspec ([], λ _, LSIdle) tr sp.
Proof.
  apply (trace_refines _ _ (λ m sp, ∃ es, linv m sp es)).
  - intros m1 o m2 sp (es & Hm) Hs. by eapply lstep_sim.
  - exists []. split; try done; cbn.
    + split; [apply s_list_init_spec|set_solver|done].
    + intros t. unfold holder. by destruct um.
Qed.

(** ** The theorems *)

(** C30. Under either lock the queue is a list to its callers: each push
    appends and each pop removes the first element, or finds none, at one
    moment between its call and its return, for any number of threads. *)
Theorem lock_queue_linearizable use_mutex tr m :
  trace lstep (linit use_mutex) tr m → ∃ sp, trace lspec ([], λ _, LSIdle) tr sp.
Proof. intros Htr. destruct (reachable_linv _ _ _ Htr) as (sp & _ & Hs). by exists sp. Qed.

Definition lrunning (p : lpc) : bool := match p with LIdle | LDone _ => false | _ => true end.

(** C29. Mutual exclusion without deadlock: two threads are never between lock
    and unlock, and when a thread is running some thread can take a step,
    unless the one in its section finds the static buffer of ten million
    elements used up (there the code writes behind it). *)
Theorem lock_queue_no_deadlock use_mutex tr q ps :
  trace lstep (linit use_mutex) tr (q, ps) →
  (∀ i j, in_section (ps i) = true → in_section (ps j) = true → i = j) ∧
  ∀ i, lrunning (ps i) = true →
    ∃ t, is_Some (run_lpc t q (ps t)) ∨ ∃ d, ps t = LGet d ∧ MAX_BUF ≤ lq_c q.
Proof.
  intros Htr. destruct (reachable_linv _ _ _ Htr) as (sp & (es & [_ _ _ Hk]) & _). cbn in Hk. split.
  - intros i j Hi%Hk Hj%Hk. congruence.
  - intros i Hi. destruct (holder q) as [t|] eqn:Eh.
    + assert (in_section (ps t) = true) as Ht by by apply Hk. exists t.
      destruct (ps t) eqn:E; try discriminate; cbn; eauto.
      destruct (lq_c q <? MAX_BUF) eqn:Ec; [by left; eexists|right]. exists d. split; [done|lia].
    + assert (in_section (ps i) = false) as Hn by (destruct (in_section (ps i)) eqn:E; [apply Hk in E; congruence|done]).
      exists i. left. destruct (ps i); try discriminate; cbn; rewrite Eh; by eexists.
Qed.

(** ** Witnesses: a pop waits for the lock of a push *)
Ltac thread t := eapply trace_tau; [apply (l_run _ _ t); vm_compute; reflexivity|].
Definition waiting : list label := [Call 0 (Push 7); Call 1 Pop; Return 0 0; Return 1 7].

Lemma waiting_trace : ∃ m, trace lstep (linit false) waiting m.
Proof.
  eexists. eapply trace_label; [by apply (l_call _ _ 0 (Push 7))|]. thread 0%nat.
  eapply trace_label; [by apply (l_call _ _ 1 Pop)|]. do 4 thread 0%nat.
  eapply trace_label; [apply (l_return _ _ 0 0); vm_compute; reflexivity|]. do 6 thread 1%nat.
  eapply trace_label; [apply (l_return _ _ 1 7); vm_compute; reflexivity|]. apply trace_nil.
Qed.
Lemma lock_queue_linearizable_witness : ∃ sp, trace lspec ([], λ _, LSIdle) waiting sp.
Proof. destruct waiting_trace as [m Hm]. exact (lock_queue_linearizable false waiting m Hm). Defined.
(** the pop runs into the section of the push *)
Lemma blocked_trace : ∃ q ps,
  trace lstep (linit false) [Call 0 (Push 7); Call 1 Pop] (q, ps) ∧
  ps 0%nat = LGet 7 ∧ ps 1%nat = LPop ∧ holder q = Some 0%nat ∧ lq_c q = 0.
Proof.
  eexists _, _. split.
  - eapply trace_label; [by apply (l_call _ _ 0 (Push 7))|]. thread 0%nat.
    eapply trace_label; [by apply (l_call _ _ 1 Pop)|]. apply trace_nil.
  - split_and!; vm_compute; reflexivity.
Qed.
Lemma lock_queue_no_deadlock_witness :
  ∃ q ps, trace lstep (linit false) [Call 0 (Push 7); Call 1 Pop] (q, ps) ∧
    (** the pop cannot go on, the push is in its section, the pop is not *)
    run_lpc 1 q (ps 1%nat) = None ∧ in_section (ps 0%nat) = true ∧ in_section (ps 1%nat) = false ∧
    (** and some thread, which is not the pop, can *)
    ∃ t, t ≠ 1%nat ∧ is_Some (run_lpc t q (ps t)).
Proof.
  destruct blocked_trace as (q & ps & Htr & E0 & E1 & Eh & Ec). exists q, ps.
  destruct (lock_queue_no_deadlock false _ q ps Htr) as [Hex Hgo].
  assert (run_lpc 1 q (ps 1%nat) = None) as Hb by (rewrite E1; cbn; by rewrite Eh).
  split; [done|]. split; [done|]. split; [by rewrite E0|]. split.
  { destruct (in_section (ps 1%nat)) eqn:E; [|done]. assert (1 = 0)%nat by (apply Hex; [done|by rewrite E0]). done. }
  destruct (Hgo 1%nat) as (t & [Ht|(d & _ & Hle)]); [by rewrite E1| |rewrite Ec in Hle; by vm_compute in Hle].
  exists t. split; [|done]. intros ->. rewrite Hb in Ht. by destruct Ht.
Defined.
