(* ===== verification/QueueTest.v ===== *)
(** * [test/s_main.c], [test_cas/s_main.c]: a writer and a reader on a queue

    The programs start two threads on one queue: one pushes 1, 2, ...,
    [LOOP], the other pops until it has read [LOOP] and complains when it does
    not read them in this order.  They are written against an interface,
    [RwQueue], that the four queues have; its law says that they show the two
    threads a list. *)

From S2P Require Import Prelude SList MsQueue MsQueueSpec Queue1r1w LockQueue.
From stdpp Require Import functions.
Local Open Scope Z_scope.

(** ** Two systems that run side by side, and together where one sees a label *)
Section sync.
Context {S T L : Type} (stepS : S → option L → S → Prop) (stepT : T → option L → T → Prop).

Inductive sync_step : S * T → S * T → Prop :=
| sync_both s t l s' t' : stepS s (Some l) s' → stepT t (Some l) t' → sync_step (s, t) (s', t')
| sync_left s t s' : stepS s None s' → sync_step (s, t) (s', t)
| sync_right s t t' : stepT t None t' → sync_step (s, t) (s, t').

Lemma sync_split p p' :
  rtc sync_step p p' → ∃ tr, trace stepS p.1 tr p'.1 ∧ trace stepT p.2 tr p'.2.
Proof.
  induction 1 as [[s t]|p1 p2 p3 Hs _ (tr & H1 & H2)]; [exists []; split; constructor|].
  destruct Hs; cbn in *; [exists (l :: tr)|exists tr|exists tr]; eauto using trace_tau, trace_label.
Qed.

Lemma sync_join s tr s' t t' :
  trace stepS s tr s' → trace stepT t tr t' → rtc sync_step (s, t) (s', t').
Proof.
  intros H1. revert t. induction H1 as [s|s s1 tr s' Hs _ IH|s l s1 tr s' Hs _ IH]; intros t H2.
  - remember [] as tr eqn:E. induction H2; [done| |done]. eapply rtc_l; [by apply sync_right|auto].
  - eapply rtc_l; [by apply sync_left|auto].
  - remember (l :: tr) as tr' eqn:E. revert E. induction H2 as [t|t t1 tr' t' Ht _ IH'|t l' t1 tr' t' Ht Htr _]; intros E; [done| |].
    + eapply rtc_l; [by apply sync_right|auto].
    + injection E as -> ->. eapply rtc_l; [by eapply sync_both|auto].
Qed.

Lemma trace_app s tr s' tr' s'' : trace stepS s tr s' → trace stepS s' tr' s'' → trace stepS s (tr ++ tr') s''.
Proof. induction 1; intros; cbn; eauto using trace_tau, trace_label. Qed.

Lemma trace_app_inv s tr tr' s'' :
  trace stepS s (tr ++ tr') s'' → ∃ s', trace stepS s tr s' ∧ trace stepS s' tr' s''.
Proof.
  revert s. induction tr as [|l tr IH]; intros s H; [exists s; split; [constructor|done]|].
  cbn in H. remember (l :: tr ++ tr') as tr0 eqn:E. revert E.
  induction H as [s|s s1 tr0 s' Hs _ IH'|s l' s1 tr0 s' Hs Htr _]; intros E; [done| |].
  - destruct (IH' IH E) as (m & H1 & H2). exists m. split; [by eapply trace_tau|done].
  - injection E as -> ->. destruct (IH _ Htr) as (m & H1 & H2). exists m. split; [by eapply trace_label|done].
Qed.
End sync.

(** ** The interface *)

(** the reader: a pop under way has or has not seen an empty list *)
Inductive pstatus := PIdle | PPopping (seen_empty : bool) | PPopped (r : Z).
Definition rwstate : Type := list Z * wstatus * pstatus.
Definition rwspec_init : rwstate := ([], NoPush, PIdle).

(** [none]: what a pop returns that finds nothing *)
Inductive rwspec (none : Z) : rwstate → option label1 → rwstate → Prop :=
| rw_call_push l d r : rwspec none (l, NoPush, r) (Some (CallPush d)) (l, Pushing d, r)
| rw_return_push l r : rwspec none (l, Pushed, r) (Some ReturnPush) (l, NoPush, r)
| rw_call_pop l w : rwspec none (l, w, PIdle) (Some CallPop) (l, w, PPopping false)
| rw_return_pop l w x : rwspec none (l, w, PPopped x) (Some (ReturnPop x)) (l, w, PIdle)
| rw_push l d r : rwspec none (l, Pushing d, r) None (l ++ [d], Pushed, r)
| rw_pop x l w b : rwspec none (x :: l, w, PPopping b) None (l, w, PPopped x)
| rw_look w b : rwspec none ([], w, PPopping b) None ([], w, PPopping true)
| rw_pop_empty l w b : b = true ∨ l = [] → rwspec none (l, w, PPopping b) None (l, w, PPopped none).

Class RwQueue (S : Type) := {
  rwq_init : S;
  rwq_step : S → option label1 → S → Prop;
  rwq_none : Z
}.
Class RwLaws (S : Type) `{!RwQueue S} := {
  rwq_refines tr s : trace rwq_step rwq_init tr s → ∃ sp, trace (rwspec rwq_none) rwspec_init tr sp
}.

(** ** The programs *)

(** what the four pairs of threads differ in: [sync_thread] is used or not,
    [exit] on an error, and how a pop says that there is nothing *)
Record test_prog := TestProg { tp_sync : bool; tp_exit : bool; tp_null : Z → bool }.
Definition s_1r1wq : test_prog := TestProg true true (λ d, d =? 0).
Definition s_lockq : test_prog := TestProg true false (λ d, d =? 0).
Definition s_slockq : test_prog := TestProg true false (λ d, d =? 0).
Definition s_msq : test_prog := TestProg true false (λ d, d <=? 0).
(** [test_cas/s_main.c] *)
Definition s_cas_msq : test_prog := TestProg false false (λ d, d <=? 0).

Inductive twpc := TwSync | TwSpin | TwLoop (i : Z) | TwPush (i : Z) | TwEnd.
#[export] Instance twpc_eq_dec : EqDecision twpc.
Proof. solve_decision. Defined.
Inductive trpc := TrSync | TrSpin | TrLoop | TrPop | TrEnd | TrExit.
#[export] Instance trpc_eq_dec : EqDecision trpc.
Proof. solve_decision. Defined.

Record tstate := TState {
  t_syn : Z;                     (* SYN *)
  t_w : twpc;
  t_r : trpc;
  t_i : Z;                       (* of the reader *)
  t_count : Z;
  t_count_val : Z;
  t_vals : list Z;               (* the values read *)
  t_errors : list (Z * Z)        (* what is logged: the value, and the one before *)
}.
Definition test_init : tstate := TState 0 TwSync TrSync 0 0 0 [] [].

Section programs.
Context (p : test_prog) (LOOP : Z).

(** the next step of the writer: what it calls, SYN, where it is then *)
Definition q_write (syn : Z) (w : twpc) : option (option label1 * Z * twpc) :=
  match w with
  | TwSync => if tp_sync p then Some (None, syn + 1, TwSpin) else Some (None, syn, TwLoop 1)
  | TwSpin => if syn =? 2 then Some (None, syn, TwLoop 1) else None
  | TwLoop i => if i <=? LOOP then Some (Some (CallPush i), syn, TwPush i) else Some (None, syn, TwEnd)
  | TwPush i => Some (Some ReturnPush, syn, TwLoop (i + 1))
  | TwEnd => None
  end.

Definition q_read (i syn : Z) (r : trpc) : option (option label1 * Z * trpc) :=
  match r with
  | TrSync => if tp_sync p then Some (None, syn + 1, TrSpin) else Some (None, syn, TrLoop)
  | TrSpin => if syn =? 2 then Some (None, syn, TrLoop) else None
  | TrLoop => if i =? LOOP then Some (None, syn, TrEnd) else Some (Some CallPop, syn, TrPop)
  | TrPop | TrEnd | TrExit => None
  end.

(** the body of the loop of the reader after the pop *)
Definition q_read_back (d : Z) (s : tstate) : tstate :=
  let count := t_count s + 1 in
  if tp_null p d then TState (t_syn s) (t_w s) TrLoop (t_i s) count (t_count_val s) (t_vals s) (t_errors s) else
  let bad := negb (d =? t_i s + 1) in
  let errs := if bad then t_errors s ++ [(d, t_i s)] else t_errors s in
  if bad && tp_exit p then TState (t_syn s) (t_w s) TrExit (t_i s) count (t_count_val s) (t_vals s) errs
  else TState (t_syn s) (t_w s) TrLoop d count (t_count_val s + 1) (t_vals s ++ [d]) errs.

Inductive tstep : tstate → option label1 → tstate → Prop :=
| t_write s o syn w :
    q_write (t_syn s) (t_w s) = Some (o, syn, w) →
    tstep s o (TState syn w (t_r s) (t_i s) (t_count s) (t_count_val s) (t_vals s) (t_errors s))
| t_read s o syn r :
    q_read (t_i s) (t_syn s) (t_r s) = Some (o, syn, r) →
    tstep s o (TState syn (t_w s) r (t_i s) (t_count s) (t_count_val s) (t_vals s) (t_errors s))
| t_back s d : t_r s = TrPop → tstep s (Some (ReturnPop d)) (q_read_back d s).
End programs.

(** the program: both threads and the queue *)
Definition test_step {S} `{RwQueue S} (p : test_prog) (LOOP : Z) : S * tstate → S * tstate → Prop :=
  sync_step rwq_step (tstep p LOOP).
Definition test_start {S} `{RwQueue S} : S * tstate := (rwq_init, test_init).

(** ** What the threads see of a list *)
Section test.
Context (p : test_prog) (LOOP none : Z).
Context (Hnone : tp_null p none = true) (Hval : ∀ v, 1 <= v → tp_null p v = false) (HLOOP : 0 <= LOOP).

(** [n] values have been appended *)
Definition writer_ok (w : twpc) (st : wstatus) (n : Z) : Prop :=
  match w with
  | TwSync | TwSpin => st = NoPush ∧ n = 0
  | TwLoop i => st = NoPush ∧ n = i - 1 ∧ 1 <= i <= LOOP + 1
  | TwPush i => (st = Pushing i ∧ n = i - 1 ∨ st = Pushed ∧ n = i) ∧ 1 <= i <= LOOP
  | TwEnd => st = NoPush ∧ n = LOOP
  end.

(** [m] have been removed, the reader has read [i] *)
Definition reader_ok (r : trpc) (i : Z) (st : pstatus) (m : Z) : Prop :=
  match r with
  | TrSync | TrSpin => st = PIdle ∧ m = 0 ∧ i = 0
  | TrLoop => st = PIdle ∧ m = i
  | TrPop => (∃ b, st = PPopping b) ∧ m = i ∧ i ≠ LOOP ∨ st = PPopped none ∧ m = i ∨ st = PPopped (i + 1) ∧ m = i + 1
  | TrEnd => st = PIdle ∧ m = i ∧ i = LOOP
  | TrExit => False
  end.

(** neither is in its loop before both have come to [sync_thread] *)
Definition sync_ok (s : tstate) : Prop :=
  tp_sync p = true →
  t_syn s = (if decide (t_w s = TwSync) then 0 else 1) + (if decide (t_r s = TrSync) then 0 else 1) ∧
  (t_w s ≠ TwSync → t_w s ≠ TwSpin → t_syn s = 2) ∧ (t_r s ≠ TrSync → t_r s ≠ TrSpin → t_syn s = 2).

Record test_inv (sp : rwstate) (s : tstate) : Prop := {
  ti_nums : ∃ n m, sp.1.1 = seqZ (m + 1) (n - m) ∧ 0 <= m <= n ∧ n <= LOOP ∧
    writer_ok (t_w s) sp.1.2 n ∧ reader_ok (t_r s) (t_i s) sp.2 m;
  ti_vals : t_vals s = seqZ 1 (t_i s);
  ti_i : 0 <= t_i s;
  ti_count : t_count_val s = t_i s;
  ti_errors : t_errors s = [];
  ti_sync : sync_ok s
}.

Lemma seqZ_snoc a n : 0 <= n → seqZ a n ++ [a + n] = seqZ a (n + 1).
Proof. intros. by rewrite seqZ_app by lia. Qed.

(** a step of the queue: the threads do not move *)
Lemma inv_queue sp s sp' : test_inv sp s → rwspec none sp None sp' → test_inv sp' s.
Proof.
  intros [(n & m & Hl & Hm & Hn & Hw & Hr) ? ? ? ? ?] Hs. split; [|done..].
  inversion Hs as [| | | |l d r|x l w b|w b|l w b Hb]; subst; cbn in *.
  - destruct (t_w s); try (destruct Hw as [Hw _]; done). destruct Hw as [[[[= ->] ->]|[? _]] Hi]; [|done].
    exists i, m. split_and!; try done; try lia.
    + rewrite Hl. replace [i] with [m + 1 + (i - 1 - m)] by (f_equal; lia). rewrite seqZ_snoc by lia. f_equal. lia.
    + split; [by right|done].
  - destruct (t_r s); try (by destruct Hr as [Hr _]); try done.
    destruct Hr as [[_ [-> Hne]]|[[? _]|[? _]]]; try done.
    destruct (decide (t_i s < n)) as [Hlt|]; [|by rewrite seqZ_nil in Hl by lia].
    rewrite seqZ_cons in Hl by lia. injection Hl as -> ->.
    exists n, (t_i s + 1). split_and!; try done; try lia; [f_equal; lia|]. by right; right.
  - destruct (t_r s); try (by destruct Hr as [Hr _]); try done.
    destruct Hr as [[_ [-> Hne]]|[[? _]|[? _]]]; try done. exists n, (t_i s). split_and!; try done; try lia. left. eauto.
  - destruct (t_r s); try (by destruct Hr as [Hr _]); try done.
    destruct Hr as [[_ [-> Hne]]|[[? _]|[? _]]]; try done. exists n, (t_i s). split_and!; try done; try lia. right; left. done.
Qed.

(** a step of the threads, and with it of the queue if there is a label *)
Lemma inv_thread sp s o sp' s' :
  test_inv sp s → tstep p LOOP s o s' →
  match o with Some l => rwspec none sp (Some l) sp' | None => sp' = sp end → test_inv sp' s'.
Proof using Type*.
  intros [(n & m & Hl & Hm & Hn & Hw & Hr) Hv Hi Hc He Hy] Hs Ho. destruct Hs as [s o syn w E|s o syn r E|s d E].
  - assert (∃ n', sp'.1.1 = seqZ (m + 1) (n' - m) ∧ m <= n' ∧ n' <= LOOP ∧ writer_ok w sp'.1.2 n' ∧ sp'.2 = sp.2) as (n' & ? & ? & ? & ? & Er).
    { destruct (t_w s) as [| |i|i|]; cbn in E; [destruct (tp_sync p)|destruct (_ =? _)|destruct (i <=? LOOP) eqn:El| |]; simplify_eq; zbool; cbn in Hw.
      - exists n. by split_and!; try lia.
      - destruct Hw as [-> ->]. exists 0. cbn. split_and!; try done; lia.
      - destruct Hw as [? ->]. exists 0. cbn. split_and!; try done; lia.
      - destruct Hw as [Ew [-> ?]]. inversion Ho; subst. cbn in *. exists (i - 1). split_and!; try done; try lia. by left.
      - destruct Hw as [Ew [-> ?]]. exists (i - 1). split_and!; try done; cbn; [lia..|]. split; [done|lia].
      - inversion Ho; subst. cbn in *. destruct Hw as [[[[=] _]|[_ ->]] ?]. exists i. split_and!; try done; lia. }
    split; cbn [t_vals t_i t_count_val t_errors]; try done.
    + exists n', m. cbn [t_w t_r t_i]. rewrite Er. split_and!; try done; lia.
    + intros Hsy. specialize (Hy Hsy). cbn [t_syn t_w t_r].
      destruct (t_w s) as [| |i|i|]; cbn in E; rewrite ?Hsy in E; [|destruct (_ =? _) eqn:E2|destruct (i <=? LOOP)| |]; simplify_eq; zbool;
        repeat (destruct (decide _); try done); split_and!; try done; try lia; naive_solver lia.
  - assert (∃ m', sp'.1.1 = sp.1.1 ∧ sp'.1.2 = sp.1.2 ∧ m' = m ∧ reader_ok r (t_i s) sp'.2 m) as (m' & E1 & E2 & -> & ?).
    { exists m. destruct (t_r s) as [| | | | |]; cbn in E; [destruct (tp_sync p)|destruct (_ =? _)|destruct (_ =? LOOP) eqn:El| | |];
        simplify_eq; zbool; cbn in Hr.
      - done.
      - destruct Hr as (? & -> & ->). done.
      - destruct Hr as (? & -> & ->). done.
      - destruct Hr as [? ->]. done.
      - destruct Hr as [? ->]. inversion Ho; subst. cbn in *. split_and!; try done. left. eauto. }
    split; cbn [t_vals t_i t_count_val t_errors]; try done.
    + exists n, m. cbn [t_w t_r t_i]. rewrite E1, E2. split_and!; try done; lia.
    + intros Hsy. specialize (Hy Hsy). cbn [t_syn t_w t_r].
      destruct (t_r s) as [| | | | |]; cbn in E; rewrite ?Hsy in E; [|destruct (_ =? _) eqn:E3|destruct (_ =? LOOP)| | |]; simplify_eq; zbool;
        repeat (destruct (decide _); try done); split_and!; try done; try lia; naive_solver lia.
  - rewrite E in Hr. cbn in Hr. destruct sp as [[l w] r], sp' as [[l' w'] r'].
    assert (l' = l ∧ w' = w ∧ r = PPopped d ∧ r' = PIdle) as (-> & -> & -> & ->) by (inversion Ho; by subst). cbn in *.
    assert (sync_ok (TState (t_syn s) (t_w s) TrLoop (t_i s) 0 0 [] [])) as Hy'.
    { intros Hsy. specialize (Hy Hsy). rewrite E in Hy. cbn. naive_solver. }
    unfold q_read_back. destruct Hr as [[[b [=]] _]|[[[= ->] ->]|[[= ->] ->]]].
    + rewrite Hnone. split; cbn; try done. exists n, (t_i s). by split_and!; try lia.
    + rewrite Hval, Z.eqb_refl by lia. split; cbn; try done; try lia.
      * exists n, (t_i s + 1). by split_and!; try lia.
      * rewrite Hv, (Z.add_comm (t_i s) 1), seqZ_snoc by lia. f_equal. lia.
Qed.

Lemma init_test_inv : test_inv rwspec_init test_init.
Proof using Type*.
  split; cbn; try done. exists 0, 0. by split_and!; try lia.
Qed.

Lemma test_inv_reach sp s : rtc (sync_step (rwspec none) (tstep p LOOP)) (rwspec_init, test_init) (sp, s) → test_inv sp s.
Proof using Type*.
  intros Hr. remember (rwspec_init, test_init) as x0 eqn:E0. remember (sp, s) as x eqn:Ex.
  assert (test_inv x.1 x.2) as Hi; [|by subst].
  clear sp s Ex. assert (test_inv x0.1 x0.2) as H0 by (subst; apply init_test_inv). clear E0.
  induction Hr as [|x y z Hs _ IH]; [done|]. apply IH. destruct Hs as [sp s l sp' s' Hq Ht|sp s sp' Hq|sp s s' Ht]; cbn in *.
  - by eapply inv_thread.
  - by eapply inv_queue.
  - by eapply inv_thread.
Qed.

(** *** After the writer has ended every pop gets a value *)
Record late (c : Z) (sp : rwstate) (s : tstate) : Prop := {
  la_inv : test_inv sp s;
  la_w : t_w s = TwEnd;
  la_r : t_r s = TrPop → sp.2 = PPopping false ∨ sp.2 = PPopped (t_i s + 1);
  la_c : t_count s - t_count_val s = c
}.

(** a pop under way is not to come back with nothing *)
Lemma late_queue c sp s sp' : late c sp s → rwspec none sp None sp' → t_r s = TrPop → sp'.2 = PPopped (t_i s + 1).
Proof.
  intros [[(n & m & Hl & Hm & Hn & Hw & Hr) _ _ _ _ _] Ew Hlr _] Hq Er.
  specialize (Hlr Er). rewrite Ew in Hw. destruct Hw as [Hw ->]. rewrite Er in Hr.
  inversion Hq as [| | | |l d r|x l w b|w b|l w b Hb]; subst; cbn in *; [done| | |].
  - destruct Hr as [[_ [-> Hne]]|[[? _]|[? _]]]; try done. rewrite seqZ_cons in Hl by lia. by injection Hl as -> _.
  - destruct Hr as [[_ [-> Hne]]|[[? _]|[? _]]]; try done. by rewrite seqZ_cons in Hl by lia.
  - destruct Hlr as [[= ->]|]; [|done]. destruct Hb as [?| ->]; [done|].
    destruct Hr as [[_ [-> Hne]]|[[? _]|[? _]]]; try done. by rewrite seqZ_cons in Hl by lia.
Qed.

Lemma late_step c sp s sp' s' : late c sp s → sync_step (rwspec none) (tstep p LOOP) (sp, s) (sp', s') → late c sp' s'.
Proof using Type*.
  intros Hlt Hs. pose proof Hlt as [Hi Hw Hr Hc].
  inversion Hs as [? ? l ? ? Hq Ht|? ? ? Hq|? ? ? Ht]; subst.
  - assert (test_inv sp' s') as Hi' by (by eapply inv_thread). split; [done|..];
      inversion Ht as [? ? syn w E|? ? syn r E|? d E]; subst; try (by rewrite Hw in E); cbn; try done.
    + unfold q_read_back. by repeat case_match.
    + intros ->. left. destruct (t_r s); cbn in E; repeat case_match; simplify_eq. by inversion Hq.
    + unfold q_read_back. by repeat case_match.
    + inversion Hq; subst. destruct (Hr E) as [[=]|[= ->]]. destruct Hi. unfold q_read_back.
      rewrite Hval, Z.eqb_refl by lia. cbn. lia.
  - split; [by eapply inv_queue|done| |done]. intros Er. right. by eapply late_queue.
  - split; [by eapply inv_thread|..]; inversion Ht as [? ? syn w E|? ? syn r E|]; subst; try (by rewrite Hw in E); cbn; try done.
    intros ->. destruct (t_r s); cbn in E; repeat case_match; simplify_eq.
Qed.

Lemma late_reach c sp s sp' s' :
  late c sp s → rtc (sync_step (rwspec none) (tstep p LOOP)) (sp, s) (sp', s') → late c sp' s'.
Proof using Type*.
  intros Hl Hr. remember (sp, s) as x eqn:Ex. remember (sp', s') as x' eqn:Ex'.
  assert (late c x.1 x.2) as H0 by (by subst). assert (late c x'.1 x'.2); [|by subst]. clear -H0 Hr Hnone Hval HLOOP.
  induction Hr as [|[] [] z Hs _ IH]; [done|]. apply IH. by eapply late_step.
Qed.
End test.

(** ** The programs on any queue *)

(** what a run of the program shows: no error, the values in order and all of
    them at the end, nothing before both threads have come, and no pop that
    finds nothing after the writer has ended *)
Definition passes {S} (Q : RwQueue S) (p : test_prog) (LOOP : Z) : Prop := ∀ q s,
  rtc (test_step p LOOP) test_start (q, s) →
  t_errors s = [] ∧ t_vals s = seqZ 1 (t_count_val s) ∧ t_count_val s <= LOOP ∧
  (t_r s = TrEnd → t_vals s = seqZ 1 LOOP) ∧
  (tp_sync p = true → t_w s ≠ TwSync → t_w s ≠ TwSpin → t_r s ≠ TrSync) ∧
  ∀ q' s', t_w s = TwEnd → t_r s ≠ TrPop → rtc (test_step p LOOP) (q, s) (q', s') →
    t_count s' - t_count s = t_count_val s' - t_count_val s.

Lemma queue_passes {S} `{RwLaws S} p LOOP :
  tp_null p rwq_none = true → (∀ v, 1 <= v → tp_null p v = false) → 0 <= LOOP → passes _ p LOOP.
Proof.
  intros Hnone Hval HL q s Hr.
  destruct (sync_split _ _ _ _ Hr) as (tr & Hq & Ht). cbn in Hq, Ht.
  destruct (rwq_refines _ _ Hq) as (sp & Hsp).
  pose proof (test_inv_reach p LOOP rwq_none Hnone Hval HL _ _ (sync_join _ _ _ _ _ _ _ Hsp Ht)) as Hi.
  pose proof Hi as [(n & m & _ & Hm & Hn & _ & Hrd) Hv H0 Hc He Hy].
  split_and!; [done|by rewrite Hc| | | |].
  - rewrite Hc. destruct (t_r s); cbn in Hrd; naive_solver lia.
  - intros E. rewrite E in Hrd. destruct Hrd as (_ & _ & <-). done.
  - intros Hsy W1 W2 E. destruct (Hy Hsy) as (E1 & E2 & _). specialize (E2 W1 W2).
    rewrite E1 in E2. rewrite (decide_True (P := t_r s = TrSync)) in E2 by done. case_decide; lia.
  - intros q' s' Hw Hnp Hr'. destruct (sync_split _ _ _ _ Hr') as (tr' & Hq' & Ht'). cbn in Hq', Ht'.
    destruct (rwq_refines _ _ (trace_app _ _ _ _ _ _ Hq Hq')) as (sp' & Hsp').
    destruct (trace_app_inv _ _ _ _ _ Hsp') as (sp1 & H1 & H2).
    pose proof (test_inv_reach p LOOP rwq_none Hnone Hval HL _ _ (sync_join _ _ _ _ _ _ _ H1 Ht)) as Hi1.
    assert (late p LOOP rwq_none (t_count s - t_count_val s) sp1 s) as Hl by (by split).
    pose proof (late_reach p LOOP rwq_none Hnone Hval HL _ _ _ _ _ Hl (sync_join _ _ _ _ _ _ _ H2 Ht')) as [_ _ _ Hl'].
    lia.
Qed.

(** ** The four queues *)

#[export] Instance q1_rw : RwQueue state1 := { rwq_init := init1; rwq_step := step1; rwq_none := 0 }.

Definition q1_rel (a : list Z * wstatus * rstatus) (b : rwstate) : Prop :=
  a.1 = b.1 ∧ match a.2 with NoPop => b.2 = PIdle | Popping => b.2 = PPopping false | Popped x => b.2 = PPopped x end.

#[export] Instance q1_laws : RwLaws state1.
Proof.
  split. intros tr m Htr. destruct (reachable_inv1 _ _ Htr) as (sp & _ & Hsp).
  assert (q1_rel ([], NoPush, NoPop) rwspec_init) as H0 by (by split).
  destruct (λ Hs, trace_refines spec1 (rwspec 0) q1_rel Hs _ _ _ _ H0 Hsp) as (sp' & _ & H); [|by exists sp'].
  intros s o s' [[l w] r] [E1 E2] Hs.
  destruct Hs; cbn in E1, E2; simplify_eq/=;
    (eexists; split; cycle 1; [left; first [apply rw_pop_empty; by right|by constructor]|by split]).
Qed.

(** the first thread pushes, the second one pops *)
Definition unlabel (l : label) : option label1 :=
  match l with
  | Call 0 (Push d) => Some (CallPush d)
  | Call 1 Pop => Some CallPop
  | Return 0 _ => Some ReturnPush
  | Return 1 r => Some (ReturnPop r)
  | _ => None
  end.
Definition two_threads {S} (step : S → option label → S → Prop) (s : S) (o : option label1) (s' : S) : Prop :=
  match o with None => step s None s' | Some l => ∃ l0, unlabel l0 = Some l ∧ step s (Some l0) s' end.

Lemma two_trace {S} (step : S → option label → S → Prop) s tr s' :
  trace (two_threads step) s tr s' ↔ ∃ tr0, trace step s tr0 s' ∧ unlabel <$> tr0 = Some <$> tr.
Proof.
  split.
  - induction 1 as [s|s s1 tr s' Hs _ (tr0 & H1 & H2)|s l s1 tr s' (l0 & El & Hs) _ (tr0 & H1 & H2)].
    + exists []. split; [constructor|done].
    + exists tr0. eauto using trace_tau.
    + exists (l0 :: tr0). split; [by eapply trace_label|]. cbn. by rewrite El, H2.
  - intros (tr0 & H & E). revert tr E. induction H as [s|s s1 tr0 s' Hs _ IH|s l0 s1 tr0 s' Hs _ IH]; intros tr E.
    + destruct tr; [constructor|done].
    + eapply trace_tau; [done|auto].
    + destruct tr as [|l tr]; [done|]. injection E as E1 E2. eapply trace_label; [by exists l0|auto].
Qed.

(** A specification for any number of threads, each of which is at a status in
    [X], shows two threads a list if its moments do. *)
Section two.
Context {X : Type} (idle : X) (fin : Z → X) (enter_ : op → X) (lin_ : list Z → X → list Z → X → Prop).
Context (none : Z) (aw : X → option wstatus) (ar : X → option pstatus).

Inductive gspec : list Z * (nat → X) → option label → list Z * (nat → X) → Prop :=
| g_call l st t o : st t = idle → gspec (l, st) (Some (Call t o)) (l, <[t := enter_ o]> st)
| g_return l st t r : st t = fin r → gspec (l, st) (Some (Return t r)) (l, <[t := idle]> st)
| g_lin l st t l' s' : lin_ l (st t) l' s' → gspec (l, st) None (l', <[t := s']> st).

Record two_ok : Prop := {
  to_idle : aw idle = Some NoPush ∧ ar idle = Some PIdle;
  to_enter d : aw (enter_ (Push d)) = Some (Pushing d) ∧ ar (enter_ Pop) = Some (PPopping false);
  to_fin x : aw (fin x) = Some Pushed ∧ ar (fin x) = Some (PPopped x);
  to_rest l l' s' : ¬ lin_ l idle l' s';
  to_push l s l' s' w : lin_ l s l' s' → aw s = Some w →
    ∃ w', aw s' = Some w' ∧ ∀ r, rwspec none (l, w, r) None (l', w', r);
  to_pop l s l' s' r : lin_ l s l' s' → ar s = Some r →
    ∃ r', ar s' = Some r' ∧ ∀ w, rwspec none (l, w, r) None (l', w, r')
}.
Context (Hok : two_ok).

Definition grel (a : list Z * (nat → X)) (b : rwstate) : Prop :=
  a.1 = b.1.1 ∧ aw (a.2 0%nat) = Some b.1.2 ∧ ar (a.2 1%nat) = Some b.2 ∧ ∀ t, (2 <= t)%nat → a.2 t = idle.

Lemma grel_writer l l' st w w' r s :
  grel (l, st) (l, w, r) → aw s = Some w' → grel (l', <[0%nat := s]> st) (l', w', r).
Proof.
  intros (_ & _ & E3 & E4) Hs. split_and!; cbn; [done|by rewrite fn_lookup_insert|by rewrite fn_lookup_insert_ne|].
  intros t Ht. rewrite fn_lookup_insert_ne by lia. by apply E4.
Qed.
Lemma grel_reader l l' st w r r' s :
  grel (l, st) (l, w, r) → ar s = Some r' → grel (l', <[1%nat := s]> st) (l', w, r').
Proof.
  intros (_ & E2 & _ & E4) Hs. split_and!; cbn; [done|by rewrite fn_lookup_insert_ne|by rewrite fn_lookup_insert|].
  intros t Ht. rewrite fn_lookup_insert_ne by lia. by apply E4.
Qed.

Lemma gspec_two s o s' t :
  grel s t → two_threads gspec s o s' → ∃ t', grel s' t' ∧ (rwspec none t o t' ∨ o = None ∧ t' = t).
Proof using Type*.
  destruct t as [[l w] r], s as [l0 st]. intros Hg Hs. pose proof Hg as (E1 & E2 & E3 & E4). cbn in E1, E2, E3, E4. subst l0.
  destruct Hok as [[I1 I2] He Hf Hrest Hpush Hpop]. destruct o as [lb|]; cbn in Hs.
  - destruct Hs as (l0 & Hu & Hs). inversion Hs as [? ? t o Hi|? ? t x Hi|]; subst.
    + destruct t as [|[|t]], o as [d|]; try done; injection Hu as <-; rewrite Hi in *; simplify_eq.
      * exists (l, Pushing d, r). split; [eapply grel_writer; [done|apply (He d)]|left; constructor].
      * exists (l, w, PPopping false). split; [eapply grel_reader; [done|apply (He 0)]|left; constructor].
    + destruct t as [|[|t]]; try done; injection Hu as <-; rewrite Hi in *; destruct (Hf x) as [F1 F2]; simplify_eq.
      * exists (l, NoPush, r). split; [by eapply grel_writer|left; constructor].
      * exists (l, w, PIdle). split; [by eapply grel_reader|left; constructor].
  - inversion Hs as [| |? ? t l' s1 Hl]; subst. destruct t as [|[|t]].
    + destruct (Hpush _ _ _ _ _ Hl E2) as (w' & Ew & Hr). exists (l', w', r). split; [by eapply grel_writer|left; apply Hr].
    + destruct (Hpop _ _ _ _ _ Hl E3) as (r' & Er & Hr). exists (l', w, r'). split; [by eapply grel_reader|left; apply Hr].
    + rewrite E4 in Hl by lia. by apply Hrest in Hl.
Qed.

Lemma gspec_refines tr sp :
  trace (two_threads gspec) ([], λ _, idle) tr sp → ∃ sp', trace (rwspec none) rwspec_init tr sp'.
Proof using Type*.
  intros H. assert (grel ([], λ _, idle) rwspec_init) as H0 by (split; [done|split_and!; [apply Hok|apply Hok|done]]).
  destruct (trace_refines _ _ grel (λ s o s' t, gspec_two s o s' t) _ _ _ _ H0 H) as (sp' & _ & H'). by exists sp'.
Qed.
End two.

(** the lock queues, by whether they have a mutex *)
#[export] Instance lock_rw (um : bool) : RwQueue lstate :=
  { rwq_init := linit um; rwq_step := two_threads lstep; rwq_none := 0 }.

Lemma lspec_two_ok :
  two_ok LSIdle LSDone lsenter latomic 0
    (λ s, match s with LSIdle => Some NoPush | LSPush d => Some (Pushing d) | LSDone _ => Some Pushed | LSPop => None end)
    (λ s, match s with LSIdle => Some PIdle | LSPop => Some (PPopping false) | LSDone x => Some (PPopped x) | LSPush _ => None end).
Proof.
  split; try done; [by inversion 1|..]; intros l s l' s' x Hl; destruct Hl; intros [= <-]; (eexists; split; [done|]); intros; try constructor.
  by right.
Qed.

Lemma lock_laws um : @RwLaws lstate (lock_rw um).
Proof.
  split. intros tr m (tr0 & Htr & Etr)%two_trace. destruct (reachable_linv _ _ _ Htr) as (sp & _ & Hsp).
  eapply (gspec_refines _ _ _ _ _ _ _ lspec_two_ok tr sp). apply two_trace. exists tr0. split; [|done].
  clear -Hsp. induction Hsp as [s|s s1 tr s' Hs _ IH|s l s1 tr s' Hs _ IH]; [constructor|eapply trace_tau|eapply trace_label];
    try done; destruct Hs; by constructor.
Qed.

(** Michael and Scott's queue: nobody sees to it that one thread at a time takes
    a node ([false]), as in the code.  Its [CAS] is assumed to report its
    result: the bytes of [__ret] that [sete] leaves, which are not initialised
    in the code, are taken for 0 ([mstep 0]; [failed_cas_loses_push] shows what
    happens else). *)
#[export] Instance ms_rw : RwQueue mstate :=
  { rwq_init := ms_init (λ _, MNode null 0); rwq_step := two_threads (mstep 0 false); rwq_none := -1 }.

Definition popper (p : pc) : bool :=
  match p with
  | Idle | Finished _ | PopHeadPtr | PopHeadTag _ | PopTailPtr _ | PopTailTag _ _ | PopNextPtr _ _ | PopNextTag _ _ _
  | PopEqPtr _ _ _ | PopEqTag _ _ _ | PopTest _ _ _ | PopCas _ _ _ => true
  | _ => false
  end.
Definition one_pusher (m : mstate) : Prop := ∀ t, t ≠ 0%nat → popper (m.2 t) = true.

Lemma popper_run junk q p q' p' : popper p = true → run_pc junk q p = Some (q', p') → popper p' = true.
Proof.
  intros Hp Hr. destruct p; try done; cbn in Hr; repeat (case_decide || case_match); simplify_eq/=; try done;
    repeat match goal with H : _ ≫= _ = Some _ |- _ => apply bind_Some in H as (? & ? & ?); simplify_eq/= end; done.
Qed.
Lemma popper_allocating p : popper p = true → allocating p = false.
Proof. by destruct p. Qed.

(** with one thread that pushes nodes are taken one at a time *)
Lemma one_pusher_step junk m o m' :
  one_pusher m → two_threads (mstep junk false) m o m' → one_pusher m' ∧ two_threads (mstep junk true) m o m'.
Proof.
  intros Hp Hs.
  assert (∀ q ps t p q', (t = 0%nat ∨ popper p = true) → one_pusher (q, ps) → one_pusher (q', <[t := p]> ps)) as Hup.
  { intros q ps t p q' Ht Hq t' Ht'. cbn. destruct (decide (t = t')) as [<-|]; [rewrite fn_lookup_insert; naive_solver|].
    rewrite fn_lookup_insert_ne by done. by apply Hq. }
  destruct o as [l|]; cbn in Hs |- *.
  - destruct Hs as (l0 & Hu & Hs). inversion Hs as [? ? t o Hi|? ? t x Hi|]; subst.
    + split; [|exists (Call t o); split; [done|by constructor]]. eapply Hup; [|done].
      destruct t as [|[|t]], o; try done; [by left|by right].
    + split; [|exists (Return t x); split; [done|by constructor]]. eapply Hup; [|done]. by right.
  - inversion Hs as [| |? ? t q' p' Hr]; subst. split.
    + eapply Hup; [|done]. destruct (decide (t = 0%nat)) as [->|Ht]; [by left|]. right.
      eapply popper_run; [|done]. by apply Hp.
    + constructor; [done|]. intros _ Ha t' Ht'. destruct (decide (t = 0%nat)) as [->|Ht].
      * apply popper_allocating. by apply Hp.
      * pose proof (popper_run _ _ _ _ _ (Hp t Ht) Hr) as Hpp. apply popper_allocating in Hpp. congruence.
Qed.

Lemma one_pusher_trace junk m tr m' :
  one_pusher m → trace (two_threads (mstep junk false)) m tr m' → trace (two_threads (mstep junk true)) m tr m'.
Proof.
  intros Hp H. induction H as [s|s s1 tr s' Hs _ IH|s l s1 tr s' Hs _ IH]; [constructor|..];
    destruct (one_pusher_step _ _ _ _ Hp Hs) as [Hp' Hs']; eauto using trace_tau, trace_label.
Qed.

Lemma sspec_two_ok :
  two_ok SIdle SDone senter lin (-1)
    (λ s, match s with SIdle => Some NoPush | SPush d => Some (Pushing d) | SDone _ => Some Pushed | SPop _ => None end)
    (λ s, match s with SIdle => Some PIdle | SPop b => Some (PPopping b) | SDone x => Some (PPopped x) | SPush _ => None end).
Proof.
  split; try done; [by inversion 1|..]; intros l s l' s' x Hl; destruct Hl; intros [= <-]; (eexists; split; [done|]); intros; try constructor.
  by left.
Qed.

#[export] Instance ms_laws : RwLaws mstate.
Proof.
  split. intros tr m Htr. apply one_pusher_trace in Htr; [|by intros ? ?]. apply two_trace in Htr as (tr0 & Htr & Etr).
  destruct (reachable_minv _ _ _ Htr) as (sp & _ & Hsp).
  eapply (gspec_refines _ _ _ _ _ _ _ sspec_two_ok tr sp). apply two_trace. exists tr0. split; [|done].
  change ([], λ _ : nat, SIdle) with sinit. clear -Hsp. induction Hsp as [s|s s1 tr s' Hs _ IH|s l s1 tr s' Hs _ IH]; [constructor|eapply trace_tau|eapply trace_label];
    try done; destruct Hs; by constructor.
Qed.

(** ** The theorem *)

(** C31. The programs of [test] and [test_cas] find the four queues correct
    whatever the interleaving: the reader never logs an error, what it has
    read is 1, 2, ... without a gap, and [LOOP] numbers when it ends; neither
    thread is in its loop before the other has started (where [sync_thread] is
    used); and once the writer has ended no pop finds the queue empty, so that
    the reader ends after as many pops as there are values left.  With a
    single writer this holds of Michael and Scott's queue although its
    [_new_node] is not protected; of it, it is assumed that the bytes of
    [__ret] that [sete] leaves are 0.  A run is followed as far as the static
    buffer of ten million elements lasts: with a larger [LOOP] the push that
    would write behind it is no step here, and nothing is said of what follows
    it in the program. *)
Theorem queue_tests_pass LOOP : 0 <= LOOP →
  passes q1_rw s_1r1wq LOOP ∧ passes (lock_rw true) s_lockq LOOP ∧ passes (lock_rw false) s_slockq LOOP ∧
  passes ms_rw s_msq LOOP ∧ passes ms_rw s_cas_msq LOOP.
Proof.
  intros HL. assert (∀ v, 1 <= v → (v =? 0) = false) by (intros; lia). assert (∀ v, 1 <= v → (v <=? 0) = false) by (intros; lia).
  split_and!; [| | | |]; [|pose proof (lock_laws true)|pose proof (lock_laws false)| |]; by apply queue_passes.
Qed.

(** ** Witness: one value through the queue of one reader and one writer *)
Definition one_value : list label1 := [CallPush 1; ReturnPush; CallPop; ReturnPop 1].

Lemma one_value_queue : ∃ q, trace step1 init1 one_value q.
Proof.
  eexists. eapply trace_label; [apply step_call_push|]. do 5 by_writer.
  eapply trace_label; [apply step_return_push|]. eapply trace_label; [apply step_call_pop|]. do 6 by_reader.
  eapply trace_label; [apply step_return_pop|]. apply trace_nil.
Qed.

Ltac test_tau := eapply trace_tau; [first [eapply t_write; cbn; reflexivity|eapply t_read; cbn; reflexivity]|cbn].
Ltac test_call := eapply trace_label; [first [eapply t_write; cbn; reflexivity|eapply t_read; cbn; reflexivity]|cbn].
Lemma one_value_test : ∃ s, trace (tstep s_1r1wq 1) test_init one_value s ∧ t_r s = TrEnd.
Proof.
  unfold test_init. eexists. split.
  - do 4 test_tau. do 2 test_call. test_tau. test_call.
    eapply trace_label; [by eapply (t_back _ _ _ 1)|cbn]. test_tau. apply trace_nil.
  - reflexivity.
Qed.

Lemma queue_tests_pass_witness :
  0 <= 1 ∧ ∃ q s, rtc (test_step (H := q1_rw) s_1r1wq 1) test_start (q, s) ∧ t_r s = TrEnd ∧ t_vals s = seqZ 1 1.
Proof.
  split; [lia|]. destruct one_value_queue as [q Hq], one_value_test as (s & Ht & Es).
  assert (rtc (test_step (H := q1_rw) s_1r1wq 1) test_start (q, s)) as Hr.
  { unfold test_step, test_start, rwq_init, rwq_step, q1_rw. exact (sync_join _ _ _ _ _ _ _ Hq Ht). }
  exists q, s. split; [exact Hr|split; [exact Es|]].
  destruct (proj1 (queue_tests_pass 1 ltac:(lia)) q _ Hr) as (_ & _ & _ & Hv & _). by apply Hv.
Defined.
