(* ===== verification/Sys.v ===== *)
(** * What stands between the program and the system

    [common/s_mem.c] counts the bytes that are in use, [thread/s_thread.c]
    starts threads from a static pool, [fs/s_file_reader.c] maps a file, and
    [server/s_main.c] takes the type and the id of the server from the name of
    the program.  What [malloc], [pthread_create], [open], [fstat] and [mmap]
    return are arguments. *)

From stdpp Require Import strings.
From S2P Require Import Prelude SString Cluster ServGroup.
Local Open Scope Z_scope.

(** ** [s_mem.c] *)
Definition sizeof_uint : Z := 4.

(** the first word of a block is its size; [md_blocks] has the blocks of
    [malloc] that are in use *)
Record s_mem := Mem { g_mem : Z; md_blocks : gmap Z Z }.

(** [block]: what [malloc] gives.  [None]: the size is written to a null
    pointer, or behind a block that is too short for it. *)
Definition s_malloc (block : option Z) (sz : Z) (m : s_mem) : option (Z * s_mem) :=
  let sz := uint (sz + sizeof_uint) in
  let g := uint (g_mem m + sz) in
  psz ← block;
  if sz <? sizeof_uint then None
  else Some (psz + sizeof_uint, Mem g (<[psz := sz]> (md_blocks m))).

(** [None]: the pointer is not one of [s_malloc] *)
Definition s_free (p : Z) (m : s_mem) : option s_mem :=
  let psz := p - sizeof_uint in
  sz ← md_blocks m !! psz;
  Some (Mem (uint (g_mem m - sz)) (delete psz (md_blocks m))).

Definition s_mem_used (m : s_mem) : Z := g_mem m.

(** the blocks that are in use *)
Definition live_bytes (b : gmap Z Z) : Z := map_fold (λ _ sz n, sz + n) 0 b.

Lemma live_bytes_insert b p sz : b !! p = None → live_bytes (<[p := sz]> b) = sz + live_bytes b.
Proof. intros Hp. unfold live_bytes. rewrite map_fold_insert_L; [done|intros; lia|done]. Qed.
Lemma live_bytes_delete b p sz : b !! p = Some sz → live_bytes b = sz + live_bytes (delete p b).
Proof. intros Hp. unfold live_bytes. rewrite (map_fold_delete_L _ _ p sz); [done|intros; lia|done]. Qed.

(** what the program may do: [malloc] gives no block that is in use *)
Inductive mem_step : s_mem → s_mem → Prop :=
| mem_malloc m m' psz sz p :
    md_blocks m !! psz = None → s_malloc (Some psz) sz m = Some (p, m') → mem_step m m'
| mem_free m m' p : s_free p m = Some m' → mem_step m m'.

Lemma uint_plus a b : uint (uint a + b) = uint (a + b).
Proof. unfold uint, wrapu. by rewrite Zplus_mod_idemp_l. Qed.
Lemma uint_minus a b : uint (uint a - b) = uint (a - b).
Proof. unfold uint, wrapu. by rewrite Zminus_mod_idemp_l. Qed.

Definition mem_ok (m : s_mem) : Prop :=
  g_mem m = uint (live_bytes (md_blocks m)) ∧ map_Forall (λ _ sz, sizeof_uint <= sz < 2 ^ 32) (md_blocks m).

Lemma mem_step_ok m m' : mem_step m m' → mem_ok m → mem_ok m'.
Proof.
  intros Hs [Hg Hb]. destruct Hs as [m m' psz sz p Hn Hm|m m' p Hm].
  - unfold s_malloc in Hm. cbn [mbind option_bind] in Hm. destruct (_ <? _) eqn:E; zbool; [done|]. simplify_eq.
    split; cbn; [by rewrite live_bytes_insert, Hg, uint_plus, Z.add_comm|]. apply map_Forall_insert_2; [|done].
    pose proof (uint_range (sz + sizeof_uint)) as Hr. unfold is_uint in Hr. lia.
  - unfold s_free in Hm. apply bind_Some in Hm as (sz & Hsz & Hm). simplify_eq. split; cbn; [|by apply map_Forall_delete].
    rewrite Hg, uint_minus, (live_bytes_delete _ _ _ Hsz). f_equal. lia.
Qed.

(** The counter is exact: after any allocations and releases, [s_mem_used] is
    the number of bytes of the blocks in use, their sizes included, modulo
    2^32; a block that is in use can be freed, and its bytes leave the count. *)
Theorem mem_used_exact m :
  rtc mem_step (Mem 0 ∅) m →
  s_mem_used m = uint (live_bytes (md_blocks m)) ∧
  ∀ psz sz, md_blocks m !! psz = Some sz →
    ∃ m', s_free (psz + sizeof_uint) m = Some m' ∧ md_blocks m' = delete psz (md_blocks m).
Proof.
  intros Hr. assert (mem_ok m) as [Hg _].
  { remember (Mem 0 ∅) as m0 eqn:E. assert (mem_ok m0) as H0 by (subst; split; [done|apply map_Forall_empty]). clear E.
    induction Hr as [|x y z Hxy _ IH]; [done|]. by apply IH, (mem_step_ok x). }
  split; [done|]. intros psz sz Hp. unfold s_free. rewrite Z.add_simpl_r, Hp. by eexists.
Qed.
Definition mem2 : s_mem := Mem 28 {[ 1000 := 20; 2000 := 8 ]}.
Lemma mem_used_exact_witness :
  s_mem_used mem2 = uint (live_bytes (md_blocks mem2)) ∧
  ∀ psz sz, md_blocks mem2 !! psz = Some sz →
    ∃ m', s_free (psz + sizeof_uint) mem2 = Some m' ∧ md_blocks m' = delete psz (md_blocks mem2).
Proof.
  apply (mem_used_exact mem2). apply (rtc_l _ _ (Mem 20 {[ 1000 := 20 ]})).
  { apply (mem_malloc _ _ 1000 16 1004); reflexivity. }
  apply (rtc_l _ _ mem2); [|apply rtc_refl]. apply (mem_malloc _ _ 2000 4 2004); reflexivity.
Defined.

(** a failed allocation is not noticed *)
Lemma malloc_null sz m : s_malloc None sz m = None.
Proof. done. Qed.

(** ** [s_thread.c] *)
Definition MAX_THREAD : Z := 256.
Section threads.
Context {routine data : Type}.

Record s_thread := Thread { th_start_routine : option routine; th_udata : option data }.
(** the cells of the static [buf] up to [pos] *)
Abbreviation thread_pool := (list s_thread).

Definition _get_free (buf : thread_pool) : option (nat * thread_pool) :=
  if MAX_THREAD <=? Z.of_nat (length buf) then None else Some (length buf, buf ++ [Thread None None]).

(** what the new thread calls *)
Definition _default_start_routine (t : s_thread) : option routine := th_start_routine t.

(** [ret]: what [pthread_create] returns, 0 if there is a new thread.  The
    result, the pool and what the new thread calls; [start] is not looked at *)
Definition s_thread_create (ret : Z) (start : routine) (d : data) (buf : thread_pool)
    : option nat * thread_pool * option routine :=
  match _get_free buf with
  | None => (None, buf, None)
  | Some (t, buf) =>
      let buf := alter (λ t, Thread (th_start_routine t) (Some d)) t buf in
      if ret =? 0 then (None, buf, c ← buf !! t; _default_start_routine c) else (Some t, buf, None)
  end.
Definition s_thread_get_udata (buf : thread_pool) (t : nat) : option data := c ← buf !! t; th_udata c.

(** As it is, a thread that was started is reported as a failure, one that was
    not as a success, and no thread calls the routine it is given. *)
Theorem thread_create_inverted ret start d buf t buf' called :
  Forall (λ t, th_start_routine t = None) buf → s_thread_create ret start d buf = (t, buf', called) →
  called = None ∧ (t = None ↔ ret = 0 ∨ MAX_THREAD <= Z.of_nat (length buf)) ∧
  (∀ n, t = Some n → s_thread_get_udata buf' n = Some d).
Proof.
  intros Hb. unfold s_thread_create, _get_free. destruct (_ <=? _) eqn:E; zbool.
  { intros [= <- <- <-]. split; [done|]. split; [|done]. split; [by right|done]. }
  cbn beta iota zeta.
  assert (alter (λ t, Thread (th_start_routine t) (Some d)) (length buf) (buf ++ [Thread None None]) =
    buf ++ [Thread None (Some d)]) as ->.
  { rewrite alter_app_r_alt by lia. by rewrite Nat.sub_diag. }
  assert ((buf ++ [Thread None (Some d)]) !! length buf = Some (Thread None (Some d))) as El.
  { rewrite lookup_app_r by lia. by rewrite Nat.sub_diag. }
  rewrite El. destruct (ret =? 0) eqn:Er; zbool; intros [= <- <- <-]; (split; [done|]); (split; [split; [|]|]); try done.
  - by left.
  - intros [|]; [done|lia].
  - intros n [= <-]. unfold s_thread_get_udata. by rewrite El.
Qed.
End threads.

(** ** [s_file_reader.c] *)
Definition MAP_FAILED : Z := -1.
Record s_file_reader := FileReader { fr_p : Z; fr_len : Z }.

(** [fd] of [open], [st_size] of [fstat] if it succeeds, [p] of [mmap], and
    whether there is memory.  [st_size] is put into an int. *)
Definition s_file_reader_create (fd : Z) (st_size : option Z) (p : Z) (mem : bool) : option s_file_reader :=
  if fd <? 0 then None
  else
    match st_size with
    | None => None
    | Some st_size =>
        let sz := sint st_size in
        if sz <=? 0 then None
        else if p =? 0 then None
        else if negb mem then None
        else Some (FileReader p sz)
    end.
Definition s_file_reader_data_p (fr : s_file_reader) : Z := fr_p fr.
Definition s_file_reader_data_len (fr : s_file_reader) : Z := fr_len fr.

(** a mapping that failed is not noticed *)
Lemma mmap_failure_unnoticed fd sz :
  0 <= fd → 0 < sz <= 2147483647 → ∃ fr, s_file_reader_create fd (Some sz) MAP_FAILED true = Some fr ∧ fr_p fr = MAP_FAILED.
Proof.
  intros Hfd Hsz. exists (FileReader MAP_FAILED sz). split; [|done]. unfold s_file_reader_create.
  rewrite (proj2 (Z.ltb_ge _ _)) by lia. rewrite sint_small by (unfold is_int; lia).
  by rewrite (proj2 (Z.leb_gt _ _)) by lia.
Qed.
(** a file of 2^32 + n bytes is taken for one of n *)
Lemma long_file_cut fd n p :
  0 <= fd → 0 < n <= 2147483647 → p ≠ 0 → s_file_reader_create fd (Some (2 ^ 32 + n)) p true = Some (FileReader p n).
Proof.
  intros Hfd Hn Hp. unfold s_file_reader_create. rewrite (proj2 (Z.ltb_ge _ _)) by lia.
  assert (sint (2 ^ 32 + n) = n) as ->.
  { rewrite <-sint_uint. assert (uint (2 ^ 32 + n) = n) as ->; [|apply sint_small; unfold is_int; lia].
    unfold uint, wrapu. rewrite Z.add_comm, <-(Z.mul_1_l (2 ^ 32)) at 1. rewrite Z.mod_add by lia. apply Z.mod_small. lia. }
  rewrite (proj2 (Z.leb_gt _ _)) by lia. by rewrite (proj2 (Z.eqb_neq _ _)).
Qed.

(** ** [server/s_main.c] *)
Fixpoint prefix (p s : list Z) : bool :=
  match p, s with
  | [], _ => true
  | a :: p, b :: s => (a =? b) && prefix p s
  | _, [] => false
  end.
Fixpoint c_strstr (s p : list Z) : bool := prefix p s || match s with [] => false | _ :: s => c_strstr s p end.

(** the type and the id; [None]: the program ends *)
Definition main_type_id (argv0 : list Z) : option (Z * Z) :=
  let id := s_util_get_serv_id argv0 95 in
  let type := -1 in
  let type := if c_strstr argv0 (cstr "mserv"%string) then S_SERV_TYPE_M else type in
  type ← (if c_strstr argv0 (cstr "dserv"%string) then if negb (type =? -1) then None else Some S_SERV_TYPE_D else Some type);
  let type := if type =? -1 then S_SERV_TYPE_C else type in
  if negb (type =? S_SERV_TYPE_C) && (id <=? 0) then None else Some (type, id).

Example main_mserv : main_type_id (cstr "./mserv_3"%string) = Some (S_SERV_TYPE_M, 3).
Proof. reflexivity. Qed.
Example main_client : main_type_id (cstr "./client"%string) = Some (S_SERV_TYPE_C, -1).
Proof. reflexivity. Qed.

(** A server that starts has a type of its own and, but for a client, a
    positive id; the name decides which, and a name that says both is refused. *)
Theorem main_type_id_spec argv0 :
  match main_type_id argv0 with
  | Some (type, id) =>
      id = s_util_get_serv_id argv0 95 ∧
      (type = S_SERV_TYPE_M ∧ c_strstr argv0 (cstr "mserv"%string) = true ∧ c_strstr argv0 (cstr "dserv"%string) = false ∧ 0 < id ∨
       type = S_SERV_TYPE_D ∧ c_strstr argv0 (cstr "mserv"%string) = false ∧ c_strstr argv0 (cstr "dserv"%string) = true ∧ 0 < id ∨
       type = S_SERV_TYPE_C ∧ c_strstr argv0 (cstr "mserv"%string) = false ∧ c_strstr argv0 (cstr "dserv"%string) = false)
  | None =>
      c_strstr argv0 (cstr "mserv"%string) = true ∧ c_strstr argv0 (cstr "dserv"%string) = true ∨
      (c_strstr argv0 (cstr "mserv"%string) = true ∨ c_strstr argv0 (cstr "dserv"%string) = true) ∧ s_util_get_serv_id argv0 95 <= 0
  end.
Proof.
  unfold main_type_id. destruct (c_strstr argv0 (cstr "mserv"%string)), (c_strstr argv0 (cstr "dserv"%string)); cbn -[s_util_get_serv_id];
    try destruct (_ <=? 0) eqn:E; zbool; tauto || (split; [done|]; lia || tauto) || idtac.
Qed.
