(* ===== verification/Zoo.v ===== *)
(** * [zookeeper/s_zookeeper.c]: locks and barriers on ZooKeeper

    The service is not part of the program: it is a parameter ([ZkService]),
    of which [ZkLaws] states what its header [zookeeper.h] documents.  The
    locks of [s_zookeeper.c] are steps of the threads of a process: a step is
    what happens between two calls of the service, or between two places where
    another thread of the process may come in ([lock_m] keeps the threads in
    [s_zoo_lock] apart, but nothing keeps [try_lock_watcher] and
    [s_zoo_unlock] away from them).  [None] is undefined behaviour: an
    element that is freed is read, a null callback is called, a mutex that is
    not locked is unlocked.

    The elements, contexts and vectors that [s_malloc] makes are named by the number of the
    allocation.  [lock_elem_hash] is any table of numbers ([SHashSpec]). *)

From stdpp Require Import strings pretty.
From S2P Require Import Prelude SString SHashSpec.
Local Open Scope Z_scope.

(** ** The service *)
Abbreviation path := (list Z) (only parsing).

Definition SLASH : Z := 47.
(** [ZOO_SEQUENCE] appends a number of 10 digits *)
Fixpoint digits (n : nat) (k : Z) : list Z :=
  match n with O => [] | S n => digits n (k / 10) ++ [48 + k mod 10] end.
Definition seq_name (k : Z) : list Z := digits 10 k.

(** the flags of [zoo_create] *)
Inductive create_flag := ZOO_EPHEMERAL | ZOO_SEQUENCE.
#[export] Instance create_flag_eq_dec : EqDecision create_flag.
Proof. solve_decision. Defined.
Definition has_flag (x : create_flag) (flags : list create_flag) : bool := bool_decide (x ∈ flags).

Class ZkService (zk : Type) := {
  zk_children : zk → path → list (list Z);   (* the names below a node *)
  zk_counter : zk → path → Z;                (* the number of its next sequential child *)
  zk_watches : zk → list (path * (Z * Z));   (* node, session, context *)
  zk_events : zk → Z → list Z;               (* contexts of a session still to be called, oldest first *)
  zk_owner : zk → path → option Z;           (* the session of an ephemeral node *)
  zoo_create : zk → Z → path → list create_flag → Z * path * zk;
  zoo_delete : zk → Z → path → Z * zk;
  zoo_get_children : zk → Z → path → option Z → Z * list (list Z) * zk;
  zk_deliver : zk → Z → zk;                  (* the first event is taken *)
  zk_end_session : zk → Z → zk               (* closed, or not heard of for too long *)
}.

Definition ZOK : Z := 0.
Definition ZNONODE : Z := -101.
Definition ZNODEEXISTS : Z := -110.

Section service.
Context {zk : Type} `{!ZkService zk}.
Implicit Types (z : zk).

Definition child (par : path) (nm : list Z) : path := par ++ SLASH :: nm.

(** the watches on [qs] are triggered, once *)
Definition fired z z' (qs : list path) : Prop :=
  (∀ q w, (q, w) ∈ zk_watches z' ↔ (q, w) ∈ zk_watches z ∧ q ∉ qs) ∧
  (∀ p c, c ∈ zk_events z' p ↔ c ∈ zk_events z p ∨ ∃ q, q ∈ qs ∧ (q, (p, c)) ∈ zk_watches z).
(** what clients see is the same *)
Definition zk_same z z' : Prop :=
  (∀ q, zk_children z' q ≡ₚ zk_children z q ∧ zk_counter z q <= zk_counter z' q) ∧ fired z z' [].

Definition child_added z z' (par : path) (nm : list Z) : Prop :=
  zk_children z' par ≡ₚ nm :: zk_children z par ∧
  (∀ q, q ≠ par → zk_children z' q ≡ₚ zk_children z q) ∧
  (∀ q, zk_counter z q <= zk_counter z' q) ∧ zk_counter z par < zk_counter z' par ∧
  fired z z' [par].
Definition child_removed z z' (par : path) (nm : list Z) : Prop :=
  zk_children z' par ≡ₚ filter (λ x, x ≠ nm) (zk_children z par) ∧
  (∀ q, q ≠ par → zk_children z' q ≡ₚ zk_children z q) ∧
  (∀ q, zk_counter z q <= zk_counter z' q) ∧
  fired z z' [par; child par nm].
(** a watch is left *)
Definition watch_added z z' (q : path) (p c : Z) : Prop :=
  (∀ q, zk_children z' q ≡ₚ zk_children z q ∧ zk_counter z q <= zk_counter z' q) ∧
  (∀ w, w ∈ zk_watches z' ↔ w = (q, (p, c)) ∨ w ∈ zk_watches z) ∧
  (∀ p c, c ∈ zk_events z' p ↔ c ∈ zk_events z p).
(** the first event is gone *)
Definition event_taken z z' (p : Z) : Prop :=
  (∀ q, zk_children z' q ≡ₚ zk_children z q ∧ zk_counter z q <= zk_counter z' q) ∧
  (∀ w, w ∈ zk_watches z' ↔ w ∈ zk_watches z) ∧
  zk_events z' p = tail (zk_events z p) ∧ ∀ p', p' ≠ p → zk_events z' p' = zk_events z p'.

(** the name that a new node gets *)
Definition new_name z (par : path) (nm : list Z) (flags : list create_flag) : list Z :=
  if has_flag ZOO_SEQUENCE flags then nm ++ seq_name (zk_counter z par) else nm.
End service.

(** What [zookeeper.h] documents.  After an error of the connection an
    operation may have been carried out.  An ephemeral node goes when the
    session that made it ends ([zk_end_session]).  The other operations are
    those of sessions that last: they take no ephemeral node away, and a watch
    stays until it is triggered.  The step relations of the components have no
    end of a session, nor a connection lost with its watches, since the code has
    nothing for either ([session_end_two_holders]): their theorems are about
    runs in which sessions last. *)
Class ZkLaws (zk : Type) `{!ZkService zk} := {
  zoo_create_ok (z : zk) p par nm flags r created z' :
    SLASH ∉ nm → zoo_create z p (child par nm) flags = (r, created, z') →
    (r = ZOK → created = child par (new_name z par nm flags)) ∧
    ((has_flag ZOO_SEQUENCE flags = true → 0 <= zk_counter z par < 10 ^ 10) ∧
       child_added z z' par (new_name z par nm flags) ∨
     r ≠ ZOK ∧ zk_same z z');
  zoo_create_owner (z : zk) p par nm flags created z' :
    SLASH ∉ nm → zoo_create z p (child par nm) flags = (ZOK, created, z') →
    zk_owner z' created = if has_flag ZOO_EPHEMERAL flags then Some p else None;
  zoo_delete_ok (z : zk) p par nm r z' :
    SLASH ∉ nm → zoo_delete z p (child par nm) = (r, z') →
    child_removed z z' par nm ∨ r ≠ ZOK ∧ zk_same z z';
  zoo_get_children_ok (z : zk) p q w r l z' :
    zoo_get_children z p q w = (r, l, z') →
    (r = ZOK → l ≡ₚ zk_children z q) ∧
    match w with
    | Some c => watch_added z z' q p c ∨ r ≠ ZOK ∧ zk_same z z'
    | None => zk_same z z'
    end;
  zk_deliver_ok (z : zk) p c l : zk_events z p = c :: l → event_taken z (zk_deliver z p) p;
  zk_end_session_ok (z : zk) p q :
    (∀ nm, nm ∈ zk_children z q → SLASH ∉ nm) →
    zk_children (zk_end_session z p) q ≡ₚ filter (λ nm, zk_owner z (child q nm) ≠ Some p) (zk_children z q)
}.

(** ** [print_error] *)
Definition zoo_errors : list (Z * string) :=
  [(-1, "ZSYSTEMERROR"); (-2, "ZRUNTIMEINCONSISTENCY"); (-3, "ZDATAINCONSISTENCY"); (-4, "ZCONNECTIONLOSS");
   (-5, "ZMARSHALLINGERROR"); (-6, "ZUNIMPLEMENTED"); (-7, "ZOPERATIONTIMEOUT"); (-8, "ZBADARGUMENTS");
   (-9, "ZINVALIDSTATE"); (-100, "ZAPIERROR"); (ZNONODE, "ZNONODE"); (-102, "ZNOAUTH"); (-103, "ZBADVERSION");
   (-108, "ZNOCHILDRENFOREPHEMERALS"); (ZNODEEXISTS, "ZNODEEXISTS"); (-111, "ZNOTEMPTY");
   (-112, "ZSESSIONEXPIRED"); (-113, "ZINVALIDCALLBACK"); (-114, "ZINVALIDACL"); (-115, "ZAUTHFAILED");
   (-116, "ZCLOSING"); (-117, "ZNOTHING"); (-118, "ZSESSIONMOVED")].
Definition print_error (e : Z) : string :=
  match (list_to_map zoo_errors : gmap Z string) !! e with
  | Some name => "error:" +:+ name
  | None => "unknown error:" +:+ pretty e
  end.

(** ** The data *)
Definition MAX_FILENAME_LEN : Z := 256.
Definition LOCK_ROOT : list Z := [47; 108; 111; 99; 107].
Definition LOCK_ROOT_LEN : Z := 5.
Definition SYNC_ROOT : list Z := [47; 115; 121; 110; 99].
Definition SYNC_ROOT_LEN : Z := 5.

(** [lock_complete_t]: a function of the program, or [lockv_callback] *)
Inductive lock_complete := CbUser | CbLockv.

Record s_zoo_lock_elem := Elem {
  el_callback : option lock_complete;
  el_d : Z;
  el_parent_path : list Z;
  el_lock_path : list Z;
  el_id : Z
}.

(** a pointer of [lock_elems]; [s_malloc] leaves what was there *)
Inductive elem_ptr := ElUndef | ElNull | ElPtr (e : Z).
Global Instance elem_ptr_eq_dec : EqDecision elem_ptr.
Proof. solve_decision. Defined.

(** [count] is the length of [filenames], which is null while [size] is 0 *)
Record s_zoo_lock_vector := LockVector {
  lv_filenames : list (list Z);
  lv_size : Z;
  lv_curr : Z;
  lv_d : Z;
  lv_lock_elems : option (list elem_ptr)
}.
Definition lv_count (v : s_zoo_lock_vector) : Z := Z.of_nat (length (lv_filenames v)).

(** Where a thread is.  [PDelete], [PFree]: in [s_zoo_unlock], called by the
    program or for element [i] of vector [v] by [s_zoo_unlockv]. *)
Inductive pc :=
| PIdle
| PParent (path : list Z) (cb : lock_complete) (d : Z)            (* s_zoo_lock, 2. *)
| PNode (path : list Z) (cb : lock_complete) (d : Z)              (* 3. *)
| PElem (path lock_path : list Z) (cb : lock_complete) (d : Z)    (* 4. *)
| PGot (e : Z) (v : list (list Z)) (cb : lock_complete) (d : Z)   (* in try_lock, with lock_m *)
| PTle (c : Z)                                                    (* try_lock_watcher *)
| PWatch (e : Z)                                                  (* tle is freed *)
| PWGot (e : Z) (v : list (list Z))                               (* in its try_lock *)
| PCall (cb : lock_complete) (d : Z) (e : Z)                      (* callback(z, d, elem) *)
| PDelete (e : Z) (k : option (Z * Z))                            (* s_zoo_unlock, buf is written *)
| PFree (e : Z) (k : option (Z * Z))                              (* zoo_delete returned *)
| PUnlockv (v i : Z).
Global Instance lock_complete_eq_dec : EqDecision lock_complete.
Proof. solve_decision. Defined.
Global Instance pc_eq_dec : EqDecision pc.
Proof. solve_decision. Defined.

(** callbacks of the program that were called *)
Inductive called := CalledLock (d e : Z) | CalledLockv (d v : Z).

Section zoo.
Context {zk TH : Type} `{HS : !ZkService zk} `{HT : !Table Z Z TH}.
Implicit Types (z : zk) (el : s_zoo_lock_elem) (t p e : Z).

(** A process: [struct s_zoo], its heap, the static [buf] of [s_zoo_unlock],
    the thread that holds [lock_m], where its threads are, the callbacks it
    called, and what it printed. *)
Record s_zoo := Zoo {
  lock_elem_id : Z;
  lock_elem_hash : TH;
  z_elems : gmap Z s_zoo_lock_elem;
  z_nelem : Z;
  z_tles : gmap Z (Z * Z);               (* try_lock_elem: elem, id *)
  z_ntle : Z;
  z_vecs : gmap Z s_zoo_lock_vector;
  z_nvec : Z;
  z_buf : list Z;
  z_lock_m : option Z;
  z_threads : gmap Z pc;
  z_called : list called;
  z_log : list string
}.
Implicit Types (zo : s_zoo).

Definition pc_of zo t : pc := default PIdle (z_threads zo !! t).

(** ** Assignments *)
Definition goto t (c : pc) zo : s_zoo :=
  Zoo (lock_elem_id zo) (lock_elem_hash zo) (z_elems zo) (z_nelem zo) (z_tles zo) (z_ntle zo)
    (z_vecs zo) (z_nvec zo) (z_buf zo) (z_lock_m zo) (<[t := c]> (z_threads zo)) (z_called zo) (z_log zo).
Definition with_lock_m (m : option Z) zo : s_zoo :=
  Zoo (lock_elem_id zo) (lock_elem_hash zo) (z_elems zo) (z_nelem zo) (z_tles zo) (z_ntle zo)
    (z_vecs zo) (z_nvec zo) (z_buf zo) m (z_threads zo) (z_called zo) (z_log zo).
Definition with_elems (es : gmap Z s_zoo_lock_elem) zo : s_zoo :=
  Zoo (lock_elem_id zo) (lock_elem_hash zo) es (z_nelem zo) (z_tles zo) (z_ntle zo)
    (z_vecs zo) (z_nvec zo) (z_buf zo) (z_lock_m zo) (z_threads zo) (z_called zo) (z_log zo).
Definition with_hash (h : TH) zo : s_zoo :=
  Zoo (lock_elem_id zo) h (z_elems zo) (z_nelem zo) (z_tles zo) (z_ntle zo)
    (z_vecs zo) (z_nvec zo) (z_buf zo) (z_lock_m zo) (z_threads zo) (z_called zo) (z_log zo).
Definition with_tles (tl : gmap Z (Z * Z)) zo : s_zoo :=
  Zoo (lock_elem_id zo) (lock_elem_hash zo) (z_elems zo) (z_nelem zo) tl (z_ntle zo)
    (z_vecs zo) (z_nvec zo) (z_buf zo) (z_lock_m zo) (z_threads zo) (z_called zo) (z_log zo).
Definition with_vecs (vs : gmap Z s_zoo_lock_vector) zo : s_zoo :=
  Zoo (lock_elem_id zo) (lock_elem_hash zo) (z_elems zo) (z_nelem zo) (z_tles zo) (z_ntle zo)
    vs (z_nvec zo) (z_buf zo) (z_lock_m zo) (z_threads zo) (z_called zo) (z_log zo).
Definition with_buf (b : list Z) zo : s_zoo :=
  Zoo (lock_elem_id zo) (lock_elem_hash zo) (z_elems zo) (z_nelem zo) (z_tles zo) (z_ntle zo)
    (z_vecs zo) (z_nvec zo) b (z_lock_m zo) (z_threads zo) (z_called zo) (z_log zo).
Definition calls (c : called) zo : s_zoo :=
  Zoo (lock_elem_id zo) (lock_elem_hash zo) (z_elems zo) (z_nelem zo) (z_tles zo) (z_ntle zo)
    (z_vecs zo) (z_nvec zo) (z_buf zo) (z_lock_m zo) (z_threads zo) (z_called zo ++ [c]) (z_log zo).
Definition prints (l : list string) zo : s_zoo :=
  Zoo (lock_elem_id zo) (lock_elem_hash zo) (z_elems zo) (z_nelem zo) (z_tles zo) (z_ntle zo)
    (z_vecs zo) (z_nvec zo) (z_buf zo) (z_lock_m zo) (z_threads zo) (z_called zo) (z_log zo ++ l).

(** the new element of [s_zoo_lock], in the hash *)
Definition new_elem (cb : lock_complete) (d : Z) (parent lock_path : list Z) zo : Z * s_zoo :=
  let e := z_nelem zo in
  let id := lock_elem_id zo in
  (e, Zoo (sint (id + 1)) (tbl_put (lock_elem_hash zo) id 1)
        (<[e := Elem (Some cb) d parent lock_path id]> (z_elems zo)) (e + 1) (z_tles zo) (z_ntle zo)
        (z_vecs zo) (z_nvec zo) (z_buf zo) (z_lock_m zo) (z_threads zo) (z_called zo) (z_log zo)).
(** the new context of [try_lock] *)
Definition new_tle e (id : Z) zo : Z * s_zoo :=
  let c := z_ntle zo in
  (c, Zoo (lock_elem_id zo) (lock_elem_hash zo) (z_elems zo) (z_nelem zo) (<[c := (e, id)]> (z_tles zo)) (c + 1)
        (z_vecs zo) (z_nvec zo) (z_buf zo) (z_lock_m zo) (z_threads zo) (z_called zo) (z_log zo)).
Definition new_vec (v : s_zoo_lock_vector) zo : Z * s_zoo :=
  let n := z_nvec zo in
  (n, Zoo (lock_elem_id zo) (lock_elem_hash zo) (z_elems zo) (z_nelem zo) (z_tles zo) (z_ntle zo)
        (<[n := v]> (z_vecs zo)) (n + 1) (z_buf zo) (z_lock_m zo) (z_threads zo) (z_called zo) (z_log zo)).

Definition set_callback (cb : option lock_complete) el : s_zoo_lock_elem :=
  Elem cb (el_d el) (el_parent_path el) (el_lock_path el) (el_id el).

(** ** [try_lock] *)
Fixpoint strcmp (a b : list Z) : Z :=
  match a, b with
  | x :: a, y :: b => if x =? y then strcmp a b else x - y
  | x :: _, [] => x
  | [], y :: _ => - y
  | [], [] => 0
  end.

(** the loop over the children *)
Definition min_str (v : list (list Z)) : option (list Z) :=
  foldl (λ m str, match m with
                  | None => Some str
                  | Some m => if 0 <? strcmp m str then Some str else Some m
                  end) None v.
Definition is_min (v : list (list Z)) el : bool :=
  match min_str v with Some m => strcmp m (el_lock_path el) =? 0 | None => false end.

(** up to the call of the service; no children: it failed, [try_lock] returns 0 *)
Definition try_lock z p e zo : option (option (list (list Z)) * zk * s_zoo) :=
  el ← z_elems zo !! e;
  let '(c, zo) := new_tle e (el_id el) zo in
  let '(r, v, z) := zoo_get_children z p (el_parent_path el) (Some c) in
  Some (if r =? ZOK then (Some v, z, zo) else (None, z, prints [print_error r] zo)).

(** ** [s_zoo_lock] *)
(** 1. and the test of 2.; [None]: it unlocks [lock_m], which it has not locked *)
Definition s_zoo_lock t (filename : list Z) (cb : lock_complete) (d : Z) zo : option s_zoo :=
  let fnlen := Z.of_nat (length filename) in
  if MAX_FILENAME_LEN - 1 <=? fnlen + LOCK_ROOT_LEN + 1 then None
  else Some (goto t (PParent (child LOCK_ROOT filename) cb d) zo).

(** the path in a buffer of [MAX_FILENAME_LEN] bytes *)
Definition in_buffer (path : list Z) : list Z := take 255 path.

Definition lock_parent z p t path cb d zo : zk * s_zoo :=
  let '(r, _, z) := zoo_create z p path [] in
  if (r =? ZOK) || (r =? ZNODEEXISTS) then (z, goto t (PNode path cb d) zo)
  else (z, goto t PIdle (prints [print_error r] zo)).

Definition lock_node z p t path cb d zo : option (zk * s_zoo) :=
  let '(r, path_created, z) := zoo_create z p (child path []) [ZOO_EPHEMERAL; ZOO_SEQUENCE] in
  if r =? ZOK then
    sep ← c_strrchr (in_buffer path_created) SLASH;
    Some (z, goto t (PElem path (tail sep) cb d) zo)
  else Some (z, goto t PIdle (prints [print_error r] zo)).

Definition lock_elem z p t path lock_path cb d zo : option (zk * s_zoo) :=
  let '(e, zo) := new_elem cb d path lock_path zo in
  '(v, z, zo) ← try_lock z p e zo;
  Some (z, match v with
           | Some v => goto t (PGot e v cb d) (with_lock_m (Some t) zo)
           | None => goto t PIdle zo
           end).

Definition lock_check t e v cb d zo : option s_zoo :=
  el ← z_elems zo !! e;
  let zo := with_lock_m None zo in
  Some (if is_min v el
        then goto t (PCall cb d e) (with_elems (<[e := set_callback None el]> (z_elems zo)) zo)
        else goto t PIdle zo).

(** ** [try_lock_watcher] *)
Definition try_lock_watcher t c zo : option s_zoo :=
  '(e, id) ← z_tles zo !! c;
  Some (match tbl_get (lock_elem_hash zo) id with
        | None => goto t PIdle zo
        | Some _ => goto t (PWatch e) (with_tles (delete c (z_tles zo)) zo)
        end).

Definition watcher_try z p t e zo : option (zk * s_zoo) :=
  el ← z_elems zo !! e;
  match el_callback el with
  | None => Some (z, goto t PIdle zo)
  | Some _ =>
      '(v, z, zo) ← try_lock z p e zo;
      Some (z, goto t match v with Some v => PWGot e v | None => PIdle end zo)
  end.

(** [None]: the element is freed, or its callback was called meanwhile and is null *)
Definition watcher_check t e v zo : option s_zoo :=
  el ← z_elems zo !! e;
  if is_min v el then
    cb ← el_callback el;
    Some (goto t (PCall cb (el_d el) e) (with_elems (<[e := set_callback None el]> (z_elems zo)) zo))
  else Some (goto t PIdle zo).

(** ** [s_zoo_unlock] *)
Definition s_zoo_unlock t e (k : option (Z * Z)) zo : option s_zoo :=
  el ← z_elems zo !! e;
  Some (goto t (PDelete e k) (with_buf (take 254 (child (el_parent_path el) (el_lock_path el))) zo)).

Definition unlock_delete z p t e k zo : zk * s_zoo :=
  let '(_, z) := zoo_delete z p (z_buf zo) in (z, goto t (PFree e k) zo).

Definition set_elem_ptr (i : Z) (q : elem_ptr) (v : s_zoo_lock_vector) : option s_zoo_lock_vector :=
  es ← lv_lock_elems v;
  if bool_decide (0 <= i < Z.of_nat (length es))
  then Some (LockVector (lv_filenames v) (lv_size v) (lv_curr v) (lv_d v) (Some (<[Z.to_nat i := q]> es)))
  else None.

Definition unlock_free t e (k : option (Z * Z)) zo : option s_zoo :=
  el ← z_elems zo !! e;
  let zo := with_hash (tbl_del (lock_elem_hash zo) (el_id el)) zo in
  let zo := with_elems (delete e (z_elems zo)) zo in
  match k with
  | None => Some (goto t PIdle zo)
  | Some (v, i) =>                                    (* v->lock_elems[i] = NULL *)
      vec ← z_vecs zo !! v;
      vec ← set_elem_ptr i ElNull vec;
      Some (goto t (PUnlockv v (i + 1)) (with_vecs (<[v := vec]> (z_vecs zo)) zo))
  end.

(** ** [s_zoo_lock_vector] *)
Definition s_zoo_lockv_create zo : Z * s_zoo := new_vec (LockVector [] 0 0 0 None) zo.

Definition s_zoo_lockv_add (v : Z) (filename : list Z) zo : option s_zoo :=
  vec ← z_vecs zo !! v;
  let size := if lv_size vec <=? lv_count vec then sint ((lv_size vec + 1) * 2) else lv_size vec in
  let vec := LockVector (lv_filenames vec ++ [filename]) size (lv_curr vec) (lv_d vec) (lv_lock_elems vec) in
  Some (with_vecs (<[v := vec]> (z_vecs zo)) zo).

(** [strdup] takes the names from [malloc]: [s_free] of one is undefined, as
    is [s_free] of what an uninitialised pointer points to *)
Definition s_zoo_lockv_free (v : Z) zo : option s_zoo :=
  vec ← z_vecs zo !! v;
  match lv_filenames vec with
  | _ :: _ => None
  | [] => Some (with_vecs (delete v (z_vecs zo)) zo)
  end.

Definition lockv_callback t (v e : Z) zo : option s_zoo :=
  vec ← z_vecs zo !! v;
  vec ← set_elem_ptr (lv_curr vec) (ElPtr e) vec;
  let vec := LockVector (lv_filenames vec) (lv_size vec) (lv_curr vec + 1) (lv_d vec) (lv_lock_elems vec) in
  let zo := with_vecs (<[v := vec]> (z_vecs zo)) zo in
  if lv_count vec <=? lv_curr vec then Some (goto t PIdle (calls (CalledLockv (lv_d vec) v) zo))
  else filename ← lv_filenames vec !! Z.to_nat (lv_curr vec); s_zoo_lock t filename CbLockv v zo.

Definition s_zoo_lockv t (v d : Z) zo : option s_zoo :=
  vec ← z_vecs zo !! v;
  match lv_filenames vec with
  | [] =>
      let vec := LockVector [] (lv_size vec) (lv_curr vec) d (lv_lock_elems vec) in
      Some (calls (CalledLockv d v) (with_vecs (<[v := vec]> (z_vecs zo)) zo))
  | filename :: _ =>
      let vec := LockVector (lv_filenames vec) (lv_size vec) 0 d
                   (Some (replicate (length (lv_filenames vec)) ElUndef)) in
      s_zoo_lock t filename CbLockv v (with_vecs (<[v := vec]> (z_vecs zo)) zo)
  end.

(** the loop of [s_zoo_unlockv], at [i] *)
Definition unlockv_next t (v i : Z) zo : option s_zoo :=
  vec ← z_vecs zo !! v;
  if lv_count vec <=? i then Some (goto t PIdle zo)
  else
    es ← lv_lock_elems vec;
    q ← es !! Z.to_nat i;
    match q with
    | ElUndef => None
    | ElNull => Some (goto t (PUnlockv v (i + 1)) zo)
    | ElPtr e => s_zoo_unlock t e (Some (v, i)) zo
    end.

(** ** A thread goes on *)
Definition thread_step z p t zo : option (zk * s_zoo) :=
  let local (o : option s_zoo) := zo ← o; Some (z, zo) in
  match pc_of zo t with
  | PIdle => Some (z, zo)
  | PParent path cb d => Some (lock_parent z p t path cb d zo)
  | PNode path cb d => lock_node z p t path cb d zo
  | PElem path lock_path cb d => lock_elem z p t path lock_path cb d zo
  | PGot e v cb d => local (lock_check t e v cb d zo)
  | PTle c => local (try_lock_watcher t c zo)
  | PWatch e => watcher_try z p t e zo
  | PWGot e v => local (watcher_check t e v zo)
  | PCall CbUser d e => Some (z, goto t PIdle (calls (CalledLock d e) zo))
  | PCall CbLockv d e => local (lockv_callback t d e zo)
  | PDelete e k => Some (unlock_delete z p t e k zo)
  | PFree e k => local (unlock_free t e k zo)
  | PUnlockv v i => local (unlockv_next t v i zo)
  end.

(** a thread that waits for [lock_m] does not *)
Definition blocked zo t : bool :=
  match pc_of zo t with
  | PIdle => true
  | PParent _ _ _ | PNode _ _ _ | PElem _ _ _ _ => bool_decide (z_lock_m zo ≠ None)
  | _ => false
  end.

(** ** What a program calls, with a thread that is not in one of these functions
    or in a callback, which they call last *)
Inductive call :=
| CLock (filename : list Z) (d : Z)
| CUnlock (e : Z)
| CLockvCreate
| CLockvAdd (v : Z) (filename : list Z)
| CLockv (v d : Z)
| CUnlockv (v : Z)
| CLockvFree (v : Z).

Definition call_step t (c : call) zo : option s_zoo :=
  match c with
  | CLock filename d => s_zoo_lock t filename CbUser d zo
  | CUnlock e => s_zoo_unlock t e None zo
  | CLockvCreate => Some (s_zoo_lockv_create zo).2
  | CLockvAdd v filename => s_zoo_lockv_add v filename zo
  | CLockv v d => s_zoo_lockv t v d zo
  | CUnlockv v => Some (goto t (PUnlockv v 0) zo)
  | CLockvFree v => s_zoo_lockv_free v zo
  end.

(** ** [s_zoo_init], connected *)
Definition zoo_empty : s_zoo := Zoo 1 (tbl_new 16) ∅ 0 ∅ 0 ∅ 0 [] None ∅ [] [].
Definition make_root z p (path : list Z) zo : zk * s_zoo :=
  let '(r, _, z) := zoo_create z p path [] in
  (z, if (r =? ZOK) || (r =? ZNODEEXISTS) then zo else prints [print_error r] zo).
Definition s_zoo_init z p : zk * s_zoo :=
  let '(z, zo) := make_root z p LOCK_ROOT zoo_empty in make_root z p SYNC_ROOT zo.

(** ** The processes and the service *)
Record zsys := Sys { sy_zk : zk; sy_procs : gmap Z s_zoo }.

(** the names that the programs lock, and which threads of a process unlock *)
Context (named : list Z → Prop) (unlocker : Z → Z → Prop).
Definition allowed p t (c : call) : Prop :=
  match c with
  | CLock filename _ | CLockvAdd _ filename => named filename
  | CUnlock _ | CUnlockv _ => unlocker p t
  | _ => True
  end.

(** [None]: undefined behaviour *)
Inductive zstep : zsys → option zsys → Prop :=
| zstep_init z ps p z' zo :
    ps !! p = None → s_zoo_init z p = (z', zo) → zstep (Sys z ps) (Some (Sys z' (<[p := zo]> ps)))
| zstep_thread z ps p t zo :
    ps !! p = Some zo → blocked zo t = false →
    zstep (Sys z ps) ('(z, zo) ← thread_step z p t zo; Some (Sys z (<[p := zo]> ps)))
| zstep_call z ps p t zo c :
    ps !! p = Some zo → pc_of zo t = PIdle → allowed p t c →
    zstep (Sys z ps) (zo ← call_step t c zo; Some (Sys z (<[p := zo]> ps)))
| zstep_event z ps p t zo c l :                            (* a thread of the library calls the watcher *)
    ps !! p = Some zo → pc_of zo t = PIdle → zk_events z p = c :: l →
    zstep (Sys z ps) (Some (Sys (zk_deliver z p) (<[p := goto t (PTle c) zo]> ps))).

(** what may be reached from a service without locks, with no undefined behaviour on the way *)
Definition zoo_start (s : zsys) : Prop :=
  sy_procs s = ∅ ∧ (∀ f, zk_children (sy_zk s) (child LOCK_ROOT f) = []) ∧ zk_watches (sy_zk s) = [] ∧
  (∀ p, zk_events (sy_zk s) p = []).
Definition zoo_reach (s : zsys) : Prop :=
  ∃ s0, zoo_start s0 ∧ rtc (λ s s', zstep s (Some s')) s0 s.

(** [p] has the lock of [filename] as element [e]: its callback was taken to
    be called, and [s_zoo_unlock] was not *)
Definition unlocking zo e : Prop := ∃ t k, pc_of zo t = PDelete e k ∨ pc_of zo t = PFree e k.
Definition granted zo e (filename : list Z) : Prop :=
  ∃ el, z_elems zo !! e = Some el ∧ el_callback el = None ∧ el_parent_path el = child LOCK_ROOT filename ∧
    ¬ unlocking zo e.
Definition waiting zo e (filename : list Z) : Prop :=
  ∃ el, z_elems zo !! e = Some el ∧ el_callback el ≠ None ∧ el_parent_path el = child LOCK_ROOT filename ∧
    ¬ unlocking zo e.
End zoo.
Arguments s_zoo : clear implicits.
Arguments zsys : clear implicits.

(** ** Names of sequential nodes *)
Section names.

Lemma digits_length n k : length (digits n k) = n.
Proof. revert k. induction n as [|n IH]; intros k; [done|]. cbn [digits]. rewrite length_app, IH. simpl. lia. Qed.

Lemma strcmp_app a b x y :
  length a = length b → strcmp (a ++ [x]) (b ++ [y]) = if strcmp a b =? 0 then x - y else strcmp a b.
Proof.
  revert b. induction a as [|c a IH]; intros [|d b] Hl; try done.
  - simpl. destruct (x =? y) eqn:E; zbool; lia.
  - simpl. destruct (c =? d) eqn:E; [apply IH; simpl in Hl; lia|]. zbool.
    by rewrite (proj2 (Z.eqb_neq (c - d) 0)) by lia.
Qed.

(** numbers of the same length are compared as their digits are *)
Lemma strcmp_digits n a b :
  0 <= a < 10 ^ Z.of_nat n → 0 <= b < 10 ^ Z.of_nat n →
  Z.sgn (strcmp (digits n a) (digits n b)) = Z.sgn (a - b).
Proof.
  revert a b. induction n as [|n IH]; intros a b Ha Hb.
  { simpl in Ha, Hb. cbn. replace (a - b) with 0 by lia. done. }
  cbn [digits]. rewrite strcmp_app by (by rewrite !digits_length).
  rewrite Nat2Z.inj_succ, Z.pow_succ_r in Ha, Hb by lia.
  pose proof (Z.div_mod a 10). pose proof (Z.div_mod b 10).
  pose proof (Z.mod_pos_bound a 10). pose proof (Z.mod_pos_bound b 10).
  specialize (IH (a / 10) (b / 10)). destruct (_ =? 0) eqn:E; zbool.
  - rewrite E in IH. simpl in IH. replace (a - b) with (48 + a mod 10 - (48 + b mod 10)); [done|].
    enough (a / 10 = b / 10) by lia. enough (Z.sgn (a / 10 - b / 10) = 0) by lia. symmetry. apply IH; lia.
  - rewrite IH by lia. enough (Z.sgn (a / 10 - b / 10) ≠ 0) by lia. rewrite <-IH by lia. lia.
Qed.

Lemma strcmp_seq a b : 0 <= a < 10 ^ 10 → 0 <= b < 10 ^ 10 →
  Z.sgn (strcmp (seq_name a) (seq_name b)) = Z.sgn (a - b).
Proof. apply (strcmp_digits 10). Qed.
Lemma seq_name_inj a b : 0 <= a < 10 ^ 10 → 0 <= b < 10 ^ 10 → seq_name a = seq_name b → a = b.
Proof.
  intros Ha Hb E. pose proof (strcmp_seq a b Ha Hb) as H. rewrite E in H.
  pose proof (strcmp_seq b b Hb Hb). lia.
Qed.
Lemma digits_range n k c : c ∈ digits n k → 48 <= c <= 57.
Proof.
  revert k. induction n as [|n IH]; intros k; [by intros ?%elem_of_nil|]. cbn [digits].
  intros [?|E%list_elem_of_singleton]%elem_of_app; [eauto|]. pose proof (Z.mod_pos_bound k 10). lia.
Qed.
Lemma seq_name_slash k : SLASH ∉ seq_name k.
Proof. intros H%digits_range. unfold SLASH in H. lia. Qed.
End names.
