(* ===== verification/ZooLock.v ===== *)
(** * The locks of [s_zookeeper.c]: one holder

    An invariant of the processes and the service: which of them has which
    sequential node ([owns]), that no two have the same, and that an element that
    is granted or about to be is the first child of its lock. *)

From stdpp Require Import strings.
From S2P Require Import Prelude SString SHashSpec Zoo.
Local Open Scope Z_scope.

(** The names for which the paths fit the buffers: with ten digits and two
    slashes the node's path is cut by [s_zoo_unlock] from 238 bytes on. *)
Definition good_name (f : list Z) : Prop := SLASH ∉ f ∧ (length f <= 237)%nat.
Definition lock_path (f : list Z) : list Z := child LOCK_ROOT f.
Definition is_seq (k : Z) : Prop := 0 <= k < 10 ^ 10.

(** ** Paths *)
Lemma child_inj q q' nm nm' : SLASH ∉ nm → SLASH ∉ nm' → child q nm = child q' nm' → q = q' ∧ nm = nm'.
Proof.
  unfold child. intros H H' E. apply (f_equal reverse) in E. rewrite !reverse_app, !reverse_cons, <-!app_assoc in E.
  assert (∀ a a' b b' : list Z, SLASH ∉ a → SLASH ∉ a' → a ++ [SLASH] ++ b = a' ++ [SLASH] ++ b' → a = a' ∧ b = b') as Ha.
  { clear. induction a as [|x a IH]; intros [|x' a'] b b' Ha Ha' E; simplify_list_eq.
    - done.
    - by destruct Ha'; left.
    - by destruct Ha; left.
    - destruct (IH a' b b') as [-> ->]; [set_solver..|done|done]. }
  destruct (Ha (reverse nm) (reverse nm') (reverse q) (reverse q')) as [E1 E2]; [by rewrite elem_of_reverse..|done|].
  split; by apply (inj reverse).
Qed.
Lemma lock_path_inj f f' : SLASH ∉ f → SLASH ∉ f' → lock_path f = lock_path f' → f = f'.
Proof. intros H H' E. by apply (child_inj _ _ f f' H H') in E as [_ ->]. Qed.
Lemma lock_path_not_root f : lock_path f ≠ LOCK_ROOT.
Proof. intros E%(f_equal length). unfold lock_path, child in E. rewrite length_app in E. simpl in E. lia. Qed.
Lemma lock_path_not_nil f : lock_path f ≠ [].
Proof. done. Qed.

(** the name of the node, out of the path that comes back *)
Lemma strrchr_child q nm : SLASH ∉ nm → c_strrchr (child q nm) SLASH = Some (SLASH :: nm).
Proof.
  intros Hn. assert (∀ l, SLASH ∉ l → c_strrchr l SLASH = None) as Hnone.
  { clear. induction l as [|x l IH]; intros Hl; [done|]. cbn [c_strrchr]. rewrite IH by set_solver.
    destruct (x =? SLASH) eqn:E; [|done]. zbool. subst. set_solver. }
  unfold child. induction q as [|x q IH]; cbn [app c_strrchr].
  - by rewrite Hnone.
  - by rewrite IH.
Qed.
Lemma node_length f k : length (child (lock_path f) (seq_name k)) = (length f + 17)%nat.
Proof. unfold lock_path, child, seq_name. rewrite !length_app. cbn [length]. rewrite digits_length. simpl. lia. Qed.
Lemma node_in_buffer f k : good_name f → c_strrchr (in_buffer (child (lock_path f) (seq_name k))) SLASH = Some (SLASH :: seq_name k).
Proof.
  intros [_ Hl]. unfold in_buffer. rewrite take_ge by (rewrite node_length; lia). apply strrchr_child, seq_name_slash.
Qed.

(** ** What the service does to the locks *)
Section service.
Context {zk : Type} `{HS : !ZkService zk} `{HZ : !ZkLaws zk}.
Implicit Types (z : zk) (f : list Z).

(** the children of a lock are sequential nodes *)
Definition zk_ok z : Prop :=
  ∀ f nm, good_name f → nm ∈ zk_children z (lock_path f) →
    ∃ k, nm = seq_name k ∧ is_seq k ∧ k < zk_counter z (lock_path f).

(** [gone]: the node that may have been deleted *)
Definition evolves z z' (gone : option path) : Prop :=
  ∀ f, good_name f →
    zk_counter z (lock_path f) <= zk_counter z' (lock_path f) ∧
    (∀ nm, nm ∈ zk_children z' (lock_path f) → nm ∈ zk_children z (lock_path f) ∨
      ∃ k, nm = seq_name k ∧ is_seq k ∧ zk_counter z (lock_path f) <= k < zk_counter z' (lock_path f)) ∧
    (∀ nm, nm ∈ zk_children z (lock_path f) → nm ∈ zk_children z' (lock_path f) ∨ gone = Some (child (lock_path f) nm)).

Lemma evolves_ok z z' gone : evolves z z' gone → zk_ok z → zk_ok z'.
Proof.
  intros He Ho f nm Hf Hn. destruct (He f Hf) as (Hc & Hnew & _). apply Hnew in Hn as [Hn|(k & -> & Hk & ? & ?)].
  - destruct (Ho f nm Hf Hn) as (k & -> & Hk & ?). exists k. split_and!; [done|done|lia].
  - by exists k.
Qed.

Lemma evolves_keeps z z' gone :
  (∀ q, zk_children z' q ≡ₚ zk_children z q ∧ zk_counter z q <= zk_counter z' q) → evolves z z' gone.
Proof.
  intros H f Hf. destruct (H (lock_path f)) as [Hc Hn]. split_and!; [done|..]; intros nm; rewrite Hc; eauto.
Qed.
Lemma evolves_refl z gone : evolves z z gone.
Proof. by apply evolves_keeps. Qed.
Lemma evolves_same z z' gone : zk_same z z' → evolves z z' gone.
Proof. intros [H _]. by apply evolves_keeps. Qed.
Lemma evolves_trans z z' z'' : evolves z z' None → evolves z' z'' None → evolves z z'' None.
Proof.
  intros H H' f Hf. destruct (H f Hf) as (Hc & Hn & Ho), (H' f Hf) as (Hc' & Hn' & Ho'). split_and!; [lia|..].
  - intros nm [Hm|(k & -> & ? & ? & ?)]%Hn'; [|right; exists k; split_and!; [done|done|lia..]].
    apply Hn in Hm as [?|(k & -> & ? & ? & ?)]; [by left|right; exists k; split_and!; [done|done|lia..]].
  - intros nm [Hm|?]%Ho; [by apply Ho'|by right].
Qed.

Lemma create_evolves z p q flags r created z' :
  q = LOCK_ROOT ∨ q = [] → (∀ nm, SLASH ∉ nm → zoo_create z p (child q nm) flags = (r, created, z') → evolves z z' None).
Proof using HZ.
  intros Hq nm Hs E. destruct (zoo_create_ok _ _ _ _ _ _ _ _ Hs E) as [_ [[_ H]|[_ H]]]; [|by apply evolves_same].
  destruct H as (_ & Hc & Hn & _). intros f Hf.
  assert (lock_path f ≠ q) as Hne by (destruct Hq as [->| ->]; [apply lock_path_not_root|done]).
  specialize (Hc _ Hne). split_and!; [done|..]; intros nm'; rewrite Hc; eauto.
Qed.

(** the next node of a lock *)
Lemma create_node z p f r created z' :
  good_name f → zoo_create z p (child (lock_path f) []) [ZOO_EPHEMERAL; ZOO_SEQUENCE] = (r, created, z') →
  evolves z z' None ∧
  let k := zk_counter z (lock_path f) in
  (r = ZOK → created = child (lock_path f) (seq_name k) ∧ is_seq k ∧
    seq_name k ∈ zk_children z' (lock_path f) ∧ k < zk_counter z' (lock_path f)).
Proof using HZ.
  intros Hf E. destruct (zoo_create_ok z p (lock_path f) [] [ZOO_EPHEMERAL; ZOO_SEQUENCE] r created z') as [Hr H]; [set_solver|done|].
  unfold new_name in *. change (has_flag ZOO_SEQUENCE [ZOO_EPHEMERAL; ZOO_SEQUENCE]) with true in *. cbn [app] in *. destruct H as [[Hk (Hc & Hq & Hn & Hlt & _)]|[Hne H]].
  2: { split; [by apply evolves_same|done]. }
  specialize (Hk eq_refl). split.
  - intros f' Hf'. destruct (decide (lock_path f' = lock_path f)) as [->|Hne].
    + split_and!; [apply Hn|..].
      * intros nm. rewrite Hc. intros [->|?]%elem_of_cons; [|by left]. right. eexists. split_and!; [done|done|lia|done].
      * intros nm Hm. left. rewrite Hc. by right.
    + specialize (Hq _ Hne). split_and!; [apply Hn|..]; intros nm; rewrite Hq; eauto.
  - intros HZOK. split_and!; [by apply Hr|done| |done]. rewrite Hc. by left.
Qed.

Lemma delete_evolves z p f k r z' :
  good_name f → zoo_delete z p (child (lock_path f) (seq_name k)) = (r, z') →
  evolves z z' (Some (child (lock_path f) (seq_name k))).
Proof using HZ.
  intros Hf E. apply zoo_delete_ok in E; [|apply seq_name_slash]. destruct E as [H|[_ H]]; [|by apply evolves_same].
  destruct H as (Hc & Hq & Hn & _). intros f' Hf'. destruct (decide (lock_path f' = lock_path f)) as [Hp|Hne].
  - rewrite Hp. split_and!; [apply Hn|..]; intros nm; rewrite Hc, list_elem_of_filter.
    + intros [_ ?]. by left.
    + intros Hm. destruct (decide (nm = seq_name k)) as [->|?]; [by right|by left].
  - specialize (Hq _ Hne). split_and!; [apply Hn|..]; intros nm; rewrite Hq; eauto.
Qed.

Lemma children_evolves z p q w r l z' : zoo_get_children z p q w = (r, l, z') → evolves z z' None.
Proof using HZ.
  intros E. apply zoo_get_children_ok in E as [_ H]. destruct w as [c|]; [|by apply evolves_same].
  destruct H as [[H _]|[_ H]]; [by apply evolves_keeps|by apply evolves_same].
Qed.
Lemma deliver_evolves z p c l : zk_events z p = c :: l → evolves z (zk_deliver z p) None.
Proof using HZ. intros [H _]%zk_deliver_ok. by apply evolves_keeps. Qed.
End service.

(** ** Who has which node *)
Definition is_node (q nm : list Z) : Prop := ∃ f k, good_name f ∧ is_seq k ∧ q = lock_path f ∧ nm = seq_name k.

Definition pc_wf (c : pc) : Prop :=
  match c with
  | PParent q _ _ | PNode q _ _ => ∃ f, good_name f ∧ q = lock_path f
  | PElem q nm _ _ => is_node q nm
  | _ => True
  end.
(** the children that a thread has in hand for an element *)
Definition view (c : pc) : option (Z * list (list Z)) :=
  match c with PGot e v _ _ | PWGot e v => Some (e, v) | _ => None end.

Section owners.
Context {zk TH : Type} `{HS : !ZkService zk}.
Implicit Types (z : zk) (zo : s_zoo TH) (el : s_zoo_lock_elem) (t e : Z) (q nm : list Z).

(** a thread that is to make the element, or the element *)
Inductive owns zo : Z + Z → list Z → list Z → Prop :=
| own_thread t q nm cb d : pc_of zo t = PElem q nm cb d → owns zo (inl t) q nm
| own_elem e el : z_elems zo !! e = Some el → owns zo (inr e) (el_parent_path el) (el_lock_path el).
(** it keeps the node *)
Definition live zo (o : Z + Z) : Prop := match o with inl _ => True | inr e => ¬ unlocking zo e end.

Record proc_wf zo : Prop := {
  wf_pc t : pc_wf (pc_of zo t);
  wf_elem e el : z_elems zo !! e = Some el → e < z_nelem zo ∧ is_node (el_parent_path el) (el_lock_path el);
  wf_view t e v : view (pc_of zo t) = Some (e, v) → e < z_nelem zo;
  wf_vec v vec : z_vecs zo !! v = Some vec → Forall good_name (lv_filenames vec)
}.

Lemma owns_node zo o q nm : proc_wf zo → owns zo o q nm → is_node q nm.
Proof.
  intros Hw Ho. destruct Ho as [t q nm cb d Hp|e el He].
  - pose proof (wf_pc _ Hw t) as H. by rewrite Hp in H.
  - by apply (wf_elem _ Hw) in He as [_ ?].
Qed.

(** no child of its lock comes before it *)
Definition el_first z el : Prop :=
  ∀ nm, nm ∈ zk_children z (el_parent_path el) → strcmp (el_lock_path el) nm <= 0.
(** its callback was taken, or is about to be *)
Definition grantable zo e el : Prop :=
  el_callback el = None ∨ ∃ t v, view (pc_of zo t) = Some (e, v) ∧ is_min v el = true.

(** the node was made, even if it is gone *)
Definition below z q nm : Prop := ∃ f k, good_name f ∧ is_seq k ∧ q = lock_path f ∧ nm = seq_name k ∧ k < zk_counter z q.

Definition proc_ok z zo : Prop :=
  proc_wf zo ∧
  (∀ o q nm, owns zo o q nm → below z q nm) ∧
  (∀ o q nm, owns zo o q nm → live zo o → nm ∈ zk_children z q) ∧
  (∀ e el, z_elems zo !! e = Some el → ¬ unlocking zo e → grantable zo e el → el_first z el).

Lemma el_first_evolves z z' gone el :
  zk_ok z → evolves z z' gone → is_node (el_parent_path el) (el_lock_path el) →
  el_lock_path el ∈ zk_children z (el_parent_path el) → el_first z el → el_first z' el.
Proof.
  intros Hz He (f & k & Hf & Hk & Hq & Hn) Hin Hfirst nm. rewrite Hq. intros Hnm.
  destruct (He f Hf) as (_ & Hnew & _). apply Hnew in Hnm as [Hnm|(k' & -> & Hk' & Hc & _)].
  { apply Hfirst. by rewrite Hq. }
  rewrite Hn. rewrite Hq, Hn in Hin. destruct (Hz f _ Hf Hin) as (k0 & E & Hk0 & Hlt).
  apply seq_name_inj in E as <-; [|done..]. pose proof (strcmp_seq k k' Hk Hk'). lia.
Qed.

Lemma below_evolves z z' gone q nm : evolves z z' gone → below z q nm → below z' q nm.
Proof.
  intros He (f & k & Hf & Hk & -> & -> & Hc). destruct (He f Hf) as [Hle _]. exists f, k. split_and!; [done..|lia].
Qed.

Lemma pc_of_goto t c zo t' : pc_of (goto t c zo) t' = if decide (t = t') then c else pc_of zo t'.
Proof.
  unfold pc_of. cbn. destruct (decide (t = t')) as [->|]; [by rewrite lookup_insert_eq|by rewrite lookup_insert_ne].
Qed.
Lemma unlocking_goto t c zo e :
  (∀ k, pc_of zo t ≠ PDelete e k ∧ pc_of zo t ≠ PFree e k) → unlocking zo e → unlocking (goto t c zo) e.
Proof.
  intros Hp (t' & k & H). exists t', k. rewrite !pc_of_goto. destruct (decide (t = t')) as [->|]; [|done].
  destruct (Hp k) as [? ?]. tauto.
Qed.
End owners.

(** ** The invariant *)
Section invariant.
Context {zk TH : Type} `{HS : !ZkService zk}.
Implicit Types (z : zk) (zo : s_zoo TH) (ps : gmap Z (s_zoo TH)) (el : s_zoo_lock_elem) (t p e : Z) (q nm : list Z).

Definition unowned ps q nm : Prop := ∀ p zo o, ps !! p = Some zo → owns zo o q nm → ¬ live zo o.
Definition unique ps : Prop := ∀ p p' zo zo' o o' q nm,
  ps !! p = Some zo → ps !! p' = Some zo' → owns zo o q nm → owns zo' o' q nm → p = p' ∧ o = o'.
(** what [zoo_delete] is called for is the node of an element that is unlocked *)
Definition buf_ok z ps : Prop := ∀ p zo t e k, ps !! p = Some zo → pc_of zo t = PDelete e k →
  ∃ f k, good_name f ∧ is_seq k ∧ z_buf zo = child (lock_path f) (seq_name k) ∧
    k < zk_counter z (lock_path f) ∧ unowned ps (lock_path f) (seq_name k).

Definition zoo_inv (s : zsys zk TH) : Prop :=
  zk_ok (sy_zk s) ∧ (∀ p zo, sy_procs s !! p = Some zo → proc_ok (sy_zk s) zo) ∧
  unique (sy_procs s) ∧ buf_ok (sy_zk s) (sy_procs s).

(** a node that did not exist *)
Definition fresh_node z z' q nm : Prop :=
  ∃ f k, good_name f ∧ is_seq k ∧ q = lock_path f ∧ nm = seq_name k ∧
    zk_counter z q <= k < zk_counter z' q ∧ nm ∈ zk_children z' q.

(** A process changes, and the service.  [m]: who had the node before. *)
Record moves z zo z' zo' (m : Z + Z → option (Z + Z)) : Prop := {
  mv_wf : proc_wf zo';
  mv_own o q nm : owns zo' o q nm →
    match m o with Some o' => owns zo o' q nm | None => fresh_node z z' q nm end;
  mv_inj o o' : m o = m o' → o = o';
  mv_live o q nm : owns zo' o q nm → live zo' o → match m o with Some o' => live zo o' | None => True end;
  mv_first e el : z_elems zo' !! e = Some el → ¬ unlocking zo' e → grantable zo' e el → el_first z' el;
  mv_buf t e k : pc_of zo' t = PDelete e k →
    z_buf zo' = z_buf zo ∧ (∃ t e k, pc_of zo t = PDelete e k) ∨
    ∃ e q nm, owns zo (inr e) q nm ∧ z_buf zo' = child q nm ∧ ∀ o, m o = Some (inr e) → ¬ live zo' o
}.
Definition gone_ok ps (gone : option path) : Prop := ∀ path, gone = Some path →
  ∃ f k, good_name f ∧ path = child (lock_path f) (seq_name k) ∧ unowned ps (lock_path f) (seq_name k).

Lemma owned_stays z z' ps gone p zo o q nm :
  zoo_inv (Sys z ps) → evolves z z' gone → gone_ok ps gone → ps !! p = Some zo → owns zo o q nm → live zo o →
  nm ∈ zk_children z' q.
Proof.
  intros (_ & Hp & _) He Hg Hzo Ho Hl. destruct (Hp _ _ Hzo) as (_ & Hb & Hin & _). pose proof (Hin _ _ _ Ho Hl) as Hn.
  destruct (Hb _ _ _ Ho) as (f & k & Hf & Hk & -> & -> & _). destruct (He f Hf) as (_ & _ & Hold).
  apply Hold in Hn as [?|E]; [done|]. destruct (Hg _ E) as (f' & k' & Hf' & Ep & Hu).
  apply child_inj in Ep as [Eq En]; [|apply seq_name_slash..]. rewrite Eq, En in Ho. destruct (Hu _ _ _ Hzo Ho Hl).
Qed.

Lemma fresh_unowned z z' ps q nm p zo o :
  zoo_inv (Sys z ps) → fresh_node z z' q nm → ps !! p = Some zo → ¬ owns zo o q nm.
Proof.
  intros (_ & Hp & _) (f & k & Hf & Hk & -> & -> & Hc & _) Hzo Ho. destruct (Hp _ _ Hzo) as (_ & Hb & _).
  destruct (Hb _ _ _ Ho) as (f' & k' & Hf' & Hk' & _ & E & Hlt). cbn in *. apply seq_name_inj in E; [subst; lia|done..].
Qed.

(** who has a node after the step had it before, or it is new *)
Lemma owns_before z z' zo zo' ps p m p' zp o q nm :
  moves z zo z' zo' m → ps !! p = Some zo → <[p := zo']> ps !! p' = Some zp → owns zp o q nm →
  (∃ zp0 o0, ps !! p' = Some zp0 ∧ owns zp0 o0 q nm ∧ (live zp o → live zp0 o0) ∧
    (if decide (p = p') then m o = Some o0 else o0 = o)) ∨
  p' = p ∧ m o = None ∧ fresh_node z z' q nm.
Proof.
  intros Hm Hzo Hzp Ho. destruct (decide (p = p')) as [<-|Hne].
  - rewrite lookup_insert_eq in Hzp. injection Hzp as <-. pose proof (mv_own _ _ _ _ _ Hm o q nm Ho) as H.
    pose proof (mv_live _ _ _ _ _ Hm o q nm Ho) as Hl.
    destruct (m o) as [o0|] eqn:Em; [left; by exists zo, o0|by right].
  - rewrite lookup_insert_ne in Hzp by done. left. by exists zp, o.
Qed.

Lemma unique_moves z z' ps gone p zo zo' m :
  zoo_inv (Sys z ps) → ps !! p = Some zo → evolves z z' gone → moves z zo z' zo' m → unique (<[p := zo']> ps).
Proof.
  intros Hi Hzo He Hm p1 p2 zp1 zp2 o1 o2 q nm H1 H2 O1 O2.
  destruct (owns_before _ _ _ _ _ _ _ _ _ _ _ _ Hm Hzo H1 O1) as [(z1 & o1' & L1 & P1 & _ & E1)|(-> & E1 & F1)],
    (owns_before _ _ _ _ _ _ _ _ _ _ _ _ Hm Hzo H2 O2) as [(z2 & o2' & L2 & P2 & _ & E2)|(-> & E2 & F2)].
  - destruct Hi as (_ & _ & Hu & _). destruct (Hu _ _ _ _ _ _ _ _ L1 L2 P1 P2) as [<- <-]. split; [done|].
    destruct (decide (p = p1)); [|congruence]. apply (mv_inj _ _ _ _ _ Hm). congruence.
  - destruct (fresh_unowned _ _ _ _ _ _ _ _ Hi F2 L1 P1).
  - destruct (fresh_unowned _ _ _ _ _ _ _ _ Hi F1 L2 P2).
  - split; [done|]. apply (mv_inj _ _ _ _ _ Hm). congruence.
Qed.

Lemma unowned_moves z z' ps p zo zo' m f i :
  ps !! p = Some zo → moves z zo z' zo' m → good_name f → is_seq i → i < zk_counter z (lock_path f) →
  unowned ps (lock_path f) (seq_name i) → unowned (<[p := zo']> ps) (lock_path f) (seq_name i).
Proof.
  intros Hzo Hm Hf Hs Hlt Hu p2 zp2 o2 H2 O2 Hl.
  destruct (owns_before _ _ _ _ _ _ _ _ _ _ _ _ Hm Hzo H2 O2) as [(z2 & o2' & L2 & P2 & Hl' & _)|(-> & _ & F)].
  - destruct (Hu _ _ _ L2 P2). by apply Hl'.
  - destruct F as (f' & k' & Hf' & Hk' & Eq & En & Hc & _). apply lock_path_inj in Eq as <-; [|apply Hf|apply Hf'].
    apply seq_name_inj in En as <-; [lia|done..].
Qed.

Lemma buf_moves z z' ps gone p zo zo' m :
  zoo_inv (Sys z ps) → ps !! p = Some zo → evolves z z' gone → moves z zo z' zo' m → buf_ok z' (<[p := zo']> ps).
Proof.
  intros Hi Hzo He Hm p1 zp t e k Hzp Hpc. pose proof Hi as (Hz & Hp & Hu & Hb). cbn in *.
  assert (∀ f i, good_name f → i < zk_counter z (lock_path f) → i < zk_counter z' (lock_path f)) as Hlt.
  { intros f i Hf Hi'. destruct (He f Hf) as [Hc _]. lia. }
  pose proof (λ f i, unowned_moves z z' ps p zo zo' m f i Hzo Hm) as Hun.
  destruct (decide (p = p1)) as [<-|Hne].
  2: { rewrite lookup_insert_ne in Hzp by done. destruct (Hb _ _ _ _ _ Hzp Hpc) as (f & i & Hf & Hk & Eb & Hc & Hun').
       exists f, i. split_and!; [done..|by apply Hlt|by apply Hun]. }
  rewrite lookup_insert_eq in Hzp. injection Hzp as <-.
  destruct (mv_buf _ _ _ _ _ Hm _ _ _ Hpc) as [[Eb (t' & e' & k' & Hpc')]|(e' & q & nm & Ho & Eb & Hno)].
  - destruct (Hb _ _ _ _ _ Hzo Hpc') as (f & i & Hf & Hk & Eb' & Hc & Hun'). exists f, i. rewrite Eb. split_and!; [done..|by apply Hlt|by apply Hun].
  - destruct (Hp _ _ Hzo) as (_ & Hbe & _). destruct (Hbe _ _ _ Ho) as (f & i & Hf & Hk & -> & -> & Hc).
    exists f, i. split_and!; [done..|by apply Hlt|]. intros p2 zp2 o2 H2 O2.
    destruct (owns_before _ _ _ _ _ _ _ _ _ _ _ _ Hm Hzo H2 O2) as [(z2 & o2' & L2 & P2 & _ & E2)|(-> & _ & F)].
    + destruct (Hu _ _ _ _ _ _ _ _ Hzo L2 Ho P2) as [<- <-]. rewrite decide_True in E2 by done.
      rewrite lookup_insert_eq in H2. injection H2 as <-. by apply Hno.
    + destruct (fresh_unowned _ _ _ _ _ _ _ _ Hi F Hzo Ho).
Qed.

(** The step of one process keeps the invariant. *)
Lemma inv_moves z z' ps gone p zo zo' m :
  zoo_inv (Sys z ps) → ps !! p = Some zo → evolves z z' gone → gone_ok ps gone → moves z zo z' zo' m →
  zoo_inv (Sys z' (<[p := zo']> ps)).
Proof.
  intros Hi Hzo He Hg Hm. pose proof Hi as (Hz & Hp & _). unfold zoo_inv. cbn in *.
  split_and!; [by eapply evolves_ok| |by eapply unique_moves|by eapply buf_moves].
  intros p1 zp Hzp. destruct (decide (p = p1)) as [<-|Hne].
  - rewrite lookup_insert_eq in Hzp. injection Hzp as <-. destruct (Hp _ _ Hzo) as (_ & Hb & _).
    split_and!; [apply Hm|..| apply (mv_first _ _ _ _ _ Hm)]; intros o q nm Ho;
      pose proof (mv_own _ _ _ _ _ Hm _ _ _ Ho) as H; pose proof (mv_live _ _ _ _ _ Hm _ _ _ Ho) as Hl;
      destruct (m o) as [o0|].
    + by apply (below_evolves z z' gone), (Hb o0).
    + destruct H as (f & k & ? & ? & -> & -> & ? & _). exists f, k. split_and!; [done..|lia].
    + intros Hl'. apply (owned_stays z z' ps gone p zo o0 q nm); auto.
    + by destruct H as (f & k & _ & _ & _ & _ & _ & ?).
  - rewrite lookup_insert_ne in Hzp by done. destruct (Hp _ _ Hzp) as (Hw & Hb & Hin & Hfi). split_and!; [done|..].
    + intros o q nm Ho. by apply (below_evolves z z' gone), (Hb o).
    + intros o q nm Ho Hl. by apply (owned_stays z z' ps gone p1 zp o q nm).
    + intros e el Hel Hnu Hgr. apply (el_first_evolves z z' gone); [done|done|by apply (wf_elem _ Hw _ _ Hel)| |by apply (Hfi e)].
      by apply (Hin (inr e)); [apply own_elem|].
Qed.
End invariant.

(** ** The first child *)
Definition seqs (v : list (list Z)) : Prop := ∀ nm, nm ∈ v → ∃ k, nm = seq_name k ∧ is_seq k.

Lemma strcmp_seq_le a b : is_seq a → is_seq b → strcmp (seq_name a) (seq_name b) <= 0 ↔ a <= b.
Proof. intros Ha Hb. pose proof (strcmp_seq a b Ha Hb). lia. Qed.

Lemma min_str_from m v :
  is_seq m → seqs v →
  ∃ k, is_seq k ∧ foldl (λ m str, match m with
                  | None => Some str
                  | Some m => if 0 <? strcmp m str then Some str else Some m
                  end) (Some (seq_name m)) v = Some (seq_name k) ∧
    (k = m ∨ seq_name k ∈ v) ∧ k <= m ∧ ∀ i, is_seq i → seq_name i ∈ v → k <= i.
Proof.
  revert m. induction v as [|str v IH]; intros m Hm Hv.
  { exists m. split_and!; [done|done|by left|lia|]. by intros i _ ?%elem_of_nil. }
  destruct (Hv str) as (s & -> & Hs); [by left|]. cbn [foldl].
  assert (seqs v) as Hv' by (intros nm ?; apply Hv; by right).
  pose proof (strcmp_seq m s Hm Hs) as Hc. destruct (0 <? _) eqn:E; zbool.
  - destruct (IH s Hs Hv') as (k & Hk & -> & Hin & Hle & Hall). exists k.
    split_and!; [done|done|right; destruct Hin as [->|]; [by left|by right]|lia|].
    intros i Hi [E'|?]%elem_of_cons; [apply seq_name_inj in E' as ->; done|by apply Hall].
  - destruct (IH m Hm Hv') as (k & Hk & -> & Hin & Hle & Hall). exists k.
    split_and!; [done|done|destruct Hin as [->|]; [by left|right; by right]|lia|].
    intros i Hi [E'|?]%elem_of_cons; [apply seq_name_inj in E' as ->; [lia|done..]|by apply Hall].
Qed.

(** [try_lock] says whether the element's node is the first. *)
Lemma is_min_spec v el k :
  seqs v → el_lock_path el = seq_name k → is_seq k → el_lock_path el ∈ v →
  is_min v el = true ↔ ∀ nm, nm ∈ v → strcmp (el_lock_path el) nm <= 0.
Proof.
  intros Hv He Hk Hin. unfold is_min, min_str. destruct v as [|str v]; [by apply elem_of_nil in Hin|].
  destruct (Hv str) as (s & -> & Hs); [by left|]. cbn [foldl].
  destruct (min_str_from s v) as (m & Hm & -> & Hmin & Hle & Hall); [done|intros nm ?; apply Hv; by right|].
  rewrite He in *. rewrite Z.eqb_eq. pose proof (strcmp_seq m k Hm Hk) as Hmk.
  assert (∀ i, is_seq i → seq_name i ∈ seq_name s :: v → m <= i) as Hall'.
  { intros i Hi [E|?]%elem_of_cons; [apply seq_name_inj in E as ->; done|by apply Hall]. }
  split.
  - intros E nm Hnm. destruct (Hv nm Hnm) as (i & -> & Hi). apply strcmp_seq_le; [done..|]. specialize (Hall' i Hi Hnm). lia.
  - intros H. assert (k <= m); [|specialize (Hall' k Hk Hin); replace m with k by lia].
    + apply strcmp_seq_le; [done..|]. apply H. destruct Hmin as [->|]; [by left|by right].
    + pose proof (strcmp_seq k k Hk Hk). lia.
Qed.

(** ** The steps of a process *)
Section moves.
Context {zk TH : Type} `{HS : !ZkService zk} `{HZ : !ZkLaws zk}.
Implicit Types (z : zk) (zo : s_zoo TH) (el : s_zoo_lock_elem) (t p e : Z) (q nm : list Z).

Definition neutral (c : pc) : Prop :=
  match c with PElem _ _ _ _ | PDelete _ _ | PFree _ _ => False | _ => True end.

(** the elements are the same but for their callbacks *)
Definition same_elems zo zo' : Prop :=
  ∀ e el', z_elems zo' !! e = Some el' → ∃ el, z_elems zo !! e = Some el ∧ el' = set_callback (el_callback el') el.

Lemma same_elems_refl zo zo' : z_elems zo' = z_elems zo → same_elems zo zo'.
Proof. intros E e el' He. rewrite E in He. exists el'. split; [done|by destruct el']. Qed.
Lemma same_elems_callback zo zo' e el cb :
  z_elems zo !! e = Some el → z_elems zo' = <[e := set_callback cb el]> (z_elems zo) → same_elems zo zo'.
Proof.
  intros He E e' el' He'. rewrite E in He'. destruct (decide (e = e')) as [<-|Hne].
  - rewrite lookup_insert_eq in He'. injection He' as <-. by exists el.
  - rewrite lookup_insert_ne in He' by done. exists el'. split; [done|by destruct el'].
Qed.

Lemma moves_plain z z' gone zo zo' t :
  proc_ok z zo → zk_ok z → evolves z z' gone →
  (∀ t', t' ≠ t → pc_of zo' t' = pc_of zo t') →
  neutral (pc_of zo t) → neutral (pc_of zo' t) → pc_wf (pc_of zo' t) →
  (∀ e v, view (pc_of zo' t) = Some (e, v) → is_Some (z_elems zo !! e)) →
  same_elems zo zo' → z_nelem zo <= z_nelem zo' → z_buf zo' = z_buf zo →
  (∀ v vec, z_vecs zo' !! v = Some vec → Forall good_name (lv_filenames vec)) →
  (∀ e el el', z_elems zo !! e = Some el → z_elems zo' !! e = Some el' → ¬ unlocking zo e →
    el_callback el' = None ∨ (∃ v, view (pc_of zo' t) = Some (e, v) ∧ is_min v el' = true) →
    grantable zo e el ∨ el_first z el) →
  moves z zo z' zo' Some.
Proof.
  intros (Hw & Hb & Hin & Hfi) Hz He Hpc Hn Hn' Hpw Hvi Hel Hne Hbuf Hv Hg.
  assert (∀ e, unlocking zo e → unlocking zo' e) as Hul.
  { intros e (t' & k & H). exists t', k. rewrite Hpc; [done|]. intros ->. by destruct H as [H|H]; rewrite H in Hn. }
  split.
  - split; [|intros e el' He'| |done].
    + intros t'. destruct (decide (t' = t)) as [->|?]; [done|]. rewrite Hpc by done. apply Hw.
    + destruct (Hel _ _ He') as (el & He0 & ->). apply (wf_elem _ Hw) in He0 as [??]. split; [lia|done].
    + intros t' e v Hvw. destruct (decide (t' = t)) as [->|?].
      * destruct (Hvi _ _ Hvw) as [el He0]. apply (wf_elem _ Hw) in He0 as [? _]. lia.
      * rewrite Hpc in Hvw by done. apply (wf_view _ Hw) in Hvw. lia.
  - intros o q nm Ho. destruct Ho as [t' q nm cb d Hp|e el' He'].
    + assert (t' ≠ t) by (intros ->; by rewrite Hp in Hn'). rewrite Hpc in Hp by done. by eapply own_thread.
    + destruct (Hel _ _ He') as (el & He0 & ->). exact (own_elem zo e el He0).
  - by intros o o' [= ->].
  - intros [t'|e] q nm Ho Hl; [done|]. cbn in *. auto.
  - intros e el' He' Hu Hgr. destruct (Hel _ _ He') as (el & He0 & E).
    assert (¬ unlocking zo e) as Hu' by auto.
    assert (el_first z el) as Hfirst.
    { enough (grantable zo e el ∨ el_first z el) as [?|?]; [by apply (Hfi e)|done|].
      destruct Hgr as [?|(t' & v & Hvw & Hm)]; [apply (Hg e el el'); auto|].
      destruct (decide (t' = t)) as [->|Ht]; [apply (Hg e el el'); eauto|].
      rewrite Hpc in Hvw by done. left. right. exists t', v. split; [done|]. by rewrite E in Hm. }
    rewrite E. apply (el_first_evolves z z' gone el); [done|done|by apply (wf_elem _ Hw e)| |done].
    by apply (Hin (inr e)); [apply own_elem|].
  - intros t' e k Hp. left. split; [done|]. assert (t' ≠ t) by (intros ->; by rewrite Hp in Hn').
    rewrite Hpc in Hp by done. eauto.
Qed.

(** the common case: only where the thread is changes, and what is not looked at here *)
Lemma moves_goto z z' gone zo zo' t c :
  proc_ok z zo → zk_ok z → evolves z z' gone → neutral (pc_of zo t) → neutral c → pc_wf c → view c = None →
  z_elems zo' = z_elems zo → z_nelem zo' = z_nelem zo → z_buf zo' = z_buf zo → z_threads zo' = z_threads zo →
  (∀ v vec, z_vecs zo' !! v = Some vec → Forall good_name (lv_filenames vec)) →
  moves z zo z' (goto t c zo') Some.
Proof.
  intros Hp Hz He Hn Hc Hw Hvw Eel Ene Ebuf Eth Hv.
  assert (∀ t', pc_of (goto t c zo') t' = if decide (t = t') then c else pc_of zo t') as Hpc.
  { intros t'. rewrite pc_of_goto. unfold pc_of. by rewrite Eth. }
  apply (moves_plain z z' gone zo (goto t c zo') t); try done.
  - intros t' Ht. rewrite Hpc. by rewrite decide_False.
  - rewrite Hpc. by rewrite decide_True.
  - rewrite Hpc. by rewrite decide_True.
  - rewrite Hpc, decide_True, Hvw; done.
  - by apply same_elems_refl.
  - cbn. lia.
  - intros e el el' He0 He' Hu [Hcb|(v & Hview & _)].
    + cbn in He'. rewrite Eel, He0 in He'. injection He' as <-. left. by left.
    + rewrite Hpc, decide_True, Hvw in Hview by done. done.
Qed.

(** the element is about to be called *)
Lemma moves_call z z' gone zo zo' t e el v cb d :
  proc_ok z zo → zk_ok z → evolves z z' gone → view (pc_of zo t) = Some (e, v) → is_min v el = true →
  z_elems zo !! e = Some el →
  z_elems zo' = <[e := set_callback None el]> (z_elems zo) → z_nelem zo' = z_nelem zo → z_buf zo' = z_buf zo →
  z_threads zo' = z_threads zo → z_vecs zo' = z_vecs zo →
  moves z zo z' (goto t (PCall cb d e) zo') Some.
Proof.
  intros Hp Hz He Hvw Hm Hel Eel Ene Ebuf Eth Ev.
  assert (∀ t', pc_of (goto t (PCall cb d e) zo') t' = if decide (t = t') then PCall cb d e else pc_of zo t') as Hpc.
  { intros t'. rewrite pc_of_goto. unfold pc_of. by rewrite Eth. }
  apply (moves_plain z z' gone zo (goto t (PCall cb d e) zo') t); try done.
  - intros t' Ht. rewrite Hpc. by rewrite decide_False.
  - by destruct (pc_of zo t).
  - rewrite Hpc. by rewrite decide_True.
  - rewrite Hpc. by rewrite decide_True.
  - rewrite Hpc, decide_True; done.
  - by eapply same_elems_callback.
  - cbn. lia.
  - cbn. rewrite Ev. apply Hp.
  - intros e' el0 el' He0 He' Hu [Hcb|(v' & Hview & _)].
    2: { by rewrite Hpc, decide_True in Hview by done. }
    left. cbn in He'. rewrite Eel in He'. destruct (decide (e = e')) as [<-|Hne].
    + rewrite Hel in He0. injection He0 as <-. right. by exists t, v.
    + rewrite lookup_insert_ne, He0 in He' by done. injection He' as <-. by left.
Qed.

Lemma try_lock_spec z p e zo v z' zo' :
  try_lock z p e zo = Some (v, z', zo') →
  ∃ el, z_elems zo !! e = Some el ∧ evolves z z' None ∧
    z_elems zo' = z_elems zo ∧ z_nelem zo' = z_nelem zo ∧ z_buf zo' = z_buf zo ∧
    z_threads zo' = z_threads zo ∧ z_vecs zo' = z_vecs zo ∧
    ∀ l, v = Some l → ∃ w, zoo_get_children z p (el_parent_path el) w = (ZOK, l, z').
Proof using HZ.
  unfold try_lock, new_tle. destruct (z_elems zo !! e) as [el|]; [|done]. cbn.
  destruct (zoo_get_children _ _ _ _) as [[r l] z1] eqn:E. intros Ht. exists el. split; [done|].
  assert (evolves z z1 None) as He by (by eapply children_evolves).
  destruct (r =? ZOK) eqn:Er; injection Ht as <- <- <-; split_and!; try done.
  zbool. subst r. intros l' [= <-]. eauto.
Qed.

Lemma children_first z z' p w v el :
  zk_ok z → zoo_get_children z p (el_parent_path el) w = (ZOK, v, z') →
  is_node (el_parent_path el) (el_lock_path el) → el_lock_path el ∈ zk_children z (el_parent_path el) →
  is_min v el = true ↔ el_first z el.
Proof using HZ.
  intros Hz E (f & k & Hf & Hk & Hq & Hn) Hin. apply zoo_get_children_ok in E as [Hv _]. specialize (Hv eq_refl).
  rewrite (is_min_spec v el k); [|rewrite Hq in *|done|done|by rewrite Hv].
  - unfold el_first. by setoid_rewrite Hv.
  - intros nm. rewrite Hv. intros Hm. destruct (Hz f nm Hf Hm) as (k' & -> & Hk' & _). by exists k'.
Qed.

Lemma moves_watch z z' zo zo' p t e v el w :
  proc_ok z zo → zk_ok z → evolves z z' None → neutral (pc_of zo t) →
  zoo_get_children z p (el_parent_path el) w = (ZOK, v, z') → z_elems zo !! e = Some el →
  z_elems zo' = z_elems zo → z_nelem zo' = z_nelem zo → z_buf zo' = z_buf zo →
  z_threads zo' = z_threads zo → z_vecs zo' = z_vecs zo →
  moves z zo z' (goto t (PWGot e v) zo') Some.
Proof using HZ.
  intros Hp Hz He Hne Hv Hel Eel Ene Ebuf Eth Ev. pose proof Hp as (Hw & _ & Hin & _).
  assert (∀ t', pc_of (goto t (PWGot e v) zo') t' = if decide (t = t') then PWGot e v else pc_of zo t') as Hpc.
  { intros t'. rewrite pc_of_goto. unfold pc_of. by rewrite Eth. }
  apply (moves_plain z z' None zo (goto t (PWGot e v) zo') t); try done.
  - intros t' Ht. rewrite Hpc. by rewrite decide_False.
  - rewrite Hpc. by rewrite decide_True.
  - rewrite Hpc. by rewrite decide_True.
  - rewrite Hpc, decide_True by done. intros e' v' [= <- <-]. eauto.
  - by apply same_elems_refl.
  - cbn. lia.
  - cbn. rewrite Ev. apply Hp.
  - intros e' el0 el' He0 He' Hu Hg. cbn in He'. rewrite Eel, He0 in He'. injection He' as <-.
    destruct Hg as [Hcb|(v' & Hview & Hm)]; [left; by left|]. right.
    rewrite Hpc, decide_True in Hview by done. cbn in Hview. injection Hview as <- <-.
    rewrite Hel in He0. injection He0 as <-. apply (children_first z z' p w v); [done|done|by apply (wf_elem _ Hw e)| |done].
    by apply (Hin (inr e)); [apply own_elem|].
Qed.

(** 3.: the node is made *)
Lemma moves_node z z' zo t q nm cb d :
  proc_ok z zo → zk_ok z → evolves z z' None → neutral (pc_of zo t) → fresh_node z z' q nm →
  moves z zo z' (goto t (PElem q nm cb d) zo) (λ o, if decide (o = inl t) then None else Some o).
Proof.
  intros Hp Hz He Hne Hf. pose proof Hp as (Hw & _ & Hin & Hfi).
  assert (∀ e, unlocking zo e ↔ unlocking (goto t (PElem q nm cb d) zo) e) as Hul.
  { intros e. split; intros (t' & k & H); exists t', k.
    - rewrite !pc_of_goto. destruct (decide (t = t')) as [<-|?]; [|done]. by destruct H as [H|H]; rewrite H in Hne.
    - rewrite !pc_of_goto in H. destruct (decide (t = t')) as [<-|?]; [by destruct H|done]. }
  split.
  - split; [|apply Hw|intros t' e v; rewrite pc_of_goto; destruct (decide _); [done|apply (wf_view _ Hw)]|apply Hw]. intros t'. rewrite pc_of_goto. destruct (decide (t = t')) as [_|?]; [|apply Hw].
    destruct Hf as (f & k & ? & ? & -> & -> & _). by exists f, k.
  - intros o q' nm' Ho. destruct Ho as [t' q' nm' cb' d' Hpc|e el He'].
    + rewrite pc_of_goto in Hpc. destruct (decide (t = t')) as [<-|Hne'].
      * injection Hpc as <- <- _ _. by rewrite decide_True.
      * rewrite decide_False by congruence. by eapply own_thread.
    + rewrite decide_False by done. by apply own_elem.
  - intros o o'. destruct (decide (o = inl t)), (decide (o' = inl t)); congruence.
  - intros o q' nm' _ Hl. destruct (decide (o = inl t)); [done|]. destruct o as [t'|e]; [done|]. cbn in *. by rewrite Hul.
  - intros e el He' Hu Hg. apply (el_first_evolves z z' None el); [done|done|by apply (wf_elem _ Hw e)|..].
    + apply (Hin (inr e)); [by apply own_elem|]. cbn. by rewrite Hul.
    + apply (Hfi e el He'); [by rewrite Hul|]. destruct Hg as [?|(t' & v & Hv & Hm)]; [by left|].
      right. exists t', v. rewrite pc_of_goto in Hv. by destruct (decide (t = t')).
  - intros t' e k Hpc. rewrite pc_of_goto in Hpc. destruct (decide (t = t')); [done|]. left. split; [done|]. eauto.
Qed.

(** 4.: the node becomes the element's *)
Definition swap (t e : Z) (o : Z + Z) : option (Z + Z) :=
  Some (if decide (o = inl t) then inr e else if decide (o = inr e) then inl t else o).

Lemma moves_elem z z' zo zo' t q nm cb d c el :
  proc_ok z zo → zk_ok z → evolves z z' None → pc_of zo t = PElem q nm cb d →
  neutral c → pc_wf c →
  el_parent_path el = q → el_lock_path el = nm → el_callback el ≠ None →
  z_elems zo' = <[z_nelem zo := el]> (z_elems zo) → z_nelem zo' = z_nelem zo + 1 → z_buf zo' = z_buf zo →
  z_threads zo' = z_threads zo → z_vecs zo' = z_vecs zo →
  (∀ v, view c = Some (z_nelem zo, v) → is_min v el = true → el_first z el) →
  (∀ e v, view c = Some (e, v) → e = z_nelem zo) →
  moves z zo z' (goto t c zo') (swap t (z_nelem zo)).
Proof.
  intros Hp Hz He Hpc Hc Hcw Hq Hn Hcb Eel Ene Ebuf Eth Ev Hview Hve. pose proof Hp as (Hw & _ & Hin & Hfi).
  set (e0 := z_nelem zo) in *.
  assert (∀ t', pc_of (goto t c zo') t' = if decide (t = t') then c else pc_of zo t') as Hpc'.
  { intros t'. rewrite pc_of_goto. unfold pc_of. by rewrite Eth. }
  assert (∀ e, unlocking zo e → unlocking (goto t c zo') e) as Hul.
  { intros e (t' & k & H); exists t', k. rewrite !Hpc'. destruct (decide (t = t')) as [<-|?]; [|done].
    by destruct H as [H|H]; rewrite H in Hpc. }
  assert (z_elems zo !! e0 = None) as Hnew.
  { destruct (z_elems zo !! e0) as [el0|] eqn:E; [|done]. apply (wf_elem _ Hw) in E as [? _]. unfold e0 in *. lia. }
  assert (∀ e el', z_elems (goto t c zo') !! e = Some el' → e = e0 ∧ el' = el ∨ e ≠ e0 ∧ z_elems zo !! e = Some el') as Hels.
  { intros e el' H. cbn in H. rewrite Eel in H. destruct (decide (e = e0)) as [->|]; [left|right].
    - rewrite lookup_insert_eq in H. by injection H.
    - by rewrite lookup_insert_ne in H. }
  assert (pc_wf (PElem q nm cb d)) as Hnode by (rewrite <-Hpc; apply Hw). cbn in Hnode.
  split.
  - split.
    + intros t'. rewrite Hpc'. destruct (decide _); [done|apply Hw].
    + intros e el' H. change (z_nelem (goto t c zo')) with (z_nelem zo'). rewrite Ene.
      destruct (Hels _ _ H) as [[-> ->]|[? H']]; [split; [unfold e0; lia|by rewrite Hq, Hn]|].
      apply (wf_elem _ Hw) in H' as [? ?]. split; [lia|done].
    + intros t' e v H. change (z_nelem (goto t c zo')) with (z_nelem zo'). rewrite Ene.
      rewrite Hpc' in H. destruct (decide (t = t')) as [<-|?].
      * apply Hve in H as ->. unfold e0. lia.
      * apply (wf_view _ Hw) in H. lia.
    + cbn. rewrite Ev. apply Hw.
  - intros o q' nm' Ho. unfold swap. destruct Ho as [t' q' nm' cb' d' H|e el' H].
    + rewrite Hpc' in H. destruct (decide (t = t')) as [<-|?]; [by rewrite H in Hc|].
      rewrite decide_False, decide_False by congruence. by eapply own_thread.
    + rewrite decide_False by done. destruct (Hels _ _ H) as [[-> ->]|[? H']].
      * rewrite decide_True by done. rewrite Hq, Hn. by eapply own_thread.
      * rewrite decide_False by congruence. by apply own_elem.
  - unfold swap. intros o o' [= E]. repeat case_decide; congruence.
  - intros o q' nm' Ho Hl. unfold swap. destruct o as [t'|e].
    + destruct (decide (inl t' = inl t)) as [[= ->]|?]; [|by rewrite decide_False].
      inversion Ho as [? ? ? cb' d' H|]. rewrite Hpc', decide_True in H by done. by rewrite H in Hc.
    + rewrite decide_False by done. destruct (decide (inr e = inr e0)); [done|]. cbn in *. auto.
  - intros e el' H Hu Hg. assert (¬ unlocking zo e) as Hu' by auto.
    destruct (Hels _ _ H) as [[-> ->]|[Hne H']].
    + destruct Hg as [?|(t' & v & Hv & Hm)]; [done|]. rewrite Hpc' in Hv.
      destruct (decide (t = t')) as [<-|?].
      * apply (el_first_evolves z z' None el); [done|done|by rewrite Hq, Hn| |by apply (Hview v)].
        rewrite Hq, Hn. by apply (Hin (inl t)); [eapply own_thread|].
      * apply (wf_view _ Hw) in Hv. unfold e0 in Hv. lia.
    + apply (el_first_evolves z z' None el'); [done|done|by apply (wf_elem _ Hw e)|..].
      * by apply (Hin (inr e)); [apply own_elem|].
      * apply (Hfi e); [done|done|]. destruct Hg as [?|(t' & v & Hv & Hm)]; [by left|]. right.
        rewrite Hpc' in Hv. destruct (decide (t = t')) as [<-|?]; [by apply Hve in Hv|by exists t', v].
  - intros t' e k H. rewrite Hpc' in H. destruct (decide (t = t')) as [<-|?]; [by rewrite H in Hc|]. left.
    split; [done|eauto].
Qed.

(** a thread begins to unlock, or goes on with it *)
Lemma moves_unlock z z' gone zo zo' t e k c el :
  proc_ok z zo → zk_ok z → evolves z z' gone →
  c = PDelete e k ∧ neutral (pc_of zo t) ∧ z_buf zo' = child (el_parent_path el) (el_lock_path el) ∧
    z_elems zo !! e = Some el ∨
  c = PFree e k ∧ pc_of zo t = PDelete e k ∧ z_buf zo' = z_buf zo →
  z_elems zo' = z_elems zo → z_nelem zo' = z_nelem zo → z_threads zo' = z_threads zo → z_vecs zo' = z_vecs zo →
  moves z zo z' (goto t c zo') Some.
Proof.
  intros Hp Hz He Hc Eel Ene Eth Ev. pose proof Hp as (Hw & _ & Hin & Hfi).
  assert (∀ t', pc_of (goto t c zo') t' = if decide (t = t') then c else pc_of zo t') as Hpc.
  { intros t'. rewrite pc_of_goto. unfold pc_of. by rewrite Eth. }
  assert (∀ e, unlocking zo e → unlocking (goto t c zo') e) as Hul.
  { intros e' (t' & k' & H). destruct (decide (t = t')) as [<-|?].
    - destruct Hc as [(-> & Hn & _)|(-> & Hd & _)]; [by destruct H as [H|H]; rewrite H in Hn|].
      exists t, k. rewrite Hpc, decide_True by done. destruct H as [H|H]; rewrite Hd in H; by simplify_eq; right.
    - exists t', k'. by rewrite Hpc, decide_False. }
  assert (view c = None ∧ pc_wf c) as [Hvc Hwc] by (by destruct Hc as [(-> & _)|(-> & _)]).
  split.
  - split; cbn [goto z_elems z_nelem z_vecs]; rewrite ?Eel, ?Ene, ?Ev; [| |intros t' e' v|]; try apply Hw;
      [intros t'|]; rewrite Hpc; case_decide; [done|apply Hw|by rewrite Hvc|apply Hw].
  - intros o q nm Ho. destruct Ho as [t' q nm cb d H|e' el' H].
    + rewrite Hpc in H. case_decide; [by destruct Hc as [(-> & _)|(-> & _)]|by eapply own_thread].
    + cbn in H. rewrite Eel in H. by apply own_elem.
  - by intros o o' [= ->].
  - intros [t'|e'] q nm _ Hl; [done|]. cbn in *. auto.
  - intros e' el' H Hu Hg. cbn in H. rewrite Eel in H. apply (el_first_evolves z z' gone); [done|done|by apply (wf_elem _ Hw e')|..].
    + apply (Hin (inr e')); [by apply own_elem|]. cbn. auto.
    + apply (Hfi e' el' H); [auto|]. destruct Hg as [?|(t' & v & Hv & Hm)]; [by left|].
      right. exists t', v. rewrite Hpc in Hv. case_decide; [by rewrite Hvc in Hv|done].
  - intros t' e' k' H. change (z_buf (goto t c zo')) with (z_buf zo'). rewrite Hpc in H.
    destruct Hc as [(-> & Hn & Hbuf & Hel)|(-> & Hd & Hbuf)].
    + right. exists e, (el_parent_path el), (el_lock_path el). split; [by apply own_elem|]. split; [done|].
      intros o [= ->] Hl. apply Hl. exists t, k. rewrite Hpc, decide_True by done. by left.
    + left. split; [done|]. case_decide; [done|eauto].
Qed.

(** the element is freed *)
Lemma moves_free z z' gone zo zo' t e k c :
  proc_ok z zo → zk_ok z → evolves z z' gone → pc_of zo t = PFree e k → neutral c → pc_wf c → view c = None →
  z_elems zo' = delete e (z_elems zo) → z_nelem zo' = z_nelem zo → z_threads zo' = z_threads zo →
  z_buf zo' = z_buf zo → (∀ v vec, z_vecs zo' !! v = Some vec → Forall good_name (lv_filenames vec)) →
  moves z zo z' (goto t c zo') Some.
Proof.
  intros Hp Hz He Ht Hn Hwc Hvc Eel Ene Eth Ebuf Hv. pose proof Hp as (Hw & _ & Hin & Hfi).
  assert (∀ t', pc_of (goto t c zo') t' = if decide (t = t') then c else pc_of zo t') as Hpc.
  { intros t'. rewrite pc_of_goto. unfold pc_of. by rewrite Eth. }
  assert (∀ e', e' ≠ e → unlocking zo e' → unlocking (goto t c zo') e') as Hul.
  { intros e' Hne (t' & k' & H). exists t', k'. rewrite Hpc. case_decide; [|done]. subst t'.
    rewrite Ht in H. destruct H as [H|H]; congruence. }
  assert (∀ e' el', z_elems (goto t c zo') !! e' = Some el' → e' ≠ e ∧ z_elems zo !! e' = Some el') as Hels.
  { intros e' el' H. cbn in H. rewrite Eel in H. by apply lookup_delete_Some in H as [? ?]. }
  split.
  - split; [| |intros t' e' v|done].
    + intros t'. rewrite Hpc. case_decide; [done|apply Hw].
    + intros e' el' H. cbn [goto z_nelem]. rewrite Ene. apply Hels in H as [_ H]. by apply (wf_elem _ Hw).
    + rewrite Hpc. cbn [goto z_nelem]. rewrite Ene. case_decide; [by rewrite Hvc|apply (wf_view _ Hw)].
  - intros o q nm Ho. destruct Ho as [t' q nm cb d H|e' el' H].
    + rewrite Hpc in H. case_decide; [by rewrite H in Hn|by eapply own_thread].
    + apply Hels in H as [_ H]. by apply own_elem.
  - by intros o o' [= ->].
  - intros [t'|e'] q nm Ho Hl; [done|]. cbn in *. inversion Ho as [|? el' H]. apply Hels in H as [? _]. auto.
  - intros e' el' H Hu Hg. apply Hels in H as [Hne H].
    apply (el_first_evolves z z' gone); [done|done|by apply (wf_elem _ Hw e')|..].
    + apply (Hin (inr e')); [by apply own_elem|]. cbn. auto.
    + apply (Hfi e' el' H); [auto|]. destruct Hg as [?|(t' & v & Hvw & Hm)]; [by left|].
      right. exists t', v. rewrite Hpc in Hvw. case_decide; [by rewrite Hvc in Hvw|done].
  - intros t' e' k' H. rewrite Hpc in H. left. cbn. split; [done|]. case_decide; [by rewrite H in Hn|eauto].
Qed.
End moves.

(** ** Every step keeps the invariant *)
Section steps.
Context {zk TH : Type} `{HS : !ZkService zk} `{HZ : !ZkLaws zk} `{HT : !Table Z Z TH}.
Implicit Types (z : zk) (zo : s_zoo TH) (ps : gmap Z (s_zoo TH)) (el : s_zoo_lock_elem) (t p e : Z).

Lemma no_gone ps : gone_ok ps None.
Proof. done. Qed.

Lemma inv_quiet z z' ps p zo zo' t c :
  zoo_inv (Sys z ps) → ps !! p = Some zo → evolves z z' None → neutral (pc_of zo t) → neutral c → pc_wf c → view c = None →
  z_elems zo' = z_elems zo → z_nelem zo' = z_nelem zo → z_buf zo' = z_buf zo → z_threads zo' = z_threads zo →
  (∀ v vec, z_vecs zo' !! v = Some vec → Forall good_name (lv_filenames vec)) →
  zoo_inv (Sys z' (<[p := goto t c zo']> ps)).
Proof.
  intros Hi Hzo He Hn Hc Hw Hv E1 E2 E3 E4 Hvec. pose proof Hi as (Hz & Hp & _).
  apply (inv_moves z z' ps None p zo _ Some); [done..|]. by apply (moves_goto z z' None zo zo'); [exact (Hp _ _ Hzo)|..].
Qed.

Lemma s_zoo_lock_inv t f cb d zo zo' :
  s_zoo_lock t f cb d zo = Some zo' → zo' = goto t (PParent (lock_path f) cb d) zo.
Proof. unfold s_zoo_lock. case_match; [done|]. by intros [= <-]. Qed.

Lemma lock_parent_inv z ps p t zo q cb d :
  zoo_inv (Sys z ps) → ps !! p = Some zo → pc_of zo t = PParent q cb d →
  let '(z', zo') := lock_parent z p t q cb d zo in zoo_inv (Sys z' (<[p := zo']> ps)).
Proof using HZ.
  intros Hi Hzo Hpc. pose proof Hi as (_ & Hp & _). destruct (Hp _ _ Hzo) as (Hw & _).
  pose proof (wf_pc _ Hw t) as Hq. rewrite Hpc in Hq. destruct Hq as (f & Hf & ->).
  unfold lock_parent. destruct (zoo_create _ _ _ _) as [[r created] z'] eqn:E.
  assert (evolves z z' None) as He by (eapply create_evolves; [by left| |exact E]; apply Hf).
  destruct ((r =? ZOK) || (r =? ZNODEEXISTS)); apply (inv_quiet z z' ps p zo _ t); try done;
    [by rewrite Hpc|by exists f|apply Hw|by rewrite Hpc|apply Hw].
Qed.

Lemma lock_node_inv z ps p t zo q cb d z' zo' :
  zoo_inv (Sys z ps) → ps !! p = Some zo → pc_of zo t = PNode q cb d → lock_node z p t q cb d zo = Some (z', zo') →
  zoo_inv (Sys z' (<[p := zo']> ps)).
Proof using HZ.
  intros Hi Hzo Hpc Hs. pose proof Hi as (Hz & Hp & _). destruct (Hp _ _ Hzo) as (Hw & _).
  pose proof (wf_pc _ Hw t) as Hq. rewrite Hpc in Hq. destruct Hq as (f & Hf & ->).
  unfold lock_node in Hs. destruct (zoo_create _ _ _ _) as [[r created] z1] eqn:E.
  apply (create_node z p f) in E as [He Hok]; [|done]. destruct (r =? ZOK) eqn:Er; zbool.
  - destruct (Hok Er) as (-> & Hk & Hin & Hlt). rewrite node_in_buffer in Hs by done.
    injection Hs as <- <-. apply (inv_moves z z1 ps None p zo _ (λ o, if decide (o = inl t) then None else Some o)); [done..|].
    apply moves_node; [exact (Hp _ _ Hzo)|done|done|by rewrite Hpc|]. cbn [tail].
    exists f, (zk_counter z (lock_path f)). split_and!; [done..|lia|done|done].
  - injection Hs as <- <-. apply (inv_quiet z z1 ps p zo _ t); try done; [by rewrite Hpc|apply Hw].
Qed.

Lemma lock_elem_inv z ps p t zo q nm cb d z' zo' :
  zoo_inv (Sys z ps) → ps !! p = Some zo → pc_of zo t = PElem q nm cb d →
  lock_elem z p t q nm cb d zo = Some (z', zo') → zoo_inv (Sys z' (<[p := zo']> ps)).
Proof using HZ.
  intros Hi Hzo Hpc Hs. pose proof Hi as (Hz & Hp & _). pose proof (Hp _ _ Hzo) as (Hw & _ & Hin & _).
  pose proof (wf_pc _ Hw t) as Hq. rewrite Hpc in Hq. cbn in Hq.
  unfold lock_elem, new_elem in Hs. cbn zeta in Hs.
  destruct (try_lock _ _ _ _) as [[[v z1] zo1]|] eqn:E; [|done]. injection Hs as <- <-.
  apply try_lock_spec in E as (el & Hel & He & E1 & E2 & E3 & E4 & E5 & Hv). cbn in Hel, E1, E2, E3, E4, E5.
  rewrite lookup_insert_eq in Hel. injection Hel as <-.
  apply (inv_moves z z1 ps None p zo _ (swap t (z_nelem zo))); [done..|].
  assert (∀ l, v = Some l → is_min l (Elem (Some cb) d q nm (lock_elem_id zo)) = true →
    el_first z (Elem (Some cb) d q nm (lock_elem_id zo))) as Hfirst.
  { intros l Hl Hm. destruct (Hv l Hl) as [w Hw']. eapply children_first; [done|exact Hw'|done| |done].
    by apply (Hin (inl t)); [eapply own_thread|]. }
  destruct v as [l|].
  - apply (moves_elem z z1 zo _ t q nm cb d (PGot (z_nelem zo) l cb d) (Elem (Some cb) d q nm (lock_elem_id zo)));
      try done; [exact (Hp _ _ Hzo)| |by intros ? ? [= <- <-]].
    intros l' [= <-]. by apply Hfirst.
  - by apply (moves_elem z z1 zo _ t q nm cb d PIdle (Elem (Some cb) d q nm (lock_elem_id zo))); try done; [exact (Hp _ _ Hzo)].
Qed.

Lemma check_inv z ps p t zo zo' e el v cb d :
  zoo_inv (Sys z ps) → ps !! p = Some zo → view (pc_of zo t) = Some (e, v) → z_elems zo !! e = Some el →
  is_min v el = true →
  z_elems zo' = <[e := set_callback None el]> (z_elems zo) → z_nelem zo' = z_nelem zo → z_buf zo' = z_buf zo →
  z_threads zo' = z_threads zo → z_vecs zo' = z_vecs zo →
  zoo_inv (Sys z (<[p := goto t (PCall cb d e) zo']> ps)).
Proof.
  intros Hi Hzo Hv Hel Hm E1 E2 E3 E4 E5. pose proof Hi as (Hz & Hp & _).
  apply (inv_moves z z ps None p zo _ Some); [done|done|apply evolves_refl|done|].
  by apply (moves_call z z None zo zo' t e el v); [exact (Hp _ _ Hzo)|done|apply evolves_refl|done..].
Qed.

Lemma vec_update v vec vec' zo :
  proc_wf zo → z_vecs zo !! v = Some vec → lv_filenames vec' = lv_filenames vec →
  ∀ v' vec0, <[v := vec']> (z_vecs zo) !! v' = Some vec0 → Forall good_name (lv_filenames vec0).
Proof.
  intros Hw Hv E v' vec0 H. destruct (decide (v = v')) as [<-|?].
  - rewrite lookup_insert_eq in H. injection H as <-. rewrite E. by apply (wf_vec _ Hw v).
  - rewrite lookup_insert_ne in H by done. by apply (wf_vec _ Hw v').
Qed.
Lemma set_elem_ptr_spec i q vec vec' :
  set_elem_ptr i q vec = Some vec' → lv_filenames vec' = lv_filenames vec ∧ lv_curr vec' = lv_curr vec.
Proof. unfold set_elem_ptr. destruct (lv_lock_elems vec); [|done]. cbn. case_match; [|done]. by intros [= <-]. Qed.

Lemma watcher_try_inv z ps p t e zo z' zo' :
  zoo_inv (Sys z ps) → ps !! p = Some zo → pc_of zo t = PWatch e → watcher_try z p t e zo = Some (z', zo') →
  zoo_inv (Sys z' (<[p := zo']> ps)).
Proof using HZ.
  intros Hi Hzo Hpc Hs. pose proof Hi as (Hz & Hp & _). pose proof (Hp _ _ Hzo) as (Hw & _).
  unfold watcher_try in Hs. destruct (z_elems zo !! e) as [el|] eqn:Hel; [|done]. cbn in Hs.
  destruct (el_callback el) as [cb|].
  - destruct (try_lock _ _ _ _) as [[[v z1] zo1]|] eqn:E; [|done]. injection Hs as <- <-.
    apply try_lock_spec in E as (el' & Hel' & He & E1 & E2 & E3 & E4 & E5 & Hv).
    rewrite Hel in Hel'. injection Hel' as <-. destruct v as [l|].
    + destruct (Hv l eq_refl) as [w Hw']. apply (inv_moves z z1 ps None p zo _ Some); [done..|].
      apply (moves_watch z z1 zo zo1 p t e l el w); try done; [exact (Hp _ _ Hzo)|by rewrite Hpc].
    + apply (inv_quiet z z1 ps p zo _ t); try done; [by rewrite Hpc|rewrite E5; apply Hw].
  - injection Hs as <- <-. apply (inv_quiet z z ps p zo _ t); try done; [apply evolves_refl|by rewrite Hpc|apply Hw].
Qed.

Lemma unlock_inv z ps p t e k zo zo' :
  zoo_inv (Sys z ps) → ps !! p = Some zo → neutral (pc_of zo t) → s_zoo_unlock t e k zo = Some zo' →
  zoo_inv (Sys z (<[p := zo']> ps)).
Proof.
  intros Hi Hzo Hn Hs. pose proof Hi as (Hz & Hp & _). pose proof (Hp _ _ Hzo) as (Hw & _).
  unfold s_zoo_unlock in Hs. destruct (z_elems zo !! e) as [el|] eqn:Hel; [|done]. injection Hs as <-.
  assert (take 254 (child (el_parent_path el) (el_lock_path el)) = child (el_parent_path el) (el_lock_path el)) as Ht.
  { pose proof (wf_elem _ Hw _ _ Hel) as [_ (f & i & Hf & _ & -> & ->)]. apply take_ge.
    rewrite node_length. destruct Hf as [_ ?]. lia. }
  rewrite Ht. apply (inv_moves z z ps None p zo _ Some); [done|done|apply evolves_refl|done|].
  apply (moves_unlock z z None zo _ t e k (PDelete e k) el); try done; [exact (Hp _ _ Hzo)|apply evolves_refl|by left].
Qed.

Lemma unlock_delete_inv z ps p t e k zo :
  zoo_inv (Sys z ps) → ps !! p = Some zo → pc_of zo t = PDelete e k →
  let '(z', zo') := unlock_delete z p t e k zo in zoo_inv (Sys z' (<[p := zo']> ps)).
Proof using HZ.
  intros Hi Hzo Hpc. pose proof Hi as (Hz & Hp & _ & Hb). unfold unlock_delete.
  destruct (Hb _ _ _ _ _ Hzo Hpc) as (f & i & Hf & Hk & Ebuf & _ & Hu). rewrite Ebuf.
  destruct (zoo_delete _ _ _) as [r z'] eqn:E. apply delete_evolves in E; [|done].
  apply (inv_moves z z' ps (Some (child (lock_path f) (seq_name i))) p zo _ Some); [done..| |].
  - intros q [= <-]. by exists f, i.
  - apply (moves_unlock z z' (Some (child (lock_path f) (seq_name i))) zo _ t e k (PFree e k) (Elem None 0 [] [] 0)); try done;
      [exact (Hp _ _ Hzo)|by right].
Qed.

Lemma unlock_free_inv z ps p t e k zo zo' :
  zoo_inv (Sys z ps) → ps !! p = Some zo → pc_of zo t = PFree e k → unlock_free t e k zo = Some zo' →
  zoo_inv (Sys z (<[p := zo']> ps)).
Proof.
  intros Hi Hzo Hpc Hs. pose proof Hi as (Hz & Hp & _). pose proof (Hp _ _ Hzo) as (Hw & _).
  unfold unlock_free in Hs. destruct (z_elems zo !! e) as [el|] eqn:Hel; [|done]. cbn in Hs.
  assert (∀ c zo1, neutral c → pc_wf c → view c = None → z_elems zo1 = delete e (z_elems zo) →
    z_nelem zo1 = z_nelem zo → z_threads zo1 = z_threads zo → z_buf zo1 = z_buf zo →
    (∀ v vec, z_vecs zo1 !! v = Some vec → Forall good_name (lv_filenames vec)) →
    zoo_inv (Sys z (<[p := goto t c zo1]> ps))) as Hgo.
  { intros c zo1 Hc1 Hc2 Hc3 E1 E2 E3 E4 Hv.
    apply (inv_moves z z ps None p zo _ Some); [done|done|apply evolves_refl|done|].
    by apply (moves_free z z None zo zo1 t e k c); [exact (Hp _ _ Hzo)|done|apply evolves_refl|..]. }
  destruct k as [[v i]|].
  - destruct (z_vecs zo !! v) as [vec|] eqn:Hv; [|done]. cbn in Hs.
    destruct (set_elem_ptr _ _ _) as [vec'|] eqn:Ev; [|done]. apply set_elem_ptr_spec in Ev as [Ev _].
    injection Hs as <-. apply Hgo; try done. by eapply vec_update.
  - injection Hs as <-. apply Hgo; try done. apply Hw.
Qed.

Lemma s_zoo_lock_sys z ps p t f cb d zo zo1 zo' :
  zoo_inv (Sys z ps) → ps !! p = Some zo → neutral (pc_of zo t) → good_name f →
  z_elems zo1 = z_elems zo → z_nelem zo1 = z_nelem zo → z_buf zo1 = z_buf zo → z_threads zo1 = z_threads zo →
  (∀ v vec, z_vecs zo1 !! v = Some vec → Forall good_name (lv_filenames vec)) →
  s_zoo_lock t f cb d zo1 = Some zo' → zoo_inv (Sys z (<[p := zo']> ps)).
Proof.
  intros Hi Hzo Hn Hf E1 E2 E3 E4 Hv Hs. apply s_zoo_lock_inv in Hs as ->.
  apply (inv_quiet z z ps p zo _ t); try done; [apply evolves_refl|by exists f].
Qed.

Lemma lockv_callback_inv z ps p t v e zo zo' :
  zoo_inv (Sys z ps) → ps !! p = Some zo → neutral (pc_of zo t) → lockv_callback t v e zo = Some zo' →
  zoo_inv (Sys z (<[p := zo']> ps)).
Proof.
  intros Hi Hzo Hn Hs. pose proof Hi as (Hz & Hp & _). pose proof (Hp _ _ Hzo) as (Hw & _).
  unfold lockv_callback in Hs. destruct (z_vecs zo !! v) as [vec|] eqn:Hv; [|done]. cbn in Hs.
  destruct (set_elem_ptr _ _ _) as [vec'|] eqn:Ev; [|done]. apply set_elem_ptr_spec in Ev as [Ev Ec]. cbn in Hs.
  case_match.
  - injection Hs as <-. apply (inv_quiet z z ps p zo _ t); try done; [apply evolves_refl|]. by eapply vec_update.
  - destruct (lv_filenames vec' !! _) as [f|] eqn:Ef; [|done]. cbn in Hs.
    eapply s_zoo_lock_sys; [done|done|done| |..|exact Hs]; try done; [|by eapply vec_update].
    rewrite Ev in Ef. pose proof (wf_vec _ Hw _ _ Hv) as Hall. rewrite Forall_lookup in Hall. by eapply Hall.
Qed.

Lemma unlockv_next_inv z ps p t v i zo zo' :
  zoo_inv (Sys z ps) → ps !! p = Some zo → neutral (pc_of zo t) → unlockv_next t v i zo = Some zo' →
  zoo_inv (Sys z (<[p := zo']> ps)).
Proof.
  intros Hi Hzo Hn Hs. pose proof Hi as (_ & Hp & _). pose proof (Hp _ _ Hzo) as (Hw & _).
  unfold unlockv_next in Hs. destruct (z_vecs zo !! v) as [vec|]; [|done]. cbn in Hs. case_match.
  { injection Hs as <-. apply (inv_quiet z z ps p zo _ t); try done; [apply evolves_refl|apply Hw]. }
  destruct (lv_lock_elems vec) as [es|]; [|done]. cbn in Hs. destruct (es !! _) as [q|]; [|done]. cbn in Hs.
  destruct q as [| |e]; [done| |by eapply unlock_inv].
  injection Hs as <-. apply (inv_quiet z z ps p zo _ t); try done; [apply evolves_refl|apply Hw].
Qed.

Lemma thread_inv z ps p t zo z' zo' :
  zoo_inv (Sys z ps) → ps !! p = Some zo → thread_step z p t zo = Some (z', zo') →
  zoo_inv (Sys z' (<[p := zo']> ps)).
Proof using HZ.
  intros Hi Hzo Hs. pose proof Hi as (_ & Hp & _). pose proof (Hp _ _ Hzo) as (Hw & _).
  unfold thread_step in Hs. destruct (pc_of zo t) as [|q cb d|q cb d|q nm cb d|e v cb d|c|e|e v|cb d e|e k|e k|v i] eqn:Hpc.
  - injection Hs as <- <-. by rewrite insert_id.
  - pose proof (lock_parent_inv z ps p t zo q cb d Hi Hzo Hpc) as H. injection Hs as Hs. by rewrite Hs in H.
  - by eapply lock_node_inv.
  - by eapply lock_elem_inv.
  - unfold lock_check in Hs. destruct (z_elems zo !! e) as [el|] eqn:Hel; [|done]. cbn in Hs. injection Hs as <- <-.
    destruct (is_min v el) eqn:Hm.
    + by apply (check_inv z ps p t zo _ e el v cb d); try done; rewrite ?Hpc.
    + apply (inv_quiet z z ps p zo _ t); try done; [apply evolves_refl|by rewrite Hpc|apply Hw].
  - unfold try_lock_watcher in Hs. destruct (z_tles zo !! c) as [[e id]|]; [|done]. cbn in Hs. injection Hs as <- <-.
    case_match; apply (inv_quiet z z ps p zo _ t); try done; first [apply evolves_refl|by rewrite Hpc|apply Hw].
  - by eapply watcher_try_inv.
  - unfold watcher_check in Hs. destruct (z_elems zo !! e) as [el|] eqn:Hel; [|done]. cbn in Hs.
    destruct (is_min v el) eqn:Hm.
    + destruct (el_callback el); [|done]. injection Hs as <- <-.
      by apply (check_inv z ps p t zo _ e el v _ (el_d el)); try done; rewrite ?Hpc.
    + injection Hs as <- <-. apply (inv_quiet z z ps p zo _ t); try done; [apply evolves_refl|by rewrite Hpc|apply Hw].
  - destruct cb.
    + injection Hs as <- <-. apply (inv_quiet z z ps p zo _ t); try done; [apply evolves_refl|by rewrite Hpc|apply Hw].
    + destruct (lockv_callback _ _ _ _) as [zo1|] eqn:E; [|done]. injection Hs as <- <-.
      eapply lockv_callback_inv; [done|done|by rewrite Hpc|done].
  - pose proof (unlock_delete_inv z ps p t e k zo Hi Hzo Hpc) as H. injection Hs as Hs. by rewrite Hs in H.
  - destruct (unlock_free _ _ _ _) as [zo1|] eqn:E; [|done]. injection Hs as <- <-. by eapply unlock_free_inv.
  - destruct (unlockv_next _ _ _ _) as [zo1|] eqn:E; [|done]. injection Hs as <- <-.
    eapply unlockv_next_inv; [done|done|by rewrite Hpc|done].
Qed.

(** only what the locks do not depend on changes *)
Lemma inv_other z z' ps p zo zo' :
  zoo_inv (Sys z ps) → ps !! p = Some zo → evolves z z' None →
  z_elems zo' = z_elems zo → z_nelem zo' = z_nelem zo → z_buf zo' = z_buf zo → z_threads zo' = z_threads zo →
  (∀ v vec, z_vecs zo' !! v = Some vec → Forall good_name (lv_filenames vec)) →
  zoo_inv (Sys z' (<[p := zo']> ps)).
Proof.
  intros Hi Hzo He E1 E2 E3 E4 Hv. pose proof Hi as (Hz & Hp & _). pose proof (Hp _ _ Hzo) as Hok.
  apply (inv_moves z z' ps None p zo _ Some); [done..|]. destruct Hok as (Hw & Hb & Hin & Hfi).
  assert (∀ t, pc_of zo' t = pc_of zo t) as Hpc by (intros t; unfold pc_of; by rewrite E4).
  assert (∀ e, unlocking zo' e ↔ unlocking zo e) as Hul.
  { intros e. unfold unlocking. by setoid_rewrite Hpc. }
  split.
  - split; rewrite ?E1, ?E2; [| |intros t e v|done]; try apply Hw; [intros t|]; rewrite Hpc; apply Hw.
  - intros o q nm Ho. destruct Ho as [t q nm cb d H|e el H]; [rewrite Hpc in H; by eapply own_thread|].
    rewrite E1 in H. by apply own_elem.
  - by intros o o' [= ->].
  - intros [t|e] q nm _ Hl; [done|]. cbn in *. by rewrite <-Hul.
  - intros e el H Hu Hg. rewrite E1 in H. rewrite Hul in Hu.
    apply (el_first_evolves z z' None); [done|done|by apply (wf_elem _ Hw e)| |].
    + by apply (Hin (inr e)); [apply own_elem|].
    + apply (Hfi e el H Hu). destruct Hg as [?|(t & v & Hvw & Hm)]; [by left|]. right. exists t, v. by rewrite <-Hpc.
  - intros t e k H. rewrite Hpc in H. left. split; [done|eauto].
Qed.

Lemma make_root_spec z p zo (nm : list Z) z' zo' :
  SLASH ∉ nm → make_root z p (SLASH :: nm) zo = (z', zo') →
  evolves z z' None ∧ z_threads zo' = z_threads zo ∧ z_elems zo' = z_elems zo ∧ z_vecs zo' = z_vecs zo.
Proof using HZ.
  intros Hn. unfold make_root. destruct (zoo_create _ _ _ _) as [[r created] z1] eqn:E. intros [= <- <-].
  split; [|by case_match]. eapply (create_evolves z p [] []); [by right|exact Hn|exact E].
Qed.

Lemma init_sys_inv z ps p z' zo :
  zoo_inv (Sys z ps) → ps !! p = None → s_zoo_init z p = (z', zo) → zoo_inv (Sys z' (<[p := zo]> ps)).
Proof using HZ.
  intros (Hz & Hp & Hu & Hb) Hnone Hs. unfold s_zoo_init in Hs. cbn in Hz, Hp, Hu, Hb.
  destruct (make_root z p LOCK_ROOT zoo_empty) as [z1 zo1] eqn:E1.
  apply make_root_spec in E1 as (He1 & Et1 & Ee1 & Ev1); [|unfold SLASH; set_solver].
  apply make_root_spec in Hs as (He2 & Et2 & Ee2 & Ev2); [|unfold SLASH; set_solver].
  assert (evolves z z' None) as He by (by eapply evolves_trans).
  assert (∀ t, pc_of zo t = PIdle) as Hpc by (intros t; unfold pc_of; by rewrite Et2, Et1).
  assert (z_elems zo = ∅) as Hel by (by rewrite Ee2, Ee1).
  assert (∀ o q nm, ¬ owns zo o q nm) as Hno.
  { intros o q nm Ho. destruct Ho as [t q nm cb d H|e el H]; [by rewrite Hpc in H|by rewrite Hel in H]. }
  assert (∀ p' zp, <[p := zo]> ps !! p' = Some zp → (p' = p ∧ zp = zo) ∨ ps !! p' = Some zp) as Hps.
  { intros p' zp. rewrite lookup_insert_Some. intros [[<- <-]|[_ ?]]; [by left|by right]. }
  assert (∀ q nm, unowned ps q nm → unowned (<[p := zo]> ps) q nm) as Hun.
  { intros q nm H p' zp o [[-> ->]|Hzp]%Hps; [intros Ho; destruct (Hno _ _ _ Ho)|by apply (H p')]. }
  split_and!; cbn.
  - by eapply evolves_ok.
  - intros p' zp [[-> ->]|Hzp]%Hps.
    + split_and!; [split|..].
      * intros t. by rewrite Hpc.
      * intros e el H. by rewrite Hel in H.
      * intros t e v. by rewrite Hpc.
      * intros v vec. rewrite Ev2, Ev1. done.
      * intros o q nm Ho. destruct (Hno _ _ _ Ho).
      * intros o q nm Ho. destruct (Hno _ _ _ Ho).
      * intros e el H. by rewrite Hel in H.
    + destruct (Hp _ _ Hzp) as (Hw & Hbe & Hin & Hfi). split_and!; [done|..].
      * intros o q nm Ho. by eapply below_evolves, Hbe.
      * intros o q nm Ho Hl. eapply (owned_stays z z' ps None); done.
      * intros e el Hel' Hnu Hgr. apply (el_first_evolves z z' None); [done|done|by apply (wf_elem _ Hw _ _ Hel')| |by apply (Hfi e)].
        by apply (Hin (inr e)); [apply own_elem|].
  - intros p1 p2 z1' z2' o1 o2 q nm [[-> ->]|H1]%Hps [[-> ->]|H2]%Hps O1 O2;
      [destruct (Hno _ _ _ O1)..|destruct (Hno _ _ _ O2)|by eapply Hu].
  - intros p' zp t e k [[-> ->]|Hzp]%Hps Hpc'; [by rewrite Hpc in Hpc'|].
    destruct (Hb _ _ _ _ _ Hzp Hpc') as (f & i & Hf & Hi & Ebuf & Hlt & Hu'). exists f, i.
    destruct (He f Hf) as [Hle _]. split_and!; [done..|lia|by apply Hun].
Qed.

Context (named : list Z → Prop) (unlocker : Z → Z → Prop) (Hnamed : ∀ f, named f → good_name f).

Lemma call_inv z ps p t c zo zo' :
  zoo_inv (Sys z ps) → ps !! p = Some zo → pc_of zo t = PIdle → allowed named unlocker p t c →
  call_step t c zo = Some zo' → zoo_inv (Sys z (<[p := zo']> ps)).
Proof using Hnamed.
  intros Hi Hzo Hpc Ha Hs. pose proof Hi as (_ & Hp & _). pose proof (Hp _ _ Hzo) as (Hw & _).
  assert (neutral (pc_of zo t)) as Hn by (by rewrite Hpc).
  destruct c as [f d|e| |v f|v d|v|v]; cbn in Hs, Ha.
  - apply (s_zoo_lock_sys z ps p t f CbUser d zo zo zo'); try done; [by apply Hnamed|apply Hw].
  - by eapply unlock_inv.
  - injection Hs as <-. eapply (inv_other z z ps p zo); try done; [apply evolves_refl|]. cbn. intros v vec H.
    destruct (decide (z_nvec zo = v)) as [<-|?]; [rewrite lookup_insert_eq in H; by injection H as <-|].
    rewrite lookup_insert_ne in H by done. by apply (wf_vec _ Hw v).
  - unfold s_zoo_lockv_add in Hs. destruct (z_vecs zo !! v) as [vec|] eqn:Hv; [|done]. injection Hs as <-.
    eapply (inv_other z z ps p zo); try done; [apply evolves_refl|]. cbn. intros v' vec' H.
    destruct (decide (v = v')) as [<-|?].
    + rewrite lookup_insert_eq in H. injection H as <-. cbn. apply Forall_app. split; [by apply (wf_vec _ Hw v)|].
      apply Forall_singleton. by apply Hnamed.
    + rewrite lookup_insert_ne in H by done. by apply (wf_vec _ Hw v').
  - unfold s_zoo_lockv in Hs. destruct (z_vecs zo !! v) as [vec|] eqn:Hv; [|done]. cbn in Hs.
    destruct (lv_filenames vec) as [|f fs] eqn:Ef.
    + injection Hs as <-. eapply (inv_other z z ps p zo); try done; [apply evolves_refl|].
      by eapply vec_update.
    + pose proof (wf_vec _ Hw _ _ Hv) as Hall. rewrite Ef in Hall. apply Forall_cons in Hall as [Hf _].
      eapply s_zoo_lock_sys; [done|done|done|exact Hf|..|exact Hs]; try done. by eapply vec_update.
  - injection Hs as <-. apply (inv_quiet z z ps p zo _ t); try done; [apply evolves_refl|apply Hw].
  - unfold s_zoo_lockv_free in Hs. destruct (z_vecs zo !! v) as [vec|] eqn:Hv; [|done]. cbn in Hs.
    destruct (lv_filenames vec); [|done]. injection Hs as <-.
    eapply (inv_other z z ps p zo); try done; [apply evolves_refl|]. cbn. intros v' vec'.
    rewrite lookup_delete_Some. intros [_ H]. by apply (wf_vec _ Hw v').
Qed.

Lemma zstep_inv (s s' : zsys zk TH) : zstep named unlocker s (Some s') → zoo_inv s → zoo_inv s'.
Proof using HZ Hnamed.
  intros Hs Hi. remember (Some s') as r eqn:Er. destruct Hs as [z ps p z' zo Hn Hin|z ps p t zo Hzo Hb|z ps p t zo c Hzo Hpc Ha|z ps p t zo c l Hzo Hpc He].
  - injection Er as <-. by eapply init_sys_inv.
  - destruct (thread_step z p t zo) as [[z' zo']|] eqn:E; [|done]. injection Er as <-. by eapply thread_inv.
  - destruct (call_step t c zo) as [zo'|] eqn:E; [|done]. injection Er as <-. by eapply call_inv.
  - injection Er as <-. pose proof Hi as (_ & Hp & _). destruct (Hp _ _ Hzo) as (Hw & _).
    apply (inv_quiet z _ ps p zo _ t); try done; [by eapply deliver_evolves|by rewrite Hpc|apply Hw].
Qed.

Lemma start_inv (s : zsys zk TH) : zoo_start s → zoo_inv s.
Proof.
  intros (Hps & Hc & _). split_and!; rewrite ?Hps.
  - intros f nm _ Hin. unfold lock_path in Hin. rewrite Hc in Hin. by apply elem_of_nil in Hin.
  - done.
  - by intros p p' zo zo' o o' q nm H.
  - by intros p zo t e k H.
Qed.

Lemma zoo_reach_inv (s : zsys zk TH) : zoo_reach named unlocker s → zoo_inv s.
Proof using HZ Hnamed.
  intros (s0 & H0 & Hr). apply start_inv in H0. induction Hr as [|s0 s1 s2 Hs _ IH]; [done|]. apply IH. by eapply zstep_inv.
Qed.

(** an element that has the lock is the first of its children, and nobody else has its node *)
Lemma granted_once (s : zsys zk TH) p p' zo zo' e e' f :
  zoo_inv s → sy_procs s !! p = Some zo → sy_procs s !! p' = Some zo' → granted zo e f → granted zo' e' f →
  p = p' ∧ e = e'.
Proof.
  intros (Hz & Hp & Hu & _) Hzo Hzo' (el & Hel & Hcb & Hq & Hn) (el' & Hel' & Hcb' & Hq' & Hn').
  destruct (Hp _ _ Hzo) as (Hw & _ & Hin & Hfi), (Hp _ _ Hzo') as (Hw' & _ & Hin' & Hfi').
  pose proof (Hin (inr e) _ _ (own_elem zo e el Hel) Hn) as H1.
  pose proof (Hin' (inr e') _ _ (own_elem zo' e' el' Hel') Hn') as H2.
  pose proof (Hfi e el Hel Hn (or_introl Hcb)) as F1. pose proof (Hfi' e' el' Hel' Hn' (or_introl Hcb')) as F2.
  destruct (wf_elem _ Hw _ _ Hel) as [_ (g & k & _ & Hk & _ & En)].
  destruct (wf_elem _ Hw' _ _ Hel') as [_ (g' & k' & _ & Hk' & _ & En')].
  unfold el_first in F1, F2. rewrite Hq in F1, H1. rewrite Hq' in F2, H2. apply F1 in H2. apply F2 in H1.
  rewrite En, En', strcmp_seq_le in H1, H2 by done.
  pose proof (own_elem zo e el Hel) as O1. pose proof (own_elem zo' e' el' Hel') as O2.
  rewrite Hq, En in O1. rewrite Hq', En' in O2. replace k' with k in O2 by lia.
  destruct (Hu _ _ _ _ _ _ _ _ Hzo Hzo' O1 O2) as [-> [= ->]]. done.
Qed.

(** C17. Locks on ZooKeeper exclude: whatever the processes and their threads
    do, in any order, and whatever operations of the service fail, done or not
    done, no two elements, of the same or of different processes, have the lock
    of one name granted and not yet being unlocked.  This is of runs in which
    sessions last ([ZkLaws]: when the session of a holder ends its node goes,
    and the next element is granted as well, [session_end_two_holders]), names
    fit the buffers ([good_name]), and no step was undefined so far (as the call
    of a null callback is, [null_callback_called]). *)
Theorem zoo_exclusion (s : zsys zk TH) p p' zo zo' e e' f :
  zoo_reach named unlocker s →
  sy_procs s !! p = Some zo → sy_procs s !! p' = Some zo' → granted zo e f → granted zo' e' f →
  p = p' ∧ e = e'.
Proof using HZ Hnamed.
  intros Hr%zoo_reach_inv. by apply granted_once.
Qed.
End steps.
