(* ===== verification/ZooWake.v ===== *)
(** * The locks of [s_zookeeper.c]: no waiter is forgotten

    While the service answers, whoever is the first child of a lock and waits
    will be looked at again ([zoo_no_lost_wakeup]); so when nothing is under
    way any more and somebody waits, somebody holds the lock ([zoo_progress]). *)

From stdpp Require Import strings.
From S2P Require Import Prelude SString SHashSpec Zoo ZooLock.
Local Open Scope Z_scope.

(** ** Signals of the service *)
Section service.
Context {zk : Type} `{HS : !ZkService zk} `{HZ : !ZkLaws zk}.
Implicit Types (z : zk) (f : list Z).

(** a watch stays while the children stay, or becomes an event *)
Definition watch_kept z z' (p : Z) : Prop := ∀ q c, (q, (p, c)) ∈ zk_watches z →
  (q, (p, c)) ∈ zk_watches z' ∧ zk_children z' q ≡ₚ zk_children z q ∨ c ∈ zk_events z' p.
Definition signals z z' (p : Z) : Prop :=
  watch_kept z z' p ∧ ∀ c, c ∈ zk_events z p → c ∈ zk_events z' p.

Lemma signals_refl z p : signals z z p.
Proof. split; [|done]. intros q c H. by left. Qed.

Lemma signals_trans z z' z'' p : signals z z' p → signals z' z'' p → signals z z'' p.
Proof.
  intros [Hw He] [Hw' He']. split; [|auto]. intros q c H. destruct (Hw q c H) as [[H1 E1]|?]; [|by right; apply He'].
  destruct (Hw' q c H1) as [[H2 E2]|?]; [left|by right]. split; [done|]. by rewrite E2.
Qed.

Lemma signals_fired z z' p qs :
  fired z z' qs → (∀ q, q ∉ qs → zk_children z' q ≡ₚ zk_children z q) → signals z z' p.
Proof.
  intros [Hw He] Hc. split; [|intros c H; apply He; by left]. intros q c H.
  destruct (decide (q ∈ qs)) as [Hq|Hq].
  - right. apply He. right. by exists q.
  - left. split; [by apply Hw|by apply Hc].
Qed.
Lemma signals_same z z' p : zk_same z z' → signals z z' p.
Proof. intros [Hc Hf]. apply (signals_fired _ _ _ []); [done|]. intros q _. apply Hc. Qed.

Lemma create_signals z p q nm flags r created z' p' :
  SLASH ∉ nm → zoo_create z p (child q nm) flags = (r, created, z') → signals z z' p'.
Proof using HZ.
  intros Hn E. destruct (zoo_create_ok _ _ _ _ _ _ _ _ Hn E) as [_ [[_ H]|[_ H]]]; [|by apply signals_same].
  destruct H as (_ & Hc & _ & _ & Hf). apply (signals_fired _ _ _ [q]); [done|]. intros q' Hq. apply Hc. set_solver.
Qed.
Lemma delete_signals z p q nm r z' p' :
  SLASH ∉ nm → zoo_delete z p (child q nm) = (r, z') → signals z z' p'.
Proof using HZ.
  intros Hn E. destruct (zoo_delete_ok _ _ _ _ _ _ Hn E) as [H|[_ H]]; [|by apply signals_same].
  destruct H as (_ & Hc & _ & Hf). apply (signals_fired _ _ _ [q; child q nm]); [done|]. intros q' Hq. apply Hc. set_solver.
Qed.
Lemma children_signals z p q w r l z' p' : zoo_get_children z p q w = (r, l, z') → signals z z' p'.
Proof using HZ.
  intros E. apply zoo_get_children_ok in E as [_ H]. destruct w as [c|]; [|by apply signals_same].
  destruct H as [(Hc & Hw & He)|[_ H]]; [|by apply signals_same]. split; [|intros c' H; by apply He].
  intros q' c' H. left. split; [apply Hw; by right|apply Hc].
Qed.

(** an event is delivered to its session *)
Lemma deliver_signals z p c l p' : zk_events z p = c :: l →
  watch_kept z (zk_deliver z p) p' ∧
  ∀ c', c' ∈ zk_events z p' → p' = p ∧ c' = c ∨ c' ∈ zk_events (zk_deliver z p) p'.
Proof using HZ.
  intros E. destruct (zk_deliver_ok z p c l E) as (Hc & Hw & He & Ho). split.
  - intros q c' H. left. split; [by apply Hw|apply Hc].
  - intros c' H. destruct (decide (p' = p)) as [->|Hne]; [|right; by rewrite Ho].
    rewrite E in H. rewrite He, E. apply elem_of_cons in H as [->|H]; [by left|by right].
Qed.

(** the watch that [try_lock] leaves *)
Lemma children_watch z p q c l z' :
  zoo_get_children z p q (Some c) = (ZOK, l, z') → (q, (p, c)) ∈ zk_watches z' ∧ zk_children z' q ≡ₚ zk_children z q.
Proof using HZ.
  intros E. apply zoo_get_children_ok in E as [_ [(Hc & Hw & _)|[? _]]]; [|done]. split; [apply Hw; by left|apply Hc].
Qed.
End service.

(** ** Who will be looked at again *)
Section wake.
Context {zk TH : Type} `{HS : !ZkService zk} `{HT : !Table Z Z TH}.
Implicit Types (z : zk) (zo : s_zoo TH) (ps : gmap Z (s_zoo TH)) (el : s_zoo_lock_elem) (t p e : Z).

(** a thread, or an event that is not delivered yet, is about to test it *)
Definition tested z p zo e el : Prop :=
  (∃ t v, view (pc_of zo t) = Some (e, v) ∧ is_min v el = true) ∨
  (∃ t, pc_of zo t = PWatch e) ∨
  ∃ c i, z_tles zo !! c = Some (e, i) ∧ (c ∈ zk_events z p ∨ ∃ t, pc_of zo t = PTle c).
(** it is not the first, and there is a watch *)
Definition watched z p zo e el : Prop :=
  (∃ c i, z_tles zo !! c = Some (e, i) ∧ (el_parent_path el, (p, c)) ∈ zk_watches z) ∧ ¬ el_first z el.

(** the ids of the elements are different *)
Definition ids_ok zo : Prop := z_nelem zo < INT_MAX.

Record ids_wf zo : Prop := {
  iw_next : 0 <= z_nelem zo ∧ lock_elem_id zo = sint (z_nelem zo + 1);
  iw_elem e el : z_elems zo !! e = Some el → 0 <= e < z_nelem zo ∧ el_id el = sint (e + 1);
  iw_tle c e i : z_tles zo !! c = Some (e, i) → c < z_ntle zo ∧ i = sint (e + 1);
  iw_hash : tbl_wf (lock_elem_hash zo) ∧
    (ids_ok zo → ∀ e el, z_elems zo !! e = Some el → is_Some (tbl_map (lock_elem_hash zo) !! el_id el))
}.

Definition wakes z p zo : Prop := z_log zo = [] → ids_ok zo →
  ∀ e el, z_elems zo !! e = Some el → el_callback el ≠ None → ¬ unlocking zo e →
    tested z p zo e el ∨ watched z p zo e el.

(** [t]'s place does not show that [e] will be tested *)
Definition no_witness zo t e el : Prop :=
  (∀ v, view (pc_of zo t) = Some (e, v) → is_min v el = false) ∧ pc_of zo t ≠ PWatch e ∧
  ∀ c i, pc_of zo t = PTle c → z_tles zo !! c ≠ Some (e, i).

Lemma wake_keep z z' p zo zo' t e el el' :
  watch_kept z z' p →
  (∀ c i, z_tles zo !! c = Some (e, i) → c ∈ zk_events z p → c ∈ zk_events z' p ∨ pc_of zo' t = PTle c) →
  (∀ t', t' ≠ t → pc_of zo' t' = pc_of zo t') →
  (∀ c i, z_tles zo !! c = Some (e, i) → z_tles zo' !! c = Some (e, i)) →
  no_witness zo t e el → el_parent_path el' = el_parent_path el → el_lock_path el' = el_lock_path el →
  tested z p zo e el ∨ watched z p zo e el → tested z' p zo' e el' ∨ watched z' p zo' e el'.
Proof.
  intros Hw He Hpc Htl (Hn1 & Hn2 & Hn3) Eq Ep.
  assert (∀ v, is_min v el' = is_min v el) as Emin by (intros v; unfold is_min; by rewrite Ep).
  intros [[(t' & v & Hv & Hm)|[(t' & Ht)|(c & i & Hc & Hev)]]|[(c & i & Hc & Hwa) Hnf]].
  - left. left. exists t', v. rewrite Emin, Hpc; [done|]. intros ->. apply Hn1 in Hv. congruence.
  - left. right. left. exists t'. by rewrite Hpc by congruence.
  - left. right. right. exists c, i. split; [auto|]. destruct Hev as [Hev|[t' Ht]].
    + destruct (He c i Hc Hev) as [?|?]; [by left|right; by exists t].
    + right. exists t'. rewrite Hpc; [done|]. intros ->. by apply (Hn3 c i) in Ht.
  - destruct (Hw _ _ Hwa) as [[Hwa' Hch]|Hev].
    + right. split; [exists c, i; rewrite Eq; auto|]. intros H. apply Hnf. intros nm Hnm. unfold el_first in H.
      rewrite Ep, Eq in H. apply H. by rewrite Hch.
    + left. right. right. exists c, i. split; [auto|by left].
Qed.

(** other processes *)
Lemma wakes_other z z' p zo : signals z z' p → wakes z p zo → wakes z' p zo.
Proof.
  intros [Hw He] H Hlog Hid e el Hel Hcb Hu. specialize (H Hlog Hid e el Hel Hcb Hu).
  destruct H as [[?|[?|(c & i & Hc & Hev)]]|[(c & i & Hc & Hwa) Hnf]].
  - left. by left.
  - left. right. by left.
  - left. right. right. exists c, i. split; [done|]. destruct Hev as [?|?]; [left; auto|by right].
  - destruct (Hw _ _ Hwa) as [[Hwa' Hch]|Hev].
    + right. split; [by exists c, i|]. intros H. apply Hnf. intros nm Hnm. apply H. by rewrite Hch.
    + left. right. right. exists c, i. split; [done|by left].
Qed.
End wake.

(** ** The steps *)
Section steps.
Context {zk TH : Type} `{HS : !ZkService zk} `{HZ : !ZkLaws zk} `{HT : !Table Z Z TH}.
Implicit Types (z : zk) (zo : s_zoo TH) (ps : gmap Z (s_zoo TH)) (el : s_zoo_lock_elem) (t p e : Z).

Definition silent (c : pc) : Prop :=
  match c with PGot _ _ _ _ | PWGot _ _ | PWatch _ | PTle _ => False | _ => True end.

Lemma silent_witness zo t e el : silent (pc_of zo t) → no_witness zo t e el.
Proof. intros H. by split_and!; destruct (pc_of zo t). Qed.

Lemma ids_keep zo zo' :
  ids_wf zo → lock_elem_id zo' = lock_elem_id zo → lock_elem_hash zo' = lock_elem_hash zo →
  z_nelem zo' = z_nelem zo → z_ntle zo' = z_ntle zo → same_elems zo zo' →
  (∀ c x, z_tles zo' !! c = Some x → z_tles zo !! c = Some x) → ids_wf zo'.
Proof.
  intros [H1 H2 H3 [H4 H5]] E1 E2 E3 E4 Hel Htl. split; unfold ids_ok in *; rewrite ?E1, ?E2, ?E3, ?E4.
  - done.
  - intros e el' (el & He & ->)%Hel. by apply H2 in He.
  - intros c e i H%Htl. by eapply H3.
  - split; [done|]. intros Hid e el' (el & He & ->)%Hel. by apply (H5 Hid e el).
Qed.

Lemma wakes_step z z' p zo zo' t :
  wakes z p zo → watch_kept z z' p → (∀ t', t' ≠ t → pc_of zo' t' = pc_of zo t') →
  (z_log zo' = [] → z_log zo = []) → (ids_ok zo' → ids_ok zo) →
  (∀ e el', z_elems zo' !! e = Some el' → unlocking zo e → unlocking zo' e) →
  (∀ e el', z_elems zo' !! e = Some el' → el_callback el' ≠ None → z_log zo' = [] → ids_ok zo' → ¬ unlocking zo' e →
    (tested z' p zo' e el' ∨ watched z' p zo' e el') ∨
    ∃ el, z_elems zo !! e = Some el ∧ el_callback el ≠ None ∧
      el_parent_path el' = el_parent_path el ∧ el_lock_path el' = el_lock_path el ∧ no_witness zo t e el ∧
      (∀ c i, z_tles zo !! c = Some (e, i) → z_tles zo' !! c = Some (e, i)) ∧
      (∀ c i, z_tles zo !! c = Some (e, i) → c ∈ zk_events z p → c ∈ zk_events z' p ∨ pc_of zo' t = PTle c)) →
  wakes z' p zo'.
Proof.
  intros Hwa Hk Hpc Hlog Hids Hul Hels Hl Hid e el' Hel Hcb Hu.
  destruct (Hels e el' Hel Hcb Hl Hid Hu) as [?|(el & Hel0 & Hcb0 & Eq & Ep & Hn & Htl & Hev)]; [done|].
  apply (wake_keep z z' p zo zo' t e el el'); try done. apply Hwa; [by apply Hlog|by apply Hids|done|done|].
  intros Hu0. by eapply Hu, Hul.
Qed.

Lemma wakes_goto z z' p zo zo1 t c :
  wakes z p zo → signals z z' p → silent (pc_of zo t) →
  (∀ e el, z_elems zo1 !! e = Some el → z_elems zo !! e = Some el ∧ (unlocking zo e → unlocking (goto t c zo1) e)) →
  z_tles zo1 = z_tles zo → z_threads zo1 = z_threads zo → z_nelem zo1 = z_nelem zo →
  (z_log zo1 = [] → z_log zo = []) → wakes z' p (goto t c zo1).
Proof.
  intros Hwa [Hk He] Hs Hel Etl Eth Ene Hlog. apply (wakes_step z z' p zo _ t); try done.
  - intros t' Ht. rewrite pc_of_goto, decide_False by done. unfold pc_of. by rewrite Eth.
  - unfold ids_ok. cbn. by rewrite Ene.
  - intros e el H. apply (Hel e el H).
  - intros e el H Hcb _ _ Hu. right. exists el. cbn in H. split_and!; [by apply Hel|done|done|done|by apply silent_witness|..].
    + cbn. by rewrite Etl.
    + intros c' i _ Hc. left. by apply He.
Qed.

Lemma unlocking_stays zo zo1 t c e :
  neutral (pc_of zo t) → z_threads zo1 = z_threads zo → unlocking zo e → unlocking (goto t c zo1) e.
Proof.
  intros Hn Eth (t' & k & H). exists t', k. rewrite !pc_of_goto. case_decide as Ht.
  - subst t'. by destruct H as [H|H]; rewrite H in Hn.
  - unfold pc_of in *. by rewrite Eth.
Qed.

(** a step that only goes on *)
Lemma wakes_on z z' p zo zo1 t c :
  wakes z p zo → signals z z' p → silent (pc_of zo t) → neutral (pc_of zo t) →
  z_elems zo1 = z_elems zo → z_tles zo1 = z_tles zo → z_threads zo1 = z_threads zo → z_nelem zo1 = z_nelem zo →
  (z_log zo1 = [] → z_log zo = []) → wakes z' p (goto t c zo1).
Proof.
  intros Hwa Hsi Hs Hn Eel Etl Eth Ene Hlog. apply (wakes_goto z z' p zo); try done.
  intros e el H. rewrite Eel in H. split; [done|by apply unlocking_stays].
Qed.

(** [try_lock]: the element is the first, or there is a watch *)
Lemma try_lock_wake z p e zo v z' zo' :
  zk_ok z → try_lock z p e zo = Some (v, z', zo') → ids_wf zo →
  ∃ el, z_elems zo !! e = Some el ∧ signals z z' p ∧ (∀ p', signals z z' p') ∧
    z_tles zo' = <[z_ntle zo := (e, el_id el)]> (z_tles zo) ∧ z_ntle zo' = z_ntle zo + 1 ∧
    lock_elem_id zo' = lock_elem_id zo ∧ lock_elem_hash zo' = lock_elem_hash zo ∧
    (z_log zo' = [] → z_log zo = [] ∧ ∃ l, v = Some l) ∧
    ∀ l, v = Some l → is_node (el_parent_path el) (el_lock_path el) →
      el_lock_path el ∈ zk_children z (el_parent_path el) →
      is_min l el = true ∨ (el_parent_path el, (p, z_ntle zo)) ∈ zk_watches z' ∧ ¬ el_first z' el.
Proof using HZ.
  intros Hz. unfold try_lock, new_tle. destruct (z_elems zo !! e) as [el|]; [|done]. cbn.
  destruct (zoo_get_children _ _ _ _) as [[r l] z1] eqn:E. intros Ht Hids. exists el.
  assert (∀ p', signals z z1 p') as Hs by (intros p'; by eapply children_signals).
  destruct (r =? ZOK) eqn:Er; injection Ht as <- <- <-; zbool; (split_and!; try done).
  - eauto.
  - subst r. intros l' [= <-] Hn Hin. destruct (is_min l el) eqn:Em; [by left|right].
    destruct (children_watch _ _ _ _ _ _ E) as [Hw Hc]. split; [done|]. intros Hf.
    assert (el_first z el) as Hf'. { intros nm Hnm. apply Hf. by rewrite Hc. }
    apply (children_first z z1 p _ l el Hz E Hn Hin) in Hf'. congruence.
  - cbn. intros H. by apply app_nil in H as [_ ?].
Qed.

Definition wake_ok z p zo z' zo' : Prop := ids_wf zo' ∧ wakes z' p zo' ∧ ∀ p', signals z z' p'.

(** a step that only goes on, after which the service may be another *)
Lemma ok_on z z' p zo zo1 t c :
  ids_wf zo → wakes z p zo → (∀ p', signals z z' p') → silent (pc_of zo t) → neutral (pc_of zo t) →
  lock_elem_id zo1 = lock_elem_id zo → lock_elem_hash zo1 = lock_elem_hash zo → z_ntle zo1 = z_ntle zo →
  z_elems zo1 = z_elems zo → z_tles zo1 = z_tles zo → z_threads zo1 = z_threads zo → z_nelem zo1 = z_nelem zo →
  (z_log zo1 = [] → z_log zo = []) → wake_ok z p zo z' (goto t c zo1).
Proof.
  intros Hid Hwa Hsi Hs Hn E1 E2 E3 Eel Etl Eth Ene Hlog. split_and!; [|by eapply wakes_on|done].
  eapply ids_keep; [done|done..|by apply same_elems_refl|]. cbn. by rewrite Etl.
Qed.

Lemma log_app {A} (a b : list A) : a ++ b = [] → a = [].
Proof. by intros [? _]%app_nil. Qed.

Lemma lock_parent_wake z ps p t zo q cb d :
  zoo_inv (Sys z ps) → ps !! p = Some zo → ids_wf zo → wakes z p zo → pc_of zo t = PParent q cb d →
  let '(z', zo') := lock_parent z p t q cb d zo in wake_ok z p zo z' zo'.
Proof using HZ.
  intros (_ & Hp & _) Hzo Hid Hwa Hpc. destruct (Hp _ _ Hzo) as (Hw & _).
  pose proof (wf_pc _ Hw t) as Hq. rewrite Hpc in Hq. destruct Hq as (f & Hf & ->).
  unfold lock_parent. destruct (zoo_create _ _ _ _) as [[r created] z'] eqn:E.
  assert (∀ p', signals z z' p') as Hs by (intros p'; eapply create_signals; [|exact E]; apply Hf).
  destruct (_ || _); apply ok_on; try done; rewrite ?Hpc; try done. apply log_app.
Qed.

Lemma lock_node_wake z ps p t zo q cb d z' zo' :
  zoo_inv (Sys z ps) → ps !! p = Some zo → ids_wf zo → wakes z p zo → pc_of zo t = PNode q cb d →
  lock_node z p t q cb d zo = Some (z', zo') → wake_ok z p zo z' zo'.
Proof using HZ.
  intros _ Hzo Hid Hwa Hpc. unfold lock_node. destruct (zoo_create _ _ _ _) as [[r created] z1] eqn:E. intros Ht.
  assert (∀ p', signals z z1 p') as Hs by (intros p'; eapply create_signals; [|exact E]; set_solver).
  destruct (r =? ZOK).
  - destruct (c_strrchr _ _); [|done]. injection Ht as <- <-. apply ok_on; try done; by rewrite Hpc.
  - injection Ht as <- <-. apply ok_on; try done; rewrite ?Hpc; try done. apply log_app.
Qed.

(** an element whose children were looked at *)
Lemma looked_at z' p zo' t e el l c :
  view (pc_of zo' t) = Some (e, l) → z_tles zo' !! c = Some (e, el_id el) →
  is_min l el = true ∨ (el_parent_path el, (p, c)) ∈ zk_watches z' ∧ ¬ el_first z' el →
  tested z' p zo' e el ∨ watched z' p zo' e el.
Proof.
  intros Hv Hc [Hm|[Hw Hf]]; [left; left; by exists t, l|right]. split; [by exists c, (el_id el)|done].
Qed.

Lemma tles_fresh zo e : ids_wf zo → z_tles zo !! z_ntle zo = None.
Proof. intros H. destruct (z_tles zo !! z_ntle zo) as [[e' i]|] eqn:E; [|done]. apply (iw_tle _ H) in E as [? _]. lia. Qed.

Lemma ids_int zo : 0 <= z_nelem zo → ids_ok zo → ∀ e, 0 <= e < z_nelem zo → sint (e + 1) = e + 1.
Proof. unfold ids_ok, INT_MAX. intros H0 H e He. apply sint_small. unfold is_int. lia. Qed.

Lemma sint_succ a : sint (sint a + 1) = sint (a + 1).
Proof.
  unfold sint, wraps. f_equal. transitivity (((a + 2 ^ (32 - 1)) `mod` 2 ^ 32 + 1) `mod` 2 ^ 32); [f_equal; lia|].
  rewrite Zplus_mod_idemp_l. f_equal. lia.
Qed.

Context `{HTL : !TableLaws Z Z TH}.

Lemma new_elem_ids cb d q nm zo :
  ids_wf zo → ids_wf (new_elem cb d q nm zo).2.
Proof using HTL.
  intros [[H0 H1] H2 H3 [H4 H5]]. unfold new_elem. cbn zeta. set (e0 := z_nelem zo).
  destruct (tbl_put_ok (lock_elem_hash zo) (lock_elem_id zo) 1 H4) as [Hwf Hmap].
  split; cbn [snd lock_elem_id lock_elem_hash z_elems z_nelem z_tles z_ntle].
  - split; [lia|]. rewrite H1. apply sint_succ.
  - intros e el. rewrite lookup_insert_Some. intros [[<- <-]|[_ H]]; [cbn; split; [lia|done]|].
    apply H2 in H as [? ?]. split; [lia|done].
  - done.
  - split; [done|]. intros Hid e el. unfold ids_ok in Hid. cbn in Hid. rewrite Hmap, lookup_insert_is_Some.
    rewrite lookup_insert_Some. intros [[<- <-]|[Hne H]]; [by left|]. right. pose proof (H2 _ _ H) as [He Ei].
    split; [|apply (H5 ltac:(unfold ids_ok, e0 in *; lia) e el H)].
    rewrite Ei, H1. unfold e0 in *. rewrite !sint_small by (unfold is_int, INT_MAX in *; lia). lia.
Qed.

Lemma try_lock_ids z p e zo v z' zo' :
  zk_ok z → try_lock z p e zo = Some (v, z', zo') → ids_wf zo → ids_wf zo'.
Proof using HZ.
  intros Hz E H. pose proof E as (el & Hel & _ & E1 & E2 & _)%try_lock_spec.
  destruct (try_lock_wake _ _ _ _ _ _ _ Hz E H) as (el' & Hel' & _ & _ & E3 & E4 & E5 & E6 & _).
  rewrite Hel in Hel'. injection Hel' as <-. destruct H as [H1 H2 H3 [H4 H5]].
  split; unfold ids_ok in *; rewrite ?E1, ?E2, ?E3, ?E4, ?E5, ?E6; try done.
  intros c e' i. rewrite lookup_insert_Some. intros [[<- [= <- <-]]|[_ H]].
  - split; [lia|by apply (H2 e)].
  - apply H3 in H as [? ?]. split; [lia|done].
Qed.

Lemma lock_elem_wake z ps p t zo q nm cb d z' zo' :
  zoo_inv (Sys z ps) → ps !! p = Some zo → ids_wf zo → wakes z p zo → pc_of zo t = PElem q nm cb d →
  lock_elem z p t q nm cb d zo = Some (z', zo') → wake_ok z p zo z' zo'.
Proof using HZ HTL.
  intros (Hz & Hp & _) Hzo Hid Hwa Hpc Hs. cbn in Hz. pose proof (Hp _ _ Hzo) as (Hw & _ & Hin & _).
  pose proof (wf_pc _ Hw t) as Hq. rewrite Hpc in Hq. cbn in Hq, Hin.
  pose proof (new_elem_ids cb d q nm zo Hid) as Hid0. unfold lock_elem in Hs.
  set (zo0 := (new_elem cb d q nm zo).2) in *. change (new_elem cb d q nm zo) with (z_nelem zo, zo0) in Hs. cbn iota in Hs.
  destruct (try_lock z p (z_nelem zo) zo0) as [[[v z1] zo1]|] eqn:E; [|done]. injection Hs as <- <-.
  pose proof (try_lock_ids _ _ _ _ _ _ _ Hz E Hid0) as Hid1.
  destruct (try_lock_wake _ _ _ _ _ _ _ Hz E Hid0) as (el & Hel & Hsig & Hsig' & Etl & _ & _ & _ & Hlog & Hl).
  pose proof E as (el' & Hel' & _ & E1 & E2 & _ & E4 & _)%try_lock_spec. rewrite Hel in Hel'. injection Hel' as <-.
  pose proof (λ x, tles_fresh zo x Hid) as Hfr.
  change (z_elems zo0) with (<[z_nelem zo := Elem (Some cb) d q nm (lock_elem_id zo)]> (z_elems zo)) in *.
  rewrite lookup_insert_eq in Hel. injection Hel as <-.
  change (z_tles zo0) with (z_tles zo) in *. change (z_ntle zo0) with (z_ntle zo) in *.
  assert (∀ c zo2, (c = PIdle ∧ v = None ∧ zo2 = zo1 ∨ ∃ l, c = PGot (z_nelem zo) l cb d ∧ v = Some l ∧
      zo2 = with_lock_m (Some t) zo1) → wake_ok z p zo z1 (goto t c zo2)) as Hgo.
  2: { destruct v as [l|]; apply Hgo; [right; by exists l|by left]. }
  intros c zo2 Hc.
  assert (z_elems zo2 = z_elems zo1 ∧ z_tles zo2 = z_tles zo1 ∧ z_threads zo2 = z_threads zo ∧ z_nelem zo2 = z_nelem zo1 ∧
    z_log zo2 = z_log zo1 ∧ lock_elem_id zo2 = lock_elem_id zo1 ∧ lock_elem_hash zo2 = lock_elem_hash zo1 ∧
    z_ntle zo2 = z_ntle zo1) as (F1 & F2 & F3 & F4 & F5 & F6 & F7 & F8).
  { destruct Hc as [(_ & _ & ->)|(l & _ & _ & ->)]; by split_and!. }
  split_and!; [|apply (wakes_step z z1 p zo _ t); try done|done].
  - apply (ids_keep zo1); try done; [by apply same_elems_refl|cbn; by rewrite F2].
  - apply Hsig.
  - intros t' Ht. rewrite pc_of_goto, decide_False by done. unfold pc_of. by rewrite F3.
  - cbn. rewrite F5. intros H. by apply Hlog in H as [? _].
  - unfold ids_ok. cbn. rewrite F4, E2. cbn. lia.
  - intros e el _ (t' & k & H). exists t', k. rewrite !pc_of_goto. case_decide as Ht; [|unfold pc_of in *; by rewrite F3].
    subst t'. by destruct H as [H|H]; rewrite H in Hpc.
  - intros e el. cbn [goto z_elems]. rewrite F1, E1, lookup_insert_Some. intros [[<- <-]|[Hne Hel]] Hcb Hlog0 _ Hu.
    + left. cbn in Hlog0. rewrite F5 in Hlog0. apply Hlog in Hlog0 as [_ [l ->]].
      destruct Hc as [(_ & ? & _)|(l' & -> & [= <-] & _)]; [done|].
      eapply looked_at; [by rewrite pc_of_goto, decide_True| |].
      * cbn [goto z_tles]. rewrite F2, Etl. by rewrite lookup_insert_eq.
      * apply (Hl l eq_refl Hq). by apply (Hin (inl t)); [eapply own_thread|].
    + right. exists el. split_and!; try done; [by apply silent_witness; rewrite Hpc|..].
      * intros c' i H. cbn. rewrite F2, Etl, lookup_insert_ne; [done|]. intros <-. by rewrite Hfr in H.
      * intros c' i _ H. left. by apply Hsig.
Qed.

(** the callback is taken *)
Lemma check_wake z p t zo e el v cb d zo1 :
  ids_wf zo → wakes z p zo → view (pc_of zo t) = Some (e, v) → z_elems zo !! e = Some el →
  z_elems zo1 = <[e := set_callback None el]> (z_elems zo) → z_tles zo1 = z_tles zo → z_threads zo1 = z_threads zo →
  z_nelem zo1 = z_nelem zo → z_log zo1 = z_log zo → z_ntle zo1 = z_ntle zo →
  lock_elem_id zo1 = lock_elem_id zo → lock_elem_hash zo1 = lock_elem_hash zo →
  wake_ok z p zo z (goto t (PCall cb d e) zo1).
Proof.
  intros Hid Hwa Hv Hel E1 E2 E3 E4 E5 E6 E7 E8. split_and!; [|apply (wakes_step z z p zo _ t); try done|intros; apply signals_refl].
  - apply (ids_keep zo); try done; [by eapply same_elems_callback|cbn; by rewrite E2].
  - apply signals_refl.
  - intros t' Ht. rewrite pc_of_goto, decide_False by done. unfold pc_of. by rewrite E3.
  - cbn. by rewrite E5.
  - unfold ids_ok. cbn. by rewrite E4.
  - intros e' _ _. apply unlocking_stays; [|done]. by destruct (pc_of zo t).
  - intros e' el'. cbn [goto z_elems z_tles]. rewrite E1, lookup_insert_Some. intros [[<- <-]|[Hne H]] Hcb _ _ _; [done|].
    right. exists el'. split_and!; try done; [|by rewrite E2|by left].
    split_and!; [intros v' Hv'; congruence|intros Ht; by rewrite Ht in Hv|intros c i Ht; by rewrite Ht in Hv].
Qed.

(** what was looked at is not the first *)
Lemma uncheck_wake z p t zo e el v zo1 :
  ids_wf zo → wakes z p zo → view (pc_of zo t) = Some (e, v) → z_elems zo !! e = Some el → is_min v el = false →
  z_elems zo1 = z_elems zo → z_tles zo1 = z_tles zo → z_threads zo1 = z_threads zo →
  z_nelem zo1 = z_nelem zo → z_log zo1 = z_log zo → z_ntle zo1 = z_ntle zo →
  lock_elem_id zo1 = lock_elem_id zo → lock_elem_hash zo1 = lock_elem_hash zo →
  wake_ok z p zo z (goto t PIdle zo1).
Proof.
  intros Hid Hwa Hv Hel Hm E1 E2 E3 E4 E5 E6 E7 E8. split_and!; [|apply (wakes_step z z p zo _ t); try done|intros; apply signals_refl].
  - apply (ids_keep zo); try done; [by apply same_elems_refl|cbn; by rewrite E2].
  - apply signals_refl.
  - intros t' Ht. rewrite pc_of_goto, decide_False by done. unfold pc_of. by rewrite E3.
  - cbn. by rewrite E5.
  - unfold ids_ok. cbn. by rewrite E4.
  - intros e' _ _. apply unlocking_stays; [|done]. by destruct (pc_of zo t).
  - intros e' el'. cbn [goto z_elems z_tles]. rewrite E1. intros H Hcb _ _ _.
    right. exists el'. split_and!; try done; [|by rewrite E2|by left].
    split_and!; [intros v' Hv'; congruence|intros Ht; by rewrite Ht in Hv|intros c i Ht; by rewrite Ht in Hv].
Qed.

Lemma watcher_wake z ps p t c zo zo' :
  zoo_inv (Sys z ps) → ps !! p = Some zo → ids_wf zo → wakes z p zo → pc_of zo t = PTle c →
  try_lock_watcher t c zo = Some zo' → wake_ok z p zo z zo'.
Proof using HTL.
  intros (_ & Hp & _) Hzo Hid Hwa Hpc Hs. destruct (Hp _ _ Hzo) as (Hw & _).
  unfold try_lock_watcher in Hs. destruct (z_tles zo !! c) as [[e i]|] eqn:Hc; [|done]. cbn in Hs. injection Hs as <-.
  pose proof (iw_tle _ Hid _ _ _ Hc) as [_ Hi]. destruct (iw_hash _ Hid) as [Hwf Hhash].
  rewrite tbl_get_ok by done.
  assert (∀ e' el, z_elems zo !! e' = Some el → e' ≠ e → no_witness zo t e' el) as Hnw.
  { intros e' el _ Hne. split_and!; rewrite Hpc; [done|done|]. intros c' i' [= <-]. congruence. }
  destruct (tbl_map _ !! i) eqn:Eh.
  - split_and!; [|apply (wakes_step z z p zo _ t); try done|intros; apply signals_refl].
    + apply (ids_keep zo); try done; [by apply same_elems_refl|]. cbn. intros c' x. by rewrite lookup_delete_Some; intros [_ ?].
    + apply signals_refl.
    + intros t' Ht. by rewrite pc_of_goto, decide_False.
    + intros e' _ _. apply unlocking_stays; [by rewrite Hpc|done].
    + intros e' el' Hel Hcb _ _ _. cbn in Hel. destruct (decide (e' = e)) as [->|Hne].
      * left. left. right. left. exists t. by rewrite pc_of_goto, decide_True.
      * right. exists el'. split_and!; try done; [by apply (Hnw e')| |by left].
        intros c' i' H. cbn. rewrite lookup_delete_ne; [done|]. congruence.
  - split_and!; [|apply (wakes_step z z p zo _ t); try done|intros; apply signals_refl].
    + apply (ids_keep zo); try done. by apply same_elems_refl.
    + apply signals_refl.
    + intros t' Ht. by rewrite pc_of_goto, decide_False.
    + intros e' _ _. apply unlocking_stays; [by rewrite Hpc|done].
    + intros e' el' Hel Hcb _ Hids _. right. exists el'. cbn in Hel. split_and!; try done; [|by left].
      apply (Hnw e' el' Hel). intros ->. destruct (Hhash Hids _ _ Hel) as [x Hx].
      rewrite (proj2 (iw_elem _ Hid _ _ Hel)), <-Hi, Eh in Hx. done.
Qed.

Lemma watcher_try_wake z ps p t e zo z' zo' :
  zoo_inv (Sys z ps) → ps !! p = Some zo → ids_wf zo → wakes z p zo → pc_of zo t = PWatch e →
  watcher_try z p t e zo = Some (z', zo') → wake_ok z p zo z' zo'.
Proof using HZ.
  intros (Hz & Hp & _) Hzo Hid Hwa Hpc Hs. cbn in Hz. pose proof (Hp _ _ Hzo) as (Hw & _ & Hin & _). cbn in Hin.
  unfold watcher_try in Hs. destruct (z_elems zo !! e) as [el|] eqn:Hel; [|done]. cbn in Hs.
  assert (∀ e' el', e' ≠ e → no_witness zo t e' el') as Hnw.
  { intros e' el' Hne. split_and!; rewrite Hpc; [done|congruence|done]. }
  destruct (el_callback el) as [cb|] eqn:Hcb.
  - destruct (try_lock _ _ _ _) as [[[v z1] zo1]|] eqn:E; [|done]. injection Hs as <- <-.
    pose proof (try_lock_ids _ _ _ _ _ _ _ Hz E Hid) as Hid1.
    destruct (try_lock_wake _ _ _ _ _ _ _ Hz E Hid) as (el' & Hel' & Hsig & Hsig' & Etl & _ & _ & _ & Hlog & Hl).
    rewrite Hel in Hel'. injection Hel' as <-. pose proof E as (el' & Hel' & _ & E1 & E2 & _ & E4 & _)%try_lock_spec.
    split_and!; [|apply (wakes_step z z1 p zo _ t); try done|done].
    + apply (ids_keep zo1); try done. by apply same_elems_refl.
    + apply Hsig.
    + intros t' Ht. rewrite pc_of_goto, decide_False by done. unfold pc_of. by rewrite E4.
    + cbn. intros H. by apply Hlog in H as [? _].
    + unfold ids_ok. cbn. by rewrite E2.
    + intros e' _ _. apply unlocking_stays; [by rewrite Hpc|done].
    + intros e' el0. cbn [goto z_elems]. rewrite E1. intros H Hcb' Hlog0 _ Hu. destruct (decide (e' = e)) as [->|Hne].
      * left. rewrite Hel in H. injection H as <-. cbn in Hlog0. apply Hlog in Hlog0 as [_ [l ->]].
        eapply looked_at; [by rewrite pc_of_goto, decide_True| |].
        -- cbn. rewrite Etl. by rewrite lookup_insert_eq.
        -- apply (Hl l eq_refl); [by apply (wf_elem _ Hw e)|]. apply (Hin (inr e)); [by apply own_elem|].
           intros Hu0. by apply Hu, (unlocking_stays zo); [rewrite Hpc|..].
      * right. exists el0. split_and!; try done; [by apply Hnw|..].
        -- intros c i Hc. cbn. rewrite Etl, lookup_insert_ne; [done|]. intros <-. by rewrite tles_fresh in Hc.
        -- intros c i _ H'. left. by apply Hsig.
  - injection Hs as <- <-. split_and!; [|apply (wakes_step z z p zo _ t); try done|intros; apply signals_refl].
    + apply (ids_keep zo); try done. by apply same_elems_refl.
    + apply signals_refl.
    + intros t' Ht. by rewrite pc_of_goto, decide_False.
    + intros e' _ _. apply unlocking_stays; [by rewrite Hpc|done].
    + intros e' el0 H Hcb' _ _ _. cbn in H. right. exists el0. split_and!; try done; [|by left].
      apply Hnw. intros ->. congruence.
Qed.

Lemma unlock_delete_wake z ps p t e k zo :
  zoo_inv (Sys z ps) → ps !! p = Some zo → ids_wf zo → wakes z p zo → pc_of zo t = PDelete e k →
  let '(z', zo') := unlock_delete z p t e k zo in wake_ok z p zo z' zo'.
Proof using HZ.
  intros (_ & _ & _ & Hb) Hzo Hid Hwa Hpc. unfold unlock_delete.
  destruct (Hb _ _ _ _ _ Hzo Hpc) as (f & i & _ & _ & Ebuf & _). rewrite Ebuf.
  destruct (zoo_delete _ _ _) as [r z'] eqn:E.
  assert (∀ p', signals z z' p') as Hs by (intros p'; eapply delete_signals; [apply seq_name_slash|exact E]).
  split_and!; [apply (ids_keep zo); try done; by apply same_elems_refl|..|done].
  apply (wakes_goto z z' p zo); try done; [by rewrite Hpc|]. intros e' el H. split; [done|].
  intros (t' & k' & Ht'). exists t', (if decide (t = t') then k else k'). rewrite pc_of_goto. case_decide; [|done].
  subst t'. rewrite Hpc in Ht'. destruct Ht'; simplify_eq. by right.
Qed.

Lemma unlock_free_wake z p t e k zo zo' :
  ids_wf zo → wakes z p zo → pc_of zo t = PFree e k → unlock_free t e k zo = Some zo' → wake_ok z p zo z zo'.
Proof using HTL.
  intros Hid Hwa Hpc Hs. unfold unlock_free in Hs. destruct (z_elems zo !! e) as [el|] eqn:Hel; [|done]. cbn in Hs.
  pose proof Hid as [H1 H2 H3 [H4 H5]].
  destruct (tbl_del_ok (lock_elem_hash zo) (el_id el) H4) as [Hwf Hmap].
  assert (∀ c zo1, c = PIdle ∨ (∃ v i, c = PUnlockv v i) → z_elems zo1 = delete e (z_elems zo) →
    lock_elem_hash zo1 = tbl_del (lock_elem_hash zo) (el_id el) → lock_elem_id zo1 = lock_elem_id zo →
    z_nelem zo1 = z_nelem zo → z_tles zo1 = z_tles zo → z_ntle zo1 = z_ntle zo → z_threads zo1 = z_threads zo →
    z_log zo1 = z_log zo → wake_ok z p zo z (goto t c zo1)) as Hgo.
  { intros c zo1 Hc E1 E2 E3 E4 E5 E6 E7 E8. split_and!; [|apply (wakes_goto z z p zo); try done|intros; apply signals_refl].
    - split; unfold ids_ok; cbn; rewrite ?E1, ?E2, ?E3, ?E4, ?E5, ?E6; try done.
      + intros e' el'. rewrite lookup_delete_Some. intros [_ H]. by apply H2.
      + split; [done|]. intros Hids e' el'. rewrite lookup_delete_Some. intros [Hne H]. rewrite Hmap, lookup_delete_ne; [by apply (H5 Hids e')|].
        rewrite (proj2 (H2 _ _ H)), (proj2 (H2 _ _ Hel)), !(ids_int zo); [lia|..]; try apply H1; try done; by eapply H2.
    - apply signals_refl.
    - by rewrite Hpc.
    - intros e' el'. rewrite E1, lookup_delete_Some. intros [Hne H]. split; [done|]. intros (t' & k' & Ht').
      exists t', k'. rewrite pc_of_goto. case_decide; [|unfold pc_of in *; by rewrite E7].
      subst t'. rewrite Hpc in Ht'. destruct Ht'; congruence.
    - by rewrite E8. }
  destruct k as [[v i]|].
  - destruct (z_vecs zo !! v) as [vec|]; [|done]. cbn in Hs. destruct (set_elem_ptr _ _ _); [|done].
    injection Hs as <-. apply Hgo; eauto.
  - injection Hs as <-. apply Hgo; eauto.
Qed.

(** what does not touch elements, contexts or ids *)
Lemma ok_other z p zo zo' :
  ids_wf zo → wakes z p zo → z_elems zo' = z_elems zo → z_tles zo' = z_tles zo → z_threads zo' = z_threads zo →
  z_nelem zo' = z_nelem zo → z_log zo' = z_log zo → z_ntle zo' = z_ntle zo →
  lock_elem_id zo' = lock_elem_id zo → lock_elem_hash zo' = lock_elem_hash zo → wake_ok z p zo z zo'.
Proof.
  intros Hid Hwa E1 E2 E3 E4 E5 E6 E7 E8. split_and!; [|intros Hl Hids e el|intros; apply signals_refl].
  - apply (ids_keep zo); try done; [by apply same_elems_refl|by rewrite E2].
  - unfold wakes, tested, watched, unlocking, ids_ok, pc_of in *. rewrite E5 in Hl. rewrite E4 in Hids.
    rewrite E1, E2, E3. by apply Hwa.
Qed.

Lemma s_zoo_lock_wake z p t f cb d zo zo1 zo' :
  ids_wf zo → wakes z p zo → silent (pc_of zo t) → neutral (pc_of zo t) →
  z_elems zo1 = z_elems zo → z_tles zo1 = z_tles zo → z_threads zo1 = z_threads zo →
  z_nelem zo1 = z_nelem zo → z_log zo1 = z_log zo → z_ntle zo1 = z_ntle zo →
  lock_elem_id zo1 = lock_elem_id zo → lock_elem_hash zo1 = lock_elem_hash zo →
  s_zoo_lock t f cb d zo1 = Some zo' → wake_ok z p zo z zo'.
Proof.
  intros Hid Hwa Hs Hn E1 E2 E3 E4 E5 E6 E7 E8 Hl. apply s_zoo_lock_inv in Hl as ->.
  apply ok_on; try done; [intros; apply signals_refl|by rewrite E5].
Qed.

Lemma unlock_wake z p t e k zo zo' :
  ids_wf zo → wakes z p zo → silent (pc_of zo t) → neutral (pc_of zo t) → s_zoo_unlock t e k zo = Some zo' →
  wake_ok z p zo z zo'.
Proof.
  intros Hid Hwa Hs Hn Hu. unfold s_zoo_unlock in Hu. destruct (z_elems zo !! e); [|done]. injection Hu as <-.
  apply ok_on; try done. intros; apply signals_refl.
Qed.

Lemma lockv_callback_wake z p t v e zo zo' :
  ids_wf zo → wakes z p zo → silent (pc_of zo t) → neutral (pc_of zo t) → lockv_callback t v e zo = Some zo' →
  wake_ok z p zo z zo'.
Proof.
  intros Hid Hwa Hs Hn Hu. unfold lockv_callback in Hu. destruct (z_vecs zo !! v) as [vec|]; [|done]. cbn in Hu.
  destruct (set_elem_ptr _ _ _) as [vec'|]; [|done]. cbn in Hu. case_match.
  - injection Hu as <-. apply ok_on; try done. intros; apply signals_refl.
  - destruct (lv_filenames vec' !! _) as [f|]; [|done]. cbn in Hu. eapply s_zoo_lock_wake; [..|exact Hu]; done.
Qed.

Lemma unlockv_next_wake z p t v i zo zo' :
  ids_wf zo → wakes z p zo → silent (pc_of zo t) → neutral (pc_of zo t) → unlockv_next t v i zo = Some zo' →
  wake_ok z p zo z zo'.
Proof.
  intros Hid Hwa Hs Hn Hu. unfold unlockv_next in Hu. destruct (z_vecs zo !! v) as [vec|]; [|done]. cbn in Hu.
  case_match. { injection Hu as <-. apply ok_on; try done. intros; apply signals_refl. }
  destruct (lv_lock_elems vec) as [es|]; [|done]. cbn in Hu. destruct (es !! _) as [q|]; [|done]. cbn in Hu.
  destruct q; [done| |by eapply unlock_wake]. injection Hu as <-. apply ok_on; try done. intros; apply signals_refl.
Qed.

Lemma thread_wake z ps p t zo z' zo' :
  zoo_inv (Sys z ps) → ps !! p = Some zo → ids_wf zo → wakes z p zo → thread_step z p t zo = Some (z', zo') →
  wake_ok z p zo z' zo'.
Proof using HZ HTL.
  intros Hi Hzo Hid Hwa Hs. unfold thread_step in Hs.
  destruct (pc_of zo t) as [|q cb d|q cb d|q nm cb d|e v cb d|c|e|e v|cb d e|e k|e k|v i] eqn:Hpc.
  - injection Hs as <- <-. by apply ok_other.
  - pose proof (lock_parent_wake z ps p t zo q cb d Hi Hzo Hid Hwa Hpc) as H. injection Hs as Hs. by rewrite Hs in H.
  - by eapply lock_node_wake.
  - by eapply lock_elem_wake.
  - unfold lock_check in Hs. destruct (z_elems zo !! e) as [el|] eqn:Hel; [|done]. cbn in Hs. injection Hs as <- <-.
    destruct (is_min v el) eqn:Hm; [eapply check_wake|eapply uncheck_wake]; try done; by rewrite Hpc.
  - destruct (try_lock_watcher t c zo) as [zo1|] eqn:E; [|done]. injection Hs as <- <-. by eapply watcher_wake.
  - by eapply watcher_try_wake.
  - unfold watcher_check in Hs. destruct (z_elems zo !! e) as [el|] eqn:Hel; [|done]. cbn in Hs.
    destruct (is_min v el) eqn:Hm.
    + destruct (el_callback el); [|done]. injection Hs as <- <-. eapply check_wake; try done; by rewrite Hpc.
    + injection Hs as <- <-. eapply uncheck_wake; try done; by rewrite Hpc.
  - destruct cb.
    + injection Hs as <- <-. apply ok_on; try done; [intros; apply signals_refl|by rewrite Hpc..].
    + destruct (lockv_callback _ _ _ _) as [zo1|] eqn:E; [|done]. injection Hs as <- <-.
      eapply lockv_callback_wake; try done; by rewrite Hpc.
  - pose proof (unlock_delete_wake z ps p t e k zo Hi Hzo Hid Hwa Hpc) as H. injection Hs as Hs. by rewrite Hs in H.
  - destruct (unlock_free _ _ _ _) as [zo1|] eqn:E; [|done]. injection Hs as <- <-. by eapply unlock_free_wake.
  - destruct (unlockv_next _ _ _ _) as [zo1|] eqn:E; [|done]. injection Hs as <- <-.
    eapply unlockv_next_wake; try done; by rewrite Hpc.
Qed.

Lemma call_wake z p t c zo zo' :
  ids_wf zo → wakes z p zo → pc_of zo t = PIdle → call_step t c zo = Some zo' → wake_ok z p zo z zo'.
Proof.
  intros Hid Hwa Hpc Hs. assert (silent (pc_of zo t) ∧ neutral (pc_of zo t)) as [Hsi Hn] by (by rewrite Hpc).
  destruct c as [f d|e| |v f|v d|v|v]; cbn in Hs.
  - eapply s_zoo_lock_wake; [..|exact Hs]; done.
  - by eapply unlock_wake.
  - injection Hs as <-. by apply ok_other.
  - unfold s_zoo_lockv_add in Hs. destruct (z_vecs zo !! v); [|done]. injection Hs as <-. by apply ok_other.
  - unfold s_zoo_lockv in Hs. destruct (z_vecs zo !! v) as [vec|]; [|done]. cbn in Hs.
    destruct (lv_filenames vec); [injection Hs as <-; by apply ok_other|]. eapply s_zoo_lock_wake; [..|exact Hs]; done.
  - injection Hs as <-. apply ok_on; try done. intros; apply signals_refl.
  - unfold s_zoo_lockv_free in Hs. destruct (z_vecs zo !! v) as [vec|]; [|done]. cbn in Hs.
    destruct (lv_filenames vec); [|done]. injection Hs as <-. by apply ok_other.
Qed.

Lemma event_wake z p t c l zo :
  ids_wf zo → wakes z p zo → pc_of zo t = PIdle → zk_events z p = c :: l →
  ids_wf (goto t (PTle c) zo) ∧ wakes (zk_deliver z p) p (goto t (PTle c) zo).
Proof using HZ.
  intros Hid Hwa Hpc He. destruct (deliver_signals z p c l p He) as [Hk Hev]. split.
  - apply (ids_keep zo); try done. by apply same_elems_refl.
  - apply (wakes_step z _ p zo _ t); try done.
    + intros t' Ht. by rewrite pc_of_goto, decide_False.
    + intros e _ _. apply unlocking_stays; [by rewrite Hpc|done].
    + intros e el Hel Hcb _ _ _. right. exists el. split_and!; try done; [by apply silent_witness; rewrite Hpc|].
      intros c' i _ H. destruct (Hev c' H) as [[_ ->]|?]; [right; by rewrite pc_of_goto, decide_True|by left].
Qed.

Lemma make_root_wake z p zo (nm : list Z) z' zo' :
  SLASH ∉ nm → make_root z p (SLASH :: nm) zo = (z', zo') →
  (∀ p', signals z z' p') ∧ ∃ l, zo' = prints l zo ∨ zo' = zo.
Proof using HZ.
  intros Hn. unfold make_root. destruct (zoo_create _ _ _ _) as [[r cr] z1] eqn:E.
  intros [= <- <-]. split; [intros p'; by eapply (create_signals z p [])|].
  destruct (_ || _); [exists []; by right|eexists; by left].
Qed.

Lemma empty_ids : ids_wf (zoo_empty : s_zoo TH).
Proof using HTL. split; [done|done|done|]. split; [apply tbl_new_ok|done]. Qed.

Lemma init_wake z p z' zo : s_zoo_init z p = (z', zo) → ids_wf zo ∧ wakes z' p zo ∧ ∀ p', signals z z' p'.
Proof using HZ HTL.
  unfold s_zoo_init. destruct (make_root z p LOCK_ROOT zoo_empty) as [z1 zo1] eqn:E1. intros E2.
  apply make_root_wake in E1 as [Hs1 [l1 H1]]; [|unfold SLASH; set_solver].
  apply make_root_wake in E2 as [Hs2 [l2 H2]]; [|unfold SLASH; set_solver].
  assert (ids_wf zo ∧ z_elems zo = ∅) as [Hid Hel].
  { pose proof empty_ids. destruct H1 as [->| ->], H2 as [->| ->]; (split; [|done]);
      (apply (ids_keep zoo_empty); [done..|by apply same_elems_refl|done]). }
  split_and!; [done| |intros p'; by eapply signals_trans]. intros _ _ e el H. by rewrite Hel in H.
Qed.

(** ** Every step *)
Context (named : list Z → Prop) (unlocker : Z → Z → Prop) (Hnamed : ∀ f, named f → good_name f).

Definition wake_inv (s : zsys zk TH) : Prop :=
  zoo_inv s ∧ ∀ p zo, sy_procs s !! p = Some zo → ids_wf zo ∧ wakes (sy_zk s) p zo.

Lemma wake_inv_update z ps p zo' z' :
  wake_inv (Sys z ps) → zoo_inv (Sys z' (<[p := zo']> ps)) → ids_wf zo' → wakes z' p zo' →
  (∀ p', p' ≠ p → signals z z' p') → wake_inv (Sys z' (<[p := zo']> ps)).
Proof.
  intros [_ H] Hi Hid Hwa Hs. split; [done|]. intros p' zp. cbn in *. rewrite lookup_insert_Some.
  intros [[<- <-]|[Hne Hp]]; [done|]. apply H in Hp as [? ?]. split; [done|]. by eapply wakes_other; [apply Hs|].
Qed.

Lemma zstep_wake s s' : zstep named unlocker s (Some s') → wake_inv s → wake_inv s'.
Proof using HZ HTL Hnamed.
  intros Hs Hi. assert (zoo_inv s') as Hi' by (eapply zstep_inv; [done|done|apply Hi]).
  remember (Some s') as r eqn:Er.
  destruct Hs as [z ps p z' zo Hn Hin|z ps p t zo Hzo Hb|z ps p t zo c Hzo Hpc Ha|z ps p t zo c l Hzo Hpc He].
  - injection Er as <-. apply init_wake in Hin as (? & ? & ?). eapply wake_inv_update; [done..|auto].
  - destruct (thread_step z p t zo) as [[z' zo']|] eqn:E; [|done]. injection Er as <-. pose proof Hi as [Hinv Hp].
    destruct (Hp _ _ Hzo) as [Hid Hwa]. apply (thread_wake z ps) in E as (? & ? & ?); [|done..].
    eapply wake_inv_update; [done..|auto].
  - destruct (call_step t c zo) as [zo'|] eqn:E; [|done]. injection Er as <-. pose proof Hi as [_ Hp].
    destruct (Hp _ _ Hzo) as [Hid Hwa]. apply (call_wake z p) in E as (? & ? & ?); [|done..].
    eapply wake_inv_update; [done..|auto].
  - injection Er as <-. pose proof Hi as [_ Hp]. destruct (Hp _ _ Hzo) as [Hid Hwa].
    destruct (event_wake z p t c l zo Hid Hwa Hpc He) as [? ?]. eapply wake_inv_update; [done..|].
    intros p' Hne. destruct (deliver_signals z p c l p' He) as [Hk Hev]. split; [done|].
    intros c' Hc. by destruct (Hev c' Hc) as [[? _]|?].
Qed.

Lemma zoo_reach_wake (s : zsys zk TH) : zoo_reach named unlocker s → wake_inv s.
Proof using HZ HTL Hnamed.
  intros (s0 & H0 & Hr).
  assert (wake_inv s0) as H0'.
  { split; [by apply start_inv|]. destruct H0 as [-> _]. intros p zo H. by rewrite lookup_empty in H. }
  clear H0. induction Hr as [|s0 s1 s2 Hs _ IH]; [done|]. apply IH. by eapply zstep_wake.
Qed.

End steps.
