(* ===== verification/ZooProgress.v ===== *)
(** * The locks of [s_zookeeper.c]: somebody holds the lock that is waited for

    When the service deletes what it is asked to, and a process unlocks with one
    thread only (they share [buf]), every node of a lock belongs to an element
    that is not unlocked yet; so the first one is granted, or will be. *)

From stdpp Require Import strings.
From S2P Require Import Prelude SString SHashSpec Zoo ZooLock ZooWake.
Local Open Scope Z_scope.

Section progress.
Context {zk TH : Type} `{HS : !ZkService zk} `{HZ : !ZkLaws zk} `{HT : !Table Z Z TH} `{HTL : !TableLaws Z Z TH}.
Context (named : list Z → Prop) (unlocker : Z → Z → Prop) (Hnamed : ∀ f, named f → good_name f).
Implicit Types (z : zk) (zo : s_zoo TH) (ps : gmap Z (s_zoo TH)) (el : s_zoo_lock_elem) (t p e : Z) (q nm : list Z).

(** [s_zoo_unlock] was called, but not [zoo_delete] *)
Definition deleting zo (o : Z + Z) : Prop := ∃ e t k, o = inr e ∧ pc_of zo t = PDelete e k.
Definition keeper zo (o : Z + Z) : Prop := live zo o ∨ deleting zo o.

(** every node of a lock is somebody's, while no error was seen *)
Definition kept z ps : Prop := (∀ p zo, ps !! p = Some zo → z_log zo = []) →
  ∀ f nm, good_name f → nm ∈ zk_children z (lock_path f) →
    ∃ p zo o, ps !! p = Some zo ∧ owns zo o (lock_path f) nm ∧ keeper zo o.

(** where [s_zoo_unlock] is, and what it will delete *)
Definition in_unlock (c : pc) : Prop :=
  match c with PDelete _ _ | PFree _ _ | PUnlockv _ _ => True | _ => False end.
Record unlock_ok p zo : Prop := {
  uo_thread t : in_unlock (pc_of zo t) → unlocker p t;
  uo_below e : unlocking zo e → e < z_nelem zo;
  uo_buf t e k el : pc_of zo t = PDelete e k → z_elems zo !! e = Some el →
    z_buf zo = child (el_parent_path el) (el_lock_path el)
}.

(** the children of the locks are only fewer *)
Definition no_more z z' : Prop :=
  ∀ f nm, good_name f → nm ∈ zk_children z' (lock_path f) → nm ∈ zk_children z (lock_path f).

Lemma no_more_same z z' : (∀ q, zk_children z' q ≡ₚ zk_children z q) → no_more z z'.
Proof. intros H f nm _. by rewrite H. Qed.

Lemma create_no_more z p q nm flags r created z' :
  q = LOCK_ROOT ∨ q = [] → SLASH ∉ nm → zoo_create z p (child q nm) flags = (r, created, z') → no_more z z'.
Proof using HZ.
  intros Hq Hn E. destruct (zoo_create_ok _ _ _ _ _ _ _ _ Hn E) as [_ [[_ H]|[_ [H _]]]].
  - destruct H as (_ & Hc & _). intros f nm' Hf. rewrite Hc; [done|].
    destruct Hq as [->| ->]; [apply lock_path_not_root|done].
  - apply no_more_same. intros q'. apply H.
Qed.
Lemma children_no_more z p q w r l z' : zoo_get_children z p q w = (r, l, z') → no_more z z'.
Proof using HZ.
  intros E. apply zoo_get_children_ok in E as [_ H]. apply no_more_same. intros q'.
  destruct w; [destruct H as [[H _]|[_ [H _]]]|destruct H as [H _]]; apply H.
Qed.
Lemma delete_no_more z p q nm r z' : SLASH ∉ nm → zoo_delete z p (child q nm) = (r, z') → no_more z z'.
Proof using HZ.
  intros Hn E. destruct (zoo_delete_ok _ _ _ _ _ _ Hn E) as [(Hc & Ho & _)|[_ [H _]]].
  - intros f nm' Hf. destruct (decide (lock_path f = q)) as [->|?]; [rewrite Hc; by intros [_ ?]%list_elem_of_filter|by rewrite Ho].
  - apply no_more_same. intros q'. apply H.
Qed.
Lemma deliver_no_more z p c l : zk_events z p = c :: l → no_more z (zk_deliver z p).
Proof using HZ. intros [H _]%zk_deliver_ok. apply no_more_same. intros q. apply H. Qed.

(** ** What a step does to the owners *)
Definition moves_on z zo z' zo' : Prop :=
  (z_log zo' = [] → z_log zo = []) ∧
  (∀ f nm, good_name f → nm ∈ zk_children z' (lock_path f) →
    nm ∈ zk_children z (lock_path f) ∨ (z_log zo' = [] → ∃ o, owns zo' o (lock_path f) nm ∧ keeper zo' o)) ∧
  ∀ o q nm, owns zo o q nm → keeper zo o →
    (∃ o', owns zo' o' q nm ∧ keeper zo' o') ∨ nm ∉ zk_children z' q.

Lemma kept_step z z' ps p zo zo' :
  kept z ps → ps !! p = Some zo → moves_on z zo z' zo' → kept z' (<[p := zo']> ps).
Proof.
  intros Hk Hzo (Hlog & Hnew & Hold) Hl f nm Hf Hin.
  assert (z_log zo' = []) as Hl' by (apply (Hl p); by rewrite lookup_insert_eq).
  destruct (Hnew f nm Hf Hin) as [Hin0|Ho].
  2: { destruct (Ho Hl') as (o & ? & ?). exists p, zo', o. by rewrite lookup_insert_eq. }
  destruct (Hk) with f nm as (p1 & zp & o & Hzp & Ho & Hkp); [|done..|].
  { intros p2 zp H. destruct (decide (p2 = p)) as [->|?]; [rewrite Hzo in H; injection H as <-; by apply Hlog|].
    apply (Hl p2). by rewrite lookup_insert_ne. }
  destruct (decide (p1 = p)) as [->|Hne].
  - rewrite Hzo in Hzp. injection Hzp as <-. destruct (Hold o _ _ Ho Hkp) as [(o' & ? & ?)|?]; [|done].
    exists p, zo', o'. by rewrite lookup_insert_eq.
  - exists p1, zp, o. by rewrite lookup_insert_ne.
Qed.

Definition not_freeing (c : pc) : Prop := match c with PDelete _ _ | PFree _ _ => False | _ => True end.
Lemma neutral_freeing c : neutral c → not_freeing c.
Proof. by destruct c. Qed.

(** the elements stay, and the thread is not unlocking or making one *)
Lemma owners_stay zo zo' t :
  (∀ t', t' ≠ t → pc_of zo' t' = pc_of zo t') → neutral (pc_of zo t) → not_freeing (pc_of zo' t) →
  (∀ e el, z_elems zo !! e = Some el → ∃ cb, z_elems zo' !! e = Some (set_callback cb el)) →
  ∀ o q nm, owns zo o q nm → keeper zo o → owns zo' o q nm ∧ keeper zo' o.
Proof.
  intros Hpc Hn Hn' Hel o q nm Ho Hk.
  assert (∀ e, unlocking zo' e → unlocking zo e) as Hul.
  { intros e (t' & k & H). exists t', k. rewrite <-Hpc; [done|]. intros ->. by destruct H as [H|H]; rewrite H in Hn'. }
  split.
  - destruct Ho as [t' q nm cb d Hp|e el He].
    + eapply own_thread. rewrite Hpc; [exact Hp|]. intros ->. by rewrite Hp in Hn.
    + destruct (Hel _ _ He) as [cb He']. exact (own_elem zo' e _ He').
  - destruct Hk as [Hl|(e & t' & k & -> & Ht)]; [left; destruct o; [done|cbn in *; auto]|].
    right. exists e, t', k. rewrite Hpc; [done|]. intros ->. by rewrite Ht in Hn.
Qed.

Lemma on_plain z z' zo zo' t :
  no_more z z' → (∀ t', t' ≠ t → pc_of zo' t' = pc_of zo t') → neutral (pc_of zo t) → not_freeing (pc_of zo' t) →
  (∀ e el, z_elems zo !! e = Some el → ∃ cb, z_elems zo' !! e = Some (set_callback cb el)) →
  (z_log zo' = [] → z_log zo = []) → moves_on z zo z' zo'.
Proof.
  intros Hc Hpc Hn Hn' Hel Hlog. split_and!; [done|by intros; left; apply Hc|].
  intros o q nm Ho Hk. left. exists o. by apply (owners_stay zo zo' t).
Qed.
Lemma on_goto z z' zo zo1 t c :
  no_more z z' → neutral (pc_of zo t) → neutral c → z_threads zo1 = z_threads zo → z_elems zo1 = z_elems zo →
  (z_log zo1 = [] → z_log zo = []) → moves_on z zo z' (goto t c zo1).
Proof.
  intros Hc Hn Hn' Eth Eel Hlog. apply (on_plain z z' zo _ t); try done.
  - intros t' Ht. rewrite pc_of_goto, decide_False by done. unfold pc_of. by rewrite Eth.
  - rewrite pc_of_goto, decide_True by done. by apply neutral_freeing.
  - intros e el He. exists (el_callback el). cbn. rewrite Eel, He. by destruct el.
Qed.
Lemma on_callback z zo t c e el zo1 :
  neutral (pc_of zo t) → neutral c → z_threads zo1 = z_threads zo → z_elems zo !! e = Some el →
  z_elems zo1 = <[e := set_callback None el]> (z_elems zo) → z_log zo1 = z_log zo → moves_on z zo z (goto t c zo1).
Proof.
  intros Hn Hn' Eth Hel Eel Hlog. apply (on_plain z z zo _ t); try done.
  - by intros f nm.
  - intros t' Ht. rewrite pc_of_goto, decide_False by done. unfold pc_of. by rewrite Eth.
  - rewrite pc_of_goto, decide_True by done. by apply neutral_freeing.
  - intros e' el' He. cbn. rewrite Eel. destruct (decide (e = e')) as [<-|?].
    + exists None. rewrite lookup_insert_eq. congruence.
    + exists (el_callback el'). rewrite lookup_insert_ne, He by done. by destruct el'.
  - cbn. by rewrite Hlog.
Qed.
Lemma no_more_refl z : no_more z z.
Proof. by intros f nm. Qed.

Lemma unlock_goto p zo zo1 t c :
  unlock_ok p zo → ¬ in_unlock c ∨ (∃ v i, c = PUnlockv v i) ∧ unlocker p t → z_threads zo1 = z_threads zo →
  z_nelem zo <= z_nelem zo1 → z_buf zo1 = z_buf zo →
  (∀ e el, e < z_nelem zo → z_elems zo1 !! e = Some el → ∃ el0, z_elems zo !! e = Some el0 ∧
    el_parent_path el = el_parent_path el0 ∧ el_lock_path el = el_lock_path el0) →
  unlock_ok p (goto t c zo1).
Proof.
  intros [H1 H2 H3] Hc Eth Ene Ebuf Hel.
  assert (∀ t', pc_of (goto t c zo1) t' = if decide (t = t') then c else pc_of zo t') as Hpc.
  { intros t'. rewrite pc_of_goto. unfold pc_of. by rewrite Eth. }
  assert (∀ t' e k, pc_of (goto t c zo1) t' = PDelete e k ∨ pc_of (goto t c zo1) t' = PFree e k →
    pc_of (goto t c zo1) t' = pc_of zo t' ∧ unlocking zo e) as Hun.
  { intros t' e k. rewrite Hpc. case_decide as Ht.
    - intros Hor. exfalso. destruct Hc as [Hc|[(v & i & ->) _]]; [|by destruct Hor].
      apply Hc. by destruct Hor as [->| ->].
    - intros Hor. split; [done|]. by exists t', k. }
  split.
  - intros t'. rewrite Hpc. case_decide as Ht; [subst t'|apply H1]. destruct Hc as [Hc|[_ ?]]; [by intros ?%Hc|done].
  - intros e (t' & k & H). apply Hun in H as [_ H]. apply H2 in H. cbn. lia.
  - intros t' e k el H He. destruct (Hun t' e k (or_introl H)) as [Ep Hu]. cbn in He |- *. rewrite Ebuf.
    destruct (Hel e el (H2 _ Hu) He) as (el0 & He0 & -> & ->). apply (H3 t' e k el0); [by rewrite <-Ep|done].
Qed.

Lemma unlock_same p zo zo1 t c :
  unlock_ok p zo → ¬ in_unlock c ∨ (∃ v i, c = PUnlockv v i) ∧ unlocker p t → z_threads zo1 = z_threads zo →
  z_nelem zo1 = z_nelem zo → z_buf zo1 = z_buf zo → z_elems zo1 = z_elems zo → unlock_ok p (goto t c zo1).
Proof.
  intros H Hc Eth Ene Ebuf Eel. apply (unlock_goto p zo); try done; [lia|]. intros e el _ He. rewrite Eel in He. by exists el.
Qed.

Definition step_ok z p zo z' zo' : Prop := moves_on z zo z' zo' ∧ unlock_ok p zo'.

(** a step that does not concern the nodes *)
Lemma ok_plain z z' p zo zo1 t c :
  unlock_ok p zo → no_more z z' → neutral (pc_of zo t) → neutral c →
  ¬ in_unlock c ∨ (∃ v i, c = PUnlockv v i) ∧ unlocker p t →
  z_threads zo1 = z_threads zo → z_nelem zo1 = z_nelem zo → z_buf zo1 = z_buf zo → z_elems zo1 = z_elems zo →
  (z_log zo1 = [] → z_log zo = []) → step_ok z p zo z' (goto t c zo1).
Proof. intros. split; [by apply on_goto|by apply (unlock_same p zo)]. Qed.

Lemma lock_parent_on z ps p t zo q cb d :
  zoo_inv (Sys z ps) → ps !! p = Some zo → unlock_ok p zo → pc_of zo t = PParent q cb d →
  let '(z', zo') := lock_parent z p t q cb d zo in step_ok z p zo z' zo'.
Proof using HZ.
  intros (_ & Hp & _) Hzo Hu Hpc. destruct (Hp _ _ Hzo) as (Hw & _).
  pose proof (wf_pc _ Hw t) as Hq. rewrite Hpc in Hq. destruct Hq as (f & Hf & ->).
  unfold lock_parent. destruct (zoo_create _ _ _ _) as [[r created] z'] eqn:E.
  assert (no_more z z') as Hm by (eapply create_no_more; [by left| |exact E]; apply Hf).
  destruct (_ || _); apply ok_plain; try done; try (by rewrite Hpc); try (left; by intros []). apply log_app.
Qed.

Lemma lock_node_on z ps p t zo q cb d z' zo' :
  zoo_inv (Sys z ps) → ps !! p = Some zo → unlock_ok p zo → pc_of zo t = PNode q cb d →
  lock_node z p t q cb d zo = Some (z', zo') → step_ok z p zo z' zo'.
Proof using HZ.
  intros (_ & Hp & _) Hzo Hu Hpc Hs. destruct (Hp _ _ Hzo) as (Hw & _).
  pose proof (wf_pc _ Hw t) as Hq. rewrite Hpc in Hq. destruct Hq as (f & Hf & ->).
  unfold lock_node in Hs. destruct (zoo_create _ _ _ _) as [[r created] z1] eqn:E.
  assert (neutral (pc_of zo t)) as Hn by (by rewrite Hpc).
  destruct (zoo_create_ok _ _ _ _ _ _ _ _ (not_elem_of_nil SLASH) E) as [Hr Ha]. unfold new_name in *. change (has_flag ZOO_SEQUENCE [ZOO_EPHEMERAL; ZOO_SEQUENCE]) with true in *. cbn [app] in *.
  assert (∀ zo1 c, z_threads zo1 = z_threads zo → z_elems zo1 = z_elems zo → not_freeing c →
    ∀ o q nm, owns zo o q nm → keeper zo o → owns (goto t c zo1) o q nm ∧ keeper (goto t c zo1) o) as Hst.
  { intros zo1 c Eth Eel Hc. apply (owners_stay zo _ t); [|done|by rewrite pc_of_goto, decide_True|].
    - intros t' Ht. rewrite pc_of_goto, decide_False by done. unfold pc_of. by rewrite Eth.
    - intros e el He. exists (el_callback el). cbn. rewrite Eel, He. by destruct el. }
  destruct (r =? ZOK) eqn:Er; zbool.
  - destruct Ha as [[_ (Hc & Ho & _)]|[? _]]; [|done]. rewrite (Hr Er), node_in_buffer in Hs by done. injection Hs as <- <-.
    split; [|apply (unlock_same p zo); try done; left; by intros []]. split_and!; [done| |].
    + intros f' nm Hf' Hin. destruct (decide (lock_path f' = lock_path f)) as [E'|Hne].
      * rewrite E' in *. rewrite Hc in Hin. apply elem_of_cons in Hin as [->|?]; [right|by left].
        intros _. exists (inl t). split; [|by left]. eapply own_thread. by rewrite pc_of_goto, decide_True.
      * left. by rewrite Ho in Hin.
    + intros o q nm Ho' Hk. left. exists o. by apply Hst.
  - injection Hs as <- <-. split; [|apply (unlock_same p zo); try done; left; by intros []].
    split_and!; [apply log_app|intros f' nm _ _; right; cbn; by intros [_ ?]%app_nil|].
    intros o q nm Ho Hk. left. exists o. by apply Hst.
Qed.

(** the node becomes the element's *)
Lemma lock_elem_on z p t zo q nm cb d z' zo' :
  proc_wf zo → unlock_ok p zo → pc_of zo t = PElem q nm cb d →
  lock_elem z p t q nm cb d zo = Some (z', zo') → step_ok z p zo z' zo'.
Proof using HZ.
  intros Hw Hu Hpc Hs. unfold lock_elem in Hs.
  set (zo0 := (new_elem cb d q nm zo).2) in *. change (new_elem cb d q nm zo) with (z_nelem zo, zo0) in Hs. cbn iota in Hs.
  destruct (try_lock z p (z_nelem zo) zo0) as [[[v z1] zo1]|] eqn:E; [|done].
  assert (no_more z z1 ∧ (z_log zo1 = [] → z_log zo = [])) as [Hm Hlog].
  { unfold try_lock in E. destruct (z_elems zo0 !! _); [|done]. cbn in E.
    destruct (zoo_get_children _ _ _ _) as [[r l] z2] eqn:E'. apply children_no_more in E'.
    by destruct (r =? ZOK); injection E as <- <- <-; (split; [done|]); [|apply log_app]. }
  apply try_lock_spec in E as (_ & _ & _ & E1 & E2 & E3 & E4 & _). cbn in E1, E2, E3, E4.
  assert (∀ c zo2, (c = PIdle ∧ zo2 = zo1 ∨ (∃ l, c = PGot (z_nelem zo) l cb d) ∧ zo2 = with_lock_m (Some t) zo1) →
    step_ok z p zo z1 (goto t c zo2)) as Hgo.
  2: { injection Hs as <- <-. destruct v; apply Hgo; [right; eauto|by left]. }
  intros c zo2 Hc.
  assert (z_elems zo2 = z_elems zo1 ∧ z_threads zo2 = z_threads zo ∧ z_nelem zo2 = z_nelem zo1 ∧ z_buf zo2 = z_buf zo1 ∧
    z_log zo2 = z_log zo1) as (F1 & F2 & F3 & F4 & F5) by (by destruct Hc as [(_ & ->)|(_ & ->)]).
  assert (not_freeing c ∧ neutral c ∧ ¬ in_unlock c) as (Hc1 & Hc2 & Hc3).
  { destruct Hc as [(-> & _)|([l ->] & _)]; split_and!; try done; by intros []. }
  assert (∀ t', pc_of (goto t c zo2) t' = if decide (t = t') then c else pc_of zo t') as Hpc'.
  { intros t'. rewrite pc_of_goto. unfold pc_of. by rewrite F2. }
  assert (∀ e, unlocking (goto t c zo2) e → unlocking zo e) as Hul.
  { intros e (t' & k & H). exists t', k. rewrite Hpc' in H. case_decide; [|done]. by destruct H as [->| ->]. }
  split.
  2: { apply (unlock_goto p zo); [done|by left|done|rewrite F3, E2; lia|by rewrite F4, E3|].
       intros e el He. rewrite F1, E1, lookup_insert_ne by lia. intros H. by exists el. }
  split_and!; [cbn; rewrite F5; done|intros f nm' Hf H; left; by apply Hm|].
  intros o q' nm' Ho Hk. left. destruct Ho as [t' q' nm' cb' d' Hp'|e el He].
  - destruct (decide (t' = t)) as [->|Ht].
    + rewrite Hpc in Hp'. injection Hp' as <- <- _ _. exists (inr (z_nelem zo)). split.
      * apply (own_elem _ _ (Elem (Some cb) d q nm (lock_elem_id zo))). cbn. by rewrite F1, E1, lookup_insert_eq.
      * left. cbn. intros H%Hul%(uo_below _ _ Hu). lia.
    + exists (inl t'). split; [|by left]. eapply own_thread. by rewrite Hpc', decide_False.
  - exists (inr e). pose proof (wf_elem _ Hw _ _ He) as [Hlt _]. split.
    + apply own_elem. cbn. by rewrite F1, E1, lookup_insert_ne by lia.
    + destruct Hk as [Hl|(e' & t' & k & [= <-] & Ht)]; [left; cbn in *; auto|].
      right. exists e, t', k. split; [done|]. rewrite Hpc', decide_False; [done|]. intros ->. congruence.
Qed.

(** one thread of a process unlocks *)
Context (Hone : ∀ p t t', unlocker p t → unlocker p t' → t = t').

Lemma unlock_on z p t e k zo zo' :
  proc_wf zo → unlock_ok p zo → neutral (pc_of zo t) → unlocker p t → s_zoo_unlock t e k zo = Some zo' →
  step_ok z p zo z zo'.
Proof using Hone.
  intros Hw [H1 H2 H3] Hn Hut Hs. unfold s_zoo_unlock in Hs. destruct (z_elems zo !! e) as [el|] eqn:Hel; [|done]. injection Hs as <-.
  assert (take 254 (child (el_parent_path el) (el_lock_path el)) = child (el_parent_path el) (el_lock_path el)) as ->.
  { pose proof (wf_elem _ Hw _ _ Hel) as [_ (f & i & Hf & _ & -> & ->)]. apply take_ge.
    rewrite node_length. destruct Hf as [_ ?]. lia. }
  set (zo1 := with_buf _ zo).
  assert (∀ t', pc_of (goto t (PDelete e k) zo1) t' = if decide (t = t') then PDelete e k else pc_of zo t') as Hpc.
  { intros t'. by rewrite pc_of_goto. }
  split.
  - split_and!; [done|intros f nm _ H; by left|]. intros o q nm Ho Hk. left. exists o. split.
    + destruct Ho as [t' q nm cb d Hp|e' el' He']; [|by apply own_elem].
      eapply own_thread. rewrite Hpc, decide_False; [exact Hp|]. intros ->. by rewrite Hp in Hn.
    + destruct o as [t'|e']; [by left|]. destruct (decide (e' = e)) as [->|Hne].
      { right. exists e, t, k. split; [done|]. by rewrite Hpc, decide_True. }
      destruct Hk as [Hl|(e2 & t' & k' & [= <-] & Ht)].
      * left. intros (t' & k' & Ht). rewrite Hpc in Ht. case_decide; [destruct Ht; congruence|]. apply Hl. by exists t', k'.
      * right. exists e', t', k'. split; [done|]. rewrite Hpc, decide_False; [done|]. intros ->. by rewrite Ht in Hn.
  - split.
    + intros t'. rewrite Hpc. case_decide; [by subst|apply H1].
    + intros e' (t' & k' & Ht). rewrite Hpc in Ht. cbn. case_decide; [|apply H2; by exists t', k'].
      destruct Ht; simplify_eq. by apply (wf_elem _ Hw) in Hel as [? _].
    + intros t' e' k' el' Ht He'. rewrite Hpc in Ht. case_decide.
      * simplify_eq. cbn in He'. rewrite Hel in He'. by injection He' as <-.
      * exfalso. assert (t' = t) by (apply (Hone p); [apply H1; by rewrite Ht|done]). congruence.
Qed.

(** a delete removes the node *)
Definition deletes : Prop := ∀ z p q nm r z', SLASH ∉ nm → zoo_delete z p (child q nm) = (r, z') → nm ∉ zk_children z' q.

Lemma unlock_delete_on z ps p t e k zo :
  deletes → zoo_inv (Sys z ps) → ps !! p = Some zo → unlock_ok p zo → pc_of zo t = PDelete e k →
  let '(z', zo') := unlock_delete z p t e k zo in step_ok z p zo z' zo'.
Proof using HZ Hone.
  intros Hdel (_ & Hp & _ & Hb) Hzo [H1 H2 H3] Hpc. destruct (Hp _ _ Hzo) as (Hw & _). unfold unlock_delete.
  destruct (Hb _ _ _ _ _ Hzo Hpc) as (f & i & Hf & Hi & Ebuf & _).
  destruct (zoo_delete _ _ _) as [r z'] eqn:E.
  assert (∀ t', pc_of (goto t (PFree e k) zo) t' = if decide (t = t') then PFree e k else pc_of zo t') as Hpc'.
  { intros t'. by rewrite pc_of_goto. }
  assert (∀ e', unlocking (goto t (PFree e k) zo) e' → unlocking zo e') as Hul.
  { intros e' (t' & k' & H). rewrite Hpc' in H. case_decide; [|by exists t', k']. destruct H; simplify_eq. exists t', k'. by left. }
  split.
  - split_and!; [done| |].
    + intros f' nm Hf' H. left. rewrite Ebuf in E. eapply delete_no_more; [|exact E|done|done]. apply seq_name_slash.
    + intros o q nm Ho Hk. destruct Ho as [t' q nm cb d Ht|e' el' He'].
      { left. exists (inl t'). split; [|by left]. eapply own_thread. rewrite Hpc', decide_False; [exact Ht|]. intros ->. congruence. }
      destruct (decide (e' = e)) as [->|Hne].
      * right. pose proof (H3 _ _ _ _ Hpc He') as E'. rewrite E' in E.
        pose proof (wf_elem _ Hw _ _ He') as [_ (? & ? & _ & _ & _ & En)]. rewrite En in E |- *.
        eapply Hdel; [apply seq_name_slash|exact E].
      * left. exists (inr e'). split; [by apply own_elem|]. destruct Hk as [Hl|(e2 & t' & k' & [= <-] & Ht)].
        -- left. cbn in *. auto.
        -- right. exists e', t', k'. split; [done|]. rewrite Hpc', decide_False; [done|]. intros ->. congruence.
  - split.
    + intros t'. rewrite Hpc'. case_decide; [subst; intros _; apply H1; by rewrite Hpc|apply H1].
    + intros e' H%Hul. by apply H2.
    + intros t' e' k' el'. rewrite Hpc'. case_decide; [done|]. apply H3.
Qed.

Lemma unlock_free_on z p t e k zo zo' :
  unlock_ok p zo → pc_of zo t = PFree e k → unlock_free t e k zo = Some zo' → step_ok z p zo z zo'.
Proof using Hone.
  intros [H1 H2 H3] Hpc Hs. unfold unlock_free in Hs. destruct (z_elems zo !! e) as [el|] eqn:Hel; [|done]. cbn in Hs.
  assert (unlocker p t) as Hut by (apply H1; by rewrite Hpc).
  assert (∀ c zo1, c = PIdle ∨ (∃ v i, c = PUnlockv v i) → z_elems zo1 = delete e (z_elems zo) →
    z_threads zo1 = z_threads zo → z_nelem zo1 = z_nelem zo → z_buf zo1 = z_buf zo → z_log zo1 = z_log zo →
    step_ok z p zo z (goto t c zo1)) as Hgo.
  { intros c zo1 Hc E1 E2 E3 E4 E5.
    assert (∀ t', pc_of (goto t c zo1) t' = if decide (t = t') then c else pc_of zo t') as Hpc'.
    { intros t'. rewrite pc_of_goto. unfold pc_of. by rewrite E2. }
    split.
    - split_and!; [cbn; by rewrite E5|intros f nm _ H; by left|].
      intros o q nm Ho Hk. left. exists o. destruct Ho as [t' q nm cb d Ht|e' el' He'].
      + split; [|by left]. eapply own_thread. rewrite Hpc', decide_False; [exact Ht|]. intros ->. congruence.
      + assert (e' ≠ e) as Hne.
        { intros ->. destruct Hk as [Hl|(e2 & t' & k' & [= <-] & Ht)]; [apply Hl; exists t, k; by right|].
          assert (t' = t) by (apply (Hone p); [apply H1; by rewrite Ht|done]). congruence. }
        split; [apply own_elem; cbn; by rewrite E1, lookup_delete_ne|].
        destruct Hk as [Hl|(e2 & t' & k' & [= <-] & Ht)].
        * left. intros (t' & k' & H). apply Hl. exists t', k'. rewrite Hpc' in H. case_decide; [|done].
          destruct Hc as [->|(v & i & ->)]; by destruct H.
        * right. exists e', t', k'. split; [done|]. rewrite Hpc', decide_False; [done|]. intros ->. congruence.
    - apply (unlock_goto p zo); [done| |done|lia|done|].
      + destruct Hc as [->|?]; [left; by intros []|by right].
      + intros e' el' _. rewrite E1, lookup_delete_Some. intros [_ H]. by exists el'. }
  destruct k as [[v i]|].
  - destruct (z_vecs zo !! v) as [vec|]; [|done]. cbn in Hs. destruct (set_elem_ptr _ _ _); [|done].
    injection Hs as <-. apply Hgo; eauto.
  - injection Hs as <-. apply Hgo; eauto.
Qed.

Lemma check_on z p t zo e el cb d zo1 :
  unlock_ok p zo → neutral (pc_of zo t) → z_elems zo !! e = Some el →
  z_elems zo1 = <[e := set_callback None el]> (z_elems zo) → z_threads zo1 = z_threads zo →
  z_nelem zo1 = z_nelem zo → z_buf zo1 = z_buf zo → z_log zo1 = z_log zo → step_ok z p zo z (goto t (PCall cb d e) zo1).
Proof.
  intros Hu Hn Hel E1 E2 E3 E4 E5. split; [by eapply on_callback|].
  apply (unlock_goto p zo); [done|left; by intros []|done|lia|done|].
  intros e' el' _. rewrite E1, lookup_insert_Some. intros [[<- <-]|[_ H]]; [by exists el|by exists el'].
Qed.

Lemma ok_silent z z' p zo zo1 t c :
  unlock_ok p zo → no_more z z' → neutral (pc_of zo t) → neutral c → ¬ in_unlock c →
  z_threads zo1 = z_threads zo → z_nelem zo1 = z_nelem zo → z_buf zo1 = z_buf zo → z_elems zo1 = z_elems zo →
  (z_log zo1 = [] → z_log zo = []) → step_ok z p zo z' (goto t c zo1).
Proof. intros. apply ok_plain; try done. by left. Qed.

Ltac quiet Hpc :=
  apply ok_silent; try done; try apply no_more_refl; try (by rewrite Hpc); try (by intros []).

Lemma watcher_try_on z p t e zo z' zo' :
  unlock_ok p zo → pc_of zo t = PWatch e → watcher_try z p t e zo = Some (z', zo') → step_ok z p zo z' zo'.
Proof using HZ.
  intros Hu Hpc Hs. unfold watcher_try in Hs. destruct (z_elems zo !! e) as [el|]; [|done]. cbn in Hs.
  destruct (el_callback el).
  - destruct (try_lock _ _ _ _) as [[[v z1] zo1]|] eqn:E; [|done]. injection Hs as <- <-.
    pose proof E as (el' & _ & _ & E1 & E2 & E3 & E4 & _)%try_lock_spec.
    assert (no_more z z1 ∧ (z_log zo1 = [] → z_log zo = [])) as [Hm Hlog].
    { unfold try_lock in E. destruct (z_elems zo !! e); [|done]. cbn in E.
      destruct (zoo_get_children _ _ _ _) as [[r l'] z2] eqn:E'. apply children_no_more in E'.
      by destruct (r =? ZOK); injection E as <- <- <-; (split; [done|]); [|apply log_app]. }
    quiet Hpc; destruct v; try done; by intros [].
  - injection Hs as <- <-. quiet Hpc.
Qed.

Lemma s_zoo_lock_on z p t f cb d zo zo1 zo' :
  unlock_ok p zo → neutral (pc_of zo t) → z_threads zo1 = z_threads zo → z_nelem zo1 = z_nelem zo →
  z_buf zo1 = z_buf zo → z_elems zo1 = z_elems zo → z_log zo1 = z_log zo →
  s_zoo_lock t f cb d zo1 = Some zo' → step_ok z p zo z zo'.
Proof.
  intros Hu Hn E1 E2 E3 E4 E5 Hl. apply s_zoo_lock_inv in Hl as ->. quiet Hn.
Qed.

Lemma unlockv_next_on z p t v i zo zo' :
  proc_wf zo → unlock_ok p zo → pc_of zo t = PUnlockv v i → unlockv_next t v i zo = Some zo' → step_ok z p zo z zo'.
Proof using Hone.
  intros Hw Hu Hpc Hs. assert (unlocker p t) as Hut by (apply (uo_thread _ _ Hu); by rewrite Hpc).
  unfold unlockv_next in Hs. destruct (z_vecs zo !! v) as [vec|]; [|done]. cbn in Hs.
  case_match. { injection Hs as <-. quiet Hpc. }
  destruct (lv_lock_elems vec) as [es|]; [|done]. cbn in Hs. destruct (es !! _) as [q|]; [|done]. cbn in Hs.
  destruct q; [done| |eapply unlock_on; [done|done|by rewrite Hpc|done|done]].
  injection Hs as <-. apply ok_plain; try done; [apply no_more_refl|by rewrite Hpc|right; eauto].
Qed.

Lemma thread_on z ps p t zo z' zo' :
  deletes → zoo_inv (Sys z ps) → ps !! p = Some zo → unlock_ok p zo → thread_step z p t zo = Some (z', zo') →
  step_ok z p zo z' zo'.
Proof using HZ Hone.
  intros Hdel Hi Hzo Hu Hs. pose proof Hi as (_ & Hp & _). destruct (Hp _ _ Hzo) as (Hw & _). unfold thread_step in Hs.
  destruct (pc_of zo t) as [|q cb d|q cb d|q nm cb d|e v cb d|c|e|e v|cb d e|e k|e k|v i] eqn:Hpc.
  - injection Hs as <- <-. split; [|done]. split_and!; [done|intros f nm _ H; by left|]. intros o q nm Ho Hk. left. by exists o.
  - pose proof (lock_parent_on z ps p t zo q cb d Hi Hzo Hu Hpc) as H. injection Hs as Hs. by rewrite Hs in H.
  - by eapply lock_node_on.
  - by eapply lock_elem_on.
  - unfold lock_check in Hs. destruct (z_elems zo !! e) as [el|] eqn:Hel; [|done]. cbn in Hs. injection Hs as <- <-.
    destruct (is_min v el).
    + eapply check_on; try done. by rewrite Hpc.
    + quiet Hpc.
  - unfold try_lock_watcher in Hs. destruct (z_tles zo !! c) as [[e i]|]; [|done]. cbn in Hs. injection Hs as <- <-.
    destruct (tbl_get _ _); quiet Hpc.
  - by eapply watcher_try_on.
  - unfold watcher_check in Hs. destruct (z_elems zo !! e) as [el|] eqn:Hel; [|done]. cbn in Hs. destruct (is_min v el).
    + destruct (el_callback el); [|done]. injection Hs as <- <-. eapply check_on; try done. by rewrite Hpc.
    + injection Hs as <- <-. quiet Hpc.
  - destruct cb.
    + injection Hs as <- <-. quiet Hpc.
    + unfold lockv_callback in Hs. destruct (z_vecs zo !! d) as [vec|]; [|done]. cbn in Hs.
      destruct (set_elem_ptr _ _ _) as [vec'|]; [|done]. cbn in Hs. case_match.
      * injection Hs as <- <-. quiet Hpc.
      * destruct (lv_filenames vec' !! _) as [f|]; [|done]. cbn in Hs.
        destruct (s_zoo_lock _ _ _ _ _) as [zo1|] eqn:E; [|done]. injection Hs as <- <-.
        eapply s_zoo_lock_on; [done|by rewrite Hpc|..|exact E]; done.
  - pose proof (unlock_delete_on z ps p t e k zo Hdel Hi Hzo Hu Hpc) as H. injection Hs as Hs. by rewrite Hs in H.
  - destruct (unlock_free _ _ _ _) as [zo1|] eqn:E; [|done]. injection Hs as <- <-. by eapply unlock_free_on.
  - destruct (unlockv_next _ _ _ _) as [zo1|] eqn:E; [|done]. injection Hs as <- <-. by eapply unlockv_next_on.
Qed.

(** what the nodes do not depend on *)
Lemma ok_rest z p zo zo' :
  unlock_ok p zo → z_threads zo' = z_threads zo → z_nelem zo' = z_nelem zo → z_buf zo' = z_buf zo →
  z_elems zo' = z_elems zo → z_log zo' = z_log zo → step_ok z p zo z zo'.
Proof.
  intros [H1 H2 H3] E1 E2 E3 E4 E5. assert (∀ t, pc_of zo' t = pc_of zo t) as Hpc by (intros t; unfold pc_of; by rewrite E1).
  assert (∀ e, unlocking zo' e ↔ unlocking zo e) as Hul by (intros e; unfold unlocking; by setoid_rewrite Hpc).
  split.
  - split_and!; [by rewrite E5|intros f nm _ H; by left|]. intros o q nm Ho Hk. left. exists o. split.
    + destruct Ho as [t q nm cb d H|e el H]; [eapply own_thread; by rewrite Hpc|apply own_elem; by rewrite E4].
    + destruct Hk as [Hl|(e & t & k & -> & H)]; [left; destruct o; [done|cbn in *; by rewrite Hul]|].
      right. exists e, t, k. by rewrite Hpc.
  - split; [intros t; rewrite Hpc; apply H1|intros e; rewrite Hul, E2; auto|].
    intros t e k el. rewrite Hpc, E3, E4. eauto.
Qed.

Lemma call_on z p t c zo zo' :
  proc_wf zo → unlock_ok p zo → pc_of zo t = PIdle → allowed named unlocker p t c → call_step t c zo = Some zo' →
  step_ok z p zo z zo'.
Proof using Hone.
  intros Hw Hu Hpc Ha Hs. assert (neutral (pc_of zo t)) as Hn by (by rewrite Hpc).
  destruct c as [f d|e| |v f|v d|v|v]; cbn in Hs, Ha.
  - eapply s_zoo_lock_on; [..|exact Hs]; done.
  - by eapply unlock_on.
  - injection Hs as <-. by apply ok_rest.
  - unfold s_zoo_lockv_add in Hs. destruct (z_vecs zo !! v); [|done]. injection Hs as <-. by apply ok_rest.
  - unfold s_zoo_lockv in Hs. destruct (z_vecs zo !! v) as [vec|]; [|done]. cbn in Hs.
    destruct (lv_filenames vec); [injection Hs as <-; by apply ok_rest|]. eapply s_zoo_lock_on; [..|exact Hs]; done.
  - injection Hs as <-. apply ok_plain; try done; [apply no_more_refl|right; eauto].
  - unfold s_zoo_lockv_free in Hs. destruct (z_vecs zo !! v) as [vec|]; [|done]. cbn in Hs.
    destruct (lv_filenames vec); [|done]. injection Hs as <-. by apply ok_rest.
Qed.

(** ** The theorem *)
Definition kept_inv (s : zsys zk TH) : Prop :=
  zoo_inv s ∧ kept (sy_zk s) (sy_procs s) ∧ ∀ p zo, sy_procs s !! p = Some zo → unlock_ok p zo.

Lemma kept_update z ps p zo z' zo' :
  kept_inv (Sys z ps) → ps !! p = Some zo → zoo_inv (Sys z' (<[p := zo']> ps)) → step_ok z p zo z' zo' →
  kept_inv (Sys z' (<[p := zo']> ps)).
Proof.
  intros (_ & Hk & Hu) Hzo Hi [Hm Hu']. split_and!; [done|by eapply kept_step|].
  intros p' zp. cbn. rewrite lookup_insert_Some. intros [[<- <-]|[_ H]]; [done|by apply Hu].
Qed.

Lemma init_kept z ps p z' zo :
  kept_inv (Sys z ps) → ps !! p = None → zoo_inv (Sys z' (<[p := zo]> ps)) → s_zoo_init z p = (z', zo) →
  kept_inv (Sys z' (<[p := zo]> ps)).
Proof using HZ.
  clear Hone Hnamed HTL. intros (_ & Hk & Hu) Hn Hi Hs. unfold s_zoo_init in Hs. destruct (make_root z p LOCK_ROOT zoo_empty) as [z1 zo1] eqn:E1.
  assert (∀ z zo0 (nm : list Z) z' zo', SLASH ∉ nm → make_root z p (SLASH :: nm) zo0 = (z', zo') →
    no_more z z' ∧ z_threads zo' = z_threads zo0) as Hroot.
  { clear -HZ. intros z zo0 nm z' zo' Hn. unfold make_root. destruct (zoo_create _ _ _ _) as [[r cr] z1] eqn:E.
    intros [= <- <-]. split; [|by case_match]. eapply (create_no_more z p []); [by right|exact Hn|exact E]. }
  apply Hroot in E1 as [Hm1 Et1]; [|unfold SLASH; set_solver]. apply Hroot in Hs as [Hm2 Et2]; [|unfold SLASH; set_solver].
  assert (∀ t, pc_of zo t = PIdle) as Hpc by (intros t; unfold pc_of; by rewrite Et2, Et1).
  split_and!; [done| |].
  - intros Hl f nm Hf Hin. cbn in *. destruct (Hk) with f nm as (p1 & zp & o & Hzp & Ho & Hkp); [|done|auto|].
    + intros p2 zp H. apply (Hl p2). rewrite lookup_insert_ne; [done|]. congruence.
    + exists p1, zp, o. rewrite lookup_insert_ne by congruence. done.
  - intros p' zp. cbn. rewrite lookup_insert_Some. intros [[<- <-]|[_ H]]; [|by apply Hu]. split.
    + intros t. by rewrite Hpc.
    + intros e (t & k & H). rewrite Hpc in H. by destruct H.
    + intros t e k el H. by rewrite Hpc in H.
Qed.

Lemma zstep_kept s s' : deletes → zstep named unlocker s (Some s') → kept_inv s → kept_inv s'.
Proof using HZ Hnamed Hone.
  intros Hdel Hs Hi. assert (zoo_inv s') as Hi' by (eapply zstep_inv; [done|done|apply Hi]).
  remember (Some s') as r eqn:Er. pose proof Hi as (Hinv & _ & Hu).
  destruct Hs as [z ps p z' zo Hn Hin|z ps p t zo Hzo Hb|z ps p t zo c Hzo Hpc Ha|z ps p t zo c l Hzo Hpc He].
  - injection Er as <-. by eapply init_kept.
  - destruct (thread_step z p t zo) as [[z' zo']|] eqn:E; [|done]. injection Er as <-.
    eapply kept_update; [done|done|done|]. eapply thread_on; try done. by apply Hu.
  - destruct (call_step t c zo) as [zo'|] eqn:E; [|done]. injection Er as <-.
    eapply kept_update; [done|done|done|]. destruct Hinv as (_ & Hp & _). destruct (Hp _ _ Hzo) as (Hw & _).
    eapply call_on; try done. by apply Hu.
  - injection Er as <-. eapply kept_update; [done|done|done|].
    quiet Hpc; [by apply Hu|by eapply deliver_no_more].
Qed.

Lemma zoo_reach_kept s : deletes → zoo_reach named unlocker s → kept_inv s.
Proof using HZ Hnamed Hone.
  intros Hdel (s0 & H0 & Hr).
  assert (kept_inv s0) as H0'.
  { split_and!; [by apply start_inv|..]; destruct H0 as (Hps & Hc & _).
    - intros _ f nm _ Hin. unfold lock_path in Hin. rewrite Hc in Hin. by apply elem_of_nil in Hin.
    - rewrite Hps. done. }
  clear H0. induction Hr as [|s0 s1 s2 Hs _ IH]; [done|]. apply IH. by eapply zstep_kept.
Qed.

(** nothing goes on: every thread is idle, every event was delivered, nobody
    was told of an error, and the ids are different *)
Definition at_rest (s : zsys zk TH) : Prop := ∀ p zo, sy_procs s !! p = Some zo →
  (∀ t, pc_of zo t = PIdle) ∧ zk_events (sy_zk s) p = [] ∧ z_log zo = [] ∧ ids_ok zo.

(** the first of some names *)
Lemma first_seq v : v ≠ [] → seqs v → ∃ k, is_seq k ∧ seq_name k ∈ v ∧ ∀ nm, nm ∈ v → strcmp (seq_name k) nm <= 0.
Proof.
  intros Hne Hv. destruct v as [|str v]; [done|]. destruct (Hv str) as (s & -> & Hs); [by left|].
  destruct (min_str_from s v) as (k & Hk & _ & Hin & Hle & Hall); [done|intros nm ?; apply Hv; by right|].
  exists k. split_and!; [done|destruct Hin as [->|]; [by left|by right]|].
  intros nm Hnm. destruct (Hv nm Hnm) as (i & -> & Hi). apply strcmp_seq_le; [done..|].
  apply elem_of_cons in Hnm as [E|?]; [apply seq_name_inj in E as ->; done|by apply Hall].
Qed.

(** the first element of a lock has it *)
Lemma first_granted (s : zsys zk TH) p zo e f :
  wake_inv s → kept_inv s → at_rest s → good_name f → sy_procs s !! p = Some zo → waiting zo e f →
  ∃ p' zo' e', sy_procs s !! p' = Some zo' ∧ granted zo' e' f.
Proof.
  intros [(Hz & Hp & _) Hwk] (_ & Hkept & _) Hrest Hf Hzo (el & Hel & Hcb & Hq & Hun).
  assert (∀ p zo e, sy_procs s !! p = Some zo → ¬ unlocking zo e) as Hnu.
  { intros p1 z1 e1 H1 (t & k & H). rewrite (proj1 (Hrest _ _ H1)) in H. by destruct H. }
  destruct (Hp _ _ Hzo) as (_ & _ & Hin & _).
  pose proof (Hin (inr e) _ _ (own_elem zo e el Hel) Hun) as Hnode. rewrite Hq in Hnode.
  destruct (first_seq (zk_children (sy_zk s) (lock_path f))) as (k & Hk & Hkin & Hfirst).
  { intros H. unfold lock_path in H. rewrite H in Hnode. by apply elem_of_nil in Hnode. }
  { intros nm Hnm. destruct (Hz f nm Hf Hnm) as (i & -> & Hi & _). by exists i. }
  destruct (Hkept) with f (seq_name k) as (p1 & zo1 & o & Hzo1 & Ho & _);
    [intros p1 z1 H1; apply (Hrest _ _ H1)|done|done|].
  destruct (Hrest _ _ Hzo1) as (Hidle & Hev & Hlog & Hids).
  remember (lock_path f) as q eqn:Eq. remember (seq_name k) as nm eqn:En.
  destruct Ho as [t q nm cb d Hpc|e1 el1 Hel1]; [by rewrite Hidle in Hpc|].
  exists p1, zo1, e1. split; [done|]. exists el1. split_and!; [done| |done|by apply (Hnu p1)].
  destruct (decide (el_callback el1 = None)) as [?|Hw]; [done|]. exfalso.
  destruct (Hwk _ _ Hzo1) as [_ Hwa].
  destruct (Hwa Hlog Hids e1 el1 Hel1 Hw (Hnu _ _ _ Hzo1)) as [[(t & v & Hv & _)|[(t & Ht)|(c & i & _ & [Hc|[t Ht]])]]|[_ Hnf]].
  - by rewrite Hidle in Hv.
  - by rewrite Hidle in Ht.
  - rewrite Hev in Hc. by apply elem_of_nil in Hc.
  - by rewrite Hidle in Ht.
  - apply Hnf. intros nm Hnm. by apply Hfirst.
Qed.

End progress.
