(* ===== verification/ZooRun.v ===== *)
(** * The locks of [s_zookeeper.c] run

    A service in memory that meets [ZkLaws], an executor of the steps, and runs:
    what shows that the theorems apply, and the races and lengths for which the
    program does not do what it means to. *)

From stdpp Require Import strings.
From S2P Require Import Prelude SString SHashSpec Zoo ZooLock ZooWake ZooProgress.
Local Open Scope Z_scope.

(** ** A service *)
Record mem_zk := MemZk {
  mz_children : gmap path (list (list Z));
  mz_counter : gmap path Z;
  mz_owner : gmap path Z;
  mz_watches : list (path * (Z * Z));
  mz_events : list (Z * Z)
}.
Implicit Types (z : mem_zk).

Definition mz_kids z (q : path) : list (list Z) := default [] (mz_children z !! q).
Definition mz_count z (q : path) : Z := default 0 (mz_counter z !! q).
Definition mz_fire (qs : list path) z : mem_zk :=
  MemZk (mz_children z) (mz_counter z) (mz_owner z) (filter (λ w, w.1 ∉ qs) (mz_watches z))
    (mz_events z ++ (snd <$> filter (λ w, w.1 ∈ qs) (mz_watches z))).

(** the node above, and the name below it *)
Fixpoint base_rev (l : list Z) : list Z * list Z :=
  match l with
  | [] => ([], [])
  | x :: l => if x =? SLASH then (l, []) else let '(q, nm) := base_rev l in (q, nm ++ [x])
  end.
Definition split_path (path : list Z) : list Z * list Z := let '(q, nm) := base_rev (reverse path) in (reverse q, nm).

Lemma base_rev_spec nm q : SLASH ∉ nm → base_rev (reverse nm ++ SLASH :: q) = (q, nm).
Proof.
  induction nm as [|x nm IH] using rev_ind; intros Hn; [done|].
  rewrite reverse_app. cbn [reverse app base_rev]. rewrite (reverse_singleton x). cbn [app base_rev].
  destruct (x =? SLASH) eqn:E; [zbool; subst; set_solver|]. rewrite IH; [done|set_solver].
Qed.
Lemma split_child q nm : SLASH ∉ nm → split_path (child q nm) = (q, nm).
Proof.
  intros Hn. unfold split_path, child. rewrite reverse_app, reverse_cons, <-app_assoc. cbn [app].
  rewrite base_rev_spec by done. by rewrite reverse_involutive.
Qed.

Definition mz_create z (p : Z) (path : list Z) (flags : list create_flag) : Z * list Z * mem_zk :=
  let '(par, nm) := split_path path in
  let sequence := has_flag ZOO_SEQUENCE flags in
  let k := mz_count z par in
  let nm := if sequence then nm ++ seq_name k else nm in
  if bool_decide (nm ∈ mz_kids z par) then (ZNODEEXISTS, [], z)
  else if sequence && negb ((0 <=? k) && (k <? 10 ^ 10)) then (-1, [], z)
  else (ZOK, child par nm,
        mz_fire [par] (MemZk (<[par := nm :: mz_kids z par]> (mz_children z)) (<[par := k + 1]> (mz_counter z))
                         (partial_alter (λ _, if has_flag ZOO_EPHEMERAL flags then Some p else None) (child par nm) (mz_owner z))
                         (mz_watches z) (mz_events z))).
Definition mz_delete z (p : Z) (path : list Z) : Z * mem_zk :=
  let '(par, nm) := split_path path in
  (if bool_decide (nm ∈ mz_kids z par) then ZOK else ZNONODE,
   mz_fire [par; path] (MemZk (<[par := filter (λ x, x ≠ nm) (mz_kids z par)]> (mz_children z)) (mz_counter z)
                     (delete path (mz_owner z)) (mz_watches z) (mz_events z))).
Definition mz_get_children z (p : Z) (path : list Z) (w : option Z) : Z * list (list Z) * mem_zk :=
  (ZOK, mz_kids z path,
   match w with
   | Some c => MemZk (mz_children z) (mz_counter z) (mz_owner z) ((path, (p, c)) :: mz_watches z) (mz_events z)
   | None => z
   end).
Fixpoint take_event (p : Z) (l : list (Z * Z)) : list (Z * Z) :=
  match l with
  | [] => []
  | (p', c) :: l => if p' =? p then l else (p', c) :: take_event p l
  end.

(** the nodes of the session go, and with it its own watches and events *)
Definition mz_keeps z (p : Z) (par : path) (nm : list Z) : Prop := mz_owner z !! child par nm ≠ Some p.
#[local] Instance mz_keeps_dec z p par nm : Decision (mz_keeps z p par nm).
Proof. unfold mz_keeps. apply _. Defined.
Definition mz_gone z (p : Z) : list path :=
  concat ((λ x, let gone := filter (λ nm, ¬ mz_keeps z p x.1 nm) x.2 in
                if gone is [] then [] else x.1 :: (child x.1 <$> gone)) <$> map_to_list (mz_children z)).
Definition mz_end_session z (p : Z) : mem_zk :=
  let z' := mz_fire (mz_gone z p) z in
  MemZk (map_imap (λ par l, Some (filter (mz_keeps z p par) l)) (mz_children z)) (mz_counter z)
    (filter (λ x, x.2 ≠ p) (mz_owner z))
    (filter (λ w, w.2.1 ≠ p) (mz_watches z')) (filter (λ e, e.1 ≠ p) (mz_events z')).

#[export] Instance mem_service : ZkService mem_zk := {
  zk_children := mz_kids;
  zk_counter := mz_count;
  zk_watches := mz_watches;
  zk_owner z q := mz_owner z !! q;
  zk_end_session := mz_end_session;
  zk_events z p := snd <$> filter (λ x, x.1 = p) (mz_events z);
  zoo_create := mz_create;
  zoo_delete := mz_delete;
  zoo_get_children := mz_get_children;
  zk_deliver z p := MemZk (mz_children z) (mz_counter z) (mz_owner z) (mz_watches z) (take_event p (mz_events z))
}.

Lemma elem_events z p c : c ∈ zk_events z p ↔ (p, c) ∈ mz_events z.
Proof.
  cbn. rewrite list_elem_of_fmap. setoid_rewrite list_elem_of_filter. split.
  - by intros ([p' c'] & -> & Hp & H); cbn in *; subst.
  - intros H. by exists (p, c).
Qed.

(** watches are triggered, whatever the nodes have become *)
Lemma fire_ok z z1 qs : mz_watches z1 = mz_watches z → mz_events z1 = mz_events z → fired z (mz_fire qs z1) qs.
Proof.
  intros Hw He. split.
  - intros q w. cbn. rewrite Hw, list_elem_of_filter. cbn. tauto.
  - intros p c. rewrite !elem_events. cbn. rewrite He, Hw, elem_of_app, list_elem_of_fmap. split.
    + intros [?|([q w] & E & [Hq H]%list_elem_of_filter)]; [by left|right]. cbn in *. subst. by exists q.
    + intros [?|(q & Hq & H)]; [by left|right]. exists (q, (p, c)). split; [done|]. by apply list_elem_of_filter.
Qed.

Lemma fired_refl z : fired z z [].
Proof. split; [intros q w|intros p c]; split; [|tauto|by left|]; [intros; split; [done|apply not_elem_of_nil]|].
  intros [?|(q & H & _)]; [done|]. by apply elem_of_nil in H.
Qed.
Lemma same_refl z : zk_same z z.
Proof. split; [done|apply fired_refl]. Qed.

Lemma kids_insert z q q' l : mz_kids (MemZk (<[q := l]> (mz_children z)) (mz_counter z) (mz_owner z) (mz_watches z) (mz_events z)) q' =
  if decide (q = q') then l else mz_kids z q'.
Proof.
  unfold mz_kids. cbn. case_decide as H; [subst; by rewrite lookup_insert_eq|by rewrite lookup_insert_ne].
Qed.
Lemma count_insert z q q' k : default 0 ((<[q := k]> (mz_counter z)) !! q') = if decide (q = q') then k else mz_count z q'.
Proof.
  unfold mz_count. case_decide as H; [subst; by rewrite lookup_insert_eq|by rewrite lookup_insert_ne].
Qed.

#[export] Instance mem_laws : ZkLaws mem_zk.
Proof.
  split.
  - intros z p par nm flags r created z' Hn. cbn. unfold mz_create. rewrite split_child by done.
    unfold new_name. cbn. case_bool_decide; [intros [= <- <- <-]; split; [done|right; split; [done|apply same_refl]]|].
    destruct (_ && negb _) eqn:E; [intros [= <- <- <-]; split; [done|right; split; [done|apply same_refl]]|].
    intros [= <- <- <-]. split; [done|]. left. split.
    { intros Hsq. rewrite Hsq in E. cbn in E. apply negb_false_iff, andb_prop in E as [? ?]. zbool. lia. }
    split_and!; [| | | |by apply fire_ok]; cbn; unfold mz_kids, mz_count; cbn.
    + by rewrite lookup_insert_eq.
    + intros q Hq. by rewrite lookup_insert_ne.
    + intros q. rewrite count_insert. unfold mz_count. case_decide as Hq; [subst; lia|done].
    + rewrite lookup_insert_eq. cbn. lia.
  - intros z p par nm flags created z' Hn. cbn. unfold mz_create. rewrite split_child by done.
    case_bool_decide; [done|]. destruct (_ && negb _); [done|]. intros [= <- <-]. cbn. by rewrite lookup_partial_alter_eq.
  - intros z p par nm r z' Hn. cbn. unfold mz_delete. rewrite split_child by done. intros [= <- <-]. left.
    split_and!; [| |done|by apply fire_ok]; cbn; unfold mz_kids; cbn.
    + by rewrite lookup_insert_eq.
    + intros q Hq. by rewrite lookup_insert_ne.
  - intros z p q w r l z' [= <- <- <-]. split; [done|]. destruct w as [c|]; [left|apply same_refl].
    split_and!; [done| |done]. intros w. cbn. by rewrite elem_of_cons.
  - intros z p c l He. split_and!; [done|done|..]; cbn in *.
    + revert He. induction (mz_events z) as [|[p' c'] evs IH]; [done|]. cbn [take_event].
      destruct (p' =? p) eqn:E; zbool.
      * rewrite filter_cons_True by done. by intros [= _ <-].
      * rewrite !filter_cons_False by done. done.
    + intros p0 Hp. clear He. induction (mz_events z) as [|[p' c'] evs IH]; [done|]. cbn [take_event].
      destruct (p' =? p) eqn:E; zbool.
      * subst. by rewrite filter_cons_False.
      * destruct (decide (p' = p0)); [rewrite !filter_cons_True by done; cbn; by f_equal|].
        by rewrite !filter_cons_False.
  - intros z p q _. cbn. unfold mz_kids. cbn. rewrite map_lookup_imap. destruct (mz_children z !! q) as [l|]; [|done]. cbn.
    apply reflexive_eq, list_filter_iff. done.
Qed.

Lemma mem_deletes : deletes (zk := mem_zk).
Proof.
  intros z p q nm r z' Hn. cbn. unfold mz_delete. rewrite split_child by done. intros [= _ <-].
  cbn. unfold mz_kids at 1. cbn. rewrite lookup_insert_eq. cbn. by intros [? _]%list_elem_of_filter.
Qed.

(** ** Running the steps *)
Abbreviation hash := (gmap Z Z).
Abbreviation proc := (s_zoo hash).
Abbreviation run_sys := (zsys mem_zk hash).

Inductive act := AInit (p : Z) | AThread (p t : Z) | ACall (p t : Z) (c : call) | AEvent (p t : Z).

Section exec.
Context (names : list (list Z)) (unl : Z).
Definition in_names (f : list Z) : Prop := f ∈ names.
Definition one_thread (p t : Z) : Prop := t = unl.

Global Instance allowed_dec p t c : Decision (allowed in_names one_thread p t c).
Proof. destruct c; cbn; unfold in_names, one_thread; apply _. Defined.

(** [None]: the step is not possible; [Some None]: it is undefined *)
Definition exec (a : act) (s : run_sys) : option (option run_sys) :=
  let 'Sys z ps := s in
  match a with
  | AInit p => if bool_decide (ps !! p = None) then let '(z', zo) := s_zoo_init z p in Some (Some (Sys z' (<[p := zo]> ps))) else None
  | AThread p t =>
      match ps !! p with
      | Some zo => if blocked zo t then None else Some ('(z, zo) ← thread_step z p t zo; Some (Sys z (<[p := zo]> ps)))
      | None => None
      end
  | ACall p t c =>
      match ps !! p with
      | Some zo => if bool_decide (pc_of zo t = PIdle) && bool_decide (allowed in_names one_thread p t c)
                   then Some (zo ← call_step t c zo; Some (Sys z (<[p := zo]> ps))) else None
      | None => None
      end
  | AEvent p t =>
      match ps !! p with
      | Some zo =>
          match zk_events z p with
          | c :: _ => if bool_decide (pc_of zo t = PIdle) then Some (Some (Sys (zk_deliver z p) (<[p := goto t (PTle c) zo]> ps))) else None
          | [] => None
          end
      | None => None
      end
  end.

Lemma exec_step a s r : exec a s = Some r → zstep in_names one_thread s r.
Proof.
  destruct s as [z ps]. destruct a as [p|p t|p t c|p t]; cbn -[zk_events zk_deliver].
  - case_bool_decide as Hn; [|done]. destruct (s_zoo_init z p) as [z' zo] eqn:E. intros [= <-]. by constructor.
  - destruct (ps !! p) as [zo|] eqn:Hp; [|done]. destruct (blocked zo t) eqn:Hb; [done|]. intros [= <-]. by constructor.
  - destruct (ps !! p) as [zo|] eqn:Hp; [|done]. destruct (_ && _) eqn:Hb; [|done]. intros [= <-].
    apply andb_prop in Hb as [H1%bool_decide_eq_true H2%bool_decide_eq_true]. by constructor.
  - destruct (ps !! p) as [zo|] eqn:Hp; [|done]. destruct (zk_events z p) as [|c l] eqn:He; [done|].
    case_bool_decide as Hi; [|done]. intros [= <-]. exact (zstep_event _ _ z ps p t zo c l Hp Hi He).
Qed.

Fixpoint exec_all (l : list act) (s : run_sys) : option run_sys :=
  match l with
  | [] => Some s
  | a :: l => match exec a s with Some (Some s') => exec_all l s' | _ => None end
  end.

Definition mem_start : run_sys := Sys (MemZk ∅ ∅ ∅ [] []) ∅.

Lemma exec_steps l s0 s : exec_all l s0 = Some s → rtc (λ s s', zstep in_names one_thread s (Some s')) s0 s.
Proof.
  revert s0. induction l as [|a l IH]; intros s0 H; cbn in H; [by injection H as <-|].
  destruct (exec a s0) as [[s'|]|] eqn:E; [|done..]. eapply rtc_l; [by eapply exec_step|by apply IH].
Qed.
Lemma exec_reach l s : exec_all l mem_start = Some s → zoo_reach in_names one_thread s.
Proof. intros H. exists mem_start. split; [done|]. by apply (exec_steps l). Qed.
End exec.

(** what can be decided of a state *)
Definition unlocking_b (zo : proc) (e : Z) : bool :=
  existsb (λ x, match x.2 with PDelete e' _ | PFree e' _ => e' =? e | _ => false end) (map_to_list (z_threads zo)).
Lemma not_unlocking zo e : unlocking_b zo e = false → ¬ unlocking zo e.
Proof.
  intros Hb (t & k & H). assert (pc_of zo t ≠ PIdle) as Hi by (destruct H as [->| ->]; done).
  unfold pc_of in *. destruct (z_threads zo !! t) as [c|] eqn:E; [|done]. cbn in H.
  apply Bool.not_true_iff_false in Hb. apply Hb. apply existsb_exists. exists (t, c).
  split; [by apply list_elem_of_In, elem_of_map_to_list|]. cbn. destruct H as [->| ->]; apply Z.eqb_refl.
Qed.

Definition granted_b (zo : proc) (e : Z) (f : list Z) : bool :=
  match z_elems zo !! e with
  | Some el => bool_decide (el_callback el = None) && bool_decide (el_parent_path el = child LOCK_ROOT f) && negb (unlocking_b zo e)
  | None => false
  end.
Lemma granted_b_ok zo e f : granted_b zo e f = true → granted zo e f.
Proof.
  unfold granted_b. destruct (z_elems zo !! e) as [el|] eqn:E; [|done].
  intros [[H1%bool_decide_eq_true H2%bool_decide_eq_true]%andb_prop H3%negb_true_iff]%andb_prop.
  exists el. split_and!; [done..|by apply not_unlocking].
Qed.
Definition waiting_b (zo : proc) (e : Z) (f : list Z) : bool :=
  match z_elems zo !! e with
  | Some el => bool_decide (el_callback el ≠ None) && bool_decide (el_parent_path el = child LOCK_ROOT f) && negb (unlocking_b zo e)
  | None => false
  end.
Lemma waiting_b_ok zo e f : waiting_b zo e f = true → waiting zo e f.
Proof.
  unfold waiting_b. destruct (z_elems zo !! e) as [el|] eqn:E; [|done].
  intros [[H1%bool_decide_eq_true H2%bool_decide_eq_true]%andb_prop H3%negb_true_iff]%andb_prop.
  exists el. split_and!; [done..|by apply not_unlocking].
Qed.
Definition rest_b (s : run_sys) : bool := bool_decide (map_Forall (λ p zo,
  map_Forall (λ _ c, c = PIdle) (z_threads zo) ∧ zk_events (sy_zk s) p = [] ∧ z_log zo = [] ∧ z_nelem zo < INT_MAX) (sy_procs s)).
Lemma rest_b_ok s : rest_b s = true → at_rest s.
Proof.
  intros H%bool_decide_eq_true p zo Hp. destruct (H p zo Hp) as (Ht & ? & ? & ?). split_and!; [|done..].
  intros t. unfold pc_of. destruct (z_threads zo !! t) as [c|] eqn:E; [|done]. by apply (Ht t) in E.
Qed.

(** ** Runs *)
Definition a_ : list Z := [97].
Definition b_ : list Z := [98].
Definition run (l : list act) : option run_sys := exec_all [a_; b_] 0 l mem_start.
Lemma names_good f : in_names [a_; b_] f → good_name f.
Proof. intros [->|[->|?%elem_of_nil]%elem_of_cons]%elem_of_cons; (split; [|cbn; lia]) || done; unfold SLASH; set_solver. Qed.
Lemma one_unlocker p t t' : one_thread 0 p t → one_thread 0 p t' → t = t'.
Proof. by intros -> ->. Qed.

Definition state (l : list act) : run_sys := default mem_start (run l).
Definition proc_of (s : run_sys) (p : Z) : proc := default zoo_empty (sy_procs s !! p).
Definition runs (l : list act) : bool := match run l with Some _ => true | None => false end.
Lemma runs_reach l : runs l = true → zoo_reach (in_names [a_; b_]) (one_thread 0) (state l).
Proof. unfold runs, state. intros H. apply (exec_reach _ _ l). unfold run in *. by destruct (exec_all _ _ _ _). Qed.

(** a thread of [p] is in [s_zoo_lock], up to the test *)
Definition locking (p t d : Z) : list act := [ACall p t (CLock a_ d); AThread p t; AThread p t; AThread p t].
(** processes 1 and 2 lock [a]: 1 has it, 2 waits *)
Definition both : list act := [AInit 1; AInit 2] ++ locking 1 0 7 ++ [AThread 1 0; AThread 1 0] ++ locking 2 0 8 ++ [AThread 2 0].
Definition settled : list act := both ++ [AEvent 1 1; AThread 1 1; AThread 1 1].
(** 1 unlocks, and the node is deleted *)
Definition deleted : list act := settled ++ [ACall 1 0 (CUnlock 0); AThread 1 0].

Lemma zoo_exclusion_witness :
  granted (proc_of (state settled) 1) 0 a_ ∧ waiting (proc_of (state settled) 2) 0 a_ ∧ (1 = 1 ∧ 0 = 0).
Proof.
  split; [apply granted_b_ok; vm_compute; reflexivity|]. split; [apply waiting_b_ok; vm_compute; reflexivity|].
  apply (zoo_exclusion (in_names [a_; b_]) (one_thread 0) names_good (state settled) 1 1
    (proc_of (state settled) 1) (proc_of (state settled) 1) 0 0 a_).
  - apply runs_reach. vm_compute. reflexivity.
  - vm_compute. reflexivity.
  - vm_compute. reflexivity.
  - apply granted_b_ok. vm_compute. reflexivity.
  - apply granted_b_ok. vm_compute. reflexivity.
Defined.

(** the element of process 2 is the first now; its event is to be delivered *)
Definition el2 : s_zoo_lock_elem := default (Elem None 0 [] [] 0) (z_elems (proc_of (state deleted) 2) !! 0).


(** ** Races of [s_zoo_lock] with [try_lock_watcher]
    Thread 0 of process 1 has found its node to be the first, and still holds
    [lock_m]; process 2 makes a node, and thread 1 of process 1 gets the event. *)
Definition race (start : list act) : list act :=
  [AInit 1; AInit 2] ++ start ++ [AThread 1 0; AThread 1 0; AThread 1 0] ++
  [ACall 2 0 (CLock a_ 8); AThread 2 0; AThread 2 0; AEvent 1 1; AThread 1 1; AThread 1 1].
Definition race_lock : list act := race [ACall 1 0 (CLock a_ 7)].
(** both find the callback *)
Definition race_twice : list act := race_lock ++ [AThread 1 1; AThread 1 0; AThread 1 1; AThread 1 0].
(** the callback is null when the watcher takes it *)
Definition race_null : list act := race_lock ++ [AThread 1 0].
Definition race_vector : list act :=
  race [ACall 1 0 CLockvCreate; ACall 1 0 (CLockvAdd 0 a_); ACall 1 0 (CLockvAdd 0 b_); ACall 1 0 (CLockv 0 9)] ++
  [AThread 1 1; AThread 1 0; AThread 1 1; AThread 1 0].

Abbreviation reached := (zoo_reach (zk := mem_zk) (TH := hash) (in_names [a_; b_]) (one_thread 0)).

(** The callback of one lock may be called twice. *)
Theorem callback_called_twice :
  ∃ s zo, reached s ∧ sy_procs s !! 1 = Some zo ∧ z_called zo = [CalledLock 7 0; CalledLock 7 0].
Proof.
  exists (state race_twice), (proc_of (state race_twice) 1). split; [apply runs_reach; vm_compute; reflexivity|].
  split; vm_compute; reflexivity.
Qed.

(** The null callback may be called. *)
Theorem null_callback_called : ∃ s, reached s ∧ zstep (in_names [a_; b_]) (one_thread 0) s None.
Proof.
  exists (state race_null). split; [apply runs_reach; vm_compute; reflexivity|].
  apply (exec_step _ _ (AThread 1 1)). vm_compute. reflexivity.
Qed.

(** A vector of two names may be complete with the lock of the first only. *)
Theorem vector_complete_without_lock :
  ∃ s zo, reached s ∧ sy_procs s !! 1 = Some zo ∧ z_called zo = [CalledLockv 9 0] ∧ ∀ e, ¬ granted zo e b_.
Proof.
  exists (state race_vector), (proc_of (state race_vector) 1). split; [apply runs_reach; vm_compute; reflexivity|].
  split; [vm_compute; reflexivity|]. split; [vm_compute; reflexivity|].
  intros e (el & Hel & _ & Hq & _).
  assert (map_Forall (λ _ el, el_parent_path el ≠ child LOCK_ROOT b_) (z_elems (proc_of (state race_vector) 1))) as Hall.
  { refine (bool_decide_eq_true_1 _ _). vm_compute. reflexivity. }
  by apply (Hall e el).
Qed.

(** ** A session that ends
    Process 1 has the lock and process 2 waits.  The session of process 1 ends:
    the service takes its node away, process 2 gets its event and the lock.
    [s_zoo_init] gives [zookeeper_init] no watcher and [try_lock_watcher] looks
    at no type or state of its event: nothing takes the lock of process 1 back. *)
Definition ended : run_sys := Sys (zk_end_session (sy_zk (state settled)) 1) (sy_procs (state settled)).
Definition wake_2 : list act := [AEvent 2 1; AThread 2 1; AThread 2 1; AThread 2 1].
Definition woken : run_sys := default mem_start (exec_all [a_; b_] 0 wake_2 ended).
Theorem session_end_two_holders :
  reached (state settled) ∧ granted (proc_of (state settled) 1) 0 a_ ∧ waiting (proc_of (state settled) 2) 0 a_ ∧
  rtc (λ s s', zstep (in_names [a_; b_]) (one_thread 0) s (Some s')) ended woken ∧
  granted (proc_of woken 1) 0 a_ ∧ granted (proc_of woken 2) 0 a_.
Proof.
  split; [apply runs_reach; vm_compute; reflexivity|]. split; [apply granted_b_ok; vm_compute; reflexivity|].
  split; [apply waiting_b_ok; vm_compute; reflexivity|].
  split; [|split; apply granted_b_ok; vm_compute; reflexivity].
  apply (exec_steps _ _ wake_2). unfold woken. assert (is_Some (exec_all [a_; b_] 0 wake_2 ended)) as [s ->]; [|done].
  vm_compute. by eexists.
Qed.

(** ** Names that do not fit the buffers *)
Section long_names.
Context {zk TH : Type} `{HS : !ZkService zk} `{HZ : !ZkLaws zk} `{HT : !Table Z Z TH}.
Implicit Types (zo : s_zoo TH) (f : list Z).

(** [s_zoo_lock] takes names of up to 248 bytes *)
Lemma long_name_accepted t f cb d zo :
  (length f <= 248)%nat → s_zoo_lock t f cb d zo = Some (goto t (PParent (lock_path f) cb d) zo).
Proof.
  intros Hf. unfold s_zoo_lock, MAX_FILENAME_LEN, LOCK_ROOT_LEN. destruct (_ <=? _) eqn:E; [zbool; lia|done].
Qed.

(** With 238 bytes the last digit of the node is cut off by [snprintf]: what
    [s_zoo_unlock] deletes is not the element's node. *)
Theorem long_name_not_deleted t e k zo zo' el f i :
  length f = 238%nat → z_elems zo !! e = Some el → el_parent_path el = lock_path f → el_lock_path el = seq_name i →
  s_zoo_unlock t e k zo = Some zo' →
  z_buf zo' = child (lock_path f) (take 9 (seq_name i)) ∧ z_buf zo' ≠ child (lock_path f) (seq_name i).
Proof.
  intros Hf Hel Eq En Hs. unfold s_zoo_unlock in Hs. rewrite Hel in Hs. injection Hs as <-. cbn [goto with_buf z_buf].
  rewrite Eq, En. assert (length (lock_path f) = 244%nat) as Hl by (unfold lock_path, child; rewrite length_app; cbn; lia).
  assert (take 254 (child (lock_path f) (seq_name i)) = child (lock_path f) (take 9 (seq_name i))) as ->.
  { unfold child. rewrite take_app, take_ge by lia. by rewrite Hl. }
  split; [done|]. intros H%(f_equal length). unfold child in H. rewrite !length_app in H. cbn [length] in H.
  rewrite length_take in H. unfold seq_name in H. rewrite digits_length in H. lia.
Qed.

(** From 239 bytes on the name of the node is cut off as it comes back: it is
    the name of no child, and [try_lock] never succeeds. *)
Theorem long_name_not_granted z p t f cb d (zo : s_zoo TH) z' zo' :
  SLASH ∉ f → (239 <= length f <= 248)%nat → lock_node z p t (lock_path f) cb d zo = Some (z', zo') →
  pc_of zo' t = PIdle ∨
  ∃ nm, pc_of zo' t = PElem (lock_path f) nm cb d ∧ ∀ v el, seqs v → el_lock_path el = nm → is_min v el = false.
Proof using HZ.
  intros Hs Hf Hn. unfold lock_node in Hn. destruct (zoo_create _ _ _ _) as [[r created] z1] eqn:E.
  destruct (zoo_create_ok _ _ _ _ _ _ _ _ (not_elem_of_nil SLASH) E) as [Hr Ha].
  destruct (r =? ZOK) eqn:Er; zbool.
  2: { injection Hn as <- <-. left. by rewrite pc_of_goto, decide_True. }
  right. rewrite (Hr Er) in Hn. unfold new_name in Hn. change (has_flag ZOO_SEQUENCE [ZOO_EPHEMERAL; ZOO_SEQUENCE]) with true in Hn. cbn [app] in Hn. set (k := zk_counter z (lock_path f)) in *.
  assert (length (lock_path f) = (length f + 6)%nat) as Hl by (unfold lock_path, child; rewrite length_app; cbn; lia).
  assert (in_buffer (child (lock_path f) (seq_name k)) = child (lock_path f) (take (248 - length f) (seq_name k))) as Hb.
  { unfold in_buffer, child. rewrite take_app, take_ge by lia. rewrite Hl.
    replace (255 - (length f + 6))%nat with (S (248 - length f)) by lia. done. }
  rewrite Hb, strrchr_child in Hn by (intros H; apply (seq_name_slash k); by eapply subseteq_take). 
  injection Hn as <- <-. eexists. split; [by rewrite pc_of_goto, decide_True|]. cbn [tail].
  intros v el Hv En. unfold is_min. destruct (min_str v) as [m|] eqn:Em; [|done]. apply Z.eqb_neq. rewrite En.
  intros Hc. destruct Ha as [[Hk _]|[? _]]; [|done]. specialize (Hk eq_refl).
  assert (∃ i, m = seq_name i ∧ is_seq i) as (i & -> & Hi).
  { unfold min_str in Em. destruct v as [|str v]; [done|]. destruct (Hv str) as (s & -> & Hs'); [by left|]. cbn [foldl] in Em.
    destruct (min_str_from s v) as (j & Hj & Ej & _); [done|intros nm ?; apply Hv; by right|].
    rewrite Ej in Em. injection Em as <-. by exists j. }
  assert (∀ a b : list Z, (∀ c, c ∈ a → 0 < c) → (∀ c, c ∈ b → 0 < c) → strcmp a b = 0 → a = b) as Heq.
  { clear. induction a as [|x a IH]; intros [|y b] Ha Hb H; cbn in H; [done|..].
    - assert (0 < y) by (apply Hb; by left). lia.
    - assert (0 < x) by (apply Ha; by left). lia.
    - destruct (x =? y) eqn:E; zbool; [subst|lia]. f_equal. apply IH; [intros; apply Ha; by right|intros; apply Hb; by right|done]. }
  apply Heq, (f_equal length) in Hc.
  - unfold seq_name in Hc. rewrite length_take, !digits_length in Hc. lia.
  - intros c H%digits_range. lia.
  - intros c H. assert (c ∈ seq_name k) as H'%digits_range by (by eapply subseteq_take). lia.
Qed.
End long_names.
