(* ===== verification/ZooSync.v ===== *)
(** * [zookeeper/s_zookeeper.c]: the barrier [s_zoo_sync]

    A caller makes a node below "/sync/id" and asks for the children until there
    are as many as processes.  A thread calls it once; the threads of all
    processes are in one map.  [static path] begins with [SYNC_ROOT] from the
    first call on, and what follows is written by each call under [sync_m], so
    that the path is that of [id]; the copy [p] is made before [sync_m] is
    unlocked. *)

From stdpp Require Import strings.
From S2P Require Import Prelude SString SHashSpec Zoo ZooLock ZooProgress ZooRun.
Local Open Scope Z_scope.

Inductive sync_pc :=
| SParent (path : list Z) (nprocess : Z)     (* 2.: the path is written *)
| SNode (path : list Z) (nprocess : Z)       (* 3. *)
| SWait (p : list Z) (nprocess : Z)          (* 4.: the loop *)
| SDone (p : list Z) (nprocess : Z)          (* returned from the loop *)
| SError (path : list Z) (nprocess : Z).     (* returned by label_end *)

Definition sync_path (id : list Z) : list Z := child SYNC_ROOT id.

Section sync.
Context {zk : Type} `{HS : !ZkService zk}.
Implicit Types (z : zk) (p t n : Z) (id : list Z).

(** the service, the holders of the [sync_m] of each process, the threads, and what was printed *)
Record syncs := Syncs {
  sn_zk : zk;
  sn_m : gmap Z Z;
  sn_at : gmap (Z * Z) sync_pc;
  sn_log : list string
}.
Implicit Types (s : syncs).

(** [true]: there are enough; an error is printed and counts as too few *)
Definition try_sync z p (path : list Z) n : bool * zk * list string :=
  let '(r, v, z) := zoo_get_children z p path None in
  if r =? ZOK then (n <=? Z.of_nat (length v), z, []) else (false, z, [print_error r]).

(** 1. and the test of 2. *)
Definition sync_enter p t n id s : syncs :=
  let '(Syncs z m ts log) := s in
  let fnlen := Z.of_nat (length id) in
  if MAX_FILENAME_LEN - 1 <=? fnlen + SYNC_ROOT_LEN + 1
  then Syncs z m (<[(p, t) := SError (sync_path id) n]> ts) (log ++ ["[Error]s_zoo_sync, id too long!"])
  else Syncs z (<[p := t]> m) (<[(p, t) := SParent (sync_path id) n]> ts) log.

Definition sync_parent p t (path : list Z) n s : syncs :=
  let '(Syncs z m ts log) := s in
  let '(r, _, z) := zoo_create z p path [] in
  if (r =? ZOK) || (r =? ZNODEEXISTS) then Syncs z m (<[(p, t) := SNode path n]> ts) log
  else Syncs z (delete p m) (<[(p, t) := SError path n]> ts) (log ++ [print_error r]).

Definition sync_node p t (path : list Z) n s : syncs :=
  let '(Syncs z m ts log) := s in
  let '(r, _, z) := zoo_create z p (child path []) [ZOO_EPHEMERAL; ZOO_SEQUENCE] in
  if r =? ZOK then Syncs z (delete p m) (<[(p, t) := SWait path n]> ts) log
  else Syncs z (delete p m) (<[(p, t) := SError path n]> ts) (log ++ [print_error r]).

(** one turn of the loop *)
Definition sync_turn p t (path : list Z) n s : syncs :=
  let '(Syncs z m ts log) := s in
  let '(ok, z, out) := try_sync z p path n in
  Syncs z m (<[(p, t) := if ok then SDone path n else SWait path n]> ts) (log ++ out).

Definition sync_step p t (c : sync_pc) s : syncs :=
  match c with
  | SParent path n => sync_parent p t path n s
  | SNode path n => sync_node p t path n s
  | SWait path n => sync_turn p t path n s
  | SDone _ _ | SError _ _ => s
  end.

Inductive sstep : syncs → syncs → Prop :=
| sstep_call s p t n id :
    sn_at s !! (p, t) = None → sn_m s !! p = None → SLASH ∉ id → sstep s (sync_enter p t n id s)
| sstep_on s p t c : sn_at s !! (p, t) = Some c → sstep s (sync_step p t c s)
| sstep_env z z' m ts log :                          (* what else goes on at the service *)
    (∀ id, zk_children z' (sync_path id) ≡ₚ zk_children z (sync_path id)) →
    sstep (Syncs z m ts log) (Syncs z' m ts log).

Definition sync_start s : Prop :=
  sn_m s = ∅ ∧ sn_at s = ∅ ∧ sn_log s = [] ∧ ∀ id, zk_children (sn_zk s) (sync_path id) = [].
Definition sync_reach s : Prop := ∃ s0, sync_start s0 ∧ rtc sstep s0 s.

(** the threads that have made their node below [path] *)
Definition arrived (path : list Z) (x : (Z * Z) * sync_pc) : Prop :=
  match x.2 with SWait q _ | SDone q _ => q = path | _ => False end.
Global Instance arrived_dec path x : Decision (arrived path x).
Proof. unfold arrived. destruct x as [? []]; cbn; apply _. Defined.
Definition arrivals (path : list Z) s : Z := Z.of_nat (size (filter (arrived path) (sn_at s))).

(** ** The invariant *)
Context `{HZ : !ZkLaws zk}.

Lemma sync_path_inj id id' : SLASH ∉ id → SLASH ∉ id' → sync_path id = sync_path id' → id = id'.
Proof. intros H H' E. by apply (child_inj _ _ id id' H H') in E as [_ ->]. Qed.
Lemma sync_path_not_root id : sync_path id ≠ SYNC_ROOT.
Proof. intros E%(f_equal length). unfold sync_path, child in E. rewrite length_app in E. simpl in E. lia. Qed.

Definition pc_path (c : sync_pc) : list Z :=
  match c with SParent q _ | SNode q _ | SWait q _ | SDone q _ | SError q _ => q end.

(** a thread that has returned on an error; nobody has *)
Definition is_error (c : sync_pc) : bool := match c with SError _ _ => true | _ => false end.
Definition no_error s : Prop := ∀ k c, sn_at s !! k = Some c → is_error c = false.

Record sync_inv s : Prop := {
  si_path k c : sn_at s !! k = Some c → ∃ id, SLASH ∉ id ∧ pc_path c = sync_path id;
  si_count : no_error s → ∀ id, SLASH ∉ id → Z.of_nat (length (zk_children (sn_zk s) (sync_path id))) = arrivals (sync_path id) s;
  si_done k q n : no_error s → sn_at s !! k = Some (SDone q n) → n <= arrivals q s
}.

(** a thread goes from one place to another *)
Lemma arrivals_insert path s z m k c log :
  Z.of_nat (size (filter (arrived path) (<[k := c]> (sn_at s)))) =
  arrivals path s - (match sn_at s !! k with Some c0 => if decide (arrived path (k, c0)) then 1 else 0 | None => 0 end)
  + (if decide (arrived path (k, c)) then 1 else 0) ∧
  arrivals path (Syncs z m (<[k := c]> (sn_at s)) log) = Z.of_nat (size (filter (arrived path) (<[k := c]> (sn_at s)))).
Proof.
  split; [|done]. unfold arrivals.
  assert (size (filter (arrived path) (sn_at s)) =
    (size (filter (arrived path) (delete k (sn_at s))) +
     match sn_at s !! k with Some c0 => if decide (arrived path (k, c0)) then 1 else 0 | None => 0 end)%nat) as ->.
  { destruct (sn_at s !! k) as [c0|] eqn:E.
    - rewrite <-(insert_delete_id (sn_at s) k c0) at 1 by done. rewrite map_filter_insert. case_decide.
      + rewrite map_size_insert_None; [lia|]. apply map_lookup_filter_None. left. by rewrite lookup_delete_eq.
      + rewrite delete_delete_eq. lia.
    - rewrite delete_id by done. lia. }
  rewrite <-insert_delete_eq, map_filter_insert, delete_delete_eq. case_decide.
  - rewrite map_size_insert_None by (apply map_lookup_filter_None; left; by rewrite lookup_delete_eq).
    destruct (sn_at s !! k); [case_decide|]; lia.
  - destruct (sn_at s !! k); [case_decide|]; lia.
Qed.

(** whether a place is one of those that count, as a number *)
Definition counts (path : list Z) (c : option sync_pc) : Z :=
  match c with Some (SWait q _ | SDone q _) => if decide (q = path) then 1 else 0 | _ => 0 end.

Lemma arrivals_update path s z m k c log :
  arrivals path (Syncs z m (<[k := c]> (sn_at s)) log) = arrivals path s - counts path (sn_at s !! k) + counts path (Some c).
Proof.
  destruct (arrivals_insert path s z m k c log) as [E1 E2]. rewrite E2, E1. f_equal; [f_equal|].
  - destruct (sn_at s !! k) as [[]|]; cbn; repeat case_decide; done.
  - destruct c; cbn; repeat case_decide; done.
Qed.

Lemma no_error_insert s z m k c log :
  (∀ c0, sn_at s !! k = Some c0 → is_error c0 = false) →
  no_error (Syncs z m (<[k := c]> (sn_at s)) log) → is_error c = false ∧ no_error s.
Proof.
  intros Hk Hn. split; [apply (Hn k), lookup_insert_eq|]. intros k' c' H. destruct (decide (k = k')) as [<-|Hne]; [by apply Hk|].
  apply (Hn k'). cbn. by rewrite lookup_insert_ne.
Qed.

Lemma inv_update s z m k c log :
  sync_inv s → (∃ id, SLASH ∉ id ∧ pc_path c = sync_path id) → (∀ c0, sn_at s !! k = Some c0 → is_error c0 = false) →
  (∀ path, counts path (sn_at s !! k) <= counts path (Some c)) →
  (is_error c = false → ∀ id, SLASH ∉ id → Z.of_nat (length (zk_children z (sync_path id))) =
    Z.of_nat (length (zk_children (sn_zk s) (sync_path id))) - counts (sync_path id) (sn_at s !! k) + counts (sync_path id) (Some c)) →
  (∀ q n, no_error s → c = SDone q n → n <= arrivals q s - counts q (sn_at s !! k) + 1) →
  sync_inv (Syncs z m (<[k := c]> (sn_at s)) log).
Proof.
  intros [H1 H2 H3] Hc Hk Hle Hz Hd. split; cbn [sn_at sn_log sn_zk].
  - intros k' c'. rewrite lookup_insert_Some. intros [[<- <-]|[_ H]]; [done|by eapply H1].
  - intros [He Hn]%no_error_insert id Hid; [|done]. rewrite arrivals_update, (Hz He id Hid). by rewrite (H2 Hn id Hid).
  - intros k' q n [He Hn]%no_error_insert; [|done]. rewrite arrivals_update, lookup_insert_Some. intros [[<- ->]|[_ H]].
    + pose proof (Hd q n Hn eq_refl) as Hl. unfold counts at 2. rewrite decide_True by done. lia.
    + apply (H3 k' q n Hn) in H. specialize (Hle q). lia.
Qed.

Lemma parent_same z p q nm r created z' : q = SYNC_ROOT → SLASH ∉ nm → zoo_create z p (child q nm) [] = (r, created, z') →
  ∀ id, zk_children z' (sync_path id) ≡ₚ zk_children z (sync_path id).
Proof using HZ.
  intros -> Hn E id. destruct (zoo_create_ok _ _ _ _ _ _ _ _ Hn E) as [_ [[_ (_ & Hc & _)]|[_ [H _]]]]; [|apply H].
  apply Hc, sync_path_not_root.
Qed.

Lemma enter_inv s p t n id : sync_inv s → sn_at s !! (p, t) = None → SLASH ∉ id → sync_inv (sync_enter p t n id s).
Proof.
  intros Hi Hn Hid. destruct s as [z m ts log]. cbn in Hn. unfold sync_enter.
  destruct (_ <=? _); apply (inv_update (Syncs z m ts log)); try done; cbn [sn_at sn_log sn_zk]; rewrite ?Hn; try (by exists id);
    try (by intros c0); intros ?; cbn; lia.
Qed.

Lemma parent_inv s p t path n : sync_inv s → sn_at s !! (p, t) = Some (SParent path n) → sync_inv (sync_parent p t path n s).
Proof using HZ.
  intros Hi Hk. destruct s as [z m ts log]. cbn in Hk. destruct (si_path _ Hi _ _ Hk) as (id & Hid & Ep). cbn in Ep. subst path.
  unfold sync_parent. destruct (zoo_create _ _ _ _) as [[r created] z'] eqn:E.
  pose proof (parent_same _ _ _ _ _ _ _ eq_refl Hid E) as Hc.
  destruct (_ || _); apply (inv_update (Syncs z m ts log)); try done; cbn [sn_at sn_log sn_zk]; rewrite ?Hk; try (by exists id);
    try (by intros c0 [= <-]); try (intros ?; cbn; lia).
  intros _ id' _. rewrite (Hc id'). cbn. lia.
Qed.

Lemma node_inv s p t path n : sync_inv s → sn_at s !! (p, t) = Some (SNode path n) → sync_inv (sync_node p t path n s).
Proof using HZ.
  intros Hi Hk. destruct s as [z m ts log]. cbn in Hk. destruct (si_path _ Hi _ _ Hk) as (id & Hid & Ep). cbn in Ep. subst path.
  unfold sync_node. destruct (zoo_create _ _ _ _) as [[r created] z'] eqn:E.
  destruct (zoo_create_ok _ _ _ _ _ _ _ _ (not_elem_of_nil SLASH) E) as [_ Ha].
  destruct (r =? ZOK) eqn:Er; zbool; apply (inv_update (Syncs z m ts log)); try done; cbn [sn_at sn_log sn_zk]; rewrite ?Hk;
    try (by exists id); try (by intros c0 [= <-]); try (intros ?; cbn; try case_decide; lia).
  - destruct Ha as [[_ (Hc & Ho & _)]|[? _]]; [|done]. intros _ id' Hid'. cbn. case_decide as Hq.
    + rewrite <-Hq, Hc. cbn. lia.
    + rewrite Ho by congruence. lia.
Qed.

Lemma turn_inv s p t path n : sync_inv s → sn_at s !! (p, t) = Some (SWait path n) → sync_inv (sync_turn p t path n s).
Proof using HZ.
  intros Hi Hk. destruct s as [z m ts log]. cbn in Hk. destruct (si_path _ Hi _ _ Hk) as (id & Hid & Ep). cbn in Ep. subst path.
  unfold sync_turn, try_sync. destruct (zoo_get_children _ _ _ _) as [[r v] z'] eqn:E.
  apply zoo_get_children_ok in E as [Hv [Hc _]]. assert (∀ id, zk_children z' (sync_path id) ≡ₚ zk_children z (sync_path id)) as Hz.
  { intros id'. apply Hc. }
  assert (∀ c log', (∃ n, c = SWait (sync_path id) n ∨ c = SDone (sync_path id) n ∧
      n <= Z.of_nat (length (zk_children z (sync_path id)))) →
    sync_inv (Syncs z' m (<[(p, t) := c]> ts) log')) as Hgo.
  { intros c log' Hcc. apply (inv_update (Syncs z m ts log)); try done; cbn [sn_at sn_log sn_zk]; rewrite ?Hk.
    - exists id. split; [done|]. by destruct Hcc as (n' & [->|[-> _]]).
    - by intros c0 [= <-].
    - intros path. destruct Hcc as (n' & [->|[-> _]]); cbn; lia.
    - intros _ id' _. rewrite (Hz id'). destruct Hcc as (n' & [->|[-> _]]); cbn; lia.
    - intros q n0 Hl ->. destruct Hcc as (n' & [?|[[= -> ->] Hn]]); [done|].
      pose proof (si_count _ Hi Hl id Hid) as Hct. cbn -[arrivals] in *.
      case_decide; [lia|done]. }
  destruct (r =? ZOK) eqn:Er; zbool.
  - destruct (n <=? Z.of_nat (length v)) eqn:El; zbool; apply Hgo.
    + exists n. right. split; [done|]. by rewrite <-(Hv Er).
    + exists n. by left.
  - apply Hgo. exists n. by left.
Qed.

Lemma sstep_inv s s' : sstep s s' → sync_inv s → sync_inv s'.
Proof using HZ.
  intros Hs Hi. destruct Hs as [s p t n id Hn Hm Hid|s p t c Hk|z z' m ts log Hc].
  - by apply enter_inv.
  - destruct c; cbn; [by apply parent_inv|by apply node_inv|by apply turn_inv|done|done].
  - destruct Hi as [H1 H2 H3]. split; [done| |done]. cbn in *. intros Hl id Hid. rewrite (Hc id). by apply H2.
Qed.

Lemma sync_reach_inv s : sync_reach s → sync_inv s.
Proof using HZ.
  intros (s0 & (Hm & Ha & Hl & Hz) & Hr).
  assert (sync_inv s0) as H0.
  { split; rewrite ?Ha; [by intros k c|intros _ id _; rewrite Hz; unfold arrivals; by rewrite Ha|by intros k q n]. }
  clear Hm Ha Hl Hz. induction Hr as [|s0 s1 s2 Hs _ IH]; [done|]. apply IH. by eapply sstep_inv.
Qed.

(** C22. The barrier holds as long as no call of [s_zoo_sync] has returned by
    its error path: a thread returns from [s_zoo_sync(z, n, id)] only when at
    least [n] threads, of all processes together, have made their node for this
    id, in every interleaving, whatever else goes on at the service, and also
    when reads of the children fail.  (A call whose [zoo_create] fails returns
    like one that has passed: [sync_error_returns].) *)
Theorem zoo_sync_barrier s k id n :
  sync_reach s → no_error s → sn_at s !! k = Some (SDone (sync_path id) n) → n <= arrivals (sync_path id) s.
Proof using HZ. intros Hr%sync_reach_inv Hl Hk. by apply (si_done _ Hr k). Qed.

(** It opens: when [n] threads have arrived, one more turn ends the loop, if the
    service answers. *)
Theorem zoo_sync_opens s p t id n :
  sync_reach s → no_error s → SLASH ∉ id → sn_at s !! (p, t) = Some (SWait (sync_path id) n) →
  n <= arrivals (sync_path id) s → (zoo_get_children (sn_zk s) p (sync_path id) None).1.1 = ZOK →
  sn_at (sync_step p t (SWait (sync_path id) n) s) !! (p, t) = Some (SDone (sync_path id) n).
Proof using HZ.
  intros Hr%sync_reach_inv Hl Hid Hk Hn Hok. pose proof (si_count _ Hr Hl id Hid) as Hc. destruct s as [z m ts log].
  cbn [sn_zk] in *. unfold sync_step, sync_turn, try_sync.
  destruct (zoo_get_children z p (sync_path id) None) as [[r v] z'] eqn:E. cbn [fst] in Hok. subst r.
  apply zoo_get_children_ok in E as [Hv _]. specialize (Hv eq_refl). apply Permutation_length in Hv.
  rewrite (proj2 (Z.eqb_eq ZOK ZOK) eq_refl), Hv, Hc, (proj2 (Z.leb_le _ _) Hn). apply lookup_insert_eq.
Qed.

(** An error lets a thread through: it returns without a node. *)
Theorem sync_error_returns z m ts log p t path n r created z' :
  zoo_create z p (child path []) [ZOO_EPHEMERAL; ZOO_SEQUENCE] = (r, created, z') → r ≠ ZOK →
  sn_at (sync_node p t path n (Syncs z m ts log)) !! (p, t) = Some (SError path n).
Proof.
  intros E Hr. cbn. rewrite E. rewrite (proj2 (Z.eqb_neq r ZOK) Hr). cbn. apply lookup_insert_eq.
Qed.
End sync.

(** ** A run: two processes meet *)
Definition id1 : list Z := [116].
Definition sync0 : syncs (zk := mem_zk) := Syncs (MemZk ∅ ∅ ∅ [] []) ∅ ∅ [].
Definition turn (p t : Z) (s : syncs (zk := mem_zk)) : syncs :=
  match sn_at s !! (p, t) with Some c => sync_step p t c s | None => s end.
Definition sync1 : syncs := turn 2 5 (turn 2 5 (sync_enter 2 5 2 id1 (turn 1 0 (turn 1 0 (turn 1 0 (sync_enter 1 0 2 id1 sync0)))))).
Definition sync2 : syncs := turn 1 0 sync1.

Lemma turn_step p t s : sync_reach s → sync_reach (turn p t s).
Proof.
  intros (s' & H' & Hr). unfold turn. destruct (sn_at s !! (p, t)) as [c|] eqn:E; [|by exists s'].
  exists s'. split; [done|]. eapply rtc_r; [done|by apply sstep_on].
Qed.
Lemma sync1_reach : sync_reach sync1.
Proof.
  unfold sync1. do 2 apply turn_step.
  assert (∀ p t s, sn_at s !! (p, t) = None → sn_m s !! p = None → sync_reach s → sync_reach (sync_enter p t 2 id1 s)) as Hen.
  { intros p t s H1 H2 (s' & H' & Hr). exists s'. split; [done|]. eapply rtc_r; [done|]. apply sstep_call; [done|done|].
    unfold id1, SLASH. set_solver. }
  apply Hen; [vm_compute; reflexivity|vm_compute; reflexivity|]. do 3 apply turn_step.
  apply Hen; [done|done|]. exists sync0. split; [done|constructor].
Qed.

Lemma zoo_sync_barrier_witness : 2 <= arrivals (sync_path id1) sync2.
Proof.
  apply (zoo_sync_barrier sync2 (1, 0) id1 2).
  - apply turn_step, sync1_reach.
  - assert (map_Forall (λ _ c, is_error c = false) (sn_at sync2)) as H by (apply (bool_decide_unpack _); vm_compute; exact I).
    exact H.
  - vm_compute. reflexivity.
Defined.
