(* ===== verification/ZooVec.v ===== *)
(** * Vectors of locks ([s_zoo_lockv])

    The race of [s_zoo_lock] with [try_lock_watcher] can complete a vector
    without its locks ([ZooRun]).  Here is what holds without it: when the
    watcher is called only while no thread of the process is in a test, as if
    [try_lock_watcher] took [lock_m], a complete vector has every lock, and
    vectors whose names are in one order do not block each other for ever. *)

From stdpp Require Import strings sorting.
From S2P Require Import Prelude SString SHashSpec Zoo ZooLock ZooWake ZooProgress.
Local Open Scope Z_scope.

(** ** The discipline *)
Definition watcher_pc (c : pc) : Prop := match c with PTle _ | PWatch _ | PWGot _ _ => True | _ => False end.
Definition testing (c : pc) : Prop := match c with PGot _ _ _ _ => True | _ => watcher_pc c end.

Section vec.
Context {zk TH : Type} `{HS : !ZkService zk} `{HT : !Table Z Z TH}.
Context (named : list Z → Prop) (unlocker : Z → Z → Prop) (rank : list Z → Z).
Implicit Types (z : zk) (zo : s_zoo TH) (ps : gmap Z (s_zoo TH)) (el : s_zoo_lock_elem) (vec : s_zoo_lock_vector) (t p e v : Z).

(** What a program does: it fills a vector with names in the order of [rank],
    locks it, and unlocks it when it is complete. *)
Definition vec_call p t (c : call) zo : Prop :=
  match c with
  | CLockvCreate => True
  | CLockvAdd v f => named f ∧ ∃ vec, z_vecs zo !! v = Some vec ∧ lv_lock_elems vec = None ∧
      ∀ g, g ∈ lv_filenames vec → rank g < rank f
  | CLockv v _ => ∃ vec, z_vecs zo !! v = Some vec ∧ lv_lock_elems vec = None ∧ lv_filenames vec ≠ []
  | CUnlockv v => unlocker p t ∧ ∃ vec, z_vecs zo !! v = Some vec ∧ is_Some (lv_lock_elems vec) ∧ lv_count vec <= lv_curr vec
  | _ => False
  end.

(** An event is delivered while no thread of the process tests, and its context
    was not freed (a watch is triggered once).  Nothing undefined happens.  The
    first is a restriction: [try_lock_watcher] takes no lock, so that the
    program has other runs, in which what is proved of these may fail
    ([callback_called_twice], [vector_complete_without_lock]). *)
Inductive vstep : zsys zk TH → zsys zk TH → Prop :=
| vstep_init z ps p z' zo :
    ps !! p = None → s_zoo_init z p = (z', zo) → vstep (Sys z ps) (Sys z' (<[p := zo]> ps))
| vstep_thread z ps p t zo z' zo' :
    ps !! p = Some zo → blocked zo t = false → thread_step z p t zo = Some (z', zo') →
    vstep (Sys z ps) (Sys z' (<[p := zo']> ps))
| vstep_call z ps p t zo c zo' :
    ps !! p = Some zo → pc_of zo t = PIdle → vec_call p t c zo → call_step t c zo = Some zo' →
    vstep (Sys z ps) (Sys z (<[p := zo']> ps))
| vstep_event z ps p t zo c l :
    ps !! p = Some zo → pc_of zo t = PIdle → zk_events z p = c :: l →
    (∀ t', ¬ testing (pc_of zo t')) → is_Some (z_tles zo !! c) →
    vstep (Sys z ps) (Sys (zk_deliver z p) (<[p := goto t (PTle c) zo]> ps)).

Definition vec_reach (s : zsys zk TH) : Prop := ∃ s0, zoo_start s0 ∧ rtc vstep s0 s.

Lemma vstep_zstep s s' : vstep s s' → zstep named unlocker s (Some s').
Proof.
  intros Hs. destruct Hs as [z ps p z' zo Hn Hi|z ps p t zo z' zo' Hzo Hb Ht|z ps p t zo c zo' Hzo Hpc Hc Ht|z ps p t zo c l Hzo Hpc He _ _].
  - by constructor.
  - pose proof (zstep_thread named unlocker z ps p t zo Hzo Hb) as H. by rewrite Ht in H.
  - assert (allowed named unlocker p t c) as Ha by (destruct c; cbn in *; naive_solver).
    pose proof (zstep_call named unlocker z ps p t zo c Hzo Hpc Ha) as H. by rewrite Ht in H.
  - by eapply zstep_event.
Qed.
Lemma vec_zoo_reach s : vec_reach s → zoo_reach named unlocker s.
Proof.
  intros (s0 & H0 & Hr). exists s0. split; [done|]. clear H0. induction Hr as [|s0 s1 s2 Hs _ IH]; [constructor|].
  eapply rtc_l; [by apply vstep_zstep|done].
Qed.

(** ** Who brings a vector its next lock
    A thread in [s_zoo_lock], a waiting element, or a thread that is about to
    call [lockv_callback]. *)
Definition pc_carr (es : gmap Z s_zoo_lock_elem) (c : pc) : option (Z * list Z) :=
  match c with
  | PParent q CbLockv v | PNode q CbLockv v | PElem q _ CbLockv v => Some (v, q)
  | PCall CbLockv v e => el ← es !! e; Some (v, el_parent_path el)
  | _ => None
  end.
Definition el_carr el : option (Z * list Z) :=
  match el_callback el with Some CbLockv => Some (el_d el, el_parent_path el) | _ => None end.
Definition carr zo (o : Z + Z) (x : Z * list Z) : Prop :=
  match o with
  | inl t => pc_carr (z_elems zo) (pc_of zo t) = Some x
  | inr e => ∃ el, z_elems zo !! e = Some el ∧ el_carr el = Some x
  end.

(** the vector waits for the name [f] *)
Definition taking vec (f : list Z) : Prop :=
  is_Some (lv_lock_elems vec) ∧ 0 <= lv_curr vec ∧ lv_filenames vec !! Z.to_nat (lv_curr vec) = Some f.
Definition complete vec : Prop := is_Some (lv_lock_elems vec) ∧ lv_count vec <= lv_curr vec.

Definition pc_lockv (c : pc) : Prop :=
  match c with
  | PParent _ cb _ | PNode _ cb _ | PElem _ _ cb _ | PGot _ _ cb _ | PCall cb _ _ => cb = CbLockv
  | _ => True
  end.
(** the thread is testing element [e] *)
Definition looks (tl : gmap Z (Z * Z)) (c : pc) e : Prop :=
  match c with
  | PGot e' _ _ _ | PWatch e' | PWGot e' _ => e' = e
  | PTle c => ∃ i, tl !! c = Some (e, i)
  | _ => False
  end.
Definition unlocks (vs : gmap Z s_zoo_lock_vector) (c : pc) : Prop :=
  match c with
  | PDelete e k | PFree e k => ∃ v i vec es, k = Some (v, i) ∧ vs !! v = Some vec ∧ lv_lock_elems vec = Some es ∧
      lv_count vec <= lv_curr vec ∧ 0 <= i ∧ es !! Z.to_nat i = Some (ElPtr e)
  | PUnlockv v i => ∃ vec, vs !! v = Some vec ∧ complete vec ∧ 0 <= i
  | _ => True
  end.

(** The names are in order, and each is bound to its place once the vector is
    locked: the elements below [curr] are there until [s_zoo_unlockv], which
    leaves null. *)
Definition vec_ok vec : Prop :=
  StronglySorted (λ f g, rank f < rank g) (lv_filenames vec) ∧ Forall named (lv_filenames vec) ∧
  ∀ es, lv_lock_elems vec = Some es → length es = length (lv_filenames vec) ∧ 0 <= lv_curr vec <= lv_count vec ∧
    (∀ j, Z.of_nat j < lv_curr vec → lv_curr vec < lv_count vec → ∃ e, es !! j = Some (ElPtr e)) ∧
    ∀ j, Z.of_nat j < lv_curr vec → es !! j ≠ Some ElUndef.

(** element [e] is the one of the name at [j] *)
Definition held zo v vec (j : nat) e : Prop :=
  ∃ el f, z_elems zo !! e = Some el ∧ el_callback el = None ∧ el_d el = v ∧
    lv_filenames vec !! j = Some f ∧ el_parent_path el = lock_path f.
Definition in_vec zo e : Prop :=
  ∃ v vec es j, z_vecs zo !! v = Some vec ∧ lv_lock_elems vec = Some es ∧ es !! j = Some (ElPtr e).

(** the tests of the elements: one at a time *)
Record tests_ok zo : Prop := {
  v_lockv t : pc_lockv (pc_of zo t);
  v_cb e el : z_elems zo !! e = Some el → el_callback el ≠ Some CbUser;
  v_call t cb d e : pc_of zo t = PCall cb d e → ∃ el, z_elems zo !! e = Some el ∧ el_callback el = None ∧ el_d el = d;
  v_got t e l cb d : pc_of zo t = PGot e l cb d → ∃ el, z_elems zo !! e = Some el ∧ el_callback el = Some cb ∧ el_d el = d;
  v_alone t e l cb d t' : pc_of zo t = PGot e l cb d → t' ≠ t → ¬ looks (z_tles zo) (pc_of zo t') e;
  v_one t t' : watcher_pc (pc_of zo t) → watcher_pc (pc_of zo t') → t = t';
  v_tle t c : pc_of zo t = PTle c → is_Some (z_tles zo !! c);
  v_looks t e : looks (z_tles zo) (pc_of zo t) e → e < z_nelem zo;
  v_below c e i : z_tles zo !! c = Some (e, i) → e < z_nelem zo ∧ c < z_ntle zo
}.
(** one carrier for the next lock of a vector *)
Record carr_ok zo : Prop := {
  v_carr o v q : carr zo o (v, q) → ∃ vec f, z_vecs zo !! v = Some vec ∧ taking vec f ∧ q = lock_path f;
  v_uniq o o' v q q' : carr zo o (v, q) → carr zo o' (v, q') → o = o';
  v_exist v vec f : z_log zo = [] → z_vecs zo !! v = Some vec → taking vec f → ∃ o q, carr zo o (v, q)
}.
(** the vectors *)
Record vecs_ok p zo : Prop := {
  v_vec v vec : z_vecs zo !! v = Some vec → vec_ok vec ∧ v < z_nvec zo;
  v_held v vec es j e : z_vecs zo !! v = Some vec → lv_lock_elems vec = Some es → es !! j = Some (ElPtr e) →
    Z.of_nat j < lv_curr vec ∧ held zo v vec j e;
  v_owned e el : z_elems zo !! e = Some el → el_callback el = None → (∃ t cb d, pc_of zo t = PCall cb d e) ∨ in_vec zo e;
  v_unlock t : unlocks (z_vecs zo) (pc_of zo t);
  v_thread t : in_unlock (pc_of zo t) → unlocker p t
}.
Definition vec_inv p zo : Prop := tests_ok zo ∧ carr_ok zo ∧ vecs_ok p zo.

(** ** What the steps keep *)
Definition moved t (c : pc) zo zo' : Prop := ∀ t', pc_of zo' t' = if decide (t = t') then c else pc_of zo t'.
Lemma moved_goto t c zo zo1 : z_threads zo1 = z_threads zo → moved t c zo (goto t c zo1).
Proof. intros E t'. rewrite pc_of_goto. unfold pc_of. by rewrite E. Qed.
Lemma moved_self t c zo zo' : moved t c zo zo' → pc_of zo' t = c.
Proof. intros H. by rewrite H, decide_True. Qed.
Lemma moved_other t c zo zo' t' : moved t c zo zo' → t' ≠ t → pc_of zo' t' = pc_of zo t'.
Proof. intros H Hne. by rewrite H, decide_False. Qed.

(** the element that a thread works with *)
Definition uses (c : pc) e : Prop :=
  match c with PGot e' _ _ _ | PCall _ _ e' => e' = e | _ => False end.

Lemma tests_step zo zo' t c :
  tests_ok zo → moved t c zo zo' → pc_lockv c →
  (∀ e el, z_elems zo' !! e = Some el → el_callback el ≠ Some CbUser) →
  (∀ t' e, t' ≠ t → uses (pc_of zo t') e → z_elems zo' !! e = z_elems zo !! e) →
  (∀ cb d e, c = PCall cb d e → ∃ el, z_elems zo' !! e = Some el ∧ el_callback el = None ∧ el_d el = d) →
  (∀ e l cb d, c = PGot e l cb d → (∃ el, z_elems zo' !! e = Some el ∧ el_callback el = Some cb ∧ el_d el = d) ∧
    ∀ t', t' ≠ t → ¬ looks (z_tles zo') (pc_of zo t') e) →
  (watcher_pc c → watcher_pc (pc_of zo t) ∨ ∀ t', ¬ watcher_pc (pc_of zo t')) →
  (∀ k, c = PTle k → is_Some (z_tles zo' !! k)) →
  (∀ t' k, t' ≠ t → pc_of zo t' = PTle k → z_tles zo' !! k = z_tles zo !! k) →
  (∀ e, looks (z_tles zo') c e → e < z_nelem zo' ∧ ∀ t' l cb d, t' ≠ t → pc_of zo t' ≠ PGot e l cb d) →
  z_nelem zo <= z_nelem zo' →
  (∀ k e i, z_tles zo' !! k = Some (e, i) → e < z_nelem zo' ∧ k < z_ntle zo') →
  tests_ok zo'.
Proof.
  intros Hok Hm Hl Hcb Huse Hcall Hgot Hw Htle Htles Hlook Hn Hb.
  pose proof (moved_self _ _ _ _ Hm) as Hs.
  assert (∀ t', t' ≠ t → pc_of zo' t' = pc_of zo t') as Ho by (intros; by apply (moved_other t c)).
  assert (∀ t' e, t' ≠ t → looks (z_tles zo') (pc_of zo t') e → looks (z_tles zo) (pc_of zo t') e) as Hlk.
  { intros t' e Hne H. destruct (pc_of zo t') eqn:E; try done. cbn in *. by rewrite <-(Htles t' c0). }
  split.
  - intros t'. destruct (decide (t' = t)) as [->|?]; [by rewrite Hs|rewrite Ho by done; apply Hok].
  - done.
  - intros t' cb d e. destruct (decide (t' = t)) as [->|?]; [rewrite Hs; apply Hcall|rewrite Ho by done].
    intros E. rewrite (Huse t') by (try done; by rewrite E). exact (v_call _ Hok _ _ _ _ E).
  - intros t' e l cb d. destruct (decide (t' = t)) as [->|?]; [rewrite Hs; apply Hgot|rewrite Ho by done].
    intros E. rewrite (Huse t') by (try done; by rewrite E). exact (v_got _ Hok _ _ _ _ _ E).
  - intros t1 e l cb d t2. destruct (decide (t1 = t)) as [->|?].
    + rewrite Hs. intros E Hne. rewrite Ho by done. by apply (Hgot e l cb d).
    + rewrite Ho by done. intros E Hne. destruct (decide (t2 = t)) as [->|?].
      * rewrite Hs. intros [_ H]%Hlook. by apply (H t1 l cb d).
      * rewrite Ho by done. intros H%Hlk; [|done]. by apply (v_alone _ Hok t1 e l cb d t2).
  - intros t1 t2. destruct (decide (t1 = t)) as [->|?], (decide (t2 = t)) as [->|?];
      rewrite ?Hs, ?Ho by done; [done|intros H1 H2|intros H2 H1|apply Hok].
    + destruct (Hw H1) as [H|H]; [by apply (v_one _ Hok)|by destruct (H t2)].
    + destruct (Hw H1) as [H|H]; [by apply (v_one _ Hok)|by destruct (H t1)].
  - intros t' k. destruct (decide (t' = t)) as [->|?]; [rewrite Hs; apply Htle|rewrite Ho by done].
    intros E. rewrite (Htles t') by done. by apply (v_tle _ Hok t').
  - intros t' e. destruct (decide (t' = t)) as [->|?]; [rewrite Hs; apply Hlook|rewrite Ho by done].
    intros H%Hlk; [|done]. apply (v_looks _ Hok) in H. lia.
  - done.
Qed.

(** elements and contexts are the same *)
Lemma tests_plain zo zo' t c :
  tests_ok zo → moved t c zo zo' → pc_lockv c →
  z_elems zo' = z_elems zo → z_tles zo' = z_tles zo → z_nelem zo' = z_nelem zo → z_ntle zo' = z_ntle zo →
  match c with PCall _ _ _ | PGot _ _ _ _ | PTle _ | PWatch _ | PWGot _ _ => False | _ => True end →
  tests_ok zo'.
Proof.
  intros Hok Hm Hl E1 E2 E3 E4 Hc. apply (tests_step zo zo' t c); try done; rewrite ?E1, ?E2, ?E3, ?E4;
    try (by destruct c); apply Hok.
Qed.

(** who carries what, but perhaps under another name *)
Lemma carr_step zo zo' (f : Z + Z → Z + Z) :
  carr_ok zo → (∀ v vec g, taking vec g → z_vecs zo' !! v = Some vec ↔ z_vecs zo !! v = Some vec) →
  (∀ o o', f o = f o' → o = o') → (∀ o x, carr zo' o x → carr zo (f o) x) →
  (z_log zo' = [] → z_log zo = [] ∧ ∀ o x, carr zo o x → ∃ o', carr zo' o' x) → carr_ok zo'.
Proof.
  intros Hok E Hf Hc Hx. split.
  - intros o v q H%Hc. destruct (v_carr _ Hok _ _ _ H) as (vec & g & Hv & Ht & Hq). exists vec, g. by rewrite E.
  - intros o o' v q q' H%Hc H'%Hc. apply Hf. by apply (v_uniq _ Hok _ _ v q q').
  - intros v vec g Hlog Hv Ht. rewrite E in Hv by done. destruct (Hx Hlog) as [Hlog' Hy].
    destruct (v_exist _ Hok v vec g) as (o & q & H); [done..|]. apply Hy in H as [o' H]. by exists o', q.
Qed.
Lemma carr_keep zo zo' t c :
  carr_ok zo → moved t c zo zo' → z_vecs zo' = z_vecs zo → z_elems zo' = z_elems zo →
  (z_log zo' = [] → z_log zo = []) →
  pc_carr (z_elems zo) c = pc_carr (z_elems zo) (pc_of zo t) ∨ pc_carr (z_elems zo) c = None ∧ z_log zo' ≠ [] →
  carr_ok zo'.
Proof.
  intros Hok Hm E1 E2 Hlog Hc. apply (carr_step zo zo' id); rewrite ?E1; try done.
  - intros [t'|e] x; unfold carr; rewrite E2; [|done]. destruct (decide (t' = t)) as [->|?].
    + rewrite (moved_self _ _ _ _ Hm). destruct Hc as [->|[-> _]]; done.
    + by rewrite (moved_other _ _ _ _ t' Hm).
  - intros Hl. split; [by apply Hlog|]. intros o x H. exists o. destruct o as [t'|e]; unfold carr in *; rewrite E2; [|done].
    destruct (decide (t' = t)) as [->|?].
    + rewrite (moved_self _ _ _ _ Hm). destruct Hc as [->|[_ ?]]; done.
    + by rewrite (moved_other _ _ _ _ t' Hm).
Qed.

(** the vectors are the same, and the elements that they have *)
Lemma vecs_step p zo zo' t c :
  vecs_ok p zo → moved t c zo zo' → z_vecs zo' = z_vecs zo → z_nvec zo' = z_nvec zo →
  unlocks (z_vecs zo) c → (in_unlock c → unlocker p t) →
  (∀ cb d e, pc_of zo t ≠ PCall cb d e) →
  (∀ e el, z_elems zo !! e = Some el → el_callback el = None → z_elems zo' !! e = Some el) →
  (∀ e el, z_elems zo' !! e = Some el → el_callback el = None →
    (∃ cb d, c = PCall cb d e) ∨ ∃ el0, z_elems zo !! e = Some el0 ∧ el_callback el0 = None) →
  vecs_ok p zo'.
Proof.
  intros Hok Hm E1 E2 Hu Ht Hc Hold Hnew. pose proof (moved_self _ _ _ _ Hm) as Hs. split.
  - rewrite E1, E2. apply Hok.
  - rewrite E1. intros v vec es j e Hv Hes Hj. destruct (v_held _ _ Hok v vec es j e) as [Hlt (el & f & Hel & Hcb & H)]; [done..|].
    split; [done|]. exists el, f. split; [by apply Hold|done].
  - intros e el Hel Hcb. destruct (Hnew e el Hel Hcb) as [(cb & d & ->)|(el0 & Hel0 & Hcb0)]; [left; by exists t, cb, d|].
    destruct (v_owned _ _ Hok e el0 Hel0 Hcb0) as [(t' & cb & d & Hpc)|H].
    + left. exists t', cb, d. rewrite (moved_other _ _ _ _ t' Hm); [done|]. intros ->. by apply (Hc cb d e).
    + right. unfold in_vec. by rewrite E1.
  - intros t'. rewrite E1. destruct (decide (t' = t)) as [->|?]; [by rewrite Hs|rewrite (moved_other _ _ _ _ t' Hm) by done; apply Hok].
  - intros t'. destruct (decide (t' = t)) as [->|?]; [by rewrite Hs|rewrite (moved_other _ _ _ _ t' Hm) by done; apply Hok].
Qed.
Lemma vecs_plain p zo zo' t c :
  vecs_ok p zo → moved t c zo zo' → z_vecs zo' = z_vecs zo → z_nvec zo' = z_nvec zo → z_elems zo' = z_elems zo →
  unlocks (z_vecs zo) c → (in_unlock c → unlocker p t) → (∀ cb d e, pc_of zo t ≠ PCall cb d e) → vecs_ok p zo'.
Proof.
  intros Hok Hm E1 E2 E3 Hu Ht Hc. apply (vecs_step p zo zo' t c); try done; rewrite E3; [done|].
  intros e el H H'. right. by exists el.
Qed.

(** Only the place of a thread changes. *)
Lemma vec_quiet p zo zo' t c :
  vec_inv p zo → moved t c zo zo' → z_elems zo' = z_elems zo → z_nelem zo' = z_nelem zo → z_tles zo' = z_tles zo →
  z_ntle zo' = z_ntle zo → z_vecs zo' = z_vecs zo → z_nvec zo' = z_nvec zo → (z_log zo' = [] → z_log zo = []) →
  (∀ cb d e, pc_of zo t ≠ PCall cb d e) → pc_lockv c →
  match c with PCall _ _ _ | PGot _ _ _ _ | PTle _ | PWatch _ | PWGot _ _ => False | _ => True end →
  unlocks (z_vecs zo) c → (in_unlock c → unlocker p t) →
  pc_carr (z_elems zo) c = pc_carr (z_elems zo) (pc_of zo t) ∨ pc_carr (z_elems zo) c = None ∧ z_log zo' ≠ [] →
  vec_inv p zo'.
Proof.
  intros (Ht & Hc & Hv) Hm E1 E2 E3 E4 E5 E6 Hl Hcall Hlv Hn Hu Hin Hcr.
  split_and!; [by eapply tests_plain|by eapply carr_keep|by eapply vecs_plain].
Qed.

Lemma try_lock_local z p e zo l z' zo' :
  try_lock z p e zo = Some (l, z', zo') →
  ∃ el, z_elems zo !! e = Some el ∧ z_tles zo' = <[z_ntle zo := (e, el_id el)]> (z_tles zo) ∧ z_ntle zo' = z_ntle zo + 1 ∧
    z_elems zo' = z_elems zo ∧ z_nelem zo' = z_nelem zo ∧ z_vecs zo' = z_vecs zo ∧ z_nvec zo' = z_nvec zo ∧
    z_threads zo' = z_threads zo ∧ (z_log zo' = [] → z_log zo = []) ∧ z_called zo' = z_called zo.
Proof.
  unfold try_lock, new_tle. destruct (z_elems zo !! e) as [el|]; [|done]. cbn.
  destruct (zoo_get_children _ _ _ _) as [[r l0] z1]. intros E. exists el.
  destruct (r =? ZOK); injection E as <- <- <-; split_and!; try done.
  cbn. by intros [? _]%app_nil.
Qed.

(** a new context is nobody's yet *)
Lemma new_tle_facts zo zo' e id :
  tests_ok zo → e < z_nelem zo' → z_nelem zo <= z_nelem zo' → z_tles zo' = <[z_ntle zo := (e, id)]> (z_tles zo) →
  z_ntle zo' = z_ntle zo + 1 →
  (∀ t' k, pc_of zo t' = PTle k → z_tles zo' !! k = z_tles zo !! k) ∧
  (∀ k e' i, z_tles zo' !! k = Some (e', i) → e' < z_nelem zo' ∧ k < z_ntle zo').
Proof.
  intros Hok He Hn Et En. split.
  - intros t' k Hpc. rewrite Et. apply lookup_insert_ne. intros <-.
    destruct (v_tle _ Hok _ _ Hpc) as [[e' i] H]. apply (v_below _ Hok) in H as [_ ?]. lia.
  - intros k e' i. rewrite Et, En, lookup_insert_Some. intros [[<- [= <- <-]]|[_ H%(v_below _ Hok)]]; lia.
Qed.

(** thread [t] and element [e] change places *)
Definition swapped t e (o : Z + Z) : Z + Z :=
  if decide (o = inl t) then inr e else if decide (o = inr e) then inl t else o.
Lemma swapped_inj t e o o' : swapped t e o = swapped t e o' → o = o'.
Proof. unfold swapped. repeat case_decide; congruence. Qed.
Lemma carr_swap zo zo' t c e :
  carr_ok zo → moved t c zo zo' → z_vecs zo' = z_vecs zo → (z_log zo' = [] → z_log zo = []) →
  (∀ e', e' ≠ e → z_elems zo' !! e' = z_elems zo !! e') →
  (∀ t', t' ≠ t → pc_carr (z_elems zo') (pc_of zo t') = pc_carr (z_elems zo) (pc_of zo t')) →
  (∀ x, carr zo' (inl t) x ↔ carr zo (inr e) x) → (∀ x, carr zo' (inr e) x ↔ carr zo (inl t) x) → carr_ok zo'.
Proof.
  intros Hok Hm E1 Hlog He Ht H1 H2.
  assert (∀ o x, carr zo' o x ↔ carr zo (swapped t e o) x) as Hc.
  { intros o x. unfold swapped. case_decide as D1; [by subst|]. case_decide as D2; [by subst|].
    destruct o as [t'|e']; unfold carr.
    - rewrite (moved_other _ _ _ _ t' Hm) by congruence. rewrite Ht by congruence. done.
    - rewrite He by congruence. done. }
  apply (carr_step zo zo' (swapped t e)); rewrite ?E1; try done; [apply swapped_inj|intros o x; by apply Hc|].
  intros Hl. split; [by apply Hlog|]. intros o x Ho. exists (swapped t e o). apply Hc.
  enough (swapped t e (swapped t e o) = o) as -> by done. unfold swapped. repeat case_decide; congruence.
Qed.

(** ** The steps of a thread *)
Lemma vec_parent z p t zo q cb d :
  vec_inv p zo → pc_of zo t = PParent q cb d → vec_inv p (lock_parent z p t q cb d zo).2.
Proof.
  intros Hi Hpc. pose proof Hi as (Ht & _). pose proof (v_lockv _ Ht t) as Hl. rewrite Hpc in Hl. cbn in Hl. subst cb.
  unfold lock_parent. destruct (zoo_create _ _ _ _) as [[r created] z'].
  destruct ((r =? ZOK) || (r =? ZNODEEXISTS)); cbn [snd];
    eapply vec_quiet; try (exact Hi || by apply moved_goto || done); rewrite ?Hpc; try done.
  - by left.
  - cbn. by intros [? _]%app_nil.
  - right. cbn. split; [done|]. by intros [_ ?]%app_nil.
Qed.

Lemma vec_node z p t zo q cb d z' zo' :
  vec_inv p zo → pc_of zo t = PNode q cb d → lock_node z p t q cb d zo = Some (z', zo') → vec_inv p zo'.
Proof.
  intros Hi Hpc. pose proof Hi as (Ht & _). pose proof (v_lockv _ Ht t) as Hl. rewrite Hpc in Hl. cbn in Hl. subst cb.
  unfold lock_node. destruct (zoo_create _ _ _ _) as [[r created] z1]. destruct (r =? ZOK).
  - destruct (c_strrchr _ _) as [sep|]; [|done]. intros [= _ <-].
    eapply vec_quiet; try (exact Hi || by apply moved_goto || done); rewrite ?Hpc; try done. by left.
  - intros [= _ <-]. eapply vec_quiet; try (exact Hi || by apply moved_goto || done); rewrite ?Hpc; try done.
    + cbn. by intros [? _]%app_nil.
    + right. cbn. split; [done|]. by intros [_ ?]%app_nil.
Qed.

(** the element is new *)
Lemma vec_elem z p t zo q nm cb d z' zo' :
  proc_wf zo → vec_inv p zo → pc_of zo t = PElem q nm cb d → lock_elem z p t q nm cb d zo = Some (z', zo') → vec_inv p zo'.
Proof.
  intros Hw Hi Hpc Hs. pose proof Hi as (Ht & Hc & Hv).
  pose proof (v_lockv _ Ht t) as Hl. rewrite Hpc in Hl. cbn in Hl. subst cb.
  unfold lock_elem, new_elem in Hs. cbn zeta in Hs. set (e := z_nelem zo) in *.
  destruct (try_lock _ _ _ _) as [[[v z1] zo1]|] eqn:E; [|done]. injection Hs as _ <-.
  apply try_lock_local in E as (el & Hel & E1 & E2 & E3 & E4 & E5 & E6 & E7 & E8 & _).
  cbn in Hel, E1, E2, E3, E4, E5, E6, E7, E8. rewrite lookup_insert_eq in Hel. injection Hel as <-.
  assert (z_elems zo !! e = None) as Hnone.
  { destruct (z_elems zo !! e) as [el|] eqn:E; [|done]. apply (wf_elem _ Hw) in E as [? _]. unfold e in *. lia. }
  set (c := match v with Some l => PGot e l CbLockv d | None => PIdle end).
  set (zo2 := match v with Some l => _ | None => _ end).
  assert (moved t c zo zo2) as Hm by (unfold c, zo2; destruct v; by apply moved_goto).
  assert (z_elems zo2 = <[e := Elem (Some CbLockv) d q nm (lock_elem_id zo)]> (z_elems zo) ∧ z_nelem zo2 = e + 1 ∧
    z_tles zo2 = z_tles zo1 ∧ z_ntle zo2 = z_ntle zo + 1 ∧ z_vecs zo2 = z_vecs zo ∧ z_nvec zo2 = z_nvec zo ∧
    z_log zo2 = z_log zo1) as (F1 & F2 & F3 & F4 & F5 & F6 & F7) by (unfold zo2; destruct v; cbn; auto 10).
  clearbody zo2. rewrite E1 in F3.
  destruct (new_tle_facts zo zo2 e (lock_elem_id zo)) as [Htl Hbl]; [done|lia|unfold e in *; lia|done..|].
  assert (∀ e', z_elems zo !! e' ≠ None → z_elems zo2 !! e' = z_elems zo !! e') as Hsame.
  { intros e' H. rewrite F1. apply lookup_insert_ne. intros <-. done. }
  split_and!.
  - apply (tests_step zo zo2 t c); try done.
    + unfold c. by destruct v.
    + intros e' el. rewrite F1, lookup_insert_Some. intros [[<- <-]|[_ H]]; [done|by apply (v_cb _ Ht e')].
    + intros t' e' _ Hu. apply Hsame. destruct (pc_of zo t') eqn:Hpc'; try done; cbn in Hu; subst.
      * destruct (v_got _ Ht _ _ _ _ _ Hpc') as (? & H & _). by rewrite H.
      * destruct (v_call _ Ht _ _ _ _ Hpc') as (? & H & _). by rewrite H.
    + unfold c. by destruct v.
    + intros e' l cb d'. unfold c. destruct v as [l'|]; [|done]. intros [= <- <- <- <-]. split.
      { rewrite F1, lookup_insert_eq. by eexists. }
      intros t' _ Hlk. enough (e < z_nelem zo) by (unfold e in *; lia). apply (v_looks _ Ht t').
      destruct (pc_of zo t') eqn:Hpc'; try done. cbn in *. by rewrite <-(Htl t').
    + unfold c. by destruct v.
    + unfold c. by destruct v.
    + intros t' k _ H. by apply (Htl t').
    + intros e'. unfold c. destruct v as [l|]; [|done]. cbn. intros <-. split; [lia|]. intros t' l' cb d' _ Hpc'.
      destruct (v_got _ Ht _ _ _ _ _ Hpc') as (? & H & _). by rewrite Hnone in H.
    + unfold e in *. lia.
  - apply (carr_swap zo zo2 t c e); try done.
    + rewrite F7. exact E8.
    + intros e' Hne. rewrite F1. by apply lookup_insert_ne.
    + intros t' _. destruct (pc_of zo t') as [| | | | | | | |cb' v' e'| | |] eqn:Hpc'; try done.
      destruct (v_call _ Ht _ _ _ _ Hpc') as (? & H & _). destruct cb'; [done|]. cbn. by rewrite Hsame by (by rewrite H).
    + intros x. unfold carr. rewrite (moved_self _ _ _ _ Hm). rewrite Hnone. unfold c. destruct v; naive_solver.
    + intros x. unfold carr. rewrite F1, lookup_insert_eq, Hpc. cbn. naive_solver.
  - apply (vecs_step p zo zo2 t c); try done; rewrite ?Hpc; try done.
    + unfold c. by destruct v.
    + unfold c. by destruct v.
    + intros e' el H _. by rewrite Hsame; [|rewrite H].
    + intros e' el. rewrite F1, lookup_insert_Some. intros [[<- <-]|[_ H]] Hcb; [done|right; by exists el].
Qed.

(** the lock is taken *)
Lemma vec_grant p zo zo' t e l cb el :
  vec_inv p zo → view (pc_of zo t) = Some (e, l) → z_elems zo !! e = Some el → el_callback el = Some cb →
  z_elems zo' = <[e := set_callback None el]> (z_elems zo) → z_nelem zo' = z_nelem zo → z_tles zo' = z_tles zo →
  z_ntle zo' = z_ntle zo → z_vecs zo' = z_vecs zo → z_nvec zo' = z_nvec zo → (z_log zo' = [] → z_log zo = []) →
  moved t (PCall cb (el_d el) e) zo zo' → vec_inv p zo'.
Proof.
  intros (Ht & Hc & Hv) Hview Hel Hcb E1 E2 E3 E4 E5 E6 Hlog Hm.
  assert (cb = CbLockv) as ->. { pose proof (v_cb _ Ht e el Hel) as H. rewrite Hcb in H. by destruct cb. }
  assert (looks (z_tles zo) (pc_of zo t) e) as Hlk.
  { destruct (pc_of zo t); try done; cbn in *; congruence. }
  assert (∀ t' e', t' ≠ t → uses (pc_of zo t') e' → z_elems zo' !! e' = z_elems zo !! e') as Huse.
  { intros t' e' Hne Hu. rewrite E1. apply lookup_insert_ne. intros <-.
    destruct (pc_of zo t') eqn:Hpc'; try done; cbn in Hu; subst.
    - destruct (v_alone _ Ht _ _ _ _ _ t Hpc'); done.
    - destruct (v_call _ Ht _ _ _ _ Hpc') as (el' & H & H' & _). congruence. }
  split_and!.
  - apply (tests_step zo zo' t (PCall CbLockv (el_d el) e)); try done; rewrite ?E2, ?E3, ?E4; try apply Ht; try done.
    + intros e' el'. rewrite E1, lookup_insert_Some. intros [[<- <-]|[_ H]]; [done|by apply (v_cb _ Ht e')].
    + intros cb d e' [= <- <- <-]. rewrite E1, lookup_insert_eq. by eexists.
  - apply (carr_swap zo zo' t (PCall CbLockv (el_d el) e) e); try done.
    + intros e' Hne. rewrite E1. by apply lookup_insert_ne.
    + intros t' Hne. destruct (pc_of zo t') as [| | | | | | | |cb' v' e'| | |] eqn:Hpc'; try done.
      destruct cb'; [done|]. cbn. by rewrite (Huse t') by (done || by rewrite Hpc').
    + intros x. unfold carr. rewrite (moved_self _ _ _ _ Hm). cbn. rewrite E1, lookup_insert_eq, Hel. cbn.
      unfold el_carr. split; [intros [= <-]; exists el; by rewrite Hcb|intros (? & [= <-] & H); rewrite Hcb in H; done].
    + intros x. unfold carr. rewrite E1, lookup_insert_eq. destruct (pc_of zo t); naive_solver.
  - apply (vecs_step p zo zo' t (PCall CbLockv (el_d el) e)); try done.
    + intros cb d e' Hpc. by rewrite Hpc in Hview.
    + intros e' el' H H'. rewrite E1. rewrite lookup_insert_ne; [done|]. intros <-. congruence.
    + intros e' el'. rewrite E1, lookup_insert_Some. intros [[<- <-]|[_ H]] H'; [left; eauto|right; by exists el'].
Qed.

Lemma vec_check p t zo e l cb d zo' :
  vec_inv p zo → pc_of zo t = PGot e l cb d → lock_check t e l cb d zo = Some zo' → vec_inv p zo'.
Proof.
  intros Hi Hpc. pose proof Hi as (Ht & _). unfold lock_check.
  destruct (v_got _ Ht _ _ _ _ _ Hpc) as (el & Hel & Hcb & <-). rewrite Hel. cbn. intros [= <-]. case_match.
  - apply (vec_grant p zo _ t e l cb el); try done; [by rewrite Hpc|by apply moved_goto].
  - eapply vec_quiet; try (exact Hi || by apply moved_goto || done); rewrite ?Hpc; try done. by left.
Qed.

Lemma vec_watcher_check p t zo e l zo' :
  vec_inv p zo → pc_of zo t = PWGot e l → watcher_check t e l zo = Some zo' → vec_inv p zo'.
Proof.
  intros Hi Hpc. pose proof Hi as (Ht & _). unfold watcher_check.
  destruct (z_elems zo !! e) as [el|] eqn:Hel; [|done]. cbn. case_match.
  - destruct (el_callback el) as [cb|] eqn:Hcb; [|done]. intros [= <-].
    apply (vec_grant p zo _ t e l cb el); try done; [by rewrite Hpc|by apply moved_goto].
  - intros [= <-]. eapply vec_quiet; try (exact Hi || by apply moved_goto || done); rewrite ?Hpc; try done. by left.
Qed.

(** A watcher goes on with its element: no other thread tests it. *)
Lemma vec_watching p zo zo' t c :
  vec_inv p zo → moved t c zo zo' → watcher_pc (pc_of zo t) → watcher_pc c →
  (∀ e, looks (z_tles zo') c e → looks (z_tles zo) (pc_of zo t) e) → (∀ k, c ≠ PTle k) →
  (∀ t' k, t' ≠ t → pc_of zo t' = PTle k → z_tles zo' !! k = z_tles zo !! k) →
  (∀ k e i, z_tles zo' !! k = Some (e, i) → e < z_nelem zo' ∧ k < z_ntle zo') →
  z_elems zo' = z_elems zo → z_nelem zo' = z_nelem zo → z_vecs zo' = z_vecs zo → z_nvec zo' = z_nvec zo →
  (z_log zo' = [] → z_log zo = []) → vec_inv p zo'.
Proof.
  intros (Ht & Hc & Hv) Hm Hw Hw' Hlk Hnt Htl Hb E1 E2 E3 E4 Hlog.
  assert (pc_carr (z_elems zo) c = pc_carr (z_elems zo) (pc_of zo t)) as Hcr by (destruct (pc_of zo t), c; done).
  split_and!.
  - apply (tests_step zo zo' t c); try done; rewrite ?E1, ?E2; try done; try (by destruct c).
    + apply Ht.
    + by left.
    + intros k ->. by destruct (Hnt k).
    + intros e H%Hlk. split; [by apply (v_looks _ Ht) in H|]. intros t' l cb d Hne Hpc.
      by destruct (v_alone _ Ht _ _ _ _ _ t Hpc (not_eq_sym Hne)).
  - eapply carr_keep; try done. by left.
  - eapply vecs_plain; try done; [by destruct c|by destruct c|]. intros cb d e H. by rewrite H in Hw.
Qed.

Lemma vec_tle p t zo c zo' :
  vec_inv p zo → pc_of zo t = PTle c → try_lock_watcher t c zo = Some zo' → vec_inv p zo'.
Proof.
  intros Hi Hpc. pose proof Hi as (Ht & _). unfold try_lock_watcher. destruct (z_tles zo !! c) as [[e i]|] eqn:Hc; [|done].
  cbn. intros [= <-]. case_match.
  - apply (vec_watching p zo _ t (PWatch e)); try done; rewrite ?Hpc; try done; [by apply moved_goto|..].
    + intros e' <-. exists i. done.
    + intros t' k Hne Hpc'. cbn. apply lookup_delete_ne. intros <-. apply Hne, (v_one _ Ht); by rewrite ?Hpc, ?Hpc'.
    + intros k e' i'. cbn. rewrite lookup_delete_Some. intros [_ Hk]. by apply (v_below _ Ht) in Hk.
  - eapply vec_quiet; try (exact Hi || by apply moved_goto || done); rewrite ?Hpc; try done. by left.
Qed.

Lemma vec_watch z p t zo e z' zo' :
  vec_inv p zo → pc_of zo t = PWatch e → watcher_try z p t e zo = Some (z', zo') → vec_inv p zo'.
Proof.
  intros Hi Hpc. pose proof Hi as (Ht & _). unfold watcher_try.
  destruct (z_elems zo !! e) as [el|] eqn:Hel; [|done]. cbn. destruct (el_callback el) as [cb0|].
  2: { intros [= _ <-]. eapply vec_quiet; try (exact Hi || by apply moved_goto || done); rewrite ?Hpc; try done. by left. }
  destruct (try_lock _ _ _ _) as [[[l z1] zo1]|] eqn:E; [|done]. intros [= _ <-].
  apply try_lock_local in E as (el' & Hel' & E1 & E2 & E3 & E4 & E5 & E6 & E7 & E8 & _).
  rewrite Hel in Hel'. injection Hel' as <-.
  assert (e < z_nelem zo) as He by (apply (v_looks _ Ht t); by rewrite Hpc).
  destruct (new_tle_facts zo zo1 e (el_id el)) as [Htl Hbl]; [done|lia|lia|done..|].
  destruct l as [l|].
  - apply (vec_watching p zo _ t (PWGot e l)); try done; rewrite ?Hpc; try done; [by apply moved_goto|].
    intros t' k _. by apply Htl.
  - destruct Hi as (_ & Hc & Hv). split_and!.
    + apply (tests_step zo _ t PIdle); try done; [by apply moved_goto|..]; cbn [goto z_elems z_nelem z_tles z_ntle].
      * rewrite E3. apply Ht.
      * intros t' e' _ _. by rewrite E3.
      * intros t' k _. by apply Htl.
      * lia.
    + eapply (carr_keep zo _ t PIdle); try done; [by apply moved_goto|]. rewrite Hpc. by left.
    + eapply (vecs_plain p zo _ t PIdle); try done; [by apply moved_goto|]. by rewrite Hpc.
Qed.

Lemma vec_delete z p t zo e k :
  vec_inv p zo → pc_of zo t = PDelete e k → vec_inv p (unlock_delete z p t e k zo).2.
Proof.
  intros Hi Hpc. pose proof Hi as (_ & _ & Hv). unfold unlock_delete. destruct (zoo_delete _ _ _). cbn [snd].
  pose proof (v_unlock _ _ Hv t) as Hu. pose proof (v_thread _ _ Hv t) as Hth. rewrite Hpc in Hu, Hth.
  eapply vec_quiet; try (exact Hi || by apply moved_goto || done); rewrite ?Hpc; try done. by left.
Qed.

Lemma vec_unlockv_next p t zo v i zo' :
  vec_inv p zo → pc_of zo t = PUnlockv v i → unlockv_next t v i zo = Some zo' → vec_inv p zo'.
Proof.
  intros Hi Hpc. pose proof Hi as (_ & _ & Hv).
  pose proof (v_unlock _ _ Hv t) as Hu. pose proof (v_thread _ _ Hv t) as Hth. rewrite Hpc in Hu, Hth.
  destruct Hu as (vec & Hvec & [Hes Hdone] & Hi0). unfold unlockv_next. rewrite Hvec. cbn. case_match.
  { intros [= <-]. eapply vec_quiet; try (exact Hi || by apply moved_goto || done); rewrite ?Hpc; try done. by left. }
  destruct (lv_lock_elems vec) as [es|] eqn:Ees; [|done]. cbn. destruct (es !! _) as [q|] eqn:Eq; [|done]. cbn.
  destruct q as [| |e]; [done|intros [= <-]|].
  - eapply vec_quiet; try (exact Hi || by apply moved_goto || done); rewrite ?Hpc; try done; [|by left].
    exists vec. split_and!; [done|by split|lia].
  - unfold s_zoo_unlock. destruct (z_elems zo !! e) as [el|]; [|done]. intros [= <-].
    eapply vec_quiet; try (exact Hi || by apply moved_goto || done); rewrite ?Hpc; try done; [|by left].
    cbn. by exists v, i, vec, es.
Qed.

(** ** A vector changes *)
(** a vector that is not complete: what is in it stays *)
Lemma vecs_set p zo zo' t c v vec' :
  vecs_ok p zo → moved t c zo zo' → z_elems zo' = z_elems zo → z_vecs zo' = <[v := vec']> (z_vecs zo) →
  z_nvec zo <= z_nvec zo' → v < z_nvec zo' → vec_ok vec' → ¬ in_unlock c →
  (∀ vec, z_vecs zo !! v = Some vec → ¬ complete vec ∧
    ∀ es j e, lv_lock_elems vec = Some es → es !! j = Some (ElPtr e) →
      ∃ es', lv_lock_elems vec' = Some es' ∧ es' !! j = Some (ElPtr e)) →
  (∀ es' j e, lv_lock_elems vec' = Some es' → es' !! j = Some (ElPtr e) →
    Z.of_nat j < lv_curr vec' ∧ held zo v vec' j e) →
  (∀ cb d e, pc_of zo t = PCall cb d e → ∃ es' j, lv_lock_elems vec' = Some es' ∧ es' !! j = Some (ElPtr e)) →
  vecs_ok p zo'.
Proof.
  intros Hok Hm E1 E2 Hn Hv Hvec Hc Hold Hheld Hcall. pose proof (moved_self _ _ _ _ Hm) as Hs.
  assert (∀ t', t' ≠ t → pc_of zo' t' = pc_of zo t') as Ho by (intros; by apply (moved_other t c)).
  split.
  - intros v' vec0. rewrite E2, lookup_insert_Some. intros [[<- <-]|[_ [? ?]%(v_vec _ _ Hok)]]; (split; [done|lia]).
  - intros v' vec0 es j e. rewrite E2, lookup_insert_Some. unfold held. rewrite E1.
    intros [[<- <-]|[_ H]]; [apply Hheld|by apply (v_held _ _ Hok)].
  - intros e el Hel Hcb. rewrite E1 in Hel. destruct (v_owned _ _ Hok e el Hel Hcb) as [(t' & cb & d & Hpc)|(v' & vec & es & j & Hv' & Hes & Hj)].
    + destruct (decide (t' = t)) as [->|?]; [|left; exists t', cb, d; by rewrite Ho].
      right. destruct (Hcall _ _ _ Hpc) as (es' & j & H1 & H2). exists v, vec', es', j. by rewrite E2, lookup_insert_eq.
    + right. destruct (decide (v' = v)) as [->|?].
      * destruct (Hold _ Hv') as [_ H]. destruct (H _ _ _ Hes Hj) as (es' & H1 & H2).
        exists v, vec', es', j. by rewrite E2, lookup_insert_eq.
      * exists v', vec, es, j. by rewrite E2, lookup_insert_ne.
  - intros t'. destruct (decide (t' = t)) as [->|?]; [rewrite Hs; by destruct c|rewrite Ho by done].
    pose proof (v_unlock _ _ Hok t') as H. rewrite E2.
    assert (∀ v' vec, z_vecs zo !! v' = Some vec → complete vec → <[v := vec']> (z_vecs zo) !! v' = Some vec) as Hne.
    { intros v' vec Hv' Hd. rewrite lookup_insert_ne; [done|]. intros <-. by destruct (Hold _ Hv'). }
    assert (∀ e k, unlocks (z_vecs zo) (PDelete e k) → unlocks (<[v := vec']> (z_vecs zo)) (PDelete e k)) as Hd.
    { intros e k (v' & i & vec & es & -> & Hv' & Hes & Hdone & Hi & Hj). exists v', i, vec, es. split_and!; try done.
      apply Hne; [done|]. split; [by rewrite Hes|done]. }
    destruct (pc_of zo t') as [| | | | | | | | |e k|e k|v' i]; try done; [by apply Hd..|].
    destruct H as (vec & Hv' & Hd' & Hi). exists vec. split_and!; [by apply Hne|done|done].
  - intros t'. destruct (decide (t' = t)) as [->|?]; [by rewrite Hs|rewrite Ho by done; apply Hok].
Qed.

(** the vector waits for another name, or for none; thread [t] brings it *)
Lemma carr_set zo zo' t c v vec' :
  carr_ok zo → moved t c zo zo' → z_elems zo' = z_elems zo → z_vecs zo' = <[v := vec']> (z_vecs zo) →
  (z_log zo' = [] → z_log zo = []) →
  (∀ o v' q, carr zo o (v', q) → o = inl t ↔ v' = v) →
  (∀ q v', pc_carr (z_elems zo) c = Some (v', q) → v' = v ∧ ∃ f, taking vec' f ∧ q = lock_path f) →
  (∀ f, taking vec' f → pc_carr (z_elems zo) c = Some (v, lock_path f)) → carr_ok zo'.
Proof.
  intros Hok Hm E1 E2 Hlog Hown Hc Ht.
  assert (∀ o x, carr zo' o x ↔ if decide (o = inl t) then pc_carr (z_elems zo) c = Some x else carr zo o x) as Hcr.
  { intros [t'|e] x; unfold carr; rewrite E1; [|done]. case_decide as D.
    - injection D as ->. by rewrite (moved_self _ _ _ _ Hm).
    - rewrite (moved_other _ _ _ _ t' Hm) by congruence. done. }
  split.
  - intros o v' q. rewrite Hcr, E2. case_decide as D.
    + intros H. destruct (Hc _ _ H) as [-> (f & Hf & ->)]. exists vec', f. by rewrite lookup_insert_eq.
    + intros H. rewrite lookup_insert_ne; [by apply (v_carr _ Hok o)|]. intros <-. by apply D, (Hown _ _ _ H).
  - intros o o' v' q q'. rewrite !Hcr. repeat case_decide; [congruence|intros [-> _]%Hc Hx|intros Hx [-> _]%Hc|by apply (v_uniq _ Hok)].
    + by destruct (proj2 (Hown _ _ _ Hx) eq_refl).
    + by destruct (proj2 (Hown _ _ _ Hx) eq_refl).
  - intros v' vec f Hl. rewrite E2, lookup_insert_Some. intros [[<- <-]|[Hne Hv']] Htk.
    + exists (inl t), (lock_path f). rewrite Hcr, decide_True by done. by apply Ht.
    + destruct (v_exist _ Hok v' vec f) as (o & q & H); [by apply Hlog|done|done|]. exists o, q.
      rewrite Hcr, decide_False; [done|]. intros D. by apply Hne, eq_sym, (Hown _ _ _ H).
Qed.

Lemma taking_next vec f : taking vec f → vec_ok vec → lv_curr vec < lv_count vec.
Proof.
  intros ([es Hes] & H0 & H) (_ & _ & Hok). apply lookup_lt_Some in H. unfold lv_count. lia.
Qed.
Lemma taking_not_complete vec f : taking vec f → ¬ complete vec.
Proof. intros (_ & H0 & H) [_ Hd]. apply lookup_lt_Some in H. unfold lv_count in *. lia. Qed.
Lemma set_elem_ptr_elems i q vec vec' :
  set_elem_ptr i q vec = Some vec' → ∃ es, lv_lock_elems vec = Some es ∧ 0 <= i < Z.of_nat (length es) ∧
    vec' = LockVector (lv_filenames vec) (lv_size vec) (lv_curr vec) (lv_d vec) (Some (<[Z.to_nat i := q]> es)).
Proof.
  unfold set_elem_ptr. destruct (lv_lock_elems vec) as [es|]; [|done]. cbn. case_bool_decide; [|done].
  intros [= <-]. by exists es.
Qed.

(** [lockv_callback]: the lock gets its place, and the next one is asked for *)
Definition with_lock vec e (es : list elem_ptr) : s_zoo_lock_vector :=
  LockVector (lv_filenames vec) (lv_size vec) (lv_curr vec + 1) (lv_d vec) (Some (<[Z.to_nat (lv_curr vec) := ElPtr e]> es)).
Lemma lockv_callback_spec t v e zo zo' :
  lockv_callback t v e zo = Some zo' →
  ∃ vec es c, z_vecs zo !! v = Some vec ∧ lv_lock_elems vec = Some es ∧ 0 <= lv_curr vec < Z.of_nat (length es) ∧
    z_vecs zo' = <[v := with_lock vec e es]> (z_vecs zo) ∧ moved t c zo zo' ∧
    z_elems zo' = z_elems zo ∧ z_nelem zo' = z_nelem zo ∧ z_tles zo' = z_tles zo ∧ z_ntle zo' = z_ntle zo ∧
    z_nvec zo' = z_nvec zo ∧ z_log zo' = z_log zo ∧
    (c = PIdle ∧ lv_count vec <= lv_curr vec + 1 ∧ z_called zo' = z_called zo ++ [CalledLockv (lv_d vec) v] ∨
     z_called zo' = z_called zo ∧ lv_curr vec + 1 < lv_count vec ∧
     ∃ f, lv_filenames vec !! Z.to_nat (lv_curr vec + 1) = Some f ∧ c = PParent (lock_path f) CbLockv v).
Proof.
  unfold lockv_callback. destruct (z_vecs zo !! v) as [vec|]; [|done]. cbn.
  destruct (set_elem_ptr _ _ _) as [vec'|] eqn:Ev; [|done]. apply set_elem_ptr_elems in Ev as (es & Hes & Hlt & ->). cbn.
  intros H. exists vec, es. unfold lv_count in *. cbn in *. destruct (_ <=? _) eqn:Hd; zbool.
  - injection H as <-. exists PIdle. split_and!; try (done || lia); [by apply moved_goto|by left].
  - destruct (lv_filenames vec !! _) as [f|] eqn:Ef; [|done]. cbn in H. apply s_zoo_lock_inv in H as ->.
    exists (PParent (lock_path f) CbLockv v). split_and!; try (done || lia); [by apply moved_goto|]. right. eauto.
Qed.

Lemma with_lock_slot vec e es j q :
  0 <= lv_curr vec < Z.of_nat (length es) → <[Z.to_nat (lv_curr vec) := ElPtr e]> es !! j = Some q →
  Z.of_nat j = lv_curr vec ∧ q = ElPtr e ∨ Z.of_nat j ≠ lv_curr vec ∧ es !! j = Some q.
Proof.
  intros Hlt H. destruct (decide (j = Z.to_nat (lv_curr vec))) as [->|?].
  - rewrite list_lookup_insert_eq in H by lia. injection H as <-. left. split; [lia|done].
  - rewrite list_lookup_insert_ne in H by done. right. split; [lia|done].
Qed.
Lemma with_lock_ok vec e es :
  vec_ok vec → lv_lock_elems vec = Some es → 0 <= lv_curr vec < Z.of_nat (length es) → vec_ok (with_lock vec e es).
Proof.
  intros (Hs & Hn & Hok) Hes Hlt. split_and!; [done..|]. intros es' [= <-]. unfold lv_count, with_lock. cbn.
  destruct (Hok _ Hes) as (Hlen & Hc & Hptr & Hund). unfold lv_count in *. rewrite length_insert. split_and!; [done|lia|lia|..].
  - intros j Hj Hlt'. destruct (decide (Z.of_nat j = lv_curr vec)) as [E|?].
    + exists e. rewrite <-E, Nat2Z.id. apply list_lookup_insert_eq. lia.
    + rewrite list_lookup_insert_ne by lia. apply Hptr; lia.
  - intros j Hj [[_ ?]|[Hne H]]%with_lock_slot; [done| |done]. apply (Hund j); [lia|done].
Qed.

Lemma vec_callback p t zo v e zo' :
  vec_inv p zo → pc_of zo t = PCall CbLockv v e → lockv_callback t v e zo = Some zo' → vec_inv p zo'.
Proof.
  intros (Ht & Hc & Hv) Hpc Hs.
  apply lockv_callback_spec in Hs as (vec & es & c & Hvec & Hes & Hlt & E1 & Hm & E2 & E3 & E4 & E5 & E6 & E7 & Hcase).
  destruct (v_call _ Ht _ _ _ _ Hpc) as (el & Hel & Hcb & Hd).
  assert (carr zo (inl t) (v, el_parent_path el)) as Hcar by (cbn; rewrite Hpc; cbn; by rewrite Hel).
  destruct (v_carr _ Hc _ _ _ Hcar) as (vec1 & f & Hvec1 & Htk & Hq). rewrite Hvec in Hvec1. injection Hvec1 as <-.
  destruct (v_vec _ _ Hv _ _ Hvec) as [Hok Hvn]. pose proof Hok as (_ & _ & Hok'). destruct (Hok' _ Hes) as (Hlen & Hcurr & _ & _).
  split_and!.
  - apply (tests_plain zo zo' t c); try done; by destruct Hcase as [(-> & _)|(_ & _ & ? & _ & ->)].
  - apply (carr_set zo zo' t c v (with_lock vec e es)); try done; [by rewrite E7|..].
    + intros o v' q Ho. split; [intros ->|intros ->; by eapply (v_uniq _ Hc)].
      cbn in Ho, Hcar. rewrite Hcar in Ho. by injection Ho.
    + intros q v'. destruct Hcase as [(-> & _)|(_ & Hlt' & g & Hg & ->)]; [done|]. intros [= <- <-]. split; [done|].
      exists g. split; [|done]. unfold taking. split_and!; [by eexists|cbn; lia|done].
    + intros g (_ & _ & Hg). cbn in Hg. destruct Hcase as [(_ & Hlt' & _)|(_ & _ & g' & Hg' & ->)].
      * apply lookup_lt_Some in Hg. unfold lv_count in *. lia.
      * rewrite Hg' in Hg. by injection Hg as <-.
  - apply (vecs_set p zo zo' t c v (with_lock vec e es)); try done; [lia|lia|by apply with_lock_ok|..].
    + destruct Hcase as [(-> & _)|(_ & _ & ? & _ & ->)]; cbn; tauto.
    + intros vec1 Hv1. rewrite Hvec in Hv1. injection Hv1 as <-. split; [by eapply taking_not_complete|].
      intros es1 j e1 Hes1 Hj. rewrite Hes in Hes1. injection Hes1 as <-. eexists. split; [done|].
      rewrite list_lookup_insert_ne; [done|]. destruct (v_held _ _ Hv _ _ _ _ _ Hvec Hes Hj) as [? _]. lia.
    + intros es' j e1 [= <-] [[Hj [= ->]]|[Hj Hj']]%with_lock_slot; [|..|done].
      * split; [cbn; lia|]. exists el, f. split_and!; try done. destruct Htk as (_ & _ & Hf). cbn. by rewrite <-Hj, Nat2Z.id in Hf.
      * destruct (v_held _ _ Hv _ _ _ _ _ Hvec Hes Hj') as [? Hh]. split; [cbn; lia|done].
    + rewrite Hpc. intros cb d e1 [= <- <- <-]. eexists _, (Z.to_nat (lv_curr vec)). split; [done|].
      apply list_lookup_insert_eq. lia.
Qed.

(** ** What the program calls *)
Lemma vec_calls p t zo c zo' :
  vec_inv p zo → pc_of zo t = PIdle → vec_call p t c zo → call_step t c zo = Some zo' → vec_inv p zo'.
Proof.
  intros Hi Hpc Hcall Hs. pose proof Hi as (Ht & Hc & Hv). destruct c as [| | |v f|v d|v|]; try done; cbn in Hs, Hcall.
  - (* create *)
    unfold s_zoo_lockv_create, new_vec in Hs. cbn in Hs. injection Hs as <-. set (vec' := LockVector _ _ _ _ _).
    assert (z_vecs zo !! z_nvec zo = None) as Hnone.
    { destruct (z_vecs zo !! z_nvec zo) as [vec|] eqn:E; [|done]. apply (v_vec _ _ Hv) in E as [_ ?]. lia. }
    assert (∀ zo1, z_threads zo1 = z_threads zo → moved t PIdle zo zo1) as Hm.
    { intros zo1 E t'. unfold pc_of. rewrite E. case_decide as D; [|done]. by subst. }
    split_and!.
    + eapply (tests_plain zo _ t PIdle); try done. by apply Hm.
    + eapply (carr_set zo _ t PIdle (z_nvec zo) vec'); try done; [by apply Hm|..].
      * intros o v q H. split; intros ->; [cbn in H; by rewrite Hpc in H|].
        destruct (v_carr _ Hc _ _ _ H) as (? & ? & E & _). by rewrite Hnone in E.
      * intros f (H & _). by destruct H.
    + eapply (vecs_set p zo _ t PIdle (z_nvec zo) vec'); try done; [by apply Hm|cbn; lia|cbn; lia|..].
      * split_and!; [constructor|constructor|done].
      * by intros [].
      * intros vec Hx. cbn in Hx. congruence.
      * by rewrite Hpc.
  - (* add *)
    destruct Hcall as (Hn & vec & Hvec & Hnot & Hlt). unfold s_zoo_lockv_add in Hs. rewrite Hvec in Hs. cbn in Hs. injection Hs as <-.
    set (vec' := LockVector _ _ _ _ _).
    assert (∀ zo1, z_threads zo1 = z_threads zo → moved t PIdle zo zo1) as Hm.
    { intros zo1 E t'. unfold pc_of. rewrite E. case_decide as D; [|done]. by subst. }
    destruct (v_vec _ _ Hv _ _ Hvec) as [(Hso & Hall & _) ?].
    split_and!.
    + eapply (tests_plain zo _ t PIdle); try done. by apply Hm.
    + eapply (carr_set zo _ t PIdle v vec'); try done; [by apply Hm|..].
      * intros o v1 q H1. split; intros ->; [cbn in H1; by rewrite Hpc in H1|].
        destruct (v_carr _ Hc _ _ _ H1) as (vec1 & ? & E & [[es H2] _] & _). rewrite Hvec in E. congruence.
      * intros g (H1 & _). cbn in H1. rewrite Hnot in H1. by destruct H1.
    + eapply (vecs_set p zo _ t PIdle v vec'); try done; [by apply Hm|..].
      * split_and!; [|apply Forall_app; split; [done|by apply Forall_singleton]|]; cbn; [|by rewrite Hnot].
        apply StronglySorted_app_2; [by intros ??? ?%list_elem_of_singleton; subst; apply Hlt|done|].
        constructor; [constructor|constructor].
      * by intros [].
      * intros vec1 H1. rewrite Hvec in H1. injection H1 as <-. split; [intros [[es H1] _]; congruence|]. by rewrite Hnot.
      * cbn. by rewrite Hnot.
      * by rewrite Hpc.
  - (* lock *)
    destruct Hcall as (vec & Hvec & Hnot & Hne). unfold s_zoo_lockv in Hs. rewrite Hvec in Hs. cbn in Hs.
    destruct (lv_filenames vec) as [|f fs] eqn:Ef; [done|]. apply s_zoo_lock_inv in Hs as ->. set (vec' := LockVector _ _ _ _ _).
    destruct (v_vec _ _ Hv _ _ Hvec) as [(Hso & Hall & _) ?]. rewrite Ef in Hso, Hall.
    split_and!.
    + eapply (tests_plain zo _ t (PParent _ CbLockv v)); try done. by apply moved_goto.
    + eapply (carr_set zo _ t (PParent _ CbLockv v) v vec'); try done; [by apply moved_goto|..].
      * intros o v1 q H1. split; intros ->; [cbn in H1; by rewrite Hpc in H1|].
        destruct (v_carr _ Hc _ _ _ H1) as (vec1 & ? & E & [[es H2] _] & _). rewrite Hvec in E. congruence.
      * intros q v1 [= <- <-]. split; [done|]. exists f. split; [|done]. unfold taking. split_and!; [by eexists|done|done].
      * by intros g (_ & _ & [= <-]).
    + eapply (vecs_set p zo _ t (PParent _ CbLockv v) v vec'); try done; [by apply moved_goto|..].
      * split_and!; [done|done|]. intros es' [= <-]. unfold lv_count. cbn. rewrite length_replicate.
        split_and!; [done|lia|lia|..]; lia.
      * by intros [].
      * intros vec1 H1. rewrite Hvec in H1. injection H1 as <-. split; [intros [[es H1] _]; congruence|]. by rewrite Hnot.
      * intros es' j e [= <-]. change (ElUndef :: replicate (length fs) ElUndef) with (replicate (S (length fs)) ElUndef).
        by intros [? ?]%lookup_replicate.
      * by rewrite Hpc.
  - (* unlock *)
    injection Hs as <-. destruct Hcall as (Hu & vec & Hvec & Hdone).
    eapply vec_quiet; try (exact Hi || by apply moved_goto || done); rewrite ?Hpc; try done; [|by left].
    exists vec. split_and!; done.
Qed.

(** ** [s_zoo_unlock] of a vector's element *)
Lemma sorted_lookup (l : list (list Z)) i j f :
  StronglySorted (λ f g, rank f < rank g) l → l !! i = Some f → l !! j = Some f → i = j.
Proof.
  intros Hs. revert i j. induction Hs as [|g l Hs IH Hall]; intros i j Hi Hj; [done|]. rewrite Forall_lookup in Hall.
  destruct i as [|i], j as [|j]; cbn in Hi, Hj; [done| | |f_equal; by apply IH].
  - injection Hi as ->. apply Hall in Hj. lia.
  - injection Hj as ->. apply Hall in Hi. lia.
Qed.
Lemma sorted_before (l : list (list Z)) i j f g :
  StronglySorted (λ f g, rank f < rank g) l → l !! i = Some f → l !! j = Some g → (i < j)%nat → rank f < rank g.
Proof.
  intros Hs. revert i j. induction Hs as [|x l Hs IH Hall]; intros i j Hi Hj Hlt; [done|]. rewrite Forall_lookup in Hall.
  destruct i as [|i], j as [|j]; cbn in Hi, Hj; [lia| |lia|apply (IH i j); (done || lia)].
  injection Hi as ->. by eapply Hall.
Qed.

Context (Hnamed : ∀ f, named f → good_name f) (Hone : ∀ p t t', unlocker p t → unlocker p t' → t = t').

(** an element has one place *)
Lemma held_once p zo v v' vec vec' es es' j j' e :
  vecs_ok p zo → z_vecs zo !! v = Some vec → z_vecs zo !! v' = Some vec' → lv_lock_elems vec = Some es →
  lv_lock_elems vec' = Some es' → es !! j = Some (ElPtr e) → es' !! j' = Some (ElPtr e) → v = v' ∧ j = j'.
Proof using Hnamed.
  intros Hv Hvec Hvec' Hes Hes' Hj Hj'.
  destruct (v_held _ _ Hv _ _ _ _ _ Hvec Hes Hj) as [_ (el & f & Hel & _ & <- & Hf & Hq)].
  destruct (v_held _ _ Hv _ _ _ _ _ Hvec' Hes' Hj') as [_ (el' & f' & Hel' & _ & <- & Hf' & Hq')].
  rewrite Hel in Hel'. injection Hel' as <-. split; [done|]. rewrite Hvec in Hvec'. injection Hvec' as <-.
  destruct (v_vec _ _ Hv _ _ Hvec) as [(Hs & Hn & _) _]. rewrite Forall_lookup in Hn.
  rewrite Hq in Hq'. apply lock_path_inj in Hq' as <-; [|apply (Hnamed _ (Hn _ _ Hf))|apply (Hnamed _ (Hn _ _ Hf'))]. by apply (sorted_lookup (lv_filenames vec) _ _ f).
Qed.

Definition without_lock vec (i : nat) (es : list elem_ptr) : s_zoo_lock_vector :=
  LockVector (lv_filenames vec) (lv_size vec) (lv_curr vec) (lv_d vec) (Some (<[i := ElNull]> es)).

Lemma vecs_free p zo zo' t e v vec es i :
  vecs_ok p zo → pc_of zo t = PFree e (Some (v, Z.of_nat i)) → z_vecs zo !! v = Some vec → complete vec →
  lv_lock_elems vec = Some es → es !! i = Some (ElPtr e) → moved t (PUnlockv v (Z.of_nat i + 1)) zo zo' →
  z_elems zo' = delete e (z_elems zo) → z_vecs zo' = <[v := without_lock vec i es]> (z_vecs zo) →
  z_nvec zo' = z_nvec zo → vecs_ok p zo'.
Proof using Hnamed Hone.
  intros Hv Hpc Hvec Hdone Hes Hi Hm E1 E2 E3. pose proof (moved_self _ _ _ _ Hm) as Hs.
  pose proof (v_thread _ _ Hv t) as Hu. rewrite Hpc in Hu. specialize (Hu I).
  destruct (v_vec _ _ Hv _ _ Hvec) as [(Hso & Hn & Hok) Hvn]. destruct (Hok _ Hes) as (Hlen & Hcurr & _ & Hund).
  assert (∀ t', t' ≠ t → in_unlock (pc_of zo t') → False) as Hothers.
  { intros t' Hne H. apply Hne, (Hone p); [by apply (v_thread _ _ Hv)|done]. }
  assert (∀ e' v' vec' es' j, e' ≠ e → z_vecs zo !! v' = Some vec' → lv_lock_elems vec' = Some es' →
    es' !! j = Some (ElPtr e') → in_vec zo' e') as Hin.
  { intros e' v' vec' es' j Hne Hv' Hes' Hj. destruct (decide (v' = v)) as [->|?].
    - rewrite Hvec in Hv'. injection Hv' as <-. rewrite Hes in Hes'. injection Hes' as <-.
      exists v, (without_lock vec i es), (<[i := ElNull]> es), j. rewrite E2, lookup_insert_eq. split_and!; try done.
      rewrite list_lookup_insert_ne; [done|]. intros <-. congruence.
    - exists v', vec', es', j. by rewrite E2, lookup_insert_ne. }
  assert (∀ v' vec' es' j e', z_vecs zo !! v' = Some vec' → lv_lock_elems vec' = Some es' → es' !! j = Some (ElPtr e') →
    (v', j) ≠ (v, i) → Z.of_nat j < lv_curr vec' ∧ held zo' v' vec' j e') as Hh.
  { intros v' vec' es' j e' Hv' Hes' Hj Hne. destruct (v_held _ _ Hv _ _ _ _ _ Hv' Hes' Hj) as [Hlt (el & f & Hel & H)].
    split; [done|]. exists el, f. rewrite E1, lookup_delete_ne; [done|]. intros <-.
    destruct (held_once p zo v v' vec vec' es es' i j e) as [-> ->]; done. }
  split.
  - intros v' vec'. rewrite E2, E3, lookup_insert_Some. intros [[<- <-]|[_ H]]; [|by apply (v_vec _ _ Hv)].
    split; [|done]. split_and!; [done..|]. intros es' [= <-]. unfold lv_count, without_lock. cbn. rewrite length_insert.
    destruct Hdone as [_ Hdone]. unfold lv_count in *. split_and!; [done|lia|lia|lia|]. intros j Hj H.
    destruct (decide (j = i)) as [->|?]; [|rewrite list_lookup_insert_ne in H by done; by apply (Hund j)].
    rewrite list_lookup_insert_eq in H; [done|]. by eapply lookup_lt_Some.
  - intros v' vec' es' j e'. rewrite E2, lookup_insert_Some. intros [[<- <-]|[? H]] Hes' Hj.
    + injection Hes' as <-. destruct (decide (j = i)) as [->|?].
      { rewrite list_lookup_insert_eq in Hj; [done|]. by eapply lookup_lt_Some. }
      rewrite list_lookup_insert_ne in Hj by done. apply (Hh v vec es j e'); congruence.
    + apply (Hh v' vec' es' j e'); congruence.
  - intros e' el. rewrite E1, lookup_delete_Some. intros [Hne Hel] Hcb.
    destruct (v_owned _ _ Hv e' el Hel Hcb) as [(t' & cb & d & Hpc')|(v' & vec' & es' & j & Hv' & Hes' & Hj)]; [left|right; by eapply Hin].
    exists t', cb, d. rewrite (moved_other _ _ _ _ t' Hm); [done|]. congruence.
  - intros t'. destruct (decide (t' = t)) as [->|Hne].
    + rewrite Hs, E2. exists (without_lock vec i es). rewrite lookup_insert_eq. split_and!; [done| |lia].
      split; [by eexists|apply Hdone].
    + rewrite (moved_other _ _ _ _ t' Hm) by done. specialize (Hothers t' Hne). destruct (pc_of zo t'); (done || destruct (Hothers I)).
  - intros t'. destruct (decide (t' = t)) as [->|Hne]; [done|].
    rewrite (moved_other _ _ _ _ t' Hm) by done. intros H. destruct (Hothers t' Hne H).
Qed.

Lemma vec_free p t zo e k zo' :
  vec_inv p zo → pc_of zo t = PFree e k → unlock_free t e k zo = Some zo' → vec_inv p zo'.
Proof using Hnamed Hone.
  intros (Ht & Hc & Hv) Hpc Hs. pose proof (v_unlock _ _ Hv t) as Hu. rewrite Hpc in Hu.
  destruct Hu as (v & i & vec & es & -> & Hvec & Hes & Hdone & Hi & Hj).
  unfold unlock_free in Hs. destruct (z_elems zo !! e) as [el|] eqn:Hel; [|done]. cbn in Hs. rewrite Hvec in Hs. cbn in Hs.
  unfold set_elem_ptr in Hs. rewrite Hes in Hs. cbn in Hs. rewrite bool_decide_true in Hs.
  2: { apply lookup_lt_Some in Hj. lia. }
  injection Hs as <-. assert (complete vec) as Hcomp by (split; [by eexists|done]).
  destruct (v_held _ _ Hv _ _ _ _ _ Hvec Hes Hj) as [_ (el1 & f & Hel1 & Hcb & Hd & _)].
  rewrite Hel in Hel1. injection Hel1 as <-.
  assert (∀ t', t' ≠ t → uses (pc_of zo t') e → False) as Huse.
  { intros t' _ H. destruct (pc_of zo t') as [| | | |e' l cb d| | | |cb d e'| | |] eqn:Hpc'; try done; cbn in H; subst e'.
    - destruct (v_got _ Ht _ _ _ _ _ Hpc') as (el' & H1 & H2 & _). congruence.
    - destruct (v_call _ Ht _ _ _ _ Hpc') as (el' & H1 & _ & H2). rewrite Hel in H1. injection H1 as <-.
      pose proof (v_lockv _ Ht t') as Hl. rewrite Hpc' in Hl. cbn in Hl. subst cb.
      destruct (v_carr _ Hc (inl t') d (el_parent_path el)) as (vec' & g & Hv' & Htk & _).
      { cbn. rewrite Hpc'. cbn. by rewrite Hel. }
      assert (d = v) as -> by congruence. rewrite Hvec in Hv'. injection Hv' as <-. by apply taking_not_complete in Htk. }
  set (zo' := goto _ _ _). assert (moved t (PUnlockv v (i + 1)) zo zo') as Hm by (by apply moved_goto).
  split_and!.
  - apply (tests_step zo zo' t (PUnlockv v (i + 1))); try done; try apply Ht.
    + intros e' el'. cbn. rewrite lookup_delete_Some. intros [_ H]. by apply (v_cb _ Ht e').
    + intros t' e' Hne H. apply lookup_delete_ne. intros <-. by destruct (Huse t').
  - apply (carr_step zo zo' id); try done.
    + intros v' vec' g Hg. cbn. rewrite lookup_insert_Some. split; [intros [[<- <-]|[_ ?]]; [|done]|].
      * apply taking_not_complete in Hg. destruct Hg. split; [by eexists|apply Hcomp].
      * intros Hv'. right. split; [|done]. intros <-. rewrite Hvec in Hv'. injection Hv' as <-. by apply taking_not_complete in Hg.
    + intros [t'|e'] x; cbn.
      * rewrite (Hm t'). case_decide as D; [subst; by rewrite Hpc|]. destruct (pc_of zo t') as [| | | | | | | |cb d e'| | |] eqn:Hpc'; try done.
        destruct cb; [done|]. cbn. rewrite lookup_delete_ne; [done|]. intros <-. destruct (Huse t'); [congruence|by rewrite Hpc'].
      * intros (el' & H & H'). rewrite lookup_delete_Some in H. exists el'. naive_solver.
    + intros Hl. split; [done|]. intros o x H. exists o. destruct o as [t'|e']; cbn in *.
      * rewrite (Hm t'). case_decide as D; [subst; by rewrite Hpc in H|]. destruct (pc_of zo t') as [| | | | | | | |cb d e'| | |] eqn:Hpc'; try done.
        destruct cb; [done|]. cbn in *. rewrite lookup_delete_ne; [done|]. intros <-. destruct (Huse t'); [congruence|by rewrite Hpc'].
      * destruct H as (el' & H & H'). exists el'. split; [|done]. rewrite lookup_delete_ne; [done|]. intros <-.
        rewrite Hel in H. injection H as <-. unfold el_carr in H'. by rewrite Hcb in H'.
  - rewrite <-(Z2Nat.id i) in Hpc, Hm by done. by eapply (vecs_free p zo zo' t e v vec es (Z.to_nat i)).
Qed.

(** ** All the steps *)
Lemma vec_event p t zo c :
  vec_inv p zo → pc_of zo t = PIdle → (∀ t', ¬ testing (pc_of zo t')) → is_Some (z_tles zo !! c) →
  vec_inv p (goto t (PTle c) zo).
Proof.
  clear Hnamed Hone. intros (Ht & Hc & Hv) Hpc Hcalm Hsome.
  assert (moved t (PTle c) zo (goto t (PTle c) zo)) as Hm by (by apply moved_goto). split_and!.
  - apply (tests_step zo _ t (PTle c)); try done; try apply Ht; cbn.
    + intros _. right. intros t' H. apply (Hcalm t'). by destruct (pc_of zo t').
    + by intros k [= <-].
    + intros e (i & H). apply (v_below _ Ht) in H as [? _]. split; [done|]. intros t' l cb d _ Hg. apply (Hcalm t'). by rewrite Hg.
  - eapply (carr_keep zo _ t); try done. rewrite Hpc. by left.
  - eapply (vecs_plain p zo _ t); try done. by rewrite Hpc.
Qed.

Lemma vec_init z p z' zo : s_zoo_init z p = (z', zo) → vec_inv p zo.
Proof.
  clear Hnamed Hone. intros Hs.
  assert (∀ q zo0 z0 z1 zo1, make_root z0 p q zo0 = (z1, zo1) →
    z_threads zo1 = z_threads zo0 ∧ z_elems zo1 = z_elems zo0 ∧ z_tles zo1 = z_tles zo0 ∧ z_vecs zo1 = z_vecs zo0) as Hroot.
  { intros q zo0 z0 z1 zo1. unfold make_root. destruct (zoo_create _ _ _ _) as [[r created] z2]. intros [= _ <-]. by case_match. }
  unfold s_zoo_init in Hs. destruct (make_root z p LOCK_ROOT zoo_empty) as [z1 zo1] eqn:E1.
  apply Hroot in E1 as (A1 & A2 & A3 & A4), Hs as (B1 & B2 & B3 & B4).
  rewrite ?A1, ?A2, ?A3, ?A4 in *. cbn in B1, B2, B3, B4.
  assert (∀ t, pc_of zo t = PIdle) as Hpc by (intros t; unfold pc_of; by rewrite B1).
  split_and!; split; intros *; rewrite ?Hpc, ?B2, ?B3, ?B4; try done; try by intros [].
  - destruct o; cbn; rewrite ?Hpc, ?B2; [done|by intros (? & ? & _)].
  - destruct o; cbn; rewrite ?Hpc, ?B2; [done|by intros (? & ? & _)].
Qed.

Lemma vec_thread z p t zo z' zo' :
  proc_wf zo → vec_inv p zo → thread_step z p t zo = Some (z', zo') → vec_inv p zo'.
Proof using Hnamed Hone.
  intros Hw Hi Hs. unfold thread_step in Hs.
  destruct (pc_of zo t) as [|q cb d|q cb d|q nm cb d|e l cb d|c|e|e l|cb d e|e k|e k|v i] eqn:Hpc.
  - by injection Hs as _ <-.
  - pose proof (vec_parent z p t zo q cb d Hi Hpc) as H. injection Hs as Hs. by rewrite Hs in H.
  - by eapply vec_node.
  - by eapply vec_elem.
  - destruct (lock_check _ _ _ _ _ _) as [zo1|] eqn:E; [|done]. injection Hs as _ <-. by eapply vec_check.
  - destruct (try_lock_watcher _ _ _) as [zo1|] eqn:E; [|done]. injection Hs as _ <-. by eapply vec_tle.
  - by eapply vec_watch.
  - destruct (watcher_check _ _ _ _) as [zo1|] eqn:E; [|done]. injection Hs as _ <-. by eapply vec_watcher_check.
  - pose proof Hi as (Ht & _). pose proof (v_lockv _ Ht t) as Hl. rewrite Hpc in Hl. cbn in Hl. subst cb.
    destruct (lockv_callback _ _ _ _) as [zo1|] eqn:E; [|done]. injection Hs as _ <-. by eapply vec_callback.
  - pose proof (vec_delete z p t zo e k Hi Hpc) as H. injection Hs as Hs. by rewrite Hs in H.
  - destruct (unlock_free _ _ _ _) as [zo1|] eqn:E; [|done]. injection Hs as _ <-. by eapply vec_free.
  - destruct (unlockv_next _ _ _ _) as [zo1|] eqn:E; [|done]. injection Hs as _ <-. by eapply vec_unlockv_next.
Qed.

Context `{HZ : !ZkLaws zk}.

Definition vecs_inv (s : zsys zk TH) : Prop :=
  zoo_inv s ∧ ∀ p zo, sy_procs s !! p = Some zo → vec_inv p zo.
Lemma vstep_inv s s' : vstep s s' → vecs_inv s → vecs_inv s'.
Proof using HZ Hnamed Hone.
  intros Hs [Hz Hi]. split; [eapply zstep_inv; [done|by apply vstep_zstep|done]|].
  assert (∀ z ps p zo', sy_procs s = ps → vec_inv p zo' →
    ∀ p1 zo1, sy_procs (Sys (zk:=zk) z (<[p := zo']> ps)) !! p1 = Some zo1 → vec_inv p1 zo1) as Hput.
  { intros z ps p zo' <- H p1 zo1. cbn. rewrite lookup_insert_Some. intros [[<- <-]|[_ H1]]; [done|by apply Hi]. }
  destruct Hs as [z ps p z' zo Hn Hin|z ps p t zo z' zo' Hzo Hb Ht|z ps p t zo c zo' Hzo Hpc Hc Ht|z ps p t zo c l Hzo Hpc He Hcalm Hsome];
    apply Hput; try done.
  - by eapply vec_init.
  - eapply vec_thread; [|by apply Hi|done]. destruct Hz as (_ & Hp & _). exact (proj1 (Hp _ _ Hzo)).
  - eapply vec_calls; try done. by apply Hi.
  - apply vec_event; try done. by apply Hi.
Qed.
Lemma vec_reach_inv s : vec_reach s → vecs_inv s.
Proof using HZ Hnamed Hone.
  intros (s0 & H0 & Hr). assert (vecs_inv s0) as Hi.
  { split; [by apply start_inv|]. destruct H0 as (-> & _). done. }
  clear H0. induction Hr as [|s0 s1 s2 Hs _ IH]; [done|]. apply IH. by eapply vstep_inv.
Qed.
End vec.
Arguments v_vec {_ _ _ _}.
Arguments v_held {_ _ _ _}.
Arguments v_owned {_ _ _ _}.
Arguments v_unlock {_ _ _ _}.
Arguments v_thread {_ _ _ _}.
