(* ===== verification/ZooVecSpec.v ===== *)
(** * What a vector of locks promises

    The callback of [s_zoo_lockv] is called with every lock, and vectors whose
    names are in one order do not block each other for ever. *)

From stdpp Require Import strings sorting.
From S2P Require Import Prelude SString SHashSpec Zoo ZooLock ZooWake ZooProgress ZooVec.
Local Open Scope Z_scope.

(** a step of [thread_step], branch by branch *)
Ltac run Hs :=
  repeat match type of Hs with
  | Some (_, _) = Some (_, _) => injection Hs as <- <-
  | Some ?zo = Some _ => injection Hs as <-
  | context [?o ≫= _] => let E := fresh "E" in destruct o eqn:E; cbn in Hs; [|done]
  | context [match ?x with _ => _ end] => let E := fresh "E" in destruct x eqn:E; cbn in Hs
  end.
Ltac run_local Hs f :=
  match type of Hs with ?o ≫= _ = _ => let E := fresh "E" in destruct o eqn:E; [|done]; cbn in Hs; injection Hs as _ <-; unfold f in E; try unfold s_zoo_unlock in E; run E end.

Section spec.
Context {zk TH : Type} `{HS : !ZkService zk} `{HT : !Table Z Z TH}.
Context (named : list Z → Prop) (unlocker : Z → Z → Prop) (rank : list Z → Z).
Implicit Types (z : zk) (zo : s_zoo TH) (ps : gmap Z (s_zoo TH)) (el : s_zoo_lock_elem) (vec : s_zoo_lock_vector) (t p e v : Z).
Local Abbreviation vstep := (vstep named unlocker rank).
Local Abbreviation vec_reach := (vec_reach named unlocker rank).
Local Abbreviation vec_inv := (vec_inv named unlocker rank).
Local Abbreviation vec_ok := (vec_ok named rank).

(** ** The callback of [s_zoo_lockv] *)
(** only [lockv_callback] calls it *)
Lemma thread_called z p t zo z' zo' :
  thread_step z p t zo = Some (z', zo') → (∀ cb d e, pc_of zo t ≠ PCall cb d e) → z_called zo' = z_called zo.
Proof.
  intros Hs Hn. unfold thread_step in Hs.
  destruct (pc_of zo t) as [|q cb d|q cb d|q nm cb d|e l cb d|c|e|e l|cb d e|e k|e k|v i] eqn:Hpc.
  - by injection Hs as _ <-.
  - unfold lock_parent in Hs. run Hs; done.
  - unfold lock_node in Hs. run Hs; done.
  - unfold lock_elem, new_elem in Hs. cbn zeta in Hs. destruct (try_lock _ _ _ _) as [[[v z1] zo1]|] eqn:E; [|done].
    apply try_lock_local in E as (_ & _ & _ & _ & _ & _ & _ & _ & _ & _ & E). injection Hs as _ <-. by destruct v.
  - run_local Hs @lock_check; by repeat case_match.
  - run_local Hs @try_lock_watcher; by repeat case_match.
  - unfold watcher_try in Hs. destruct (z_elems zo !! e); [|done]. cbn in Hs. destruct (el_callback _); [|by injection Hs as _ <-].
    destruct (try_lock _ _ _ _) as [[[v z1] zo1]|] eqn:E; [|done].
    apply try_lock_local in E as (_ & _ & _ & _ & _ & _ & _ & _ & _ & _ & E). injection Hs as _ <-. by destruct v.
  - run_local Hs @watcher_check; by repeat case_match.
  - by destruct (Hn cb d e).
  - unfold unlock_delete in Hs. run Hs; done.
  - run_local Hs @unlock_free; by repeat case_match.
  - run_local Hs @unlockv_next; done.
Qed.

(** nobody unlocks what is in a vector that is not complete *)
Lemma place_not_unlocking p zo v vec e el :
  vec_inv p zo → z_vecs zo !! v = Some vec → ¬ complete vec → z_elems zo !! e = Some el → el_d el = v → ¬ unlocking zo e.
Proof.
  intros (_ & _ & Hv) Hvec Hnot Hel Hd (t & k & Hpc). pose proof (v_unlock _ _ Hv t) as Hu.
  assert (∃ v i vec es, k = Some (v, i) ∧ z_vecs zo !! v = Some vec ∧ lv_lock_elems vec = Some es ∧
    lv_count vec <= lv_curr vec ∧ 0 <= i ∧ es !! Z.to_nat i = Some (ElPtr e)) as (v' & i & vec' & es & _ & Hvec' & Hes & Hdone & _ & Hj).
  { by destruct Hpc as [-> | ->] in Hu. }
  destruct (v_held _ _ Hv _ _ _ _ _ Hvec' Hes Hj) as [_ (el' & f & Hel' & _ & Hd' & _)].
  rewrite Hel in Hel'. injection Hel' as <-. rewrite Hd in Hd'. subst v'. rewrite Hvec in Hvec'. injection Hvec' as <-.
  apply Hnot. split; [by eexists|done].
Qed.

Definition has_all zo v d : Prop :=
  ∃ vec es, z_vecs zo !! v = Some vec ∧ lv_d vec = d ∧ lv_lock_elems vec = Some es ∧ complete vec ∧
    ∀ j f, lv_filenames vec !! j = Some f → ∃ e, es !! j = Some (ElPtr e) ∧ granted zo e f.

Lemma callback_has_all p t zo v e zo' d v' :
  vec_inv p zo → pc_of zo t = PCall CbLockv v e → lockv_callback t v e zo = Some zo' →
  z_called zo' = z_called zo ++ [CalledLockv d v'] → has_all zo' v' d.
Proof.
  intros Hi Hpc Hs Hd. pose proof Hi as (Ht & Hc & Hv). pose proof (vec_callback _ _ _ _ _ _ _ _ _ Hi Hpc Hs) as (_ & _ & Hv').
  apply lockv_callback_spec in Hs as (vec & es & c & Hvec & Hes & Hlt & E1 & Hm & E2 & _ & _ & _ & _ & _ & Hcase).
  destruct Hcase as [(-> & Hdone & Ecall)|(Ecall & _)].
  2: { rewrite Ecall in Hd. apply (f_equal length) in Hd. rewrite length_app in Hd. cbn in Hd. lia. }
  rewrite Ecall in Hd. apply (inj (app _)) in Hd. injection Hd as <- <-.
  destruct (v_call _ Ht _ _ _ _ Hpc) as (el & Hel & _ & Hd).
  destruct (v_carr _ Hc (inl t) v (el_parent_path el)) as (vec1 & g & Hvec1 & Htk & _); [cbn; rewrite Hpc; cbn; by rewrite Hel|].
  rewrite Hvec in Hvec1. injection Hvec1 as <-. apply taking_not_complete in Htk as Hnot.
  destruct (v_vec _ _ Hv _ _ Hvec) as [Hok _]. apply (taking_next named rank) in Htk; [|done].
  destruct Hok as (_ & _ & Hok). destruct (Hok _ Hes) as (Hlen & Hcurr & Hptr & _).
  assert (z_vecs zo' !! v = Some (with_lock vec e es)) as Hvec' by (by rewrite E1, lookup_insert_eq).
  exists (with_lock vec e es), (<[Z.to_nat (lv_curr vec) := ElPtr e]> es). split_and!; try done.
  intros j f Hf. cbn in Hf. apply lookup_lt_Some in Hf as Hj. unfold lv_count in *.
  assert (∃ e', <[Z.to_nat (lv_curr vec) := ElPtr e]> es !! j = Some (ElPtr e')) as [e' He'].
  { destruct (decide (j = Z.to_nat (lv_curr vec))) as [->|?]; [exists e; apply list_lookup_insert_eq; lia|].
    rewrite list_lookup_insert_ne by done. apply Hptr; lia. }
  exists e'. split; [done|]. destruct (v_held _ _ Hv' _ _ _ _ _ Hvec' eq_refl He') as [_ (el' & f' & Hel' & Hcb' & Hd' & Hf' & Hq)].
  cbn in Hf'. rewrite Hf in Hf'. injection Hf' as <-. exists el'. split_and!; [done..|].
  intros (t' & k & H). rewrite (Hm t') in H. case_decide as D; [by destruct H|].
  apply (place_not_unlocking p zo v vec e' el'); [done..|by rewrite <-E2|done|by exists t', k].
Qed.

Context `{HZ : !ZkLaws zk}.
Context (Hnamed : ∀ f, named f → good_name f) (Hone : ∀ p t t', unlocker p t → unlocker p t' → t = t').


(** ** Vectors do not block each other for ever *)
Lemma bounded_map {A} (R : A → Z → Prop) (m : gmap Z A) :
  (∀ x a b, a <= b → R x a → R x b) → (∀ k x, m !! k = Some x → ∃ M, R x M) → ∃ M, ∀ k x, m !! k = Some x → R x M.
Proof.
  clear. intros Hmono. induction m as [|k x m Hk IH] using map_ind; intros H.
  - by exists 0.
  - destruct IH as [M HM]. { intros k' x' H'. apply (H k'). rewrite lookup_insert_ne; [done|]. intros <-. congruence. }
    destruct (H k x) as [M' HM']; [by rewrite lookup_insert_eq|]. exists (M `max` M'). intros k' x'.
    rewrite lookup_insert_Some. intros [[<- <-]|[_ H']]; [eapply Hmono; [|done]; lia|].
    eapply Hmono; [|by eapply HM]. lia.
Qed.

(** vector [v] of process [p] waits for [f] *)
Definition waits (s : zsys zk TH) p zo v vec f : Prop := sy_procs s !! p = Some zo ∧ z_vecs zo !! v = Some vec ∧ taking vec f.

Lemma ranks_bounded (s : zsys zk TH) : ∃ M, ∀ p zo v vec f, waits s p zo v vec f → rank f <= M.
Proof.
  clear. destruct (bounded_map (λ zo M, ∀ v vec f, z_vecs zo !! v = Some vec → taking vec f → rank f <= M) (sy_procs s)) as [M HM].
  - intros zo a b Hab H v vec f Hv Hf. specialize (H v vec f Hv Hf). lia.
  - intros p zo _. destruct (bounded_map (λ vec M, ∀ f, taking vec f → rank f <= M) (z_vecs zo)) as [M HM].
    + intros vec a b Hab H f Hf. specialize (H f Hf). lia.
    + intros v vec _. destruct (lv_filenames vec !! Z.to_nat (lv_curr vec)) as [g|] eqn:E.
      * exists (rank g). intros f (_ & _ & Hf). rewrite E in Hf. by injection Hf as <-.
      * exists 0. intros f (_ & _ & Hf). congruence.
    + exists M. intros v vec f Hv. by eapply HM.
  - exists M. intros p zo v vec f (Hp & Hv & Hf). by eapply HM.
Qed.

Definition completed (s : zsys zk TH) : Prop := ∃ p zo v vec es j e,
  sy_procs s !! p = Some zo ∧ z_vecs zo !! v = Some vec ∧ complete vec ∧
  lv_lock_elems vec = Some es ∧ es !! j = Some (ElPtr e).

Context `{HTL : !TableLaws Z Z TH}.

(** the lock that a vector waits for is in a vector that is complete, or waits for a name of a higher rank *)
Lemma waits_next s p zo v vec f :
  deletes → vec_reach s → at_rest s → waits s p zo v vec f →
  completed s ∨ ∃ p' zo' v' vec' f', waits s p' zo' v' vec' f' ∧ rank f < rank f'.
Proof using HZ HTL Hnamed Hone.
  intros Hdel Hr Hrest (Hp & Hvec & Htk). pose proof (vec_reach_inv named unlocker rank Hnamed Hone s Hr) as [_ Hi].
  destruct (Hi _ _ Hp) as (_ & Hc & Hv). destruct (Hrest _ _ Hp) as (Hidle & _ & Hlog & _).
  destruct (v_exist _ Hc _ _ _ Hlog Hvec Htk) as (o & q & Ho). destruct (v_carr _ Hc _ _ _ Ho) as (vec1 & f1 & Hvec1 & Htk1 & ->).
  rewrite Hvec in Hvec1. injection Hvec1 as <-. destruct (v_vec _ _ Hv _ _ Hvec) as [(_ & Hn & _) _]. rewrite Forall_lookup in Hn.
  assert (f1 = f) as -> by (destruct Htk as (_ & _ & H1), Htk1 as (_ & _ & H2); congruence).
  assert (named f) as Hf by (destruct Htk as (_ & _ & H1); by eapply Hn).
  destruct o as [t|e]; cbn in Ho; [by rewrite Hidle in Ho|]. destruct Ho as (el & Hel & Hcar).
  assert (waiting zo e f) as Hw.
  { unfold el_carr in Hcar. exists el. destruct (el_callback el) as [[]|]; try done. injection Hcar as _ Hq.
    split_and!; [done|done|done|]. intros (t & k & H). rewrite Hidle in H. by destruct H. }
  assert (zoo_reach named unlocker s) as Hz by (by eapply vec_zoo_reach).
  destruct (first_granted unlocker s p zo e f) as (p' & zo' & e' & Hp' & el' & Hel' & Hcb' & Hq' & _);
    [by eapply zoo_reach_wake|by eapply zoo_reach_kept|done|by apply Hnamed|done|done|].
  destruct (Hi _ _ Hp') as (_ & Hc' & Hv'). destruct (Hrest _ _ Hp') as (Hidle' & _).
  destruct (v_owned _ _ Hv' _ _ Hel' Hcb') as [(t & cb & d & H)|(v' & vec' & es' & j & Hvec' & Hes' & Hj)]; [by rewrite Hidle' in H|].
  destruct (decide (lv_count vec' <= lv_curr vec')).
  { left. exists p', zo', v', vec', es', j, e'. split_and!; [done..| |done|done]. by split; [eexists|]. }
  right. destruct (v_vec _ _ Hv' _ _ Hvec') as [(Hs' & Hn' & Hok') _]. destruct (Hok' _ Hes') as (Hlen & Hcurr & _ & _).
  destruct (v_held _ _ Hv' _ _ _ _ _ Hvec' Hes' Hj) as [Hlt (el1 & f1 & Hel1 & _ & _ & Hf1 & Hq1)].
  rewrite Hel' in Hel1. injection Hel1 as <-. rewrite Forall_lookup in Hn'.
  rewrite Hq' in Hq1. apply lock_path_inj in Hq1 as <-; [|by apply Hnamed|apply (Hnamed _ (Hn' _ _ Hf1))].
  unfold lv_count in *. destruct (lookup_lt_is_Some_2 (lv_filenames vec') (Z.to_nat (lv_curr vec'))) as [g Hg]; [lia|].
  exists p', zo', v', vec', g. split; [split_and!; [done|done|]; split_and!; [by eexists|lia|done]|].
  apply (sorted_before rank (lv_filenames vec') j (Z.to_nat (lv_curr vec'))); [done|done|done|lia].
Qed.

(** the vector that waits for the name of the highest rank *)
Lemma waits_end s M p zo v vec f :
  (∀ p zo v vec f, waits s p zo v vec f → rank f <= M) →
  deletes → vec_reach s → at_rest s → waits s p zo v vec f → completed s.
Proof using HZ HTL Hnamed Hone.
  intros HM Hdel Hr Hrest Hw. remember (Z.to_nat (M - rank f)) as n eqn:Hn. revert p zo v vec f Hw Hn.
  induction n as [n IH] using lt_wf_ind. intros p zo v vec f Hw ->.
  destruct (waits_next s p zo v vec f Hdel Hr Hrest Hw) as [?|(p' & zo' & v' & vec' & f' & Hw' & Hlt)]; [done|].
  eapply IH; [|exact Hw'|done]. pose proof (HM _ _ _ _ _ Hw'). lia.
Qed.

End spec.
