(* ===== verification/ZooVecRun.v ===== *)
(** * Vectors of locks run

    The calm steps of [ZooVec] executed on the service in memory: two processes
    with a vector of the same two names. *)

From stdpp Require Import strings sorting.
From S2P Require Import Prelude SString SHashSpec Zoo ZooLock ZooWake ZooProgress ZooRun ZooVec ZooVecSpec.
Local Open Scope Z_scope.

(** ** The calm steps *)
Definition testing_b (c : pc) : bool := match c with PGot _ _ _ _ | PTle _ | PWatch _ | PWGot _ _ => true | _ => false end.
Lemma testing_b_ok c : testing_b c = false → ¬ testing c.
Proof. by destruct c; intros ? H; cbn in H. Qed.
Definition calm_b (zo : proc) : bool := forallb (λ x, negb (testing_b x.2)) (map_to_list (z_threads zo)).
Lemma calm_b_ok zo : calm_b zo = true → ∀ t, ¬ testing (pc_of zo t).
Proof.
  intros Hb t. apply testing_b_ok. unfold pc_of. destruct (z_threads zo !! t) as [c|] eqn:E; [|done]. cbn.
  unfold calm_b in Hb. rewrite forallb_forall in Hb. apply negb_true_iff. apply (Hb (t, c)).
  by apply list_elem_of_In, elem_of_map_to_list.
Qed.

(** the first letter orders the names *)
Definition rank1 (f : list Z) : Z := hd 0 f.
Definition vec_call_b (c : call) (zo : proc) : bool :=
  match c with
  | CLockvCreate => true
  | CLockvAdd v f =>
      match z_vecs zo !! v with
      | Some vec => bool_decide (lv_lock_elems vec = None) && forallb (λ g, rank1 g <? rank1 f) (lv_filenames vec)
      | None => false
      end
  | CLockv v _ =>
      match z_vecs zo !! v with
      | Some vec => bool_decide (lv_lock_elems vec = None) && bool_decide (lv_filenames vec ≠ [])
      | None => false
      end
  | CUnlockv v =>
      match z_vecs zo !! v with
      | Some vec => bool_decide (is_Some (lv_lock_elems vec)) && (lv_count vec <=? lv_curr vec)
      | None => false
      end
  | _ => false
  end.

(** what [exec] does, when it is calm *)
Definition calm (a : act) (s : run_sys) : bool :=
  match a with
  | ACall p _ c => match sy_procs s !! p with Some zo => vec_call_b c zo | None => false end
  | AEvent p _ =>
      match sy_procs s !! p, zk_events (sy_zk s) p with
      | Some zo, c :: _ => calm_b zo && bool_decide (is_Some (z_tles zo !! c))
      | _, _ => false
      end
  | _ => true
  end.

Abbreviation vec_names := (in_names [a_; b_]).
Lemma vec_call_b_ok p t c zo :
  allowed vec_names (one_thread 0) p t c → vec_call_b c zo = true → vec_call vec_names (one_thread 0) rank1 p t c zo.
Proof.
  intros Ha Hb. destruct c as [| | |v f|v d|v|]; cbn in *; try done; destruct (z_vecs zo !! v) as [vec|]; try done;
    apply andb_prop in Hb as [H1%bool_decide_eq_true H2].
  - split; [done|]. exists vec. split_and!; [done..|]. intros g Hg%list_elem_of_In. rewrite forallb_forall in H2.
    apply H2 in Hg. by zbool.
  - exists vec. split_and!; [done..|]. by apply bool_decide_eq_true in H2.
  - split; [done|]. exists vec. split_and!; [done..|]. by zbool.
Qed.
Lemma calm_step a s s' :
  calm a s = true → exec [a_; b_] 0 a s = Some (Some s') → vstep vec_names (one_thread 0) rank1 s s'.
Proof.
  destruct s as [z ps]. destruct a as [p|p t|p t c|p t]; cbn -[zk_events zk_deliver]; intros Hc.
  - case_bool_decide as Hn; [|done]. destruct (s_zoo_init z p) as [z' zo] eqn:E. intros [= <-]. by constructor.
  - destruct (ps !! p) as [zo|] eqn:Hp; [|done]. destruct (blocked zo t) eqn:Hb; [done|]. intros [= H].
    destruct (thread_step z p t zo) as [[z' zo']|] eqn:E; [|done]. injection H as <-. by eapply vstep_thread.
  - destruct (ps !! p) as [zo|] eqn:Hp; [|done]. destruct (_ && _) eqn:Hb; [|done]. intros [= H].
    apply andb_prop in Hb as [H1%bool_decide_eq_true H2%bool_decide_eq_true].
    destruct (call_step t c zo) as [zo'|] eqn:E; [|done]. injection H as <-. eapply vstep_call; try done. by apply vec_call_b_ok.
  - destruct (ps !! p) as [zo|] eqn:Hp; [|done]. destruct (zk_events z p) as [|c l] eqn:He; [done|].
    apply andb_prop in Hc as [H1 H2%bool_decide_eq_true]. case_bool_decide as Hi; [|done]. intros [= <-].
    exact (vstep_event _ _ _ z ps p t zo c l Hp Hi He (calm_b_ok _ H1) H2).
Qed.

Fixpoint calm_all (l : list act) (s : run_sys) : option run_sys :=
  match l with
  | [] => Some s
  | a :: l =>
      if calm a s then match exec [a_; b_] 0 a s with Some (Some s') => calm_all l s' | _ => None end
      else None
  end.
Definition calm_state (l : list act) : run_sys := default mem_start (calm_all l mem_start).
Definition calm_runs (l : list act) : bool := match calm_all l mem_start with Some _ => true | None => false end.
Lemma calm_reach l : calm_runs l = true → vec_reach vec_names (one_thread 0) rank1 (calm_state l).
Proof.
  unfold calm_runs, calm_state. intros H. exists mem_start. split; [done|].
  destruct (calm_all l mem_start) as [s|] eqn:E; [|done]. clear H. cbn. revert E. generalize mem_start.
  induction l as [|a l IH]; intros s0 H; cbn in H; [by injection H as <-|].
  destruct (calm a s0) eqn:Hc; [|done]. destruct (exec _ _ a s0) as [[s'|]|] eqn:E; [|done..].
  eapply rtc_l; [by apply (calm_step a)|by apply IH].
Qed.

(** ** Two vectors *)
Definition make_vector (p d : Z) : list act :=
  [ACall p 0 CLockvCreate; ACall p 0 (CLockvAdd 0 a_); ACall p 0 (CLockvAdd 0 b_); ACall p 0 (CLockv 0 d)].
(** process 1 has both locks, and is about to be told *)
Definition vec_last : list act := [AInit 1; AInit 2] ++ make_vector 1 9 ++ replicate 9 (AThread 1 0).
Definition vec_told : list act := vec_last ++ [AThread 1 0].
(** process 2 waits for [a]; the events have come *)
Definition vec_settled : list act :=
  vec_told ++ make_vector 2 8 ++ replicate 4 (AThread 2 0) ++ [AEvent 1 1; AThread 1 1; AThread 1 1].


Definition vec2 : s_zoo_lock_vector := default (LockVector [] 0 0 0 None) (z_vecs (proc_of (calm_state vec_settled) 2) !! 0).
