(* ===== verification/ZooClient.v ===== *)
(** * [test2/s_ud_client.c]: the client of the locks on ZooKeeper

    [s_ud_client_init] makes [MaxTry] requests: for each line of the file of
    ids it locks a vector with a name for each data server ([access_data]).
    [lock_callback], which the vector calls when it is complete, sends a WRITE
    to each of them, and when the last has answered [write_callback] unlocks the
    vector.  A [struct s_glock_client] is named by the number of its
    allocation.  The processes, their threads and the service are those of
    [Zoo]. *)

From stdpp Require Import strings sorting.
From S2P Require Import Prelude SArray Packet Wire SHashSpec Cluster DLock ServGroup AccessId LockClient.
From S2P Require Import Zoo ZooLock ZooWake ZooProgress ZooVec.
Local Open Scope Z_scope.

Record s_glock_client := ZClient {
  zc_id : s_id;
  zc_lock : Z;
  zc_idx : Z;
  zc_v : Z;
  zc_tv : timeval
}.

(** the statics of the file; the requests that were allocated; the WRITEs that
    have no answer yet (the data server, the request); [zu_todo]: the rounds left
    of the loop in [s_ud_client_init] *)
Record zclient := Zud {
  zu_gid : Z;
  zu_gcount : Z;
  zu_max_try : Z;
  zu_gtv : timeval;
  zu_access_id : list (list Z);
  zu_result : list timeval;
  zu_C : Z;
  zu_clients : gmap Z s_glock_client;
  zu_nclient : Z;
  zu_calls : list (Z * Z);
  zu_todo : nat
}.

(** [sprintf(buf, "%d", d)] of a number that is not negative *)
Definition serv_name (d : Z) : list Z := c_decimal 10 d [].
(** [1 << d]; [None]: undefined *)
Definition bit (d : Z) : option Z := if (0 <=? d) && (d <? 32) then Some (2 ^ d) else None.

Section client.
Context {TH : Type} `{HT : !Table Z Z TH}.
Implicit Types (zo : s_zoo TH) (u : zclient) (c : s_glock_client) (t p d v : Z).

(** the loop over the ids *)
Fixpoint add_servs v (D : list Z) (lock : Z) zo : option (Z * s_zoo TH) :=
  match D with
  | [] => Some (lock, zo)
  | d :: D =>
      b ← bit d;
      zo ← s_zoo_lockv_add v (serv_name d) zo;
      add_servs v D (Z.lor lock b) zo
  end.

(** up to where [s_zoo_lockv] waits.  [None]: there is no such line, and a null
    pointer is followed, or an id is out of range *)
Definition access_data p t u (now : timeval) zo : option (zclient * s_zoo TH) :=
  let gcount := zu_gcount u + 1 in
  let idx := (p - 1) * 100 + gcount in
  D ← array_at (zu_access_id u) idx;
  let '(v, zo) := s_zoo_lockv_create zo in
  let n := zu_nclient u in
  let id := SId p (zu_gid u) in
  '(lock, zo) ← add_servs v D 0 zo;
  zo ← s_zoo_lockv t v n zo;
  Some (Zud (sint (zu_gid u + 1)) gcount (zu_max_try u) (zu_gtv u) (zu_access_id u) (zu_result u) (zu_C u)
          (<[n := ZClient id lock idx v now]> (zu_clients u)) (n + 1) (zu_calls u) (pred (zu_todo u)), zo).

(** to each active data server of the request; its others are only printed *)
Definition lock_callback (active : serv_id → bool) d u : option (zclient * list (serv_id * out_pkt)) :=
  c ← zu_clients u !! d;
  pkt ← easy_pkt S_PKT_TYPE_WRITE s_packet_size_for_id [Fint (id_x (zc_id c)); Fint (id_y (zc_id c))];
  let servs := filter (λ i, Z.testbit (zc_lock c) i = true ∧ active (Serv S_SERV_TYPE_D i) = true) (seqZ 1 31) in
  Some (Zud (zu_gid u) (zu_gcount u) (zu_max_try u) (zu_gtv u) (zu_access_id u) (zu_result u) (zu_C u) (zu_clients u)
          (zu_nclient u) (zu_calls u ++ ((λ i, (i, d)) <$> servs)) (zu_todo u),
        (λ i, (Serv S_SERV_TYPE_D i, pkt)) <$> servs).

(** the callbacks that [s_zoo_lockv] and the watcher have called *)
Fixpoint run_called (active : serv_id → bool) (l : list called) u : option (zclient * list (serv_id * out_pkt)) :=
  match l with
  | [] => Some (u, [])
  | CalledLockv d _ :: l =>
      '(u, out) ← lock_callback active d u;
      '(u, out') ← run_called active l u;
      Some (u, out ++ out')
  | CalledLock _ _ :: _ => None                          (* it locks vectors only *)
  end.
Definition newly_called zo zo' : list called := drop (length (z_called zo)) (z_called zo').

(** the answer of data server [id] to the WRITE of request [d], or that its
    connection is lost: the packet is not looked at.  The vector that is
    unlocked, and whether the results are written to a file *)
Definition write_callback (id d : Z) (now junk : timeval) u : option (zclient * option Z * bool) :=
  c ← zu_clients u !! d;
  b ← bit id;
  let lock := Z.ldiff (zc_lock c) b in
  let clients := <[d := ZClient (zc_id c) lock (zc_idx c) (zc_v c) (zc_tv c)]> (zu_clients u) in
  if lock =? 0 then
    let i := id_y (zc_id c) in
    if i <? 0 then None else
    let result := <[Z.to_nat i := timersub now (zu_gtv u)]> (extend (zu_result u) i junk) in
    let C := zu_C u + 1 in
    Some (Zud (zu_gid u) (zu_gcount u) (zu_max_try u) (zu_gtv u) (zu_access_id u) result C clients (zu_nclient u)
            (zu_calls u) (zu_todo u), Some (zc_v c), zu_max_try u <=? C)
  else
    Some (Zud (zu_gid u) (zu_gcount u) (zu_max_try u) (zu_gtv u) (zu_access_id u) (zu_result u) (zu_C u) clients (zu_nclient u)
            (zu_calls u) (zu_todo u), None, false).

(** up to the loop; [None]: [exit(0)], or a failure of the reader.  [sync]: the
    time after [s_zoo_sync] *)
Definition s_ud_client_init (max_try process_num : Z) (access_file : option (list Z)) (sync : timeval) : option zclient :=
  if (max_try <=? 0) || (process_num <=? 0) then None
  else
    file ← s_access_id_create access_file;
    ids ← file;
    Some (Zud 0 0 max_try sync ids [] 0 ∅ 0 [] (Z.to_nat max_try)).
End client.

(** ** The clients and the service
    The main thread of a process is 0; the library's threads have other numbers. *)
Section system.
Context {zk TH : Type} `{HS : !ZkService zk} `{HT : !Table Z Z TH}.
Context (up : (serv_id → bool) → Prop).           (* which data servers may be connected *)
Context (access_file : option (list Z)).
Implicit Types (z : zk) (zo : s_zoo TH) (u : zclient) (t p d : Z).

Record usys := USys { us_zk : zk; us_procs : gmap Z (s_zoo TH * zclient) }.
Implicit Types (ps : gmap Z (s_zoo TH * zclient)).

(** The watcher is called as in [ZooVec.vstep]: only while no thread of the
    process tests an element.  The program has other runs too. *)
Inductive ustep : usys → usys → Prop :=
| ustep_init z ps p z' zo max_try process_num sync u :
    ps !! p = None → s_zoo_init z p = (z', zo) →
    s_ud_client_init max_try process_num access_file sync = Some u →
    ustep (USys z ps) (USys z' (<[p := (zo, u)]> ps))
| ustep_access z ps p zo u now zo' u' active u'' out :       (* the next round of the loop *)
    ps !! p = Some (zo, u) → pc_of zo 0 = PIdle → zu_todo u ≠ 0%nat →
    access_data p 0 u now zo = Some (u', zo') → up active →
    run_called active (newly_called zo zo') u' = Some (u'', out) →
    ustep (USys z ps) (USys z (<[p := (zo', u'')]> ps))
| ustep_thread z ps p t zo u z' zo' active u' out :
    ps !! p = Some (zo, u) → blocked zo t = false → thread_step z p t zo = Some (z', zo') → up active →
    run_called active (newly_called zo zo') u = Some (u', out) →
    ustep (USys z ps) (USys z' (<[p := (zo', u')]> ps))
| ustep_event z ps p t zo u c l :
    ps !! p = Some (zo, u) → t ≠ 0 → pc_of zo t = PIdle → zk_events z p = c :: l →
    (∀ t', ¬ testing (pc_of zo t')) → is_Some (z_tles zo !! c) →
    ustep (USys z ps) (USys (zk_deliver z p) (<[p := (goto t (PTle c) zo, u)]> ps))
| ustep_answer z ps p zo u id d now junk u' v_opt out calls calls' :   (* the main thread polls *)
    ps !! p = Some (zo, u) → pc_of zo 0 = PIdle → zu_todo u = 0%nat →
    zu_calls u = calls ++ (id, d) :: calls' →
    write_callback id d now junk (Zud (zu_gid u) (zu_gcount u) (zu_max_try u) (zu_gtv u) (zu_access_id u) (zu_result u)
      (zu_C u) (zu_clients u) (zu_nclient u) (calls ++ calls') (zu_todo u)) = Some (u', v_opt, out) →
    ustep (USys z ps) (USys z (<[p := (match v_opt with Some v => goto 0 (PUnlockv v 0) zo | None => zo end, u')]> ps)).

Definition ustart (s : usys) : Prop :=
  us_procs s = ∅ ∧ (∀ f, zk_children (us_zk s) (child LOCK_ROOT f) = []) ∧ zk_watches (us_zk s) = [] ∧
  (∀ p, zk_events (us_zk s) p = []).
Definition ureach (s : usys) : Prop := ∃ s0, ustart s0 ∧ rtc ustep s0 s.
Definition vec_sys (s : usys) : zsys zk TH := Sys (us_zk s) (fst <$> us_procs s).

(** request [d] of [p] has the data server [i]: its locks were given, and the
    server has not answered *)
Definition writing (s : usys) p d (i : Z) : Prop :=
  ∃ zo u c, us_procs s !! p = Some (zo, u) ∧ zu_clients u !! d = Some c ∧ CalledLockv d (zc_v c) ∈ z_called zo ∧
    Z.testbit (zc_lock c) i = true.
End system.
Arguments usys : clear implicits.
