(* ===== verification/ZooClientSpec.v ===== *)
(** * What the clients of the locks on ZooKeeper promise

    Every run of the clients is a calm run of [ZooVec], so that the vectors have
    their locks; from this, two requests never have one data server at the same
    time, and a state at rest has no request that waits. *)

From stdpp Require Import strings sorting.
From S2P Require Import Prelude SArray Packet Wire SHashSpec Cluster DLock ServGroup AccessId LockClient.
From S2P Require Import Zoo ZooLock ZooWake ZooProgress ZooVec ZooVecSpec ZooClient.
Local Open Scope Z_scope.

(** ** The names of the data servers *)
Definition serv_named (f : list Z) : Prop := ∃ d, serv_ok d ∧ f = serv_name d.
Definition serv_rank (f : list Z) : Z := hd 0 f.
Definition main_thread (p t : Z) : Prop := t = 0.

Lemma serv_name_ok d : serv_ok d → serv_name d = [48 + d].
Proof.
  unfold serv_ok, MAX_DSERV, serv_name. intros Hd. cbn [c_decimal]. by rewrite (proj2 (Z.ltb_lt d 10)) by lia.
Qed.
Lemma serv_name_inj d d' : serv_ok d → serv_ok d' → serv_name d = serv_name d' → d = d'.
Proof. intros H H'. rewrite !serv_name_ok by done. intros [= E]. lia. Qed.
Lemma serv_named_good f : serv_named f → good_name f.
Proof.
  intros (d & Hd & ->). rewrite serv_name_ok by done. unfold serv_ok, MAX_DSERV in Hd.
  split; [|cbn; lia]. unfold SLASH. intros H%list_elem_of_singleton. lia.
Qed.
Lemma main_thread_one p t t' : main_thread p t → main_thread p t' → t = t'.
Proof. by intros -> ->. Qed.
Lemma bit_ok d : serv_ok d → bit d = Some (2 ^ d).
Proof.
  unfold serv_ok, MAX_DSERV, bit. intros H. by rewrite (proj2 (Z.leb_le 0 d)), (proj2 (Z.ltb_lt d 32)) by lia.
Qed.

#[local] Arguments serv_name : simpl never.

Section spec.
Context {zk TH : Type} `{HS : !ZkService zk} `{HT : !Table Z Z TH}.
Implicit Types (z : zk) (zo : s_zoo TH) (u : zclient) (t p d v i : Z)  (s : usys zk TH) (c : s_glock_client)
  (vec : s_zoo_lock_vector).
Local Abbreviation vstep := (vstep serv_named main_thread serv_rank).
Local Abbreviation vec_inv := (vec_inv serv_named main_thread serv_rank).

(** ** [access_data] *)
(** only the vectors change *)
Definition same_but_vecs zo zo' : Prop :=
  z_elems zo' = z_elems zo ∧ z_threads zo' = z_threads zo ∧ z_called zo' = z_called zo ∧ z_log zo' = z_log zo.

Lemma add_servs_spec z ps p v D0 D zo lock lock' zo' size :
  pc_of zo 0 = PIdle → Forall serv_ok (D0 ++ D) → StronglySorted Z.lt (D0 ++ D) →
  z_vecs zo !! v = Some (LockVector (serv_name <$> D0) size 0 0 None) → 
  add_servs v D lock zo = Some (lock', zo') → ps !! p = Some zo →
  same_but_vecs zo zo' ∧ rtc vstep (Sys z ps) (Sys z (<[p := zo']> ps)) ∧
  (∃ size', z_vecs zo' = <[v := LockVector (serv_name <$> (D0 ++ D)) size' 0 0 None]> (z_vecs zo)) ∧
  ∀ i, Z.testbit lock' i = true ↔ Z.testbit lock i = true ∨ i ∈ D.
Proof.
  revert ps D0 zo lock size. induction D as [|d D IH]; intros ps D0 zo lock size Hpc Hok Hs Hv Ha Hp; cbn [add_servs] in Ha.
  { injection Ha as <- <-. split_and!; [done|by rewrite insert_id| |intros i; rewrite elem_of_nil; tauto].
    exists size. rewrite app_nil_r. by rewrite insert_id. }
  assert (serv_ok d) as Hd by (rewrite Forall_app, Forall_cons in Hok; tauto).
  rewrite bit_ok in Ha by done. cbn in Ha. unfold s_zoo_lockv_add in Ha at 1. rewrite Hv in Ha. cbn in Ha.
  set (size1 := if _ <=? _ then _ else _) in Ha. set (vec1 := LockVector _ _ _ _ _) in Ha.
  set (zo1 := with_vecs _ zo) in Ha.
  assert (vec1 = LockVector (serv_name <$> (D0 ++ [d])) size1 0 0 None) as E1 by (unfold vec1; by rewrite fmap_app).
  destruct (IH (<[p := zo1]> ps) (D0 ++ [d]) zo1 (Z.lor lock (2 ^ d)) size1) as (Hsame & Hr & (size' & Hvec) & Hbits).
  - done.
  - by rewrite <-app_assoc.
  - by rewrite <-app_assoc.
  - cbn. by rewrite lookup_insert_eq, E1.
  - done.
  - by rewrite lookup_insert_eq.
  - rewrite insert_insert_eq in Hr. split_and!.
    + exact Hsame.
    + eapply rtc_l; [|exact Hr]. apply (vstep_call _ _ _ z ps p 0 zo (CLockvAdd v (serv_name d))); [done|done| |].
      * split; [by exists d|]. eexists. split; [done|]. split; [done|]. cbn. intros g (d0 & -> & Hd0)%list_elem_of_fmap.
        assert (serv_ok d0) as H0 by (rewrite Forall_app, (Forall_forall _ D0) in Hok; by apply Hok).
        rewrite !serv_name_ok by done. unfold serv_rank. cbn [hd]. enough (d0 < d) by lia. eapply (StronglySorted_app_1_elem_of _ D0 (d :: D)); [done|done|by left].
      * cbn. unfold s_zoo_lockv_add. by rewrite Hv.
    + exists size'. rewrite Hvec. cbn. rewrite insert_insert_eq. by rewrite <-app_assoc.
    + intros i. rewrite Hbits, Z.lor_spec, orb_true_iff, elem_of_cons, Z.pow2_bits_eqb by (unfold serv_ok in Hd; lia).
      rewrite Z.eqb_eq. assert (d = i ↔ i = d) by done. tauto.
Qed.

Lemma ud_access_spec z ps p u now zo u' zo' :
  Forall AccessId.ids_ok (zu_access_id u) → vec_inv p zo → pc_of zo 0 = PIdle → ps !! p = Some zo →
  access_data p 0 u now zo = Some (u', zo') →
  rtc vstep (Sys z ps) (Sys z (<[p := zo']> ps)) ∧
  ∃ D d size lock c, AccessId.ids_ok D ∧ head D = Some d ∧
    z_elems zo' = z_elems zo ∧ z_called zo' = z_called zo ∧ z_log zo' = z_log zo ∧
    moved 0 (PParent (lock_path (serv_name d)) CbLockv (z_nvec zo)) zo zo' ∧
    z_vecs zo' = <[z_nvec zo := LockVector (serv_name <$> D) size 0 (zu_nclient u)
                                  (Some (replicate (length D) ElUndef))]> (z_vecs zo) ∧
    zc_lock c = lock ∧ zc_v c = z_nvec zo ∧ (∀ i, Z.testbit lock i = true ↔ i ∈ D) ∧
    zu_clients u' = <[zu_nclient u := c]> (zu_clients u) ∧ zu_nclient u' = zu_nclient u + 1 ∧
    zu_calls u' = zu_calls u ∧ zu_access_id u' = zu_access_id u.
Proof.
  intros Hids Hi Hpc Hp. unfold access_data. destruct (array_at _ _) as [D|] eqn:ED; [|done]. cbn [mbind option_bind].
  assert (AccessId.ids_ok D) as HD.
  { unfold array_at in ED. case_decide; [|done]. rewrite Forall_lookup in Hids. by eapply Hids. }
  destruct (s_zoo_lockv_create zo) as [v zo1] eqn:Ec. pose proof Ec as Ec'. unfold s_zoo_lockv_create, new_vec in Ec'.
  injection Ec' as <- Ezo1. destruct (add_servs _ _ _ _) as [[lock zo2]|] eqn:Ea; [|done]. cbn [mbind option_bind].
  destruct (s_zoo_lockv _ _ _ _) as [zo3|] eqn:El; [|done]. cbn [mbind option_bind]. intros [= <- <-].
  assert (vstep (Sys z ps) (Sys z (<[p := zo1]> ps))) as H1.
  { apply (vstep_call _ _ _ z ps p 0 zo CLockvCreate); [done|done|done|]. cbn [call_step]. by rewrite Ec. }
  destruct HD as (Hne & Hok & Hsort).
  destruct (add_servs_spec z (<[p := zo1]> ps) p (z_nvec zo) [] D zo1 0 lock zo2 0) as ((E1 & E2 & E3 & E4) & H2 & (size & E5) & Hbits);
    [by rewrite <-Ezo1|done|done|by rewrite <-Ezo1; cbn; rewrite lookup_insert_eq|done|by rewrite lookup_insert_eq|].
  rewrite insert_insert_eq in H2. cbn [app] in E5.
  assert (vstep (Sys z (<[p := zo2]> ps)) (Sys z (<[p := zo3]> ps))) as H3.
  { rewrite <-(insert_insert_eq ps p zo3 zo2). apply (vstep_call _ _ _ z _ p 0 zo2 (CLockv (z_nvec zo) (zu_nclient u))); [by rewrite lookup_insert_eq| | |done].
    - unfold pc_of. rewrite E2, <-Ezo1. done.
    - eexists. rewrite E5, lookup_insert_eq. split; [done|]. split; [done|]. cbn. by destruct D. }
  split; [eapply rtc_l; [exact H1|]; eapply rtc_r; [exact H2|exact H3]|].
  unfold s_zoo_lockv in El. rewrite E5, lookup_insert_eq in El. cbn in El. destruct D as [|d D]; [done|]. cbn in El.
  apply s_zoo_lock_inv in El as ->. rewrite <-Ezo1 in *. cbn in E1, E2, E3, E4, E5, Hbits.
  eexists (d :: D), d, size, lock, _. split_and!; try done.
  - apply moved_goto. cbn. done.
  - cbn. rewrite !insert_insert_eq. by rewrite length_fmap.
  - done.
  - done.
  - intros i. rewrite Hbits, Z.bits_0. split; [by intros [?|?]|by right].
Qed.
(** ** What a step of a thread does to the vectors *)
(** where the loop of [s_zoo_unlockv] over vector [v] is *)
Definition at_index (c : pc) v i : Prop :=
  match c with
  | PUnlockv v' i' => v' = v ∧ i' = i
  | PDelete _ k | PFree _ k => k = Some (v, i)
  | _ => False
  end.

(** the thread goes to [c] *)
Inductive effect t zo zo' (c : pc) : Prop :=
| eff_quiet :
    z_vecs zo' = z_vecs zo → z_called zo' = z_called zo →
    (∀ v i, at_index c v i ↔ at_index (pc_of zo t) v i) → effect t zo zo' c
| eff_lock v e vec es :
    pc_of zo t = PCall CbLockv v e → z_vecs zo !! v = Some vec → ¬ complete vec → lv_lock_elems vec = Some es →
    z_vecs zo' = <[v := with_lock vec e es]> (z_vecs zo) → (∀ v i, ¬ at_index c v i) →
    z_called zo' = z_called zo ∧ ¬ complete (with_lock vec e es) ∨
    z_called zo' = z_called zo ++ [CalledLockv (lv_d vec) v] ∧ complete (with_lock vec e es) → effect t zo zo' c
| eff_next v (i : nat) vec es :
    z_vecs zo !! v = Some vec → lv_lock_elems vec = Some es → at_index (pc_of zo t) v (Z.of_nat i) → (i < length es)%nat →
    c = PUnlockv v (Z.of_nat i + 1) →
    z_vecs zo' = <[v := without_lock vec i es]> (z_vecs zo) → z_called zo' = z_called zo → effect t zo zo' c
| eff_end v i vec :
    pc_of zo t = PUnlockv v i → c = PIdle → z_vecs zo !! v = Some vec → lv_count vec <= i →
    z_vecs zo' = z_vecs zo → z_called zo' = z_called zo → effect t zo zo' c.

Lemma thread_effect z p t zo z' zo' :
  vec_inv p zo → thread_step z p t zo = Some (z', zo') → ∃ c0 : pc, moved t c0 zo zo' ∧ effect t zo zo' c0.
Proof.
  intros Hi Hs. pose proof Hi as (Ht & Hc & Hv). unfold thread_step in Hs.
  destruct (pc_of zo t) as [|q cb d|q cb d|q nm cb d|e l cb d|k|e|e l|cb d e|e k|e k|v i] eqn:Hpc.
  - injection Hs as _ <-. exists PIdle. split; [|by constructor; rewrite ?Hpc].
    intros t'. case_decide as D; [by subst|done].
  - unfold lock_parent in Hs. run Hs; (eexists; split; [by apply moved_goto|by constructor; rewrite ?Hpc]).
  - unfold lock_node in Hs. run Hs; (eexists; split; [by apply moved_goto|by constructor; rewrite ?Hpc]).
  - unfold lock_elem, new_elem in Hs. cbn zeta in Hs. destruct (try_lock _ _ _ _) as [[[l z1] zo1]|] eqn:E; [|done].
    apply try_lock_local in E as (_ & _ & _ & _ & _ & _ & E1 & _ & E2 & _ & E3). injection Hs as _ <-.
    destruct l; (eexists; split; [by apply moved_goto|by constructor; rewrite ?Hpc]).
  - run_local Hs @lock_check. case_match; (eexists; split; [by apply moved_goto|by constructor; rewrite ?Hpc]).
  - run_local Hs @try_lock_watcher. case_match; (eexists; split; [by apply moved_goto|by constructor; rewrite ?Hpc]).
  - unfold watcher_try in Hs. destruct (z_elems zo !! e); [|done]. cbn in Hs.
    destruct (el_callback _) as [cb|]; [|injection Hs as _ <-; eexists; split; [by apply moved_goto|by constructor; rewrite ?Hpc]].
    destruct (try_lock _ _ _ _) as [[[l z1] zo1]|] eqn:E; [|done].
    apply try_lock_local in E as (_ & _ & _ & _ & _ & _ & E1 & _ & E2 & _ & E3). injection Hs as _ <-.
    destruct l; (eexists; split; [by apply moved_goto|by constructor; rewrite ?Hpc]).
  - run_local Hs @watcher_check; (eexists; split; [by apply moved_goto|by constructor; rewrite ?Hpc]).
  - pose proof (v_lockv _ Ht t) as Hl. rewrite Hpc in Hl. cbn in Hl. subst cb.
    destruct (Zoo.lockv_callback _ _ _ _) as [zo1|] eqn:E; [|done]. injection Hs as _ <-.
    destruct (v_call _ Ht _ _ _ _ Hpc) as (el & Hel & _ & _).
    destruct (v_carr _ Hc (inl t) d (el_parent_path el)) as (vec1 & g & Hvec1 & Htk & _); [cbn; rewrite Hpc; cbn; by rewrite Hel|].
    apply lockv_callback_spec in E as (vec & es & c & Hvec & Hes & Hlt & E1 & Hm & _ & _ & _ & _ & _ & _ & Hcase).
    rewrite Hvec in Hvec1. injection Hvec1 as <-. apply taking_not_complete in Htk.
    exists c. split; [done|]. apply (eff_lock _ _ _ _ d e vec es); try done.
    + destruct Hcase as [(-> & _)|(_ & _ & ? & _ & ->)]; intros ? ? [].
    + destruct Hcase as [(-> & Hd & Ecall)|(Ecall & Hd & _)]; [right|left]; (split; [done|]).
      * by split; [eexists|].
      * intros [_ Hd']. unfold lv_count, with_lock in *. cbn in *. lia.
  - injection Hs as Hs. unfold unlock_delete in Hs. destruct (zoo_delete _ _ _). injection Hs as _ <-.
    eexists; split; [by apply moved_goto|by constructor; rewrite ?Hpc].
  - destruct (unlock_free _ _ _ _) as [zo1|] eqn:E; [|done]. injection Hs as _ <-. pose proof (v_unlock _ _ Hv t) as Hu. rewrite Hpc in Hu.
    destruct Hu as (v & i & vec & es & -> & Hvec & Hes & Hdone & Hi0 & Hj). unfold unlock_free in E.
    destruct (z_elems zo !! e); [|done]. cbn in E. rewrite Hvec in E. cbn in E. unfold set_elem_ptr in E. rewrite Hes in E. cbn in E.
    apply lookup_lt_Some in Hj. rewrite bool_decide_true in E by lia. injection E as <-.
    eexists; split; [by apply moved_goto|]. apply (eff_next _ _ _ _ v (Z.to_nat i) vec es); try done; rewrite ?Z2Nat.id by done; [by rewrite Hpc|done].
  - destruct (unlockv_next _ _ _ _) as [zo1|] eqn:E; [|done]. injection Hs as _ <-. pose proof (v_unlock _ _ Hv t) as Hu. rewrite Hpc in Hu.
    destruct Hu as (vec & Hvec & [_ Hdone] & Hi0). unfold unlockv_next in E. rewrite Hvec in E. cbn in E. destruct (_ <=? _) eqn:Hle; zbool.
    { injection E as <-. eexists; split; [by apply moved_goto|]. by apply (eff_end _ _ _ _ v i vec). }
    destruct (lv_lock_elems vec) as [es|] eqn:Hes; [|done]. cbn in E. destruct (es !! _) as [q|] eqn:Hq; [|done]. cbn in E.
    destruct q as [| |e]; [done|injection E as <-|].
    + eexists; split; [by apply moved_goto|]. apply lookup_lt_Some in Hq as Hlt.
      apply (eff_next _ _ _ _ v (Z.to_nat i) vec es); try done; rewrite ?Z2Nat.id by done; [by rewrite Hpc|done|].
      cbn. unfold without_lock. rewrite list_insert_id by done. rewrite <-Hes, insert_id; [done|]. by destruct vec.
    + unfold s_zoo_unlock in E. destruct (z_elems zo !! e); [|done]. injection E as <-.
      eexists; split; [by apply moved_goto|]. constructor; [done|done|]. intros v' i'. rewrite Hpc. cbn. naive_solver.
Qed.
Lemma at_index_fun (c : pc) v i v' i' : at_index c v i → at_index c v' i' → v = v' ∧ i = i'.
Proof. destruct c; cbn; try done; intros; naive_solver. Qed.
Lemma at_index_unlock (c : pc) v i : at_index c v i → in_unlock c.
Proof. by destruct c. Qed.

(** ** The requests and their vectors *)
Context (up : (serv_id → bool) → Prop).
Definition always_up : Prop := ∀ active i, up active → 1 <= i < 32 → active (Serv S_SERV_TYPE_D i) = true.

Definition all_null (es : list elem_ptr) (n : Z) : Prop := ∀ j : nat, Z.of_nat j < n → (j < length es)%nat → es !! j = Some ElNull.

(** a request, its vector, what is in it and which servers it is for *)
Record request_ok zo u d c vec (es : list elem_ptr) (D : list Z) : Prop := {
  r_vec : z_vecs zo !! zc_v c = Some vec;
  r_d : lv_d vec = d;
  r_elems : lv_lock_elems vec = Some es;
  r_ids : AccessId.ids_ok D;
  r_names : lv_filenames vec = serv_name <$> D;
  r_bits i : Z.testbit (zc_lock c) i = true → i ∈ D;
  (* not answered by all: nothing is unlocked *)
  r_locked : zc_lock c ≠ 0 → (∀ t i, ¬ at_index (pc_of zo t) (zc_v c) i) ∧ ∀ j : nat, es !! j ≠ Some ElNull;
  (* answered: it is unlocked up to where the loop is *)
  r_done : zc_lock c = 0 → complete vec ∧ (∀ t i, at_index (pc_of zo t) (zc_v c) i → all_null es i) ∧
    ((∃ t i, at_index (pc_of zo t) (zc_v c) i) ∨ all_null es (lv_count vec));
  r_called : CalledLockv d (zc_v c) ∈ z_called zo ↔ complete vec;
  r_calls i : (i, d) ∈ zu_calls u → Z.testbit (zc_lock c) i = true ∧ 1 <= i < 32 ∧ complete vec;
  r_all i : always_up → Z.testbit (zc_lock c) i = true → complete vec → (i, d) ∈ zu_calls u
}.
Record client_ok zo u : Prop := {
  k_ids : Forall AccessId.ids_ok (zu_access_id u);
  k_fresh d c : zu_clients u !! d = Some c → d < zu_nclient u;
  k_req d c : zu_clients u !! d = Some c → ∃ vec es D, request_ok zo u d c vec es D;
  k_owner v vec : z_vecs zo !! v = Some vec → ∃ d c, zu_clients u !! d = Some c ∧ zc_v c = v;
  k_called d v : CalledLockv d v ∈ z_called zo → ∃ c, zu_clients u !! d = Some c ∧ zc_v c = v;
  k_calls i d : (i, d) ∈ zu_calls u → is_Some (zu_clients u !! d);
  k_nodup : NoDup (zu_calls u)
}.

(** two requests have two vectors *)
Lemma k_distinct zo u d d' c c' :
  client_ok zo u → zu_clients u !! d = Some c → zu_clients u !! d' = Some c' → zc_v c = zc_v c' → d = d'.
Proof.
  intros Hk Hd Hd' E. destruct (k_req _ _ Hk _ _ Hd) as (vec & es & D & Hr), (k_req _ _ Hk _ _ Hd') as (vec' & es' & D' & Hr').
  pose proof (r_vec _ _ _ _ _ _ _ Hr) as Hv. rewrite E, (r_vec _ _ _ _ _ _ _ Hr') in Hv. injection Hv as <-.
  by rewrite <-(r_d _ _ _ _ _ _ _ Hr), <-(r_d _ _ _ _ _ _ _ Hr').
Qed.
(** the request of a vector *)
Lemma k_vector zo u v vec :
  client_ok zo u → z_vecs zo !! v = Some vec →
  ∃ d c es D, zu_clients u !! d = Some c ∧ zc_v c = v ∧ request_ok zo u d c vec es D ∧
    ∀ d' c', d' ≠ d → zu_clients u !! d' = Some c' → zc_v c' ≠ v.
Proof.
  intros Hk Hvec. destruct (k_owner _ _ Hk _ _ Hvec) as (d & c & Hd & <-).
  destruct (k_req _ _ Hk _ _ Hd) as (vec' & es & D & Hr). pose proof (r_vec _ _ _ _ _ _ _ Hr) as Hv.
  rewrite Hvec in Hv. injection Hv as <-. exists d, c, es, D. split_and!; try done.
  intros d' c' Hne Hd' E. by apply Hne, (k_distinct zo u d' d c' c).
Qed.

(** a step that does not concern the request *)
Lemma request_frame zo zo' u u' d c vec es D :
  request_ok zo u d c vec es D → z_vecs zo' !! zc_v c = z_vecs zo !! zc_v c →
  (∀ t i, at_index (pc_of zo' t) (zc_v c) i ↔ at_index (pc_of zo t) (zc_v c) i) →
  (CalledLockv d (zc_v c) ∈ z_called zo' ↔ CalledLockv d (zc_v c) ∈ z_called zo) →
  (∀ i, (i, d) ∈ zu_calls u' ↔ (i, d) ∈ zu_calls u) → request_ok zo' u' d c vec es D.
Proof.
  intros Hr E Hat Hcalled Hcalls. destruct Hr. split; try done.
  - by rewrite E.
  - by setoid_rewrite Hat.
  - by setoid_rewrite Hat.
  - by rewrite Hcalled.
  - intros i. rewrite Hcalls. auto.
  - intros i. rewrite Hcalls. auto.
Qed.
Lemma client_quiet zo zo' u :
  client_ok zo u → z_vecs zo' = z_vecs zo → z_called zo' = z_called zo →
  (∀ t v i, at_index (pc_of zo' t) v i ↔ at_index (pc_of zo t) v i) → client_ok zo' u.
Proof.
  intros Hk E1 E2 H. split; rewrite ?E1, ?E2; try apply Hk. intros d c Hd.
  destruct (k_req _ _ Hk _ _ Hd) as (vec & es & D & Hr). exists vec, es, D.
  apply (request_frame zo zo' u u); [done|by rewrite E1|intros t i; apply H|by rewrite E2|done].
Qed.

(** a step that concerns request [d0] with vector [v] only *)
Lemma client_step zo zo' u u' d0 c' v vec es D :
  client_ok zo u → zu_clients u' = <[d0 := c']> (zu_clients u) → zc_v c' = v → z_vecs zo' = <[v := vec]> (z_vecs zo) →
  (∀ d c, d ≠ d0 → zu_clients u !! d = Some c → zc_v c ≠ v) → (∀ c, zu_clients u !! d0 = Some c → zc_v c = v) →
  (∀ t v' i, v' ≠ v → at_index (pc_of zo' t) v' i ↔ at_index (pc_of zo t) v' i) →
  (∀ d v', CalledLockv d v' ∈ z_called zo' ↔ CalledLockv d v' ∈ z_called zo ∨ d = d0 ∧ v' = v ∧ complete vec) →
  (∀ i d, d ≠ d0 → (i, d) ∈ zu_calls u' ↔ (i, d) ∈ zu_calls u) → NoDup (zu_calls u') →
  d0 < zu_nclient u' → zu_nclient u <= zu_nclient u' → zu_access_id u' = zu_access_id u →
  request_ok zo' u' d0 c' vec es D → client_ok zo' u'.
Proof.
  intros Hk E1 Hv E2 Hother Hsame Hat Hcalled Hcalls Hnd Hlt Hle Eid Hr. split; rewrite ?E1, ?Eid; try apply Hk; try done.
  - intros d c. rewrite lookup_insert_Some. intros [[<- _]|[_ H%(k_fresh _ _ Hk)]]; lia.
  - intros d c. rewrite lookup_insert_Some. intros [[<- <-]|[Hne Hd]]; [by exists vec, es, D|].
    destruct (k_req _ _ Hk _ _ Hd) as (vec1 & es1 & D1 & Hr1). exists vec1, es1, D1. pose proof (Hother d c (not_eq_sym Hne) Hd) as Hvc.
    apply (request_frame zo zo' u u'); [done|by rewrite E2, lookup_insert_ne|by intros; apply Hat| |intros i; by apply Hcalls].
    rewrite Hcalled. split; [|by left]. by intros [?|(_ & ? & _)].
  - intros v' vec'. rewrite E2, lookup_insert_Some. intros [[<- _]|[Hne H]]; [exists d0, c'; by rewrite lookup_insert_eq|].
    destruct (k_owner _ _ Hk _ _ H) as (d & c & Hd & <-). exists d, c. rewrite lookup_insert_ne; [done|].
    intros <-. by apply Hne, eq_sym, Hsame.
  - intros d v'. rewrite Hcalled. intros [H|(-> & -> & _)]; [|exists c'; by rewrite lookup_insert_eq].
    destruct (k_called _ _ Hk _ _ H) as (c & Hd & <-). destruct (decide (d = d0)) as [->|?].
    + exists c'. rewrite lookup_insert_eq. split; [done|]. by rewrite (Hsame c Hd).
    + exists c. by rewrite lookup_insert_ne.
  - intros i d Hin. destruct (decide (d = d0)) as [->|?]; [by rewrite lookup_insert_eq|]. rewrite lookup_insert_ne by done.
    by apply (k_calls _ _ Hk i), Hcalls.
Qed.

Lemma called_none zo zo' active u u' out :
  z_called zo' = z_called zo → run_called active (newly_called zo zo') u = Some (u', out) → u' = u.
Proof. intros E. unfold newly_called. rewrite E, drop_all. by intros [= <- _]. Qed.
Lemma called_one zo zo' active u u' out d v :
  z_called zo' = z_called zo ++ [CalledLockv d v] → run_called active (newly_called zo zo') u = Some (u', out) →
  ∃ out, lock_callback active d u = Some (u', out).
Proof.
  intros E. unfold newly_called. rewrite E, drop_app_length. cbn. destruct (lock_callback active d u) as [[u1 out1]|]; [|done].
  cbn. intros [= <- _]. by exists out1.
Qed.

(** what [lock_callback] does to the requests *)
Lemma lock_callback_spec active d u u' out :
  lock_callback active d u = Some (u', out) →
  zu_clients u' = zu_clients u ∧ zu_nclient u' = zu_nclient u ∧ zu_access_id u' = zu_access_id u ∧
  ∃ c l, zu_clients u !! d = Some c ∧ zu_calls u' = zu_calls u ++ ((λ i, (i, d)) <$> l) ∧ NoDup l ∧
    ∀ i, i ∈ l ↔ 1 <= i < 32 ∧ Z.testbit (zc_lock c) i = true ∧ active (Serv S_SERV_TYPE_D i) = true.
Proof.
  unfold lock_callback. destruct (zu_clients u !! d) as [c|]; [|done]. cbn. destruct (easy_pkt _ _ _); [|done]. cbn.
  intros [= <- _]. cbn. split_and!; try done. eexists c, _. split_and!; [done|done| |].
  - apply NoDup_filter, NoDup_seqZ.
  - intros i. rewrite list_elem_of_filter, elem_of_seqZ. clear up.
    split; [intros ([? ?] & ?)|intros (? & ? & ?)]; split_and!; (done || lia).
Qed.

(** ** The steps *)
Lemma with_lock_null vec e es j :
  0 <= lv_curr vec < Z.of_nat (length es) → <[Z.to_nat (lv_curr vec) := ElPtr e]> es !! j = Some ElNull → es !! j = Some ElNull.
Proof. intros Hlt [[_ ?]|[_ ?]]%with_lock_slot; done. Qed.

(** the calls that the callback of a vector adds, if it was called *)
Lemma run_lock active zo zo' u u' out d0 c0 v (vec : s_zoo_lock_vector) :
  up active → zu_clients u !! d0 = Some c0 → NoDup (zu_calls u) → (∀ i, (i, d0) ∉ zu_calls u) →
  (∀ i, Z.testbit (zc_lock c0) i = true → 1 <= i < 32) →
  z_called zo' = z_called zo ∧ ¬ complete vec ∨ z_called zo' = z_called zo ++ [CalledLockv d0 v] ∧ complete vec →
  run_called active (newly_called zo zo') u = Some (u', out) →
  (zu_clients u' = zu_clients u ∧ zu_nclient u' = zu_nclient u ∧ zu_access_id u' = zu_access_id u ∧ NoDup (zu_calls u')) ∧
  (∀ i d, d ≠ d0 → (i, d) ∈ zu_calls u' ↔ (i, d) ∈ zu_calls u) ∧
  (∀ i, (i, d0) ∈ zu_calls u' → Z.testbit (zc_lock c0) i = true ∧ 1 <= i < 32 ∧ complete vec) ∧
  (∀ i, always_up → Z.testbit (zc_lock c0) i = true → complete vec → (i, d0) ∈ zu_calls u').
Proof.
  intros Hup Hd0 Hnd Hnone Hrange Hcase Hrun. destruct Hcase as [[Ec Hn]|[Ec Hc]].
  { apply called_none in Hrun as ->; [|done]. split_and!; try done. intros i Hin. by destruct (Hnone i). }
  apply (called_one _ _ _ _ _ _ _ _ Ec) in Hrun as [out' Hrun].
  apply lock_callback_spec in Hrun as (U1 & U2 & U3 & c & l & Hc' & Ecalls & Hndl & Hl). rewrite Hd0 in Hc'. injection Hc' as <-.
  assert (∀ i d, (i, d) ∈ zu_calls u' ↔ (i, d) ∈ zu_calls u ∨ d = d0 ∧ i ∈ l) as Hin.
  { intros i d. rewrite Ecalls, elem_of_app, list_elem_of_fmap. split; [intros [?|(i' & [= -> ->] & ?)]|intros [?|[-> ?]]]; eauto. }
  split_and!; try done.
  - rewrite Ecalls. apply NoDup_app. split_and!; [done| |apply NoDup_fmap_2; [by intros ? ? [=]|done]].
    intros [i d] H (i' & [= -> ->] & _)%list_elem_of_fmap. by destruct (Hnone i').
  - intros i d Hne. rewrite Hin. tauto.
  - intros i [H|[_ H]]%Hin; [by destruct (Hnone i)|]. apply Hl in H. tauto.
  - intros i Hall Hbit _. apply Hin. right. split; [done|]. apply Hl. pose proof (Hrange i Hbit). split_and!; [lia|lia|done|].
    by apply Hall.
Qed.

(** a lock comes into a vector *)
Lemma client_lock p t zo zo' (k : pc) u u' out active v e vec es :
  vec_inv p zo → client_ok zo u → up active → moved t k zo zo' →
  pc_of zo t = PCall CbLockv v e → z_vecs zo !! v = Some vec → ¬ complete vec → lv_lock_elems vec = Some es →
  z_vecs zo' = <[v := with_lock vec e es]> (z_vecs zo) → (∀ v i, ¬ at_index k v i) →
  z_called zo' = z_called zo ∧ ¬ complete (with_lock vec e es) ∨
  z_called zo' = z_called zo ++ [CalledLockv (lv_d vec) v] ∧ complete (with_lock vec e es) →
  run_called active (newly_called zo zo') u = Some (u', out) → client_ok zo' u'.
Proof.
  intros (_ & _ & Hv) Hk Hup Hm Hpc Hvec Hnot Hes E1 Hidx Hcase Hrun.
  destruct (k_vector _ _ _ _ Hk Hvec) as (d0 & c0 & es0 & D & Hd0 & <- & Hr & Hother).
  assert (es0 = es) as -> by (pose proof (r_elems _ _ _ _ _ _ _ Hr); congruence).
  destruct (v_vec _ _ Hv _ _ Hvec) as [(_ & _ & Hok) _]. destruct (Hok _ Hes) as (Hlen & Hcurr & _).
  assert (0 <= lv_curr vec < Z.of_nat (length es)) as Hlt.
  { destruct (decide (lv_count vec <= lv_curr vec)) as [?|?]; [by destruct Hnot; split|]. unfold lv_count in *. lia. }
  rewrite (r_d _ _ _ _ _ _ _ Hr) in Hcase.
  destruct (run_lock active zo zo' u u' out d0 c0 (zc_v c0) (with_lock vec e es)) as ((U1 & U2 & U3 & Hnd) & Hcalls & Hcalls0 & Hall);
    try done; [apply Hk|by intros i (_ & _ & ?)%(r_calls _ _ _ _ _ _ _ Hr)| |].
  { intros i Hi%(r_bits _ _ _ _ _ _ _ Hr). destruct (r_ids _ _ _ _ _ _ _ Hr) as (_ & H & _). rewrite Forall_forall in H.
    apply H in Hi. unfold serv_ok, MAX_DSERV in Hi. lia. }
  assert (∀ t' v i, at_index (pc_of zo' t') v i ↔ at_index (pc_of zo t') v i) as Hat.
  { intros t' v' i. rewrite (Hm t'). case_decide as D0; [subst; rewrite Hpc; cbn; split; [apply Hidx|done]|done]. }
  assert (∀ d v', CalledLockv d v' ∈ z_called zo' ↔ CalledLockv d v' ∈ z_called zo ∨
    d = d0 ∧ v' = zc_v c0 ∧ complete (with_lock vec e es)) as Hcalled.
  { intros d v'. destruct Hcase as [[-> Hn]|[-> Hc]]; [tauto|]. rewrite elem_of_app, list_elem_of_singleton. naive_solver. }
  eapply (client_step zo zo' u u' d0 c0 (zc_v c0)); try done; [by rewrite U1, insert_id|intros c H; congruence| |lia|].
  { rewrite U2. by eapply (k_fresh _ _ Hk). }
  destruct Hr as [r1 r2 r3 r4 r5 r6 r7 r8 r9 r10 r11]. split; try done.
  - by rewrite E1, lookup_insert_eq.
  - intros Hne. destruct (r7 Hne) as [H1 H2]. setoid_rewrite Hat. split; [done|]. intros j Hj%with_lock_null; [by apply (H2 j)|done].
  - intros H0. by destruct (r8 H0).
  - rewrite Hcalled, r9. tauto.
Qed.

(** [s_zoo_unlockv] goes on with its vector *)
Lemma all_null_insert es (i : nat) n : all_null es n → all_null (<[i := ElNull]> es) n.
Proof.
  intros Hn j Hj Hlt. rewrite length_insert in Hlt. destruct (decide (j = i)) as [->|?]; [by apply list_lookup_insert_eq|].
  rewrite list_lookup_insert_ne by done. by apply Hn.
Qed.
Lemma client_next t zo zo' u v (i : nat) vec es :
  client_ok zo u → moved t (PUnlockv v (Z.of_nat i + 1)) zo zo' → z_vecs zo !! v = Some vec → lv_lock_elems vec = Some es →
  at_index (pc_of zo t) v (Z.of_nat i) → (i < length es)%nat →
  z_vecs zo' = <[v := without_lock vec i es]> (z_vecs zo) → z_called zo' = z_called zo → client_ok zo' u.
Proof.
  intros Hk Hm Hvec Hes Hat Hi E1 E2. destruct (k_vector _ _ _ _ Hk Hvec) as (d0 & c0 & es0 & D & Hd0 & <- & Hr & Hother).
  assert (es0 = es) as -> by (pose proof (r_elems _ _ _ _ _ _ _ Hr); congruence).
  destruct Hr as [r1 r2 r3 r4 r5 r6 r7 r8 r9 r10 r11].
  assert (zc_lock c0 = 0) as Hlock.
  { destruct (decide (zc_lock c0 = 0)) as [?|Hne]; [done|]. by destruct (proj1 (r7 Hne) t (Z.of_nat i)). }
  destruct (r8 Hlock) as (Hcomp & Hbelow & _).
  assert (complete (without_lock vec i es)) as Hcomp' by (split; [by eexists|apply Hcomp]).
  eapply (client_step zo zo' u u d0 c0 (zc_v c0)); try done; [by rewrite insert_id|intros c H; congruence| | |apply Hk|by eapply (k_fresh _ _ Hk)|].
  - intros t' v' i' Hne. rewrite (Hm t'). case_decide as D0; [subst t'|done]. split; [by intros [E _]; destruct Hne|].
    intros H. by destruct (at_index_fun _ _ _ _ _ H Hat).
  - intros d v'. rewrite E2. split; [by left|]. intros [?|(-> & -> & _)]; [done|by apply r9].
  - split; try done.
    + by rewrite E1, lookup_insert_eq.
    + intros _. split; [done|]. split; [|left; exists t, (Z.of_nat i + 1); by rewrite (moved_self _ _ _ _ Hm)].
      intros t' i'. rewrite (Hm t'). case_decide as D0; [subst t'; intros [_ <-]|intros H; by apply all_null_insert, (Hbelow t')].
      intros j Hj Hlt. destruct (decide (j = i)) as [->|?]; [by apply list_lookup_insert_eq|].
      apply (all_null_insert es i (Z.of_nat i)); [by apply (Hbelow t)|lia|done].
    + rewrite E2. tauto.
    + intros i' H. by destruct (r10 i' H) as (? & ? & _).
    + intros i' H1 H2 _. by apply r11.
Qed.

(** it has come to the end *)
Lemma client_end p t zo zo' u v i vec :
  vec_inv p zo → client_ok zo u → moved t PIdle zo zo' → pc_of zo t = PUnlockv v i → z_vecs zo !! v = Some vec →
  lv_count vec <= i → z_vecs zo' = z_vecs zo → z_called zo' = z_called zo → client_ok zo' u.
Proof.
  intros (_ & _ & Hv) Hk Hm Hpc Hvec Hi E1 E2.
  destruct (k_vector _ _ _ _ Hk Hvec) as (d0 & c0 & es & D & Hd0 & <- & Hr & Hother).
  destruct Hr as [r1 r2 r3 r4 r5 r6 r7 r8 r9 r10 r11].
  assert (∀ t' v' i', at_index (pc_of zo' t') v' i' → at_index (pc_of zo t') v' i') as Hless.
  { intros t' v' i'. rewrite (Hm t'). by case_decide. }
  eapply (client_step zo zo' u u d0 c0 (zc_v c0) vec); try done; [by rewrite insert_id|by rewrite E1, insert_id|intros c H; congruence| | |apply Hk|by eapply (k_fresh _ _ Hk)|].
  - intros t' v' i' Hne. split; [apply Hless|]. rewrite (Hm t'). case_decide as D0; [subst t'|done]. rewrite Hpc. by intros [E _]; destruct Hne.
  - intros d v'. rewrite E2. split; [by left|]. intros [?|(-> & -> & H)]; [done|by apply r9].
  - split; rewrite ?E1, ?E2; try done.
    + intros Hne. destruct (r7 Hne) as [H1 H2]. split; [|done]. intros t' i' H. by apply (H1 t' i'), Hless.
    + intros H0. destruct (r8 H0) as (H1 & H2 & H3). split; [done|]. split; [intros t' i' H; by apply (H2 t'), Hless|right].
      intros j Hj. apply (H2 t i); [by rewrite Hpc|lia].
Qed.

Lemma client_thread z p t zo z' zo' u u' active out :
  vec_inv p zo → client_ok zo u → up active → thread_step z p t zo = Some (z', zo') →
  run_called active (newly_called zo zo') u = Some (u', out) → client_ok zo' u'.
Proof.
  intros Hi Hk Hup Hs Hrun. destruct (thread_effect z p t zo z' zo' Hi Hs) as (k & Hm & He).
  destruct He as [E1 E2 H|v e vec es Hpc Hvec Hnot Hes E1 Hidx Hcase|v i vec es Hvec Hes Hat Hlt -> E1 E2|v i vec Hpc -> Hvec Hle E1 E2].
  - apply called_none in Hrun as ->; [|done]. apply (client_quiet zo zo'); try done.
    intros t' v i. rewrite (Hm t'). case_decide as D; [subst|done]. apply H.
  - by eapply client_lock.
  - apply called_none in Hrun as ->; [|done]. by eapply client_next.
  - apply called_none in Hrun as ->; [|done]. by eapply client_end.
Qed.

(** a vector that is not there is not being unlocked *)
Lemma not_unlocked p zo v t i : vec_inv p zo → z_vecs zo !! v = None → ¬ at_index (pc_of zo t) v i.
Proof.
  intros (_ & _ & Hv) Hnone H. pose proof (v_unlock _ _ Hv t) as Hu. destruct (pc_of zo t) eqn:E; try done; cbn in H.
  - destruct Hu as (v1 & i1 & vec & es & -> & Hvec & _). injection H as -> ->. by rewrite Hnone in Hvec.
  - destruct Hu as (v1 & i1 & vec & es & -> & Hvec & _). injection H as -> ->. by rewrite Hnone in Hvec.
  - destruct Hu as (vec & Hvec & _). destruct H as [-> ->]. by rewrite Hnone in Hvec.
Qed.

(** a new request *)
Lemma client_access z ps p zo u now zo' u' active u'' out :
  vec_inv p zo → client_ok zo u → pc_of zo 0 = PIdle → ps !! p = Some zo →
  access_data p 0 u now zo = Some (u', zo') → run_called active (newly_called zo zo') u' = Some (u'', out) →
  rtc vstep (Sys z ps) (Sys z (<[p := zo']> ps)) ∧ client_ok zo' u''.
Proof.
  intros Hi Hk Hpc Hp Ha Hrun. pose proof Hi as (_ & _ & Hv).
  destruct (ud_access_spec z ps p u now zo u' zo' (k_ids _ _ Hk) Hi Hpc Hp Ha) as
    (Hr & D & d0 & size & lock & c0 & HD & Hhd & _ & E2 & _ & Hm & E1 & Hlock & Hv0 & Hbits & U1 & U2 & U3 & U4).
  split; [done|]. apply called_none in Hrun as ->; [|done].
  set (n := zu_nclient u) in *. set (v := z_nvec zo) in *. set (vec0 := LockVector _ _ _ _ _) in *.
  assert (z_vecs zo !! v = None) as Hnone.
  { destruct (z_vecs zo !! v) as [vec|] eqn:E; [|done]. apply (v_vec _ _ Hv) in E as [_ ?]. unfold v in *. lia. }
  assert (zu_clients u !! n = None) as Hfresh.
  { destruct (zu_clients u !! n) as [c|] eqn:E; [|done]. apply (k_fresh _ _ Hk) in E. unfold n in *. lia. }
  assert (∀ d c, zu_clients u !! d = Some c → zc_v c ≠ v) as Hother.
  { intros d c Hd E. destruct (k_req _ _ Hk _ _ Hd) as (vec & es & D' & H). apply r_vec in H. by rewrite E, Hnone in H. }
  assert (∀ t' v' i, at_index (pc_of zo' t') v' i ↔ at_index (pc_of zo t') v' i) as Hat.
  { intros t' v' i. rewrite (Hm t'). case_decide as Dt; [subst; by rewrite Hpc|done]. }
  assert (¬ complete vec0) as Hnot.
  { intros [_ H]. unfold lv_count, vec0 in H. cbn in H. rewrite length_fmap in H. destruct D; [done|cbn in H; lia]. }
  assert (zc_lock c0 ≠ 0) as Hne.
  { intros E. assert (Z.testbit lock d0 = true) as H by (apply Hbits; by destruct D; [|injection Hhd as ->; left]).
    by rewrite <-Hlock, E, Z.bits_0 in H. }
  eapply (client_step zo zo' u u' n c0 v vec0); try done; rewrite ?U2, ?U3; try done; try lia;
    [by intros d c _; apply Hother|intros c H; congruence|intros d v'; rewrite E2; tauto|apply Hk|].
  rewrite <-Hlock in Hbits. rewrite <-Hv0 in E1, Hnone. apply (Build_request_ok _ _ _ _ _ (replicate (length D) ElUndef) D); try done.
  - by rewrite E1, lookup_insert_eq.
  - intros i. apply Hbits.
  - intros _. setoid_rewrite Hat. split; [intros t' i; by eapply not_unlocked|]. by intros j [? _]%lookup_replicate.
  - rewrite E2. split; [|done]. intros (c & Hd & Hvc)%(k_called _ _ Hk). congruence.
  - rewrite U3. intros i (c & Hc)%(k_calls _ _ Hk). congruence.
Qed.

(** what [write_callback] does to the requests *)
Lemma write_callback_spec id d now junk u u' v_opt out c :
  write_callback id d now junk u = Some (u', v_opt, out) → zu_clients u !! d = Some c → 0 <= id < 32 →
  let lock := Z.ldiff (zc_lock c) (2 ^ id) in
  v_opt = (if lock =? 0 then Some (zc_v c) else None) ∧ zu_nclient u' = zu_nclient u ∧
  zu_access_id u' = zu_access_id u ∧ zu_calls u' = zu_calls u ∧
  zu_clients u' = <[d := ZClient (zc_id c) lock (zc_idx c) (zc_v c) (zc_tv c)]> (zu_clients u).
Proof.
  intros Hw Hd Hid. unfold write_callback, bit in Hw. rewrite Hd in Hw. cbn [mbind option_bind] in Hw.
  rewrite (proj2 (Z.leb_le 0 id)), (proj2 (Z.ltb_lt id 32)) in Hw by lia. cbn [andb mbind option_bind] in Hw. cbn zeta in Hw |- *.
  destruct (Z.ldiff _ _ =? 0); [destruct (id_y (zc_id c) <? 0); [done|]|]; injection Hw as <- <- _; done.
Qed.

(** an answer to a WRITE *)
Lemma client_answer p zo u id d now junk u' v_opt out calls calls' :
  vec_inv p zo → client_ok zo u → pc_of zo 0 = PIdle → zu_calls u = calls ++ (id, d) :: calls' →
  write_callback id d now junk (Zud (zu_gid u) (zu_gcount u) (zu_max_try u) (zu_gtv u) (zu_access_id u) (zu_result u)
    (zu_C u) (zu_clients u) (zu_nclient u) (calls ++ calls') (zu_todo u)) = Some (u', v_opt, out) →
  (∀ v, v_opt = Some v → ∃ vec, z_vecs zo !! v = Some vec ∧ complete vec) ∧
  client_ok (match v_opt with Some v => goto 0 (PUnlockv v 0) zo | None => zo end) u'.
Proof.
  intros Hi Hk Hpc Hcalls Hw.
  assert (∀ i d2, (i, d2) ∈ zu_calls u ↔ (i, d2) = (id, d) ∨ (i, d2) ∈ calls ++ calls') as Hin.
  { intros i d2. rewrite Hcalls, !elem_of_app, elem_of_cons. tauto. }
  pose proof (k_nodup _ _ Hk) as Hnd. rewrite Hcalls, <-Permutation_middle in Hnd. apply NoDup_cons in Hnd as [Hnin Hnd].
  destruct (k_calls _ _ Hk id d) as [c Hd]; [apply Hin; by left|].
  destruct (k_req _ _ Hk _ _ Hd) as (vec & es & D & [r1 r2 r3 r4 r5 r6 r7 r8 r9 r10 r11]).
  destruct (r10 id) as (Hbit & Hid & Hcomp); [apply Hin; by left|].
  destruct (write_callback_spec _ _ _ _ _ _ _ _ c Hw Hd ltac:(lia)) as (Eo & U1 & U2 & U3 & U4). clear Hw.
  cbn in U1, U2, U3, U4. set (lock := Z.ldiff _ _) in *. set (c' := ZClient _ _ _ _ _) in *.
  assert (∀ i, Z.testbit lock i = true ↔ Z.testbit (zc_lock c) i = true ∧ i ≠ id) as Hbits.
  { intros i. unfold lock. rewrite Z.ldiff_spec, andb_true_iff, negb_true_iff, Z.pow2_bits_eqb, Z.eqb_neq by lia.
    assert (id ≠ i ↔ i ≠ id) by done. tauto. }
  assert (zc_lock c ≠ 0) as Hne. { intros E. by rewrite E, Z.bits_0 in Hbit. }
  destruct (r7 Hne) as [Hidle Hnonull]. set (zo' := match v_opt with Some _ => _ | None => _ end).
  assert (z_vecs zo' = z_vecs zo ∧ z_called zo' = z_called zo) as [E1 E2] by (unfold zo'; by destruct v_opt).
  assert (∀ t i v, at_index (pc_of zo' t) v i ↔ at_index (pc_of zo t) v i ∨ lock = 0 ∧ t = 0 ∧ i = 0 ∧ v = zc_v c) as Hat.
  { intros t i v. unfold zo'. rewrite Eo. destruct (lock =? 0) eqn:E; zbool; [|tauto]. rewrite pc_of_goto.
    case_decide as Dt; [subst t; rewrite Hpc; cbn|]; naive_solver. }
  split; [intros v; rewrite Eo; destruct (lock =? 0); [intros [= <-]; by exists vec|done]|].
  eapply (client_step zo zo' u u' d c' (zc_v c) vec); try done; rewrite ?U1, ?U3; try done.
  - by rewrite E1, insert_id.
  - intros d2 c2 Hd2 H E. by apply Hd2, (k_distinct zo u d2 d c2 c).
  - intros c2 H. congruence.
  - intros t v i Hv. rewrite Hat. tauto.
  - intros d2 v. rewrite E2. split; [by left|]. intros [?|(-> & -> & _)]; [done|by apply r9].
  - intros i d2 Hd2. rewrite Hin. split; [by right|]. intros [[= _ ?]|?]; done.
  - by apply (k_fresh _ _ Hk _ c).
  - apply (Build_request_ok _ _ _ _ _ es D); try done; rewrite ?E1, ?E2; try done.
    + intros i [Hb _]%Hbits. by apply r6.
    + cbn. intros Hl. split; [|done]. intros t i [H|(H & _)]%Hat; [by apply (Hidle t i)|done].
    + cbn. intros Hl. split; [done|]. split; [|left; exists 0, 0; rewrite Hat; by right].
      intros t i [H|(_ & _ & -> & _)]%Hat; [by destruct (Hidle t i)|]. intros j Hj. lia.
    + rewrite U3. intros i H. destruct (r10 i) as (Hb & Hr & _); [apply Hin; by right|]. split_and!; try done; try lia.
      apply Hbits. split; [done|]. by intros ->.
    + rewrite U3. intros i Hall [Hb Hne']%Hbits Hc. apply r11, Hin in Hb as [[= ?]|?]; done.
Qed.

(** a request that was told and has no WRITE for [i] under way gets none *)
Lemma missed_thread z p t zo z' zo' u u' active out d i c :
  vec_inv p zo → client_ok zo u → up active → thread_step z p t zo = Some (z', zo') →
  run_called active (newly_called zo zo') u = Some (u', out) → zu_clients u !! d = Some c →
  CalledLockv d (zc_v c) ∈ z_called zo → (i, d) ∉ zu_calls u →
  zu_clients u' !! d = Some c ∧ CalledLockv d (zc_v c) ∈ z_called zo' ∧ (i, d) ∉ zu_calls u'.
Proof.
  intros Hi Hk Hup Hs Hrun Hd Hc Hn. destruct (thread_effect z p t zo z' zo' Hi Hs) as (k & Hm & He).
  destruct He as [_ E2 _|v e vec es Hpc Hvec Hnot Hes E1 Hidx Hcase|v i' vec es _ _ _ _ -> _ E2|v i' vec _ -> _ _ _ E2];
    try by (apply called_none in Hrun as ->; [rewrite E2|]).
  destruct (k_vector _ _ _ _ Hk Hvec) as (d0 & c0 & es0 & D & Hd0 & <- & Hr & _). destruct (k_req _ _ Hk _ _ Hd) as (vec1 & es1 & D1 & Hr1).
  assert (d ≠ d0) as Hne.
  { intros ->. rewrite Hd0 in Hd. injection Hd as <-. apply (r_called _ _ _ _ _ _ _ Hr1) in Hc.
    pose proof (r_vec _ _ _ _ _ _ _ Hr1) as H. rewrite Hvec in H. by injection H as <-. }
  rewrite (r_d _ _ _ _ _ _ _ Hr) in Hcase.
  destruct (run_lock active zo zo' u u' out d0 c0 (zc_v c0) (with_lock vec e es)) as ((U1 & _) & Hcalls & _);
    try done; [apply Hk|by intros j (_ & _ & ?)%(r_calls _ _ _ _ _ _ _ Hr)| |].
  { intros j Hj%(r_bits _ _ _ _ _ _ _ Hr). destruct (r_ids _ _ _ _ _ _ _ Hr) as (_ & H & _). rewrite Forall_forall in H.
    apply H in Hj. unfold serv_ok, MAX_DSERV in Hj. lia. }
  rewrite U1, Hcalls by done. split_and!; try done. destruct Hcase as [[-> _]|[-> _]]; set_solver.
Qed.

(** ** Every run *)
Context (access_file : option (list Z)).
Context (Hids : ∀ ids, s_access_id_create access_file = Some (Some ids) → Forall AccessId.ids_ok ids).
Local Abbreviation ustep := (ustep up access_file).
Local Abbreviation ureach := (ureach up access_file).
Local Abbreviation vec_reach := (vec_reach serv_named main_thread serv_rank).

Lemma client_init z p z' zo max_try process_num sync u :
  s_zoo_init z p = (z', zo) → s_ud_client_init max_try process_num access_file sync = Some u → client_ok zo u.
Proof using Hids.
  intros Hs Hu.
  assert (∀ q zo0 z0 z1 zo1, make_root z0 p q zo0 = (z1, zo1) → z_vecs zo1 = z_vecs zo0 ∧ z_called zo1 = z_called zo0) as Hroot.
  { intros q zo0 z0 z1 zo1. unfold make_root. destruct (zoo_create _ _ _ _) as [[r created] z2]. intros [= _ <-]. by case_match. }
  unfold s_zoo_init in Hs. destruct (make_root z p LOCK_ROOT zoo_empty) as [z1 zo1] eqn:E1.
  apply Hroot in E1 as [A1 A2], Hs as [B1 B2]. rewrite A1 in B1. rewrite A2 in B2. cbn in B1, B2.
  unfold s_ud_client_init in Hu. destruct (_ || _); [done|]. destruct (s_access_id_create access_file) as [[ids|]|] eqn:Ef; try done.
  cbn in Hu. injection Hu as <-.
  split; cbn; rewrite ?B1, ?B2; try done.
  - by apply Hids.
  - by intros d v ?%elem_of_nil.
  - by intros i d ?%elem_of_nil.
  - constructor.
Qed.

Lemma vec_sys_insert z (ps : gmap Z (s_zoo TH * zclient)) p zo u :
  vec_sys (USys z (<[p := (zo, u)]> ps)) = Sys z (<[p := zo]> (fst <$> ps)).
Proof. unfold vec_sys. cbn. by rewrite fmap_insert. Qed.
Lemma vec_sys_lookup (ps : gmap Z (s_zoo TH * zclient)) p zo u : ps !! p = Some (zo, u) → (fst <$> ps) !! p = Some zo.
Proof. intros H. by rewrite lookup_fmap, H. Qed.

Context `{HZ : !ZkLaws zk}.

Definition uinv s : Prop :=
  vec_reach (vec_sys s) ∧ ∀ p zo u, us_procs s !! p = Some (zo, u) → client_ok zo u.
Lemma uinv_vec s p zo u : uinv s → us_procs s !! p = Some (zo, u) → vec_inv p zo.
Proof using HZ.
  intros [Hr _] Hp. destruct (vec_reach_inv _ _ _ serv_named_good main_thread_one _ Hr) as [_ Hi]. apply Hi.
  cbn. by eapply vec_sys_lookup.
Qed.

Lemma ustep_inv s s' : ustep s s' → uinv s → uinv s'.
Proof using HZ Hids.
  intros Hs Hi. pose proof (λ p zo u, uinv_vec s p zo u Hi) as Hv. destruct Hi as [(s0 & H0 & Hr) Hk].
  assert (∀ z ps p zo u, rtc vstep (vec_sys s) (Sys z (<[p := zo]> (fst <$> us_procs s))) → us_procs s = ps → client_ok zo u →
    uinv (USys z (<[p := (zo, u)]> ps))) as Hput.
  { intros z ps p zo u Hst <- Hok. split.
    - rewrite vec_sys_insert. exists s0. split; [done|]. by transitivity (vec_sys s).
    - intros p1 zo1 u1. cbn. rewrite lookup_insert_Some. intros [[<- [= <- <-]]|[_ H]]; [done|by eapply Hk]. }
  destruct Hs as [z ps p z' zo mt pn sync u Hn Hin Hu|z ps p zo u now zo' u' active u'' out Hp Hpc Htodo Ha Hup Hrun
    |z ps p t zo u z' zo' active u' out Hp Hb Ht Hup Hrun|z ps p t zo u c l Hp Hne Hpc He Hcalm Hsome
    |z ps p zo u id d now junk u' v_opt out calls calls' Hp Hpc Htodo Hcalls Hw]; cbn in *.
  - apply Hput; [|done|by eapply client_init]. apply rtc_once. apply vstep_init; [|done]. by rewrite lookup_fmap, Hn.
  - destruct (client_access z (fst <$> ps) p zo u now zo' u' active u'' out) as [H1 H2]; try done;
      [by eapply Hv|by eapply Hk|by eapply vec_sys_lookup|]. by apply Hput.
  - apply Hput; [|done|by eapply client_thread; [eapply Hv|eapply Hk|..]].
    apply rtc_once. eapply vstep_thread; try done. by eapply vec_sys_lookup.
  - apply Hput; [|done|].
    + apply rtc_once. eapply vstep_event; try done. by eapply vec_sys_lookup.
    + apply (client_quiet zo); try done; [by eapply Hk|]. intros t' v i. rewrite pc_of_goto. case_decide as D; [subst|done]. by rewrite Hpc.
  - destruct (client_answer p zo u id d now junk u' v_opt out calls calls') as [H1 H2]; try done; [by eapply Hv|by eapply Hk|].
    apply Hput; [|done|done]. destruct v_opt as [v|].
    + destruct (H1 v eq_refl) as (vec & Hvec & Hc). apply rtc_once. apply (vstep_call _ _ _ z _ p 0 zo (CUnlockv v)); try done.
      * by eapply vec_sys_lookup.
      * split; [done|]. by exists vec.
    + rewrite insert_id; [apply rtc_refl|by eapply vec_sys_lookup].
Qed.
Lemma ureach_inv s : ureach s → uinv s.
Proof using HZ Hids.
  intros (s0 & (Hps & H0) & Hr). assert (uinv s0) as Hi.
  { split; [|by rewrite Hps]. exists (vec_sys s0). split; [|constructor]. split; [|done]. cbn. by rewrite Hps, fmap_empty. }
  clear Hps H0. induction Hr as [|s0 s1 s2 Hs _ IH]; [done|]. apply IH. by eapply ustep_inv.
Qed.

(** a request that has a data server holds its lock *)
Lemma writing_granted s p d i :
  uinv s → writing s p d i → ∃ zo u c vec es j e, us_procs s !! p = Some (zo, u) ∧ zu_clients u !! d = Some c ∧
    z_vecs zo !! zc_v c = Some vec ∧ lv_lock_elems vec = Some es ∧ es !! j = Some (ElPtr e) ∧ granted zo e (serv_name i).
Proof using HZ.
  intros Hi (zo & u & c & Hp & Hd & Hc & Hbit). pose proof (uinv_vec s p zo u Hi Hp) as (_ & _ & Hv).
  destruct (k_req _ _ (proj2 Hi _ _ _ Hp) _ _ Hd) as (vec & es & D & [r1 r2 r3 r4 r5 r6 r7 r8 r9 r10 r11]).
  apply r9 in Hc as [_ Hcomp]. destruct (v_vec _ _ Hv _ _ r1) as [(_ & _ & Hok) _]. destruct (Hok _ r3) as (Hlen & Hcurr & _ & Hund).
  assert (zc_lock c ≠ 0) as Hne. { intros E. by rewrite E, Z.bits_0 in Hbit. }
  destruct (r7 Hne) as [Hidle Hnull]. apply r6, list_elem_of_lookup in Hbit as [j Hj].
  assert (lv_filenames vec !! j = Some (serv_name i)) as Hfj by (rewrite r5, list_lookup_fmap, Hj; done).
  apply lookup_lt_Some in Hfj as Hlt. unfold lv_count in *.
  destruct (es !! j) as [[| |e]|] eqn:He; [destruct (Hund j); [lia|done]|by destruct (Hnull j)| |apply lookup_ge_None in He; lia].
  exists zo, u, c, vec, es, j, e. split_and!; try done.
  destruct (v_held _ _ Hv _ _ _ _ _ r1 r3 He) as [_ (el & f & Hel & Hcb & _ & Hf' & Hq)]. rewrite Hfj in Hf'. injection Hf' as <-.
  exists el. split_and!; try done. intros (t & k & H).
  assert (unlocks (z_vecs zo) (PDelete e k)) as (v' & i' & vec' & es' & -> & Hv' & Hes' & _ & Hi' & Hj').
  { pose proof (v_unlock _ _ Hv t) as Hu. by destruct H as [E|E]; rewrite E in Hu. }
  destruct (held_once serv_named main_thread serv_rank serv_named_good p zo (zc_v c) v' vec vec' es es' j (Z.to_nat i') e) as [<- _]; try done.
  apply (Hidle t i'). by destruct H as [E|E]; rewrite E.
Qed.

Lemma writing_exclusive s p p' d d' i :
  uinv s → writing s p d i → writing s p' d' i → p = p' ∧ d = d'.
Proof using HZ.
  intros Hr Hw Hw'.
  destruct (writing_granted s p d i Hr Hw) as (zo & u & c & vec & es & j & e & Hp & Hd & Hvec & Hes & Hj & Hg).
  destruct (writing_granted s p' d' i Hr Hw') as (zo' & u' & c' & vec' & es' & j' & e' & Hp' & Hd' & Hvec' & Hes' & Hj' & Hg').
  assert (zoo_inv (vec_sys s)) as Hz by (by destruct (vec_reach_inv _ _ _ serv_named_good main_thread_one _ (proj1 Hr))).
  destruct (granted_once (vec_sys s) p p' zo zo' e e' (serv_name i)) as [<- <-]; try done; [by eapply vec_sys_lookup..|].
  rewrite Hp in Hp'. injection Hp' as <- <-. split; [done|]. pose proof (uinv_vec s p zo u Hr Hp) as (_ & _ & Hv). destruct Hr as [_ Hk].
  destruct (held_once serv_named main_thread serv_rank serv_named_good p zo (zc_v c) (zc_v c') vec vec' es es' j j' e) as [E _]; try done.
  by apply (k_distinct zo u d d' c c'); [eapply Hk|..].
Qed.

(** C4. Two requests do not have the same data server, in runs in which the
    watcher is called only while no thread of its process tests an element
    ([ustep_event]): whatever the clients, their threads and the service do,
    with lost connections to data servers and errors of the service, there is
    at most one request of one client that was told it has its locks and whose
    WRITE to that server is not answered.  The condition is needed and the code
    does not see to it ([vector_complete_without_lock]: a vector is complete
    without its lock).  The file has the ids of a line in increasing order
    ([Hids], as [gen_random_id] writes them), and sessions last ([ZkLaws]). *)
Theorem ud_exclusion s p p' d d' i :
  ureach s → writing s p d i → writing s p' d' i → p = p' ∧ d = d'.
Proof using HZ Hids.
  intros Hr%ureach_inv. by apply writing_exclusive.
Qed.
(** ** A data server that is missing *)
(** Request [d] was told that it has its locks, and no WRITE to data server [i]
    is under way, but it waits for it. *)
Definition missed s p d i : Prop :=
  ∃ zo u c, us_procs s !! p = Some (zo, u) ∧ zu_clients u !! d = Some c ∧ CalledLockv d (zc_v c) ∈ z_called zo ∧
    Z.testbit (zc_lock c) i = true ∧ (i, d) ∉ zu_calls u.

Lemma missed_step s s' p d i : uinv s → ustep s s' → missed s p d i → missed s' p d i.
Proof using HZ.
  clear Hids. intros Hi Hs (zo & u & c & Hp & Hd & Hc & Hbit & Hn). pose proof (uinv_vec s p zo u Hi Hp) as Hv. pose proof (proj2 Hi _ _ _ Hp) as Hk.
  assert (∀ z ps p1 zo1 u1 zo2 u2, us_procs s = ps → ps !! p1 = Some (zo1, u1) →
    (p1 = p → zo1 = zo → u1 = u → ∃ c', zu_clients u2 !! d = Some c' ∧ CalledLockv d (zc_v c') ∈ z_called zo2 ∧
      Z.testbit (zc_lock c') i = true ∧ (i, d) ∉ zu_calls u2) → missed (USys z (<[p1 := (zo2, u2)]> ps)) p d i) as Hput.
  { intros z ps p1 zo1 u1 zo2 u2 <- Hp1 H. destruct (decide (p1 = p)) as [->|?].
    - rewrite Hp in Hp1. injection Hp1 as <- <-. destruct (H eq_refl eq_refl eq_refl) as (c' & H').
      exists zo2, u2, c'. cbn. by rewrite lookup_insert_eq.
    - exists zo, u, c. cbn. by rewrite lookup_insert_ne. }
  destruct Hs as [z ps p1 z' zo1 mt pn sync u1 Hn1 Hin Hu|z ps p1 zo1 u1 now zo' u' active u'' out Hp1 Hpc Htodo Ha Hup Hrun
    |z ps p1 t zo1 u1 z' zo' active u' out Hp1 Hb Ht Hup Hrun|z ps p1 t zo1 u1 k l Hp1 Hne Hpc He Hcalm Hsome
    |z ps p1 zo1 u1 id d1 now junk u' v_opt out calls calls' Hp1 Hpc Htodo Hcalls Hw]; cbn in *.
  - exists zo, u, c. cbn. rewrite lookup_insert_ne; [done|]. intros ->. congruence.
  - apply (Hput z ps p1 zo1 u1); [done|done|]. intros -> -> ->. exists c.
    destruct (ud_access_spec z (fst <$> ps) p u now zo u' zo' (k_ids _ _ Hk) Hv Hpc (vec_sys_lookup _ _ _ _ Hp) Ha) as
      (_ & D & d0 & size & lock & c0 & _ & _ & _ & E2 & _ & _ & _ & _ & _ & _ & U1 & _ & U3 & _).
    apply called_none in Hrun as ->; [|done]. rewrite U1, U3, E2, lookup_insert_ne; [done|].
    intros <-. apply (k_fresh _ _ Hk) in Hd. lia.
  - apply (Hput z' ps p1 zo1 u1); [done|done|]. intros -> -> ->. exists c.
    destruct (missed_thread z p t zo z' zo' u u' active out d i c) as (H1 & H2 & H3); done.
  - apply (Hput _ ps p1 zo1 u1); [done|done|]. intros -> -> ->. by exists c.
  - apply (Hput z ps p1 zo1 u1); [done|done|]. intros -> -> ->.
    destruct (k_calls _ _ Hk id d1) as [c1 Hd1]; [rewrite Hcalls; set_solver|].
    destruct (k_req _ _ Hk _ _ Hd1) as (vec1 & es1 & D1 & Hr1). destruct (r_calls _ _ _ _ _ _ _ Hr1 id) as (_ & Hid & _); [rewrite Hcalls; set_solver|].
    destruct (write_callback_spec _ _ _ _ _ _ _ _ c1 Hw Hd1 ltac:(lia)) as (_ & _ & _ & U3 & U4). cbn in U3, U4.
    rewrite U3, U4. assert ((i, d) ∉ calls ++ calls') as Hn' by (rewrite Hcalls in Hn; set_solver).
    assert (z_called (match v_opt with Some v => goto 0 (PUnlockv v 0) zo | None => zo end) = z_called zo) as -> by (by destruct v_opt).
    destruct (decide (d1 = d)) as [->|?]; [|exists c; by rewrite lookup_insert_ne].
    rewrite Hd in Hd1. injection Hd1 as <-. eexists. rewrite lookup_insert_eq. split_and!; try done. cbn.
    rewrite Z.ldiff_spec, Hbit, Z.pow2_bits_eqb by lia. apply negb_true_iff, Z.eqb_neq. intros <-. rewrite Hcalls in Hn. set_solver.
Qed.

(** When a data server of a request is not connected as its locks come,
    [lock_callback] goes on without it, and the request keeps its locks for ever:
    its bit is never cleared. *)
Theorem missing_dserv_keeps_locks s s' p d i :
  ureach s → missed s p d i → rtc ustep s s' → missed s' p d i ∧ writing s' p d i.
Proof using HZ Hids.
  intros Hi%ureach_inv Hm Hr. assert (missed s' p d i) as Hm'.
  { induction Hr as [|s s1 s2 Hs _ IH]; [done|]. apply IH; [by eapply ustep_inv|by eapply missed_step]. }
  split; [done|]. destruct Hm' as (zo & u & c & H1 & H2 & H3 & H4 & _). by exists zo, u, c.
Qed.

(** ** At rest *)
Context `{HTL : !TableLaws Z Z TH}.
(** nothing goes on, and every WRITE was answered *)
Definition all_quiet s : Prop :=
  at_rest (vec_sys s) ∧ ∀ p zo u, us_procs s !! p = Some (zo, u) → zu_calls u = [].

Lemma quiet_answered s p zo u d c vec es D :
  always_up → uinv s → all_quiet s → us_procs s !! p = Some (zo, u) → request_ok zo u d c vec es D → complete vec → zc_lock c = 0.
Proof.
  intros Hup _ [_ Hcalls] Hp Hr Hc. apply Z.bits_inj_0. intros i. destruct (Z.testbit (zc_lock c) i) eqn:E; [|done].
  pose proof (r_all _ _ _ _ _ _ _ Hr i Hup E Hc) as H. rewrite (Hcalls _ _ _ Hp) in H. by apply elem_of_nil in H.
Qed.
Lemma quiet_not_completed s : always_up → uinv s → all_quiet s → ¬ completed (vec_sys s).
Proof using HZ.
  intros Hup Hi Hq (p & zo & v & vec & es & j & e & Hp & Hvec & Hcomp & Hes & Hj).
  cbn in Hp. rewrite lookup_fmap in Hp. destruct (us_procs s !! p) as [[zo' u]|] eqn:Eps; [|done]. injection Hp as ->.
  destruct (k_vector _ _ _ _ (proj2 Hi _ _ _ Eps) Hvec) as (d & c & es0 & D & Hd & <- & Hr & _).
  assert (zc_lock c = 0) as Hlock by (by eapply quiet_answered). destruct Hr as [r1 r2 r3 r4 r5 r6 r7 r8 r9 r10 r11].
  rewrite Hes in r3. injection r3 as <-. destruct (proj1 Hq p zo) as (Hidle & _); [cbn; by eapply vec_sys_lookup|].
  destruct (r8 Hlock) as (_ & _ & [(t & i & H)|H]); [by rewrite Hidle in H|].
  pose proof (uinv_vec s p zo u Hi Eps) as (_ & _ & Hv). destruct (v_vec _ _ Hv _ _ Hvec) as [(_ & _ & Hok) _].
  destruct (Hok _ Hes) as (Hlen & _). apply lookup_lt_Some in Hj as Hlt. rewrite (H j) in Hj; [done| |done].
  unfold lv_count. lia.
Qed.
Lemma quiet_not_waiting s p zo v vec f : always_up → deletes → uinv s → all_quiet s → ¬ waits (vec_sys s) p zo v vec f.
Proof using HZ HTL.
  intros Hup Hdel Hi Hq Hw. apply (quiet_not_completed s Hup Hi Hq).
  destruct (ranks_bounded serv_rank (vec_sys s)) as [M HM].
  exact (waits_end _ _ serv_rank serv_named_good main_thread_one (vec_sys s) M p zo v vec f HM Hdel (proj1 Hi) (proj1 Hq) Hw).
Qed.

(** a vector that was locked has all its locks *)
Lemma quiet_complete s p zo u v vec es :
  always_up → deletes → uinv s → all_quiet s → us_procs s !! p = Some (zo, u) → z_vecs zo !! v = Some vec →
  lv_lock_elems vec = Some es → complete vec.
Proof using HZ HTL.
  intros Hup Hdel Hi Hq Hp Hvec Hes. pose proof (uinv_vec s p zo u Hi Hp) as (_ & _ & Hv).
  destruct (v_vec _ _ Hv _ _ Hvec) as [(_ & _ & Hok) _]. destruct (Hok _ Hes) as (Hlen & Hcurr & _).
  destruct (decide (lv_count vec <= lv_curr vec)) as [?|Hlt]; [by split; [eexists|]|]. exfalso. unfold lv_count in *.
  destruct (lookup_lt_is_Some_2 (lv_filenames vec) (Z.to_nat (lv_curr vec))) as [f Hf]; [lia|].
  apply (quiet_not_waiting s p zo v vec f Hup Hdel Hi Hq). split; [cbn; by eapply vec_sys_lookup|]. split; [done|].
  split; [by eexists|]. split; [lia|done].
Qed.

(** C3. No request is left: in every state at rest in which the WRITEs are
    answered, each request of each client was told that it has its locks, got
    all its answers, and has released what it had - no element of a lock is left
    in any client.  The clients do not block each other, whatever sets of data
    servers they ask for, because each locks in the order of the ids.  This is of
    runs in which: the data servers are connected ([always_up]) and the deletes
    of the service work ([deletes]); no process was told of an error of the
    service (part of [at_rest]: a failed [zoo_wget_children] leaves a waiter for
    ever) and the ids of its elements have not wrapped; the file has the ids of
    a line in increasing order ([Hids], as [gen_random_id] writes them); sessions
    last ([ZkLaws]); and the watcher is called only while no thread of its
    process tests an element ([ustep_event]), which [try_lock_watcher] does not
    see to. *)
Theorem ud_no_deadlock s p zo u :
  always_up → deletes → ureach s → all_quiet s → us_procs s !! p = Some (zo, u) →
  (∀ d c, zu_clients u !! d = Some c → CalledLockv d (zc_v c) ∈ z_called zo ∧ zc_lock c = 0) ∧ z_elems zo = ∅.
Proof using HZ HTL Hids.
  intros Hup Hdel Hi%ureach_inv Hq Hp. pose proof (proj2 Hi _ _ _ Hp) as Hk.
  pose proof (vec_sys_lookup _ _ _ _ Hp) as Hp'. pose proof (uinv_vec s p zo u Hi Hp) as (Ht & Hc & Hv).
  destruct (proj1 Hq p zo) as (Hidle & _); [done|]. split.
  - intros d c Hd. destruct (k_req _ _ Hk _ _ Hd) as (vec & es & D & Hr).
    assert (complete vec) as Hcomp by (eapply quiet_complete; try done; [by eapply r_vec|by eapply r_elems]).
    split; [by apply (r_called _ _ _ _ _ _ _ Hr)|by eapply quiet_answered].
  - apply map_empty. intros e. destruct (z_elems zo !! e) as [el|] eqn:Hel; [|done]. exfalso. destruct (el_callback el) as [cb|] eqn:Hcb.
    + assert (cb = CbLockv) as ->. { pose proof (v_cb _ Ht e el Hel) as H. rewrite Hcb in H. by destruct cb. }
      destruct (v_carr _ Hc (inr e) (el_d el) (el_parent_path el)) as (vec & f & Hvec & Htk & _).
      { exists el. unfold el_carr. by rewrite Hcb. }
      by apply (quiet_not_waiting s p zo (el_d el) vec f Hup Hdel Hi Hq).
    + destruct (v_owned _ _ Hv e el Hel Hcb) as [(t & cb & d & H)|(v & vec & es & j & Hvec & Hes & Hj)]; [by rewrite Hidle in H|].
      apply (quiet_not_completed s Hup Hi Hq). exists p, zo, v, vec, es, j, e. split_and!; try done. by eapply quiet_complete.
Qed.
End spec.
