(* ===== verification/ZooClientRun.v ===== *)
(** * Clients of the locks on ZooKeeper run

    The steps of [ZooClient] executed on the service in memory: two clients that
    ask for the same two data servers, until nothing is left to do. *)

From stdpp Require Import strings sorting.
From S2P Require Import Prelude SArray Packet Wire SHashSpec Cluster DLock ServGroup AccessId LockClient.
From S2P Require Import Zoo ZooLock ZooWake ZooProgress ZooRun ZooVec ZooVecSpec ZooVecRun ZooClient ZooClientSpec.
Local Open Scope Z_scope.

(** ** The steps *)
(** each line of the file is [1,2] *)
Definition line12 : list Z := [49; 44; 50; 10].
Definition file12 : option (list Z) := Some (concat (replicate 102 line12)).
Definition all_active : serv_id → bool := λ _, true.
Definition only (act active : serv_id → bool) : Prop := active = act.
Abbreviation run_usys := (usys mem_zk hash).

Inductive uact := UInit (p : Z) | UAccess (p : Z) | UThread (p t : Z) | UEvent (p t : Z) | UAnswer (p : Z).
Definition now0 : timeval := Tv 0 0.

Section exec.
Context (act : serv_id → bool).

Definition uexec (a : uact) (s : run_usys) : option run_usys :=
  let 'USys z ps := s in
  match a with
  | UInit p =>
      match ps !! p with
      | Some _ => None
      | None =>
          u ← s_ud_client_init 1 2 file12 now0;
          let '(z, zo) := s_zoo_init z p in Some (USys z (<[p := (zo, u)]> ps))
      end
  | UAccess p =>
      '(zo, u) ← ps !! p;
      if bool_decide (pc_of zo 0 = PIdle) && bool_decide (zu_todo u ≠ 0%nat) then
        '(u', zo') ← access_data p 0 u now0 zo;
        '(u'', _) ← run_called act (newly_called zo zo') u';
        Some (USys z (<[p := (zo', u'')]> ps))
      else None
  | UThread p t =>
      '(zo, u) ← ps !! p;
      if blocked zo t then None else
      '(z', zo') ← thread_step z p t zo;
      '(u', _) ← run_called act (newly_called zo zo') u;
      Some (USys z' (<[p := (zo', u')]> ps))
  | UEvent p t =>
      '(zo, u) ← ps !! p;
      match zk_events z p with
      | c :: _ =>
          if bool_decide (t ≠ 0) && bool_decide (pc_of zo t = PIdle) && calm_b zo && bool_decide (is_Some (z_tles zo !! c))
          then Some (USys (zk_deliver z p) (<[p := (goto t (PTle c) zo, u)]> ps)) else None
      | [] => None
      end
  | UAnswer p =>
      '(zo, u) ← ps !! p;
      match zu_calls u with
      | (id, d) :: calls =>
          if bool_decide (pc_of zo 0 = PIdle) && bool_decide (zu_todo u = 0%nat) then
            '(u', v_opt, _) ← write_callback id d now0 now0
              (Zud (zu_gid u) (zu_gcount u) (zu_max_try u) (zu_gtv u) (zu_access_id u) (zu_result u) (zu_C u) (zu_clients u)
                 (zu_nclient u) calls (zu_todo u));
            Some (USys z (<[p := (match v_opt with Some v => goto 0 (PUnlockv v 0) zo | None => zo end, u')]> ps))
          else None
      | [] => None
      end
  end.

Lemma uexec_step a s s' : uexec a s = Some s' → ustep (only act) file12 s s'.
Proof.
  destruct s as [z ps]. destruct a as [p|p|p t|p t|p]; cbn -[zk_events zk_deliver s_ud_client_init].
  - destruct (ps !! p) eqn:Hp; [done|]. destruct (s_ud_client_init _ _ _ _) as [u|] eqn:Hu; [|done]. cbn [mbind option_bind].
    destruct (s_zoo_init z p) as [z' zo] eqn:E. intros [= <-]. by eapply ustep_init.
  - destruct (ps !! p) as [[zo u]|] eqn:Hp; [|done]. cbn [mbind option_bind]. destruct (_ && _) eqn:Hb; [|done].
    apply andb_prop in Hb as [H1%bool_decide_eq_true H2%bool_decide_eq_true].
    destruct (access_data _ _ _ _ _) as [[u' zo']|] eqn:Ha; [|done]. cbn [mbind option_bind].
    destruct (run_called _ _ _) as [[u'' out]|] eqn:Hr; [|done]. intros [= <-]. by eapply ustep_access.
  - destruct (ps !! p) as [[zo u]|] eqn:Hp; [|done]. cbn [mbind option_bind]. destruct (blocked zo t) eqn:Hb; [done|].
    destruct (thread_step _ _ _ _) as [[z' zo']|] eqn:Ht; [|done]. cbn [mbind option_bind].
    destruct (run_called _ _ _) as [[u' out]|] eqn:Hr; [|done]. intros [= <-]. by eapply ustep_thread.
  - destruct (ps !! p) as [[zo u]|] eqn:Hp; [|done]. cbn [mbind option_bind]. destruct (zk_events z p) as [|c l] eqn:He; [done|].
    destruct (_ && _) eqn:Hb; [|done]. intros [= <-].
    apply andb_prop in Hb as [[[H1%bool_decide_eq_true H2%bool_decide_eq_true]%andb_prop H3]%andb_prop H4%bool_decide_eq_true].
    exact (ustep_event _ _ z ps p t zo u c l Hp H1 H2 He (calm_b_ok _ H3) H4).
  - destruct (ps !! p) as [[zo u]|] eqn:Hp; [|done]. cbn [mbind option_bind]. destruct (zu_calls u) as [|[id d] calls] eqn:Hc; [done|].
    destruct (_ && _) eqn:Hb; [|done]. apply andb_prop in Hb as [H1%bool_decide_eq_true H2%bool_decide_eq_true].
    destruct (write_callback _ _ _ _ _) as [[[u' v_opt] out]|] eqn:Hw; [|done]. intros [= <-].
    by apply (ustep_answer _ _ z ps p zo u id d now0 now0 u' v_opt out [] calls).
Qed.

Definition ustart0 : run_usys := USys (MemZk ∅ ∅ ∅ [] []) ∅.
Fixpoint uexec_all (l : list uact) (s : run_usys) : option run_usys :=
  match l with
  | [] => Some s
  | a :: l => s ← uexec a s; uexec_all l s
  end.
(** what can be done next, in this order *)
Definition uacts (p : Z) : list uact := [UThread p 0; UThread p 1; UEvent p 1; UAnswer p; UAccess p].
Definition unext (s : run_usys) : option run_usys :=
  foldr (λ a r, match uexec a s with Some s' => Some s' | None => r end) None (uacts 1 ++ uacts 2).
(** until nothing can *)
Fixpoint drive (n : nat) (s : run_usys) : run_usys :=
  match n with
  | O => s
  | S n => match unext s with Some s' => drive n s' | None => s end
  end.

Lemma uexec_all_steps l s s' : uexec_all l s = Some s' → rtc (ustep (only act) file12) s s'.
Proof.
  revert s. induction l as [|a l IH]; intros s H; cbn in H; [by injection H as <-|].
  destruct (uexec a s) as [s1|] eqn:E; [|done]. eapply rtc_l; [by eapply uexec_step|by apply IH].
Qed.
Lemma unext_step s s' : unext s = Some s' → ustep (only act) file12 s s'.
Proof.
  unfold unext. induction (uacts 1 ++ uacts 2) as [|a l IH]; [done|]. cbn. destruct (uexec a s) as [s1|] eqn:E; [|done].
  intros [= <-]. by eapply uexec_step.
Qed.
Lemma drive_steps n s : rtc (ustep (only act) file12) s (drive n s).
Proof.
  revert s. induction n as [|n IH]; intros s; cbn [drive]; [apply rtc_refl|]. destruct (unext s) as [s'|] eqn:E; [|apply rtc_refl].
  eapply rtc_l; [by apply unext_step|done].
Qed.

End exec.

Lemma file12_ok ids : s_access_id_create file12 = Some (Some ids) → Forall AccessId.ids_ok ids.
Proof.
  assert (s_access_id_create file12 = Some (Some (replicate 102 [1; 2]))) as E by (vm_compute; reflexivity).
  rewrite E. intros H. assert (ids = replicate 102 [1; 2]) as -> by congruence. apply Forall_replicate.
  split; [done|]. split; [repeat constructor; unfold serv_ok, MAX_DSERV; lia|]. repeat constructor; lia.
Qed.

(** ** Two clients *)
(** client 1 has its locks, and client 2 waits *)
Definition u_begin : list uact :=
  [UInit 1; UInit 2; UAccess 1] ++ replicate 10 (UThread 1 0) ++ [UAccess 2] ++ replicate 4 (UThread 2 0).
Definition u_told : run_usys := default ustart0 (uexec_all all_active u_begin ustart0).
Definition u_end : run_usys := drive all_active 100 u_told.
Lemma u_told_reach : ureach (only all_active) file12 u_told.
Proof.
  exists ustart0. split; [done|]. apply (uexec_all_steps all_active u_begin). vm_compute. reflexivity.
Qed.
Lemma u_end_reach : ureach (only all_active) file12 u_end.
Proof. destruct u_told_reach as (s0 & H0 & Hr). exists s0. split; [done|]. transitivity u_told; [exact Hr|exact (drive_steps all_active 100 u_told)]. Qed.

Definition uproc (s : run_usys) (p : Z) : proc * zclient :=
  default (zoo_empty, Zud 0 0 0 now0 [] [] 0 ∅ 0 [] 0) (us_procs s !! p).
(** all the WRITEs of these clients are answered *)
Definition answered_b (s : run_usys) : bool := bool_decide (map_Forall (λ _ x, zu_calls x.2 = []) (us_procs s)).
Lemma quiet_b_ok s : rest_b (vec_sys s) = true → answered_b s = true → all_quiet s.
Proof.
  intros H1 H2%bool_decide_eq_true. split; [by apply rest_b_ok|]. intros p zo u Hp. exact (H2 p (zo, u) Hp).
Qed.

Lemma ud_exclusion_witness : writing u_told 1 0 2 ∧ (1 = 1 ∧ 0 = 0).
Proof.
  assert (writing u_told 1 0 2) as Hw.
  { exists (uproc u_told 1).1, (uproc u_told 1).2, (default (ZClient (SId 0 0) 0 0 0 now0) (zu_clients (uproc u_told 1).2 !! 0)).
    split; [vm_compute; reflexivity|]. split; [vm_compute; reflexivity|]. split; [|vm_compute; reflexivity].
    assert (z_called (uproc u_told 1).1 = [CalledLockv 0 0]) as -> by (vm_compute; reflexivity). vm_compute. left. }
  split; [exact Hw|]. apply (ud_exclusion (only all_active) file12 file12_ok u_told 1 1 0 0 2).
  - exact u_told_reach.
  - exact Hw.
  - exact Hw.
Defined.

Lemma ud_no_deadlock_witness :
  z_called (uproc u_end 2).1 = [CalledLockv 0 0] ∧
  (∀ d c, zu_clients (uproc u_end 2).2 !! d = Some c →
    CalledLockv d (zc_v c) ∈ z_called (uproc u_end 2).1 ∧ zc_lock c = 0) ∧ z_elems (uproc u_end 2).1 = ∅.
Proof.
  split; [vm_compute; reflexivity|].
  apply (ud_no_deadlock (only all_active) file12 file12_ok u_end 2 (uproc u_end 2).1 (uproc u_end 2).2).
  - intros active i -> _. reflexivity.
  - exact mem_deletes.
  - exact u_end_reach.
  - apply quiet_b_ok; vm_compute; reflexivity.
  - vm_compute. reflexivity.
Defined.

(** ** A data server that is missing *)
(** data server 2 is not connected as client 1 gets its locks: whatever it does
    then, it holds them *)
Definition one_active (k : serv_id) : bool := bool_decide (k = Serv S_SERV_TYPE_D 1).
Definition u_missed : run_usys := default ustart0 (uexec_all one_active u_begin ustart0).
Lemma missed_reached : ureach (only one_active) file12 u_missed ∧ missed u_missed 1 0 2.
Proof.
  split.
  - exists ustart0. split; [done|]. apply (uexec_all_steps one_active u_begin). vm_compute. reflexivity.
  - exists (uproc u_missed 1).1, (uproc u_missed 1).2, (default (ZClient (SId 0 0) 0 0 0 now0) (zu_clients (uproc u_missed 1).2 !! 0)).
    split; [vm_compute; reflexivity|]. split; [vm_compute; reflexivity|]. split; [|split; [vm_compute; reflexivity|]].
    + assert (z_called (uproc u_missed 1).1 = [CalledLockv 0 0]) as -> by (vm_compute; reflexivity). vm_compute. left.
    + assert (zu_calls (uproc u_missed 1).2 = [(1, 0)]) as -> by (vm_compute; reflexivity). by intros [[=]|?%elem_of_nil]%elem_of_cons.
Qed.
(** client 2 never gets the lock of data server 2 *)
Theorem missing_dserv_blocks s d : rtc (ustep (only one_active) file12) u_missed s → ¬ writing s 2 d 2.
Proof.
  intros Hr Hw. destruct missed_reached as [Hu Hm].
  destruct (missing_dserv_keeps_locks _ _ file12_ok u_missed s 1 0 2 Hu Hm Hr) as [_ Hw1].
  destruct Hu as (s0 & H0 & Hu). assert (ureach (only one_active) file12 s) as Hs by (exists s0; split; [done|]; by transitivity u_missed).
  apply (ureach_inv _ _ file12_ok) in Hs. by destruct (writing_exclusive _ s 1 2 0 d 2 Hs Hw1 Hw) as [? _].
Qed.
